(* ===== verification/_CoqProject ===== *)
-Q . S2P
Prelude.v
Bytes.v
ObjId.v
HintMap.v
Mem.v
Types.v
IoVec.v
IoAlign.v
Hints.v
AttrsWire.v
Pools.v
PoolQuery.v
CStr.v
Clock.v
Logger.v
Conf.v
CmdHelpers.v
ObjService.v
ObjCmd.v
ObjCopy.v
ObjFile.v
ObjAsync.v
ObjAsyncCorrect.v
ObjArgs.v
Programs.v
IoThread.v
RwThreads.v
RwCorrect.v
RwLock.v
RwLockCorrect.v
IoPerf.v
Hsm.v
HsmMove.v
HsmShell.v
HintCmd.v
HintProg.v
Telem.v
TelemAddb.v
TelemLog.v
Telemetry.v
TelemLogFile.v
TelemTest.v
TelemParser.v
TelemAddbFile.v
DriverOp.v
KvsDriver.v
Api.v
KvsApi.v
KvsCmd.v
CompObj.v
CompProg.v
ObjDriver.v
Lifecycle.v
IoExec.v
IoSteps.v
IoWrite.v
IoRead.v
IoConc.v
