(* ===== verification/Prelude.v ===== *)
(** * A verification development for Maestro IO (cortx-mio)

    Maestro IO is a C library that offers objects, key-value sets, composite
    objects, pools, hints and telemetry to applications and implements them with
    a driver; the only driver is the one for Motr.  An application calls the API
    (src/mio.c), which checks its arguments, numbers operations and calls the
    driver (src/driver_motr*.c); the driver builds operations of Motr and links
    them into the chain of the MIO operation; Motr's callbacks run the
    post-processing actions of the chain, which may launch the next operation,
    and at the end the callback of the application.  File names below are under
    src/src/ unless they say otherwise.

    ** How the program is modelled

    - A C function is a function with the same name that returns an [outcome]:
      [Done] with its results, or a [Fault] where C has no defined behaviour
      (a NULL pointer, a read behind an array, a block freed twice or used after
      it was freed, an uninitialised value), where an assertion fails, or where a
      loop does not end.  State is passed explicitly.
    - Integers are [Z]; arithmetic of the code wraps at its width ([u8] to [u64],
      [s32]) where the C type does.  Error numbers are those of Linux.
    - malloc() may fail: the coming results are a list ([mplan], [h_plan]), an
      empty list stands for success.  Blocks of the heap ([Mem]) have numbers that
      are never used again, so a stale pointer is recognised.  Components that
      only need to know whether memory is there use [mplan], those where
      ownership matters use the heap.
    - Memory that is read before it is written is an argument ([stack], [junk] or
      the constructor [Uninit]).
    - Motr, libyaml, the operating system and Motr's dump utility are not part of
      the source.  What the program relies on is a class ([MotrStore],
      [MotrVecsOk], [MotrIndex], [MotrLayout], [MotrObjects], [AddbDump]) or an
      argument of the definitions; every class has an instance in the witnesses.

    ** The files

    Foundations:
    - Prelude: error numbers, faults and outcomes, integer widths, the hint
      database [cint] and the tactics [cint] and [outcome_inv].
    - Bytes (utils.c): bytes of integers on a host of either order.  Mem
      (utils.c): the heap.  CStr: strings, the functions of the C library on
      them, printing and scanning numbers.  Clock (utils.c, logger.c): the clock
      and time stamps.
    - ObjId (driver_motr_obj.c, driver_motr_kvs.c): conversions of identifiers.
      Types (mio.h, mio_internal.h): shared records and constants.

    Reading and writing objects (driver_motr_obj.c, lines 300-1397):
    - IoVec: limits, sizes of the arrays, sorting.  IoAlign: cutting vectors into
      pages.  IoExec: launching, read-before-write, the post-processing actions.
      IoSteps, IoWrite, IoRead: what one operation does and what whole calls do.

    The rest of the Motr driver:
    - DriverOp (mio_driver.c, driver_motr.c, mio_op_poll of mio.c): the chain of
      driver operations, callbacks, polling.
    - ObjDriver (driver_motr_obj.c): open, create, close, delete, sync, lock,
      attributes.  AttrsWire (driver_motr_obj.c): the stored attributes.
    - KvsDriver (driver_motr_kvs.c): key-value sets.  CompObj
      (driver_motr_comp_obj.c): layers and extents.
    - Pools (mio.c, driver_motr.c): pools and the choice of one.  PoolQuery
      (src/examples/mio_pool_query.c): the program that prints them, over the
      interface [PoolDriver], of which the Motr driver is shown to be an instance.

    The library above the driver:
    - HintMap and Hints (hints.c): the table of hints, hints of objects and of
      the system, hotness.  Api (mio.c): every function of the API over an
      arbitrary driver.  Lifecycle (mio.c, driver_motr.c, mio_driver.c): starting
      and stopping, the table of drivers, permission.  Conf (mio_conf.c): the
      configuration.  Logger (logger.c): the log.

    Telemetry:
    - Telem, Telemetry (mio_telemetry.c): records, advertising, parsing, and the
      interface [TelemetryChannel] of a store with its medium.
    - TelemAddb and TelemAddbFile (driver_motr_addb.c), TelemLog and TelemLogFile
      (telemetry_log.c): the two stores and their media.
    - TelemParser (src/telemetry/mio_telemetry_parser.c): the parser program.
      TelemTest (src/examples/mio_telemetry_test.c): a program that advertises.

    Whole paths through the library:
    - KvsApi (mio.c over driver_motr_kvs.c): key-value sets from the API to Motr.
      IoConc (driver_motr_obj.c): writes of one object that run at the same time.

    The programs of src/examples/, which use the library through its API:
    - CmdHelpers (helpers.c): ids, sizes in text form, random numbers.
    - ObjService: the interface between these programs and the library, with the
      laws that IoWrite, IoRead and ObjDriver show of the implementation, and an
      instance in memory.  HsmMove adds what moving needs ([HsmService]).
    - ObjCmd (obj.c, obj_io_poll.c): create, delete, write, read and copy in
      batches of blocks; ObjCopy and ObjFile have the theorems.  ObjAsync
      (obj_io_cbs.c): the same with callbacks; ObjAsyncCorrect.
    - ObjArgs (obj.c, kvs.c): the options; the results of getopt_long() are an
      argument.  Programs (mio_touch.c, mio_unlink.c, mio_copy.c, mio_cat.c): from
      the options to the commands, over [ObjLibrary].
    - KvsCmd (kvs.c): numbered pairs in batches, on top of KvsApi.
    - CompProg (mio_comp_obj.c): the example of composite objects, over the
      interface [CompService], which promises what CompObj shows of the driver.
    - HintProg (mio_obj_hints.c) and HintCmd (mio_hint_set.c, mio_hint_stat.c):
      objects in pools chosen by hints; setting and listing hints, over
      [HintDriver].
    - IoThread (io_thread.c), RwThreads (mio_rw_threads.c), RwLock
      (mio_rw_lock.c): writer and reader threads with two lists and with the lock
      of the object, as step relations; RwCorrect and RwLockCorrect.  IoPerf
      (mio_io_perf.c): the benchmark, which divides one object among threads.
    - Hsm (mio_hsm.c): the shell that moves objects between pools; HsmMove and
      HsmShell have the theorems.

    ** What the theorems show

    - Reads and writes: sorting gives a sorted permutation or refuses vectors that
      overlap; alignment covers exactly the vectors with whole pages and the data
      copies of their ends; a write changes exactly the bytes of its vectors and a
      read delivers exactly the object's bytes, over any number of Motr
      operations - with the one exception that is proved too: a write whose
      read-before-write takes more than one batch loses bytes.
    - Driver operations: the chain is released once; polling one operation
      returns, polling several can count the same operation again.
    - Hint maps refine finite maps of bounded size; a hint that is set is read
      back; hotness is mapped to a pool monotonically.
    - Objects: storing attributes and opening the object again gives them back;
      opening, deleting, creating, closing and locking are described for every
      failure of malloc().
    - Key-value sets and extents refine finite maps for every sequence of calls;
      layers refine a list; errors leave what the theorems say.
    - The API numbers operations uniquely, does nothing without an instance, and
      gives the driver what the application gave.
    - Starting gives a complete instance or none; permission agrees with its
      definition; stopping leaves a pointer to the freed instance.
    - Configuration: the table of pools keeps its invariant for every list of
      tokens; a section of pools gives the pools it names; finalising is safe
      exactly when the strings were configured.
    - Telemetry: both encodings are decoded to themselves, both media are queues
      of records, and the parser prints what an application advertised.
    - Writes of one page that run at the same time lose bytes, although each
      alone is correct.
    - Object commands: writing a file and reading it back gives its bytes, padded
      to whole blocks; a copy has the bytes of its origin; no other object changes
      whatever fails; with callbacks the same holds for every order of completion.
    - Moving an object between pools never loses its data, whatever fails.
    - The threads end, and while they run every object is at one place (lists), or
      only the holder of the lock writes (lock), for every interleaving.
    - Options in any order give the parameters they denote, and from the command line
      on a file that is copied to an object and back is the same.
    - The example of composite objects touches only its own objects and leaves what
      the theorem says; the benchmark's threads fill every block once; the programs
      on pools and hints print what the library keeps; the test of telemetry is read
      back by a parser.
    - The key-value commands put, show and delete exactly the numbered pairs, for
      any number of batches; sizes in text form are the numbers they denote.

    ** Bounds and fuel

    Recursion is structural where the loop counts, and else takes fuel, and
    [Fault NoTermination] when it is used up.  [clone_loop] has one round more than
    the aligned vectors have elements, and each round takes one
    ([motr_obj_iovec_adjust_correct] shows that they are enough);
    [blksize_loop] has one round more than the array of block sizes;
    [load_find], [addb_find] and [clean_loop] have one more than the bytes they
    read and every round takes at least one; [dec_digits] has the 20 digits of a
    64-bit number; [obj_complete] and [TelemParser.parse] are given fuel by their
    theorems, which hold from a stated number on; [poll_loop] is a loop that need
    not end, and its theorems say when it does (one round when Motr has completed
    the operation).  [batches_loop] needs one round more than there are batches, of
    which there are at most as many as blocks ([blocks_fuel]); [kvs_batches] one more
    than [kvs_rounds].  The step relations of the threads have no fuel: their
    theorems are about every execution, and termination is a measure.

    ** Not modelled

    The text of messages on stderr and of telemetry that the drivers emit about
    themselves; locks of the sequence numbers (the API is modelled as a sequence
    of calls); flushing of files.  Of the example programs: getopt_long(), whose
    results are an argument, usage texts, times and rates that are printed, and
    the six programs that run one command of kvs.c each (their options and their
    commands are modelled).  The Python tools that draw telemetry; tests and build
    files. *)

From Stdlib Require Export ZArith Lia.
From stdpp Require Export base tactics gmap numbers option list.

Open Scope Z_scope.

(** ** Error numbers

    The C code returns the negated values of <errno.h>; these are the Linux
    numbers. *)
Definition EPERM : Z := 1.
Definition ENOENT : Z := 2.
Definition EIO : Z := 5.
Definition E2BIG : Z := 7.
Definition ENOMEM : Z := 12.
Definition EINVAL : Z := 22.
Definition EOPNOTSUPP : Z := 95.
Definition ETIMEDOUT : Z := 110.

(** ** Faults and outcomes

    A C function either returns or has no defined behaviour / aborts.  Every
    definition whose C counterpart can do the latter returns an [outcome]. *)
Inductive fault :=
| AssertFail
| DivByZero
| NullDeref
| OutOfBounds
| UseAfterFree
| DoubleFree
| UninitRead
| NoTermination.

Inductive outcome (A : Type) :=
| Done (a : A)
| Fault (f : fault).

Arguments Done {A} a.
Arguments Fault {A} f.

#[global] Instance outcome_ret : MRet outcome := λ A a, Done a.
#[global] Instance outcome_bind : MBind outcome := λ A B k m,
  match m with Done a => k a | Fault f => Fault f end.

(** [assert(b)] of the C code. *)
Definition c_assert (b : bool) : outcome unit :=
  if b then Done tt else Fault AssertFail.

(** The GNU operator [a ?: b] on return codes. *)
Definition elvis (a : Z) (b : outcome Z) : outcome Z :=
  if a =? 0 then b else Done a.

(** ** Fixed-width integers

    An integer of the C code is a [Z] in the range of its type; these are the
    conversions to each type. *)
Definition u8 (x : Z) : Z := x mod 2 ^ 8.
Definition u16 (x : Z) : Z := x mod 2 ^ 16.
Definition u32 (x : Z) : Z := x mod 2 ^ 32.
Definition u64 (x : Z) : Z := x mod 2 ^ 64.
Definition s32 (x : Z) : Z := (x + 2 ^ 31) mod 2 ^ 32 - 2 ^ 31.
Definition s64 (x : Z) : Z := (x + 2 ^ 63) mod 2 ^ 64 - 2 ^ 63.

#[global] Instance fault_eq_dec : EqDecision fault.
Proof. solve_decision. Defined.

#[global] Instance outcome_eq_dec `{EqDecision A} : EqDecision (outcome A).
Proof. solve_decision. Defined.

(** ** Lemmas on outcomes *)
Lemma outcome_bind_Done {A B} (m : outcome A) (k : A → outcome B) (b : B) :
  m ≫= k = Done b ↔ ∃ a, m = Done a ∧ k a = Done b.
Proof.
  destruct m as [a|f]; simpl; split.
  - eauto.
  - intros (a' & [= ->] & ?). done.
  - done.
  - intros (a' & ? & ?). done.
Qed.

Lemma outcome_bind_Done_eq {A B} (m : outcome A) (k : A → outcome B) a :
  m = Done a → m ≫= k = k a.
Proof. by intros ->. Qed.

Lemma outcome_bind_assoc {A B C} (m : outcome A) (k : A → outcome B) (l : B → outcome C) :
  (m ≫= k) ≫= l = m ≫= (λ a, k a ≫= l).
Proof. by destruct m. Qed.

Lemma c_assert_Done b u : c_assert b = Done u ↔ b = true.
Proof. destruct b, u; simpl; by split. Qed.

(** ** Lemmas on fixed-width integers *)
Lemma u64_small x : 0 <= x < 2 ^ 64 → u64 x = x.
Proof. apply Z.mod_small. Qed.

Lemma u64_range x : 0 <= u64 x < 2 ^ 64.
Proof. apply Z.mod_pos_bound. lia. Qed.

Lemma u32_small x : 0 <= x < 2 ^ 32 → u32 x = x.
Proof. apply Z.mod_small. Qed.

Lemma u32_range x : 0 <= u32 x < 2 ^ 32.
Proof. apply Z.mod_pos_bound. lia. Qed.

Lemma u16_small x : 0 <= x < 2 ^ 16 → u16 x = x.
Proof. apply Z.mod_small. Qed.

Lemma u16_range x : 0 <= u16 x < 2 ^ 16.
Proof. apply Z.mod_pos_bound. lia. Qed.

Lemma u8_small x : 0 <= x < 2 ^ 8 → u8 x = x.
Proof. apply Z.mod_small. Qed.

Lemma u8_range x : 0 <= u8 x < 2 ^ 8.
Proof. apply Z.mod_pos_bound. lia. Qed.

Lemma s32_small x : - 2 ^ 31 <= x < 2 ^ 31 → s32 x = x.
Proof. unfold s32. intros. rewrite Z.mod_small; lia. Qed.

Lemma s32_range x : - 2 ^ 31 <= s32 x < 2 ^ 31.
Proof. unfold s32. pose proof (Z.mod_pos_bound (x + 2 ^ 31) (2 ^ 32)). lia. Qed.

Lemma u64_mod_pow x n : 0 <= n <= 64 → u64 x mod 2 ^ n = x mod 2 ^ n.
Proof.
  intros Hn. unfold u64. apply Z.mod_mod_divide.
  exists (2 ^ (64 - n)). rewrite <- Z.pow_add_r; [f_equal|..]; lia.
Qed.

Lemma s32_u64 x : s32 (u64 x) = s32 x.
Proof.
  unfold s32. f_equal.
  rewrite <- (Zplus_mod_idemp_l (u64 x)), u64_mod_pow by lia.
  apply Zplus_mod_idemp_l.
Qed.

(** ** Page arithmetic: [z] in pages of [p] bytes *)
Lemma div_mod_eq z p : 0 < p → z = p * (z / p) + z mod p.
Proof. intros Hp. apply Z.div_mod. lia. Qed.

Lemma mod_bound z p : 0 < p → 0 <= z mod p < p.
Proof. intros. by apply Z.mod_pos_bound. Qed.

(** Two multiples of [p] that are less than [p] apart in one direction are
    ordered. *)
Lemma mult_lt_le p a b : 0 < p → p * a < p * b + p → p * a <= p * b.
Proof. intros Hp H. apply Z.mul_le_mono_nonneg_l; nia. Qed.

(** ** Lists *)
Lemma app_cons_assoc {A} (l : list A) x k : l ++ x :: k = (l ++ [x]) ++ k.
Proof. by rewrite <- app_assoc. Qed.

(** ** Lists of threads and their steps *)

Lemma delete_insert_same {A} (l : list A) i x : delete i (<[i := x]> l) = delete i l.
Proof. revert i. induction l as [|y l IH]; intros [|i]; simpl; [done..|by rewrite <- IH]. Qed.

(** The thread [i] and the others. *)
Lemma thread_split {A} (l : list A) i x y :
  l !! i = Some x → l ≡ₚ x :: delete i l ∧ <[i := y]> l ≡ₚ y :: delete i l.
Proof.
  intros Hi. split; [by apply delete_Permutation|]. rewrite <- (delete_insert_same l i y).
  apply delete_Permutation. apply list_lookup_insert_eq. by eapply lookup_lt_Some.
Qed.

Lemma sum_split {A} (f : A → nat) l i x y :
  l !! i = Some x →
  sum_list_with f l = (f x + sum_list_with f (delete i l))%nat ∧
  sum_list_with f (<[i := y]> l) = (f y + sum_list_with f (delete i l))%nat.
Proof. intros Hi. destruct (thread_split l i x y Hi) as [Hp Hp']. split; [by rewrite Hp at 1|by rewrite Hp']. Qed.

Lemma all_or_one {A} (P : A → Prop) l : (∀ x, P x ∨ ¬ P x) → Forall P l ∨ ∃ i x, l !! i = Some x ∧ ¬ P x.
Proof.
  intros Hdec. induction l as [|x l [IH|(i & y & Hi & Hy)]]; [by left| |right; by exists (S i), y].
  destruct (Hdec x); [left; by constructor|right; by exists O, x].
Qed.

Lemma sum_replicate {A} (f : A → nat) n x : sum_list_with f (replicate n x) = (n * f x)%nat.
Proof. induction n as [|n IH]; [done|]. cbn [replicate sum_list_with]. lia. Qed.

(** A measure that every step decreases bounds the number of steps. *)
Lemma nsteps_measure {A} (R : relation A) (m : A → nat) n s s' :
  (∀ a b, R a b → (m b < m a)%nat) → nsteps R n s s' → (n + m s' <= m s)%nat.
Proof. intros Hm. induction 1 as [s|n a b c Hab _ IH]; [lia|]. apply Hm in Hab. lia. Qed.

(** ** Automation *)
Create HintDb cint.
Create Rewrite HintDb cint.
#[export] Hint Resolve u8_range u16_range u32_range u64_range s32_range : cint.
#[export] Hint Rewrite u8_small u16_small u32_small u64_small s32_small
  using lia : cint.

(** Removes the width conversions whose argument is in range. *)
Ltac cint_step f lem :=
  match goal with
  | |- context [f ?x] => rewrite (lem x) by lia
  | H : context [f ?x] |- _ => rewrite (lem x) in H by lia
  end.
Ltac cint :=
  autorewrite with cint in *;
  repeat first [cint_step u64 u64_small | cint_step s32 s32_small | cint_step u32 u32_small
               | cint_step u16 u16_small | cint_step u8 u8_small].

(** Decomposes every successful bind among the hypotheses. *)
Ltac outcome_inv :=
  repeat match goal with
  | H : Fault _ = Done _ |- _ => discriminate H
  | H : Done _ = Fault _ |- _ => discriminate H
  | H : Done _ = Done _ |- _ => injection H as H; subst
  | H : mret _ = Done _ |- _ => injection H as H; subst
  | H : (_ ≫= _) = Done _ |- _ =>
      apply outcome_bind_Done in H; destruct H as (? & ? & ?)
  | H : c_assert _ = Done _ |- _ => apply c_assert_Done in H
  | x : unit |- _ => destruct x
  | x : (_ * _)%type |- _ => destruct x; simpl in *
  end.
