(* ===== verification/Bytes.v ===== *)
(** * Bytes and byte order (src/utils.c)

    The memory representation of integers on the host, and the byte-order
    conversions of src/utils.c.  The host's own order is a parameter
    ([HostOrder]), so every lemma holds on both kinds of machine. *)

From S2P Require Import Prelude.

(** A byte of memory is a [Z] in [0, 256). *)
Definition is_byte (b : Z) : Prop := 0 <= b < 256.

(** The [n] low-order bytes of [z], least significant first. *)
Fixpoint le_bytes (n : nat) (z : Z) : list Z :=
  match n with
  | O => []
  | S n' => z mod 256 :: le_bytes n' (z / 256)
  end.

(** The number that a list of bytes denotes, least significant first. *)
Fixpoint le_val (l : list Z) : Z :=
  match l with
  | [] => 0
  | b :: l' => b + 256 * le_val l'
  end.

(** An [n]-byte integer with its bytes in the opposite order. *)
Definition bswap (n : nat) (z : Z) : Z := le_val (reverse (le_bytes n z)).

(** The order of the host that runs the program: true for big endian. *)
Class HostOrder := host_big : bool.

Section ByteOrder.
Context `{HostOrder}.

(** The bytes an [n]-byte integer occupies in memory, and the integer that a
    load reads back. *)
Definition native (n : nat) (z : Z) : list Z :=
  if host_big then reverse (le_bytes n z) else le_bytes n z.

Definition of_native (l : list Z) : Z :=
  if host_big then le_val (reverse l) else le_val l.

Definition cpu_to_be (n : nat) (z : Z) : Z :=
  if host_big then z else bswap n z.

Definition cpu_to_le (n : nat) (z : Z) : Z :=
  if host_big then bswap n z else z.

Definition mio_byteorder_cpu_to_be64 (cpu_64bits : Z) : Z := cpu_to_be 8 cpu_64bits.
Definition mio_byteorder_be64_to_cpu (big_endian_64bits : Z) : Z :=
  cpu_to_be 8 big_endian_64bits.
Definition mio_byteorder_cpu_to_le16 (cpu_16bits : Z) : Z := cpu_to_le 2 cpu_16bits.
Definition mio_byteorder_le16_to_cpu (le_16bits : Z) : Z := cpu_to_le 2 le_16bits.
Definition mio_byteorder_cpu_to_le32 (cpu_32bits : Z) : Z := cpu_to_le 4 cpu_32bits.
Definition mio_byteorder_le32_to_cpu (le_32bits : Z) : Z := cpu_to_le 4 le_32bits.
Definition mio_byteorder_cpu_to_le64 (cpu_64bits : Z) : Z := cpu_to_le 8 cpu_64bits.
Definition mio_byteorder_le64_to_cpu (le_64bits : Z) : Z := cpu_to_le 8 le_64bits.

End ByteOrder.

(** ** Splitting and combining *)

Lemma length_le_bytes n z : length (le_bytes n z) = n.
Proof. revert z; induction n; intros; simpl; auto. Qed.

Lemma le_bytes_byte n z : Forall is_byte (le_bytes n z).
Proof.
  revert z; induction n; intros; simpl; constructor; auto.
  unfold is_byte. apply Z.mod_pos_bound. lia.
Qed.

Lemma le_val_range l : Forall is_byte l → 0 <= le_val l < 256 ^ Z.of_nat (length l).
Proof.
  induction 1 as [|b l Hb Hl IH]; simpl le_val; simpl length; [lia|].
  rewrite Nat2Z.inj_succ, Z.pow_succ_r by lia. unfold is_byte in Hb. lia.
Qed.

Lemma le_val_le_bytes n z : le_val (le_bytes n z) = z mod 256 ^ Z.of_nat n.
Proof.
  revert z; induction n as [|n IH]; intros z.
  - simpl. by rewrite Z.mod_1_r.
  - simpl le_bytes. simpl le_val. rewrite IH, Nat2Z.inj_succ, Z.pow_succ_r by lia.
    by rewrite Z.rem_mul_r by lia.
Qed.

Lemma le_bytes_le_val l : Forall is_byte l → le_bytes (length l) (le_val l) = l.
Proof.
  induction 1 as [|b l Hb Hl IH]; simpl; [done|]. unfold is_byte in Hb.
  rewrite (Z.add_comm b), (Z.mul_comm 256). f_equal.
  - rewrite Z.add_comm, Z_mod_plus_full. by apply Z.mod_small.
  - rewrite Z.div_add_l, (Z.div_small b), Z.add_0_r by lia. done.
Qed.

Lemma le_bytes_mod n z : le_bytes n z = le_bytes n (z mod 256 ^ Z.of_nat n).
Proof.
  rewrite <- le_val_le_bytes. rewrite <- (length_le_bytes n z) at 2.
  by rewrite le_bytes_le_val by apply le_bytes_byte.
Qed.

Lemma le_bytes_small n z :
  0 <= z < 256 ^ Z.of_nat n → le_val (le_bytes n z) = z.
Proof. intros. rewrite le_val_le_bytes. by apply Z.mod_small. Qed.

(** Byte [i] of the little-endian split is bits [8 i .. 8 i + 7]. *)
Lemma le_bytes_lookup n z i :
  (i < n)%nat → le_bytes n z !! i = Some (z / 256 ^ Z.of_nat i mod 256).
Proof.
  revert z i; induction n as [|n IH]; intros z [|i] Hi; simpl; try lia.
  - by rewrite Z.div_1_r.
  - rewrite IH by lia. do 2 f_equal.
    rewrite Z.div_div by lia. f_equal.
    change (Z.pos (Pos.of_succ_nat i)) with (Z.of_nat (S i)).
    rewrite Nat2Z.inj_succ, Z.pow_succ_r; lia.
Qed.

(** ** Byte order *)

Lemma bswap_range n z : 0 <= bswap n z < 256 ^ Z.of_nat n.
Proof.
  unfold bswap.
  pose proof (le_val_range (reverse (le_bytes n z))) as Hr.
  rewrite length_reverse, length_le_bytes in Hr. apply Hr.
  apply Forall_reverse, le_bytes_byte.
Qed.

Lemma le_bytes_bswap n z : le_bytes n (bswap n z) = reverse (le_bytes n z).
Proof.
  unfold bswap. rewrite <- (length_le_bytes n z) at 1.
  rewrite <- length_reverse. apply le_bytes_le_val.
  apply Forall_reverse, le_bytes_byte.
Qed.

Lemma bswap_involutive n z : 0 <= z < 256 ^ Z.of_nat n → bswap n (bswap n z) = z.
Proof.
  intros Hz. unfold bswap at 1. rewrite le_bytes_bswap, reverse_involutive.
  by apply le_bytes_small.
Qed.

Section ByteOrderLemmas.
Context `{HostOrder}.

Lemma length_native n z : length (native n z) = n.
Proof.
  unfold native. destruct host_big; rewrite ?length_reverse; apply length_le_bytes.
Qed.

Lemma native_byte n z : Forall is_byte (native n z).
Proof.
  unfold native. destruct host_big; [apply Forall_reverse|]; apply le_bytes_byte.
Qed.

Lemma of_native_native n z :
  0 <= z < 256 ^ Z.of_nat n → of_native (native n z) = z.
Proof.
  intros Hz. unfold of_native, native. destruct host_big;
    rewrite ?reverse_involutive; by apply le_bytes_small.
Qed.

Lemma native_of_native l :
  Forall is_byte l → native (length l) (of_native l) = l.
Proof.
  intros Hl. unfold of_native, native. destruct host_big.
  - rewrite <- length_reverse at 1.
    rewrite le_bytes_le_val, reverse_involutive; [done|by apply Forall_reverse].
  - by apply le_bytes_le_val.
Qed.

Lemma of_native_range l :
  Forall is_byte l → 0 <= of_native l < 256 ^ Z.of_nat (length l).
Proof.
  intros Hl. unfold of_native. destruct host_big.
  - rewrite <- length_reverse. by apply le_val_range, Forall_reverse.
  - by apply le_val_range.
Qed.

(** In memory, a value converted to big (little) endian has its most (least)
    significant byte first whatever the host. *)
Lemma native_cpu_to_be n z : native n (cpu_to_be n z) = reverse (le_bytes n z).
Proof.
  unfold native, cpu_to_be. destruct host_big; [done|apply le_bytes_bswap].
Qed.

Lemma native_cpu_to_le n z : native n (cpu_to_le n z) = le_bytes n z.
Proof.
  unfold native, cpu_to_le. destruct host_big; [|done].
  by rewrite le_bytes_bswap, reverse_involutive.
Qed.

Lemma cpu_to_be_involutive n z :
  0 <= z < 256 ^ Z.of_nat n → cpu_to_be n (cpu_to_be n z) = z.
Proof. intros. unfold cpu_to_be. destruct host_big; [done|by apply bswap_involutive]. Qed.

Lemma cpu_to_le_involutive n z :
  0 <= z < 256 ^ Z.of_nat n → cpu_to_le n (cpu_to_le n z) = z.
Proof. intros. unfold cpu_to_le. destruct host_big; [by apply bswap_involutive|done]. Qed.

Lemma cpu_to_be_range n z :
  0 <= z < 256 ^ Z.of_nat n → 0 <= cpu_to_be n z < 256 ^ Z.of_nat n.
Proof. intros. unfold cpu_to_be. destruct host_big; [done|apply bswap_range]. Qed.

Lemma cpu_to_le_range n z :
  0 <= z < 256 ^ Z.of_nat n → 0 <= cpu_to_le n z < 256 ^ Z.of_nat n.
Proof. intros. unfold cpu_to_le. destruct host_big; [apply bswap_range|done]. Qed.

(** Loading a converted value and converting it back. *)
Lemma of_native_be n l :
  length l = n → Forall is_byte l →
  cpu_to_be n (of_native l) = le_val (reverse l).
Proof.
  intros <- Hl. unfold cpu_to_be, of_native. destruct host_big; [done|].
  unfold bswap. by rewrite le_bytes_le_val.
Qed.

Lemma of_native_le n l :
  length l = n → Forall is_byte l →
  cpu_to_le n (of_native l) = le_val l.
Proof.
  intros <- Hl. unfold cpu_to_le, of_native. destruct host_big; [|done].
  unfold bswap. rewrite <- length_reverse at 1.
  rewrite le_bytes_le_val, reverse_involutive; [done|by apply Forall_reverse].
Qed.
End ByteOrderLemmas.

(** ** Byte buffers *)

(** [n] bytes are read or written at [pos]; outside the buffer this is an error
    of the program. *)
Definition buf_get (buf : list Z) (pos n : nat) : outcome (list Z) :=
  if decide (pos + n <= length buf)%nat then Done (take n (drop pos buf)) else Fault OutOfBounds.

Definition buf_put (buf : list Z) (pos : nat) (bytes : list Z) : outcome (list Z) :=
  if decide (pos + length bytes <= length buf)%nat
  then Done (take pos buf ++ bytes ++ drop (pos + length bytes) buf)
  else Fault OutOfBounds.

Lemma buf_put_app pre old new post :
  length old = length new →
  buf_put (pre ++ old ++ post) (length pre) new = Done (pre ++ new ++ post).
Proof.
  intros Hlen. unfold buf_put. rewrite !length_app, decide_True by lia.
  rewrite take_app_length, drop_app, drop_ge by lia.
  replace (length pre + length new - length pre)%nat with (length new) by lia.
  rewrite <- Hlen, drop_app_length. done.
Qed.

Lemma buf_get_app pre bytes post :
  buf_get (pre ++ bytes ++ post) (length pre) (length bytes) = Done bytes.
Proof.
  unfold buf_get. rewrite !length_app, decide_True by lia.
  by rewrite drop_app_length, take_app_length.
Qed.

(** Writing at the end of what was written, in a zeroed buffer with [k] bytes
    left: it succeeds exactly when there is room. *)
Lemma buf_put_end out k bytes :
  buf_put (out ++ replicate k 0) (length out) bytes =
    if decide (length bytes <= k)%nat
    then Done ((out ++ bytes) ++ replicate (k - length bytes) 0) else Fault OutOfBounds.
Proof.
  unfold buf_put. rewrite length_app, length_replicate. repeat case_decide; try lia; [|done].
  rewrite take_app_length, drop_app_ge by lia.
  replace (length out + length bytes - length out)%nat with (length bytes) by lia.
  by rewrite drop_replicate, app_assoc.
Qed.

Section BufferInts.
Context `{HostOrder}.

Lemma buf_get_native w x pre post :
  buf_get (pre ++ native w x ++ post) (length pre) w = Done (native w x).
Proof. rewrite <- (buf_get_app pre _ post). by rewrite length_native. Qed.
End BufferInts.

#[export] Hint Resolve native_byte le_bytes_byte : cint.
