(* ===== verification/ObjId.v ===== *)
(** * Identifiers (src/driver_motr_obj.c, src/driver_motr_kvs.c)

    The conversions between MIO's byte-array identifiers and Motr's 128-bit
    integers, and between pool ids and Motr fids. *)

From S2P Require Import Prelude Bytes.

(** [struct mio_obj_id] is its array of MIO_OBJ_ID_LEN bytes. *)
Definition MIO_OBJ_ID_LEN : nat := 16.

Record mio_obj_id := MkObjId { moi_bytes : list Z }.

(** [struct m0_uint128], [struct m0_fid] of Motr: two unsigned 64-bit words. *)
Record m0_uint128 := MkU128 { u_hi : Z; u_lo : Z }.
Record m0_fid := MkFid { f_container : Z; f_key : Z }.

Record mio_pool_id := MkPoolId { mpi_hi : Z; mpi_lo : Z }.

#[global] Instance mio_obj_id_eq_dec : EqDecision mio_obj_id.
Proof. solve_decision. Defined.
#[global] Instance m0_uint128_eq_dec : EqDecision m0_uint128.
Proof. solve_decision. Defined.
#[global] Instance mio_pool_id_eq_dec : EqDecision mio_pool_id.
Proof. solve_decision. Defined.

(** A value of the C types: 16 bytes; two 64-bit words. *)
Definition obj_id_ok (oid : mio_obj_id) : Prop :=
  length (moi_bytes oid) = MIO_OBJ_ID_LEN ∧ Forall is_byte (moi_bytes oid).
Definition u128_ok (u : m0_uint128) : Prop :=
  0 <= u_hi u < 2 ^ 64 ∧ 0 <= u_lo u < 2 ^ 64.

Section Conversions.
Context `{HostOrder}.

(** [mio__uint128_to_obj_id]: each word is converted to big endian and its
    8 bytes copied. *)
Definition mio__uint128_to_obj_id (u : m0_uint128) : mio_obj_id :=
  let hi := mio_byteorder_cpu_to_be64 (u_hi u) in
  let lo := mio_byteorder_cpu_to_be64 (u_lo u) in
  MkObjId (native 8 hi ++ native 8 lo).

(** [mio__obj_id_to_uint128]: two 64-bit loads at bytes 0 and 8. *)
Definition mio__obj_id_to_uint128 (oid : mio_obj_id) : m0_uint128 :=
  let hi := of_native (take 8 (moi_bytes oid)) in
  let lo := of_native (take 8 (drop 8 (moi_bytes oid))) in
  MkU128 (mio_byteorder_be64_to_cpu hi) (mio_byteorder_be64_to_cpu lo).

(** Motr's macro M0_FID_TINIT (type, container, key), not part of MIO. *)
Context (fid_tinit : Z → Z → Z → m0_fid).

(** [kvs_id_to_uint128]: the 16 bytes of a key-value set id give an index fid
    of type 'x' (ASCII 120). *)
Definition kvs_id_to_uint128 (kid : mio_obj_id) : m0_uint128 :=
  let hi := mio_byteorder_be64_to_cpu (of_native (take 8 (moi_bytes kid))) in
  let lo := mio_byteorder_be64_to_cpu (of_native (take 8 (drop 8 (moi_bytes kid)))) in
  let idx_fid := fid_tinit 120 hi lo in
  MkU128 (f_container idx_fid) (f_key idx_fid).
End Conversions.

Definition mio__motr_pool_id_to_fid (pool_id : mio_pool_id) : m0_fid :=
  MkFid (mpi_hi pool_id) (mpi_lo pool_id).

Definition mio__motr_fid_to_pool_id (fid : m0_fid) : mio_pool_id :=
  MkPoolId (f_container fid) (f_key fid).

Definition mio_obj_pool_id_cmp (pool_id1 pool_id2 : mio_pool_id) : bool :=
  if (mpi_hi pool_id1 =? mpi_hi pool_id2) && (mpi_lo pool_id1 =? mpi_lo pool_id2)
  then true else false.

Lemma mio_obj_pool_id_cmp_spec a b : mio_obj_pool_id_cmp a b = true ↔ a = b.
Proof.
  unfold mio_obj_pool_id_cmp. destruct a as [ah al], b as [bh bl]; simpl.
  destruct (ah =? bh) eqn:E1, (al =? bl) eqn:E2; simpl;
    rewrite ?Z.eqb_eq, ?Z.eqb_neq in *; split; congruence.
Qed.

Section ConversionLemmas.
Context `{HostOrder}.

Lemma uint128_to_obj_id_ok u : obj_id_ok (mio__uint128_to_obj_id u).
Proof.
  split; simpl.
  - by rewrite length_app, !length_native.
  - apply Forall_app; split; apply native_byte.
Qed.

Lemma obj_id_to_uint128_ok oid : obj_id_ok oid → u128_ok (mio__obj_id_to_uint128 oid).
Proof.
  intros [Hlen Hb]. unfold MIO_OBJ_ID_LEN in Hlen. destruct oid as [l]; cbn [moi_bytes] in *.
  assert (Hw : ∀ k, length k = 8%nat → Forall is_byte k → 0 <= mio_byteorder_be64_to_cpu (of_native k) < 2 ^ 64).
  { intros k Hk Hkb. apply (cpu_to_be_range 8). rewrite <- Hk. by apply of_native_range. }
  unfold mio__obj_id_to_uint128. split; cbn [u_hi u_lo moi_bytes]; apply Hw;
    first [by rewrite ?length_take, ?length_drop; lia|by auto using Forall_take, Forall_drop].
Qed.

(** Object identifiers and 128-bit integers are the same data: the two
    conversions are inverse on the values of the C types, whatever the byte
    order of the host, and byte [i] of an identifier is the [i]-th most
    significant byte of its word ("lower-indexed/big-endian ordering" of
    src/mio.h). *)
Theorem obj_id_uint128_roundtrip (u : m0_uint128) (oid : mio_obj_id)
    (Hu : u128_ok u) (Hoid : obj_id_ok oid) :
  mio__obj_id_to_uint128 (mio__uint128_to_obj_id u) = u ∧
  mio__uint128_to_obj_id (mio__obj_id_to_uint128 oid) = oid ∧
  ∀ i, (i < 8)%nat →
    moi_bytes (mio__uint128_to_obj_id u) !! i =
      Some (u_hi u / 2 ^ (8 * (7 - Z.of_nat i)) mod 256) ∧
    moi_bytes (mio__uint128_to_obj_id u) !! (8 + i)%nat =
      Some (u_lo u / 2 ^ (8 * (7 - Z.of_nat i)) mod 256).
Proof.
  destruct Hu as [Hhi Hlo], Hoid as [Hlen Hb]. unfold MIO_OBJ_ID_LEN in Hlen.
  assert (Hw : ∀ w i, (i < 8)%nat →
    native 8 (cpu_to_be 8 w) !! i = Some (w / 2 ^ (8 * (7 - Z.of_nat i)) mod 256)).
  { intros w i Hi. rewrite native_cpu_to_be.
    rewrite reverse_lookup by (rewrite length_le_bytes; lia).
    rewrite length_le_bytes, le_bytes_lookup by lia.
    do 3 f_equal. change 256 with (2 ^ 8) at 1. rewrite <- Z.pow_mul_r by lia.
    f_equal. lia. }
  split_and!.
  - destruct u as [hi lo]; unfold mio__obj_id_to_uint128, mio__uint128_to_obj_id; simpl in *.
    unfold mio_byteorder_be64_to_cpu, mio_byteorder_cpu_to_be64.
    rewrite take_app_length', drop_app_length' by (by rewrite length_native).
    rewrite take_ge by (by rewrite length_native).
    by rewrite !of_native_native, !cpu_to_be_involutive
      by (try apply cpu_to_be_range; done).
  - destruct oid as [l]; unfold mio__obj_id_to_uint128, mio__uint128_to_obj_id; simpl in *.
    unfold mio_byteorder_be64_to_cpu, mio_byteorder_cpu_to_be64.
    assert (H8 : length (take 8 l) = 8%nat) by (rewrite length_take; lia).
    assert (H8' : length (take 8 (drop 8 l)) = 8%nat)
      by (rewrite length_take, length_drop; lia).
    assert (Hr : ∀ k, length k = 8%nat → Forall is_byte k →
      native 8 (cpu_to_be 8 (cpu_to_be 8 (of_native k))) = k).
    { intros k Hk Hkb. rewrite cpu_to_be_involutive.
      - rewrite <- Hk. by apply native_of_native.
      - rewrite <- Hk. by apply of_native_range. }
    rewrite !Hr; auto using Forall_take, Forall_drop.
    rewrite (take_ge (drop 8 l)) by (rewrite length_drop; lia).
    by rewrite take_drop.
  - intros i Hi. unfold mio__uint128_to_obj_id; simpl.
    unfold mio_byteorder_cpu_to_be64. split.
    + rewrite lookup_app_l by (by rewrite length_native). by apply Hw.
    + rewrite lookup_app_r by (rewrite length_native; lia).
      rewrite length_native.
      match goal with |- _ !! ?k = _ => replace k with i by lia end. by apply Hw.
Qed.
End ConversionLemmas.

Lemma obj_id_uint128_roundtrip_witness :
  let _ : HostOrder := false in
  mio__obj_id_to_uint128 (mio__uint128_to_obj_id (MkU128 1 12346800)) = MkU128 1 12346800.
Proof.
  intros host.
  refine (proj1 (obj_id_uint128_roundtrip (MkU128 1 12346800)
    (MkObjId (replicate 16 7)) _ _)).
  - split; simpl; lia.
  - split; [reflexivity|]. repeat constructor; simpl; lia.
Defined.
