(* ===== verification/HintMap.v ===== *)
(** * Hint maps (src/hints.c, struct mio_hint_map of src/mio_internal.h)

    A hint map is a pair of arrays of keys and values of which the first
    [mhm_nr_set] entries are in use.  The operations are the loops of the C
    code, with every array access checked; the lemmas show that on well-formed
    maps they implement a finite map of bounded size ([hint_abs]). *)

From S2P Require Import Prelude.

(** A pointer to a heap array: NULL, dangling after free(), or live. *)
Inductive arr :=
| ArrNull
| ArrFreed
| Arr (l : list Z).

Definition arr_get (a : arr) (i : nat) : outcome Z :=
  match a with
  | ArrNull => Fault NullDeref
  | ArrFreed => Fault UseAfterFree
  | Arr l => match l !! i with Some x => Done x | None => Fault OutOfBounds end
  end.

Definition arr_set (a : arr) (i : nat) (x : Z) : outcome arr :=
  match a with
  | ArrNull => Fault NullDeref
  | ArrFreed => Fault UseAfterFree
  | Arr l => if decide (i < length l)%nat then Done (Arr (<[i:=x]> l))
             else Fault OutOfBounds
  end.

(** [mio_mem_free] on an array pointer; the variable keeps the stale value. *)
Definition arr_free (a : arr) : outcome arr :=
  match a with
  | ArrNull => Done ArrNull
  | ArrFreed => Fault DoubleFree
  | Arr _ => Done ArrFreed
  end.

(** The results of the coming calls of malloc(), true for success; once the
    list is exhausted every call succeeds. *)
Abbreviation mplan := (list bool).

Definition plan_next (p : mplan) : bool * mplan :=
  match p with [] => (true, []) | b :: p' => (b, p') end.

(** [mio_mem_alloc] of an array of [n] zeroed elements. *)
Definition arr_alloc (n : nat) (p : mplan) : arr * mplan :=
  let '(ok, p) := plan_next p in (if ok then Arr (replicate n 0) else ArrNull, p).

Definition arr_is_null (a : arr) : bool :=
  match a with ArrNull => true | _ => false end.

Record mio_hint_map := MkHintMap {
  mhm_nr_entries : Z;
  mhm_nr_set : Z;
  mhm_keys : arr;
  mhm_values : arr
}.

Definition MIO_HINT_INVALID : Z := -1.
Definition MIO_OBJ_HINT_NUM : Z := 32.

(** A map in memory that was set to zero. *)
Definition hint_map_zero : mio_hint_map := MkHintMap 0 0 ArrNull ArrNull.

Definition mio_hint_map_fini (map : mio_hint_map) : outcome mio_hint_map :=
  ks ← arr_free (mhm_keys map);
  vs ← arr_free (mhm_values map);
  Done (MkHintMap 0 0 ks vs).

(** The loop that sets entries [i], [i+1], ... ([n] of them) to
    (MIO_HINT_INVALID, 0). *)
Fixpoint hint_map_clear (ks vs : arr) (i n : nat) : outcome (arr * arr) :=
  match n with
  | O => Done (ks, vs)
  | S n' =>
      ks ← arr_set ks i MIO_HINT_INVALID;
      vs ← arr_set vs i 0;
      hint_map_clear ks vs (S i) n'
  end.

Definition mio_hint_map_init (map : mio_hint_map) (nr_entries : Z) (p : mplan)
  : outcome (Z * mio_hint_map * mplan) :=
  c_assert (0 <? nr_entries);;
  let n := Z.to_nat nr_entries in
  let '(ks, p) := arr_alloc n p in
  let '(vs, p) := arr_alloc n p in
  if arr_is_null ks || arr_is_null vs then
    map' ← mio_hint_map_fini (MkHintMap nr_entries (mhm_nr_set map) ks vs);
    Done (- ENOMEM, map', p)
  else
    '(ks, vs) ← hint_map_clear ks vs 0 n;
    Done (0, MkHintMap nr_entries 0 ks vs, p).

(** The search loop shared by set, get and copy: the index of [key] among
    entries [i] .. [i+n-1], or [i+n]. *)
Fixpoint hint_find (ks : arr) (key : Z) (i n : nat) : outcome nat :=
  match n with
  | O => Done i
  | S n' =>
      k ← arr_get ks i;
      if k =? key then Done i else hint_find ks key (S i) n'
  end.

Definition nr_set_nat (map : mio_hint_map) : nat := Z.to_nat (mhm_nr_set map).

(** Entry [i] of the map is set to (key, value). *)
Definition hint_map_put (map : mio_hint_map) (i : nat) (key value nr_set : Z)
  : outcome mio_hint_map :=
  ks ← arr_set (mhm_keys map) i key;
  vs ← arr_set (mhm_values map) i value;
  Done (MkHintMap (mhm_nr_entries map) nr_set ks vs).

Definition mio_hint_map_set (map : mio_hint_map) (key value : Z)
  : outcome (Z * mio_hint_map) :=
  i ← hint_find (mhm_keys map) key 0 (nr_set_nat map);
  if Z.of_nat i =? mhm_nr_set map then
    if mhm_nr_set map =? mhm_nr_entries map then Done (- EINVAL, map)
    else map' ← hint_map_put map i key value (mhm_nr_set map + 1); Done (0, map')
  else map' ← hint_map_put map i key value (mhm_nr_set map); Done (0, map').

(** [*value] is [None] while it is uninitialised; it is written only when the
    key is found. *)
Definition mio_hint_map_get (map : mio_hint_map) (key : Z) (value : option Z)
  : outcome (Z * option Z) :=
  i ← hint_find (mhm_keys map) key 0 (nr_set_nat map);
  if Z.of_nat i =? mhm_nr_set map then Done (- ENOENT, value)
  else v ← arr_get (mhm_values map) i; Done (0, Some v).

(** The first loop of copy: how many keys of [from] are not yet in [to]. *)
Fixpoint hint_copy_count (to from : mio_hint_map) (i n : nat) (nr_new : Z) : outcome Z :=
  match n with
  | O => Done nr_new
  | S n' =>
      hkey ← arr_get (mhm_keys from) i;
      j ← hint_find (mhm_keys to) hkey 0 (nr_set_nat to);
      hint_copy_count to from (S i) n'
        (if Z.of_nat j =? mhm_nr_set to then nr_new + 1 else nr_new)
  end.

(** The second loop of copy. *)
Fixpoint hint_copy_put (to from : mio_hint_map) (i n : nat) : outcome mio_hint_map :=
  match n with
  | O => Done to
  | S n' =>
      hkey ← arr_get (mhm_keys from) i;
      hvalue ← arr_get (mhm_values from) i;
      j ← hint_find (mhm_keys to) hkey 0 (nr_set_nat to);
      let nr := if Z.of_nat j =? mhm_nr_set to then mhm_nr_set to + 1
                else mhm_nr_set to in
      to' ← hint_map_put to j hkey hvalue nr;
      hint_copy_put to' from (S i) n'
  end.

Definition mio_hint_map_copy (to from : mio_hint_map) (p : mplan)
  : outcome (Z * mio_hint_map * mplan) :=
  '(rc, to, p) ←
    (if mhm_nr_entries to =? 0 then mio_hint_map_init to (mhm_nr_entries from) p
     else Done (0, to, p));
  if rc <? 0 then Done (rc, to, p) else
  nr_new ← hint_copy_count to from 0 (nr_set_nat from) 0;
  if mhm_nr_entries to <? mhm_nr_set to + nr_new then Done (- E2BIG, to, p) else
  to' ← hint_copy_put to from 0 (nr_set_nat from);
  Done (0, to', p).

(** ** Well-formed maps and their abstraction *)

(** The entries in use, in order. *)
Definition hint_entries (map : mio_hint_map) : list (Z * Z) :=
  match mhm_keys map, mhm_values map with
  | Arr ks, Arr vs => take (nr_set_nat map) (zip ks vs)
  | _, _ => []
  end.

Definition hint_abs (map : mio_hint_map) : gmap Z Z := list_to_map (hint_entries map).

(** The arrays [ks], [vs] represent the map: both have [mhm_nr_entries]
    elements, and no key is twice among those in use. *)
Record hint_map_rep (map : mio_hint_map) (ks vs : list Z) : Prop := {
  hm_keys_eq : mhm_keys map = Arr ks;
  hm_values_eq : mhm_values map = Arr vs;
  hm_keys_len : Z.of_nat (length ks) = mhm_nr_entries map;
  hm_values_len : length vs = length ks;
  hm_set : 0 <= mhm_nr_set map <= mhm_nr_entries map;
  hm_pos : 0 < mhm_nr_entries map;
  hm_nodup : NoDup (take (nr_set_nat map) ks)
}.

Definition hint_map_wf (map : mio_hint_map) : Prop :=
  ∃ ks vs, hint_map_rep map ks vs.

(** ** The search loop *)

Lemma arr_get_Arr l i x : l !! i = Some x → arr_get (Arr l) i = Done x.
Proof. simpl. by intros ->. Qed.

Lemma arr_set_Arr l i x : (i < length l)%nat → arr_set (Arr l) i x = Done (Arr (<[i:=x]> l)).
Proof. simpl. intros. by rewrite decide_True. Qed.

Lemma hint_find_spec ks key i n :
  (i + n <= length ks)%nat →
  ∃ j, hint_find (Arr ks) key i n = Done j ∧ (i <= j <= i + n)%nat ∧
    ((j < i + n)%nat → ks !! j = Some key) ∧
    (∀ k, (i <= k < j)%nat → ks !! k ≠ Some key).
Proof.
  revert i; induction n as [|n IH]; intros i Hi; simpl.
  - exists i. split_and!; try done; intros; lia.
  - destruct (lookup_lt_is_Some_2 ks i) as [k Hk]; [lia|]. rewrite Hk. simpl.
    destruct (Z.eqb_spec k key) as [->|Hne].
    + exists i. split_and!; try done; try lia; intros; lia.
    + destruct (IH (S i)) as (j & -> & Hj & Hin & Hout); [lia|].
      exists j. split_and!; try done; try lia; [intros; apply Hin; lia|].
      intros k' Hk'. destruct (decide (k' = i)) as [->|]; [congruence|].
      apply Hout. lia.
Qed.

(** ** The abstraction *)

Section Rep.
Context (map : mio_hint_map) (ks vs : list Z) (Hrep : hint_map_rep map ks vs).

Lemma rep_nr_set : Z.of_nat (nr_set_nat map) = mhm_nr_set map.
Proof. destruct Hrep. unfold nr_set_nat. lia. Qed.

Lemma rep_nr_set_le : (nr_set_nat map <= length ks)%nat.
Proof. destruct Hrep. unfold nr_set_nat. lia. Qed.

Lemma rep_entries : hint_entries map = take (nr_set_nat map) (zip ks vs).
Proof. unfold hint_entries. destruct Hrep as [-> -> _ _ _ _ _]. done. Qed.

Lemma rep_entries_keys : (hint_entries map).*1 = take (nr_set_nat map) ks.
Proof.
  rewrite rep_entries, fmap_take, fst_zip; [done|]. destruct Hrep. lia.
Qed.

Lemma rep_entries_nodup : NoDup (hint_entries map).*1.
Proof. rewrite rep_entries_keys. apply Hrep. Qed.

Lemma rep_entries_length : length (hint_entries map) = nr_set_nat map.
Proof.
  rewrite <- (length_fmap fst), rep_entries_keys, length_take.
  pose proof rep_nr_set_le. lia.
Qed.

Lemma rep_size : size (hint_abs map) = nr_set_nat map.
Proof.
  unfold hint_abs. rewrite map_size_list_to_map by apply rep_entries_nodup.
  apply rep_entries_length.
Qed.

Lemma rep_entries_lookup j k v :
  hint_entries map !! j = Some (k, v) ↔
    (j < nr_set_nat map)%nat ∧ ks !! j = Some k ∧ vs !! j = Some v.
Proof.
  rewrite rep_entries, lookup_take_Some, lookup_zip_with_Some. split.
  - intros [(k' & v' & [= <- <-] & ? & ?) ?]. done.
  - intros (? & ? & ?). split; [|done]. by exists k, v.
Qed.

Lemma rep_abs_lookup k v :
  hint_abs map !! k = Some v ↔
    ∃ j, (j < nr_set_nat map)%nat ∧ ks !! j = Some k ∧ vs !! j = Some v.
Proof.
  unfold hint_abs. rewrite <- elem_of_list_to_map by apply rep_entries_nodup.
  rewrite list_elem_of_lookup. by setoid_rewrite rep_entries_lookup.
Qed.

Lemma rep_values_lookup j : (j < nr_set_nat map)%nat → ∃ v, vs !! j = Some v.
Proof.
  intros. apply lookup_lt_is_Some_2. pose proof rep_nr_set_le. destruct Hrep. lia.
Qed.

Lemma rep_inj i j k :
  (i < nr_set_nat map)%nat → (j < nr_set_nat map)%nat →
  ks !! i = Some k → ks !! j = Some k → i = j.
Proof.
  intros Hi Hj Hki Hkj. eapply NoDup_lookup; [apply Hrep|..];
    rewrite lookup_take_Some; eauto.
Qed.

(** The search finds the entry of the key, or the number of entries. *)
Lemma rep_find key :
  (∃ j v, hint_find (mhm_keys map) key 0 (nr_set_nat map) = Done j ∧
     (j < nr_set_nat map)%nat ∧ ks !! j = Some key ∧ vs !! j = Some v ∧
     hint_abs map !! key = Some v) ∨
  (hint_find (mhm_keys map) key 0 (nr_set_nat map) = Done (nr_set_nat map) ∧
     hint_abs map !! key = None).
Proof.
  pose proof rep_nr_set_le as Hle.
  destruct (hint_find_spec ks key 0 (nr_set_nat map)) as (j & Hf & Hj & Hin & Hout); [lia|].
  rewrite <- (hm_keys_eq _ _ _ Hrep) in Hf. simpl in Hj, Hin.
  destruct (decide (j = nr_set_nat map)) as [->|Hne].
  - right. split; [done|]. apply eq_None_not_Some. intros [v Hv].
    apply rep_abs_lookup in Hv as (i & Hi & Hk & _). apply (Hout i); [lia|done].
  - left. destruct (rep_values_lookup j) as [v Hv]; [lia|]. exists j, v.
    assert (ks !! j = Some key) by (apply Hin; lia).
    split_and!; try done; [lia|]. apply rep_abs_lookup. exists j. split_and!; auto. lia.
Qed.
End Rep.

(** ** Writing one entry *)

Lemma rep_put_old map ks vs j key value v0 :
  hint_map_rep map ks vs → (j < nr_set_nat map)%nat → ks !! j = Some key → vs !! j = Some v0 →
  ∃ map', hint_map_put map j key value (mhm_nr_set map) = Done map' ∧
    hint_map_rep map' ks (<[j:=value]> vs) ∧
    hint_abs map' = <[key:=value]> (hint_abs map) ∧
    mhm_nr_entries map' = mhm_nr_entries map.
Proof.
  intros Hrep Hj Hk Hv. pose proof (rep_nr_set_le _ _ _ Hrep) as Hle.
  pose proof (hm_values_len _ _ _ Hrep) as Hlen.
  unfold hint_map_put. rewrite (hm_keys_eq _ _ _ Hrep), (hm_values_eq _ _ _ Hrep).
  rewrite !arr_set_Arr by lia. simpl. rewrite (list_insert_id _ _ _ Hk).
  eexists. split; [done|].
  assert (Hrep' : hint_map_rep (MkHintMap (mhm_nr_entries map) (mhm_nr_set map) (Arr ks)
    (Arr (<[j:=value]> vs))) ks (<[j:=value]> vs)).
  { destruct Hrep. split; simpl; rewrite ?length_insert; auto. }
  split_and!; [done| |done].
  apply map_eq. intros k. apply option_eq. intros v.
  rewrite (rep_abs_lookup _ _ _ Hrep'), lookup_insert_Some, (rep_abs_lookup _ _ _ Hrep).
  simpl. change (nr_set_nat (MkHintMap _ _ _ _)) with (nr_set_nat map). split.
  - intros (i & Hi & Hki & Hvi). apply list_lookup_insert_Some in Hvi.
    destruct Hvi as [(-> & -> & _)|[Hne Hvi]].
    + left. split; [congruence|done].
    + right. split; [|eauto]. intros <-. apply Hne.
      eapply (rep_inj _ _ _ Hrep); eauto.
  - intros [[<- <-]|[Hne (i & Hi & Hki & Hvi)]].
    + exists j. split_and!; auto. apply list_lookup_insert_eq. lia.
    + exists i. split_and!; auto. rewrite list_lookup_insert_ne; [done|congruence].
Qed.

Lemma rep_put_new map ks vs key value :
  hint_map_rep map ks vs → hint_abs map !! key = None → mhm_nr_set map < mhm_nr_entries map →
  ∃ map', hint_map_put map (nr_set_nat map) key value (mhm_nr_set map + 1) = Done map' ∧
    hint_map_rep map' (<[nr_set_nat map:=key]> ks) (<[nr_set_nat map:=value]> vs) ∧
    hint_abs map' = <[key:=value]> (hint_abs map) ∧
    mhm_nr_entries map' = mhm_nr_entries map.
Proof.
  intros Hrep Hnone Hlt. pose proof (rep_nr_set _ _ _ Hrep) as Hn.
  pose proof (hm_values_len _ _ _ Hrep) as Hlen.
  pose proof (hm_keys_len _ _ _ Hrep) as Hklen.
  pose proof (hm_set _ _ _ Hrep) as Hset.
  unfold hint_map_put. rewrite (hm_keys_eq _ _ _ Hrep), (hm_values_eq _ _ _ Hrep).
  rewrite !arr_set_Arr by lia. simpl. eexists. split; [done|].
  set (n := nr_set_nat map) in *.
  match goal with |- hint_map_rep ?m _ _ ∧ _ =>
    assert (Hn' : nr_set_nat m = S n) by (unfold nr_set_nat; simpl; lia);
    assert (Hrep' : hint_map_rep m (<[n:=key]> ks) (<[n:=value]> vs)) end.
  { split; simpl; rewrite ?length_insert; auto; [lia| |]; [apply Hrep|].
    rewrite Hn'. rewrite (take_S_r _ _ key) by (apply list_lookup_insert_eq; lia).
    rewrite take_insert_ge by lia. apply NoDup_app. split_and!.
    - apply Hrep.
    - intros x Hx ->%list_elem_of_singleton. apply list_elem_of_lookup in Hx as [i Hi].
      apply lookup_take_Some in Hi as [Hi Hin].
      destruct (rep_values_lookup _ _ _ Hrep i Hin) as [v Hv].
      assert (hint_abs map !! key = Some v); [|congruence].
      apply (rep_abs_lookup _ _ _ Hrep). eauto.
    - apply NoDup_singleton. }
  split_and!; [done| |done].
  apply map_eq. intros k. apply option_eq. intros v.
  rewrite (rep_abs_lookup _ _ _ Hrep'), lookup_insert_Some, (rep_abs_lookup _ _ _ Hrep), Hn'.
  split.
  - intros (i & Hi & Hki & Hvi). apply list_lookup_insert_Some in Hvi.
    destruct Hvi as [(-> & -> & _)|[Hne Hvi]].
    + rewrite list_lookup_insert_eq in Hki by lia. left. split; congruence.
    + rewrite list_lookup_insert_ne in Hki by done. right. split.
      * intros <-. enough (hint_abs map !! key = Some v) by congruence.
        apply (rep_abs_lookup _ _ _ Hrep). exists i. split_and!; auto. lia.
      * exists i. split_and!; auto. lia.
  - intros [[<- <-]|[Hne (i & Hi & Hki & Hvi)]].
    + exists n. split_and!; [lia|apply list_lookup_insert_eq; lia..].
    + exists i. rewrite !list_lookup_insert_ne by lia. split_and!; auto.
Qed.

(** The step shared by set and copy: the entry of [key] is found or the next
    free one taken, and written. *)
Lemma wf_put map key value :
  hint_map_wf map →
  is_Some (hint_abs map !! key) ∨ mhm_nr_set map < mhm_nr_entries map →
  ∃ j map',
    hint_find (mhm_keys map) key 0 (nr_set_nat map) = Done j ∧
    (Z.of_nat j =? mhm_nr_set map) = bool_decide (hint_abs map !! key = None) ∧
    hint_map_put map j key value
      (if Z.of_nat j =? mhm_nr_set map then mhm_nr_set map + 1 else mhm_nr_set map) = Done map' ∧
    hint_map_wf map' ∧ hint_abs map' = <[key:=value]> (hint_abs map) ∧
    mhm_nr_entries map' = mhm_nr_entries map.
Proof.
  intros (ks & vs & Hrep) Hroom. pose proof (rep_nr_set _ _ _ Hrep) as Hn.
  destruct (rep_find _ _ _ Hrep key) as [(j & v & Hf & Hj & Hk & Hv & Habs)|[Hf Habs]].
  - destruct (rep_put_old map ks vs j key value v) as (map' & Hput & Hrep' & ? & ?); auto.
    exists j, map'. rewrite Hf, Habs.
    assert ((Z.of_nat j =? mhm_nr_set map) = false) as -> by lia.
    rewrite bool_decide_false by done. split_and!; eauto. by exists ks, (<[j:=value]> vs).
  - destruct (rep_put_new map ks vs key value) as (map' & Hput & Hrep' & ? & ?); auto.
    { destruct Hroom as [[v Hv]|]; [congruence|done]. }
    exists (nr_set_nat map), map'. rewrite Hf, Habs, Hn, Z.eqb_refl.
    rewrite bool_decide_true by done. split_and!; eauto. by eexists _, _.
Qed.

Lemma wf_size map : hint_map_wf map → Z.of_nat (size (hint_abs map)) = mhm_nr_set map.
Proof. intros (ks & vs & Hrep). rewrite (rep_size _ _ _ Hrep). by eapply rep_nr_set. Qed.

Lemma wf_bound map :
  hint_map_wf map → 0 <= mhm_nr_set map <= mhm_nr_entries map ∧ 0 < mhm_nr_entries map.
Proof. intros (ks & vs & Hrep). destruct Hrep. lia. Qed.

Lemma wf_find map key :
  hint_map_wf map →
  ∃ j, hint_find (mhm_keys map) key 0 (nr_set_nat map) = Done j ∧
    (Z.of_nat j =? mhm_nr_set map) = bool_decide (hint_abs map !! key = None).
Proof.
  intros (ks & vs & Hrep). pose proof (rep_nr_set _ _ _ Hrep) as Hn.
  destruct (rep_find _ _ _ Hrep key) as [(j & v & Hf & Hj & Hk & Hv & Habs)|[Hf Habs]];
    rewrite Hf, Habs.
  - exists j. split; [done|]. rewrite bool_decide_false by done. lia.
  - exists (nr_set_nat map). split; [done|]. rewrite bool_decide_true by done. lia.
Qed.

(** ** Initialisation *)

Lemma hint_map_clear_spec i n ks vs :
  length ks = (i + n)%nat → length vs = (i + n)%nat →
  hint_map_clear (Arr ks) (Arr vs) i n =
    Done (Arr (take i ks ++ replicate n MIO_HINT_INVALID), Arr (take i vs ++ replicate n 0)).
Proof.
  revert i ks vs; induction n as [|n IH]; intros i ks vs Hk Hv.
  - simpl. by rewrite !take_ge, !app_nil_r by lia.
  - cbn [hint_map_clear]. rewrite !arr_set_Arr by lia. simpl.
    rewrite IH by (rewrite length_insert; lia).
    rewrite (take_S_r _ i MIO_HINT_INVALID) by (apply list_lookup_insert_eq; lia).
    rewrite (take_S_r _ i 0) by (apply list_lookup_insert_eq; lia).
    rewrite !take_insert_ge by lia. by rewrite <- !app_assoc.
Qed.

Lemma hint_map_init_ok map nr_entries :
  0 < nr_entries →
  ∃ map', mio_hint_map_init map nr_entries [] = Done (0, map', []) ∧
    hint_map_wf map' ∧ hint_abs map' = ∅ ∧ mhm_nr_entries map' = nr_entries.
Proof.
  intros Hn. unfold mio_hint_map_init. rewrite (proj2 (Z.ltb_lt _ _) Hn). simpl.
  rewrite hint_map_clear_spec by by rewrite length_replicate. simpl.
  eexists. split; [done|]. split_and!; [|done..].
  eexists _, _. split; simpl; try done; rewrite ?length_replicate; try lia. constructor.
Qed.

(** ** Copying *)

(** The entries of [l] whose key is not yet in [m]. *)
Definition hint_new (m : gmap Z Z) (l : list (Z * Z)) : list (Z * Z) :=
  filter (λ kv, m !! kv.1 = None) l.

Lemma hint_new_cons m k v l :
  hint_new m ((k, v) :: l) =
    if decide (m !! k = None) then (k, v) :: hint_new m l else hint_new m l.
Proof. unfold hint_new. rewrite filter_cons. done. Qed.

Lemma hint_new_insert m k v l :
  k ∉ l.*1 → hint_new (<[k:=v]> m) l = hint_new m l.
Proof.
  induction l as [|[k' v'] l IH]; [done|]. simpl. intros [Hk Hl]%not_elem_of_cons.
  rewrite !hint_new_cons, lookup_insert_ne by done. by rewrite IH.
Qed.

Lemma union_cons (m : gmap Z Z) k v l :
  k ∉ l.*1 → list_to_map ((k, v) :: l) ∪ m = list_to_map l ∪ <[k:=v]> m.
Proof.
  intros Hk. simpl. rewrite <- insert_union_l, insert_union_r; [done|].
  by apply not_elem_of_list_to_map_1.
Qed.

Lemma size_union_new (m : gmap Z Z) l :
  NoDup l.*1 → size (list_to_map l ∪ m) = (size m + length (hint_new m l))%nat.
Proof.
  revert m; induction l as [|[k v] l IH]; intros m Hnd.
  - simpl. rewrite (left_id_L ∅ (∪)). lia.
  - apply NoDup_cons in Hnd as [Hk Hnd]. rewrite union_cons by done.
    rewrite IH, hint_new_insert, hint_new_cons, map_size_insert by done.
    destruct (m !! k) as [v'|]; simpl; [done|lia].
Qed.

Lemma hint_copy_count_spec to from ks vs i n nr_new :
  hint_map_wf to → hint_map_rep from ks vs → (i + n = nr_set_nat from)%nat →
  hint_copy_count to from i n nr_new =
    Done (nr_new + Z.of_nat (length (hint_new (hint_abs to) (drop i (hint_entries from))))).
Proof.
  intros Hto Hfrom. revert i nr_new; induction n as [|n IH]; intros i nr_new Hi; simpl.
  - rewrite drop_ge by (rewrite (rep_entries_length _ _ _ Hfrom); lia). simpl. f_equal; lia.
  - destruct (lookup_lt_is_Some_2 (hint_entries from) i) as [[k v] Hkv].
    { rewrite (rep_entries_length _ _ _ Hfrom). lia. }
    rewrite (drop_S _ _ _ Hkv). apply (rep_entries_lookup _ _ _ Hfrom) in Hkv as (? & Hk & Hv).
    rewrite (hm_keys_eq _ _ _ Hfrom), (arr_get_Arr _ _ _ Hk). simpl.
    destruct (wf_find to k Hto) as (j & -> & Hj). simpl. rewrite Hj.
    rewrite IH by lia. rewrite hint_new_cons.
    case_decide; case_bool_decide; simpl; try done; f_equal; lia.
Qed.

Lemma hint_copy_put_spec to from ks vs i n :
  hint_map_wf to → hint_map_rep from ks vs → (i + n = nr_set_nat from)%nat →
  mhm_nr_set to + Z.of_nat (length (hint_new (hint_abs to) (drop i (hint_entries from))))
    <= mhm_nr_entries to →
  ∃ to', hint_copy_put to from i n = Done to' ∧ hint_map_wf to' ∧
    hint_abs to' = list_to_map (drop i (hint_entries from)) ∪ hint_abs to ∧
    mhm_nr_entries to' = mhm_nr_entries to.
Proof.
  intros Hto Hfrom. revert i to Hto; induction n as [|n IH]; intros i to Hto Hi Hroom; simpl.
  - rewrite drop_ge by (rewrite (rep_entries_length _ _ _ Hfrom); lia).
    exists to. simpl. by rewrite (left_id_L ∅ (∪)).
  - destruct (lookup_lt_is_Some_2 (hint_entries from) i) as [[k v] Hkv].
    { rewrite (rep_entries_length _ _ _ Hfrom). lia. }
    assert (Hnk : k ∉ (drop (S i) (hint_entries from)).*1).
    { pose proof (rep_entries_nodup _ _ _ Hfrom) as Hnd.
      rewrite <- (take_drop_middle _ _ _ Hkv), fmap_app, fmap_cons in Hnd.
      apply NoDup_app in Hnd as (_ & _ & Hnd). by apply NoDup_cons in Hnd as [? _]. }
    rewrite (drop_S _ _ _ Hkv) in Hroom |- *. rewrite union_cons by done.
    apply (rep_entries_lookup _ _ _ Hfrom) in Hkv as (? & Hk & Hv).
    rewrite (hm_keys_eq _ _ _ Hfrom), (arr_get_Arr _ _ _ Hk). simpl.
    rewrite (hm_values_eq _ _ _ Hfrom), (arr_get_Arr _ _ _ Hv). simpl.
    rewrite hint_new_cons in Hroom.
    pose proof (wf_size _ Hto) as Hsz.
    destruct (wf_put to k v Hto) as (j & to1 & -> & Hj & Hput & Hwf1 & Habs1 & Hn1).
    { destruct (hint_abs to !! k) eqn:E; [eauto|right]. rewrite decide_True in Hroom by done.
      simpl in Hroom. lia. }
    simpl. rewrite Hput. simpl.
    destruct (IH (S i) to1) as (to' & Hto' & Hwf' & Habs' & Hn'); auto; [lia| |].
    + pose proof (wf_size _ Hwf1) as Hsz1.
      rewrite Habs1, map_size_insert in Hsz1. rewrite Habs1, hint_new_insert, Hn1 by done.
      case_decide as Hd; [rewrite Hd in Hsz1|destruct (hint_abs to !! k); [|done]];
        simpl in *; lia.
    + exists to'. rewrite Habs', Habs1, Hn', Hn1. done.
Qed.

(** ** Properties of the map operations *)

Lemma hint_map_get_cases (map : mio_hint_map) (key : Z) (value : option Z)
  (Hwf : hint_map_wf map) :
  mio_hint_map_get map key value =
    Done (match hint_abs map !! key with
          | Some v => (0, Some v)
          | None => (- ENOENT, value)
          end).
Proof.
  destruct Hwf as (ks & vs & Hrep). pose proof (rep_nr_set _ _ _ Hrep) as Hn.
  unfold mio_hint_map_get.
  destruct (rep_find _ _ _ Hrep key) as [(j & v & -> & Hj & Hk & Hv & ->)|[-> ->]]; simpl.
  - rewrite (proj2 (Z.eqb_neq _ _)) by lia.
    by rewrite (hm_values_eq _ _ _ Hrep), (arr_get_Arr _ _ _ Hv).
  - by rewrite Hn, Z.eqb_refl.
Qed.

(** [mio_hint_map_get] is the lookup of the abstract map: on a well-formed
    map it never reads out of bounds, returns 0 and the value of a key that is
    set, and returns -ENOENT leaving [*value] as it was otherwise. *)
Theorem hint_map_get_refines (map : mio_hint_map) (key : Z) (value : option Z)
  (Hwf : hint_map_wf map) :
  mio_hint_map_get map key value =
    Done (match hint_abs map !! key with
          | Some v => (0, Some v)
          | None => (- ENOENT, value)
          end).
Proof. exact (hint_map_get_cases map key value Hwf). Qed.

Lemma hint_map_set_cases (map : mio_hint_map) (key value : Z)
  (Hwf : hint_map_wf map) :
  ∃ rc map', mio_hint_map_set map key value = Done (rc, map') ∧
    hint_map_wf map' ∧ mhm_nr_entries map' = mhm_nr_entries map ∧
    if decide (hint_abs map !! key = None ∧
               Z.of_nat (size (hint_abs map)) = mhm_nr_entries map)
    then rc = - EINVAL ∧ map' = map
    else rc = 0 ∧ hint_abs map' = <[key:=value]> (hint_abs map).
Proof.
  pose proof (wf_size _ Hwf) as Hsz. pose proof (wf_bound _ Hwf) as Hb.
  unfold mio_hint_map_set. case_decide as Hd.
  - destruct Hd as [Hnone Hfull]. destruct (wf_find map key Hwf) as (j & -> & Hj). simpl.
    rewrite Hj, bool_decide_true, (proj2 (Z.eqb_eq _ _)) by (done || lia). by eexists _, _.
  - destruct (wf_put map key value Hwf) as (j & map' & -> & Hj & Hput & Hwf' & Habs' & Hn').
    { destruct (hint_abs map !! key) eqn:E; [eauto|right].
      assert (Z.of_nat (size (hint_abs map)) ≠ mhm_nr_entries map) by tauto. lia. }
    simpl. rewrite Hj in Hput |- *. case_bool_decide as E.
    + rewrite (proj2 (Z.eqb_neq _ _)) by (intros ?; apply Hd; split; [done|lia]).
      rewrite Hput. simpl. by eexists _, _.
    + rewrite Hput. simpl. by eexists _, _.
Qed.

(** [mio_hint_map_set] is insertion into a map of bounded size: it stays
    well-formed; the new value is stored when the key is already set or an
    entry is free, and -EINVAL with the map unchanged is the answer exactly
    when all [mhm_nr_entries] entries hold other keys. *)
Theorem hint_map_set_refines (map : mio_hint_map) (key value : Z)
  (Hwf : hint_map_wf map) :
  ∃ rc map', mio_hint_map_set map key value = Done (rc, map') ∧
    hint_map_wf map' ∧ mhm_nr_entries map' = mhm_nr_entries map ∧
    if decide (hint_abs map !! key = None ∧
               Z.of_nat (size (hint_abs map)) = mhm_nr_entries map)
    then rc = - EINVAL ∧ map' = map
    else rc = 0 ∧ hint_abs map' = <[key:=value]> (hint_abs map).
Proof. exact (hint_map_set_cases map key value Hwf). Qed.

(** [mio_hint_map_copy] is an all-or-nothing union in which the hints of
    [from] win: when the keys of both maps together fit, the result is
    [from ∪ to]; when they do not, the answer is -E2BIG and [to] is untouched. *)
Theorem hint_map_copy_refines (to from : mio_hint_map) (p : mplan)
  (Hto : hint_map_wf to) (Hfrom : hint_map_wf from) :
  let u := hint_abs from ∪ hint_abs to in
  ∃ rc to', mio_hint_map_copy to from p = Done (rc, to', p) ∧
    hint_map_wf to' ∧ mhm_nr_entries to' = mhm_nr_entries to ∧
    if decide (Z.of_nat (size u) <= mhm_nr_entries to)
    then rc = 0 ∧ hint_abs to' = u
    else rc = - E2BIG ∧ to' = to.
Proof.
  intros u. pose proof Hfrom as (ks & vs & Hrep).
  pose proof (wf_size _ Hto) as Hsz. pose proof (wf_bound _ Hto) as Hb.
  unfold mio_hint_map_copy. rewrite (proj2 (Z.eqb_neq _ _)) by lia. simpl.
  rewrite (hint_copy_count_spec to from ks vs) by done. simpl. rewrite drop_0.
  pose proof (size_union_new (hint_abs to) _ (rep_entries_nodup _ _ _ Hrep)) as Hu.
  change (list_to_map (hint_entries from) ∪ hint_abs to) with u in Hu. case_decide as Hd.
  - rewrite (proj2 (Z.ltb_ge _ _)) by lia.
    destruct (hint_copy_put_spec to from ks vs 0 (nr_set_nat from))
      as (to' & -> & Hwf' & Habs' & Hn'); auto; [rewrite drop_0; lia|].
    simpl. eexists _, _. split_and!; [done..|]. by rewrite Habs', drop_0.
  - rewrite (proj2 (Z.ltb_lt _ _)) by lia. by eexists _, _.
Qed.

(** ** Concrete instances *)

Definition ex_hints : mio_hint_map := MkHintMap 2 1 (Arr [1; -1]) (Arr [7; 0]).
Definition ex_hints_other : mio_hint_map := MkHintMap 3 2 (Arr [1; 2; -1]) (Arr [8; 9; 0]).

Lemma ex_hints_wf : hint_map_wf ex_hints.
Proof.
  exists [1; -1], [7; 0]. split; simpl; try done; try lia.
  apply (bool_decide_unpack _). by vm_compute.
Qed.

Lemma ex_hints_other_wf : hint_map_wf ex_hints_other.
Proof.
  exists [1; 2; -1], [8; 9; 0]. split; simpl; try done; try lia.
  apply (bool_decide_unpack _). by vm_compute.
Qed.

Lemma hint_map_get_refines_witness :
  mio_hint_map_get ex_hints 1 None = Done (0, Some 7) ∧
  mio_hint_map_get ex_hints 2 (Some 5) = Done (- ENOENT, Some 5).
Proof. split; rewrite (hint_map_get_refines _ _ _ ex_hints_wf); reflexivity. Defined.

Lemma hint_map_set_refines_witness :
  ∃ rc map', mio_hint_map_set ex_hints 2 5 = Done (rc, map') ∧ hint_map_wf map'.
Proof.
  destruct (hint_map_set_refines ex_hints 2 5 ex_hints_wf) as (rc & map' & ? & ? & _).
  exists rc, map'. split; assumption.
Defined.

Lemma hint_map_copy_refines_witness :
  ∃ rc to', mio_hint_map_copy ex_hints ex_hints_other [] = Done (rc, to', []) ∧
    hint_map_wf to'.
Proof.
  destruct (hint_map_copy_refines ex_hints ex_hints_other [] ex_hints_wf ex_hints_other_wf)
    as (rc & to' & ? & ? & _).
  exists rc, to'. split; assumption.
Defined.
