(* ===== verification/Mem.v ===== *)
(** * Memory (src/utils.c: mio_mem_alloc, mio_mem_free, mio_mem_copy)

    The heap of the program: blocks of bytes named by numbers that are never
    reused, so that a pointer to a freed block is recognised.  Block 0 is NULL.
    malloc() may fail; the results of the coming calls are [h_plan]. *)

From S2P Require Import Prelude.

Record ptr := MkPtr { p_blk : Z; p_off : Z }.

#[global] Instance ptr_eq_dec : EqDecision ptr.
Proof. solve_decision. Defined.

Definition NULL : ptr := MkPtr 0 0.

(** [p + n] on a [char *]. *)
Definition ptr_add (p : ptr) (n : Z) : ptr := MkPtr (p_blk p) (p_off p + n).

Record block := MkBlock { b_size : Z; b_data : Z → Z }.

Record heap := MkHeap {
  h_next : Z;
  h_blocks : gmap Z block;
  h_plan : list bool
}.

Definition blk_live (h : heap) (b : Z) : bool := bool_decide (is_Some (h_blocks h !! b)).

(** [mio_mem_alloc(size)]: a fresh block of zeroes, or NULL. *)
Definition mio_mem_alloc (size : Z) (h : heap) : ptr * heap :=
  match h_plan h with
  | false :: plan => (NULL, MkHeap (h_next h) (h_blocks h) plan)
  | _ =>
      (MkPtr (h_next h) 0,
       MkHeap (h_next h + 1) (<[h_next h := MkBlock size (λ _, 0)]> (h_blocks h))
         (tail (h_plan h)))
  end.

(** [mio_mem_free(p)]: free() ignores NULL; its argument must be the start of a
    live block. *)
Definition mio_mem_free (p : ptr) (h : heap) : outcome heap :=
  if decide (p = NULL) then Done h
  else if blk_live h (p_blk p) && (p_off p =? 0) then
    Done (MkHeap (h_next h) (delete (p_blk p) (h_blocks h)) (h_plan h))
  else Fault DoubleFree.

(** The pointer [p] may be used to access [n] bytes. *)
Definition mem_access (h : heap) (p : ptr) (n : Z) : outcome block :=
  if p_blk p =? 0 then Fault NullDeref else
  match h_blocks h !! p_blk p with
  | None => Fault UseAfterFree
  | Some b =>
      if (0 <=? p_off p) && (p_off p + n <=? b_size b) then Done b
      else Fault OutOfBounds
  end.

(** The bytes [f 0], [f 1], ..., [f (n-1)] are stored at [p]. *)
Definition mem_store (p : ptr) (n : Z) (f : Z → Z) (h : heap) : outcome heap :=
  if n <=? 0 then Done h else
  b ← mem_access h p n;
  let b' := MkBlock (b_size b) (λ i,
    if (p_off p <=? i) && (i <? p_off p + n) then f (i - p_off p) else b_data b i) in
  Done (MkHeap (h_next h) (<[p_blk p := b']> (h_blocks h)) (h_plan h)).

(** The [n] bytes at [p], as a function of the index. *)
Definition mem_load (p : ptr) (n : Z) (h : heap) : outcome (Z → Z) :=
  if n <=? 0 then Done (λ _, 0) else
  b ← mem_access h p n;
  Done (λ i, b_data b (p_off p + i)).

(** [mio_mem_copy(to, from, size)]. *)
Definition mio_mem_copy (to from : ptr) (size : Z) (h : heap) : outcome heap :=
  f ← mem_load from size h;
  mem_store to size f h.

(** The byte at [p]; 0 outside the live blocks. *)
Definition byte_at (h : heap) (p : ptr) : Z :=
  match h_blocks h !! p_blk p with Some b => b_data b (p_off p) | None => 0 end.

(** [n] bytes at [p] lie inside a live block. *)
Definition mem_valid (h : heap) (p : ptr) (n : Z) : Prop :=
  p_blk p ≠ 0 ∧ ∃ b, h_blocks h !! p_blk p = Some b ∧ 0 <= p_off p ∧ p_off p + n <= b_size b.

(** Blocks are numbered below [h_next], and 0 is never allocated. *)
Definition heap_ok (h : heap) : Prop :=
  0 < h_next h ∧ ∀ b, is_Some (h_blocks h !! b) → 0 < b < h_next h.

(** ** Lemmas *)

Lemma ptr_add_0 p : ptr_add p 0 = p.
Proof. destruct p. unfold ptr_add. simpl. f_equal. lia. Qed.

Lemma ptr_add_add p m n : ptr_add (ptr_add p m) n = ptr_add p (m + n).
Proof. unfold ptr_add. simpl. f_equal. lia. Qed.

Lemma mem_access_valid h p n :
  mem_valid h p n → ∃ b, mem_access h p n = Done b ∧ h_blocks h !! p_blk p = Some b.
Proof.
  intros (Hnz & b & Hb & Hlo & Hhi). exists b. split; [|done].
  unfold mem_access. rewrite (proj2 (Z.eqb_neq _ _) Hnz), Hb.
  by rewrite (proj2 (Z.leb_le _ _) Hlo), (proj2 (Z.leb_le _ _) Hhi).
Qed.

(** What a successful or failed allocation does. *)
Lemma mio_mem_alloc_spec size h p h' :
  heap_ok h → mio_mem_alloc size h = (p, h') →
  heap_ok h' ∧ h_plan h' = tail (h_plan h) ∧
  ((p = NULL ∧ h_next h' = h_next h ∧ h_blocks h' = h_blocks h ∧ h_plan h ≠ []) ∨
   (p = MkPtr (h_next h) 0 ∧ h_next h' = h_next h + 1 ∧
    h_blocks h' = <[h_next h := MkBlock size (λ _, 0)]> (h_blocks h) ∧
    h_blocks h !! h_next h = None ∧ p ≠ NULL)).
Proof.
  intros [Hn Hb] Halloc.
  assert (Hfresh : h_blocks h !! h_next h = None).
  { apply eq_None_not_Some. intros Hs. apply Hb in Hs. lia. }
  assert (Hok : ∀ plan, heap_ok (MkHeap (h_next h + 1)
    (<[h_next h := MkBlock size (λ _, 0)]> (h_blocks h)) plan)).
  { intros plan. split; simpl; [lia|]. intros b.
    destruct (decide (b = h_next h)) as [->|Hne]; [lia|].
    rewrite lookup_insert_ne by done. intros Hs. apply Hb in Hs. lia. }
  assert (MkPtr (h_next h) 0 ≠ NULL) by (intros [=]; lia).
  unfold mio_mem_alloc in Halloc.
  destruct (h_plan h) as [|[] plan] eqn:E; injection Halloc as <- <-;
    (split; [by try apply Hok|]); (split; [done|]); [right|right|left]; simpl; auto.
Qed.

Lemma byte_at_store h p n f h' q :
  mem_store p n f h = Done h' →
  byte_at h' q =
    if (0 <? n) && (p_blk q =? p_blk p) && (p_off p <=? p_off q) && (p_off q <? p_off p + n)
    then f (p_off q - p_off p) else byte_at h q.
Proof.
  unfold mem_store. destruct (Z.leb_spec n 0) as [Hn|Hn].
  { intros [= <-]. by rewrite (proj2 (Z.ltb_ge _ _)) by lia. }
  rewrite (proj2 (Z.ltb_lt _ _)) by lia.
  intros (b & Hacc & [= <-])%outcome_bind_Done. unfold byte_at; simpl.
  unfold mem_access in Hacc. destruct (p_blk p =? 0); [done|].
  destruct (h_blocks h !! p_blk p) as [b'|] eqn:Hb; [|done].
  destruct (_ && _); [|done]. injection Hacc as ->.
  destruct (Z.eqb_spec (p_blk q) (p_blk p)) as [->|Hne]; simpl.
  - rewrite lookup_insert_eq, Hb. simpl. by destruct (_ && _).
  - by rewrite lookup_insert_ne.
Qed.

(** Storing changes contents only: the same blocks with the same sizes. *)
Definition same_shape (h h' : heap) : Prop :=
  h_next h' = h_next h ∧ h_plan h' = h_plan h ∧
  ∀ b, b_size <$> (h_blocks h' !! b) = b_size <$> (h_blocks h !! b).

Lemma same_shape_refl h : same_shape h h.
Proof. done. Qed.

Lemma same_shape_trans h1 h2 h3 : same_shape h1 h2 → same_shape h2 h3 → same_shape h1 h3.
Proof. intros (? & ? & H1) (? & ? & H2). split_and!; [congruence..|]. intros b. by rewrite H2. Qed.

Lemma same_shape_valid h h' p n : same_shape h h' → mem_valid h p n → mem_valid h' p n.
Proof.
  intros (_ & _ & Hs) (Hnz & b & Hb & Hlo & Hhi). split; [done|].
  specialize (Hs (p_blk p)). rewrite Hb in Hs. simpl in Hs.
  destruct (h_blocks h' !! p_blk p) as [b'|] eqn:E; [|done]. injection Hs as Hs.
  exists b'. split_and!; auto. lia.
Qed.

Lemma same_shape_ok h h' : same_shape h h' → heap_ok h → heap_ok h'.
Proof.
  intros (Hn & _ & Hs) [Hpos Hb]. split; [lia|]. intros b Hsome. rewrite Hn. apply Hb.
  apply (fmap_is_Some b_size). rewrite <- Hs. by apply fmap_is_Some.
Qed.

Lemma mem_store_valid h p n f :
  mem_valid h p n → ∃ h', mem_store p n f h = Done h' ∧ same_shape h h'.
Proof.
  intros Hv. unfold mem_store. destruct (n <=? 0); [by eexists|].
  destruct (mem_access_valid _ _ _ Hv) as (b & -> & Hb). simpl.
  eexists. split; [done|]. split_and!; [done..|]. intros b'. simpl.
  destruct (decide (b' = p_blk p)) as [->|Hne].
  - by rewrite lookup_insert_eq, Hb.
  - by rewrite lookup_insert_ne.
Qed.

Lemma mem_load_valid h p n :
  mem_valid h p n →
  ∃ f, mem_load p n h = Done f ∧ ∀ i, 0 <= i < n → f i = byte_at h (ptr_add p i).
Proof.
  intros Hv. unfold mem_load. destruct (Z.leb_spec n 0) as [Hn|Hn].
  { eexists. split; [done|]. intros. lia. }
  destruct (mem_access_valid _ _ _ Hv) as (b & -> & Hb). simpl.
  eexists. split; [done|]. intros i Hi. unfold byte_at, ptr_add. simpl. by rewrite Hb.
Qed.

(** The effect of [mio_mem_copy] on every byte of memory. *)
Lemma mio_mem_copy_valid h to from n :
  mem_valid h to n → mem_valid h from n →
  ∃ h', mio_mem_copy to from n h = Done h' ∧ same_shape h h' ∧
    ∀ q, byte_at h' q =
      if (p_blk q =? p_blk to) && (p_off to <=? p_off q) && (p_off q <? p_off to + n)
      then byte_at h (ptr_add from (p_off q - p_off to)) else byte_at h q.
Proof.
  intros Hto Hfrom. unfold mio_mem_copy.
  destruct (mem_load_valid _ _ _ Hfrom) as (f & -> & Hf). simpl.
  destruct (mem_store_valid _ _ _ f Hto) as (h' & Hst & Hs). exists h'. split_and!; [done..|].
  intros q. rewrite (byte_at_store _ _ _ _ _ _ Hst).
  destruct (p_blk q =? p_blk to); simpl; [|by rewrite andb_false_r].
  rewrite andb_true_r. destruct (Z.leb_spec (p_off to) (p_off q)); simpl;
    [|by rewrite andb_false_r].
  rewrite andb_true_r.
  destruct (Z.ltb_spec (p_off q) (p_off to + n)); simpl; [|by rewrite andb_false_r].
  rewrite (proj2 (Z.ltb_lt _ _)) by lia. simpl. apply Hf. lia.
Qed.

(** ** Ownership

    [heap_grow h h' bs]: from [h], the blocks [bs] were allocated and are still
    live in [h']; everything else is as it was. *)
Definition heap_grow (h h' : heap) (bs : list Z) : Prop :=
  heap_ok h ∧ heap_ok h' ∧ h_next h <= h_next h' ∧ NoDup bs ∧
  (∀ b, b ∈ bs → h_next h <= b < h_next h' ∧ is_Some (h_blocks h' !! b)) ∧
  ∀ b, b ∉ bs → h_blocks h' !! b = h_blocks h !! b.

#[global] Instance heap_grow_proper h h' : Proper ((≡ₚ) ==> iff) (heap_grow h h').
Proof.
  intros bs bs' Hp. unfold heap_grow. setoid_rewrite Hp. done.
Qed.

Lemma heap_grow_refl h : heap_ok h → heap_grow h h [].
Proof.
  intros Hok. split_and!; [done|done|lia|constructor| |done].
  intros b Hb. by apply not_elem_of_nil in Hb.
Qed.

Lemma heap_grow_ok h h' bs : heap_grow h h' bs → heap_ok h'.
Proof. by intros (_ & ? & _). Qed.

Lemma heap_grow_fresh h h' bs b : heap_grow h h' bs → b < h_next h → b ∉ bs.
Proof. intros (_ & _ & _ & _ & Hb & _) Hlt Hin. apply Hb in Hin. lia. Qed.

(** Without new blocks the heap is unchanged. *)
Lemma heap_grow_nil h h' : heap_grow h h' [] → h_blocks h' = h_blocks h.
Proof.
  intros (_ & _ & _ & _ & _ & Heq). apply map_eq. intros b. apply Heq. apply not_elem_of_nil.
Qed.

Lemma heap_grow_alloc h h' bs size p h'' :
  heap_grow h h' bs → mio_mem_alloc size h' = (p, h'') →
  (p = NULL ∧ heap_grow h h'' bs ∧ h_blocks h'' = h_blocks h' ∧ h_plan h' ≠ []) ∨
  (∃ b, p = MkPtr b 0 ∧ p ≠ NULL ∧ (b ∉ bs) ∧ heap_grow h h'' (b :: bs) ∧
    h_blocks h'' = <[b := MkBlock size (λ _, 0)]> (h_blocks h') ∧ h_blocks h' !! b = None ∧
    (h_plan h' = [] → h_plan h'' = [])).
Proof.
  intros (Hok & Hok' & Hle & Hnd & Hbs & Hout) Halloc.
  destruct (mio_mem_alloc_spec _ _ _ _ Hok' Halloc) as
    (Hok'' & Hpl & [(-> & Hn & Hbl & Hpne)|(-> & Hn & Hbl & Hnone & Hnn)]).
  - left. split; [done|]. split; [|done]. unfold heap_grow. rewrite Hn, Hbl. by split_and!.
  - right. exists (h_next h').
    assert (h_next h' ∉ bs) by (intros Hin; apply Hbs in Hin; lia).
    do 3 (split; [done|]). split; [|split_and!; [done|done|by intros Hp; rewrite Hpl, Hp]].
    unfold heap_grow. rewrite Hn, Hbl. split_and!; [done|done|lia|by constructor|..].
    + intros b. rewrite elem_of_cons. intros [->|Hin].
      * rewrite lookup_insert_eq. split; [lia|done].
      * destruct (Hbs b Hin) as [? ?]. split; [lia|].
        rewrite lookup_insert_ne by congruence. done.
    + intros b. rewrite not_elem_of_cons. intros [Hne Hni].
      rewrite lookup_insert_ne by done. by apply Hout.
Qed.

Lemma heap_grow_free h h' b bs :
  heap_grow h h' (b :: bs) →
  ∃ h'', mio_mem_free (MkPtr b 0) h' = Done h'' ∧ heap_grow h h'' bs ∧ h_plan h'' = h_plan h' ∧
    h_blocks h'' = delete b (h_blocks h').
Proof.
  intros (Hok & Hok' & Hle & [Hni Hnd]%NoDup_cons & Hbs & Hout).
  destruct (Hbs b) as [Hrange Hsome]; [left|].
  unfold mio_mem_free. rewrite decide_False by (intros [=]; destruct Hok; lia).
  unfold blk_live. simpl. rewrite bool_decide_true by done. simpl.
  eexists. split; [done|]. split; [|done].
  assert (Hok'' : heap_ok (MkHeap (h_next h') (delete b (h_blocks h')) (h_plan h'))).
  { destruct Hok' as [Hpos Hlive]. split; [done|]. simpl. intros b'.
    destruct (decide (b' = b)) as [->|]; [rewrite lookup_delete_eq; by intros []|].
    rewrite lookup_delete_ne by done. apply Hlive. }
  unfold heap_grow. simpl. split_and!; [done..| |].
  - intros b' Hin. destruct (Hbs b') as [? ?]; [by right|].
    split; [done|]. rewrite lookup_delete_ne by (intros ->; done). done.
  - intros b' Hin. destruct (decide (b' = b)) as [->|].
    + rewrite lookup_delete_eq. symmetry. apply eq_None_not_Some. intros Hs.
      apply Hok in Hs. lia.
    + rewrite lookup_delete_ne by done. apply Hout. rewrite elem_of_cons. tauto.
Qed.

(** Contents of blocks that existed before. *)
Lemma heap_grow_valid h h' bs p n : heap_grow h h' bs → mem_valid h p n → mem_valid h' p n.
Proof.
  intros Hg (Hnz & b & Hb & Hlo & Hhi). split; [done|]. exists b. split_and!; auto.
  destruct Hg as (Hok & _ & _ & _ & Hbs & Hout). rewrite <- Hb. apply Hout.
  intros Hin. apply Hbs in Hin. assert (p_blk p < h_next h) by (apply Hok; eauto). lia.
Qed.

Lemma heap_grow_byte_at h h' bs p : heap_grow h h' bs → p_blk p < h_next h →
  byte_at h' p = byte_at h p.
Proof.
  intros Hg Hlt. unfold byte_at. pose proof (heap_grow_fresh _ _ _ _ Hg Hlt).
  destruct Hg as (_ & _ & _ & _ & _ & Hout). by rewrite Hout.
Qed.

Lemma mem_valid_blk h p n : heap_ok h → mem_valid h p n → 0 < p_blk p < h_next h.
Proof. intros [_ Hb] (_ & b & Hs & _). apply Hb. eauto. Qed.

Lemma heap_grow_trans h1 h2 h3 bs bs' :
  heap_grow h1 h2 bs → heap_grow h2 h3 bs' → heap_grow h1 h3 (bs' ++ bs).
Proof.
  intros (Hok1 & Hok2 & Hle & Hnd & Hbs & Hout) (_ & Hok3 & Hle' & Hnd' & Hbs' & Hout').
  split_and!; [done|done|lia| | |].
  - apply NoDup_app. split_and!; [done| |done]. intros b Hb Hb2. apply Hbs' in Hb. apply Hbs in Hb2. lia.
  - intros b [Hb|Hb]%elem_of_app.
    + apply Hbs' in Hb as [? ?]. split; [lia|done].
    + pose proof Hb as Hb2. apply Hbs in Hb as [Hr Hs]. split; [lia|].
      rewrite Hout'; [done|]. intros Hb'. apply Hbs' in Hb'. lia.
  - intros b [Hn Hn']%not_elem_of_app. by rewrite Hout', Hout.
Qed.

(** An allocation when malloc() does not fail. *)
Lemma heap_grow_alloc_ok h h' bs size :
  heap_grow h h' bs → h_plan h' = [] →
  ∃ b h'', mio_mem_alloc size h' = (MkPtr b 0, h'') ∧ MkPtr b 0 ≠ NULL ∧ (b ∉ bs) ∧
    heap_grow h h'' (b :: bs) ∧ h_plan h'' = [].
Proof.
  intros Hg Hp. destruct (mio_mem_alloc size h') as [p h''] eqn:Ha.
  destruct (heap_grow_alloc _ _ _ _ _ _ Hg Ha) as [(_ & _ & _ & ?)|(b & -> & ? & ? & ? & _ & _ & Hpl)];
    [done|]. exists b, h''. split_and!; auto.
Qed.

(** ** Plans

    Whether the next [n] calls of malloc() succeed. *)
Fixpoint allocs_ok (n : nat) (plan : list bool) : bool :=
  match n with
  | O => true
  | S n => hd true plan && allocs_ok n (tail plan)
  end.

Lemma allocs_ok_nil n : allocs_ok n [] = true.
Proof. induction n as [|n IH]; [done|exact IH]. Qed.

Lemma allocs_ok_add n m plan : allocs_ok (n + m) plan = allocs_ok n plan && allocs_ok m (drop n plan).
Proof.
  revert plan. induction n as [|n IH]; intros plan; [done|]. simpl. rewrite IH, andb_assoc.
  destruct plan; simpl; [by rewrite drop_nil|done].
Qed.

(** An allocation is decided by the head of the plan. *)
Lemma heap_grow_alloc_plan h h' bs size :
  heap_grow h h' bs →
  ∃ p h'', mio_mem_alloc size h' = (p, h'') ∧ h_plan h'' = tail (h_plan h') ∧
    if hd true (h_plan h') then
      ∃ b, p = MkPtr b 0 ∧ p ≠ NULL ∧ (b ∉ bs) ∧ heap_grow h h'' (b :: bs) ∧
        h_blocks h'' = <[b := MkBlock size (λ _, 0)]> (h_blocks h') ∧ h_blocks h' !! b = None
    else p = NULL ∧ heap_grow h h'' bs ∧ h_blocks h'' = h_blocks h'.
Proof.
  intros Hg. destruct (mio_mem_alloc size h') as [p h''] eqn:Ha. exists p, h''. split; [done|].
  assert (Hp : h_plan h'' = tail (h_plan h') ∧ (p = NULL → hd true (h_plan h') = false) ∧
    (hd true (h_plan h') = false → p = NULL)).
  { destruct (heap_grow_ok _ _ _ Hg) as [Hn _]. unfold mio_mem_alloc in Ha.
    destruct (h_plan h') as [|[] plan]; injection Ha as <- <-; split_and!; try done; intros [=]; lia. }
  destruct Hp as (Hpl & H1 & H2). split; [done|].
  destruct (heap_grow_alloc _ _ _ _ _ _ Hg Ha) as [(-> & ? & ? & _)|(b & -> & ? & ? & ? & ? & ? & _)].
  - by rewrite H1.
  - destruct (hd true (h_plan h')); [by exists b|]. by specialize (H2 eq_refl).
Qed.

(** A block that is owned, or was there before, is live. *)
Lemma heap_grow_live h h' bs b : heap_grow h h' bs → b ∈ bs → blk_live h' b = true.
Proof. intros (_ & _ & _ & _ & Hb & _) Hin. apply bool_decide_true. by apply Hb. Qed.

Lemma heap_grow_live_old h h' bs b : heap_grow h h' bs → blk_live h b = true → blk_live h' b = true.
Proof.
  intros Hg Hl. assert (b ∉ bs) as Hni.
  { destruct Hg as (Hok & _ & _ & _ & Hb & _). intros Hin. apply Hb in Hin as [? _].
    apply bool_decide_eq_true_1 in Hl. apply Hok in Hl. lia. }
  destruct Hg as (_ & _ & _ & _ & _ & Hout). unfold blk_live. by rewrite Hout.
Qed.

(** Releasing one of the owned blocks. *)
Lemma heap_grow_free_in h h' b bs bs' :
  heap_grow h h' bs → bs ≡ₚ b :: bs' →
  ∃ h'', mio_mem_free (MkPtr b 0) h' = Done h'' ∧ heap_grow h h'' bs' ∧ h_plan h'' = h_plan h' ∧
    h_blocks h'' = delete b (h_blocks h').
Proof. intros Hg Hp. apply heap_grow_free. by rewrite <- Hp. Qed.
