(* ===== verification/Types.v ===== *)
(** * Shared data types (src/mio.h, src/mio_internal.h)

    The records and enumerations that several components use.  A field keeps
    its C name; a C enumeration is a set of [Z] constants, since the code
    stores arbitrary integers in some of them. *)

From S2P Require Import Prelude ObjId HintMap Mem.

(** ** Operation codes and states *)
Definition MIO_OBJ_INVALID : Z := 0.
Definition MIO_OBJ_CREATE : Z := 1.
Definition MIO_OBJ_DELETE : Z := 2.
Definition MIO_OBJ_OPEN : Z := 3.
Definition MIO_OBJ_CLOSE : Z := 4.
Definition MIO_OBJ_SYNC : Z := 5.
Definition MIO_OBJ_ATTRS_SET : Z := 6.
Definition MIO_OBJ_ATTRS_GET : Z := 7.
Definition MIO_OBJ_READ : Z := 8.
Definition MIO_OBJ_WRITE : Z := 9.
Definition MIO_OBJ_OP_NR : Z := 10.

Definition MIO_KVS_CREATE_SET : Z := MIO_OBJ_OP_NR + 1.
Definition MIO_KVS_DELETE_SET : Z := MIO_KVS_CREATE_SET + 1.
Definition MIO_KVS_LOOKUP_SET : Z := MIO_KVS_DELETE_SET + 1.
Definition MIO_KVS_GET : Z := MIO_KVS_LOOKUP_SET + 1.
Definition MIO_KVS_PUT : Z := MIO_KVS_GET + 1.
Definition MIO_KVS_DEL : Z := MIO_KVS_PUT + 1.
Definition MIO_KVS_OP_NR : Z := MIO_KVS_DEL + 1.

Definition MIO_COMP_OBJ_CREATE : Z := MIO_KVS_OP_NR + 1.
Definition MIO_COMP_OBJ_DELETE : Z := MIO_COMP_OBJ_CREATE + 1.
Definition MIO_COMP_OBJ_ADD_LAYERS : Z := MIO_COMP_OBJ_DELETE + 1.
Definition MIO_COMP_OBJ_DEL_LAYERS : Z := MIO_COMP_OBJ_ADD_LAYERS + 1.
Definition MIO_COMP_OBJ_LIST_LAYERS : Z := MIO_COMP_OBJ_DEL_LAYERS + 1.
Definition MIO_COMP_OBJ_ADD_EXTENTS : Z := MIO_COMP_OBJ_LIST_LAYERS + 1.
Definition MIO_COMP_OBJ_DEL_EXTENTS : Z := MIO_COMP_OBJ_ADD_EXTENTS + 1.
Definition MIO_COMP_OBJ_GET_EXTENTS : Z := MIO_COMP_OBJ_DEL_EXTENTS + 1.

Definition MIO_OP_ONFLY : Z := 0.
Definition MIO_OP_COMPLETED : Z := 1.
Definition MIO_OP_FAILED : Z := 2.

(** What a post-processing action returns. *)
Definition MIO_DRV_OP_NEXT : Z := 0.
Definition MIO_DRV_OP_FINAL : Z := 1.

(** ** Motr's structures, as far as MIO reads them *)
Record m0_obj := MkM0Obj {
  ob_id : m0_uint128;      (* ob_entity.en_id *)
  oa_bshift : Z;           (* ob_attr.oa_bshift *)
  oa_pver : m0_fid         (* ob_attr.oa_pver *)
}.

Record m0_pdclust_attr := MkPdclust { pa_N : Z; pa_K : Z; pa_P : Z }.

Record m0_pool_version := MkPver {
  pv_attr : m0_pdclust_attr;
  po_id : m0_fid           (* pv_pool->po_id *)
}.

(** ** Objects *)
Record mio_obj_stats := MkStats {
  mos_rcount : Z; mos_rbytes : Z; mos_rtime : Z;
  mos_wcount : Z; mos_wbytes : Z; mos_wtime : Z
}.

Record mio_obj_attrs := MkAttrs {
  moa_size : Z;
  moa_stats : mio_obj_stats;
  moa_phints : mio_hint_map
}.

Record mio_obj := MkObj {
  mo_id : mio_obj_id;
  mo_sess_seqno : Z;
  mo_hints : mio_hint_map;
  mo_attrs_updated : bool;
  mo_attrs : mio_obj_attrs;
  mo_drv_obj : option m0_obj
}.

Definition stats_zero : mio_obj_stats := MkStats 0 0 0 0 0 0.
Definition attrs_zero : mio_obj_attrs := MkAttrs 0 stats_zero hint_map_zero.

Definition set_mo_hints (hints : mio_hint_map) (obj : mio_obj) : mio_obj :=
  MkObj (mo_id obj) (mo_sess_seqno obj) hints (mo_attrs_updated obj) (mo_attrs obj)
    (mo_drv_obj obj).
Definition set_mo_attrs (attrs : mio_obj_attrs) (obj : mio_obj) : mio_obj :=
  MkObj (mo_id obj) (mo_sess_seqno obj) (mo_hints obj) (mo_attrs_updated obj) attrs
    (mo_drv_obj obj).
Definition set_moa_size (size : Z) (obj : mio_obj) : mio_obj :=
  set_mo_attrs (MkAttrs size (moa_stats (mo_attrs obj)) (moa_phints (mo_attrs obj))) obj.
Definition set_moa_phints (phints : mio_hint_map) (obj : mio_obj) : mio_obj :=
  set_mo_attrs (MkAttrs (moa_size (mo_attrs obj)) (moa_stats (mo_attrs obj)) phints) obj.

(** [struct mio_iovec]: a memory area and the byte range of an object. *)
Record mio_iovec := MkIov { miov_base : ptr; miov_off : Z; miov_len : Z }.

#[global] Instance mio_iovec_eq_dec : EqDecision mio_iovec.
Proof. solve_decision. Defined.

Definition iov_end (v : mio_iovec) : Z := miov_off v + miov_len v.

(** ** Pools *)
Definition MIO_POOL_GOLD : Z := 256.
Definition MIO_POOL_SILVER : Z := 257.
Definition MIO_POOL_BRONZE : Z := 258.

Definition MIO_POOL_MAX_NAME_LEN : Z := 32.
Definition MIO_POOL_MAX_NR_OPT_BLKSIZES : Z := 16.
Definition MIO_MOTR_MAX_POOL_CNT : Z := 16.

(** ** The configuration of the Motr driver

    It is allocated with malloc() and not cleared, so a field is [Uninit] until
    it is written.  A string field holds NULL or the bytes that were
    allocated for it. *)
Inductive cfield (A : Type) :=
| Uninit
| Init (a : A).
Arguments Uninit {A}.
Arguments Init {A} a.

Abbreviation cstr := (option (list Z)).

Record mio_motr_config := MkMotrConf {
  mc_is_oostore : cfield bool;
  mc_is_read_verify : cfield bool;
  mc_motr_local_addr : cfield cstr;
  mc_ha_addr : cfield cstr;
  mc_process_fid : cfield cstr;
  mc_profile : cfield cstr;
  mc_tm_recv_queue_min_len : cfield Z;
  mc_max_rpc_msg_size : cfield Z;
  mc_unit_size : cfield Z;
  mc_default_layout_id : cfield Z;
  mc_max_iosize_per_dev : Z;
  mc_motr_group : cfield cstr;
  mc_is_addb_on : cfield bool
}.
