(* ===== verification/IoVec.v ===== *)
(** * IO vectors of the Motr driver, part 1: limits, arguments, sorting
    (src/driver_motr_obj.c, lines 300-551)

    The limits of one operation, the arguments of a read or write with the
    arrays sized by [motr_obj_rw_args_estimate_iovcnts], and the selection sort
    with its overlap check. *)

From stdpp Require Import sorting.
From S2P Require Import Prelude ObjId HintMap Mem Types.

(** ** Arrays filled from the front

    [v_cap] elements are allocated and [v_items] are in use; writing the element
    after the last allocated one is out of bounds. *)
Record vec (A : Type) := MkVec { v_cap : nat; v_items : list A }.
Arguments MkVec {A} v_cap v_items.
Arguments v_cap {A} v.
Arguments v_items {A} v.

Definition vec_len {A} (v : vec A) : nat := length (v_items v).

Definition vec_push {A} (x : A) (v : vec A) : outcome (vec A) :=
  if decide (vec_len v < v_cap v)%nat then Done (MkVec (v_cap v) (v_items v ++ [x]))
  else Fault OutOfBounds.

(** ** What the driver knows of Motr

    The configuration of the instance, and the lookup of pool versions in
    Motr's configuration database. *)
Class IoEnv := {
  io_confs : option mio_motr_config;
  m0_conf_fid_is_valid : m0_fid → bool;
  m0_pool_version_find : m0_fid → option m0_pool_version
}.

(** struct motr_obj_rw_args.  The fields [p_...] are the addresses of the
    structure and of its arrays; the contents of the arrays are the [vec]
    fields.  The arrays rwa_dc_src_iovs and rwa_dc_dst_iovs share a counter and
    are one array of pairs (source, destination). *)
Record rw_args := MkRwArgs {
  rwa_obj : mio_obj;
  rwa_is_write : bool;
  rwa_max_eow : Z;
  rwa_orig_iovs : list mio_iovec;
  rwa_sorted_iovs : list mio_iovec;
  rwa_aligned_progress : nat;
  rwa_aligned : vec mio_iovec;
  rwa_rbw_progress : nat;
  rwa_rbw : vec mio_iovec;
  rwa_dc : vec (mio_iovec * mio_iovec);
  rwa_extra_pages : vec ptr;
  p_args : ptr;
  p_sorted : ptr;
  p_aligned : ptr;
  p_rbw : ptr;
  p_dc_src : ptr;
  p_dc_dst : ptr;
  p_extra : ptr
}.

Definition iov_zero : mio_iovec := MkIov NULL 0 0.

Definition SIZEOF_IOVEC : Z := 24.
Definition SIZEOF_RW_ARGS : Z := 120.
Definition SIZEOF_PTR : Z := 8.

Section Limits.
Context `{IoEnv}.

(** [motr_obj_io_pagesize]: 1 << oa_bshift, an int. *)
Definition motr_obj_io_pagesize (obj : mio_obj) : outcome Z :=
  match mo_drv_obj obj with
  | None => Fault NullDeref
  | Some cobj => Done (s32 (Z.shiftl 1 (oa_bshift cobj)))
  end.

(** [motr_obj_max_size_per_op]: an error code, or the limit in bytes. *)
Definition motr_obj_max_size_per_op (obj : mio_obj) : outcome (Z + Z) :=
  match io_confs, mo_drv_obj obj with
  | Some motr_config, Some cobj =>
      let pver := if m0_conf_fid_is_valid (oa_pver cobj)
                  then m0_pool_version_find (oa_pver cobj) else None in
      match pver with
      | None => Done (inl (- EINVAL))
      | Some pver =>
          let pa := pv_attr pver in
          let units := u32 (pa_N pa + pa_K pa) in
          if units =? 0 then Fault DivByZero else
          Done (inr (u64 (u64 (mc_max_iosize_per_dev motr_config * pa_N pa) * pa_P pa)
                     / units))
      end
  | _, _ => Done (inl (- EINVAL))
  end.

(** The loop of [motr_obj_rw_args_estimate_iovcnts]: the numbers of aligned
    vectors and of data copies. *)
Fixpoint estimate_loop (iovs : list mio_iovec) (max_size : Z) (aligned_cnt dc_cnt : Z)
  : outcome (Z * Z) :=
  match iovs with
  | [] => Done (aligned_cnt, dc_cnt)
  | v :: iovs' =>
      if max_size =? 0 then Fault DivByZero else
      let n := u64 (u64 (miov_len v + max_size) - 1) / max_size in
      estimate_loop iovs' max_size (s32 (s32 (aligned_cnt + n) + 2)) (s32 (dc_cnt + 2))
  end.

Definition motr_obj_rw_args_estimate_iovcnts (obj : mio_obj) (iovs : list mio_iovec)
  : outcome (Z + Z * Z) :=
  r ← motr_obj_max_size_per_op obj;
  match r with
  | inl rc => Done (inl rc)
  | inr max_size => c ← estimate_loop iovs max_size 0 0; Done (inr c)
  end.

(** [motr_obj_rw_args_free]. *)
Fixpoint free_pages (pages : list ptr) (h : heap) : outcome heap :=
  match pages with
  | [] => Done h
  | p :: pages' => h ← mio_mem_free p h; free_pages pages' h
  end.

Definition motr_obj_rw_args_free (args : rw_args) (h : heap) : outcome heap :=
  h ← mio_mem_free (p_rbw args) h;
  h ← mio_mem_free (p_dc_src args) h;
  h ← mio_mem_free (p_dc_dst args) h;
  h ← mio_mem_free (p_aligned args) h;
  h ← mio_mem_free (p_sorted args) h;
  h ← free_pages (v_items (rwa_extra_pages args)) h;
  mio_mem_free (p_args args) h.

(** [motr_obj_rw_args_alloc]: the arguments, or NULL. *)
Definition motr_obj_rw_args_alloc (obj : mio_obj) (iovs : list mio_iovec) (h : heap)
  : outcome (option rw_args * heap) :=
  let '(pa, h) := mio_mem_alloc SIZEOF_RW_ARGS h in
  if decide (pa = NULL) then Done (None, h) else
  let mk ps pal prb psrc pdst pex na nd :=
    MkRwArgs obj false 0 iovs (replicate (length iovs) iov_zero) 0 (MkVec na []) 0 (MkVec nd []) (MkVec nd [])
      (MkVec nd []) pa ps pal prb psrc pdst pex in
  let error args h := h ← motr_obj_rw_args_free args h; Done (None, h) in
  let '(ps, h) := mio_mem_alloc (Z.of_nat (length iovs) * SIZEOF_IOVEC) h in
  if decide (ps = NULL) then error (mk NULL NULL NULL NULL NULL NULL 0%nat 0%nat) h else
  r ← motr_obj_rw_args_estimate_iovcnts obj iovs;
  match r with
  | inl rc => error (mk ps NULL NULL NULL NULL NULL 0%nat 0%nat) h
  | inr (aligned_iovcnt, dc_iovcnt) =>
      let na := Z.to_nat aligned_iovcnt in
      let nd := Z.to_nat dc_iovcnt in
      let '(pal, h) := mio_mem_alloc (aligned_iovcnt * SIZEOF_IOVEC) h in
      if decide (pal = NULL) then error (mk ps NULL NULL NULL NULL NULL 0%nat 0%nat) h else
      let '(prb, h) := mio_mem_alloc (dc_iovcnt * SIZEOF_IOVEC) h in
      if decide (prb = NULL) then error (mk ps pal NULL NULL NULL NULL 0%nat 0%nat) h else
      let '(psrc, h) := mio_mem_alloc (dc_iovcnt * SIZEOF_IOVEC) h in
      if decide (psrc = NULL) then error (mk ps pal prb NULL NULL NULL 0%nat 0%nat) h else
      let '(pdst, h) := mio_mem_alloc (dc_iovcnt * SIZEOF_IOVEC) h in
      if decide (pdst = NULL) then error (mk ps pal prb psrc NULL NULL 0%nat 0%nat) h else
      let '(pex, h) := mio_mem_alloc (dc_iovcnt * SIZEOF_PTR) h in
      if decide (pex = NULL) then error (mk ps pal prb psrc pdst NULL 0%nat 0%nat) h else
      Done (Some (mk ps pal prb psrc pdst pex na nd), h)
  end.
End Limits.

(** ** Sorting *)

(** The inner loop: the first vector with the least offset among [min] (at
    [min_idx]) and those of [l], whose first index is [j]. *)
Fixpoint sort_min (l : list mio_iovec) (j min_idx : nat) (min_off : Z) : nat * Z :=
  match l with
  | [] => (min_idx, min_off)
  | v :: l' =>
      if miov_off v <? min_off then sort_min l' (S j) j (miov_off v)
      else sort_min l' (S j) min_idx min_off
  end.

(** Exchange of elements [i] and [j]. *)
Definition swap (i j : nat) (l : list mio_iovec) : list mio_iovec :=
  match l !! i, l !! j with
  | Some x, Some y => <[j:=x]> (<[i:=y]> l)
  | _, _ => l
  end.

(** The outer loop, for the indices [i] .. [i+n-1]. *)
Fixpoint sort_loop (sorted_iovs : list mio_iovec) (i n : nat) : list mio_iovec :=
  match n with
  | O => sorted_iovs
  | S n' =>
      match sorted_iovs !! i with
      | None => sorted_iovs
      | Some v =>
          let '(min_idx, _) := sort_min (drop (S i) sorted_iovs) (S i) i (miov_off v) in
          if decide (min_idx = i) then sort_loop sorted_iovs (S i) n'
          else sort_loop (swap i min_idx sorted_iovs) (S i) n'
      end
  end.

(** The check loop over the neighbours [prev], [v]: overlap is -EINVAL;
    for a write the end of the furthest vector is kept. *)
Fixpoint overlap_loop (is_write : bool) (prev : mio_iovec) (l : list mio_iovec) (max_eow : Z)
  : Z * Z :=
  match l with
  | [] => (0, max_eow)
  | v :: l' =>
      if miov_off v <? u64 (miov_off prev + miov_len prev) then (- EINVAL, max_eow)
      else
        let eow := u64 (miov_off v + miov_len v) in
        overlap_loop is_write v l'
          (if is_write && (max_eow <? eow) then eow else max_eow)
  end.

Definition set_sorted (sorted : list mio_iovec) (max_eow : Z) (args : rw_args) : rw_args :=
  MkRwArgs (rwa_obj args) (rwa_is_write args) max_eow (rwa_orig_iovs args) sorted
    (rwa_aligned_progress args) (rwa_aligned args) (rwa_rbw_progress args) (rwa_rbw args)
    (rwa_dc args) (rwa_extra_pages args) (p_args args) (p_sorted args) (p_aligned args)
    (p_rbw args) (p_dc_src args) (p_dc_dst args) (p_extra args).

(** [motr_obj_iovec_sort].  With no vector at all the code reads
    sorted_iovs[0] of an empty array. *)
Definition motr_obj_iovec_sort (args : rw_args) : outcome (Z * rw_args) :=
  let sorted := sort_loop (rwa_orig_iovs args) 0 (length (rwa_orig_iovs args)) in
  match sorted with
  | [] => Fault OutOfBounds
  | first :: rest =>
      let max_eow := u64 (miov_off first + miov_len first) in
      let '(rc, max_eow) := overlap_loop (rwa_is_write args) first rest max_eow in
      let eow := if rwa_is_write args && (rc =? 0) then max_eow else rwa_max_eow args in
      Done (rc, set_sorted sorted eow args)
  end.

(** ** Lemmas on sorting *)

Definition iov_le (a b : mio_iovec) : Prop := miov_off a <= miov_off b.
#[global] Instance iov_le_dec a b : Decision (iov_le a b).
Proof. unfold iov_le. apply _. Defined.

Lemma sort_min_spec l pre j min_idx m :
  length pre = j → (pre ++ l) !! min_idx = Some m →
  ∃ r v, sort_min l j min_idx (miov_off m) = (r, miov_off v) ∧
    (pre ++ l) !! r = Some v ∧ (r = min_idx ∨ j <= r)%nat ∧
    miov_off v <= miov_off m ∧ Forall (λ w, miov_off v <= miov_off w) l.
Proof.
  revert pre j min_idx m; induction l as [|w l IH]; intros pre j min_idx m Hj Hm; simpl.
  - exists min_idx, m. split_and!; auto; lia.
  - rewrite cons_middle, app_assoc in Hm |- *.
    assert (Hw : ((pre ++ [w]) ++ l) !! j = Some w).
    { rewrite <- app_assoc, lookup_app_r by lia. by rewrite Hj, Nat.sub_diag. }
    destruct (Z.ltb_spec (miov_off w) (miov_off m)).
    + destruct (IH (pre ++ [w]) (S j) j w) as (r & v & -> & Hr & Hidx & Hle & Hall); auto.
      { rewrite length_app. simpl. lia. }
      exists r, v. split_and!; [done|done|right; destruct Hidx; lia|lia|].
      constructor; [lia|done].
    + destruct (IH (pre ++ [w]) (S j) min_idx m) as (r & v & -> & Hr & Hidx & Hle & Hall); auto.
      { rewrite length_app. simpl. lia. }
      exists r, v. split_and!; [done|done|destruct Hidx; [left|right]; lia|lia|].
      constructor; [lia|done].
Qed.

Lemma swap_perm i j l : swap i j l ≡ₚ l.
Proof.
  unfold swap. destruct (l !! i) as [x|] eqn:Hi, (l !! j) as [y|] eqn:Hj; try done.
  by apply Permutation_insert_swap.
Qed.

(** After the passes below [i], the prefix is sorted and no vector after it has
    a smaller offset. *)
Definition sorted_upto (i : nat) (l : list mio_iovec) : Prop :=
  StronglySorted iov_le (take i l) ∧
  ∀ a b, a ∈ take i l → b ∈ drop i l → iov_le a b.

Lemma sort_loop_spec n i l :
  (i + n = length l)%nat → sorted_upto i l →
  sort_loop l i n ≡ₚ l ∧ StronglySorted iov_le (sort_loop l i n).
Proof.
  revert i l; induction n as [|n IH]; intros i l Hlen [Hs Hle]; simpl.
  { rewrite take_ge in Hs by lia. done. }
  destruct (lookup_lt_is_Some_2 l i) as [v Hv]; [lia|]. rewrite Hv.
  assert (Hsplit : l = take (S i) l ++ drop (S i) l) by by rewrite take_drop.
  destruct (sort_min_spec (drop (S i) l) (take (S i) l) (S i) i v) as (r & w & Hmin & Hr & Hidx & Hwv & Hall).
  { rewrite length_take. lia. }
  { by rewrite <- Hsplit. }
  rewrite <- Hsplit in Hr. rewrite Hmin.
  (* the least of the rest is at index i afterwards *)
  assert (Hstep : ∀ l', l' ≡ₚ l → take i l' = take i l → l' !! i = Some w →
    (∀ b, b ∈ drop (S i) l' → iov_le w b) → sorted_upto (S i) l').
  { intros l' Hp Ht Hi Hb. assert (Hdrop : drop i l' ≡ₚ drop i l).
    { apply (Permutation_app_inv_l (take i l)). rewrite <- Ht at 1. by rewrite !take_drop. }
    assert (Hw : w ∈ drop i l).
    { rewrite <- Hdrop, (drop_S _ _ _ Hi). left. }
    split.
    - rewrite (take_S_r _ _ _ Hi), Ht. apply StronglySorted_app_2; [|done|repeat constructor].
      intros a b Ha ->%list_elem_of_singleton. by apply Hle.
    - intros a b. rewrite (take_S_r _ _ _ Hi), Ht, elem_of_app, list_elem_of_singleton.
      intros [Ha | ->] Hbb; [|by apply Hb]. apply Hle; [done|].
      rewrite <- Hdrop, (drop_S _ _ _ Hi). by right. }
  assert (Hrest : ∀ b, b ∈ drop (S i) l → iov_le w b).
  { intros b Hb. rewrite Forall_forall in Hall. by apply Hall. }
  case_decide as Hd.
  - subst r. apply IH; [lia|]. apply Hstep; auto; congruence.
  - destruct Hidx as [?|Hir]; [done|].
    assert (Hswap : swap i r l = <[r:=v]> (<[i:=w]> l)) by (unfold swap; by rewrite Hv, Hr).
    assert (r < length l)%nat by by eapply lookup_lt_Some.
    pose proof (swap_perm i r l) as Hp.
    destruct (IH (S i) (swap i r l)) as [Hp' Hs'].
    + rewrite Hp. lia.
    + apply Hstep; [done|..]; rewrite Hswap.
      * rewrite !take_insert_ge by lia. done.
      * rewrite list_lookup_insert_ne, list_lookup_insert_eq by lia. done.
      * intros b. rewrite drop_insert_ge by lia. rewrite drop_insert_lt by lia.
        intros [k Hk]%list_elem_of_lookup. apply list_lookup_insert_Some in Hk.
        destruct Hk as [(_ & <- & _)|[_ Hk]]; [done|].
        apply Hrest. by eapply list_elem_of_lookup_2.
    + split; [by rewrite Hp'|done].
Qed.

Lemma sort_loop_sorted l :
  sort_loop l 0 (length l) ≡ₚ l ∧ StronglySorted iov_le (sort_loop l 0 (length l)).
Proof.
  apply sort_loop_spec; [lia|]. split; [constructor|].
  intros a b Ha. by apply not_elem_of_nil in Ha.
Qed.

(** ** The overlap check *)

(** A vector whose range lies within the 64-bit offsets. *)
Definition iov_ok (v : mio_iovec) : Prop :=
  0 <= miov_off v ∧ 0 <= miov_len v ∧ iov_end v < 2 ^ 64.

(** [a] ends before [b] starts; [a] and [b] share no byte. *)
Definition iov_before (a b : mio_iovec) : Prop := iov_end a <= miov_off b.
Definition iov_disjoint (a b : mio_iovec) : Prop := iov_before a b ∨ iov_before b a.

(** The furthest end of a list of vectors. *)
Definition max_end (l : list mio_iovec) : Z := foldr (λ v m, iov_end v `max` m) 0 l.

Lemma max_end_ge l v : v ∈ l → iov_end v <= max_end l.
Proof. induction 1; simpl; lia. Qed.

Lemma max_end_perm l k : l ≡ₚ k → max_end l = max_end k.
Proof. unfold max_end. induction 1; simpl; lia. Qed.

Lemma StronglySorted_sym_perm (R : mio_iovec → mio_iovec → Prop) l k :
  (∀ a b, R a b → R b a) → l ≡ₚ k → StronglySorted R l → StronglySorted R k.
Proof.
  intros Hsym. induction 1 as [|x l k Hp IH|x y l|l1 l2 l3 _ IH1 _ IH2]; auto.
  - inversion 1; subst. constructor; [auto|]. by rewrite <- Hp.
  - inversion 1 as [|? ? Hs Hx]; subst. inversion Hs as [|? ? Hs' Hy]; subst.
    inversion Hx; subst. constructor; constructor; auto.
Qed.

Lemma StronglySorted_weaken {A} (R S : A → A → Prop) l :
  (∀ a b, R a b → S a b) → StronglySorted R l → StronglySorted S l.
Proof.
  intros HRS. induction 1; constructor; [done|]. eapply Forall_impl; [done|]. auto.
Qed.

(** In a list sorted by offsets, [iov_before] between neighbours decides whether
    the vectors are pairwise disjoint. *)
Lemma sorted_disjoint_before l :
  Forall (λ v, 0 < miov_len v) l → StronglySorted iov_le l →
  StronglySorted iov_disjoint l → StronglySorted iov_before l.
Proof.
  intros Hpos Hle. induction 1 as [|v l Hs IH Hv]; [constructor|].
  inversion Hpos; inversion Hle; subst. constructor; [auto|].
  rewrite Forall_forall in *. intros w Hw.
  destruct (Hv w Hw) as [?|Hb]; [done|].
  unfold iov_before, iov_le, iov_end in *.
  assert (miov_off v <= miov_off w) by auto. assert (0 < miov_len w) by auto. lia.
Qed.

Lemma overlap_loop_spec w prev l m :
  Forall iov_ok (prev :: l) →
  fst (overlap_loop w prev l m) = 0 ∧ StronglySorted iov_before (prev :: l) ∨
  fst (overlap_loop w prev l m) = - EINVAL ∧ ¬ StronglySorted iov_before (prev :: l).
Proof.
  revert prev m; induction l as [|v l IH]; intros prev m Hok; simpl.
  { left. split; [done|]. repeat constructor. }
  inversion Hok as [|? ? Hp Hok']; subst. inversion Hok' as [|? ? Hv Hl]; subst.
  destruct Hp as (? & ? & ?), Hv as (? & ? & ?). unfold iov_end in *. cint.
  destruct (Z.ltb_spec (miov_off v) (miov_off prev + miov_len prev)) as [Hlt|Hge].
  { right. split; [done|]. intros Hs. inversion Hs as [|? ? _ Ha]; subst.
    inversion Ha; subst. unfold iov_before, iov_end in *. lia. }
  destruct (IH v (if w && (m <? miov_off v + miov_len v) then miov_off v + miov_len v else m) Hok')
    as [[Hrc Hs]|[Hrc Hs]].
  - left. split; [done|]. constructor; [done|].
    inversion Hs as [|? ? Hs' Ha]; subst. constructor; [unfold iov_before, iov_end; lia|].
    eapply Forall_impl; [exact Ha|]. unfold iov_before, iov_end. lia.
  - right. split; [done|]. intros Hss. apply Hs. by inversion Hss.
Qed.

Lemma overlap_loop_max prev l m :
  Forall iov_ok (prev :: l) → fst (overlap_loop true prev l m) = 0 →
  snd (overlap_loop true prev l m) = foldr (λ v m, iov_end v `max` m) m l.
Proof.
  revert prev m; induction l as [|v l IH]; intros prev m Hok; simpl; [done|].
  inversion Hok as [|? ? Hp Hok']; subst. inversion Hok' as [|? ? Hv Hl]; subst.
  destruct (_ <? _) eqn:E; [done|]. intros Hrc. rewrite IH by done.
  assert (Hfold : ∀ l a b, foldr (λ v m, iov_end v `max` m) (a `max` b) l =
    a `max` foldr (λ v m, iov_end v `max` m) b l).
  { clear. induction l as [|w l IH]; intros a b; simpl; [done|]. rewrite IH. lia. }
  rewrite <- Hfold. f_equal. destruct Hv as (? & ? & ?). unfold iov_end in *.
  cint. destruct (Z.ltb_spec m (miov_off v + miov_len v)); lia.
Qed.

Lemma max_end_cons v l : Forall iov_ok (v :: l) →
  foldr (λ v m, iov_end v `max` m) (iov_end v) l = max_end (v :: l).
Proof.
  intros Hok. inversion Hok as [|? ? (? & ? & ?) Hl]; subst. simpl. unfold max_end, iov_end in *.
  clear Hok. induction l as [|w l IH]; simpl; [lia|]. inversion Hl; subst. rewrite IH by done. lia.
Qed.

(** What the sort establishes for the code that follows it. *)
Lemma motr_obj_iovec_sort_run args :
  rwa_orig_iovs args ≠ [] → Forall iov_ok (rwa_orig_iovs args) →
  ∃ rc args' sorted, motr_obj_iovec_sort args = Done (rc, args') ∧
    sorted ≡ₚ rwa_orig_iovs args ∧ StronglySorted iov_le sorted ∧
    args' = set_sorted sorted
      (if rwa_is_write args && (rc =? 0) then max_end sorted else rwa_max_eow args) args ∧
    (rc = 0 ∧ StronglySorted iov_before sorted ∨
     rc = - EINVAL ∧ ¬ StronglySorted iov_before sorted).
Proof.
  intros Hne Hok. unfold motr_obj_iovec_sort.
  destruct (sort_loop_sorted (rwa_orig_iovs args)) as [Hp Hs].
  destruct (sort_loop (rwa_orig_iovs args) 0 _) as [|v l] eqn:E.
  { by apply Permutation_nil_l in Hp. }
  rewrite <- Hp in Hok.
  pose proof (overlap_loop_spec (rwa_is_write args) v l (u64 (miov_off v + miov_len v)) Hok) as Hspec.
  pose proof (overlap_loop_max v l (u64 (miov_off v + miov_len v)) Hok) as Hmax.
  destruct (overlap_loop (rwa_is_write args) v l _) as [rc eow] eqn:Eo. simpl in Hspec.
  exists rc. eexists. exists (v :: l). split; [done|]. split; [done|]. split; [done|].
  split; [|destruct Hspec as [[-> ?]|[-> ?]]; auto].
  f_equal. destruct (rwa_is_write args); simpl; [|done].
  destruct (Z.eqb_spec rc 0) as [->|]; [|done].
  rewrite Eo in Hmax. simpl in Hmax. rewrite Hmax by done.
  etrans; [|by apply max_end_cons].
  f_equal. inversion Hok as [|? ? (? & ? & ?) ?]; subst. unfold iov_end in *. by cint.
Qed.

(** ** The sort, as the callers see it *)

(** (C4) [motr_obj_iovec_sort] on the vectors of a write: it sorts them by
    offset without losing or inventing one, accepts them exactly when no two
    share a byte, and then records the furthest end. *)
Theorem motr_obj_iovec_sort_correct args :
  rwa_is_write args = true → rwa_orig_iovs args ≠ [] →
  Forall iov_ok (rwa_orig_iovs args) → Forall (λ v, 0 < miov_len v) (rwa_orig_iovs args) →
  ∃ rc args', motr_obj_iovec_sort args = Done (rc, args') ∧
    rwa_sorted_iovs args' ≡ₚ rwa_orig_iovs args ∧
    StronglySorted iov_le (rwa_sorted_iovs args') ∧
    (rc = 0 ∨ rc = - EINVAL) ∧
    (rc = 0 ↔ StronglySorted iov_disjoint (rwa_orig_iovs args)) ∧
    (rc = 0 → StronglySorted iov_before (rwa_sorted_iovs args') ∧
              rwa_max_eow args' = max_end (rwa_orig_iovs args)).
Proof.
  intros Hw Hne Hok Hpos.
  destruct (motr_obj_iovec_sort_run args Hne Hok) as (rc & args' & l & Hrun & Hp & Hs & -> & Hrc).
  rewrite Hw in *. exists rc. eexists. split; [exact Hrun|]. simpl.
  split; [done|]. split; [done|]. split; [destruct Hrc as [[-> _]|[-> _]]; auto|]. split.
  - destruct Hrc as [[-> Hb]|[-> Hb]].
    + split; [intros _|done]. eapply StronglySorted_sym_perm; [|exact Hp|].
      { unfold iov_disjoint. tauto. }
      eapply StronglySorted_weaken; [|exact Hb]. by left.
    + split; [done|]. intros Hd. destruct Hb. apply sorted_disjoint_before; [by rewrite Hp|done|].
      eapply StronglySorted_sym_perm; [|symmetry; exact Hp|done]. unfold iov_disjoint. tauto.
  - intros ->. destruct Hrc as [[_ Hb]|[? _]]; [|done]. split; [done|]. by apply max_end_perm.
Qed.

Definition ex_pdclust : m0_pdclust_attr := MkPdclust 4 2 10.
Definition ex_obj : mio_obj :=
  MkObj (MkObjId []) 0 hint_map_zero false attrs_zero
    (Some (MkM0Obj (MkU128 1 2) 2 (MkFid 3 4))).
Definition ex_args (iovs : list mio_iovec) : rw_args :=
  MkRwArgs ex_obj true 0 iovs (replicate (length iovs) iov_zero) 0 (MkVec 9 []) 0 (MkVec 6 [])
    (MkVec 6 []) (MkVec 6 []) NULL NULL NULL NULL NULL NULL NULL.
Definition ex_iovs : list mio_iovec :=
  [MkIov (MkPtr 1 0) 9 3; MkIov (MkPtr 2 0) 0 5; MkIov (MkPtr 3 0) 5 2].

Lemma motr_obj_iovec_sort_correct_witness :
  ∃ rc args', motr_obj_iovec_sort (ex_args ex_iovs) = Done (rc, args') ∧
    rwa_sorted_iovs args' ≡ₚ ex_iovs ∧ rc = 0 ∧ rwa_max_eow args' = 12.
Proof.
  destruct (motr_obj_iovec_sort_correct (ex_args ex_iovs))
    as (rc & args' & Hrun & Hp & _ & _ & Hd & Hrc); [done|done| | |].
  - unfold iov_ok, iov_end. repeat constructor; simpl; lia.
  - repeat constructor; simpl; lia.
  - assert (rc = 0) as ->.
    { apply Hd. unfold iov_disjoint, iov_before, iov_end. repeat constructor; simpl; lia. }
    exists 0, args'. split; [exact Hrun|]. split; [exact Hp|]. split; [done|].
    destruct (Hrc eq_refl) as [_ ->]. reflexivity.
Defined.

(** ** Allocation and release of the arguments *)

(** The blocks behind a list of pointers. *)
Definition owned (ps : list ptr) : list Z := p_blk <$> filter (λ p, p ≠ NULL) ps.

(** Every pointer is NULL or the start of a block. *)
Definition block_ptrs (ps : list ptr) : Prop := Forall (λ p, p_off p = 0) ps.

Lemma free_pages_grow ps rest h h' bs :
  heap_grow h h' bs → block_ptrs ps → bs ≡ₚ owned ps ++ rest →
  ∃ h'', free_pages ps h' = Done h'' ∧ heap_grow h h'' rest ∧ h_plan h'' = h_plan h'.
Proof.
  revert bs h'. induction ps as [|p ps IH]; intros bs h' Hg Hps Hp; unfold owned in *; simpl in *.
  { exists h'. split; [done|]. by rewrite Hp in Hg. }
  inversion Hps as [|? ? Hoff Hps']; subst.
  rewrite filter_cons in Hp. case_decide as Hnull.
  - destruct p as [b o]. simpl in *. subst o. rewrite Hp in Hg.
    destruct (heap_grow_free _ _ _ _ Hg) as (h1 & -> & Hg1 & Hpl & _). simpl.
    destruct (IH _ _ Hg1 Hps') as (h2 & -> & Hg2 & Hpl'); [done|].
    exists h2. split; [done|]. split; [done|congruence].
  - assert (p = NULL) as -> by (destruct (decide (p = NULL)); naive_solver).
    simpl. by apply (IH bs).
Qed.

(** The pointers [motr_obj_rw_args_free] releases; rwa_extra_pages itself, the
    array, is not one of them. *)
Definition args_ptrs (args : rw_args) : list ptr :=
  [p_rbw args; p_dc_src args; p_dc_dst args; p_aligned args; p_sorted args] ++
  v_items (rwa_extra_pages args) ++ [p_args args].

Lemma free_pages_app ps qs h : free_pages (ps ++ qs) h = free_pages ps h ≫= free_pages qs.
Proof.
  revert h. induction ps as [|p ps IH]; intros h; simpl; [done|].
  destruct (mio_mem_free p h); simpl; auto.
Qed.

Lemma motr_obj_rw_args_free_pages args h :
  motr_obj_rw_args_free args h = free_pages (args_ptrs args) h.
Proof.
  unfold motr_obj_rw_args_free, args_ptrs. simpl.
  repeat (match goal with |- mio_mem_free ?p ?h ≫= _ = _ => destruct (mio_mem_free p h); simpl; [|done] end).
  rewrite free_pages_app. destruct (free_pages _ _); simpl; [|done].
  by destruct (mio_mem_free _ _).
Qed.

Lemma motr_obj_rw_args_free_grow args h h' bs rest :
  heap_grow h h' bs → block_ptrs (args_ptrs args) → bs ≡ₚ owned (args_ptrs args) ++ rest →
  ∃ h'', motr_obj_rw_args_free args h' = Done h'' ∧ heap_grow h h'' rest ∧ h_plan h'' = h_plan h'.
Proof. rewrite motr_obj_rw_args_free_pages. apply free_pages_grow. Qed.

(** [ceil(len / mx)]: how many operations of at most [mx] bytes [len] bytes need. *)
Definition nr_ops (len mx : Z) : Z := (len + mx - 1) / mx.

Fixpoint est_aligned (iovs : list mio_iovec) (mx : Z) : Z :=
  match iovs with [] => 0 | v :: l => nr_ops (miov_len v) mx + 2 + est_aligned l mx end.

Lemma nr_ops_bound len mx : 0 <= len → 0 < mx → 0 <= nr_ops len mx /\ nr_ops len mx * mx < len + mx.
Proof.
  intros. unfold nr_ops. pose proof (div_mod_eq (len + mx - 1) mx). pose proof (mod_bound (len + mx - 1) mx).
  split; [apply Z.div_pos; lia|nia].
Qed.

Lemma est_aligned_nonneg l mx : Forall iov_ok l → 0 < mx → 0 <= est_aligned l mx.
Proof.
  intros Hl Hmx. induction Hl as [|v l (? & ? & ?) _ IH]; simpl; [lia|].
  pose proof (nr_ops_bound (miov_len v) mx). lia.
Qed.

Lemma est_aligned_perm l k mx : l ≡ₚ k → est_aligned l mx = est_aligned k mx.
Proof. induction 1; simpl; lia. Qed.

Lemma estimate_loop_small iovs mx a d :
  0 < mx → Forall iov_ok iovs → Forall (λ v, miov_len v + mx < 2 ^ 64) iovs →
  0 <= a → a + est_aligned iovs mx < 2 ^ 31 → 0 <= d → d + 2 * Z.of_nat (length iovs) < 2 ^ 31 →
  estimate_loop iovs mx a d = Done (a + est_aligned iovs mx, d + 2 * Z.of_nat (length iovs)).
Proof.
  intros Hmx. revert a d. induction iovs as [|v l IH]; intros a d Hok Hov Ha Hae Hd Hde; simpl in *.
  { do 2 f_equal; lia. }
  inversion Hok as [|? ? (? & ? & ?) Hok']; subst. inversion Hov as [|? ? Hv Hov']; subst.
  destruct (Z.eqb_spec mx 0); [lia|].
  pose proof (nr_ops_bound (miov_len v) mx). pose proof (est_aligned_nonneg l mx Hok' Hmx).
  unfold nr_ops in *. cint.
  rewrite IH by (first [done|lia]). do 2 f_equal; lia.
Qed.

(** What the driver needs of an object and of the configuration: a page size and
    a limit per operation. *)
Record io_ready `{IoEnv} (obj : mio_obj) (ps mx : Z) : Prop := {
  ir_pagesize : motr_obj_io_pagesize obj = Done ps;
  ir_max_size : motr_obj_max_size_per_op obj = Done (inr mx);
  ir_ps_pos : 0 < ps < 2 ^ 31;
  ir_mx_pos : 0 < mx < 2 ^ 62
}.

(** The arguments as [motr_obj_rw_args_alloc] leaves them. *)
Definition args_fresh (obj : mio_obj) (iovs : list mio_iovec) (mx : Z) (args : rw_args) : Prop :=
  rwa_obj args = obj ∧ rwa_is_write args = false ∧ rwa_orig_iovs args = iovs ∧
  rwa_aligned_progress args = O ∧ rwa_rbw_progress args = O ∧
  rwa_aligned args = MkVec (Z.to_nat (est_aligned iovs mx)) [] ∧
  rwa_rbw args = MkVec (2 * length iovs) [] ∧ rwa_dc args = MkVec (2 * length iovs) [] ∧
  rwa_extra_pages args = MkVec (2 * length iovs) [].

(** The blocks of the arguments: those that are freed and rwa_extra_pages. *)
Definition args_blocks (args : rw_args) : list Z :=
  owned [p_rbw args; p_dc_src args; p_dc_dst args; p_aligned args; p_sorted args; p_args args].

Local Ltac alloc_step Hg :=
  lazymatch goal with
  | |- context [mio_mem_alloc ?n ?h] =>
      let p := fresh "p" in let h' := fresh "h" in let E := fresh "E" in
      destruct (mio_mem_alloc n h) as [p h'] eqn:E;
      let Hg' := fresh "Hg" in
      let Hpl := fresh "Hpl" in let Hpne := fresh "Hpne" in
      destruct (heap_grow_alloc _ _ _ _ _ _ Hg E) as
        [(-> & Hg' & _ & Hpne)|(? & -> & ? & _ & Hg' & _ & _ & Hpl)];
      clear Hg E; rename Hg' into Hg;
      [rewrite decide_True by done|rewrite decide_False by done]
  end.

Local Ltac filter_null :=
  repeat first [rewrite filter_cons_True by assumption | rewrite filter_cons_False by tauto
               | rewrite filter_nil].

Local Ltac alloc_none := eexists _, _; split; [done|left; split; [done|split; [assumption|tauto]]].

Local Ltac alloc_fail Hg :=
  lazymatch goal with
  | |- context [motr_obj_rw_args_free ?args _] =>
      destruct (motr_obj_rw_args_free_grow args _ _ _ [] Hg) as (? & -> & Hg2 & _);
      [unfold block_ptrs, args_ptrs; simpl; rewrite ?Forall_cons; simpl; repeat (split; [done|]); apply Forall_nil; exact I
      |unfold owned, args_ptrs; simpl;
       filter_null; simpl; solve_Permutation
      |alloc_none]
  end.

Lemma motr_obj_rw_args_alloc_spec `{IoEnv} obj ps mx iovs h :
  io_ready obj ps mx → heap_ok h → Forall iov_ok iovs → Forall (λ v, miov_len v + mx < 2 ^ 64) iovs →
  est_aligned iovs mx < 2 ^ 31 → 2 * Z.of_nat (length iovs) < 2 ^ 31 →
  ∃ r h', motr_obj_rw_args_alloc obj iovs h = Done (r, h') ∧
    ((r = None ∧ heap_grow h h' [] ∧ h_plan h ≠ []) ∨
     ∃ args, r = Some args ∧ (h_plan h = [] → h_plan h' = []) ∧ args_fresh obj iovs mx args ∧ p_extra args ≠ NULL ∧ p_args args ≠ NULL ∧
       block_ptrs (args_ptrs args) ∧
       heap_grow h h' (p_blk (p_extra args) :: args_blocks args)).
Proof.
  intros [_ Hmx _ Hpos] Hok Hiovs Hov Ha Hd.
  pose proof (heap_grow_refl h Hok) as Hg. unfold motr_obj_rw_args_alloc.
  alloc_step Hg; [alloc_none|]. alloc_step Hg; [alloc_fail Hg|].
  unfold motr_obj_rw_args_estimate_iovcnts. rewrite Hmx. simpl.
  pose proof (est_aligned_nonneg iovs mx Hiovs). 
  rewrite estimate_loop_small by (first [done|lia]). simpl.
  do 4 (alloc_step Hg; [alloc_fail Hg|]). alloc_step Hg; [alloc_fail Hg|].
  eexists _, _. split; [done|]. right. eexists. split; [done|]. simpl.
  split; [tauto|]. split_and!; [|done|done| |].
  - unfold args_fresh. simpl. split_and!; try done.
    all: f_equal; lia.
  - unfold block_ptrs, args_ptrs. simpl. rewrite ?Forall_cons. simpl. repeat (split; [done|]). by apply Forall_nil.
  - unfold args_blocks, owned. simpl.
    filter_null. simpl. eapply heap_grow_proper; [|exact Hg]. solve_Permutation.
Qed.
