(* ===== verification/IoAlign.v ===== *)
(** * IO vectors of the Motr driver, part 2: alignment
    (src/driver_motr_obj.c, lines 553-941)

    Motr reads and writes whole pages.  [motr_obj_iovec_adjust] turns the sorted
    vectors of the application into page-aligned ones: whole pages are cloned
    and point into the application's memory, the pages at the two ends are
    extra pages together with data copies. *)

From stdpp Require Import sorting.
From S2P Require Import Prelude ObjId HintMap Mem Types IoVec.

(** ** The arrays of the arguments *)

Definition with_vecs (al rbw : vec mio_iovec) (dc : vec (mio_iovec * mio_iovec))
    (ex : vec ptr) (args : rw_args) : rw_args :=
  MkRwArgs (rwa_obj args) (rwa_is_write args) (rwa_max_eow args) (rwa_orig_iovs args)
    (rwa_sorted_iovs args) (rwa_aligned_progress args) al (rwa_rbw_progress args) rbw dc ex
    (p_args args) (p_sorted args) (p_aligned args) (p_rbw args) (p_dc_src args)
    (p_dc_dst args) (p_extra args).

Definition push_aligned (v : mio_iovec) (args : rw_args) : outcome rw_args :=
  al ← vec_push v (rwa_aligned args);
  Done (with_vecs al (rwa_rbw args) (rwa_dc args) (rwa_extra_pages args) args).

Definition push_rbw (v : mio_iovec) (args : rw_args) : outcome rw_args :=
  rbw ← vec_push v (rwa_rbw args);
  Done (with_vecs (rwa_aligned args) rbw (rwa_dc args) (rwa_extra_pages args) args).

Definition push_dc (sd : mio_iovec * mio_iovec) (args : rw_args) : outcome rw_args :=
  dc ← vec_push sd (rwa_dc args);
  Done (with_vecs (rwa_aligned args) (rwa_rbw args) dc (rwa_extra_pages args) args).

Definition push_extra (p : ptr) (args : rw_args) : outcome rw_args :=
  ex ← vec_push p (rwa_extra_pages args);
  Done (with_vecs (rwa_aligned args) (rwa_rbw args) (rwa_dc args) ex args).

(** [motr_obj_iovec_set]. *)
Definition motr_obj_iovec_set (off len : Z) (base : ptr) : mio_iovec := MkIov base off len.

(** [args->rwa_sorted_iovs + iov_idx]. *)
Definition sorted_iov (args : rw_args) (iov_idx : nat) : outcome mio_iovec :=
  match rwa_sorted_iovs args !! iov_idx with Some v => Done v | None => Fault OutOfBounds end.

(** The page size as the unsigned operand it is in page arithmetic. *)
Definition page_u64 (pagesize : Z) : outcome Z :=
  if u64 pagesize =? 0 then Fault DivByZero else Done (u64 pagesize).

Section Align.
Context `{IoEnv}.

(** [motr_obj_iovec_get_page]: a page of zeroes for the range [off, off+length). *)
Definition motr_obj_iovec_get_page (obj : mio_obj) (off length : Z) (h : heap)
  : outcome (Z * mio_iovec * heap) :=
  pagesize ← motr_obj_io_pagesize obj;
  let '(base, h) := mio_mem_alloc (u64 pagesize) h in
  if decide (base = NULL) then Done (- ENOMEM, iov_zero, h)
  else Done (0, motr_obj_iovec_set off length base, h).

(** [motr_obj_iovec_partial_page]: the range [off, off+len) inside one page. *)
Definition motr_obj_iovec_partial_page (args : rw_args) (off len : Z) (base : ptr) (h : heap)
  : outcome (Z * rw_args * heap) :=
  if len =? 0 then Done (0, args, h) else
  pagesize ← motr_obj_io_pagesize (rwa_obj args);
  ps ← page_u64 pagesize;
  let aligned_off := off / ps * ps in
  let aligned_len := ps in
  let prev_iov := last (v_items (rwa_aligned args)) in
  let reuse := match prev_iov with
               | Some p => miov_off p =? aligned_off
               | None => false
               end in
  '(rc, aligned_iov, args, h) ←
    (if reuse then Done (0, default iov_zero prev_iov, args, h) else
     '(rc, iov, h) ← motr_obj_iovec_get_page (rwa_obj args) aligned_off aligned_len h;
     if rc <? 0 then Done (rc, iov, args, h) else
     args ← push_aligned iov args;
     args ← push_extra (miov_base iov) args;
     Done (0, iov, args, h));
  if rc <? 0 then Done (rc, args, h) else
  args ←
    (if rwa_is_write args then
       args ← (if (aligned_off <? moa_size (mo_attrs (rwa_obj args))) && negb reuse
               then push_rbw (motr_obj_iovec_set aligned_off aligned_len (miov_base aligned_iov)) args
               else Done args);
       push_dc (motr_obj_iovec_set 0 len base,
                motr_obj_iovec_set (off mod ps) len (miov_base aligned_iov)) args
     else
       push_dc (motr_obj_iovec_set (off mod ps) len (miov_base aligned_iov),
                motr_obj_iovec_set 0 len base) args);
  Done (rc, args, h).

(** The loop of [motr_obj_iovec_clone].  Every round takes an element of the
    aligned vectors, so one round more than there are elements is enough. *)
Fixpoint clone_loop (fuel : nat) (args : rw_args) (off1 end_off len_left : Z) (base1 : ptr)
    (max_size : Z) : outcome rw_args :=
  match fuel with
  | O => Fault NoTermination
  | S fuel' =>
      if off1 <? end_off then
        let len1 := if max_size <? len_left then max_size else len_left in
        args ← push_aligned (motr_obj_iovec_set off1 len1 base1) args;
        clone_loop fuel' args (u64 (off1 + len1)) end_off (u64 (len_left - len1))
          (ptr_add base1 len1) max_size
      else Done args
  end.

(** [motr_obj_iovec_clone]: whole pages, in pieces of at most the limit. *)
Definition motr_obj_iovec_clone (args : rw_args) (off len : Z) (base : ptr)
  : outcome (Z * rw_args) :=
  r ← motr_obj_max_size_per_op (rwa_obj args);
  match r with
  | inl rc => Done (rc, args)
  | inr max_size =>
      pagesize ← motr_obj_io_pagesize (rwa_obj args);
      ps ← page_u64 pagesize;
      if negb (off mod ps =? 0) || negb (len mod ps =? 0) then Done (- EINVAL, args) else
      args ← clone_loop (S (v_cap (rwa_aligned args))) args off (u64 (off + len)) len base max_size;
      Done (0, args)
  end.

(** [motr_obj_iovec_split_3]: a first page, whole pages, a last page. *)
Definition motr_obj_iovec_split_3 (args : rw_args) (iov_idx : nat) (h : heap)
  : outcome (Z * rw_args * heap) :=
  pagesize ← motr_obj_io_pagesize (rwa_obj args);
  ps ← page_u64 pagesize;
  v ← sorted_iov args iov_idx;
  let off := miov_off v in
  let len := miov_len v in
  let first_page := off / ps in
  let last_page := u64 (off + len - 1) / ps in
  if u64 (last_page - first_page) <? 2 then Done (- EINVAL, args, h) else
  let len1 := u64 (ps - off mod ps) in
  '(rc, args, h) ← motr_obj_iovec_partial_page args off len1 (miov_base v) h;
  if rc <? 0 then Done (rc, args, h) else
  let base2 := ptr_add (miov_base v) len1 in
  let off2 := u64 (off + len1) in
  let len2 := if negb (u64 (off + len) mod ps =? 0)
              then u64 ((last_page - first_page - 1) * ps)
              else u64 ((last_page - first_page) * ps) in
  '(_, args) ← motr_obj_iovec_clone args off2 len2 base2;
  let off3 := u64 (off2 + len2) in
  let len3 := u64 (len - len1 - len2) in
  let base3 := ptr_add base2 len2 in
  if negb (len3 =? 0) then motr_obj_iovec_partial_page args off3 len3 base3 h
  else Done (rc, args, h).

(** [motr_obj_iovec_split_2]: whole pages and a last page, or two pages. *)
Definition motr_obj_iovec_split_2 (args : rw_args) (iov_idx : nat) (h : heap)
  : outcome (Z * rw_args * heap) :=
  pagesize ← motr_obj_io_pagesize (rwa_obj args);
  ps ← page_u64 pagesize;
  v ← sorted_iov args iov_idx;
  let off := miov_off v in
  let len := miov_len v in
  '(rc, len1, args, h) ←
    (if off mod ps =? 0 then
       let len1 := u64 (len - u64 (off + len) mod ps) in
       '(_, args) ← motr_obj_iovec_clone args off len1 (miov_base v);
       Done (0, len1, args, h)
     else
       let len1 := u64 (ps - off mod ps) in
       '(rc, args, h) ← motr_obj_iovec_partial_page args off len1 (miov_base v) h;
       Done (rc, len1, args, h));
  if rc <? 0 then Done (rc, args, h) else
  let off2 := u64 (off + len1) in
  let len2 := u64 (len - len1) in
  let base2 := ptr_add (miov_base v) len1 in
  if len2 =? ps then
    '(_, args) ← motr_obj_iovec_clone args off2 len2 base2;
    Done (rc, args, h)
  else motr_obj_iovec_partial_page args off2 len2 base2 h.

(** [motr_obj_iovec_adjust_with_nonaligned_off]. *)
Definition motr_obj_iovec_adjust_with_nonaligned_off (args : rw_args) (iov_idx : nat) (h : heap)
  : outcome (Z * rw_args * heap) :=
  pagesize ← motr_obj_io_pagesize (rwa_obj args);
  ps ← page_u64 pagesize;
  v ← sorted_iov args iov_idx;
  let off := miov_off v in
  let len := miov_len v in
  let first_page := off / ps in
  let last_page := u64 (off + len - 1) / ps in
  if first_page =? last_page then motr_obj_iovec_partial_page args off len (miov_base v) h
  else if last_page =? u64 (first_page + 1) then motr_obj_iovec_split_2 args iov_idx h
  else motr_obj_iovec_split_3 args iov_idx h.

(** [motr_obj_iovec_adjust_with_aligned_off]. *)
Definition motr_obj_iovec_adjust_with_aligned_off (args : rw_args) (iov_idx : nat) (h : heap)
  : outcome (Z * rw_args * heap) :=
  pagesize ← motr_obj_io_pagesize (rwa_obj args);
  v ← sorted_iov args iov_idx;
  if u64 pagesize <? miov_len v then motr_obj_iovec_split_2 args iov_idx h
  else motr_obj_iovec_partial_page args (miov_off v) (miov_len v) (miov_base v) h.

(** One round of the loop of [motr_obj_iovec_adjust]. *)
Definition adjust_one (args : rw_args) (ps rc : Z) (i : nat) (h : heap)
  : outcome (Z * rw_args * heap) :=
  v ← sorted_iov args i;
  let off := miov_off v in
  let len := miov_len v in
  if (off mod ps =? 0) && (len mod ps =? 0) then
    '(_, args) ← motr_obj_iovec_clone args off len (miov_base v);
    Done (rc, args, h)
  else if (off mod ps =? 0) && negb (len mod ps =? 0) then
    motr_obj_iovec_adjust_with_aligned_off args i h
  else motr_obj_iovec_adjust_with_nonaligned_off args i h.

(** The rounds [i] .. [i+n-1]; [rc] is the variable of the C function. *)
Fixpoint adjust_loop (n i : nat) (args : rw_args) (ps rc : Z) (h : heap)
  : outcome (Z * rw_args * heap) :=
  match n with
  | O => Done (rc, args, h)
  | S n' =>
      '(rc, args, h) ← adjust_one args ps rc i h;
      if rc <? 0 then Done (rc, args, h) else adjust_loop n' (S i) args ps rc h
  end.

Definition motr_obj_iovec_adjust (args : rw_args) (h : heap) : outcome (Z * rw_args * heap) :=
  pagesize ← motr_obj_io_pagesize (rwa_obj args);
  match length (rwa_orig_iovs args) with
  | O => Done (0, args, h)
  | n => ps ← page_u64 pagesize; adjust_loop n 0 args ps 0 h
  end.
End Align.

(** ** The aligned vectors as a list of entries

    What the four arrays hold is determined by one list: the aligned vectors in
    order, each either a range of whole pages of the application's memory, or
    an extra page with the pieces of application memory that share it. *)
Inductive entry :=
| EDirect (v : mio_iovec)
| EPage (o b : Z) (pcs : list mio_iovec).

Definition entry_iov (ps : Z) (e : entry) : mio_iovec :=
  match e with EDirect v => v | EPage o b _ => MkIov (MkPtr b 0) o ps end.
Definition entry_pieces (e : entry) : list mio_iovec :=
  match e with EDirect v => [v] | EPage _ _ pcs => pcs end.
Definition entry_page (e : entry) : list Z :=
  match e with EDirect _ => [] | EPage _ b _ => [b] end.

(** The data copy of one piece: from the application to the page for a write,
    from the page to the application for a read. *)
Definition dc_pair (w : bool) (ps b : Z) (pc : mio_iovec) : mio_iovec * mio_iovec :=
  let page := MkIov (MkPtr b 0) (miov_off pc mod ps) (miov_len pc) in
  let app := MkIov (miov_base pc) 0 (miov_len pc) in
  if w then (app, page) else (page, app).
Definition entry_dc (w : bool) (ps : Z) (e : entry) : list (mio_iovec * mio_iovec) :=
  match e with EDirect _ => [] | EPage _ b pcs => dc_pair w ps b <$> pcs end.

(** The page is read before it is written if it starts below the object size. *)
Definition entry_rbw (w : bool) (ps size : Z) (e : entry) : list mio_iovec :=
  match e with
  | EDirect _ => []
  | EPage o b _ => if w && (o <? size) then [MkIov (MkPtr b 0) o ps] else []
  end.

Definition pieces (g : list entry) : list mio_iovec := g ≫= entry_pieces.
Definition pages (g : list entry) : list Z := g ≫= entry_page.

(** [p] is where the byte [x] of the object is, according to the vectors [l]. *)
Definition iov_loc (l : list mio_iovec) (x : Z) (p : ptr) : Prop :=
  ∃ v, v ∈ l ∧ miov_off v <= x < iov_end v ∧ p = ptr_add (miov_base v) (x - miov_off v).

Lemma iov_loc_app l k x p : iov_loc (l ++ k) x p ↔ iov_loc l x p ∨ iov_loc k x p.
Proof. unfold iov_loc. setoid_rewrite elem_of_app. naive_solver. Qed.

Lemma iov_loc_nil x p : ¬ iov_loc [] x p.
Proof. intros (v & Hv & _). by apply not_elem_of_nil in Hv. Qed.

Lemma iov_loc_one v x p :
  iov_loc [v] x p ↔ miov_off v <= x < iov_end v ∧ p = ptr_add (miov_base v) (x - miov_off v).
Proof. unfold iov_loc. setoid_rewrite list_elem_of_singleton. naive_solver. Qed.

(** A vector is the same as its two halves. *)
Lemma iov_loc_split base off len1 len2 x p : 0 <= len1 → 0 <= len2 →
  iov_loc [MkIov base off (len1 + len2)] x p ↔
  iov_loc [MkIov base off len1] x p ∨ iov_loc [MkIov (ptr_add base len1) (off + len1) len2] x p.
Proof.
  intros H1 H2. rewrite !iov_loc_one. unfold iov_end; simpl. rewrite ptr_add_add.
  replace (len1 + (x - (off + len1))) with (x - off) by lia.
  destruct (decide (x < off + len1)); naive_solver lia.
Qed.

Lemma pieces_app g k : pieces (g ++ k) = pieces g ++ pieces k.
Proof. apply bind_app. Qed.
Lemma pages_app g k : pages (g ++ k) = pages g ++ pages k.
Proof. apply bind_app. Qed.

(** ** Page arithmetic *)
Lemma page_floor ps m off : 0 < ps → m mod ps = 0 → m <= off → m <= off / ps * ps.
Proof.
  intros Hps Hm Hle. pose proof (div_mod_eq m ps Hps). pose proof (Z.div_le_mono m off ps Hps Hle).
  nia.
Qed.

Lemma page_next ps a b : 0 < ps → a mod ps = 0 → b mod ps = 0 → a < b → a + ps <= b.
Proof.
  intros Hps Ha Hb Hlt. pose proof (div_mod_eq a ps Hps). pose proof (div_mod_eq b ps Hps).
  rewrite Ha, Z.add_0_r in *. rewrite Hb, Z.add_0_r in *.
  assert (a / ps < b / ps) by (apply (Z.mul_lt_mono_pos_l ps); lia). nia.
Qed.

Lemma page_floor_mod ps off : 0 < ps → (off / ps * ps) mod ps = 0.
Proof. intros. apply Z.mod_mul. lia. Qed.

Lemma page_split ps off : 0 < ps → off = off / ps * ps + off mod ps.
Proof. intros Hps. pose proof (div_mod_eq off ps Hps). lia. Qed.

Lemma add_mod_0 ps a b : 0 < ps → a mod ps = 0 → b mod ps = 0 → (a + b) mod ps = 0.
Proof. intros Hps Ha Hb. by rewrite Z.add_mod, Ha, Hb by lia. Qed.

(** ** Well-formed entry lists *)
Definition entry_ok (ps mx : Z) (e : entry) : Prop :=
  match e with
  | EDirect v =>
      0 <= miov_off v ∧ miov_off v mod ps = 0 ∧ miov_len v mod ps = 0 ∧ 0 < miov_len v <= mx
  | EPage o b pcs =>
      0 <= o ∧ o mod ps = 0 ∧ pcs ≠ [] ∧ StronglySorted iov_before pcs ∧
      Forall (λ v, o <= miov_off v ∧ 0 < miov_len v ∧ iov_end v <= o + ps) pcs
  end.

Definition entry_before (ps : Z) (e e' : entry) : Prop :=
  iov_end (entry_iov ps e) <= miov_off (entry_iov ps e').

Record entries_ok (ps mx E : Z) (g : list entry) : Prop := {
  eo_each : Forall (entry_ok ps mx) g;
  eo_sorted : StronglySorted (entry_before ps) g;
  eo_end : Forall (λ v, iov_end v <= E) (pieces g)
}.

Section Entries.
Context (ps mx : Z) (Hps : 0 < ps).
Local Abbreviation ok := (entries_ok ps mx).

Lemma entries_ok_mono E E' g : E <= E' → ok E g → ok E' g.
Proof.
  intros HE [H1 H2 H3]. split; auto. eapply Forall_impl; [exact H3|]. simpl. lia.
Qed.

Lemma pieces_elem e v g : e ∈ g → v ∈ entry_pieces e → v ∈ pieces g.
Proof. intros He Hv. apply list_elem_of_bind. eauto. Qed.

(** Every entry starts at or before the page of a later offset, and a range of
    whole pages ends there. *)
Lemma entries_floor E g e off :
  ok E g → e ∈ g → E <= off →
  miov_off (entry_iov ps e) <= off / ps * ps ∧
  match e with EDirect v => iov_end v <= off / ps * ps | EPage _ _ _ => True end.
Proof.
  intros [Heach _ Hend] He HE. rewrite Forall_forall in Heach. rewrite Forall_forall in Hend. specialize (Heach e He).
  destruct e as [v|o b pcs]; simpl in *.
  - destruct Heach as (_ & Hoff & Hlen & Hpos).
    assert (iov_end v <= E) by (apply Hend; eapply pieces_elem; [exact He|left]).
    assert (Hf : iov_end v <= off / ps * ps).
    { apply page_floor; [done| |lia]. by apply add_mod_0. }
    split; [|done]. unfold iov_end in *. lia.
  - destruct Heach as (_ & Ho & Hne & _ & Hall). split; [|done]. apply page_floor; [done..|].
    destruct pcs as [|v pcs]; [done|]. rewrite Forall_forall in Hall.
    destruct (Hall v) as (? & ? & _); [left|].
    assert (iov_end v <= E) by (apply Hend; eapply pieces_elem; [exact He|left]).
    unfold iov_end in *. lia.
Qed.

(** A new entry at the end. *)
Lemma entries_ok_snoc E E' g e :
  ok E g → entry_ok ps mx e → E <= E' → Forall (λ v, iov_end v <= E') (entry_pieces e) →
  (∀ e', e' ∈ g → entry_before ps e' e) → ok E' (g ++ [e]).
Proof.
  intros [H1 H2 H3] He HE Hend Hb. split.
  - apply Forall_app. auto.
  - apply StronglySorted_app_2; [|done|repeat constructor].
    intros e1 e2 H ->%list_elem_of_singleton. auto.
  - rewrite pieces_app. apply Forall_app. split.
    + eapply Forall_impl; [exact H3|]. simpl. lia.
    + unfold pieces. simpl. by rewrite app_nil_r.
Qed.

(** An entry list whose last entry is not the page of [off] ends before it. *)
Lemma entries_before_page E g off :
  ok E g → E <= off →
  (∀ e, last g = Some e → miov_off (entry_iov ps e) ≠ off / ps * ps) →
  ∀ e, e ∈ g → iov_end (entry_iov ps e) <= off / ps * ps.
Proof.
  intros Hok HE Hlast e He. destruct g as [|l g0 _] using rev_ind.
  { by apply not_elem_of_nil in He. }
  rewrite last_snoc in Hlast. specialize (Hlast l eq_refl).
  assert (Hl : iov_end (entry_iov ps l) <= off / ps * ps).
  { destruct (entries_floor E _ l off Hok) as [Hle Hd]; [apply elem_of_app; right; left|done|].
    destruct l as [v|o b pcs]; [done|]. unfold iov_end. simpl in *.
    destruct Hok as [Heach _ _]. apply Forall_app in Heach as [_ Heach].
    rewrite Forall_singleton in Heach. simpl in Heach. destruct Heach as (_ & Ho & _).
    apply page_next; [done|done|by apply page_floor_mod|lia]. }
  apply elem_of_app in He as [He|He]; [|apply list_elem_of_singleton in He; by subst].
  destruct (entries_floor E _ l off Hok) as [Hle _]; [apply elem_of_app; right; left|done|].
  destruct Hok as [_ Hs _]. apply StronglySorted_app in Hs as (Hb & _ & _).
  specialize (Hb e l He). unfold entry_before in Hb. etrans; [apply Hb; left|done].
Qed.

Lemma entries_ok_new_page E g off len base b :
  ok E g → 0 <= E <= off → 0 < len → off mod ps + len <= ps →
  (∀ e, last g = Some e → miov_off (entry_iov ps e) ≠ off / ps * ps) →
  ok (off + len) (g ++ [EPage (off / ps * ps) b [MkIov base off len]]).
Proof.
  intros Hok HE Hlen Hfit Hlast. pose proof (page_split ps off Hps). pose proof (mod_bound off ps Hps).
  eapply entries_ok_snoc; [exact Hok| |lia| |].
  - simpl. split_and!; [apply Z.mul_nonneg_nonneg; [apply Z.div_pos|]; lia|by apply page_floor_mod|done|..].
    + repeat constructor.
    + repeat constructor; unfold iov_end; simpl; lia.
  - repeat constructor. unfold iov_end. simpl. lia.
  - intros e He. unfold entry_before. simpl. eapply entries_before_page; [exact Hok|lia|exact Hlast|exact He].
Qed.

Lemma entries_ok_more_page E g off len base b pcs :
  ok E (g ++ [EPage (off / ps * ps) b pcs]) → 0 <= E <= off → 0 < len → off mod ps + len <= ps →
  ok (off + len) (g ++ [EPage (off / ps * ps) b (pcs ++ [MkIov base off len])]).
Proof.
  intros [Heach Hs Hend] HE Hlen Hfit. pose proof (page_split ps off Hps).
  pose proof (mod_bound off ps Hps).
  apply Forall_app in Heach as [Hg Hl]. rewrite Forall_singleton in Hl. simpl in Hl.
  destruct Hl as (Hge & Ho & Hne & Hss & Hall).
  rewrite pieces_app in Hend. apply Forall_app in Hend as [Hgend Hlend].
  unfold pieces in Hlend. simpl in Hlend. rewrite app_nil_r in Hlend.
  split.
  - apply Forall_app. split; [done|]. repeat constructor; auto.
    + by destruct pcs.
    + apply StronglySorted_app_2; [|done|repeat constructor].
      intros v w Hv ->%list_elem_of_singleton. unfold iov_before. simpl.
      rewrite Forall_forall in Hlend. specialize (Hlend v Hv). simpl in Hlend. lia.
    + apply Forall_app. split; [done|]. repeat constructor; unfold iov_end; simpl; lia.
  - apply StronglySorted_app in Hs as (Hb & Hs & _).
    apply StronglySorted_app_2; [|done|repeat constructor].
    intros e e' He ->%list_elem_of_singleton. apply (Hb e (EPage (off / ps * ps) b pcs) He). left.
  - rewrite pieces_app. apply Forall_app. split.
    + eapply Forall_impl; [exact Hgend|]. simpl. lia.
    + unfold pieces. simpl. rewrite app_nil_r. apply Forall_app. split.
      * eapply Forall_impl; [exact Hlend|]. simpl. lia.
      * repeat constructor. unfold iov_end. simpl. lia.
Qed.

Lemma entries_ok_direct E g off len base :
  ok E g → 0 <= E <= off → off mod ps = 0 → len mod ps = 0 → 0 < len <= mx →
  ok (off + len) (g ++ [EDirect (MkIov base off len)]).
Proof.
  intros Hok HE Hoff Hlen Hpos. pose proof (page_split ps off Hps).
  eapply entries_ok_snoc; [exact Hok| |lia| |].
  - simpl. split_and!; try done; lia.
  - repeat constructor. unfold iov_end. simpl. lia.
  - intros e He. unfold entry_before. simpl.
    replace off with (off / ps * ps) at 1 by lia. eapply entries_before_page; [done|lia| |done].
    intros e' He' Heq. apply last_Some_elem_of in He' as He''.
    destruct (entries_floor E g e' off Hok He'') as [_ Hd]; [lia|].
    destruct Hok as [Heach _ Hend]. rewrite Forall_forall in Heach. rewrite Forall_forall in Hend.
    specialize (Heach e' He''). destruct e' as [v|o b pcs]; simpl in *.
    + unfold iov_end in Hd. lia.
    + destruct Heach as (_ & _ & Hne & _ & Hall). destruct pcs as [|v pcs]; [done|].
      rewrite Forall_forall in Hall. destruct (Hall v) as (? & ? & _); [left|].
      assert (iov_end v <= E) by (apply Hend; eapply pieces_elem; [exact He''|left]).
      unfold iov_end in *. lia.
Qed.
End Entries.

(** ** What the operations do to the entries

    [install g] is the argument structure whose arrays hold the entries [g];
    [inv E g h] says that [g] is well-formed, that its pieces end at or before
    [E], and that its extra pages are live pages of zeroes which, with the blocks
    [bs0] of the arguments, are all that was allocated since [h0].  If [plenty]
    holds, malloc() does not fail. *)
Section AlignSpec.
Context `{IoEnv} (args0 : rw_args) (ps mx : Z) (h0 : heap) (bs0 : list Z) (plenty : Prop).
Context (Hready : io_ready (rwa_obj args0) ps mx) (Hdiv : mx mod ps = 0).

Definition install (g : list entry) : rw_args :=
  with_vecs
    (MkVec (v_cap (rwa_aligned args0)) (entry_iov ps <$> g))
    (MkVec (v_cap (rwa_rbw args0))
       (g ≫= entry_rbw (rwa_is_write args0) ps (moa_size (mo_attrs (rwa_obj args0)))))
    (MkVec (v_cap (rwa_dc args0)) (g ≫= entry_dc (rwa_is_write args0) ps))
    (MkVec (v_cap (rwa_extra_pages args0)) ((λ b, MkPtr b 0) <$> pages g)) args0.

Record inv (E : Z) (g : list entry) (h : heap) : Prop := {
  inv_E : 0 <= E;
  inv_ok : entries_ok ps mx E g;
  inv_heap : heap_grow h0 h (pages g ++ bs0);
  inv_zero : Forall (λ b, h_blocks h !! b = Some (MkBlock ps (λ _, 0))) (pages g);
  inv_plan : plenty → h_plan h = []
}.

(** There is room for [a] more aligned vectors and [d] more data copies. *)
Definition room (g : list entry) (a d : nat) : Prop :=
  (length g + a <= v_cap (rwa_aligned args0) ∧
   length (g ≫= entry_dc (rwa_is_write args0) ps) + d <= v_cap (rwa_dc args0) ∧
   length (pages g) + d <= v_cap (rwa_rbw args0) ∧
   length (pages g) + d <= v_cap (rwa_extra_pages args0))%nat.

(** The pieces of [g'] are those of [g] and the vector [v]. *)
Definition adds (g g' : list entry) (v : mio_iovec) : Prop :=
  ∀ x p, iov_loc (pieces g') x p ↔ iov_loc (pieces g) x p ∨ iov_loc [v] x p.

Lemma ready_ps : 0 < ps < 2 ^ 31.
Proof. apply Hready. Qed.

Lemma page_u64_ready : page_u64 ps = Done ps.
Proof.
  pose proof ready_ps. unfold page_u64. cint. by rewrite (proj2 (Z.eqb_neq _ _)) by lia.
Qed.

Lemma inv_mono E E' g h : E <= E' → inv E g h → inv E' g h.
Proof.
  intros HE [H1 H2 H3 H4 H5]. split; [lia|by eapply entries_ok_mono|done..].
Qed.

Lemma room_le g a d a' d' : (a' <= a)%nat → (d' <= d)%nat → room g a d → room g a' d'.
Proof. unfold room. lia. Qed.

Lemma length_rbw_pages w size g :
  (length (g ≫= entry_rbw w ps size) <= length (pages g))%nat.
Proof.
  unfold pages in *. induction g as [|e g IH]; [done|].
  rewrite !bind_cons, !length_app. destruct e as [v|o b pcs]; simpl entry_page; simpl entry_rbw.
  - done.
  - destruct (w && _); simpl length; lia.
Qed.

Lemma vec_push_room {A} cap (items : list A) x :
  (length items < cap)%nat → vec_push x (MkVec cap items) = Done (MkVec cap (items ++ [x])).
Proof. intros Hlt. unfold vec_push, vec_len. simpl. by rewrite decide_True. Qed.

(** The page is the last aligned one: only the copy is added. *)
Lemma partial_page_more g h o b pcs off len base :
  len ≠ 0 → o = off / ps * ps → room (g ++ [EPage o b pcs]) 0 1 →
  motr_obj_iovec_partial_page (install (g ++ [EPage o b pcs])) off len base h =
  Done (0, install (g ++ [EPage o b (pcs ++ [MkIov base off len])]), h).
Proof.
  intros Hlen -> (_ & Hd & _). unfold motr_obj_iovec_partial_page.
  rewrite (proj2 (Z.eqb_neq _ _)) by done. simpl rwa_obj. rewrite (ir_pagesize _ _ _ Hready). simpl.
  rewrite page_u64_ready. simpl. rewrite fmap_app. simpl. rewrite last_snoc. simpl.
  rewrite Z.eqb_refl. simpl. rewrite andb_false_r. unfold install.
  rewrite !bind_app, length_app in Hd. simpl in Hd. rewrite app_nil_r, length_fmap in Hd.
  destruct (rwa_is_write args0) eqn:Ew; rewrite ?Ew in Hd; unfold push_dc; simpl;
    (rewrite vec_push_room by (rewrite bind_app, length_app; simpl;
       rewrite app_nil_r, length_fmap; lia)); simpl;
    unfold with_vecs; simpl; rewrite Ew, ?pages_app, !bind_app, ?fmap_app; simpl;
    rewrite ?app_nil_r, ?fmap_app, ?app_assoc; done.
Qed.

Lemma last_entry_iov g :
  last (entry_iov ps <$> g) = entry_iov ps <$> last g.
Proof. apply fmap_last. Qed.

(** The page is not the last aligned one: a new page is allocated. *)
Lemma partial_page_new g h off len base p h' :
  len ≠ 0 → (∀ e, last g = Some e → miov_off (entry_iov ps e) ≠ off / ps * ps) → room g 1 1 →
  mio_mem_alloc ps h = (p, h') →
  (p = NULL →
   motr_obj_iovec_partial_page (install g) off len base h = Done (- ENOMEM, install g, h')) ∧
  (∀ b, p = MkPtr b 0 → p ≠ NULL →
   motr_obj_iovec_partial_page (install g) off len base h =
   Done (0, install (g ++ [EPage (off / ps * ps) b [MkIov base off len]]), h')).
Proof.
  intros Hlen Hlast (Ha & Hd & Hr & Hx) Halloc. pose proof ready_ps as Hps.
  unfold motr_obj_iovec_partial_page. rewrite (proj2 (Z.eqb_neq _ _)) by done.
  simpl rwa_obj. rewrite (ir_pagesize _ _ _ Hready). simpl. rewrite page_u64_ready. simpl.
  rewrite last_entry_iov.
  set (reuse := match entry_iov ps <$> last g with Some _ => _ | None => _ end).
  assert (reuse = false) as ->.
  { unfold reuse. destruct (last g) as [e|]; simpl; [|done]. apply Z.eqb_neq. by apply Hlast. }
  unfold motr_obj_iovec_get_page. simpl. rewrite (ir_pagesize _ _ _ Hready). simpl.
  rewrite (u64_small ps) by lia. rewrite Halloc. simpl.
  split.
  - intros ->. by rewrite decide_True by done.
  - intros b -> Hnn. rewrite decide_False by done. simpl.
    unfold push_aligned. simpl. rewrite vec_push_room by (rewrite length_fmap; lia). simpl.
    unfold push_extra. simpl. rewrite vec_push_room by (rewrite length_fmap; lia). simpl.
    rewrite andb_true_r.
    destruct (rwa_is_write args0) eqn:Ew.
    + pose proof (length_rbw_pages true (moa_size (mo_attrs (rwa_obj args0))) g).
      destruct (off / ps * ps <? _) eqn:Esz.
      * unfold push_rbw. simpl. rewrite vec_push_room by lia. simpl.
        unfold push_dc. simpl. rewrite vec_push_room by lia. simpl.
        unfold install, with_vecs. simpl. rewrite Ew, pages_app, !bind_app, !fmap_app. simpl.
        by rewrite Esz.
      * simpl. unfold push_dc. simpl. rewrite vec_push_room by lia. simpl.
        unfold install, with_vecs. simpl. rewrite Ew, pages_app, !bind_app, !fmap_app. simpl.
        by rewrite Esz, !app_nil_r.
    + unfold push_dc. simpl. rewrite vec_push_room by lia. simpl.
      unfold install, with_vecs. simpl. rewrite Ew, pages_app, !bind_app, !fmap_app. simpl.
      by rewrite !app_nil_r.
Qed.

(** The result of adding the vector [v]: it is there, or memory ran out; room for
    [a] aligned vectors and [d] copies is left. *)
Definition step_ok (g : list entry) (v : mio_iovec) (a d : nat)
    (r : outcome (Z * rw_args * heap)) : Prop :=
  ∃ rc g' h', r = Done (rc, install g', h') ∧ room g' a d ∧ inv (iov_end v) g' h' ∧
    (rc = 0 ∧ adds g g' v ∨ rc = - ENOMEM ∧ ¬ plenty).

Lemma inv_new_page E g h off len base b h' :
  inv E g h → E <= off → 0 < len → off mod ps + len <= ps →
  (∀ e, last g = Some e → miov_off (entry_iov ps e) ≠ off / ps * ps) →
  heap_grow h0 h' (b :: pages g ++ bs0) →
  h_blocks h' = <[b := MkBlock ps (λ _, 0)]> (h_blocks h) → (b ∉ pages g ++ bs0) →
  (h_plan h = [] → h_plan h' = []) →
  inv (off + len) (g ++ [EPage (off / ps * ps) b [MkIov base off len]]) h'.
Proof.
  intros [HE Hok Hheap Hz Hpl] HEo Hlen Hfit Hlast Hgrow Hbl Hni Hpl'. pose proof ready_ps. split.
  - lia.
  - eapply entries_ok_new_page; [lia|exact Hok|lia|done|done|done].
  - rewrite pages_app. unfold pages at 2. simpl. eapply heap_grow_proper; [|exact Hgrow].
    solve_Permutation.
  - rewrite pages_app. apply Forall_app. split.
    + rewrite Forall_forall in Hz |- *. intros b' Hb'. rewrite Hbl, lookup_insert_ne; [auto|].
      intros ->. apply Hni. apply elem_of_app. by left.
    + unfold pages. simpl. repeat constructor. by rewrite Hbl, lookup_insert_eq.
  - auto.
Qed.

Lemma inv_more_page E g h off len base b pcs :
  inv E (g ++ [EPage (off / ps * ps) b pcs]) h → E <= off → 0 < len → off mod ps + len <= ps →
  inv (off + len) (g ++ [EPage (off / ps * ps) b (pcs ++ [MkIov base off len])]) h.
Proof.
  intros [HE Hok Hheap Hz Hpl] HEo Hlen Hfit. pose proof ready_ps.
  rewrite pages_app in Hheap, Hz. split; [lia| |by rewrite pages_app..|done].
  eapply entries_ok_more_page; [lia|exact Hok|lia|done|done].
Qed.

Lemma partial_page_spec E g h off len base a d :
  inv E g h → room g (S a) (S d) → E <= off → 0 < len → off mod ps + len <= ps →
  step_ok g (MkIov base off len) a d (motr_obj_iovec_partial_page (install g) off len base h).
Proof.
  intros Hinv Hroom HE Hlen Hfit. pose proof ready_ps.
  assert (Hcase : (∃ g0 b pcs, g = g0 ++ [EPage (off / ps * ps) b pcs]) ∨
    (∀ e, last g = Some e → miov_off (entry_iov ps e) ≠ off / ps * ps)).
  { destruct g as [|e g0 _] using rev_ind; [by right|].
    destruct (decide (miov_off (entry_iov ps e) = off / ps * ps)) as [Heq|Hne].
    2:{ right. intros e'. rewrite last_snoc. by intros [= <-]. }
    left. destruct e as [v|o b pcs]; [exfalso|by simpl in Heq; subst; eauto].
    assert (He : EDirect v ∈ g0 ++ [EDirect v]) by (apply elem_of_app; right; left).
    destruct (entries_floor ps mx (proj1 ready_ps) E _ _ off (inv_ok _ _ _ Hinv) He) as [_ Hd]; [done|].
    destruct Hinv as [_ [Heach _ _] _ _ _]. rewrite Forall_forall in Heach.
    specialize (Heach _ He). simpl in *. unfold iov_end in Hd. lia. }
  destruct Hcase as [(g0 & b & pcs & ->)|Hlast].
  - exists 0, (g0 ++ [EPage (off / ps * ps) b (pcs ++ [MkIov base off len])]), h.
    split; [apply partial_page_more; [lia|done|by eapply room_le; [..|exact Hroom]; lia]|].
    split; [|split; [by eapply inv_more_page|left; split; [done|]]].
    + unfold room in *. rewrite !length_app, !bind_app, !length_app, !pages_app, !length_app in *.
      simpl in *. rewrite !app_nil_r, !length_fmap, ?length_app in *. simpl. lia.
    + intros x p. rewrite !pieces_app. unfold pieces at 2 4. simpl.
      rewrite !app_nil_r, !iov_loc_app. tauto.
  - destruct (mio_mem_alloc ps h) as [p h'] eqn:Halloc.
    destruct (partial_page_new g h off len base p h') as [Hnull Hsome];
      [lia|done|by eapply room_le; [..|exact Hroom]; lia|done|].
    destruct (heap_grow_alloc _ _ _ _ _ _ (inv_heap _ _ _ Hinv) Halloc) as
      [(-> & Hg & Hbl & Hpne)|(b & -> & Hnn & Hni & Hg & Hbl & _ & Hpl)].
    + rewrite Hnull by done. exists (- ENOMEM), g, h'. split; [done|].
      split; [by eapply room_le; [..|exact Hroom]; lia|].
      assert (Hnp : ¬ plenty) by (intros Hp; by destruct Hpne; apply Hinv). split; [|by right].
      apply (inv_mono E); [unfold iov_end; simpl; lia|]. destruct Hinv as [? ? ? Hz ?].
      split; [done..|by rewrite Hbl|done].
    + rewrite (Hsome b) by done. exists 0. eexists _, h'. split; [done|].
      split; [|split; [by eapply inv_new_page|left; split; [done|]]].
      * unfold room in *. rewrite !length_app, !bind_app, !length_app, !pages_app, !length_app in *.
        simpl. lia.
      * intros x p. rewrite !pieces_app. unfold pieces at 2. simpl. rewrite !iov_loc_app. done.
Qed.

Lemma adds_refl g base off : adds g g (MkIov base off 0).
Proof. intros x p. rewrite (iov_loc_one (MkIov _ _ _)). unfold iov_end. simpl. split; [by left|]. intros [?|[? _]]; [done|lia]. Qed.

(** Adding the two halves of a vector one after the other adds the vector. *)
Lemma adds_split g g1 g2 base off len1 len2 :
  0 <= len1 → 0 <= len2 → adds g g1 (MkIov base off len1) →
  adds g1 g2 (MkIov (ptr_add base len1) (off + len1) len2) →
  adds g g2 (MkIov base off (len1 + len2)).
Proof.
  intros Hl1 Hl2 H1 H2 x p. specialize (H1 x p). specialize (H2 x p).
  pose proof (iov_loc_split base off len1 len2 x p Hl1 Hl2). tauto.
Qed.

Lemma push_aligned_direct g v d :
  room g 1 d → push_aligned v (install g) = Done (install (g ++ [EDirect v])).
Proof.
  intros (Ha & _). unfold push_aligned. simpl. rewrite vec_push_room by (rewrite length_fmap; lia).
  simpl. unfold install, with_vecs. simpl. rewrite fmap_app, !bind_app, pages_app. simpl.
  change (pages [EDirect v]) with (@nil Z). by rewrite !app_nil_r.
Qed.

Lemma room_direct g v a d : room g (S a) d → room (g ++ [EDirect v]) a d.
Proof.
  unfold room. rewrite length_app, bind_app, length_app, pages_app, length_app. simpl. lia.
Qed.

Lemma inv_direct E g h off len base :
  inv E g h → E <= off → off mod ps = 0 → len mod ps = 0 → 0 < len <= mx →
  inv (off + len) (g ++ [EDirect (MkIov base off len)]) h.
Proof.
  intros [HE Hok Hheap Hz Hpl] HEo Hoff Hlen Hpos. pose proof ready_ps.
  split; [lia| |rewrite pages_app; unfold pages at 2; simpl; by rewrite app_nil_r..|done].
  eapply entries_ok_direct; [lia|exact Hok|lia|done..].
Qed.

Lemma adds_direct g v : adds g (g ++ [EDirect v]) v.
Proof. intros x p. rewrite pieces_app, iov_loc_app. done. Qed.

Lemma nr_ops_step len : 0 < len → nr_ops len mx = 1 + nr_ops (len - (len `min` mx)) mx.
Proof.
  intros Hlen. destruct (ir_mx_pos _ _ _ Hready). unfold nr_ops.
  destruct (Z.min_spec len mx) as [[Hlt ->]|[Hge ->]].
  - rewrite Z.sub_diag, (Z.div_small (0 + mx - 1)) by lia.
    symmetry. apply (Z.div_unique _ _ _ (len - 1)); lia.
  - replace (len + mx - 1) with ((len - mx + mx - 1) + 1 * mx) by lia.
    rewrite Z.div_add by lia. lia.
Qed.

Lemma clone_loop_spec fuel E g h off len base a d :
  inv E g h → E <= off → off mod ps = 0 → len mod ps = 0 → 0 <= len → off + len < 2 ^ 64 →
  (Z.to_nat (nr_ops len mx) < fuel)%nat → room g (Z.to_nat (nr_ops len mx) + a) d →
  ∃ g', clone_loop fuel (install g) off (off + len) len base mx = Done (install g') ∧
    room g' a d ∧ inv (off + len) g' h ∧ adds g g' (MkIov base off len).
Proof.
  revert E g off len base. induction fuel as [|fuel IH]; intros E g off len base Hinv HE Hoff Hlen Hl Hov Hfuel Hroom;
    [lia|simpl].
  destruct (ir_mx_pos _ _ _ Hready) as [Hmx Hmx'].
  destruct (Z.ltb_spec off (off + len)) as [Hlt|Hge].
  2:{ assert (len = 0) as -> by lia. exists g. rewrite Z.add_0_r. split_and!; [done| | |apply adds_refl].
      - eapply room_le; [..|exact Hroom]; lia.
      - eapply inv_mono; [exact HE|exact Hinv]. }
  assert (Hmin : (if mx <? len then mx else len) = len `min` mx).
  { destruct (Z.ltb_spec mx len); lia. }
  rewrite Hmin. clear Hmin. rewrite (nr_ops_step len) in Hroom, Hfuel by lia.
  set (len1 := len `min` mx) in *.
  assert (Hlen1 : len1 mod ps = 0) by (unfold len1; destruct (Z.min_spec len mx) as [[_ ->]|[_ ->]]; done).
  assert (Hlen2 : (len - len1) mod ps = 0).
  { pose proof ready_ps. by rewrite Zminus_mod, Hlen, Hlen1. }
  destruct (nr_ops_bound (len - len1) mx); [lia..|].
  assert (0 <= E) by apply Hinv.
  rewrite (push_aligned_direct g _ d) by (eapply room_le; [..|exact Hroom]; lia). simpl. cint.
  destruct (IH (off + len1) (g ++ [EDirect (MkIov base off len1)]) (off + len1) (len - len1) (ptr_add base len1))
    as (g' & Hrun & Hroom' & Hinv' & Hadds); try done; try lia.
  - apply (inv_direct E); [done|done|done|done|lia].
  - pose proof ready_ps. apply add_mod_0; [lia|done..].
  - apply room_direct. eapply room_le; [..|exact Hroom]; lia.
  - replace (off + len1 + (len - len1)) with (off + len) in * by lia.
    exists g'. split_and!; [done|done|done|].
    replace len with (len1 + (len - len1)) by lia.
    eapply adds_split; [lia|lia|apply adds_direct|done].
Qed.

Lemma clone_spec E g h off len base a d :
  inv E g h → E <= off → off mod ps = 0 → len mod ps = 0 → 0 <= len → off + len < 2 ^ 64 →
  room g (Z.to_nat (nr_ops len mx) + a) d →
  ∃ g', motr_obj_iovec_clone (install g) off len base = Done (0, install g') ∧
    room g' a d ∧ inv (off + len) g' h ∧ adds g g' (MkIov base off len).
Proof.
  intros Hinv HE Hoff Hlen Hl Hov Hroom. unfold motr_obj_iovec_clone. simpl rwa_obj.
  rewrite (ir_max_size _ _ _ Hready), (ir_pagesize _ _ _ Hready). simpl.
  rewrite page_u64_ready. simpl. rewrite Hoff, Hlen. simpl.
  assert (0 <= E) by apply Hinv. cint.
  destruct (clone_loop_spec (S (v_cap (rwa_aligned args0))) E g h off len base a d) as (g' & Hrun & H');
    try done.
  { destruct Hroom as (Hroom & _). lia. }
  exists g'. simpl in Hrun. by rewrite Hrun.
Qed.

Lemma nr_ops_mono len len' : len <= len' → nr_ops len mx <= nr_ops len' mx.
Proof. destruct (ir_mx_pos _ _ _ Hready). intros. unfold nr_ops. apply Z.div_le_mono; lia. Qed.

(** Composition of two steps as the split functions do it. *)
Lemma step_ok_bind g base off len1 len2 a1 d1 a d r
    (k : Z → rw_args → heap → outcome (Z * rw_args * heap)) :
  0 <= len1 → 0 <= len2 → (a <= a1)%nat → (d <= d1)%nat →
  step_ok g (MkIov base off len1) a1 d1 r →
  (∀ g1 h1, inv (off + len1) g1 h1 → room g1 a1 d1 →
     step_ok g1 (MkIov (ptr_add base len1) (off + len1) len2) a d (k 0 (install g1) h1)) →
  step_ok g (MkIov base off (len1 + len2)) a d
    ('(rc, args, h) ← r; if rc <? 0 then Done (rc, args, h) else k rc args h).
Proof.
  intros Hl1 Hl2 Ha Hd (rc & g1 & h1 & -> & Hroom & Hinv & Hrc) Hk. simpl.
  destruct Hrc as [[-> Hadds]|[-> Hnp]]; simpl.
  - destruct (Hk g1 h1 Hinv Hroom) as (rc & g2 & h2 & -> & Hroom2 & Hinv2 & Hrc2).
    exists rc, g2, h2. split; [done|]. split; [done|]. unfold iov_end in *. simpl in *.
    replace (off + len1 + len2) with (off + (len1 + len2)) in Hinv2 by lia. split; [done|].
    destruct Hrc2 as [[-> Hadds2]|[-> Hnp]]; [left|by right]. split; [done|].
    by eapply adds_split.
  - eexists _, g1, h1. split; [done|]. split; [by eapply room_le; [..|exact Hroom]|].
    split; [|by right]. eapply inv_mono; [|exact Hinv]. unfold iov_end. simpl. lia.
Qed.

(** A clone is a step that cannot fail. *)
Lemma clone_step E g h off len base a d rc :
  inv E g h → E <= off → off mod ps = 0 → len mod ps = 0 → 0 <= len → off + len < 2 ^ 64 →
  room g (Z.to_nat (nr_ops len mx) + a) d → rc = 0 →
  step_ok g (MkIov base off len) a d
    ('(_, args) ← motr_obj_iovec_clone (install g) off len base; Done (rc, args, h)).
Proof.
  intros Hinv HE Hoff Hlen Hl Hov Hroom ->.
  destruct (clone_spec E g h off len base a d) as (g' & -> & Hroom' & Hinv' & Hadds); try done.
  simpl. exists 0, g', h. split_and!; [done..|]. by left.
Qed.

(** Whole pages followed by the beginning of a page. *)
Lemma clone_partial_step E g h off len2 len3 base a d :
  inv E g h → E <= off → off mod ps = 0 → len2 mod ps = 0 → 0 <= len2 → 0 <= len3 < ps →
  off + len2 + len3 < 2 ^ 64 → room g (Z.to_nat (nr_ops len2 mx) + S a) (S d) →
  step_ok g (MkIov base off (len2 + len3)) a d
    ('(_, args) ← motr_obj_iovec_clone (install g) off len2 base;
     if negb (len3 =? 0) then motr_obj_iovec_partial_page args (off + len2) len3 (ptr_add base len2) h
     else Done (0, args, h)).
Proof.
  intros Hinv HE Hoff Hlen2 Hl2 Hl3 Hov Hroom. pose proof ready_ps.
  destruct (clone_spec E g h off len2 base (S a) (S d)) as (g1 & -> & Hroom1 & Hinv1 & Hadds1);
    try done; [lia|]. simpl.
  destruct (Z.eqb_spec len3 0) as [->|Hne]; simpl.
  - exists 0, g1, h. split; [done|]. split; [by eapply room_le; [..|exact Hroom1]; lia|].
    rewrite Z.add_0_r. split; [done|by left].
  - destruct (partial_page_spec (off + len2) g1 h (off + len2) len3 (ptr_add base len2) a d)
      as (rc & g2 & h2 & -> & Hroom2 & Hinv2 & Hrc); [done|done|lia|lia| |].
    { rewrite (add_mod_0 ps off len2) by (try done; lia). lia. }
    exists rc, g2, h2. split; [done|]. split; [done|]. unfold iov_end in *. simpl in *.
    replace (off + len2 + len3) with (off + (len2 + len3)) in Hinv2 by lia. split; [done|].
    destruct Hrc as [[-> Hadds2]|[-> Hnp]]; [left|by right]. split; [done|].
    eapply adds_split; [lia|lia|done|done].
Qed.

Section OneVector.
Context (i : nat) (v : mio_iovec) (Hv : rwa_sorted_iovs args0 !! i = Some v) (Hok : iov_ok v).

Lemma sorted_iov_v g : sorted_iov (install g) i = Done v.
Proof. unfold sorted_iov. simpl. by rewrite Hv. Qed.

(** The pages of the two ends of a vector that does not start on a page. *)
Lemma first_last_page :
  0 < miov_len v →
  let q := miov_off v / ps in
  let m := miov_off v mod ps in
  let q' := (iov_end v - 1) / ps in
  let r := (iov_end v - 1) mod ps in
  miov_off v = q * ps + m ∧ 0 <= m < ps ∧ iov_end v - 1 = q' * ps + r ∧ 0 <= r < ps ∧
  0 <= q <= q' ∧ q' <= iov_end v - 1.
Proof.
  intros Hlen q m q' r. destruct Hok as (? & ? & ?). pose proof ready_ps. unfold iov_end in *.
  pose proof (page_split ps (miov_off v)). pose proof (page_split ps (miov_off v + miov_len v - 1)).
  pose proof (mod_bound (miov_off v) ps). pose proof (mod_bound (miov_off v + miov_len v - 1) ps).
  assert (q <= q') by (apply Z.div_le_mono; lia).
  assert (0 <= q) by (apply Z.div_pos; lia).
  assert (q' <= q' * ps) by nia.
  split_and!; try lia; unfold q, q', m, r; lia.
Qed.

Lemma split_3_spec E g h a d :
  inv E g h → E <= miov_off v → 0 < miov_len v →
  miov_off v / ps + 2 <= (iov_end v - 1) / ps → miov_off v mod ps ≠ 0 →
  room g (Z.to_nat (nr_ops (miov_len v) mx) + 2 + a) (2 + d) →
  step_ok g v a d (motr_obj_iovec_split_3 (install g) i h).
Proof.
  intros Hinv HE Hpos Hpages Hm Hroom. pose proof ready_ps as Hps.
  destruct (first_last_page Hpos) as (Hoff & Hmr & Hend & Hr & Hq & Hq').
  destruct Hok as (Hoff0 & Hlen0 & Hov).
  unfold motr_obj_iovec_split_3. simpl rwa_obj. rewrite (ir_pagesize _ _ _ Hready). simpl.
  rewrite page_u64_ready, sorted_iov_v. simpl. fold (iov_end v).
  set (q := miov_off v / ps) in *. set (m := miov_off v mod ps) in *.
  set (q' := (iov_end v - 1) / ps) in *. set (r := (iov_end v - 1) mod ps) in *.
  assert (Hlen : miov_len v = iov_end v - miov_off v) by (unfold iov_end; lia).
  rewrite (u64_small (iov_end v - 1)), (u64_small (iov_end v)) by lia. fold q'.
  assert (Hmul : (q + 2) * ps <= q' * ps) by (apply Z.mul_le_mono_nonneg_r; lia).
  rewrite (u64_small (q' - q)) by lia. rewrite (proj2 (Z.ltb_ge _ _)) by lia.
  rewrite (u64_small (ps - m)), (u64_small (miov_off v + (ps - m))) by lia.
  destruct v as [base off len]. simpl in *. unfold iov_end in *. simpl in *.
  replace len with ((ps - m) + (len - (ps - m))) at 1 by lia.
  apply (step_ok_bind g base off (ps - m) (len - (ps - m))
    (Z.to_nat (nr_ops len mx) + 1 + a) (1 + d) a d
    (motr_obj_iovec_partial_page (install g) off (ps - m) base h)
    (λ rc args h, _)); [lia..| |].
  { apply (partial_page_spec E); [done| |lia|lia|lia].
    eapply room_le; [..|exact Hroom]; lia. }
  intros g1 h1 Hinv1 Hroom1.
  assert (Hmid : ∃ len2 len3, (if negb ((off + len) mod ps =? 0) then u64 ((q' - q - 1) * ps)
      else u64 ((q' - q) * ps)) = len2 ∧ len2 mod ps = 0 ∧ 0 <= len2 ∧ 0 <= len3 < ps ∧
    len - (ps - m) = len2 + len3).
  { destruct (decide (r + 1 = ps)) as [Heq|Hne].
    - replace (off + len) with ((q' + 1) * ps) by lia. rewrite Z.mod_mul by lia. simpl.
      exists ((q' - q) * ps), 0. rewrite u64_small by lia. rewrite Z.mod_mul; lia.
    - replace (off + len) with ((r + 1) + q' * ps) by lia.
      rewrite Z.mod_add, Z.mod_small by lia. rewrite (proj2 (Z.eqb_neq _ _)) by lia. simpl.
      exists ((q' - q - 1) * ps), (r + 1). rewrite u64_small by lia. rewrite Z.mod_mul; lia. }
  destruct Hmid as (len2 & len3 & -> & Hl2 & Hl2' & Hl3 & Hsum).
  rewrite (u64_small (off + (ps - m) + len2)), Hsum by lia.
  replace (len2 + len3 - len2) with len3 by lia. rewrite (u64_small len3) by lia.
  apply (clone_partial_step (off + (ps - m))); [done|lia| |done|done|done|lia|].
  - replace (off + (ps - m)) with ((q + 1) * ps) by lia. apply Z.mod_mul. lia.
  - pose proof (nr_ops_mono len2 len ltac:(lia)). eapply room_le; [..|exact Hroom1]; lia.
Qed.

Lemma split_2_aligned_spec E g h a d :
  inv E g h → E <= miov_off v → miov_off v mod ps = 0 → miov_len v mod ps ≠ 0 →
  room g (Z.to_nat (nr_ops (miov_len v) mx) + 2 + a) (2 + d) →
  step_ok g v a d (motr_obj_iovec_split_2 (install g) i h).
Proof.
  intros Hinv HE Hoff Hlen Hroom. pose proof ready_ps as Hps. destruct Hok as (Hoff0 & Hlen0 & Hov).
  unfold motr_obj_iovec_split_2. simpl rwa_obj. rewrite (ir_pagesize _ _ _ Hready). simpl.
  rewrite page_u64_ready, sorted_iov_v. simpl. rewrite Hoff, Z.eqb_refl.
  destruct v as [base off len]. unfold iov_end in *. simpl in *.
  rewrite (u64_small (off + len)) by lia.
  assert (Hmod : (off + len) mod ps = len mod ps).
  { rewrite Z.add_mod, Hoff, Z.add_0_l, Zmod_mod by lia. done. }
  rewrite Hmod. pose proof (page_split ps len ltac:(lia)) as Hsplit.
  pose proof (mod_bound len ps ltac:(lia)). set (r := len mod ps) in *.
  assert (0 <= len / ps * ps) by (pose proof (Z.div_pos len ps); nia).
  rewrite (u64_small (len - r)) by lia. replace (len - r) with (len / ps * ps) by lia.
  pose proof (clone_partial_step E g h off (len / ps * ps) r base a d) as Hstep.
  rewrite Hsplit at 1. 
  destruct Hstep as (rc & g' & h' & Hrun & Hrest); try done; try lia.
  { apply page_floor_mod; lia. }
  { pose proof (nr_ops_mono (len / ps * ps) len ltac:(lia)). eapply room_le; [..|exact Hroom]; lia. }
  exists rc, g', h'. split; [|done]. rewrite <- Hrun.
  destruct (motr_obj_iovec_clone _ _ _ _) as [[rc' args']|f]; simpl; [|done].
  cint. replace (len - len / ps * ps) with r by lia. cint.
  rewrite !(proj2 (Z.eqb_neq r _)) by lia. done.
Qed.
Lemma ps_le_mx : ps <= mx.
Proof.
  destruct (ir_mx_pos _ _ _ Hready). pose proof ready_ps.
  pose proof (div_mod_eq mx ps). assert (1 <= mx / ps); nia.
Qed.

Lemma split_2_nonaligned_spec E g h a d :
  inv E g h → E <= miov_off v → 0 < miov_len v →
  (iov_end v - 1) / ps = miov_off v / ps + 1 → miov_off v mod ps ≠ 0 →
  room g (Z.to_nat (nr_ops (miov_len v) mx) + 2 + a) (2 + d) →
  step_ok g v a d (motr_obj_iovec_split_2 (install g) i h).
Proof.
  intros Hinv HE Hpos Hpages Hm Hroom. pose proof ready_ps as Hps.
  destruct (first_last_page Hpos) as (Hoff & Hmr & Hend & Hr & _).
  destruct Hok as (Hoff0 & Hlen0 & Hov).
  unfold motr_obj_iovec_split_2. simpl rwa_obj. rewrite (ir_pagesize _ _ _ Hready). simpl.
  rewrite page_u64_ready, sorted_iov_v. simpl.
  rewrite Hpages in Hend. set (q := miov_off v / ps) in *. set (m := miov_off v mod ps) in *.
  set (r := (iov_end v - 1) mod ps) in *. rewrite (proj2 (Z.eqb_neq _ _)) by done.
  destruct v as [base off len]. unfold iov_end in *. simpl in *.
  rewrite (u64_small (ps - m)) by lia.
  pose (k := λ (rc : Z) (args : rw_args) (h : heap),
    if u64 (len - (ps - m)) =? ps
    then '(_, args) ← motr_obj_iovec_clone args (u64 (off + (ps - m))) (u64 (len - (ps - m)))
           (ptr_add base (ps - m)); Done (rc, args, h)
    else motr_obj_iovec_partial_page args (u64 (off + (ps - m))) (u64 (len - (ps - m)))
           (ptr_add base (ps - m)) h).
  assert (Hs : step_ok g (MkIov base off ((ps - m) + (len - (ps - m)))) a d
    ('(rc, args, h) ← motr_obj_iovec_partial_page (install g) off (ps - m) base h;
     if rc <? 0 then Done (rc, args, h) else k rc args h)).
  2:{ replace ((ps - m) + (len - (ps - m))) with len in Hs by lia.
      by destruct (motr_obj_iovec_partial_page _ _ _ _ _) as [[[? ?] ?]|]. }
  eapply (step_ok_bind g base off (ps - m) (len - (ps - m))
    (Z.to_nat (nr_ops len mx) + 1 + a) (1 + d) a d); [lia..| |].
  { apply (partial_page_spec E); [done| |lia|lia|lia]. eapply room_le; [..|exact Hroom]; lia. }
  intros g1 h1 Hinv1 Hroom1. unfold k.
  assert (Hoff2 : (off + (ps - m)) mod ps = 0).
  { replace (off + (ps - m)) with ((q + 1) * ps) by lia. apply Z.mod_mul. lia. }
  rewrite (u64_small (len - (ps - m))), (u64_small (off + (ps - m))) by lia.
  destruct (Z.eqb_spec (len - (ps - m)) ps) as [Heq|Hne].
  - pose proof ps_le_mx. pose proof (nr_ops_mono (len - (ps - m)) len ltac:(lia)).
    apply (clone_step (off + (ps - m))); [done|lia|done| |lia|lia| |done].
    + rewrite Heq. apply Z.mod_same. lia.
    + eapply room_le; [..|exact Hroom1]; lia.
  - apply (partial_page_spec (off + (ps - m))); [done| |lia|lia|lia].
    eapply room_le; [..|exact Hroom1]; lia.
Qed.

(** One round of [motr_obj_iovec_adjust]. *)
Lemma adjust_one_spec E g h a d :
  inv E g h → E <= miov_off v →
  room g (Z.to_nat (nr_ops (miov_len v) mx) + 2 + a) (2 + d) →
  step_ok g v a d (adjust_one (install g) ps 0 i h).
Proof.
  intros Hinv HE Hroom. pose proof ready_ps as Hps.
  pose proof Hok as (Hoff0 & Hlen0 & Hov).
  unfold adjust_one. rewrite sorted_iov_v. simpl.
  destruct (Z.eqb_spec (miov_off v mod ps) 0) as [Hoff|Hoff]; simpl.
  - destruct (Z.eqb_spec (miov_len v mod ps) 0) as [Hlen|Hlen]; simpl.
    + destruct v as [base off len]. simpl in *. apply (clone_step E); try done.
      eapply room_le; [..|exact Hroom]; lia.
    + unfold motr_obj_iovec_adjust_with_aligned_off. simpl rwa_obj.
      rewrite (ir_pagesize _ _ _ Hready), sorted_iov_v. simpl. rewrite (u64_small ps) by lia.
      destruct (Z.ltb_spec ps (miov_len v)) as [Hlt|Hge].
      { by apply (split_2_aligned_spec E). }
      assert (miov_len v ≠ 0) by (intros Heq; rewrite Heq in Hlen; by rewrite Zmod_0_l in Hlen).
      destruct v as [base off len]. simpl in *.
      apply (partial_page_spec E); [done| |done|lia|lia]. eapply room_le; [..|exact Hroom]; lia.
  - unfold motr_obj_iovec_adjust_with_nonaligned_off. simpl rwa_obj.
    rewrite (ir_pagesize _ _ _ Hready), sorted_iov_v. simpl. rewrite page_u64_ready. simpl.
    fold (iov_end v).
    destruct (decide (miov_len v = 0)) as [Hz|Hpos].
    { assert (iov_end v = miov_off v) as -> by (unfold iov_end; lia).
      pose proof (page_split ps (miov_off v) ltac:(lia)). pose proof (mod_bound (miov_off v) ps ltac:(lia)).
      assert (0 <= miov_off v / ps) by (apply Z.div_pos; lia).
      rewrite (u64_small (miov_off v - 1)) by (unfold iov_end in *; nia).
      assert ((miov_off v - 1) / ps = miov_off v / ps) as ->.
      { symmetry. apply (Z.div_unique _ _ _ (miov_off v mod ps - 1)); lia. }
      rewrite Z.eqb_refl. unfold motr_obj_iovec_partial_page. rewrite Hz. simpl.
      exists 0, g, h. split; [done|]. split; [eapply room_le; [..|exact Hroom]; lia|].
      destruct v as [base off len]. simpl in *. subst len. split; [|left; split; [done|apply adds_refl]].
      eapply inv_mono; [|done]. unfold iov_end. simpl. lia. }
    destruct (first_last_page ltac:(lia)) as (Ho & Hm & He & Hr & Hq & Hq').
    rewrite (u64_small (iov_end v - 1)) by (unfold iov_end in *; lia).
    rewrite (u64_small (miov_off v / ps + 1)) by (unfold iov_end in *; lia).
    destruct (Z.eqb_spec (miov_off v / ps) ((iov_end v - 1) / ps)) as [Heq|Hne].
    { destruct v as [base off len]. unfold iov_end in *. simpl in *.
      apply (partial_page_spec E); [done| |done|lia|rewrite Heq in Ho; lia].
      eapply room_le; [..|exact Hroom]; lia. }
    destruct (Z.eqb_spec ((iov_end v - 1) / ps) (miov_off v / ps + 1)) as [Heq|Hne'].
    { apply (split_2_nonaligned_spec E); try done. lia. }
    apply (split_3_spec E); try done; lia.
Qed.
End OneVector.

(** The whole loop adds all vectors, in order, or stops when memory runs out. *)
Lemma adjust_loop_spec n i l E g h a d :
  drop i (rwa_sorted_iovs args0) = l → length l = n →
  Forall iov_ok l → StronglySorted iov_before l → Forall (λ v, E <= miov_off v) l →
  inv E g h → room g (Z.to_nat (est_aligned l mx) + a) (2 * n + d) →
  ∃ rc g' h' E', adjust_loop n i (install g) ps 0 h = Done (rc, install g', h') ∧
    inv E' g' h' ∧ room g' 0 0 ∧
    (rc = 0 ∧ (∀ x p, iov_loc (pieces g') x p ↔ iov_loc (pieces g) x p ∨ iov_loc l x p) ∨
     rc = - ENOMEM ∧ ¬ plenty).
Proof.
  revert i l E g h. induction n as [|n IH]; intros i l E g h Hl Hn Hok Hs HE Hinv Hroom.
  { exists 0, g, h, E. apply length_zero_iff_nil in Hn as ->. split; [done|]. split; [done|].
    split; [eapply room_le; [..|exact Hroom]; lia|]. left. split; [done|]. intros x p. pose proof (iov_loc_nil x p). tauto. }
  destruct l as [|v l]; [done|]. simpl in Hn, Hroom.
  inversion Hok as [|? ? Hv Hok']; subst. inversion Hs as [|? ? Hs' Hb]; subst.
  inversion HE as [|? ? HEv _]; subst.
  assert (Hiv : rwa_sorted_iovs args0 !! i = Some v).
  { pose proof (lookup_drop (rwa_sorted_iovs args0) i 0) as Hd. rewrite Hl, Nat.add_0_r in Hd. done. }
  assert (Hl' : drop (S i) (rwa_sorted_iovs args0) = l).
  { rewrite (drop_S _ _ _ Hiv) in Hl. by injection Hl. }
  destruct (ir_mx_pos _ _ _ Hready) as [Hmx _].
  pose proof (est_aligned_nonneg l mx Hok' Hmx). pose proof Hv as (? & ? & ?).
  destruct (nr_ops_bound (miov_len v) mx) as [Hnr _]; [lia..|].
  destruct (adjust_one_spec i v Hiv Hv E g h (Z.to_nat (est_aligned l mx) + a) (2 * n + d))
    as (rc & g1 & h1 & Hrun & Hroom1 & Hinv1 & Hrc); [done|done| |].
  { eapply room_le; [..|exact Hroom]; lia. }
  simpl. rewrite Hrun. simpl. destruct Hrc as [[-> Hadds]|[-> Hnp]]; simpl.
  - destruct (IH (S i) l (iov_end v) g1 h1) as (rc & g2 & h2 & E2 & -> & Hinv2 & Hroom2 & Hrc2); try done; [lia|].
    exists rc, g2, h2, E2. split; [done|]. split; [done|]. split; [done|].
    destruct Hrc2 as [[-> Hloc]|[-> Hnp]]; [left|by right]. split; [done|]. intros x p.
    rewrite Hloc. specialize (Hadds x p). rewrite Hadds.
    change (v :: l) with ([v] ++ l). rewrite iov_loc_app. tauto.
  - exists (- ENOMEM), g1, h1, (iov_end v). split; [done|]. split; [done|].
    split; [eapply room_le; [..|exact Hroom1]; lia|]. by right.
Qed.

Lemma room_nil (a d : nat) :
  (a <= v_cap (rwa_aligned args0))%nat → (d <= v_cap (rwa_dc args0))%nat →
  (d <= v_cap (rwa_rbw args0))%nat → (d <= v_cap (rwa_extra_pages args0))%nat → room [] a d.
Proof. unfold room. simpl. lia. Qed.

Lemma inv_nil h : heap_grow h0 h bs0 → (plenty → h_plan h = []) → inv 0 [] h.
Proof. intros Hg Hpl. split; [done| |done|constructor|done]. split; constructor. Qed.

(** [motr_obj_iovec_adjust] in terms of entries. *)
Lemma motr_obj_iovec_adjust_run h :
  length (rwa_orig_iovs args0) = length (rwa_sorted_iovs args0) →
  Forall iov_ok (rwa_sorted_iovs args0) → StronglySorted iov_before (rwa_sorted_iovs args0) →
  room [] (Z.to_nat (est_aligned (rwa_sorted_iovs args0) mx)) (2 * length (rwa_sorted_iovs args0)) →
  heap_grow h0 h bs0 → (plenty → h_plan h = []) →
  ∃ rc g h' E, motr_obj_iovec_adjust (install []) h = Done (rc, install g, h') ∧ inv E g h' ∧
    room g 0 0 ∧
    (rc = 0 ∧ (∀ x p, iov_loc (pieces g) x p ↔ iov_loc (rwa_sorted_iovs args0) x p) ∨
     rc = - ENOMEM ∧ ¬ plenty).
Proof.
  intros Hlen Hok Hs Hroom Hgrow Hpl. unfold motr_obj_iovec_adjust. simpl rwa_obj. simpl rwa_orig_iovs.
  rewrite (ir_pagesize _ _ _ Hready). simpl. rewrite page_u64_ready, Hlen. simpl.
  destruct (adjust_loop_spec (length (rwa_sorted_iovs args0)) 0 (rwa_sorted_iovs args0) 0 [] h 0 0)
    as (rc & g & h' & E & Hrun & Hinv & Hroom' & Hrc); try done.
  { eapply Forall_impl; [exact Hok|]. by intros v (? & _). }
  { by apply inv_nil. }
  { eapply room_le; [..|exact Hroom]; lia. }
  exists rc, g, h', E.
  split; [by destruct (length (rwa_sorted_iovs args0)); simpl in *|]. split; [done|].
  split; [done|].
  destruct Hrc as [[-> Hloc]|[-> Hnp]]; [left|by right]. split; [done|]. intros x p. rewrite Hloc.
  pose proof (iov_loc_nil x p). unfold pieces. simpl. tauto.
Qed.
End AlignSpec.

(** ** The aligned vectors against the application's vectors *)

(** Where the arrays of the arguments put the byte [x] of the object: directly
    in the application's memory, or in an extra page that a data copy connects
    with the application's memory. *)
Definition io_direct (args : rw_args) (x : Z) (p : ptr) : Prop :=
  ∃ v, v ∈ v_items (rwa_aligned args) ∧ (miov_base v ∉ v_items (rwa_extra_pages args)) ∧
    miov_off v <= x < iov_end v ∧ p = ptr_add (miov_base v) (x - miov_off v).

Definition dc_app (args : rw_args) (sd : mio_iovec * mio_iovec) : mio_iovec :=
  if rwa_is_write args then fst sd else snd sd.
Definition dc_page (args : rw_args) (sd : mio_iovec * mio_iovec) : mio_iovec :=
  if rwa_is_write args then snd sd else fst sd.

Definition io_copied (args : rw_args) (x : Z) (p : ptr) : Prop :=
  ∃ v sd, v ∈ v_items (rwa_aligned args) ∧ sd ∈ v_items (rwa_dc args) ∧
    miov_base (dc_page args sd) = miov_base v ∧ miov_len (dc_page args sd) = miov_len (dc_app args sd) ∧
    miov_off v + miov_off (dc_page args sd) <= x < miov_off v + iov_end (dc_page args sd) ∧
    p = ptr_add (miov_base (dc_app args sd))
          (miov_off (dc_app args sd) + (x - (miov_off v + miov_off (dc_page args sd)))).

Definition io_loc (args : rw_args) (x : Z) (p : ptr) : Prop :=
  io_direct args x p ∨ io_copied args x p.

(** A vector of whole pages that one operation can carry. *)
Definition page_aligned (ps mx : Z) (v : mio_iovec) : Prop :=
  miov_off v mod ps = 0 ∧ miov_len v mod ps = 0 ∧ 0 < miov_len v <= mx.

Lemma pages_elem o b pcs g : EPage o b pcs ∈ g → b ∈ pages g.
Proof. intros He. apply list_elem_of_bind. exists (EPage o b pcs). split; [left|done]. Qed.

Lemma pages_inj g o o' b pcs pcs' :
  NoDup (pages g) → EPage o b pcs ∈ g → EPage o' b pcs' ∈ g → o = o' ∧ pcs = pcs'.
Proof.
  induction g as [|e g IH]; [by intros _ H%not_elem_of_nil|].
  unfold pages in *. rewrite bind_cons. intros Hnd. rewrite !elem_of_cons.
  apply NoDup_app in Hnd as (_ & Hdis & Hnd).
  intros [He|He] [He'|He'].
  - rewrite <- He in He'. by injection He' as -> ->.
  - subst e. exfalso. apply (Hdis b); [left|]. by eapply pages_elem.
  - subst e. exfalso. apply (Hdis b); [left|]. by eapply pages_elem.
  - by apply IH.
Qed.

Section Location.
Context (args0 : rw_args) (ps mx : Z) (h0 : heap) (bs0 : list Z) (plenty : Prop) (Hps : 0 < ps <= mx).
Context (E : Z) (g : list entry) (h : heap) (Hinv : inv ps mx h0 bs0 plenty E g h).
Context (Happ : ∀ x p, iov_loc (pieces g) x p → p_blk p < h_next h0).

Lemma entry_ok_elem e : e ∈ g → entry_ok ps mx e.
Proof.
  intros He. pose proof (eo_each _ _ _ _ (inv_ok _ _ _ _ _ _ _ _ Hinv)) as Hall.
  rewrite Forall_forall in Hall. auto.
Qed.

Lemma piece_app e pc : e ∈ g → pc ∈ entry_pieces e → 0 < miov_len pc → p_blk (miov_base pc) < h_next h0.
Proof.
  intros He Hpc Hpos. apply (Happ (miov_off pc) (miov_base pc)). exists pc.
  split; [by eapply pieces_elem|]. unfold iov_end. rewrite Z.sub_diag, ptr_add_0. split; [lia|done].
Qed.

Lemma page_new o b pcs : EPage o b pcs ∈ g → h_next h0 <= b.
Proof.
  intros He. destruct (inv_heap _ _ _ _ _ _ _ _ Hinv) as (_ & _ & _ & _ & Hbs & _).
  destruct (Hbs b); [|lia]. apply elem_of_app. left. by eapply pages_elem.
Qed.

Lemma pages_nodup : NoDup (pages g).
Proof.
  destruct (inv_heap _ _ _ _ _ _ _ _ Hinv) as (_ & _ & _ & Hnd & _).
  by apply NoDup_app in Hnd as (? & _).
Qed.

Lemma direct_base v : EDirect v ∈ g → 0 < miov_len v ∧ p_blk (miov_base v) < h_next h0.
Proof.
  intros He. destruct (entry_ok_elem _ He) as (_ & _ & _ & ? & _). split; [done|].
  eapply piece_app; [exact He|left|done].
Qed.

(** A piece of a page, seen from the page. *)
Lemma page_piece o b pcs pc : EPage o b pcs ∈ g → pc ∈ pcs →
  o + miov_off pc mod ps = miov_off pc ∧ 0 < miov_len pc ∧ o <= miov_off pc ∧ iov_end pc <= o + ps.
Proof.
  intros He Hpc. destruct (entry_ok_elem _ He) as (_ & Ho & _ & _ & Hall).
  rewrite Forall_forall in Hall. destruct (Hall pc Hpc) as (? & ? & ?). split_and!; try done.
  unfold iov_end in *. pose proof (div_mod_eq o ps). rewrite Ho in *.
  replace (miov_off pc) with ((miov_off pc - o) + o / ps * ps) at 1 by lia.
  rewrite Z.mod_add, Z.mod_small; lia.
Qed.

Lemma aligned_elem v : v ∈ v_items (rwa_aligned (install args0 ps g)) ↔ ∃ e, v = entry_iov ps e ∧ e ∈ g.
Proof. simpl. by rewrite list_elem_of_fmap. Qed.

Lemma dc_elem sd : sd ∈ v_items (rwa_dc (install args0 ps g)) ↔
  ∃ o b pcs pc, EPage o b pcs ∈ g ∧ pc ∈ pcs ∧ sd = dc_pair (rwa_is_write args0) ps b pc.
Proof.
  simpl. rewrite list_elem_of_bind. split.
  - intros ([v|o b pcs] & Hsd & He); simpl in Hsd; [by apply not_elem_of_nil in Hsd|].
    apply list_elem_of_fmap in Hsd as (pc & -> & Hpc). eauto 10.
  - intros (o & b & pcs & pc & He & Hpc & ->). exists (EPage o b pcs). split; [|done].
    apply list_elem_of_fmap. eauto.
Qed.

Lemma dc_app_pair b pc :
  dc_app (install args0 ps g) (dc_pair (rwa_is_write args0) ps b pc) = MkIov (miov_base pc) 0 (miov_len pc).
Proof. unfold dc_app, dc_pair. simpl. by destruct (rwa_is_write args0). Qed.

Lemma dc_page_pair b pc :
  dc_page (install args0 ps g) (dc_pair (rwa_is_write args0) ps b pc) =
  MkIov (MkPtr b 0) (miov_off pc mod ps) (miov_len pc).
Proof. unfold dc_page, dc_pair. simpl. by destruct (rwa_is_write args0). Qed.

Lemma extra_elem p : p ∈ v_items (rwa_extra_pages (install args0 ps g)) ↔
  ∃ o b pcs, EPage o b pcs ∈ g ∧ p = MkPtr b 0.
Proof.
  simpl. rewrite list_elem_of_fmap. unfold pages. setoid_rewrite list_elem_of_bind. split.
  - intros (b & -> & [v|o b' pcs] & Hb & He); simpl in Hb; [by apply not_elem_of_nil in Hb|].
    apply list_elem_of_singleton in Hb as ->. eauto.
  - intros (o & b & pcs & He & ->). exists b. split; [done|]. exists (EPage o b pcs). split; [left|done].
Qed.

(** The arrays put every byte where the pieces have it. *)
Lemma io_loc_install x p : io_loc (install args0 ps g) x p ↔ iov_loc (pieces g) x p.
Proof.
  split.
  - intros [(v & Hv & Hne & Hx & ->)|(v & sd & Hv & Hsd & Hb & _ & Hx & ->)].
    + apply aligned_elem in Hv as (e & -> & He). exists (entry_iov ps e).
      destruct e as [v|o b pcs]; [|destruct Hne; apply extra_elem; simpl; eauto].
      split; [|done]. eapply pieces_elem; [exact He|left].
    + apply aligned_elem in Hv as (e & -> & He).
      apply dc_elem in Hsd as (o & b & pcs & pc & He' & Hpc & ->).
      rewrite dc_app_pair, dc_page_pair in *. unfold iov_end in *. simpl in *.
      assert (e = EPage o b pcs) as ->.
      { destruct e as [v|o' b' pcs']; simpl in Hb.
        - destruct (direct_base v He) as [_ Hlt]. rewrite <- Hb in Hlt. simpl in Hlt.
          apply page_new in He'. lia.
        - injection Hb as ->. by destruct (pages_inj g o o' b' pcs pcs' pages_nodup He' He) as [-> ->]. }
      simpl in *. destruct (page_piece o b pcs pc He Hpc) as (Hoff & _).
      rewrite Z.add_assoc, Hoff in *. exists pc. split; [by eapply pieces_elem|]. done.
  - intros (pc & Hpc & Hx & ->). apply list_elem_of_bind in Hpc as (e & Hpc & He).
    destruct e as [v|o b pcs]; simpl in Hpc.
    + apply list_elem_of_singleton in Hpc as ->. left. exists v. split; [apply aligned_elem; by exists (EDirect v)|].
      split; [|done]. intros (o & b & pcs & He' & Heq)%extra_elem.
      destruct (direct_base v He) as [_ Hlt]. rewrite Heq in Hlt. apply page_new in He'. simpl in Hlt. lia.
    + right. exists (entry_iov ps (EPage o b pcs)), (dc_pair (rwa_is_write args0) ps b pc).
      split; [apply aligned_elem; eauto|]. split; [apply dc_elem; eauto 10|].
      rewrite dc_app_pair, dc_page_pair. unfold iov_end in *. simpl.
      destruct (page_piece o b pcs pc He Hpc) as (Hoff & _).
      rewrite Z.add_assoc, Hoff. done.
Qed.
End Location.

(** What [motr_obj_iovec_adjust] relies on: the arrays as
    [motr_obj_rw_args_alloc] sizes them, sorted disjoint vectors, and vectors
    that point into existing memory. *)
Record adjust_pre `{IoEnv} (ps mx : Z) (args : rw_args) (h : heap) : Prop := {
  ap_ready : io_ready (rwa_obj args) ps mx;
  ap_div : mx mod ps = 0;
  ap_heap : heap_ok h;
  ap_aligned : rwa_aligned args = MkVec (Z.to_nat (est_aligned (rwa_sorted_iovs args) mx)) [];
  ap_rbw : rwa_rbw args = MkVec (2 * length (rwa_sorted_iovs args)) [];
  ap_dc : rwa_dc args = MkVec (2 * length (rwa_sorted_iovs args)) [];
  ap_extra : rwa_extra_pages args = MkVec (2 * length (rwa_sorted_iovs args)) [];
  ap_len : length (rwa_orig_iovs args) = length (rwa_sorted_iovs args);
  ap_ok : Forall iov_ok (rwa_sorted_iovs args);
  ap_sorted : StronglySorted iov_before (rwa_sorted_iovs args);
  ap_app : ∀ x p, iov_loc (rwa_sorted_iovs args) x p → p_blk p < h_next h
}.

Lemma install_nil args ps :
  v_items (rwa_aligned args) = [] → v_items (rwa_rbw args) = [] → v_items (rwa_dc args) = [] →
  v_items (rwa_extra_pages args) = [] → install args ps [] = args.
Proof.
  destruct args as [? ? ? ? ? ? [] ? [] [] [] ? ? ? ? ? ? ?]. simpl. intros -> -> -> ->. done.
Qed.

Lemma adjust_pre_ps `{IoEnv} ps mx args h : adjust_pre ps mx args h → 0 < ps <= mx.
Proof.
  intros Hpre. pose proof (ir_ps_pos _ _ _ (ap_ready _ _ _ _ Hpre)).
  split; [lia|]. exact (ps_le_mx args ps mx (ap_ready _ _ _ _ Hpre) (ap_div _ _ _ _ Hpre)).
Qed.

Lemma adjust_pre_run `{IoEnv} ps mx args h h0 bs0 (plenty : Prop) :
  adjust_pre ps mx args h → heap_grow h0 h bs0 → (plenty → h_plan h = []) →
  ∃ rc g h' E, motr_obj_iovec_adjust args h = Done (rc, install args ps g, h') ∧
    inv ps mx h0 bs0 plenty E g h' ∧
    (length (pages g) <= 2 * length (rwa_sorted_iovs args))%nat ∧
    (rc = 0 ∧ (∀ x p, iov_loc (pieces g) x p ↔ iov_loc (rwa_sorted_iovs args) x p) ∨
     rc = - ENOMEM ∧ ¬ plenty).
Proof.
  intros Hpre Hgrow Hpl. destruct Hpre as [Hr Hd Hh Ha Hb Hc Hx Hl Ho Hs Happ].
  pose proof (motr_obj_iovec_adjust_run args ps mx h0 bs0 plenty Hr Hd h Hl Ho Hs) as Hrun.
  rewrite install_nil in Hrun by (by rewrite ?Ha, ?Hb, ?Hc, ?Hx).
  destruct Hrun as (rc & g & h' & E & Hrun & Hinv & Hroom & Hrc); try done.
  { apply room_nil; rewrite ?Ha, ?Hb, ?Hc, ?Hx; simpl; lia. }
  exists rc, g, h', E. split; [done|]. split; [done|]. split; [|done].
  destruct Hroom as (_ & _ & _ & Hroom). rewrite Hx in Hroom. simpl in Hroom. lia.
Qed.

(** Entries as aligned vectors. *)
Lemma entries_page_aligned ps mx E g : 0 < ps <= mx → entries_ok ps mx E g →
  Forall (page_aligned ps mx) (entry_iov ps <$> g).
Proof.
  intros Hps [Heach _ _]. apply Forall_fmap. eapply Forall_impl; [exact Heach|].
  intros [v|o b pcs]; simpl; unfold page_aligned; simpl.
  - tauto.
  - rewrite Z.mod_same by lia. intros (_ & ? & _). split_and!; try done; lia.
Qed.

Lemma entries_sorted ps mx E g : entries_ok ps mx E g →
  StronglySorted iov_before (entry_iov ps <$> g).
Proof.
  intros [_ Hs _]. induction Hs as [|e g Hs IH He]; simpl; constructor; [done|].
  apply Forall_fmap. exact He.
Qed.

(** (C3) [motr_obj_iovec_adjust] on sorted disjoint vectors: whatever malloc()
    does, it stays inside its arrays and returns 0 or -ENOMEM; with 0, every
    aligned vector is made of whole pages that one operation can carry, the
    vectors are in order and disjoint, and they reach exactly the bytes of the
    object that the application's vectors reach, each at the same place of the
    application's memory. *)
Theorem motr_obj_iovec_adjust_correct `{IoEnv} ps mx args h :
  adjust_pre ps mx args h →
  ∃ rc args' h', motr_obj_iovec_adjust args h = Done (rc, args', h') ∧
    (rc = 0 ∨ rc = - ENOMEM) ∧
    (rc = 0 →
     Forall (page_aligned ps mx) (v_items (rwa_aligned args')) ∧
     StronglySorted iov_before (v_items (rwa_aligned args')) ∧
     ∀ x p, io_loc args' x p ↔ iov_loc (rwa_sorted_iovs args) x p).
Proof.
  intros Hpre. pose proof (adjust_pre_ps _ _ _ _ Hpre) as Hps.
  destruct (adjust_pre_run ps mx args h h [] False Hpre (heap_grow_refl _ (ap_heap _ _ _ _ Hpre)))
    as (rc & g & h' & E & Hrun & Hinv & _ & Hrc); [done|].
  exists rc, (install args ps g), h'. split; [done|].
  destruct Hrc as [[-> Hloc]|[-> Hnp]]; [|by split; [right|]]. split; [by left|]. intros _.
  pose proof (inv_ok _ _ _ _ _ _ _ _ Hinv) as Hok. simpl.
  split; [by eapply entries_page_aligned|]. split; [by eapply entries_sorted|].
  intros x p. rewrite <- Hloc. eapply io_loc_install; [done|exact Hinv|].
  intros y q Hq. apply (ap_app _ _ _ _ Hpre y q). by apply Hloc.
Qed.

(** A concrete run: pages of 4 bytes, at most 8 bytes per operation. *)
#[local] Instance ex_env : IoEnv := {
  io_confs := Some (MkMotrConf Uninit Uninit Uninit Uninit Uninit Uninit Uninit Uninit Uninit Uninit
    4 Uninit Uninit);
  m0_conf_fid_is_valid := λ _, true;
  m0_pool_version_find := λ _, Some (MkPver (MkPdclust 1 1 4) (MkFid 5 6))
}.

Definition ex_heap : heap :=
  MkHeap 4 (list_to_map [(1, MkBlock 16 (λ i, 10 + i)); (2, MkBlock 16 (λ i, 30 + i));
                         (3, MkBlock 16 (λ i, 50 + i))]) [].

Definition ex_sorted : list mio_iovec :=
  [MkIov (MkPtr 2 0) 0 5; MkIov (MkPtr 3 0) 5 2; MkIov (MkPtr 1 0) 9 10].

Definition ex_sorted_args : rw_args :=
  MkRwArgs ex_obj true 19 ex_sorted ex_sorted 0 (MkVec 10 []) 0 (MkVec 6 [])
    (MkVec 6 []) (MkVec 6 []) NULL NULL NULL NULL NULL NULL NULL.

Lemma ex_sorted_pre : adjust_pre 4 8 ex_sorted_args ex_heap.
Proof.
  split; try reflexivity.
  - split; try reflexivity; lia.
  - split; [done|]. intros b Hb. unfold ex_heap in *. simpl in *.
    rewrite !lookup_insert_is_Some in Hb. rewrite lookup_empty in Hb.
    destruct Hb as [<-|[_ [<-|[_ [<-|[_ [? [=]]]]]]]]; lia.
  - unfold iov_ok, iov_end. repeat constructor; simpl; lia.
  - unfold iov_before, iov_end. repeat constructor; simpl; lia.
  - intros x p (v & Hv & _ & ->). change (v ∈ ex_sorted) in Hv. unfold ex_sorted in Hv.
    rewrite !elem_of_cons in Hv.
    destruct Hv as [->|[->|[->|Hv%not_elem_of_nil]]]; simpl; lia || done.
Defined.

Lemma motr_obj_iovec_adjust_correct_witness :
  ∃ rc args' h', motr_obj_iovec_adjust ex_sorted_args ex_heap = Done (rc, args', h') ∧ rc = 0 ∧
    v_items (rwa_aligned args') = [MkIov (MkPtr 2 0) 0 4; MkIov (MkPtr 4 0) 4 4;
      MkIov (MkPtr 5 0) 8 4; MkIov (MkPtr 1 3) 12 4; MkIov (MkPtr 6 0) 16 4] ∧
    io_loc args' 6 (MkPtr 3 1).
Proof.
  destruct (motr_obj_iovec_adjust_correct 4 8 _ _ ex_sorted_pre) as (rc & args' & h' & Hrun & _ & H).
  exists rc, args', h'. split; [exact Hrun|].
  vm_compute in Hrun. injection Hrun as <- <- <-. destruct (H eq_refl) as (_ & _ & Hloc).
  split; [reflexivity|]. split; [reflexivity|]. apply Hloc.
  exists (MkIov (MkPtr 3 0) 5 2). unfold iov_end. simpl. split; [right; left|]. split; [lia|done].
Defined.
