(* ===== verification/Hints.v ===== *)
(** * Object and system hints (src/hints.c, lines 19-54 and 174-549)

    Hints with a scope and a type, the hints of an object and their persistent
    part, the hotness of an object and the choice of a pool by it.  The driver's
    functions that load and store hints are arguments. *)

From Stdlib Require Import String.
From S2P Require Import Prelude ObjId HintMap Mem Types.
Open Scope Z_scope.

(** ** The tables *)
Definition MIO_HINT_SCOPE_OBJ : Z := 0.
Definition MIO_HINT_SCOPE_KVSET : Z := 1.
Definition MIO_HINT_SCOPE_SYS : Z := 2.

Definition MIO_HINT_SESSION : Z := 0.
Definition MIO_HINT_PERSISTENT : Z := 1.

Definition MIO_HINT_OBJ_LIFETIME : Z := 0.
Definition MIO_HINT_OBJ_WHERE : Z := 1.
Definition MIO_HINT_OBJ_HOT_INDEX : Z := 2.

Definition MIO_HINT_HOT_OBJ_THRESHOLD : Z := 0.
Definition MIO_HINT_COLD_OBJ_THRESHOLD : Z := 1.

Definition MIO_HINT_VALUE_NULL : Z := 0.

Record hint := MkHint { h_name : string; h_type : Z }.

Definition obj_hint_table : list hint := [
  MkHint "MIO_HINT_OBJ_LIFETIME" MIO_HINT_PERSISTENT;
  MkHint "MIO_HINT_OBJ_WHERE" MIO_HINT_SESSION;
  MkHint "MIO_HINT_OBJ_HOT_INDEX" MIO_HINT_PERSISTENT].

Definition sys_hint_table : list hint := [
  MkHint "MIO_HINT_HOT_OBJ_THRESHOLD" MIO_HINT_SESSION;
  MkHint "MIO_HINT_COLD_OBJ_THRESHOLD" MIO_HINT_SESSION].

(** The entry of a key, when the key is inside the table. *)
Definition hint_entry (table : list hint) (key : Z) : option hint :=
  if (0 <=? key) && (key <? Z.of_nat (length table)) then table !! Z.to_nat key else None.

Definition mio_hint_type (scope key : Z) : Z :=
  if scope =? MIO_HINT_SCOPE_OBJ then
    match hint_entry obj_hint_table key with Some h => h_type h | None => - EINVAL end
  else if scope =? MIO_HINT_SCOPE_SYS then
    match hint_entry sys_hint_table key with Some h => h_type h | None => - EINVAL end
  else - EINVAL.

Definition mio_hint_name (scope key : Z) : option string :=
  if scope =? MIO_HINT_SCOPE_OBJ then h_name <$> hint_entry obj_hint_table key
  else if scope =? MIO_HINT_SCOPE_SYS then h_name <$> hint_entry sys_hint_table key
  else None.

(** ** Hints (struct mio_hints holds one map)

    A pointer argument is an option: [None] is NULL. *)
Definition mio_hints_init (hints : option mio_hint_map) (p : mplan)
  : outcome (Z * option mio_hint_map * mplan) :=
  match hints with
  | None => Done (- EINVAL, None, p)
  | Some map =>
      '(rc, map, p) ← mio_hint_map_init map MIO_OBJ_HINT_NUM p; Done (rc, Some map, p)
  end.

Definition mio_hints_fini (hints : option mio_hint_map) : outcome (option mio_hint_map) :=
  match hints with
  | None => Done None
  | Some map => map ← mio_hint_map_fini map; Done (Some map)
  end.

Definition mio_hint_add (hints : option mio_hint_map) (hint_key hint_value : Z)
  : outcome (Z * option mio_hint_map) :=
  match hints with
  | None => Done (- EINVAL, None)
  | Some map => '(rc, map) ← mio_hint_map_set map hint_key hint_value; Done (rc, Some map)
  end.

Definition mio_hint_lookup (hints : option mio_hint_map) (hint_key : Z) (hint_value : option Z)
  : outcome (Z * option Z) :=
  match hints with
  | None => Done (- EINVAL, hint_value)
  | Some map => mio_hint_map_get map hint_key hint_value
  end.

Definition mio_hint_is_set (hints : option mio_hint_map) (hint_key : Z) : outcome bool :=
  match hints with
  | None => Done false
  | Some _ =>
      '(rc, hint_value) ← mio_hint_lookup hints hint_key None;
      if rc <? 0 then Done false else
      match hint_value with
      | None => Fault UninitRead
      | Some v => if v =? MIO_HINT_VALUE_NULL then Done false else Done true
      end
  end.

(** ** Hints of an object *)

(** The driver's functions on the hints of an object; [W] is its world. *)
Record obj_hint_ops (W : Type) := MkHintOps {
  moo_hint_load : option (mio_obj → W → Z * mio_obj * W);
  moo_hint_store : option (mio_obj → W → Z * mio_obj * W)
}.
Arguments MkHintOps {W}.
Arguments moo_hint_load {W}.
Arguments moo_hint_store {W}.

Definition is_persistent (key : Z) : bool :=
  mio_hint_type MIO_HINT_SCOPE_OBJ key =? MIO_HINT_PERSISTENT.

Section ObjectHints.
Context {W : Type}.

(** [mio_obj_hint_ops_check]: [instance_rc] is mio_instance_check(), [ops] are
    the driver's object operations. *)
Definition mio_obj_hint_ops_check (instance_rc : Z) (ops : option (obj_hint_ops W)) : Z :=
  if instance_rc <? 0 then instance_rc else
  match ops with
  | Some (MkHintOps (Some _) (Some _)) => 0
  | _ => - EOPNOTSUPP
  end.

(** The first loop of [obj_hint_store]. *)
Fixpoint count_phints (ks : arr) (i n : nat) (nr_phints : Z) : outcome Z :=
  match n with
  | O => Done nr_phints
  | S n' =>
      k ← arr_get ks i;
      count_phints ks (S i) n' (if is_persistent k then nr_phints + 1 else nr_phints)
  end.

(** The second loop: the persistent hints of [hints] from entry [i] on are
    appended to [phints], whose first [phint_cnt] entries are set. *)
Fixpoint copy_phints (hints : mio_hint_map) (i n : nat) (phints : mio_hint_map) (phint_cnt : nat)
  : outcome (mio_hint_map * nat) :=
  match n with
  | O => Done (phints, phint_cnt)
  | S n' =>
      k ← arr_get (mhm_keys hints) i;
      if is_persistent k then
        v ← arr_get (mhm_values hints) i;
        phints ← hint_map_put phints phint_cnt k v (mhm_nr_set phints);
        copy_phints hints (S i) n' phints (S phint_cnt)
      else copy_phints hints (S i) n' phints phint_cnt
  end.

Definition set_nr_set (n : Z) (map : mio_hint_map) : mio_hint_map :=
  MkHintMap (mhm_nr_entries map) n (mhm_keys map) (mhm_values map).

(** [obj_hint_store]. *)
Definition obj_hint_store (ops : obj_hint_ops W) (obj : mio_obj) (w : W) (p : mplan)
  : outcome (Z * mio_obj * W * mplan) :=
  let phints := moa_phints (mo_attrs obj) in
  let nr_hints := nr_set_nat (mo_hints obj) in
  _ ← count_phints (mhm_keys (mo_hints obj)) 0 nr_hints 0;
  phints ← (if negb (mhm_nr_entries phints =? 0) then mio_hint_map_fini phints else Done phints);
  '(rc, phints, p) ← mio_hint_map_init phints MIO_OBJ_HINT_NUM p;
  if rc <? 0 then Done (rc, set_moa_phints phints obj, w, p) else
  '(phints, phint_cnt) ← copy_phints (mo_hints obj) 0 nr_hints phints 0;
  let obj := set_moa_phints (set_nr_set (Z.of_nat phint_cnt) phints) obj in
  match moo_hint_store ops with
  | None => Fault NullDeref
  | Some store => let '(rc, obj, w) := store obj w in Done (rc, obj, w, p)
  end.

(** [obj_hint_load]. *)
Definition obj_hint_load (ops : obj_hint_ops W) (obj : mio_obj) (w : W) : outcome (Z * mio_obj * W) :=
  match moo_hint_load ops with
  | None => Fault NullDeref
  | Some load => Done (load obj w)
  end.

(** [obj_hot_index_cal]. *)
Definition obj_hot_index_cal (obj : mio_obj) : outcome (Z * mio_obj) :=
  let stats := moa_stats (mo_attrs obj) in
  let hotness := u64 (mos_rcount stats + mos_wcount stats) in
  '(rc, map) ← mio_hint_map_set (mo_hints obj) MIO_HINT_OBJ_HOT_INDEX hotness;
  Done (rc, set_mo_hints map obj).

Definition obj_dyn_hint_update (obj : mio_obj) (hint_key : Z) : outcome (Z * mio_obj) :=
  if hint_key =? MIO_HINT_OBJ_HOT_INDEX then obj_hot_index_cal obj else Done (0, obj).

Definition mio_obj_hints_set (instance_rc : Z) (ops : option (obj_hint_ops W))
    (obj : option mio_obj) (hints : option mio_hint_map) (w : W) (p : mplan)
  : outcome (Z * option mio_obj * W * mplan) :=
  let rc := mio_obj_hint_ops_check instance_rc ops in
  if rc <? 0 then Done (rc, obj, w, p) else
  match ops, obj, hints with
  | Some ops, Some obj, Some hints =>
      '(rc, map, p) ← mio_hint_map_copy (mo_hints obj) hints p;
      let obj := set_mo_hints map obj in
      '(rc, obj, w, p) ←
        (if rc =? 0 then obj_hint_store ops obj w p else Done (rc, obj, w, p));
      if rc <? 0 then Done (rc, Some obj, w, p) else Done (0, Some obj, w, p)
  | _, _, _ => Done (- EINVAL, obj, w, p)
  end.

Definition mio_obj_hints_get (instance_rc : Z) (ops : option (obj_hint_ops W))
    (obj : option mio_obj) (hints : option mio_hint_map) (w : W) (p : mplan)
  : outcome (Z * option mio_obj * option mio_hint_map * W * mplan) :=
  let rc := mio_obj_hint_ops_check instance_rc ops in
  if rc <? 0 then Done (rc, obj, hints, w, p) else
  match ops, obj, hints with
  | Some ops, Some obj, Some hints =>
      '(rc, obj, w) ← obj_hint_load ops obj w;
      if rc <? 0 then Done (rc, Some obj, Some hints, w, p) else
      '(rc, hints, p) ← mio_hint_map_copy hints (mo_hints obj) p;
      Done (rc, Some obj, Some hints, w, p)
  | _, _, _ => Done (- EINVAL, obj, hints, w, p)
  end.

Definition mio_obj_hint_set (instance_rc : Z) (ops : option (obj_hint_ops W))
    (obj : option mio_obj) (hint_key hint_value : Z) (w : W) (p : mplan)
  : outcome (Z * option mio_obj * W * mplan) :=
  let rc := mio_obj_hint_ops_check instance_rc ops in
  if rc <? 0 then Done (rc, obj, w, p) else
  match ops, obj with
  | Some ops, Some obj =>
      '(rc, map) ← mio_hint_map_set (mo_hints obj) hint_key hint_value;
      let obj := set_mo_hints map obj in
      '(rc, obj, w, p) ←
        (if rc =? 0 then obj_hint_store ops obj w p else Done (rc, obj, w, p));
      if rc <? 0 then Done (rc, Some obj, w, p) else Done (0, Some obj, w, p)
  | _, _ => Done (- EINVAL, obj, w, p)
  end.

Definition mio_obj_hint_get (instance_rc : Z) (ops : option (obj_hint_ops W))
    (obj : option mio_obj) (hint_key : Z) (hint_value : option Z) (w : W)
  : outcome (Z * option mio_obj * option Z * W) :=
  let rc := mio_obj_hint_ops_check instance_rc ops in
  if rc <? 0 then Done (rc, obj, hint_value, w) else
  match ops, obj with
  | Some ops, Some obj =>
      '(rc, obj, w) ← obj_hint_load ops obj w;
      if rc <? 0 then Done (rc, Some obj, hint_value, w) else
      '(rc, obj) ← obj_dyn_hint_update obj hint_key;
      if rc <? 0 then Done (rc, Some obj, hint_value, w) else
      '(rc, hint_value) ← mio_hint_lookup (Some (mo_hints obj)) hint_key hint_value;
      Done (rc, Some obj, hint_value, w)
  | _, _ => Done (- EINVAL, obj, hint_value, w)
  end.
End ObjectHints.

(** ** System hints; [sys_hints] is the variable mio_sys_hints *)
Definition mio_sys_hint_set (sys_hints : mio_hint_map) (hint_key hint_value : Z)
  : outcome (Z * mio_hint_map) :=
  '(rc, map) ← mio_hint_map_set sys_hints hint_key hint_value;
  if rc <? 0 then Done (rc, map) else Done (0, map).

Definition mio_sys_hint_get (sys_hints : mio_hint_map) (hint_key : Z) (hint_value : option Z)
  : outcome (Z * option Z) :=
  mio_hint_lookup (Some sys_hints) hint_key hint_value.

(** ** Hotness and pools *)
Definition MIO_DEFAULT_COLD_OBJ_THLD : Z := 16.
Definition MIO_DEFAULT_HOT_OBJ_THLD : Z := 128.

(** A threshold: the hint if it is set, else the default. *)
Definition get_thld (sys_hints : mio_hint_map) (hint_key dflt : Z) : outcome Z :=
  '(rc, v) ← mio_sys_hint_get sys_hints hint_key None;
  if rc <? 0 then Done dflt else match v with Some v => Done v | None => Fault UninitRead end.

(** [mio_obj_hotness_to_pool_idx], with the C types of its arithmetic: the
    thresholds and the hotness are unsigned 64-bit, the rest int. *)
Definition mio_obj_hotness_to_pool_idx (sys_hints : mio_hint_map) (nr_pools hotness : Z)
  : outcome Z :=
  hot_thld ← get_thld sys_hints MIO_HINT_HOT_OBJ_THRESHOLD MIO_DEFAULT_HOT_OBJ_THLD;
  cold_thld ← get_thld sys_hints MIO_HINT_COLD_OBJ_THRESHOLD MIO_DEFAULT_COLD_OBJ_THLD;
  _ ← c_assert (1 <=? nr_pools);
  let hot_pool_idx := 0 in
  let cold_pool_idx := nr_pools - 1 in
  _ ← c_assert (hot_pool_idx <=? cold_pool_idx);
  if hot_thld <? hotness then Done hot_pool_idx
  else if hotness <? cold_thld then Done cold_pool_idx
  else
    warm_pool_idx ←
      (if nr_pools <=? 2 then Done cold_pool_idx
       else
         let warm_interv := s32 (u64 (hot_thld - cold_thld) / (nr_pools - 2)) in
         if u64 warm_interv =? 0 then Fault DivByZero else
         Done (s32 (u64 (cold_pool_idx - u64 (hotness - cold_thld) / u64 warm_interv - 1))));
    _ ← c_assert ((hot_pool_idx <=? warm_pool_idx) && (warm_pool_idx <=? cold_pool_idx));
    Done warm_pool_idx.

(** [mio_obj_hotness_to_pool_id]; [pool_ids] are the ids of mio_pools. *)
Definition mio_obj_hotness_to_pool_id (sys_hints : mio_hint_map) (pool_ids : list mio_pool_id)
    (hotness : Z) : outcome mio_pool_id :=
  pool_idx ← mio_obj_hotness_to_pool_idx sys_hints (Z.of_nat (length pool_ids)) hotness;
  match pool_ids !! Z.to_nat pool_idx with Some id => Done id | None => Fault OutOfBounds end.

(** ** The persistent part of the hints of an object *)

Lemma is_persistent_keys key :
  is_persistent key = (key =? MIO_HINT_OBJ_LIFETIME) || (key =? MIO_HINT_OBJ_HOT_INDEX).
Proof.
  destruct (decide (0 <= key < 3)) as [Hk|Hk].
  - assert (key = 0 ∨ key = 1 ∨ key = 2) as [->|[->| ->]] by lia; done.
  - unfold is_persistent, mio_hint_type, hint_entry.
    change (Z.of_nat (length obj_hint_table)) with 3.
    replace ((0 <=? key) && (key <? 3)) with false by lia. simpl.
    unfold MIO_HINT_OBJ_LIFETIME, MIO_HINT_OBJ_HOT_INDEX. symmetry. lia.
Qed.

(** The entries that [obj_hint_store] keeps. *)
Definition persistent_entries (l : list (Z * Z)) : list (Z * Z) :=
  filter (λ kv, is_persistent kv.1 = true) l.

Lemma persistent_entries_nodup l : NoDup l.*1 → NoDup (persistent_entries l).*1.
Proof.
  intros Hnd. eapply sublist_NoDup; [exact Hnd|].
  apply fmap_sublist, sublist_filter.
Qed.

Lemma persistent_entries_length l : NoDup l.*1 → (length (persistent_entries l) <= 2)%nat.
Proof.
  intros Hnd. rewrite <- (length_fmap fst).
  change 2%nat with (length [MIO_HINT_OBJ_LIFETIME; MIO_HINT_OBJ_HOT_INDEX]).
  apply submseteq_length, NoDup_submseteq; [by apply persistent_entries_nodup|].
  intros k ((k' & v) & -> & Hkv)%list_elem_of_fmap. simpl.
  unfold persistent_entries in Hkv. apply list_elem_of_filter in Hkv as [Hp _]. simpl in Hp.
  rewrite is_persistent_keys in Hp. rewrite !elem_of_cons. unfold MIO_HINT_OBJ_LIFETIME, MIO_HINT_OBJ_HOT_INDEX in *. lia.
Qed.

Lemma persistent_entries_abs l :
  NoDup l.*1 →
  list_to_map (persistent_entries l) =
    filter (λ kv, is_persistent kv.1 = true) (list_to_map l : gmap Z Z).
Proof.
  intros Hnd. apply map_eq. intros k. apply option_eq. intros v.
  rewrite <- elem_of_list_to_map by by apply persistent_entries_nodup.
  unfold persistent_entries. rewrite list_elem_of_filter, map_lookup_filter_Some.
  rewrite <- elem_of_list_to_map by done. simpl. tauto.
Qed.

(** The first [cnt] entries of a map with arrays of [n] elements. *)
Definition entries_prefix (map : mio_hint_map) (n cnt : nat) (l : list (Z * Z)) : Prop :=
  ∃ ks vs, mhm_keys map = Arr ks ∧ mhm_values map = Arr vs ∧ length ks = n ∧ length vs = n ∧
    take cnt (zip ks vs) = l.

Lemma entries_prefix_put map n cnt l k v nr :
  entries_prefix map n cnt l → (cnt < n)%nat →
  ∃ map', hint_map_put map cnt k v nr = Done map' ∧
    mhm_nr_entries map' = mhm_nr_entries map ∧ entries_prefix map' n (S cnt) (l ++ [(k, v)]).
Proof.
  intros (ks & vs & Hks & Hvs & Hlk & Hlv & Hl) Hcnt. unfold hint_map_put.
  rewrite Hks, Hvs, !arr_set_Arr by lia. simpl. eexists. split; [done|]. split; [done|].
  exists (<[cnt:=k]> ks), (<[cnt:=v]> vs). rewrite !length_insert. split_and!; [done..|].
  rewrite (take_S_r _ cnt (k, v)).
  2:{ apply lookup_zip_with_Some. exists k, v. split_and!; [done|..];
      apply list_lookup_insert_eq; lia. }
  f_equal. rewrite <- Hl. rewrite !zip_with_take.
  by rewrite (take_insert_ge ks), (take_insert_ge vs) by done.
Qed.

Lemma copy_phints_spec hints ks vs n i m phints cnt l :
  hint_map_rep hints ks vs → (i + m = nr_set_nat hints)%nat →
  entries_prefix phints n cnt l →
  (cnt + length (persistent_entries (drop i (hint_entries hints))) <= n)%nat →
  ∃ phints' cnt', copy_phints hints i m phints cnt = Done (phints', cnt') ∧
    mhm_nr_entries phints' = mhm_nr_entries phints ∧
    cnt' = (cnt + length (persistent_entries (drop i (hint_entries hints))))%nat ∧
    entries_prefix phints' n cnt' (l ++ persistent_entries (drop i (hint_entries hints))).
Proof.
  intros Hrep. revert i phints cnt l; induction m as [|m IH]; intros i phints cnt l Hi Hp Hn.
  - rewrite drop_ge by (rewrite (rep_entries_length _ _ _ Hrep); lia). simpl.
    exists phints, cnt. rewrite app_nil_r. split_and!; auto.
  - destruct (lookup_lt_is_Some_2 (hint_entries hints) i) as [[k v] Hkv].
    { rewrite (rep_entries_length _ _ _ Hrep). lia. }
    rewrite (drop_S _ _ _ Hkv) in Hn |- *.
    apply (rep_entries_lookup _ _ _ Hrep) in Hkv as (_ & Hk & Hv).
    cbn [copy_phints]. rewrite (hm_keys_eq _ _ _ Hrep), (arr_get_Arr _ _ _ Hk). simpl.
    unfold persistent_entries in Hn |- *. rewrite filter_cons in Hn |- *. simpl in Hn |- *.
    destruct (is_persistent k) eqn:Ek; simpl in Hn |- *.
    + rewrite (hm_values_eq _ _ _ Hrep), (arr_get_Arr _ _ _ Hv). simpl.
      destruct (entries_prefix_put phints n cnt l k v (mhm_nr_set phints) Hp)
        as (ph & -> & Hne & Hp'); [lia|]. simpl.
      destruct (IH (S i) ph (S cnt) (l ++ [(k, v)])) as (ph' & cnt' & -> & Hne' & -> & Hp'');
        [lia|done|unfold persistent_entries; lia|].
      eexists _, _. rewrite <- app_assoc in Hp''. split_and!; [done|lia| |exact Hp''].
      unfold persistent_entries. lia.
    + destruct (IH (S i) phints cnt l) as (ph' & cnt' & -> & Hne' & -> & Hp'');
        [lia|done|done|]. eexists _, _. split_and!; [done..|exact Hp''].
Qed.

Lemma count_phints_done ks l i n nr :
  ks = Arr l → (i + n <= length l)%nat → ∃ nr', count_phints ks i n nr = Done nr'.
Proof.
  intros ->. revert i nr; induction n as [|n IH]; intros i nr Hi; [by eexists|]. cbn [count_phints].
  destruct (lookup_lt_is_Some_2 l i) as [k Hk]; [lia|]. rewrite (arr_get_Arr _ _ _ Hk). simpl.
  apply IH. lia.
Qed.

(** The persistent hints of an object may be rebuilt: there are none, or the
    arrays are live. *)
Definition phints_ok (map : mio_hint_map) : Prop :=
  mhm_nr_entries map = 0 ∨ hint_map_wf map.

Lemma mio_hint_map_fini_wf map : hint_map_wf map → ∃ map', mio_hint_map_fini map = Done map'.
Proof.
  intros (ks & vs & Hrep). unfold mio_hint_map_fini.
  rewrite (hm_keys_eq _ _ _ Hrep), (hm_values_eq _ _ _ Hrep). by eexists.
Qed.

(** The object handed to the driver by [obj_hint_store]. *)
Definition stores_hints (obj obj' : mio_obj) : Prop :=
  ∃ ph, obj' = set_moa_phints ph obj ∧ hint_map_wf ph ∧ mhm_nr_entries ph = MIO_OBJ_HINT_NUM ∧
    hint_abs ph = filter (λ kv, is_persistent kv.1 = true) (hint_abs (mo_hints obj)).

Lemma obj_hint_store_spec {W} (ops : obj_hint_ops W) store obj w :
  moo_hint_store ops = Some store →
  hint_map_wf (mo_hints obj) → phints_ok (moa_phints (mo_attrs obj)) →
  ∃ obj', stores_hints obj obj' ∧
    obj_hint_store ops obj w [] =
      Done (let '(rc, obj'', w') := store obj' w in (rc, obj'', w', [])).
Proof.
  intros Hst (ks & vs & Hrep) Hph. unfold obj_hint_store.
  pose proof (rep_nr_set_le _ _ _ Hrep) as Hle.
  destruct (count_phints_done _ _ 0 (nr_set_nat (mo_hints obj)) 0 (hm_keys_eq _ _ _ Hrep))
    as [nr ->]; [lia|]. cbn [mbind outcome_bind].
  assert (Hfini : ∃ m, (if negb (mhm_nr_entries (moa_phints (mo_attrs obj)) =? 0)
      then mio_hint_map_fini (moa_phints (mo_attrs obj))
      else Done (moa_phints (mo_attrs obj))) = Done m).
  { case_bool_decide as E || destruct (Z.eqb_spec (mhm_nr_entries (moa_phints (mo_attrs obj))) 0).
    - by eexists.
    - destruct Hph as [?|Hwf]; [done|]. by apply mio_hint_map_fini_wf. }
  destruct Hfini as [m0 ->]. cbn [mbind outcome_bind].
  destruct (hint_map_init_ok m0 MIO_OBJ_HINT_NUM) as (ph0 & -> & (pk0 & pv0 & Hrep0) & _ & Hn0);
    [unfold MIO_OBJ_HINT_NUM; lia|].
  cbn [mbind outcome_bind]. rewrite (proj2 (Z.ltb_ge 0 0)) by lia.
  assert (Hpre : entries_prefix ph0 32 0 []).
  { pose proof (hm_keys_len _ _ _ Hrep0). pose proof (hm_values_len _ _ _ Hrep0).
    unfold MIO_OBJ_HINT_NUM in *. exists pk0, pv0.
    split_and!; [apply Hrep0|apply Hrep0|lia|lia|done]. }
  pose proof (rep_entries_nodup _ _ _ Hrep) as Hnd.
  pose proof (persistent_entries_length _ Hnd) as Hlen.
  destruct (copy_phints_spec (mo_hints obj) ks vs 32 0 (nr_set_nat (mo_hints obj)) ph0 0 [])
    as (ph & cnt & Hcopy & Hne & Hcnt & (pk & pv & Hpk & Hpv & Hlk & Hlv & Hl));
    [done|lia|done|rewrite drop_0; lia|].
  rewrite drop_0 in Hcnt, Hl. simpl in Hcnt, Hl.
  rewrite Hcopy. cbn [mbind outcome_bind]. rewrite Hst.
  exists (set_moa_phints (set_nr_set (Z.of_nat cnt) ph) obj).
  split; [|by destruct (store (set_moa_phints _ _) w) as [[??]?]].
  exists (set_nr_set (Z.of_nat cnt) ph). split; [done|].
  assert (Hnr : nr_set_nat (set_nr_set (Z.of_nat cnt) ph) = cnt).
  { unfold nr_set_nat, set_nr_set. simpl. lia. }
  assert (Hents : hint_entries (set_nr_set (Z.of_nat cnt) ph) =
    persistent_entries (hint_entries (mo_hints obj))).
  { unfold hint_entries at 1. rewrite Hnr. unfold set_nr_set. simpl. by rewrite Hpk, Hpv. }
  assert (Hrep' : hint_map_rep (set_nr_set (Z.of_nat cnt) ph) pk pv).
  { unfold MIO_OBJ_HINT_NUM in *. split; simpl; try done; try lia.
    - rewrite Hnr. rewrite <- (fst_zip pk pv) by lia. rewrite <- fmap_take, Hl.
      by apply persistent_entries_nodup. }
  split_and!.
  - by exists pk, pv.
  - simpl. congruence.
  - unfold hint_abs. rewrite Hents. by apply persistent_entries_abs.
Qed.

(** Setting a hint of an object: if the table is full of other keys the
    answer is -EINVAL and nothing is stored; otherwise the hint is inserted, the
    persistent hints of the object become exactly the hints whose type is
    MIO_HINT_PERSISTENT, and the driver stores that object; its error is the
    result, its success 0. *)
Theorem mio_obj_hint_set_correct {W} (load store : mio_obj → W → Z * mio_obj * W)
  (obj : mio_obj) (hint_key hint_value : Z) (w : W)
  (Hwf : hint_map_wf (mo_hints obj)) (Hph : phints_ok (moa_phints (mo_attrs obj))) :
  let ops := MkHintOps (Some load) (Some store) in
  if decide (hint_abs (mo_hints obj) !! hint_key = None ∧
             Z.of_nat (size (hint_abs (mo_hints obj))) = mhm_nr_entries (mo_hints obj))
  then mio_obj_hint_set 0 (Some ops) (Some obj) hint_key hint_value w [] =
         Done (- EINVAL, Some obj, w, [])
  else ∃ map obj', hint_map_wf map ∧
    hint_abs map = <[hint_key := hint_value]> (hint_abs (mo_hints obj)) ∧
    stores_hints (set_mo_hints map obj) obj' ∧
    mio_obj_hint_set 0 (Some ops) (Some obj) hint_key hint_value w [] =
      Done (let '(rc, obj'', w') := store obj' w in (Z.min rc 0, Some obj'', w', [])).
Proof.
  intros ops. unfold mio_obj_hint_set. simpl.
  destruct (hint_map_set_cases (mo_hints obj) hint_key hint_value Hwf)
    as (rc & map' & -> & Hwf' & Hne & Hcase). simpl. case_decide as Hd.
  - destruct Hcase as [-> ->]. simpl. by destruct obj.
  - destruct Hcase as [-> Habs]. simpl.
    destruct (obj_hint_store_spec ops store (set_mo_hints map' obj) w)
      as (obj' & Hst & ->); [done..|].
    exists map', obj'. split_and!; [done..|]. simpl.
    destruct (store obj' w) as [[rc obj''] w'] eqn:E. simpl in *.
    destruct (Z.ltb_spec rc 0); [by rewrite Z.min_l by lia|by rewrite Z.min_r by lia].
Qed.

Definition ex_obj : mio_obj :=
  MkObj (MkObjId []) 0 ex_hints_other false attrs_zero None.

Lemma mio_obj_hint_set_correct_witness :
  hint_map_wf ex_hints_other ∧
  ∃ map obj', hint_map_wf map ∧
    hint_abs map = <[0 := 5]> (hint_abs ex_hints_other) ∧
    stores_hints (set_mo_hints map ex_obj) obj' ∧
    mio_obj_hint_set 0 (Some (MkHintOps (Some (λ obj w, (0, obj, w))) (Some (λ obj w, (0, obj, S w)))))
      (Some ex_obj) 0 5 0%nat [] = Done (0, Some obj', 1%nat, []).
Proof.
  split; [exact ex_hints_other_wf|].
  exact (mio_obj_hint_set_correct (λ obj w, (0, obj, w)) (λ obj w, (0, obj, S w))
    ex_obj 0 5 0%nat ex_hints_other_wf (or_introl eq_refl)).
Defined.

(** ** The choice of a pool *)

(** The threshold in effect. *)
Definition thld (sys_hints : mio_hint_map) (hint_key dflt : Z) : Z :=
  default dflt (hint_abs sys_hints !! hint_key).

Lemma get_thld_spec sys_hints hint_key dflt :
  hint_map_wf sys_hints → get_thld sys_hints hint_key dflt = Done (thld sys_hints hint_key dflt).
Proof.
  intros Hwf. unfold get_thld, thld, mio_sys_hint_get, mio_hint_lookup.
  rewrite (hint_map_get_cases _ _ _ Hwf). by destruct (hint_abs sys_hints !! hint_key).
Qed.

(** The index of the pool for a hotness, over the integers. *)
Definition pool_idx_spec (hot cold nr h : Z) : outcome Z :=
  if hot <? h then Done 0
  else if h <? cold then Done (nr - 1)
  else if nr <=? 2 then Done (nr - 1)
  else
    let q := (hot - cold) / (nr - 2) in
    if q =? 0 then Fault DivByZero
    else if (h - cold) / q <=? nr - 2 then Done (nr - 2 - (h - cold) / q)
    else Fault AssertFail.

Section PoolIdx.
Context (sys_hints : mio_hint_map) (nr_pools : Z).
Let hot : Z := thld sys_hints MIO_HINT_HOT_OBJ_THRESHOLD MIO_DEFAULT_HOT_OBJ_THLD.
Let cold : Z := thld sys_hints MIO_HINT_COLD_OBJ_THRESHOLD MIO_DEFAULT_COLD_OBJ_THLD.
Context (Hwf : hint_map_wf sys_hints) (Hnr : 1 <= nr_pools <= MIO_MOTR_MAX_POOL_CNT)
  (Hcold : 0 <= cold) (Hhot : hot < 2 ^ 31).

Lemma pool_idx_equiv h :
  0 <= h < 2 ^ 64 →
  mio_obj_hotness_to_pool_idx sys_hints nr_pools h = pool_idx_spec hot cold nr_pools h.
Proof.
  intros Hh. unfold mio_obj_hotness_to_pool_idx, MIO_MOTR_MAX_POOL_CNT in *.
  rewrite !get_thld_spec by done. cbn [mbind outcome_bind]. fold hot cold. unfold pool_idx_spec.
  clearbody hot cold.
  replace (1 <=? nr_pools) with true by lia. replace (0 <=? nr_pools - 1) with true by lia.
  cbn [c_assert mbind outcome_bind].
  destruct (Z.ltb_spec hot h); [done|]. destruct (Z.ltb_spec h cold); [done|].
  destruct (Z.leb_spec nr_pools 2) as [Hle|Hgt].
  { cbn [mbind outcome_bind]. replace (0 <=? nr_pools - 1) with true by lia.
    by rewrite Z.leb_refl. }
  rewrite (u64_small (hot - cold)), (u64_small (h - cold)) by lia.
  set (q := (hot - cold) / (nr_pools - 2)).
  assert (Hq : (nr_pools - 2) * q <= hot - cold < (nr_pools - 2) * q + (nr_pools - 2)).
  { pose proof (div_mod_eq (hot - cold) (nr_pools - 2)).
    pose proof (mod_bound (hot - cold) (nr_pools - 2)). unfold q. lia. }
  assert (0 <= q < 2 ^ 31) by nia. clearbody q.
  rewrite (s32_small q), (u64_small q) by lia. cbv zeta.
  destruct (Z.eqb_spec q 0) as [|Hq0]; [done|]. cbn [mbind outcome_bind].
  set (d := (h - cold) / q).
  assert (Hd : q * d <= h - cold < q * d + q).
  { pose proof (div_mod_eq (h - cold) q). pose proof (mod_bound (h - cold) q). unfold d. lia. }
  assert (0 <= d <= 2 * nr_pools) by nia. clearbody d.
  rewrite s32_u64, s32_small by lia.
  destruct (Z.leb_spec d (nr_pools - 2)) as [Hle|Hlt].
  - replace (_ && _) with true by lia. simpl. f_equal. lia.
  - by replace (_ && _) with false by lia.
Qed.
End PoolIdx.

(** The pool chosen for an object.  When the thresholds are ordered and
    the warm interval divides the distance between them into at most
    [nr_pools - 2] parts, every hotness has a pool, the index is inside the
    array of pools, an object above the hot threshold goes to the first pool
    and one below the cold threshold to the last, and a hotter object never
    goes to a later pool. *)
Theorem mio_obj_hotness_to_pool_idx_monotone (sys_hints : mio_hint_map) (nr_pools h h' : Z)
  (Hwf : hint_map_wf sys_hints) (Hnr : 1 <= nr_pools <= MIO_MOTR_MAX_POOL_CNT)
  (Hh : 0 <= h <= h') (Hh' : h' < 2 ^ 64) :
  let hot := thld sys_hints MIO_HINT_HOT_OBJ_THRESHOLD MIO_DEFAULT_HOT_OBJ_THLD in
  let cold := thld sys_hints MIO_HINT_COLD_OBJ_THRESHOLD MIO_DEFAULT_COLD_OBJ_THLD in
  let q := (hot - cold) / (nr_pools - 2) in
  0 <= cold <= hot → hot < 2 ^ 31 →
  nr_pools <= 2 ∨ (0 < q ∧ (hot - cold) / q <= nr_pools - 2) →
  ∃ i i', mio_obj_hotness_to_pool_idx sys_hints nr_pools h = Done i ∧
    mio_obj_hotness_to_pool_idx sys_hints nr_pools h' = Done i' ∧
    0 <= i' <= i ∧ i < nr_pools ∧
    (hot < h → i = 0) ∧ (h < cold → i = nr_pools - 1).
Proof.
  intros hot cold q Hcold Hhot Hdiv. unfold MIO_MOTR_MAX_POOL_CNT in *.
  rewrite !pool_idx_equiv
    by (done || (unfold MIO_MOTR_MAX_POOL_CNT; fold hot cold; lia)). fold hot cold.
  unfold pool_idx_spec. fold q. clearbody q. clearbody hot cold.
  assert (Hmono : 0 < q → ∀ a b, a <= b → a / q <= b / q) by (intros; apply Z.div_le_mono; lia).
  assert (Hpos : 0 < q → ∀ a, 0 <= a → 0 <= a / q) by (intros; apply Z.div_pos; lia).
  destruct (Z.ltb_spec hot h), (Z.ltb_spec hot h'); try lia; [by exists 0, 0; split_and!; try lia|..];
  destruct (Z.ltb_spec h cold), (Z.ltb_spec h' cold), (Z.leb_spec nr_pools 2); try lia;
    try (eexists _, _; split_and!; [done|done|lia..]);
    destruct Hdiv as [?|[Hq Hdiv]]; try lia;
    pose proof (Hmono Hq (h - cold) (h' - cold)); pose proof (Hmono Hq (h' - cold) (hot - cold));
    pose proof (Hmono Hq (h - cold) (hot - cold));
    pose proof (Hpos Hq (h - cold)); pose proof (Hpos Hq (h' - cold));
    rewrite ?(proj2 (Z.eqb_neq q 0)), ?(proj2 (Z.leb_le _ _)) by lia;
    eexists _, _; split_and!; try done; lia.
Qed.

Lemma mio_obj_hotness_to_pool_idx_monotone_witness :
  hint_map_wf ex_hints_other ∧
  ∃ i i', mio_obj_hotness_to_pool_idx ex_hints 4 20 = Done i ∧
    mio_obj_hotness_to_pool_idx ex_hints 4 100 = Done i' ∧
    0 <= i' <= i ∧ i < 4 ∧ (128 < 20 → i = 0) ∧ (20 < 7 → i = 3).
Proof.
  split; [exact ex_hints_other_wf|].
  refine (mio_obj_hotness_to_pool_idx_monotone ex_hints 4 20 100 ex_hints_wf _ _ _ _ _ _);
    vm_compute; intuition congruence.
Defined.

(** With the default thresholds, for every number of pools the
    configuration allows except 15, every hotness gets a pool; with 15 pools an
    object of hotness 128 makes the assertion on the index fail. *)
Theorem mio_obj_hotness_default_thresholds (sys_hints : mio_hint_map) (nr_pools : Z)
  (Hwf : hint_map_wf sys_hints) (Hnr : 1 <= nr_pools <= MIO_MOTR_MAX_POOL_CNT)
  (Hhot : hint_abs sys_hints !! MIO_HINT_HOT_OBJ_THRESHOLD = None)
  (Hcold : hint_abs sys_hints !! MIO_HINT_COLD_OBJ_THRESHOLD = None) :
  if nr_pools =? 15 then
    mio_obj_hotness_to_pool_idx sys_hints nr_pools 128 = Fault AssertFail
  else ∀ h, 0 <= h < 2 ^ 64 →
    ∃ i, mio_obj_hotness_to_pool_idx sys_hints nr_pools h = Done i ∧ 0 <= i < nr_pools.
Proof.
  assert (Heq : ∀ h, 0 <= h < 2 ^ 64 →
    mio_obj_hotness_to_pool_idx sys_hints nr_pools h = pool_idx_spec 128 16 nr_pools h).
  { intros h Hh. rewrite pool_idx_equiv; unfold thld; rewrite ?Hhot, ?Hcold; simpl;
      unfold MIO_DEFAULT_COLD_OBJ_THLD, MIO_DEFAULT_HOT_OBJ_THLD; done || lia. }
  destruct (Z.eqb_spec nr_pools 15) as [->|Hne]; [by rewrite Heq|].
  intros h Hh. rewrite Heq by done. clear Heq. unfold pool_idx_spec, MIO_MOTR_MAX_POOL_CNT in *.
  destruct (Z.ltb_spec 128 h); [eexists; split; [done|lia]|].
  destruct (Z.ltb_spec h 16); [eexists; split; [done|lia]|].
  destruct (Z.leb_spec nr_pools 2); [eexists; split; [done|lia]|].
  assert (Hq : nr_pools ∈ seqZ 3 14) by (apply elem_of_seqZ; lia).
  clear Hnr. vm_compute in Hq. repeat (apply elem_of_cons in Hq as [->|Hq]); try done;
    try (by apply elem_of_nil in Hq);
    (match goal with |- context [128 - 16] => idtac end);
    match goal with |- context [(128 - 16) / ?n] =>
      let q := eval vm_compute in ((128 - 16) / n) in change ((128 - 16) / n) with q end;
    cbn [Z.eqb Z.sub Z.add Z.opp Z.pos_sub Pos.eqb];
    rewrite (proj2 (Z.leb_le _ _)) by (Z.to_euclidean_division_equations; lia);
    eexists; (split; [done|Z.to_euclidean_division_equations; lia]).
Qed.

Lemma mio_obj_hotness_default_thresholds_witness :
  (1 <= 15 <= MIO_MOTR_MAX_POOL_CNT) ∧
  mio_obj_hotness_to_pool_idx (MkHintMap 1 0 (Arr [-1]) (Arr [0])) 15 128 = Fault AssertFail.
Proof.
  split; [vm_compute; intuition congruence|].
  refine (mio_obj_hotness_default_thresholds (MkHintMap 1 0 (Arr [-1]) (Arr [0])) 15 _ _ _ _).
  - exists [-1], [0]. split; try (simpl; lia || done). constructor.
  - vm_compute. intuition congruence.
  - reflexivity.
  - reflexivity.
Defined.
