(* ===== verification/AttrsWire.v ===== *)
(** * The stored form of object attributes (src/driver_motr_obj.c, lines 1425-1549)

    The attributes of an object are kept in a key-value set under the object's
    id: the size and the access statistics as they are in memory, the number of
    persistent hints, their keys and their values.  [motr_obj_attrs_mem2wire]
    writes that form from the persistent hints of the object;
    [motr_obj_attrs_wire2mem] reads it into the object's hints. *)

From S2P Require Import Prelude Bytes ObjId HintMap Mem Types.
Open Scope Z_scope.

Definition sizeof_int : nat := 4.
Definition sizeof_uint64 : nat := 8.

Section Wire.
Context `{HostOrder}.

(** The memory of the fields moa_size and moa_stats, which have no padding. *)
Definition nonhint_fields (attrs : mio_obj_attrs) : list Z :=
  let s := moa_stats attrs in
  [moa_size attrs; mos_rcount s; mos_rbytes s; mos_rtime s; mos_wcount s; mos_wbytes s; mos_wtime s].

Definition motr_obj_attr_nonhint_size (obj : mio_obj) : nat :=
  (sizeof_uint64 * length (nonhint_fields (mo_attrs obj)))%nat.

Definition nonhint_bytes (attrs : mio_obj_attrs) : list Z :=
  nonhint_fields attrs ≫= native sizeof_uint64.

(** The 64-bit word [i] of the bytes [l]. *)
Definition word_at (l : list Z) (i : nat) : Z :=
  of_native (take sizeof_uint64 (drop (sizeof_uint64 * i) l)).

Definition nonhint_of_bytes (l : list Z) (attrs : mio_obj_attrs) : mio_obj_attrs :=
  MkAttrs (word_at l 0)
    (MkStats (word_at l 1) (word_at l 2) (word_at l 3) (word_at l 4) (word_at l 5) (word_at l 6))
    (moa_phints attrs).

(** The loops that copy the elements [i] .. [i+n-1] of an array, [w] bytes each,
    to or from the buffer. *)
Fixpoint store_array (w : nat) (a : arr) (i n : nat) (buf : list Z) (pos : nat)
  : outcome (list Z * nat) :=
  match n with
  | O => Done (buf, pos)
  | S n' =>
      x ← arr_get a i;
      buf ← buf_put buf pos (native w x);
      store_array w a (S i) n' buf (pos + w)
  end.

Fixpoint load_array (w : nat) (dec : Z → Z) (buf : list Z) (pos : nat) (a : arr) (i n : nat)
  : outcome (arr * nat) :=
  match n with
  | O => Done (a, pos)
  | S n' =>
      bytes ← buf_get buf pos w;
      a ← arr_set a i (dec (of_native bytes));
      load_array w dec buf (pos + w) a (S i) n'
  end.

(** [motr_obj_attrs_mem2wire]: the result is the return code with *attr_size
    and *attr_buf, which are written on success only. *)
Definition motr_obj_attrs_mem2wire (obj : mio_obj) (p : mplan)
  : outcome (Z * option (Z * list Z) * mplan) :=
  let map := moa_phints (mo_attrs obj) in
  let hints_nr_set :=
    if mhm_nr_entries map <? mhm_nr_set map then mhm_nr_entries map else mhm_nr_set map in
  let nonhint_size := motr_obj_attr_nonhint_size obj in
  let size := u64 (Z.of_nat (nonhint_size + sizeof_int) +
                   hints_nr_set * Z.of_nat (sizeof_int + sizeof_uint64)) in
  let '(ok, p) := plan_next p in
  if negb ok then Done (- ENOMEM, None, p) else
  let buf := replicate (Z.to_nat size) 0 in
  let ptr := O in
  buf ← buf_put buf ptr (nonhint_bytes (mo_attrs obj));
  let ptr := (ptr + nonhint_size)%nat in
  buf ← buf_put buf ptr (native sizeof_int hints_nr_set);
  let ptr := (ptr + sizeof_int)%nat in
  '(buf, ptr) ← store_array sizeof_int (mhm_keys map) 0 (Z.to_nat hints_nr_set) buf ptr;
  '(buf, ptr) ← store_array sizeof_uint64 (mhm_values map) 0 (Z.to_nat hints_nr_set) buf ptr;
  Done (0, Some (size, buf), p).

Definition set_map_arrays (ks vs : arr) (map : mio_hint_map) : mio_hint_map :=
  MkHintMap (mhm_nr_entries map) (mhm_nr_set map) ks vs.

(** [motr_obj_attrs_wire2mem]. *)
Definition motr_obj_attrs_wire2mem (obj : mio_obj) (attr_size : Z) (attr_buf : list Z)
  : outcome (Z * mio_obj) :=
  let map := mo_hints obj in
  let nonhint_size := motr_obj_attr_nonhint_size obj in
  let ptr := O in
  bytes ← buf_get attr_buf ptr nonhint_size;
  let obj := set_mo_attrs (nonhint_of_bytes bytes (mo_attrs obj)) obj in
  let ptr := (ptr + nonhint_size)%nat in
  bytes ← buf_get attr_buf ptr sizeof_int;
  let nr_hints := s32 (of_native bytes) in
  let ptr := (ptr + sizeof_int)%nat in
  if (nr_hints <? 0) || (MIO_OBJ_HINT_NUM <? nr_hints) then Done (- EIO, obj)
  else if nr_hints =? 0 then Done (0, obj)
  else
    let map := MkHintMap (mhm_nr_entries map) nr_hints (mhm_keys map) (mhm_values map) in
    let size := Z.of_nat (nonhint_size + sizeof_int) +
                nr_hints * Z.of_nat (sizeof_int + sizeof_uint64) in
    if negb (attr_size =? size) then Done (- EIO, set_mo_hints map obj) else
    '(ks, ptr) ← load_array sizeof_int s32 attr_buf ptr (mhm_keys map) 0 (Z.to_nat nr_hints);
    '(vs, ptr) ← load_array sizeof_uint64 (λ x, x) attr_buf ptr (mhm_values map) 0 (Z.to_nat nr_hints);
    Done (0, set_mo_hints (set_map_arrays ks vs map) obj).

(** ** Arrays of the buffer *)

Lemma length_native_concat w l : length (l ≫= native w) = (w * length l)%nat.
Proof.
  induction l as [|x l IH]; [simpl; lia|]. rewrite bind_cons, length_app, length_native, IH.
  simpl. lia.
Qed.

(** Storing a segment of an array writes the bytes of its elements. *)
Lemma store_array_spec w l i n a pre old post :
  take n (drop i a) = l → (i + n <= length a)%nat → length old = (w * n)%nat →
  store_array w (Arr a) i n (pre ++ old ++ post) (length pre) =
    Done (pre ++ (l ≫= native w) ++ post, (length pre + w * n)%nat).
Proof.
  revert l i pre old. induction n as [|n IH]; intros l i pre old Hl Hi Hold.
  - simpl in *. subst l. simpl. rewrite (nil_length_inv old) by lia. simpl. do 2 f_equal. lia.
  - destruct (lookup_lt_is_Some_2 a i) as [x Hx]; [lia|].
    cbn [store_array]. rewrite (arr_get_Arr _ _ _ Hx). cbn [mbind outcome_bind].
    rewrite (drop_S _ _ _ Hx) in Hl. simpl in Hl. subst l.
    rewrite <- (take_drop w old), <- app_assoc.
    rewrite buf_put_app by (rewrite length_take, length_native; lia). cbn [mbind outcome_bind].
    replace (length pre + w)%nat with (length (pre ++ native w x)) by (by rewrite length_app, length_native).
    rewrite app_assoc, (IH (take n (drop (S i) a))) by (done || rewrite ?length_drop; lia).
    rewrite bind_cons, <- !app_assoc, length_app, length_native. do 2 f_equal. lia.
Qed.

(** Loading the bytes of [l] sets the elements from [i] on to [l]. *)
Lemma load_array_spec w dec l i a pre post :
  Forall (λ x, dec (of_native (native w x)) = x) l → (i + length l <= length a)%nat →
  load_array w dec (pre ++ (l ≫= native w) ++ post) (length pre) (Arr a) i (length l) =
    Done (Arr (take i a ++ l ++ drop (i + length l) a), (length pre + w * length l)%nat).
Proof.
  revert i a pre. induction l as [|x l IH]; intros i a pre Hl Hi; simpl in Hi.
  - simpl. rewrite Nat.add_0_r, take_drop. do 3 f_equal; lia.
  - apply Forall_cons in Hl as [Hx Hl]. cbn [load_array length]. rewrite bind_cons, <- app_assoc.
    rewrite buf_get_native. cbn [mbind outcome_bind].
    rewrite Hx, arr_set_Arr by lia. cbn [mbind outcome_bind].
    replace (length pre + w)%nat with (length (pre ++ native w x)) by (by rewrite length_app, length_native).
    rewrite app_assoc, IH by (done || rewrite ?length_insert; lia).
    rewrite length_app, length_native. do 2 f_equal; [|lia]. f_equal.
    rewrite (take_S_r _ i x) by (apply list_lookup_insert_eq; lia).
    rewrite take_insert_ge by done. rewrite drop_insert_lt by lia.
    rewrite <- app_assoc. simpl. do 4 f_equal. lia.
Qed.

(** ** The stored form as one list of bytes *)

Lemma drop_native_concat w l i : drop (w * i) (l ≫= native w) = drop i l ≫= native w.
Proof.
  revert l; induction i as [|i IH]; intros [|x l].
  - by rewrite Nat.mul_0_r.
  - by rewrite Nat.mul_0_r.
  - simpl. by rewrite drop_nil.
  - rewrite bind_cons. replace (w * S i)%nat with (w + w * i)%nat by lia.
    rewrite <- drop_drop, drop_app_length' by (by rewrite length_native). apply IH.
Qed.

Lemma word_at_concat l i x :
  l !! i = Some x → 0 <= x < 2 ^ 64 → word_at (l ≫= native sizeof_uint64) i = x.
Proof.
  intros Hx Hr. unfold word_at. rewrite drop_native_concat, (drop_S _ _ _ Hx), bind_cons.
  rewrite take_app_length' by (by rewrite length_native).
  apply of_native_native. unfold sizeof_uint64. lia.
Qed.

(** The fields of the C types. *)
Definition attrs_ok (attrs : mio_obj_attrs) : Prop :=
  Forall (λ x, 0 <= x < 2 ^ 64) (nonhint_fields attrs).

Lemma nonhint_roundtrip attrs attrs' :
  attrs_ok attrs →
  nonhint_of_bytes (nonhint_bytes attrs) attrs' =
    MkAttrs (moa_size attrs) (moa_stats attrs) (moa_phints attrs').
Proof.
  intros Hok. assert (Hw : ∀ i x, nonhint_fields attrs !! i = Some x →
    word_at (nonhint_bytes attrs) i = x).
  { intros i x Hx. apply word_at_concat; [done|]. exact (Forall_lookup_1 _ _ i x Hok Hx). }
  unfold nonhint_of_bytes.
  rewrite (Hw 0%nat _ eq_refl), (Hw 1%nat _ eq_refl), (Hw 2%nat _ eq_refl), (Hw 3%nat _ eq_refl),
    (Hw 4%nat _ eq_refl), (Hw 5%nat _ eq_refl), (Hw 6%nat _ eq_refl).
  by destruct attrs as [sz [] ph].
Qed.

Lemma length_nonhint_bytes attrs : length (nonhint_bytes attrs) = 56%nat.
Proof. unfold nonhint_bytes. by rewrite length_native_concat. Qed.

Definition wire_bytes (attrs : mio_obj_attrs) (l : list (Z * Z)) : list Z :=
  nonhint_bytes attrs ++ native sizeof_int (Z.of_nat (length l)) ++
  (l.*1 ≫= native sizeof_int) ++ (l.*2 ≫= native sizeof_uint64).

Lemma length_wire_bytes attrs l :
  length (wire_bytes attrs l) = (60 + 12 * length l)%nat.
Proof.
  unfold wire_bytes. rewrite !length_app, !length_native_concat, length_native, !length_fmap.
  rewrite length_nonhint_bytes. unfold sizeof_int, sizeof_uint64. lia.
Qed.

Lemma rep_entries_snd map ks vs :
  hint_map_rep map ks vs → (hint_entries map).*2 = take (nr_set_nat map) vs.
Proof.
  intros Hrep. rewrite (rep_entries _ _ _ Hrep), fmap_take, snd_zip; [done|]. destruct Hrep. lia.
Qed.

Lemma mem2wire_spec obj p :
  hint_map_wf (moa_phints (mo_attrs obj)) →
  mhm_nr_set (moa_phints (mo_attrs obj)) <= MIO_OBJ_HINT_NUM →
  motr_obj_attrs_mem2wire obj (true :: p) =
    let buf := wire_bytes (mo_attrs obj) (hint_entries (moa_phints (mo_attrs obj))) in
    Done (0, Some (Z.of_nat (length buf), buf), p).
Proof.
  intros (ks & vs & Hrep) Hn. unfold motr_obj_attrs_mem2wire, MIO_OBJ_HINT_NUM in *.
  set (map := moa_phints (mo_attrs obj)) in *. cbv zeta.
  pose proof (rep_nr_set _ _ _ Hrep) as Hnr. pose proof (rep_nr_set_le _ _ _ Hrep) as Hle.
  pose proof (hm_values_len _ _ _ Hrep) as Hvl. pose proof (hm_set _ _ _ Hrep) as Hset.
  rewrite (proj2 (Z.ltb_ge _ _)) by lia. cbn [plan_next negb].
  rewrite length_wire_bytes, (rep_entries_length _ _ _ Hrep).
  unfold motr_obj_attr_nonhint_size, sizeof_int, sizeof_uint64. cbn [nonhint_fields length Nat.mul Nat.add].
  change (Z.to_nat (mhm_nr_set map)) with (nr_set_nat map).
  set (n := nr_set_nat map) in *. rewrite <- Hnr.
  rewrite u64_small by lia.
  replace (Z.of_nat 60 + Z.of_nat n * Z.of_nat 12) with (Z.of_nat (60 + 12 * n)) by lia.
  rewrite Nat2Z.id.
  replace (replicate (60 + 12 * n) 0) with
    ([] ++ replicate 56 0 ++ (replicate 4 0 ++ replicate (4 * n) 0 ++ replicate (8 * n) 0)).
  2:{ rewrite app_nil_l, <- !replicate_add. f_equal. lia. }
  change O with (length (@nil Z)) at 1.
  rewrite buf_put_app by (by rewrite length_nonhint_bytes, length_replicate).
  cbn [mbind outcome_bind app]. rewrite <- (length_nonhint_bytes (mo_attrs obj)) at 1.
  rewrite buf_put_app by (by rewrite length_native, length_replicate). cbn [mbind outcome_bind].
  rewrite (hm_keys_eq _ _ _ Hrep), (hm_values_eq _ _ _ Hrep).
  replace 60%nat with (length (nonhint_bytes (mo_attrs obj) ++ native 4 (Z.of_nat n)))
    by (by rewrite length_app, length_nonhint_bytes, length_native).
  rewrite (app_assoc (nonhint_bytes _)).
  rewrite (store_array_spec 4 (take n ks)) by (rewrite ?length_replicate; done || lia).
  cbn [mbind outcome_bind]. rewrite app_assoc.
  rewrite <- (app_nil_r (replicate (8 * n) 0)).
  replace (length (nonhint_bytes (mo_attrs obj) ++ native 4 (Z.of_nat n)) + 4 * n)%nat with
    (length ((nonhint_bytes (mo_attrs obj) ++ native 4 (Z.of_nat n)) ++ (take n ks ≫= native 4))).
  2:{ rewrite length_app, length_native_concat, length_take. lia. }
  rewrite (store_array_spec 8 (take n vs)) by (rewrite ?length_replicate; done || lia).
  cbn [mbind outcome_bind]. unfold wire_bytes.
  rewrite (rep_entries_keys _ _ _ Hrep), (rep_entries_snd _ _ _ Hrep), (rep_entries_length _ _ _ Hrep).
  rewrite app_nil_r, <- !app_assoc. done.
Qed.

(** Keys are C ints and values 64-bit unsigned. *)
Definition hints_in_range (l : list (Z * Z)) : Prop :=
  Forall (λ kv, (- 2 ^ 31 <= kv.1 < 2 ^ 31) ∧ 0 <= kv.2 < 2 ^ 64) l.

Lemma s32_native4 x : - 2 ^ 31 <= x < 2 ^ 31 → s32 (of_native (native 4 x)) = x.
Proof.
  intros Hx. assert (Hu : of_native (native 4 x) = x mod 2 ^ 32).
  { rewrite <- (of_native_native 4 (x mod 2 ^ 32)) by (apply Z.mod_pos_bound; lia).
    f_equal. unfold native. by rewrite (le_bytes_mod 4 x). }
  rewrite Hu. unfold s32. rewrite Zplus_mod_idemp_l. rewrite Z.mod_small; lia.
Qed.

Lemma buf_get_nonhint attrs rest : buf_get (nonhint_bytes attrs ++ rest) 0 56 = Done (nonhint_bytes attrs).
Proof.
  rewrite <- (buf_get_app [] (nonhint_bytes attrs) rest). by rewrite length_nonhint_bytes.
Qed.

Lemma buf_get_nr attrs x rest :
  buf_get (nonhint_bytes attrs ++ native sizeof_int x ++ rest) 56 sizeof_int = Done (native sizeof_int x).
Proof. rewrite <- (buf_get_native sizeof_int x (nonhint_bytes attrs) rest). by rewrite length_nonhint_bytes. Qed.

Lemma of_native4_nr n : Z.of_nat n < 2 ^ 31 → s32 (of_native (native sizeof_int (Z.of_nat n))) = Z.of_nat n.
Proof. intros. apply s32_native4. lia. Qed.

(** Reading [l] into a map with room for it makes [l] its entries. *)
Lemma loaded_map_wf map ks vs l :
  hint_map_rep map ks vs → mhm_nr_entries map = MIO_OBJ_HINT_NUM → l ≠ [] →
  Z.of_nat (length l) <= MIO_OBJ_HINT_NUM → NoDup l.*1 →
  let map' := MkHintMap (mhm_nr_entries map) (Z.of_nat (length l))
    (Arr (l.*1 ++ drop (length l) ks)) (Arr (l.*2 ++ drop (length l) vs)) in
  hint_map_wf map' ∧ hint_entries map' = l.
Proof.
  intros Hrep He Hl Hlen Hnd map'.
  pose proof (hm_keys_len _ _ _ Hrep). pose proof (hm_values_len _ _ _ Hrep).
  pose proof (hm_pos _ _ _ Hrep).
  assert (Hn : nr_set_nat map' = length l) by (unfold nr_set_nat; simpl; lia).
  assert (Hrep' : hint_map_rep map' (l.*1 ++ drop (length l) ks) (l.*2 ++ drop (length l) vs)).
  { split; try done; try (simpl; rewrite ?length_app, ?length_drop, ?length_fmap; lia).
    rewrite Hn, take_app_length' by by rewrite length_fmap. done. }
  split; [by eexists _, _|].
  rewrite (rep_entries _ _ _ Hrep'), Hn.
  rewrite zip_with_app by by rewrite !length_fmap.
  rewrite take_app_length' by (rewrite length_zip_with, !length_fmap; lia).
  by rewrite zip_fst_snd.
Qed.

(** Loading inside the bounds of both arrays returns. *)
Lemma load_array_total w dec buf pos a i n :
  (pos + w * n <= length buf)%nat → (i + n <= length a)%nat →
  ∃ a', load_array w dec buf pos (Arr a) i n = Done (Arr a', (pos + w * n)%nat) ∧
    length a' = length a.
Proof.
  revert pos a i. induction n as [|n IH]; intros pos a i Hp Hi.
  - exists a. simpl. split; [|done]. do 2 f_equal. lia.
  - cbn [load_array]. unfold buf_get. rewrite decide_True by lia. cbn [mbind outcome_bind].
    rewrite arr_set_Arr by lia. cbn [mbind outcome_bind].
    destruct (IH (pos + w)%nat (<[i:=dec (of_native (take w (drop pos buf)))]> a) (S i))
      as (a' & -> & Hl); [lia|rewrite length_insert; lia|].
    exists a'. rewrite length_insert in Hl. split; [|done]. do 2 f_equal. lia.
Qed.

Lemma load_array_at w dec l a pre post pos n :
  pos = length pre → n = length l → (length l <= length a)%nat →
  Forall (λ x, dec (of_native (native w x)) = x) l →
  load_array w dec (pre ++ (l ≫= native w) ++ post) pos (Arr a) 0 n =
    Done (Arr (l ++ drop n a), (pos + w * n)%nat).
Proof. intros -> -> Hlen Hl. by rewrite load_array_spec. Qed.

Lemma wire2mem_spec obj attrs l ks vs :
  attrs_ok attrs → hints_in_range l → NoDup l.*1 → Z.of_nat (length l) <= MIO_OBJ_HINT_NUM →
  hint_map_rep (mo_hints obj) ks vs → mhm_nr_entries (mo_hints obj) = MIO_OBJ_HINT_NUM →
  ∃ obj', motr_obj_attrs_wire2mem obj (Z.of_nat (length (wire_bytes attrs l))) (wire_bytes attrs l)
      = Done (0, obj') ∧
    moa_size (mo_attrs obj') = moa_size attrs ∧ moa_stats (mo_attrs obj') = moa_stats attrs ∧
    moa_phints (mo_attrs obj') = moa_phints (mo_attrs obj) ∧
    if decide (l = []) then mo_hints obj' = mo_hints obj
    else hint_map_wf (mo_hints obj') ∧ hint_entries (mo_hints obj') = l.
Proof.
  intros Hattrs Hl Hnd Hlen Hrep He. unfold motr_obj_attrs_wire2mem. cbv zeta.
  unfold motr_obj_attr_nonhint_size. cbn [nonhint_fields length].
  change (sizeof_uint64 * 7)%nat with 56%nat. change (0 + 56)%nat with 56%nat.
  rewrite length_wire_bytes. unfold wire_bytes.
  rewrite buf_get_nonhint. cbn [mbind outcome_bind].
  rewrite buf_get_nr. cbn [mbind outcome_bind].
  rewrite nonhint_roundtrip by done. unfold MIO_OBJ_HINT_NUM in *.
  rewrite of_native4_nr by lia.
  replace (Z.of_nat (length l) <? 0) with false by lia.
  replace (32 <? Z.of_nat (length l)) with false by lia. cbn [orb].
  case_decide as Hnil.
  { subst l. cbn [length Z.of_nat Z.eqb]. by eexists. }
  replace (Z.of_nat (length l) =? 0) with false by (destruct l; simpl; [done|lia]).
  unfold sizeof_int, sizeof_uint64.
  rewrite (proj2 (Z.eqb_eq (Z.of_nat (60 + 12 * length l)) _)) by lia. cbn [negb]. simpl mo_hints.
  rewrite (hm_keys_eq _ _ _ Hrep), (hm_values_eq _ _ _ Hrep), !Nat2Z.id.
  pose proof (hm_keys_len _ _ _ Hrep). pose proof (hm_values_len _ _ _ Hrep).
  rewrite app_assoc.
  rewrite (load_array_at 4 s32 l.*1 ks _ _ _ (length l)).
  2:{ by rewrite length_app, length_nonhint_bytes, length_native. }
  2:{ by rewrite length_fmap. }
  2:{ rewrite length_fmap. lia. }
  2:{ apply Forall_fmap. eapply Forall_impl; [exact Hl|]. intros [k v] [Hk _]. by apply s32_native4. }
  cbn [mbind outcome_bind]. rewrite app_assoc, <- (app_nil_r (l.*2 ≫= _)).
  rewrite (load_array_at 8 (λ x, x) l.*2 vs _ _ _ (length l)).
  2:{ rewrite !length_app, length_nonhint_bytes, length_native, length_native_concat, length_fmap. lia. }
  2:{ by rewrite length_fmap. }
  2:{ rewrite length_fmap. lia. }
  2:{ apply Forall_fmap. eapply Forall_impl; [exact Hl|]. intros [k v] [_ Hv]. simpl.
      apply of_native_native. simpl in *. lia. }
  cbn [mbind outcome_bind]. eexists. do 4 (split; [done|]).
  exact (loaded_map_wf (mo_hints obj) ks vs l Hrep He Hnil Hlen Hnd).
Qed.

(** Attributes survive storing and loading.  For an object whose
    persistent hints are well formed and another whose hint table has the
    default capacity, [motr_obj_attrs_mem2wire] succeeds without writing outside
    the buffer it allocates, and [motr_obj_attrs_wire2mem] on the result
    restores the size and the statistics and makes the stored hints, in order,
    the hints of the object; when none are stored the old hints stay. *)
Theorem motr_obj_attrs_roundtrip (obj obj' : mio_obj)
  (Hattrs : attrs_ok (mo_attrs obj)) (Hph : hint_map_wf (moa_phints (mo_attrs obj)))
  (Hrange : hints_in_range (hint_entries (moa_phints (mo_attrs obj))))
  (Hn : mhm_nr_set (moa_phints (mo_attrs obj)) <= MIO_OBJ_HINT_NUM)
  (Hhints : hint_map_wf (mo_hints obj')) (Hcap : mhm_nr_entries (mo_hints obj') = MIO_OBJ_HINT_NUM) :
  let l := hint_entries (moa_phints (mo_attrs obj)) in
  ∃ buf obj'',
    motr_obj_attrs_mem2wire obj [] = Done (0, Some (Z.of_nat (length buf), buf), []) ∧
    motr_obj_attrs_wire2mem obj' (Z.of_nat (length buf)) buf = Done (0, obj'') ∧
    moa_size (mo_attrs obj'') = moa_size (mo_attrs obj) ∧
    moa_stats (mo_attrs obj'') = moa_stats (mo_attrs obj) ∧
    if decide (l = []) then mo_hints obj'' = mo_hints obj'
    else hint_map_wf (mo_hints obj'') ∧ hint_entries (mo_hints obj'') = l.
Proof.
  intros l. pose proof Hph as (pk & pv & Hrep). destruct Hhints as (ks & vs & Hrep').
  assert (Hlen : Z.of_nat (length l) <= MIO_OBJ_HINT_NUM).
  { unfold l. rewrite (rep_entries_length _ _ _ Hrep), (rep_nr_set _ _ _ Hrep). done. }
  destruct (wire2mem_spec obj' (mo_attrs obj) l ks vs) as (obj'' & Hw & Hs & Hst & _ & Hl); auto.
  { by apply (rep_entries_nodup _ _ _ Hrep). }
  exists (wire_bytes (mo_attrs obj) l), obj''. split_and!; auto.
  exact (mem2wire_spec obj [] Hph Hn).
Qed.

(** Loading from any buffer of at least 60 bytes returns.  It fails with
    -EIO exactly when the stored number of hints is negative or above
    MIO_OBJ_HINT_NUM, or the size is not the one that number implies; the size
    and the statistics have been overwritten even then, and in the second case
    the number of hints in use as well. *)
Theorem motr_obj_attrs_wire2mem_total (obj : mio_obj) (buf : list Z)
  (Hlen : (60 <= length buf)%nat) (Hsize : Z.of_nat (length buf) < 2 ^ 31)
  (Hhints : hint_map_wf (mo_hints obj)) (Hcap : mhm_nr_entries (mo_hints obj) = MIO_OBJ_HINT_NUM) :
  let nr := s32 (of_native (take sizeof_int (drop 56 buf))) in
  ∃ rc obj', motr_obj_attrs_wire2mem obj (Z.of_nat (length buf)) buf = Done (rc, obj') ∧
    mo_attrs obj' = nonhint_of_bytes (take 56 buf) (mo_attrs obj) ∧
    if (nr <? 0) || (MIO_OBJ_HINT_NUM <? nr) then rc = - EIO ∧ mo_hints obj' = mo_hints obj
    else if nr =? 0 then rc = 0 ∧ mo_hints obj' = mo_hints obj
    else mhm_nr_set (mo_hints obj') = nr ∧
      if Z.of_nat (length buf) =? 60 + 12 * nr then rc = 0
      else rc = - EIO ∧ mhm_keys (mo_hints obj') = mhm_keys (mo_hints obj).
Proof.
  intros nr. destruct Hhints as (ks & vs & Hrep).
  unfold motr_obj_attrs_wire2mem. cbv zeta. unfold motr_obj_attr_nonhint_size.
  cbn [nonhint_fields length]. change (sizeof_uint64 * 7)%nat with 56%nat.
  unfold buf_get at 1 2. rewrite !decide_True by (unfold sizeof_int; lia). cbn [mbind outcome_bind].
  rewrite drop_0. change (0 + 56)%nat with 56%nat. fold nr.
  destruct ((nr <? 0) || (MIO_OBJ_HINT_NUM <? nr)) eqn:Er; [by eexists _, _|].
  destruct (Z.eqb_spec nr 0) as [|Hnz]; [by eexists _, _|].
  unfold MIO_OBJ_HINT_NUM in *. unfold sizeof_int at 1 2, sizeof_uint64 at 1.
  replace (Z.of_nat (56 + 4) + nr * Z.of_nat (4 + 8)) with (60 + 12 * nr) by lia.
  destruct (Z.eqb_spec (Z.of_nat (length buf)) (60 + 12 * nr)) as [Heq|Hne]; cbn [negb];
    [|by eexists _, _].
  pose proof (hm_keys_len _ _ _ Hrep) as Hkl. pose proof (hm_values_len _ _ _ Hrep) as Hvl.
  simpl mo_hints. rewrite (hm_keys_eq _ _ _ Hrep), (hm_values_eq _ _ _ Hrep).
  change (56 + sizeof_int)%nat with 60%nat. cbn [mhm_keys mhm_values].
  destruct (load_array_total sizeof_int s32 buf 60 ks 0 (Z.to_nat nr)) as (ks' & -> & _);
    [unfold sizeof_int; lia|lia|]. cbn [mbind outcome_bind].
  destruct (load_array_total sizeof_uint64 (λ x, x) buf (60 + sizeof_int * Z.to_nat nr) vs 0 (Z.to_nat nr))
    as (vs' & -> & _); [unfold sizeof_int, sizeof_uint64; lia|lia|]. cbn [mbind outcome_bind].
  by eexists _, _.
Qed.
End Wire.

Definition ex_wire_obj : mio_obj :=
  MkObj (MkObjId []) 0 hint_map_zero false
    (MkAttrs 4096 (MkStats 1 2 3 4 5 6) (MkHintMap 3 2 (Arr [0; 2; -1]) (Arr [7; 9; 0]))) None.
Definition ex_wire_to : mio_obj :=
  MkObj (MkObjId []) 0 (MkHintMap 32 0 (Arr (replicate 32 (-1))) (Arr (replicate 32 0))) false
    attrs_zero None.

Lemma ex_wire_obj_wf : hint_map_wf (moa_phints (mo_attrs ex_wire_obj)).
Proof.
  exists [0; 2; -1], [7; 9; 0]. split; simpl; try done; try lia.
  apply (bool_decide_unpack _). by vm_compute.
Qed.

Lemma ex_wire_to_wf : hint_map_wf (mo_hints ex_wire_to).
Proof.
  exists (replicate 32 (-1)), (replicate 32 0). split; simpl; try done; try lia. constructor.
Qed.

Lemma motr_obj_attrs_roundtrip_witness :
  let _ : HostOrder := false in
  hint_map_wf (mo_hints ex_wire_to) ∧
  ∃ buf obj'', motr_obj_attrs_mem2wire ex_wire_obj [] = Done (0, Some (Z.of_nat (length buf), buf), []) ∧
    motr_obj_attrs_wire2mem ex_wire_to (Z.of_nat (length buf)) buf = Done (0, obj'') ∧
    moa_size (mo_attrs obj'') = 4096 ∧ hint_entries (mo_hints obj'') = [(0, 7); (2, 9)].
Proof.
  intros host. split; [exact ex_wire_to_wf|].
  destruct (motr_obj_attrs_roundtrip ex_wire_obj ex_wire_to) as (buf & obj'' & H1 & H2 & H3 & _ & _ & H5).
  - repeat constructor; vm_compute; congruence.
  - exact ex_wire_obj_wf.
  - repeat constructor; vm_compute; congruence.
  - vm_compute. congruence.
  - exact ex_wire_to_wf.
  - reflexivity.
  - exists buf, obj''. exact (conj H1 (conj H2 (conj H3 H5))).
Defined.

Lemma motr_obj_attrs_wire2mem_total_witness :
  let _ : HostOrder := false in
  hint_map_wf (mo_hints ex_wire_to) ∧
  ∃ rc obj', motr_obj_attrs_wire2mem ex_wire_to 60 (replicate 56 0 ++ [2; 0; 0; 0]) = Done (rc, obj') ∧
    mhm_nr_set (mo_hints obj') = 2 ∧ rc = - EIO.
Proof.
  intros host. split; [exact ex_wire_to_wf|].
  destruct (motr_obj_attrs_wire2mem_total ex_wire_to (replicate 56 0 ++ [2; 0; 0; 0]))
    as (rc & obj' & H1 & _ & H2).
  - vm_compute. lia.
  - vm_compute. congruence.
  - exact ex_wire_to_wf.
  - reflexivity.
  - exists rc, obj'. destruct H2 as [H2 [H3 _]]. exact (conj H1 (conj H2 H3)).
Defined.
