(* ===== verification/Pools.v ===== *)
(** * Pools (src/mio.c, lines 268-369 and 718-844; src/driver_motr.c, lines 401-462)

    The table of configured pools, the information the driver adds to a pool
    (its optimal block sizes), and the pool that [mio_obj_create] chooses from
    the hints of an object or the configured default. *)

From S2P Require Import Prelude ObjId HintMap Types Hints.
Open Scope Z_scope.

Definition MIO_POOL_TYPE_NVM : Z := 0.
Definition MIO_POOL_TYPE_SSD : Z := 1.
Definition MIO_POOL_TYPE_HDD : Z := 2.

(** [struct mio_pool]; the two arrays are the lists of their elements. *)
Record mio_pool := MkPool {
  mp_name : list Z;            (* MIO_POOL_MAX_NAME_LEN + 1 bytes *)
  mp_id : mio_pool_id;
  mp_type : Z;
  mp_capacity : Z;
  mp_opt_alignment : Z;
  mp_nr_opt_blksizes : Z;
  mp_opt_blksizes : list Z     (* MIO_POOL_MAX_NR_OPT_BLKSIZES sizes *)
}.

(** [struct mio_pools]; [mps_pools] is the array, or NULL. *)
Record mio_pools := MkPools {
  mps_default_pool_idx : Z;
  mps_default_pool_name : list Z;
  mps_nr_pools : Z;
  mps_pools : option (list mio_pool)
}.

(** [mps_pools + i], read. *)
Definition pool_at (pools : mio_pools) (i : Z) : outcome mio_pool :=
  match mps_pools pools with
  | None => Fault NullDeref
  | Some l =>
      if i <? 0 then Fault OutOfBounds
      else match l !! Z.to_nat i with Some p => Done p | None => Fault OutOfBounds end
  end.

Definition pool_put (i : Z) (p : mio_pool) (pools : mio_pools) : mio_pools :=
  MkPools (mps_default_pool_idx pools) (mps_default_pool_name pools) (mps_nr_pools pools)
    (<[Z.to_nat i := p]> <$> mps_pools pools).

(** ** Block sizes (driver_motr.c) *)
Section MotrPool.

(** m0_pool_version_get() on the pool's fid, and the unit size of the client's
    layout. *)
Context (m0_pool_version_get : m0_fid → Z * m0_pool_version).
Context (unit_size : Z).

(** The largest block and the step between blocks, from the unit size and the
    layout (N, K, P); the types are unsigned long and uint32_t. *)
Definition motr_max_blksize (pa : m0_pdclust_attr) : outcome (Z * Z) :=
  let grp_size := u64 (unit_size * pa_N pa) in
  let width := u32 (pa_N pa + u32 (2 * pa_K pa)) in
  if width =? 0 then Fault DivByZero else
  let max_blksize := u64 (u64 (u64 (unit_size * 2) * pa_P pa) * pa_N pa) / width in
  if grp_size =? 0 then Fault DivByZero else
  Done (grp_size, u64 (u64 (max_blksize + grp_size - 1) / grp_size * grp_size)).

Definition motr_blksize_incr (grp_size max_blksize : Z) : outcome Z :=
  let nr_opt_blksizes :=
    s32 (if MIO_POOL_MAX_NR_OPT_BLKSIZES <? max_blksize / grp_size
         then MIO_POOL_MAX_NR_OPT_BLKSIZES else max_blksize / grp_size) in
  if u64 nr_opt_blksizes =? 0 then Fault DivByZero else
  let incr := max_blksize / u64 nr_opt_blksizes in
  Done (u64 (u64 (incr + grp_size - 1) / grp_size * grp_size)).

(** The for loop; the result is the array and the final index. *)
Fixpoint blksize_loop (fuel : nat) (i blksize incr max_blksize : Z) (sizes : list Z)
  : outcome (list Z * Z) :=
  match fuel with
  | O => Fault NoTermination
  | S fuel' =>
      if blksize <? max_blksize then
        if Z.of_nat (length sizes) <=? i then Fault OutOfBounds else
        blksize_loop fuel' (i + 1) (u64 (blksize + incr)) incr max_blksize
          (<[Z.to_nat i := blksize]> sizes)
      else Done (sizes, i)
  end.

(** The array is full after this many iterations. *)
Definition blksize_fuel : nat := S (Z.to_nat MIO_POOL_MAX_NR_OPT_BLKSIZES).

(** [mio_motr_pool_get]. *)
Definition mio_motr_pool_get (pool_id : option mio_pool_id) (pool : option mio_pool)
  : outcome (Z * option mio_pool) :=
  match pool_id, pool with
  | Some id, Some pool =>
      let '(rc, pver) := m0_pool_version_get (mio__motr_pool_id_to_fid id) in
      if negb (rc =? 0) then Done (rc, Some pool) else
      '(grp_size, max_blksize) ← motr_max_blksize (pv_attr pver);
      incr ← motr_blksize_incr grp_size max_blksize;
      '(sizes, i) ← blksize_loop blksize_fuel 0 incr incr max_blksize (mp_opt_blksizes pool);
      Done (0, Some (MkPool (mp_name pool) (mp_id pool) (mp_type pool) (mp_capacity pool)
                       4096 i sizes))
  | _, _ => Done (- EINVAL, pool)
  end.
End MotrPool.

(** ** Lookup (mio.c) *)

(** The loop of [mio_pool_lookup] over [n] pools from [i] on. *)
Fixpoint pool_lookup_loop (pools : mio_pools) (id : mio_pool_id) (i : Z) (n : nat) : outcome Z :=
  match n with
  | O => Done i
  | S n' =>
      pool ← pool_at pools i;
      if (mpi_hi (mp_id pool) =? mpi_hi id) && (mpi_lo (mp_id pool) =? mpi_lo id) then Done i
      else pool_lookup_loop pools id (i + 1) n'
  end.

(** [mio_pool_lookup]: the index of the pool, or None for NULL. *)
Definition mio_pool_lookup (pools : mio_pools) (id : mio_pool_id) : outcome (option Z) :=
  i ← pool_lookup_loop pools id 0 (Z.to_nat (mps_nr_pools pools));
  if i =? mps_nr_pools pools then Done None else Done (Some i).

(** The driver's mpo_get; [W] is its world. *)
Section Get.
Context {W : Type}.
Context (mpo_get : mio_pool_id → mio_pool → W → outcome (Z * mio_pool * W)).

(** [mio_pool_get]: the result is the return code and *pool ([out_null] when
    the argument is NULL); the table is updated in place. *)
Definition mio_pool_get (pool_id : option mio_pool_id) (out_null : bool) (instance_rc : Z)
    (pools : mio_pools) (p : mplan) (w : W)
  : outcome (Z * option mio_pool * mio_pools * mplan * W) :=
  match pool_id with
  | None => Done (- EINVAL, None, pools, p, w)
  | Some id =>
      if out_null then Done (- EINVAL, None, pools, p, w) else
      if instance_rc <? 0 then Done (instance_rc, None, pools, p, w) else
      found ← mio_pool_lookup pools id;
      match found with
      | None => Done (- EINVAL, None, pools, p, w)
      | Some i =>
          let '(ok, p) := plan_next p in
          if negb ok then Done (- ENOMEM, None, pools, p, w) else
          pool ← pool_at pools i;
          '(rc, pool, w) ← mpo_get id pool w;
          let pools := pool_put i pool pools in
          if negb (rc =? 0) then Done (rc, None, pools, p, w)
          else Done (0, Some pool, pools, p, w)
      end
  end.

(** The loop of [mio_pool_get_all]; [rc] is the driver's last result and [out]
    the pools copied so far. *)
Fixpoint get_all_loop (pools : mio_pools) (i : Z) (n : nat) (rc : Z) (out : list mio_pool) (w : W)
  : outcome (Z * list mio_pool * mio_pools * W) :=
  match n with
  | O => Done (rc, out, pools, w)
  | S n' =>
      pool ← pool_at pools i;
      '(rc, pool, w) ← mpo_get (mp_id pool) pool w;
      let pools := pool_put i pool pools in
      if rc <? 0 then Done (rc, out, pools, w)
      else get_all_loop pools (i + 1) n' rc (out ++ [pool]) w
  end.

(** [mio_pool_get_all]: *pools is left alone ([None]) by the early returns, NULL
    after a failure ([Some None]), and the copies after success. *)
Definition mio_pool_get_all (out_null : bool) (instance_rc : Z) (pools : mio_pools) (p : mplan) (w : W)
  : outcome (Z * option (option (list mio_pool)) * mio_pools * mplan * W) :=
  if out_null then Done (- EINVAL, None, pools, p, w) else
  if instance_rc <? 0 then Done (instance_rc, None, pools, p, w) else
  let '(ok1, p) := plan_next p in
  if negb ok1 then Done (- ENOMEM, None, pools, p, w) else
  let '(ok2, p) := plan_next p in
  if negb ok2 then Done (- ENOMEM, None, pools, p, w) else
  '(rc, out, pools, w) ← get_all_loop pools 0 (Z.to_nat (mps_nr_pools pools)) 0 [] w;
  if rc <? 0 then Done (rc, Some None, pools, p, w) else Done (rc, Some (Some out), pools, p, w).
End Get.

(** ** Selection by hints *)

(** [obj_pool_select_by_perf_hint]; the second result is *which. *)
Definition obj_pool_select_by_perf_hint (nr_pools : Z) (hints : option mio_hint_map) (which : Z)
  : outcome (Z * Z) :=
  let gold_pool_idx := 0 in
  let silver_pool_idx := if nr_pools <=? 1 then gold_pool_idx else 1 in
  let bronze_pool_idx := if nr_pools <=? 2 then silver_pool_idx else 2 in
  '(_, hint_value) ← mio_hint_lookup hints MIO_HINT_OBJ_WHERE None;
  match hint_value with
  | None => Fault UninitRead
  | Some v =>
      if v =? MIO_POOL_GOLD then Done (0, gold_pool_idx)
      else if v =? MIO_POOL_SILVER then Done (0, silver_pool_idx)
      else if v =? MIO_POOL_BRONZE then Done (0, bronze_pool_idx)
      else Done (- EINVAL, which)
  end.

(** [obj_pool_select_by_hotness]. *)
Definition obj_pool_select_by_hotness (sys_hints : mio_hint_map) (nr_pools : Z)
    (hints : option mio_hint_map) (which : Z) : outcome (Z * Z) :=
  '(rc, hotness) ← mio_hint_lookup hints MIO_HINT_OBJ_HOT_INDEX None;
  if rc <? 0 then Done (rc, which) else
  match hotness with
  | None => Fault UninitRead
  | Some hotness =>
      idx ← mio_obj_hotness_to_pool_idx sys_hints nr_pools hotness;
      Done (0, idx)
  end.

(** [obj_pool_select]. *)
Definition obj_pool_select (sys_hints : mio_hint_map) (nr_pools : Z)
    (hints : option mio_hint_map) (which : Z) : outcome (Z * Z) :=
  if nr_pools <=? 0 then Done (- EINVAL, which) else
  where_set ← mio_hint_is_set hints MIO_HINT_OBJ_WHERE;
  if where_set : bool then obj_pool_select_by_perf_hint nr_pools hints which else
  hot_set ← mio_hint_is_set hints MIO_HINT_OBJ_HOT_INDEX;
  if hot_set : bool then obj_pool_select_by_hotness sys_hints nr_pools hints which
  else Done (- EINVAL, which).

(** The first part of [mio_obj_create]: selected_pool_id.  [has_default] is
    mio_conf_default_pool_has_set(). *)
Definition create_pool_id (sys_hints : mio_hint_map) (pools : mio_pools) (has_default : bool)
    (pool_id : option mio_pool_id) (hints : option mio_hint_map) : outcome (option mio_pool_id) :=
  match pool_id with
  | Some id => Done (Some id)
  | None =>
      selected ←
        match hints with
        | None => Done None
        | Some _ =>
            '(rc, idx) ← obj_pool_select sys_hints (mps_nr_pools pools) hints 0;
            if rc =? 0 then pool ← pool_at pools idx; Done (Some (mp_id pool)) else Done None
        end;
      match selected with
      | Some id => Done (Some id)
      | None =>
          if has_default then
            pool ← pool_at pools (mps_default_pool_idx pools); Done (Some (mp_id pool))
          else Done None
      end
  end.

(** ** Block sizes: lemmas *)

(** [x] rounded up to a multiple of [g]. *)
Definition round_up (g x : Z) : Z := (x + g - 1) / g * g.

Lemma round_up_bounds g x : 0 < g → x <= round_up g x < x + g.
Proof.
  intros Hg. unfold round_up. pose proof (div_mod_eq (x + g - 1) g Hg).
  pose proof (mod_bound (x + g - 1) g Hg). lia.
Qed.

Lemma round_up_mult g x : ∃ k, round_up g x = g * k.
Proof. exists ((x + g - 1) / g). unfold round_up. lia. Qed.

(** Sixteen steps reach the end: a step is a sixteenth of the end, rounded up
    to the group size. *)
Lemma incr_covers g k :
  16 <= g → 16 < k → g * k <= 16 * round_up g (g * k / 16).
Proof.
  intros Hg Hk. destruct (round_up_mult g (g * k / 16)) as [m Hm].
  pose proof (round_up_bounds g (g * k / 16)) as Hr.
  pose proof (div_mod_eq (g * k) 16). pose proof (mod_bound (g * k) 16).
  rewrite Hm in *. assert (g * (k - 1) < g * (16 * m)) by lia.
  assert (k - 1 < 16 * m) by nia. nia.
Qed.

(** The sizes incr, 2 incr, ... below the maximum, in an array of enough
    room, with the elements before them kept. *)
Lemma blksize_loop_spec fuel i incr max sizes :
  0 < incr → 0 <= i <= Z.of_nat (length sizes) → max + incr < 2 ^ 64 →
  max <= (Z.of_nat (length sizes) + 1) * incr →
  Z.of_nat (length sizes) + 1 - i <= Z.of_nat fuel →
  ∃ sizes' n, blksize_loop fuel i ((i + 1) * incr) incr max sizes = Done (sizes', n) ∧
    i <= n <= Z.of_nat (length sizes) ∧ length sizes' = length sizes ∧ max <= (n + 1) * incr ∧
    (∀ j, 0 <= j < i → sizes' !! Z.to_nat j = sizes !! Z.to_nat j) ∧
    ∀ j, i <= j < n → sizes' !! Z.to_nat j = Some ((j + 1) * incr) ∧ (j + 1) * incr < max.
Proof.
  intros Hincr. revert i sizes. induction fuel as [|fuel IH]; intros i sizes Hi Hmax Hroom Hf; [lia|].
  cbn [blksize_loop]. destruct (Z.ltb_spec ((i + 1) * incr) max) as [Hm|Hm].
  - assert (Hi' : i < Z.of_nat (length sizes)) by nia.
    rewrite (proj2 (Z.leb_gt _ _)) by lia.
    rewrite u64_small by lia. replace ((i + 1) * incr + incr) with ((i + 1 + 1) * incr) by lia.
    destruct (IH (i + 1) (<[Z.to_nat i := (i + 1) * incr]> sizes))
      as (sizes' & n & -> & Hn & Hl & Hme & Hold & Hnew); rewrite ?length_insert in *; try lia.
    exists sizes', n. split_and!; try done; try lia.
    + intros j Hj. rewrite Hold by lia. apply list_lookup_insert_ne. lia.
    + intros j Hj. destruct (decide (j = i)) as [->|Hne]; [|apply Hnew; lia].
      split; [|done]. rewrite Hold by lia. apply list_lookup_insert_eq. lia.
  - exists sizes, i. split_and!; try done; lia.
Qed.

(** The layout is a legal one and the products stay below 2^63. *)
Definition layout_ok (unit_size : Z) (pa : m0_pdclust_attr) : Prop :=
  16 <= unit_size ∧ 1 <= pa_N pa ∧ 0 <= pa_K pa ∧ pa_N pa + 2 * pa_K pa <= pa_P pa ∧
  pa_P pa < 2 ^ 32 ∧ unit_size * 2 * pa_P pa * pa_N pa < 2 ^ 62.

Section BlockSizes.
Context (unit_size : Z) (pa : m0_pdclust_attr) (Hok : layout_ok unit_size pa).
Let grp : Z := unit_size * pa_N pa.
Let max : Z := round_up grp (unit_size * 2 * pa_P pa * pa_N pa / (pa_N pa + 2 * pa_K pa)).

Lemma motr_max_blksize_spec :
  motr_max_blksize unit_size pa = Done (grp, max) ∧ 16 <= grp ∧ (∃ g, 2 <= g ∧ max = grp * g) ∧
  max < 2 ^ 63.
Proof.
  destruct Hok as (Hu & HN & HK & HP & HP32 & Hprod).
  assert (Hgrp : 16 <= grp) by (unfold grp; nia).
  set (w := pa_N pa + 2 * pa_K pa) in *. set (prod := unit_size * 2 * pa_P pa * pa_N pa) in *.
  assert (Hlow : 2 * grp <= prod / w).
  { apply Z.div_le_lower_bound; [lia|]. unfold prod, grp. nia. }
  assert (Hpos : 0 <= prod) by (unfold prod; repeat apply Z.mul_nonneg_nonneg; lia).
  assert (Hhigh : prod / w <= prod) by (apply Z.div_le_upper_bound; [lia|clear Hlow; clearbody prod; nia]).
  assert (Hprodg : 2 * grp <= prod) by lia.
  pose proof (round_up_bounds grp (prod / w)) as Hr. fold max in Hr.
  assert (Hsmall : unit_size * 2 * pa_P pa <= prod) by (unfold prod; nia).
  assert (unit_size * 2 <= prod) by nia.
  split; [|split; [done|split]].
  - unfold motr_max_blksize.
    rewrite (u64_small (unit_size * pa_N pa)) by (fold grp; lia). fold grp.
    rewrite (u32_small (2 * pa_K pa)), (u32_small (pa_N pa + _)) by lia. fold w.
    rewrite (u64_small (unit_size * 2)), (u64_small (_ * pa_P pa)), (u64_small (_ * pa_N pa))
      by (fold prod; lia). fold prod.
    rewrite !(proj2 (Z.eqb_neq _ _)) by lia. rewrite (u64_small (_ + grp - 1)) by lia.
    change ((prod / w + grp - 1) / grp * grp) with max. by rewrite u64_small by lia.
  - destruct (round_up_mult grp (prod / w)) as [g Hg]. fold max in Hg. exists g. split; [nia|done].
  - lia.
Qed.

Lemma motr_blksize_incr_spec :
  ∃ incr k, motr_blksize_incr grp max = Done incr ∧ incr = grp * k ∧ 0 < incr < max ∧
    max <= 16 * incr.
Proof.
  destruct motr_max_blksize_spec as (_ & Hgrp & (g & Hg & Hmax) & Hlt).
  unfold motr_blksize_incr, MIO_POOL_MAX_NR_OPT_BLKSIZES. rewrite Hmax.
  rewrite (Z.mul_comm grp g), Z.div_mul by lia. rewrite (Z.mul_comm g grp).
  destruct (Z.ltb_spec 16 g) as [Hbig|Hsmall].
  - rewrite s32_small, u64_small by lia. cbn [Z.eqb].
    pose proof (round_up_bounds grp (grp * g / 16)) as Hr.
    destruct (round_up_mult grp (grp * g / 16)) as [k Hk].
    pose proof (incr_covers grp g Hgrp Hbig) as Hcov.
    pose proof (div_mod_eq (grp * g) 16). pose proof (mod_bound (grp * g) 16).
    rewrite (u64_small (_ + grp - 1)) by nia. change ((grp * g / 16 + grp - 1) / grp * grp) with
      (round_up grp (grp * g / 16)). rewrite u64_small by nia.
    exists (round_up grp (grp * g / 16)), k. split_and!; try done; nia.
  - rewrite s32_small, u64_small by lia. rewrite (proj2 (Z.eqb_neq _ _)) by lia.
    rewrite Z.div_mul by lia.
    assert (Hru : round_up grp grp = grp).
    { pose proof (round_up_bounds grp grp). destruct (round_up_mult grp grp) as [k Hk].
      rewrite Hk in *. assert (1 <= k) by nia. assert (k < 2) by nia. replace k with 1 by lia. lia. }
    rewrite (u64_small (grp + grp - 1)) by nia. change ((grp + grp - 1) / grp * grp) with (round_up grp grp).
    rewrite Hru, u64_small by nia. exists grp, 1. split_and!; try done; nia.
Qed.
End BlockSizes.

(** The block sizes [mio_motr_pool_get] reports for a legal layout: equally
    spaced multiples of the parity-group size, at least one and at most fifteen
    of them, all below twice the width of the pool (rounded up to a group); the
    array is never overrun and the pool keeps its identity. *)
Theorem mio_motr_pool_get_blksizes (m0_pool_version_get : m0_fid → Z * m0_pool_version)
    (unit_size : Z) (id : mio_pool_id) (pool : mio_pool) (pver : m0_pool_version)
  (Hget : m0_pool_version_get (mio__motr_pool_id_to_fid id) = (0, pver))
  (Hok : layout_ok unit_size (pv_attr pver))
  (Hlen : Z.of_nat (length (mp_opt_blksizes pool)) = MIO_POOL_MAX_NR_OPT_BLKSIZES) :
  let grp := unit_size * pa_N (pv_attr pver) in
  let max := round_up grp (unit_size * 2 * pa_P (pv_attr pver) * pa_N (pv_attr pver) /
                           (pa_N (pv_attr pver) + 2 * pa_K (pv_attr pver))) in
  ∃ sizes n k,
    mio_motr_pool_get m0_pool_version_get unit_size (Some id) (Some pool) =
      Done (0, Some (MkPool (mp_name pool) (mp_id pool) (mp_type pool) (mp_capacity pool) 4096 n sizes)) ∧
    length sizes = length (mp_opt_blksizes pool) ∧ 1 <= n <= 15 ∧ 1 <= k ∧
    (∀ j, 0 <= j < n → sizes !! Z.to_nat j = Some ((j + 1) * (grp * k)) ∧ (j + 1) * (grp * k) < max) ∧
    max <= (n + 1) * (grp * k).
Proof.
  intros grp max. unfold MIO_POOL_MAX_NR_OPT_BLKSIZES in Hlen.
  destruct (motr_max_blksize_spec _ _ Hok) as (Hmb & Hgrp & _ & Hlt).
  destruct (motr_blksize_incr_spec _ _ Hok) as (incr & k & Hincr & Hk & Hpos & Hcov).
  fold grp in Hmb, Hgrp, Hincr, Hk, Hlt, Hpos, Hcov. fold max in Hmb, Hincr, Hlt, Hpos, Hcov.
  unfold mio_motr_pool_get. rewrite Hget. cbn [Z.eqb negb]. rewrite Hmb. cbn [mbind outcome_bind].
  rewrite Hincr. cbn [mbind outcome_bind].
  destruct (blksize_loop_spec blksize_fuel 0 incr max (mp_opt_blksizes pool))
    as (sizes & n & Hloop & Hn & Hl & Hend & _ & Hnew);
    assert (Hfuel : Z.of_nat blksize_fuel = 17) by done; try lia.
  replace ((0 + 1) * incr) with incr in Hloop by lia. rewrite Hloop. cbn [mbind outcome_bind].
  clearbody grp max. assert (1 <= k) by (clear - Hk Hpos Hgrp; nia).
  assert (1 <= n) by (clear - Hend Hpos; nia).
  assert (n <= 15).
  { destruct (decide (n = 16)) as [->|]; [|lia]. destruct (Hnew 15) as [_ ?]; lia. }
  exists sizes, n, k. rewrite <- Hk. by split_and!.
Qed.

Lemma mio_motr_pool_get_blksizes_witness :
  layout_ok 1048576 (MkPdclust 4 2 8) ∧
  ∃ sizes n k,
    mio_motr_pool_get (λ _, (0, MkPver (MkPdclust 4 2 8) (MkFid 0 0))) 1048576 (Some (MkPoolId 1 2))
      (Some (MkPool [] (MkPoolId 1 2) 0 0 0 0 (replicate 16 0))) =
    Done (0, Some (MkPool [] (MkPoolId 1 2) 0 0 4096 n sizes)) ∧ 1 <= n <= 15 ∧
    sizes !! 0%nat = Some (1048576 * 4 * k).
Proof.
  assert (Hok : layout_ok 1048576 (MkPdclust 4 2 8)) by (unfold layout_ok; simpl; lia).
  split; [exact Hok|].
  destruct (mio_motr_pool_get_blksizes (λ _, (0, MkPver (MkPdclust 4 2 8) (MkFid 0 0))) 1048576
    (MkPoolId 1 2) (MkPool [] (MkPoolId 1 2) 0 0 0 0 (replicate 16 0))
    (MkPver (MkPdclust 4 2 8) (MkFid 0 0)) eq_refl Hok eq_refl)
    as (sizes & n & k & Heq & _ & Hn & _ & Hs & _).
  exists sizes, n, k. split; [exact Heq|]. split; [exact Hn|].
  destruct (Hs 0) as [H0 _]; [lia|]. rewrite <- (Z.mul_1_l (1048576 * 4 * k)). exact H0.
Defined.

(** ** The table of pools *)

(** The array has an element for each configured pool. *)
Definition pools_ok (pools : mio_pools) (l : list mio_pool) : Prop :=
  mps_pools pools = Some l ∧ 0 <= mps_nr_pools pools <= Z.of_nat (length l).

(** The configured pools. *)
Definition pool_list (pools : mio_pools) : list mio_pool :=
  take (Z.to_nat (mps_nr_pools pools)) (default [] (mps_pools pools)).

Lemma pool_at_ok pools l i p :
  mps_pools pools = Some l → 0 <= i → l !! Z.to_nat i = Some p → pool_at pools i = Done p.
Proof.
  intros Hl Hi Hp. unfold pool_at. rewrite Hl, (proj2 (Z.ltb_ge _ _)) by done. by rewrite Hp.
Qed.

Lemma pool_list_lookup pools l i p :
  pools_ok pools l → 0 <= i →
  pool_list pools !! Z.to_nat i = Some p ↔ i < mps_nr_pools pools ∧ l !! Z.to_nat i = Some p.
Proof.
  intros [Hl Hn] Hi. unfold pool_list. rewrite Hl. simpl. rewrite lookup_take_Some. split.
  - intros [? ?]. split; [lia|done].
  - intros [? ?]. split; [done|lia].
Qed.

Lemma pool_at_lt pools l i :
  pools_ok pools l → 0 <= i < mps_nr_pools pools →
  ∃ p, pool_at pools i = Done p ∧ pool_list pools !! Z.to_nat i = Some p.
Proof.
  intros Hok Hi. pose proof Hok as [Hl Hn].
  destruct (lookup_lt_is_Some_2 l (Z.to_nat i)) as [p Hp]; [lia|].
  exists p. split; [eapply pool_at_ok; eauto; lia|]. apply (pool_list_lookup _ _ _ _ Hok); [lia|].
  split; [lia|done].
Qed.

(** The first pool with the id. *)
Lemma pool_lookup_loop_spec pools l id i n :
  pools_ok pools l → 0 <= i → i + Z.of_nat n = mps_nr_pools pools →
  ∃ j, pool_lookup_loop pools id i n = Done j ∧ i <= j <= mps_nr_pools pools ∧
    (j < mps_nr_pools pools → ∃ p, pool_list pools !! Z.to_nat j = Some p ∧ mp_id p = id) ∧
    ∀ k p, i <= k < j → pool_list pools !! Z.to_nat k = Some p → mp_id p ≠ id.
Proof.
  intros Hok. revert i; induction n as [|n IH]; intros i Hi Hn; simpl.
  { exists i. split_and!; try done; lia. }
  destruct (pool_at_lt pools l i Hok) as (p & -> & Hp); [lia|]. simpl.
  destruct (_ && _) eqn:E.
  - apply andb_true_iff in E as [?%Z.eqb_eq ?%Z.eqb_eq]. exists i.
    split_and!; try done; try lia. intros _. exists p. split; [done|].
    destruct (mp_id p), id. simpl in *. congruence.
  - destruct (IH (i + 1)) as (j & -> & Hj & Hin & Hout); [lia..|]. exists j.
    split_and!; try done; try lia. intros k q Hk Hq.
    destruct (decide (k = i)) as [->|]; [|apply (Hout k); [lia|done]].
    rewrite Hp in Hq. injection Hq as <-. intros Heq. rewrite Heq, !Z.eqb_refl in E. done.
Qed.

(** [mio_pool_get].  An id that no configured pool has is an error that
    changes nothing.  Otherwise the driver is asked about the first pool with
    that id: on success the pool it returns is stored in the table, in that
    place only, and copied to the caller; on failure its result is returned
    and the caller gets nothing. *)
Theorem mio_pool_get_correct {W} (mpo_get : mio_pool_id → mio_pool → W → outcome (Z * mio_pool * W))
    (id : mio_pool_id) (pools : mio_pools) (l : list mio_pool) (w : W) (Hok : pools_ok pools l) :
  (Forall (λ p, mp_id p ≠ id) (pool_list pools) ∧
     mio_pool_get mpo_get (Some id) false 0 pools [] w = Done (- EINVAL, None, pools, [], w)) ∨
  ∃ i p, pool_list pools !! i = Some p ∧ mp_id p = id ∧
    (∀ k q, (k < i)%nat → pool_list pools !! k = Some q → mp_id q ≠ id) ∧
    mio_pool_get mpo_get (Some id) false 0 pools [] w =
      '(rc, p', w') ← mpo_get id p w;
      Done (rc, if rc =? 0 then Some p' else None, pool_put (Z.of_nat i) p' pools, [], w').
Proof.
  pose proof Hok as [Hl Hn]. unfold mio_pool_get, mio_pool_lookup. cbn [Z.ltb Z.compare].
  destruct (pool_lookup_loop_spec pools l id 0 (Z.to_nat (mps_nr_pools pools)))
    as (j & -> & Hj & Hin & Hout); [done|lia..|]. simpl.
  destruct (Z.eqb_spec j (mps_nr_pools pools)) as [->|Hne]; simpl.
  - left. split; [|done]. apply Forall_lookup_2. intros k p Hp.
    apply (Hout (Z.of_nat k)); [|by rewrite Nat2Z.id].
    assert (k < length (pool_list pools))%nat by by eapply lookup_lt_Some.
    unfold pool_list in *. rewrite Hl in *. simpl in *. rewrite length_take in *. lia.
  - right. destruct Hin as (p & Hp & Hid); [lia|]. exists (Z.to_nat j), p.
    split_and!; try done.
    + intros k q Hk Hq. apply (Hout (Z.of_nat k)); [lia|by rewrite Nat2Z.id].
    + rewrite (pool_at_ok pools l j p); [|done|lia|].
      2:{ apply (pool_list_lookup pools l j p Hok) in Hp as [_ ?]; [done|lia]. }
      simpl. destruct (mpo_get id p w) as [[[rc p'] w']|]; simpl; [|done].
      rewrite Z2Nat.id by lia. destruct (Z.eqb_spec rc 0) as [->|]; done.
Qed.

Definition ex_pool (n : Z) : mio_pool := MkPool [65; 0] (MkPoolId n 0) 0 0 0 0 [].
Definition ex_pools : mio_pools := MkPools 1 [] 2 (Some [ex_pool 7; ex_pool 8; ex_pool 9]).

Lemma mio_pool_get_correct_witness :
  pools_ok ex_pools [ex_pool 7; ex_pool 8; ex_pool 9] ∧
  ((Forall (λ p, mp_id p ≠ MkPoolId 9 0) (pool_list ex_pools) ∧
     mio_pool_get (λ _ p w, Done (0, p, S w)) (Some (MkPoolId 9 0)) false 0 ex_pools [] 0%nat =
       Done (- EINVAL, None, ex_pools, [], 0%nat)) ∨
   ∃ i p, pool_list ex_pools !! i = Some p ∧ mp_id p = MkPoolId 9 0).
Proof.
  assert (Hok : pools_ok ex_pools [ex_pool 7; ex_pool 8; ex_pool 9]) by (split; [reflexivity|simpl; lia]).
  split; [exact Hok|].
  destruct (mio_pool_get_correct (λ _ p w, Done (0, p, S w)) (MkPoolId 9 0) ex_pools _ 0%nat Hok)
    as [H|(i & p & H1 & H2 & _)]; [left; exact H|right; exists i, p; split; assumption].
Defined.

(** ** The pool of a new object *)

(** The value of a hint when it is set. *)
Definition hint_set_value (map : mio_hint_map) (key : Z) : option Z :=
  match hint_abs map !! key with
  | Some v => if v =? MIO_HINT_VALUE_NULL then None else Some v
  | None => None
  end.

Lemma mio_hint_is_set_spec map key :
  hint_map_wf map →
  mio_hint_is_set (Some map) key = Done (match hint_set_value map key with Some _ => true | None => false end).
Proof.
  intros Hwf. unfold mio_hint_is_set, mio_hint_lookup, hint_set_value.
  rewrite (hint_map_get_cases _ _ _ Hwf). simpl.
  destruct (hint_abs map !! key) as [v|]; simpl; [|done]. by destruct (v =? MIO_HINT_VALUE_NULL).
Qed.

Lemma mio_hint_lookup_set map key v v0 :
  hint_map_wf map → hint_set_value map key = Some v →
  mio_hint_lookup (Some map) key v0 = Done (0, Some v).
Proof.
  intros Hwf. unfold hint_set_value, mio_hint_lookup. rewrite (hint_map_get_cases _ _ _ Hwf).
  destruct (hint_abs map !! key) as [v'|]; [|done]. by destruct (v' =? _); intros [= ->].
Qed.

(** The index the hints ask for: by performance class when MIO_HINT_OBJ_WHERE is
    set, else by hotness. *)
Definition hinted_idx (hot_idx : Z → Z) (nr_pools : Z) (hints : mio_hint_map) : option Z :=
  match hint_set_value hints MIO_HINT_OBJ_WHERE with
  | Some v =>
      if v =? MIO_POOL_GOLD then Some 0
      else if v =? MIO_POOL_SILVER then Some (Z.min 1 (nr_pools - 1))
      else if v =? MIO_POOL_BRONZE then Some (Z.min 2 (nr_pools - 1))
      else None
  | None => hot_idx <$> hint_set_value hints MIO_HINT_OBJ_HOT_INDEX
  end.

Lemma obj_pool_select_spec sys_hints nr_pools hints which hot_idx :
  hint_map_wf hints → 0 < nr_pools →
  (∀ h, hint_set_value hints MIO_HINT_OBJ_HOT_INDEX = Some h →
     mio_obj_hotness_to_pool_idx sys_hints nr_pools h = Done (hot_idx h)) →
  obj_pool_select sys_hints nr_pools (Some hints) which =
    Done (match hinted_idx hot_idx nr_pools hints with Some i => (0, i) | None => (- EINVAL, which) end).
Proof.
  intros Hwf Hnr Hhot. unfold obj_pool_select, hinted_idx.
  rewrite (proj2 (Z.leb_gt _ _)) by done. rewrite !mio_hint_is_set_spec by done. simpl.
  destruct (hint_set_value hints MIO_HINT_OBJ_WHERE) as [v|] eqn:Ew.
  - unfold obj_pool_select_by_perf_hint. rewrite (mio_hint_lookup_set _ _ v) by done. simpl.
    destruct (v =? MIO_POOL_GOLD); [done|].
    destruct (v =? MIO_POOL_SILVER); [do 2 f_equal; destruct (Z.leb_spec nr_pools 1); lia|].
    destruct (v =? MIO_POOL_BRONZE); [|done].
    do 2 f_equal. destruct (Z.leb_spec nr_pools 2), (Z.leb_spec nr_pools 1); lia.
  - simpl. destruct (hint_set_value hints MIO_HINT_OBJ_HOT_INDEX) as [h|] eqn:Eh; simpl; [|done].
    unfold obj_pool_select_by_hotness. rewrite (mio_hint_lookup_set _ _ h) by done. simpl.
    by rewrite (Hhot h).
Qed.


Definition ex_where_hints : mio_hint_map := MkHintMap 2 1 (Arr [1; -1]) (Arr [258; 0]).

