(* ===== verification/PoolQuery.v ===== *)
(** * The query of pools (src/examples/mio_pool_query.c)

    The program prints one pool or all of them.  What the driver tells of a pool is an
    interface, of which the Motr driver's function is an instance. *)

From Stdlib Require Import String.
From S2P Require Import Prelude Bytes ObjId HintMap Types Hints Pools.
Open Scope Z_scope.

(** [is_pool_id_set]; MIO_POOL_ID_NULL is 0. *)
Definition is_pool_id_set (pool_id : mio_pool_id) : bool := negb ((mpi_hi pool_id =? 0) && (mpi_lo pool_id =? 0)).

Inductive tier := TierSSD | TierHDD | TierNVM | TierUnknown.

Definition pool_tier (mp_type : Z) : tier :=
  if mp_type =? MIO_POOL_TYPE_SSD then TierSSD
  else if mp_type =? MIO_POOL_TYPE_HDD then TierHDD
  else if mp_type =? MIO_POOL_TYPE_NVM then TierNVM
  else TierUnknown.

(** What is printed of a pool. *)
Record pool_text := MkPoolText { pt_id : mio_pool_id; pt_tier : tier; pt_alignment : Z; pt_blksizes : list Z }.

(** The inner loop of [pool_print], over [n] sizes from [j] on. *)
Fixpoint blksizes_print (sizes : list Z) (j n : nat) : outcome (list Z) :=
  match n with
  | O => Done []
  | S n => match sizes !! j with
           | None => Fault OutOfBounds
           | Some x => l ← blksizes_print sizes (S j) n; Done (x :: l)
           end
  end.

(** [pool_print]. *)
Fixpoint pool_print (nr_pools : nat) (pools : list mio_pool) : outcome (list pool_text) :=
  match nr_pools, pools with
  | O, _ => Done []
  | S _, [] => Fault OutOfBounds
  | S n, pool :: pools =>
      sizes ← blksizes_print (mp_opt_blksizes pool) 0 (Z.to_nat (mp_nr_opt_blksizes pool));
      l ← pool_print n pools;
      Done (MkPoolText (mp_id pool) (pool_tier (mp_type pool)) (mp_opt_alignment pool) sizes :: l)
  end.

Section PoolGet.
Context {W : Type} (mpo_get : mio_pool_id → mio_pool → W → outcome (Z * mio_pool * W)).

(** [pool_get]: the result, what is printed, how many blocks of memory are lost, the
    table of pools.  For all pools only the outer struct is freed. *)
Definition pool_get (pool_id : mio_pool_id) (instance_rc : Z) (pools : mio_pools) (p : mplan) (w : W)
  : outcome (Z * list pool_text * Z * mio_pools * mplan * W) :=
  if is_pool_id_set pool_id then
    '(rc, pool, pools, p, w) ← mio_pool_get mpo_get (Some pool_id) false instance_rc pools p w;
    if rc <? 0 then Done (rc, [], 0, pools, p, w) else
    match pool with
    | None => Fault NullDeref
    | Some pool => text ← pool_print 1 [pool]; Done (rc, text, 0, pools, p, w)
    end
  else
    '(rc, out, pools, p, w) ← mio_pool_get_all mpo_get false instance_rc pools p w;
    if rc <? 0 then Done (rc, [], 0, pools, p, w) else
    match out with
    | Some (Some out) =>
        text ← pool_print (Z.to_nat (mps_nr_pools pools)) out; Done (rc, text, 1, pools, p, w)
    | Some None => Fault NullDeref
    | None => Fault UninitRead
    end.
End PoolGet.

(** ** What a driver promises *)

(** The array of a pool has its size, and the sizes in use are inside it. *)
Definition pool_sized (p : mio_pool) : Prop :=
  Z.of_nat (length (mp_opt_blksizes p)) = MIO_POOL_MAX_NR_OPT_BLKSIZES ∧
  mp_nr_opt_blksizes p <= MIO_POOL_MAX_NR_OPT_BLKSIZES.

(** What a pool is, whatever the driver adds. *)
Definition pool_key (p : mio_pool) : mio_pool_id * tier := (mp_id p, pool_tier (mp_type p)).

Class PoolDriver {W} (mpo_get : mio_pool_id → mio_pool → W → outcome (Z * mio_pool * W)) : Prop :=
  pool_driver_ok : ∀ id p w, pool_sized p →
    ∃ rc p' w', mpo_get id p w = Done (rc, p', w') ∧ rc <= 0 ∧ pool_sized p' ∧ pool_key p' = pool_key p.

(** The Motr driver is one, if pools have legal layouts. *)
Section MotrDriver.
Context (m0_pool_version_get : m0_fid → Z * m0_pool_version) (unit_size : Z).
Context (Hversions : ∀ fid rc pver, m0_pool_version_get fid = (rc, pver) →
  rc <= 0 ∧ (rc = 0 → layout_ok unit_size (pv_attr pver))).

Definition motr_mpo_get (id : mio_pool_id) (pool : mio_pool) (w : unit) : outcome (Z * mio_pool * unit) :=
  '(rc, pool) ← mio_motr_pool_get m0_pool_version_get unit_size (Some id) (Some pool);
  match pool with Some pool => Done (rc, pool, w) | None => Fault NullDeref end.

Lemma motr_pool_driver : PoolDriver motr_mpo_get.
Proof.
  intros id p w [Hlen Hnr]. unfold motr_mpo_get.
  destruct (m0_pool_version_get (mio__motr_pool_id_to_fid id)) as [rc pver] eqn:E.
  destruct (Hversions _ _ _ E) as [Hrc Hok]. destruct (Z.eqb_spec rc 0) as [->|Hne].
  - destruct (mio_motr_pool_get_blksizes _ unit_size id p pver E (Hok eq_refl) Hlen) as (sizes & n & k & -> & Hl & Hn & _).
    eexists _, _, _. split; [reflexivity|]. split; [lia|]. split; [|done]. split; cbn; [congruence|].
    unfold MIO_POOL_MAX_NR_OPT_BLKSIZES. lia.
  - unfold mio_motr_pool_get. rewrite E, (proj2 (Z.eqb_neq _ _)) by done. eexists _, _, _. by split_and!.
Qed.
End MotrDriver.

(** ** Printing *)
Lemma blksizes_print_ok sizes j n : (j + n <= length sizes)%nat →
  blksizes_print sizes j n = Done (take n (drop j sizes)).
Proof.
  revert j. induction n as [|n IH]; intros j Hj; cbn [blksizes_print]; [done|].
  destruct (lookup_lt_is_Some_2 sizes j) as [x Hx]; [lia|]. rewrite Hx, IH by lia. cbn [mbind outcome_bind].
  by rewrite (drop_S sizes x j Hx).
Qed.

Lemma pool_print_ok pools : Forall pool_sized pools →
  ∃ text, pool_print (length pools) pools = Done text ∧
    (λ t, (pt_id t, pt_tier t)) <$> text = pool_key <$> pools ∧
    pt_blksizes <$> text = (λ p, take (Z.to_nat (mp_nr_opt_blksizes p)) (mp_opt_blksizes p)) <$> pools.
Proof.
  induction 1 as [|p l [Hlen Hnr] _ IH]; [by exists []|]. destruct IH as (text & Ht & Hk & Hs).
  cbn [length pool_print]. rewrite blksizes_print_ok by lia. cbn [mbind outcome_bind]. rewrite Ht.
  eexists. split; [reflexivity|]. rewrite !fmap_cons. cbn [pt_id pt_tier pt_blksizes]. rewrite drop_0. by rewrite Hk, Hs.
Qed.

(** ** The table *)
Definition same_pools (l l' : list mio_pool) : Prop :=
  Forall2 (λ p p', pool_sized p' ∧ pool_key p' = pool_key p) l l'.

Lemma same_pools_refl l : Forall pool_sized l → same_pools l l.
Proof. induction 1; by constructor. Qed.
Lemma same_pools_trans l1 l2 l3 : same_pools l1 l2 → same_pools l2 l3 → same_pools l1 l3.
Proof.
  intros H12. revert l3. induction H12 as [|p p' l l' [_ Hk] _ IH]; intros l3 H23.
  - apply Forall2_nil_inv_l in H23 as ->. by constructor.
  - apply Forall2_cons_inv_l in H23 as (p'' & l'' & [Hs Hk'] & Hl & ->). constructor; [split; [done|congruence]|by apply IH].
Qed.
Lemma same_pools_sized l l' : same_pools l l' → Forall pool_sized l'.
Proof. induction 1 as [|??? ? []]; by constructor. Qed.
Lemma same_pools_key l l' : same_pools l l' → pool_key <$> l' = pool_key <$> l.
Proof. induction 1 as [|??? ? [_ Hk] _ IH]; [done|]. by rewrite !fmap_cons, Hk, IH. Qed.

Lemma same_pools_insert l i p p' : Forall pool_sized l → l !! i = Some p → pool_sized p' → pool_key p' = pool_key p →
  same_pools l (<[i := p']> l).
Proof.
  intros Hl. revert i. induction Hl as [|q l Hq Hl IH]; intros i Hi Hs Hk; [done|]. destruct i as [|i].
  - injection Hi as ->. constructor; [done|by apply same_pools_refl].
  - constructor; [done|by apply IH].
Qed.

Section Query.
Context {W : Type} (mpo_get : mio_pool_id → mio_pool → W → outcome (Z * mio_pool * W)) `{!PoolDriver mpo_get}.

(** The driver's answer for a pool of the table is stored in its place. *)
Lemma pool_answer pools l i p w id : pools_ok pools l → Forall pool_sized l → 0 <= i → l !! Z.to_nat i = Some p →
  ∃ rc p' w', mpo_get id p w = Done (rc, p', w') ∧ rc <= 0 ∧ pool_sized p' ∧ pool_key p' = pool_key p ∧
    pools_ok (pool_put i p' pools) (<[Z.to_nat i := p']> l) ∧ same_pools l (<[Z.to_nat i := p']> l) ∧
    Forall pool_sized (<[Z.to_nat i := p']> l).
Proof.
  intros [Hl Hn] Hs Hi Hp. destruct (pool_driver_ok id p w) as (rc & p' & w' & Hget & Hrc & Hs' & Hk).
  { by eapply Forall_lookup_1. }
  pose proof (same_pools_insert l _ p p' Hs Hp Hs' Hk) as Hsame. eexists _, _, _. split; [exact Hget|].
  do 3 (split; [done|]). split; [|split; [done|by eapply same_pools_sized]].
  split; [cbn [pool_put mps_pools]; by rewrite Hl|]. cbn [pool_put mps_nr_pools]. by rewrite length_insert.
Qed.

Lemma get_all_loop_spec n pools l i out w : pools_ok pools l → Forall pool_sized l → 0 <= i →
  i + Z.of_nat n = mps_nr_pools pools →
  ∃ rc more pools' l' w', get_all_loop mpo_get pools i n 0 out w = Done (rc, out ++ more, pools', w') ∧ rc <= 0 ∧
    pools_ok pools' l' ∧ mps_nr_pools pools' = mps_nr_pools pools ∧ same_pools l l' ∧
    (rc = 0 → same_pools (take n (drop (Z.to_nat i) l)) more).
Proof.
  revert pools l i out w. induction n as [|n IH]; intros pools l i out w Hok Hs Hi Hn.
  - exists 0, [], pools, l, w. rewrite app_nil_r.
    do 4 (split; [done|]). split; [by apply same_pools_refl|by constructor].
  - pose proof Hok as [Hl Hnr]. cbn [get_all_loop]. destruct (lookup_lt_is_Some_2 l (Z.to_nat i)) as [p Hp]; [lia|].
    rewrite (pool_at_ok pools l i p) by done. cbn [mbind outcome_bind].
    destruct (pool_answer pools l i p w (mp_id p) Hok Hs Hi Hp) as (rc & p' & w' & -> & Hrc & Hs' & Hk & Hok' & Hsame & Hsz).
    cbn [mbind outcome_bind]. destruct (Z.ltb_spec rc 0) as [Hneg|Hge].
    { exists rc, [], (pool_put i p' pools), (<[Z.to_nat i := p']> l), w'. rewrite app_nil_r. do 5 (split; [done|]). intros ->. lia. }
    assert (rc = 0) as -> by lia.
    destruct (IH _ _ (i + 1) (out ++ [p']) w' Hok' Hsz) as (rc2 & more & pools2 & l2 & w2 & -> & Hrc2 & Hok2 & Hnr2 & Hl2 & Hmore);
      [lia|cbn [pool_put mps_nr_pools]; lia|].
    exists rc2, (p' :: more), pools2, l2, w2. rewrite <- app_assoc.
    do 4 (split; [done|]). split; [by eapply same_pools_trans|].
    intros Hz. rewrite (drop_S l p (Z.to_nat i) Hp). cbn [take]. constructor; [done|].
    replace (Z.to_nat (i + 1)) with (S (Z.to_nat i)) in Hmore by lia.
    rewrite drop_insert_lt in Hmore by lia. by apply Hmore.
Qed.

(** The program, for a legal table and any driver that keeps its promise: with the null
    id it prints every configured pool in order, and loses the array of the copies; with
    an id it prints the first pool with it, and the id of no pool is -EINVAL.  After an
    error nothing is printed.  The pools of the table stay what they are. *)
Theorem pool_get_correct (id : mio_pool_id) (pools : mio_pools) (l : list mio_pool) (w : W) :
  pools_ok pools l → Forall pool_sized l →
  let keys text := (λ t, (pt_id t, pt_tier t)) <$> text in
  ∃ rc text lost pools' l' w', pool_get mpo_get id 0 pools [] w = Done (rc, text, lost, pools', [], w') ∧ rc <= 0 ∧
    pools_ok pools' l' ∧ pool_key <$> l' = pool_key <$> l ∧ (rc ≠ 0 → text = [] ∧ lost = 0) ∧
    (if is_pool_id_set id then
       (Forall (λ p, mp_id p ≠ id) (pool_list pools) → rc = - EINVAL) ∧
       (rc = 0 → lost = 0 ∧ ∃ i p, pool_list pools !! i = Some p ∧ mp_id p = id ∧
          (∀ k q, (k < i)%nat → pool_list pools !! k = Some q → mp_id q ≠ id) ∧ keys text = [pool_key p])
     else rc = 0 → lost = 1 ∧ keys text = pool_key <$> pool_list pools).
Proof.
  intros Hok Hs keys. pose proof Hok as [Hl Hn]. unfold pool_get. destruct (is_pool_id_set id).
  - destruct (mio_pool_get_correct mpo_get id pools l w Hok) as [[Hno ->]|(i & p & Hi & Hid & Hfirst & ->)].
    { exists (- EINVAL), [], 0, pools, l, w. do 5 (split; [done|]). by split. }
    assert (Hp : l !! i = Some p).
    { unfold pool_list in Hi. rewrite Hl in Hi. by apply lookup_take_Some in Hi as [? _]. }
    destruct (pool_answer pools l (Z.of_nat i) p w id Hok Hs) as (rc & p' & w' & -> & Hrc & Hs' & Hk & Hok' & Hsame & Hsz);
      [lia|by rewrite Nat2Z.id|]. cbn [mbind outcome_bind]. apply same_pools_key in Hsame.
    assert (Hnone : Forall (λ p, mp_id p ≠ id) (pool_list pools) → rc = - EINVAL).
    { intros Hf. by destruct (Forall_lookup_1 _ _ _ _ Hf Hi). }
    destruct (Z.ltb_spec rc 0) as [Hneg|Hge].
    + exists rc, [], 0, (pool_put (Z.of_nat i) p' pools), (<[Z.to_nat (Z.of_nat i) := p']> l), w'.
      do 5 (split; [done|]). split; [done|]. intros ->. lia.
    + assert (rc = 0) as -> by lia. cbn [Z.eqb].
      destruct (pool_print_ok [p'] (List.Forall_cons _ _ _ Hs' (List.Forall_nil _))) as (text & Ht & Hkt & _). cbn [length] in Ht. rewrite Ht.
      eexists 0, text, 0, _, _, w'. split; [reflexivity|]. split; [done|]. split; [exact Hok'|]. split; [exact Hsame|].
      split; [done|]. split; [done|]. intros _. split; [done|]. exists i, p. do 3 (split; [done|]).
      unfold keys. rewrite Hkt. cbn. by rewrite Hk.
  - unfold mio_pool_get_all. cbn [Z.ltb Z.compare plan_next negb].
    destruct (get_all_loop_spec (Z.to_nat (mps_nr_pools pools)) pools l 0 [] w Hok Hs) as
      (rc & more & pools' & l' & w' & -> & Hrc & Hok' & Hnr & Hsame & Hmore); [lia|lia|].
    cbn [mbind outcome_bind app]. apply same_pools_key in Hsame as Hkey. destruct (Z.ltb_spec rc 0) as [Hneg|Hge].
    + cbn [mbind outcome_bind]. rewrite (proj2 (Z.ltb_lt _ _)) by done. eexists rc, [], 0, pools', l', w'.
      do 5 (split; [done|]). lia.
    + cbn [mbind outcome_bind]. rewrite (proj2 (Z.ltb_ge _ _)) by done. assert (rc = 0) as -> by lia. specialize (Hmore eq_refl). rewrite drop_0 in Hmore.
      assert (Hlen : length more = Z.to_nat (mps_nr_pools pools)).
      { rewrite <- (Forall2_length _ _ _ Hmore), length_take. lia. }
      destruct (pool_print_ok more) as (text & Ht & Hkt & _); [by eapply same_pools_sized|].
      rewrite Hnr, <- Hlen, Ht. eexists 0, text, 1, pools', l', w'. do 5 (split; [done|]). intros _. split; [done|].
      unfold keys, pool_list. rewrite Hkt, Hl. by apply same_pools_key.
Qed.
End Query.

(** ** Witness and boundary cases, with the Motr driver *)
Section Witnesses.
Definition query_version (fid : m0_fid) : Z * m0_pool_version :=
  (if f_key fid =? 9 then - ENOENT else 0, MkPver (MkPdclust 4 2 8) (MkFid 0 0)).

Lemma query_versions fid rc pver : query_version fid = (rc, pver) →
  rc <= 0 ∧ (rc = 0 → layout_ok 1048576 (pv_attr pver)).
Proof.
  unfold query_version, ENOENT. intros [= <- <-]. split; [destruct (_ =? _); lia|].
  intros _. unfold layout_ok. cbn. lia.
Qed.

#[local] Instance query_driver : PoolDriver (motr_mpo_get query_version 1048576) := motr_pool_driver _ _ query_versions.

Definition query_pool (n type : Z) : mio_pool := MkPool [65; 0] (MkPoolId 0 n) type 0 0 0 (replicate 16 0).
Definition query_pools (n : Z) : mio_pools := MkPools 0 [] 2 (Some [query_pool 7 MIO_POOL_TYPE_NVM; query_pool n 5]).

Lemma pool_get_correct_witness :
  ∃ rc text lost pools', pool_get (motr_mpo_get query_version 1048576) (MkPoolId 0 0) 0 (query_pools 8) [] tt =
      Done (rc, text, lost, pools', [], tt) ∧
    (rc = 0 → lost = 1 ∧ (λ t, (pt_id t, pt_tier t)) <$> text = [(MkPoolId 0 7, TierNVM); (MkPoolId 0 8, TierUnknown)]).
Proof.
  destruct (pool_get_correct (motr_mpo_get query_version 1048576) (MkPoolId 0 0) (query_pools 8)
    [query_pool 7 MIO_POOL_TYPE_NVM; query_pool 8 5] tt) as (rc & text & lost & pools' & l' & w' & H1 & _ & _ & _ & _ & H2).
  - split; [reflexivity|split; vm_compute; congruence].
  - repeat constructor; vm_compute; congruence.
  - destruct w'. exists rc, text, lost, pools'. split; [exact H1|exact H2].
Defined.

(** What a run prints: the result, the pools with their number of block sizes. *)
Definition query_result (id n : Z) : outcome (Z * list (mio_pool_id * tier * nat)) :=
  match pool_get (motr_mpo_get query_version 1048576) (MkPoolId 0 id) 0 (query_pools n) [] tt with
  | Done (rc, text, _, _, _, _) => Done (rc, (λ t, (pt_id t, pt_tier t, length (pt_blksizes t))) <$> text)
  | Fault e => Fault e
  end.

Example query_one : query_result 7 8 = Done (0, [(MkPoolId 0 7, TierNVM, 1%nat)]).
Proof. vm_compute. reflexivity. Qed.

Example query_unknown : query_result 5 8 = Done (- EINVAL, []).
Proof. vm_compute. reflexivity. Qed.

(** One pool the driver cannot tell about, and nothing of the others is printed. *)
Example query_one_fails : query_result 0 9 = Done (- ENOENT, []).
Proof. vm_compute. reflexivity. Qed.
End Witnesses.
