(* ===== verification/CStr.v ===== *)
(** * C strings

    A string of the program is the list of its bytes.  A character array is the
    list of its elements, and the string in it ends at the first NUL; functions
    of <string.h> and <stdlib.h> that the program calls are defined here. *)

From Stdlib Require Import String Ascii.
From S2P Require Import Prelude.
Open Scope Z_scope.

(** The bytes of a literal. *)
Fixpoint str (s : string) : list Z :=
  match s with
  | EmptyString => []
  | String a s' => Z.of_N (N_of_ascii a) :: str s'
  end.

(** A byte list that can be the contents of a C string. *)
Definition no_nul (s : list Z) : Prop := Forall (λ c, c ≠ 0) s.

(** The string in the array [a]; reading on behind the array is an error. *)
Fixpoint cstr_read (a : list Z) : outcome (list Z) :=
  match a with
  | [] => Fault OutOfBounds
  | c :: a' => if c =? 0 then Done [] else s ← cstr_read a'; Done (c :: s)
  end.

(** A C string from its bytes with NUL at the end or earlier. *)
Fixpoint until_nul (s : list Z) : list Z :=
  match s with c :: s' => if c =? 0 then [] else c :: until_nul s' | [] => [] end.

(** strcmp(a, b) == 0, reading both arrays up to the first difference. *)
Fixpoint strcmp_eq (a b : list Z) : outcome bool :=
  match a, b with
  | x :: a', y :: b' =>
      if x =? y then if x =? 0 then Done true else strcmp_eq a' b' else Done false
  | _, _ => Fault OutOfBounds
  end.

Definition strnlen (s : list Z) (max : Z) : Z := Z.min (Z.of_nat (length s)) max.

(** strstr(): the rest of [s] from the first occurrence of [t] on. *)
Fixpoint is_prefix (t s : list Z) : bool :=
  match t, s with
  | [], _ => true
  | x :: t', y :: s' => (x =? y) && is_prefix t' s'
  | _ :: _, [] => false
  end.

Fixpoint strstr (s t : list Z) : option (list Z) :=
  if is_prefix t s then Some s else
  match s with [] => None | _ :: s' => strstr s' t end.

(** memcpy() of [l] to the start of the array [a]. *)
Definition arr_memcpy (a l : list Z) : list Z := l ++ drop (length l) a.

(** ** Numbers *)
Definition is_space (c : Z) : bool := (c =? 32) || ((9 <=? c) && (c <=? 13)).

Fixpoint skip_spaces (s : list Z) : list Z :=
  match s with c :: s' => if is_space c then skip_spaces s' else s | [] => [] end.

(** The value of a digit in a base up to 16. *)
Definition digit_val (c : Z) : option Z :=
  if (48 <=? c) && (c <=? 57) then Some (c - 48)
  else if (97 <=? c) && (c <=? 102) then Some (c - 87)
  else if (65 <=? c) && (c <=? 70) then Some (c - 55)
  else None.

(** The digits at the start of [s]: their value, how many, and the rest. *)
Fixpoint scan_digits (base : Z) (s : list Z) (acc : Z) (n : nat) : Z * nat * list Z :=
  match s with
  | c :: s' =>
      match digit_val c with
      | Some d => if d <? base then scan_digits base s' (acc * base + d) (S n) else (acc, n, s)
      | None => (acc, n, s)
      end
  | [] => (acc, n, [])
  end.

(** An optional sign: whether it is a minus, and the rest. *)
Definition scan_sign (s : list Z) : bool * list Z :=
  match s with
  | c :: s' => if c =? 45 then (true, s') else if c =? 43 then (false, s') else (false, s)
  | [] => (false, [])
  end.

(** atoi(): strtol() in base 10, which clamps to a 64-bit long, cast to int. *)
Definition atoi (s : list Z) : Z :=
  let '(neg, s) := scan_sign (skip_spaces s) in
  let '(v, _, _) := scan_digits 10 s 0 0 in
  let v := if neg then - v else v in
  s32 (Z.max (- 2 ^ 63) (Z.min v (2 ^ 63 - 1))).

(** The conversion %lx of scanf(): end of input, no number, or the value
    (clamped, and negated modulo 2^64 after a minus) with the rest. *)
Inductive scan_result := ScanEof | ScanNone | ScanVal (v : Z) (rest : list Z).

Definition scan_lx (s : list Z) : scan_result :=
  match skip_spaces s with
  | [] => ScanEof
  | s =>
      let '(neg, s) := scan_sign s in
      let s := match s with
               | c0 :: c1 :: s' => if (c0 =? 48) && ((c1 =? 120) || (c1 =? 88)) then s' else s
               | _ => s
               end in
      let '(v, n, rest) := scan_digits 16 s 0 0 in
      if (n =? 0)%nat then ScanNone
      else let v := Z.min v (2 ^ 64 - 1) in ScanVal (if neg then u64 (- v) else v) rest
  end.

(** sprintf() of an unsigned number with %u or PRIu64; 20 digits are enough for
    64 bits. *)
Fixpoint dec_digits (fuel : nat) (x : Z) : list Z :=
  match fuel with
  | O => []
  | S fuel' => (if x <? 10 then [] else dec_digits fuel' (x / 10)) ++ [48 + x mod 10]
  end.

Definition sprintf_u (x : Z) : list Z := dec_digits 20 x.

(** sprintf() of a number that is not negative with %0<w>d or %0<w>PRIu64. *)
Definition sprintf_0d (w : nat) (x : Z) : list Z :=
  let digits := sprintf_u x in replicate (w - length digits) 48 ++ digits.

(** sprintf() with %lx or PRIx64; 16 digits are enough for 64 bits. *)
Definition hex_digit (d : Z) : Z := if d <? 10 then 48 + d else 87 + d.

Fixpoint hex_digits (fuel : nat) (x : Z) : list Z :=
  match fuel with
  | O => []
  | S fuel' => (if x <? 16 then [] else hex_digits fuel' (x / 16)) ++ [hex_digit (x mod 16)]
  end.

Definition sprintf_lx (x : Z) : list Z := hex_digits 16 x.

(** sprintf() with %d. *)
Definition sprintf_d (x : Z) : list Z := if x <? 0 then 45 :: sprintf_u (- x) else sprintf_u x.

(** ** Lemmas *)

Lemma cstr_read_term s l : no_nul s → cstr_read (s ++ 0 :: l) = Done s.
Proof.
  induction 1 as [|c s Hc Hs IH]; [done|]. cbn [app cstr_read].
  rewrite (proj2 (Z.eqb_neq _ _) Hc), IH. done.
Qed.

(** A string without its NUL cannot be read. *)
Lemma cstr_read_unterminated s : no_nul s → cstr_read s = Fault OutOfBounds.
Proof.
  induction 1 as [|c s Hc Hs IH]; [done|]. simpl. by rewrite (proj2 (Z.eqb_neq _ _) Hc), IH.
Qed.

Lemma strcmp_eq_term s t l m :
  no_nul s → no_nul t → strcmp_eq (s ++ 0 :: l) (t ++ 0 :: m) = Done (bool_decide (s = t)).
Proof.
  intros Hs. revert t. induction Hs as [|c s Hc Hs IH]; intros [|d t] Ht; cbn [app strcmp_eq].
  - done.
  - apply Forall_cons in Ht as [Hd _]. by rewrite (proj2 (Z.eqb_neq 0 d)) by congruence.
  - by rewrite (proj2 (Z.eqb_neq c 0)) by done.
  - apply Forall_cons in Ht as [Hd Ht]. destruct (Z.eqb_spec c d) as [->|Hne].
    + rewrite (proj2 (Z.eqb_neq d 0)), IH by done. f_equal. apply bool_decide_ext.
      split; congruence.
    + rewrite bool_decide_false; congruence.
Qed.

Lemma is_prefix_spec t s : is_prefix t s = true ↔ ∃ r, s = t ++ r.
Proof.
  revert s; induction t as [|x t IH]; intros s; simpl.
  - split; eauto.
  - destruct s as [|y s]; [split; [done|by intros [r ?]]|].
    rewrite andb_true_iff, Z.eqb_eq, IH. split.
    + intros [-> [r ->]]. by exists r.
    + intros [r [= -> ->]]. eauto.
Qed.

(** What strstr() finds is the end of the string and starts with the word. *)
Lemma strstr_Some s t r : strstr s t = Some r → ∃ pre post, s = pre ++ r ∧ r = t ++ post.
Proof.
  induction s as [|c s IH]; simpl.
  - destruct (is_prefix t []) eqn:E; [|done]. intros [= <-].
    apply is_prefix_spec in E as [post ->]. by exists [], post.
  - destruct (is_prefix t (c :: s)) eqn:E.
    + intros [= <-]. apply is_prefix_spec in E as [post ->]. by exists [], post.
    + intros Hr. destruct (IH Hr) as (pre & post & -> & ->). by exists (c :: pre), post.
Qed.

Lemma until_nul_app s l : no_nul s → until_nul (s ++ l) = s ++ until_nul l.
Proof.
  induction 1 as [|c s Hc Hs IH]; [done|]. cbn [app until_nul].
  by rewrite (proj2 (Z.eqb_neq _ _) Hc), IH.
Qed.

Lemma until_nul_no_nul s : no_nul (until_nul s).
Proof.
  induction s as [|c s IH]; [constructor|]. cbn [until_nul].
  destruct (Z.eqb_spec c 0); [constructor|]. by constructor.
Qed.

(** ** Printing numbers *)

Lemma digit_val_digit d : 0 <= d < 10 → digit_val (48 + d) = Some d.
Proof.
  intros Hd. unfold digit_val. rewrite (proj2 (Z.leb_le _ _)), (proj2 (Z.leb_le _ _)) by lia.
  simpl. f_equal. lia.
Qed.

Lemma dec_digits_digits fuel x : 0 <= x → Forall (λ c, 48 <= c <= 57) (dec_digits fuel x).
Proof.
  revert x; induction fuel as [|fuel IH]; intros x Hx; cbn [dec_digits]; [constructor|].
  pose proof (Z.mod_pos_bound x 10).
  apply Forall_app; split; [|apply Forall_singleton; lia].
  destruct (x <? 10); [constructor|]. apply IH. apply Z.div_pos; lia.
Qed.

Lemma dec_digits_length fuel x : (length (dec_digits fuel x) <= fuel)%nat.
Proof.
  revert x; induction fuel as [|fuel IH]; intros x; cbn [dec_digits]; [simpl; lia|].
  rewrite length_app. simpl. destruct (x <? 10); [simpl; lia|]. specialize (IH (x / 10)). lia.
Qed.

(** Reading the digits of a number gives the number. *)
Lemma scan_dec_digits fuel x acc n rest :
  0 <= x < 10 ^ Z.of_nat fuel → (0 < fuel)%nat →
  scan_digits 10 (dec_digits fuel x ++ rest) acc n =
    scan_digits 10 rest (acc * 10 ^ Z.of_nat (length (dec_digits fuel x)) + x)
      (n + length (dec_digits fuel x)).
Proof.
  revert x acc n rest; induction fuel as [|fuel IH]; intros x acc n rest Hx Hf; [lia|].
  cbn [dec_digits]. pose proof (Z.div_mod x 10) as Hdm. pose proof (Z.mod_pos_bound x 10) as Hm.
  assert (Hlast : ∀ acc n, scan_digits 10 ((48 + x mod 10) :: rest) acc n =
    scan_digits 10 rest (acc * 10 + x mod 10) (S n)).
  { intros. cbn [scan_digits]. rewrite digit_val_digit by lia. by rewrite (proj2 (Z.ltb_lt _ _)) by lia. }
  destruct (Z.ltb_spec x 10) as [Hlt|Hge].
  - cbn [app length]. rewrite Hlast. rewrite (Z.mod_small x 10) by lia. f_equal; lia.
  - assert (Hx' : 0 <= x / 10 < 10 ^ Z.of_nat fuel).
    { split; [apply Z.div_pos; lia|]. apply Z.div_lt_upper_bound; [lia|].
      rewrite Nat2Z.inj_succ, Z.pow_succ_r in Hx by lia. lia. }
    assert (0 < fuel)%nat.
    { destruct fuel; [|lia]. change (Z.of_nat 0) with 0 in Hx'. rewrite Z.pow_0_r in Hx'.
      assert (1 <= x / 10) by (apply Z.div_le_lower_bound; lia). lia. }
    rewrite <- app_assoc. cbn [app]. rewrite IH, Hlast by done.
    rewrite length_app. cbn [length]. rewrite Nat2Z.inj_add, Z.pow_add_r by lia.
    f_equal; [|lia]. change (Z.of_nat 1) with 1. rewrite Z.pow_1_r. lia.
Qed.

Lemma dec_digits_small fuel x k :
  0 <= x < 10 ^ Z.of_nat k → (0 < k)%nat → (length (dec_digits fuel x) <= k)%nat.
Proof.
  revert x k; induction fuel as [|fuel IH]; intros x k Hx Hk; cbn [dec_digits]; [simpl; lia|].
  rewrite length_app. cbn [length]. destruct (Z.ltb_spec x 10) as [|Hge]; [simpl; lia|].
  destruct k as [|k]; [lia|]. destruct k as [|k].
  { change (10 ^ Z.of_nat 1) with 10 in Hx. lia. }
  enough (length (dec_digits fuel (x / 10)) <= S k)%nat by lia. apply IH; [|lia].
  split; [apply Z.div_pos; lia|]. apply Z.div_lt_upper_bound; [lia|].
  rewrite Nat2Z.inj_succ, Z.pow_succ_r in Hx by lia. lia.
Qed.

(** A number that fits is printed with exactly [w] digits. *)
Lemma sprintf_0d_spec w x :
  0 <= x < 10 ^ Z.of_nat w → (0 < w)%nat →
  length (sprintf_0d w x) = w ∧ Forall (λ c, 48 <= c <= 57) (sprintf_0d w x).
Proof.
  intros Hx Hw. unfold sprintf_0d, sprintf_u. split.
  - rewrite length_app, length_replicate. pose proof (dec_digits_small 20 x w Hx Hw). lia.
  - apply Forall_app; split; [apply Forall_replicate; lia|]. apply dec_digits_digits. lia.
Qed.

(** ** Hexadecimal numbers *)

Lemma digit_val_cases c d :
  digit_val c = Some d → (48 <= c <= 57 ∨ 97 <= c <= 102 ∨ 65 <= c <= 70) ∧ 0 <= d < 16.
Proof.
  unfold digit_val. intros Hd. repeat case_match; simplify_eq; lia.
Qed.

Lemma scan_digits_app s ds r acc n :
  Forall2 (λ c d, digit_val c = Some d) s ds → (∀ c, hd_error r = Some c → digit_val c = None) →
  scan_digits 16 (s ++ r) acc n = (foldl (λ a d, a * 16 + d) acc ds, (n + length s)%nat, r).
Proof.
  intros Hs Hr. revert acc n. induction Hs as [|c d s ds Hc Hs IH]; intros acc n; cbn [app].
  - destruct r as [|c r]; cbn [scan_digits foldl length]; [by rewrite Nat.add_0_r|].
    rewrite (Hr c eq_refl), Nat.add_0_r. done.
  - cbn [scan_digits]. rewrite Hc. apply digit_val_cases in Hc as [_ Hd]. rewrite (proj2 (Z.ltb_lt _ _)) by lia.
    rewrite IH. cbn [foldl length]. do 2 f_equal. lia.
Qed.

Lemma hex_digit_val d : 0 <= d < 16 → digit_val (hex_digit d) = Some d.
Proof.
  intros Hd. unfold hex_digit, digit_val. destruct (Z.ltb_spec d 10).
  - rewrite (proj2 (Z.leb_le 48 _)), (proj2 (Z.leb_le _ 57)) by lia. cbn [andb]. f_equal. lia.
  - rewrite (proj2 (Z.leb_gt _ 57)), andb_false_r, (proj2 (Z.leb_le 97 _)), (proj2 (Z.leb_le _ 102)) by lia.
    cbn [andb]. f_equal. lia.
Qed.

Lemma hex_digits_spec fuel x :
  0 <= x < 16 ^ Z.of_nat fuel → (0 < fuel)%nat →
  ∃ ds, Forall2 (λ c d, digit_val c = Some d) (hex_digits fuel x) ds ∧ foldl (λ a d, a * 16 + d) 0 ds = x ∧
    hex_digits fuel x ≠ [].
Proof.
  revert x. induction fuel as [|fuel IH]; intros x Hx Hf; [lia|]. cbn [hex_digits].
  pose proof (Z.div_mod x 16 ltac:(lia)). pose proof (Z.mod_pos_bound x 16 ltac:(lia)).
  rewrite Nat2Z.inj_succ, Z.pow_succ_r in Hx by lia. destruct (Z.ltb_spec x 16) as [Hlt|Hge].
  - exists [x mod 16]. split; [constructor; [by apply hex_digit_val|constructor]|]. split; [|done].
    cbn. rewrite Z.mod_small; lia.
  - assert (1 <= x / 16 < 16 ^ Z.of_nat fuel).
    { split; [apply Z.div_le_lower_bound; lia|apply Z.div_lt_upper_bound; lia]. }
    destruct fuel as [|fuel]; [cbn in *; lia|].
    destruct (IH (x / 16)) as (ds & Hds & Hv & _); [lia|lia|]. exists (ds ++ [x mod 16]). split; [|split].
    + apply Forall2_app; [done|]. constructor; [by apply hex_digit_val|constructor].
    + rewrite foldl_app, Hv. cbn. lia.
    + by intros [_ ?]%app_eq_nil.
Qed.

(** Reading back a number that was printed, up to a character that does not belong to
    it. *)
Lemma scan_lx_sprintf x rest :
  0 <= x < 2 ^ 64 → (∀ c, hd_error rest = Some c → digit_val c = None ∧ c ≠ 120 ∧ c ≠ 88) →
  scan_lx (sprintf_lx x ++ rest) = ScanVal x rest.
Proof.
  intros Hx Hend. unfold sprintf_lx. destruct (hex_digits_spec 16 x) as (ds & Hds & Hv & Hne); [exact Hx|lia|].
  pose proof (scan_digits_app _ _ rest 0 0 Hds (λ c Hc, proj1 (Hend c Hc))) as Hscan. rewrite Hv in Hscan.
  unfold scan_lx. destruct (hex_digits 16 x) as [|c0 s]; [done|]. cbn [app] in *.
  apply Forall2_cons_inv_l in Hds as (d & ds' & Hd & Hds & _). pose proof (digit_val_cases _ _ Hd) as [Hc0 _].
  assert (Hsp : is_space c0 = false) by (unfold is_space; lia). cbn [skip_spaces]. rewrite Hsp. unfold scan_sign.
  rewrite (proj2 (Z.eqb_neq c0 45)), (proj2 (Z.eqb_neq c0 43)) by lia.
  assert (H0x : ∀ c1 s'', s ++ rest = c1 :: s'' → (c1 =? 120) || (c1 =? 88) = false).
  { intros c1 s'' Heq. destruct s as [|y s]; cbn [app] in Heq.
    - destruct (Hend c1) as (_ & H1 & H2); [by rewrite Heq|]. lia.
    - injection Heq as <- _. apply Forall2_cons_inv_l in Hds as (d2 & ds2 & Hy & _). apply digit_val_cases in Hy. lia. }
  destruct (s ++ rest) as [|c1 s''] eqn:E.
  - rewrite Hscan. cbn [Nat.add length Nat.eqb]. by rewrite Z.min_l by lia.
  - rewrite (H0x c1 s'' eq_refl), andb_false_r, Hscan. cbn [Nat.add length Nat.eqb]. by rewrite Z.min_l by lia.
Qed.

(** ** Signed numbers *)

Lemma sprintf_u_head x : 0 <= x < 10 ^ 20 → ∃ c t, sprintf_u x = c :: t ∧ 48 <= c <= 57.
Proof.
  intros Hx. pose proof (dec_digits_digits 20 x ltac:(lia)) as Hd. unfold sprintf_u in *.
  destruct (dec_digits 20 x) as [|c t] eqn:E; [|apply Forall_cons in Hd as [Hc _]; by exists c, t].
  cbn [dec_digits] in E. by apply app_eq_nil in E as [_ ?].
Qed.

Lemma atoi_sprintf_d x : - 2 ^ 31 <= x < 2 ^ 31 → atoi (sprintf_d x) = x.
Proof.
  intros Hx. unfold atoi, sprintf_d.
  assert (Hscan : ∀ y, 0 <= y < 2 ^ 32 → scan_digits 10 (sprintf_u y) 0 0 = (y, length (sprintf_u y), [])).
  { intros y Hy. rewrite <- (app_nil_r (sprintf_u y)) at 1. unfold sprintf_u. rewrite scan_dec_digits by lia. done. }
  destruct (Z.ltb_spec x 0) as [Hneg|Hpos].
  - change (skip_spaces (45 :: ?l)) with (45 :: l). change (scan_sign (45 :: ?l)) with (true, l). cbv iota beta.
    rewrite Hscan by lia. cbv iota beta. rewrite s32_small; lia.
  - destruct (sprintf_u_head x) as (c & t & E & Hc); [lia|].
    assert (Hs : scan_sign (skip_spaces (sprintf_u x)) = (false, sprintf_u x)).
    { rewrite E. cbn [skip_spaces]. replace (is_space c) with false by (unfold is_space; lia). unfold scan_sign.
      by rewrite (proj2 (Z.eqb_neq c 45)), (proj2 (Z.eqb_neq c 43)) by lia. }
    rewrite Hs, Hscan by lia. cbv iota beta. rewrite s32_small; lia.
Qed.
