(* ===== verification/Clock.v ===== *)
(** * The clock (src/utils.c) and the times that are logged (src/logger.c)

    The clock of the library counts nanoseconds in 64 bits.  What gettimeofday()
    and localtime_r() give are arguments. *)

From Stdlib Require Import String.
From S2P Require Import Prelude CStr.
Open Scope Z_scope.

Definition TIME_ONE_SECOND : Z := 1000000000.

(** struct timeval of <sys/time.h>. *)
Record timeval := MkTimeval { tv_sec : Z; tv_usec : Z }.

(** [mio_now]: [tv] is what gettimeofday() gives.  The sum has the type long; it
    fits until the year 2262. *)
Definition mio_now (tv : timeval) : Z := u64 (tv_sec tv * TIME_ONE_SECOND + tv_usec tv * 1000).

(** [mio_time_seconds], [mio_time_nanoseconds]. *)
Definition mio_time_seconds (time_in_nanosecs : Z) : Z := time_in_nanosecs / TIME_ONE_SECOND.
Definition mio_time_nanoseconds (time_in_nanosecs : Z) : Z := time_in_nanosecs mod TIME_ONE_SECOND.

(** struct tm of <time.h>: years since 1900, months since January. *)
Record tm := MkTm { tm_year : Z; tm_mon : Z; tm_mday : Z; tm_hour : Z; tm_min : Z; tm_sec : Z }.

(** The text that [log_time] prints; [localtime] is localtime_r().  The month is
    printed as it is, so January is 00. *)
Definition log_time_text (localtime : Z → tm) (is_fname : bool) (now : Z) : list Z :=
  let t := localtime (mio_time_seconds now) in
  let sep := str (if is_fname then "-" else ":") in
  sprintf_0d 4 (1900 + tm_year t) ++ str "-" ++ sprintf_0d 2 (tm_mon t) ++ str "-" ++
  sprintf_0d 2 (tm_mday t) ++ str "-" ++ sprintf_0d 2 (tm_hour t) ++ sep ++
  sprintf_0d 2 (tm_min t) ++ sep ++ sprintf_0d 2 (tm_sec t) ++
  (if is_fname then [] else str "." ++ sprintf_0d 9 (mio_time_nanoseconds now)).

(** The seconds and nanoseconds of the clock are those of gettimeofday(). *)
Lemma mio_now_split (tv : timeval) :
  0 <= tv_sec tv < 2 ^ 33 → 0 <= tv_usec tv < 1000000 →
  mio_time_seconds (mio_now tv) = tv_sec tv ∧ mio_time_nanoseconds (mio_now tv) = tv_usec tv * 1000.
Proof.
  intros Hs Hu. unfold mio_now, mio_time_seconds, mio_time_nanoseconds, TIME_ONE_SECOND.
  rewrite u64_small by lia. split.
  - symmetry. apply (Z.div_unique _ _ _ (tv_usec tv * 1000)); lia.
  - symmetry. apply (Z.mod_unique _ _ (tv_sec tv)); lia.
Qed.

(** A broken-down time with a year of four digits. *)
Definition tm_ok (t : tm) : Prop :=
  0 <= 1900 + tm_year t < 10000 ∧ 0 <= tm_mon t < 12 ∧ 1 <= tm_mday t <= 31 ∧
  0 <= tm_hour t < 24 ∧ 0 <= tm_min t < 60 ∧ 0 <= tm_sec t <= 60.

(** Characters that a time stamp is made of. *)
Definition time_char (c : Z) : Prop := 45 <= c <= 58.

(** Every time stamp has the same length, so the length of an old one is the
    length of a new one. *)
Lemma log_time_text_ok (localtime : Z → tm) (is_fname : bool) (now : Z) :
  tm_ok (localtime (mio_time_seconds now)) →
  length (log_time_text localtime is_fname now) = (if is_fname then 19 else 29)%nat ∧
  Forall time_char (log_time_text localtime is_fname now).
Proof.
  intros (Hy & Hmo & Hd & Hh & Hmi & Hs). unfold log_time_text.
  pose proof (Z.mod_pos_bound now TIME_ONE_SECOND ltac:(done)) as Hn.
  fold (mio_time_nanoseconds now) in Hn. unfold TIME_ONE_SECOND in Hn.
  set (t := localtime (mio_time_seconds now)) in *.
  assert (Hdig : ∀ w x, 0 <= x < 10 ^ Z.of_nat w → (0 < w)%nat →
    length (sprintf_0d w x) = w ∧ Forall time_char (sprintf_0d w x)).
  { intros w x Hx Hw. destruct (sprintf_0d_spec w x Hx Hw) as [Hl Hf]. split; [done|].
    eapply Forall_impl; [exact Hf|]. unfold time_char. lia. }
  destruct (Hdig 4%nat (1900 + tm_year t)) as [L1 F1]; [lia..|].
  destruct (Hdig 2%nat (tm_mon t)) as [L2 F2]; [lia..|].
  destruct (Hdig 2%nat (tm_mday t)) as [L3 F3]; [lia..|].
  destruct (Hdig 2%nat (tm_hour t)) as [L4 F4]; [lia..|].
  destruct (Hdig 2%nat (tm_min t)) as [L5 F5]; [lia..|].
  destruct (Hdig 2%nat (tm_sec t)) as [L6 F6]; [lia..|].
  destruct (Hdig 9%nat (mio_time_nanoseconds now)) as [L7 F7]; [lia..|].
  split.
  - destruct is_fname; rewrite !length_app, L1, L2, L3, L4, L5, L6, ?length_app, ?L7; done.
  - assert (Forall time_char (str "-") ∧ Forall time_char (str ":") ∧ Forall time_char (str "."))
      as (? & ? & ?) by (unfold time_char; split_and!; repeat constructor; vm_compute; congruence).
    destruct is_fname; rewrite !Forall_app; split_and!; done || constructor.
Qed.

Example log_time_january :
  log_time_text (λ _, MkTm 121 0 31 9 5 7) false (mio_now (MkTimeval 1612080307 42)) =
    str "2021-00-31-09:05:07.000042000".
Proof. reflexivity. Qed.
