(* ===== verification/Logger.v ===== *)
(** * The log file (src/logger.c)

    The log file is the sequence of its bytes.  The clock, the memory that an
    uninitialised array holds and the results of fwrite() are arguments, indexed
    by the number of the call of mio_log(). *)

From Stdlib Require Import String.
From S2P Require Import Prelude CStr Clock.
Open Scope Z_scope.

Definition MIO_LOG_INVALID : Z := -1.
Definition MIO_ERROR : Z := 0.
Definition MIO_WARN : Z := 1.
Definition MIO_INFO : Z := 2.
Definition MIO_TRACE : Z := 3.
Definition MIO_TELEMETRY : Z := 4.
Definition MIO_DEBUG : Z := 5.

Definition MIO_LOG_LEVEL_NAME_MAX : Z := 16.
Definition MIO_LOG_MAX_FNAME_LEN : Z := 256.
Definition MIO_LOG_MAX_REC_LEN : Z := 1024.
Definition MIO_LOG_MAX_TIMESTAMP_LEN : Z := 64.

(** mio_log_levels[lev].name *)
Definition mio_log_levels (lev : Z) : outcome (list Z) :=
  if lev =? MIO_ERROR then Done (str "error")
  else if lev =? MIO_WARN then Done (str "warning")
  else if lev =? MIO_INFO then Done (str "info")
  else if lev =? MIO_TRACE then Done (str "trace")
  else if lev =? MIO_TELEMETRY then Done (str "telem")
  else if lev =? MIO_DEBUG then Done (str "debug")
  else Fault OutOfBounds.

(** The pointer mio_log_file: NULL, a closed file or an open one with its
    contents. *)
Inductive log_file := LogNull | LogClosed | LogOpen (contents : list Z).

(** mio_log_level, mio_log_file and bytes_since_flush, and how often mio_log()
    was called. *)
Record log_state := MkLog {
  mio_log_level : Z;
  mio_log_file : log_file;
  bytes_since_flush : Z;
  log_calls : nat
}.

(** [log_time]: [now] is the text that snprintf() formats, [log_time_text] of
    Clock. *)
Definition log_time (now time_buf : list Z) (len : Z) : Z * list Z :=
  let time_buf := arr_memcpy time_buf (take (Z.to_nat (len - 1)) now ++ [0]) in
  (if len <? Z.of_nat (length now) then - E2BIG else 0, time_buf).

Section Log.

Context (clock : nat → list Z).
Context (stack : nat → list Z).
Context (fwrite_ok : nat → bool).

(** [mio_log]; [msg] is the text of the format and its arguments.  The length of
    the time stamp is taken before it is filled. *)
Definition mio_log (lev : Z) (msg : list Z) (w : log_state) : outcome log_state :=
  let i := log_calls w in
  let w := MkLog (mio_log_level w) (mio_log_file w) (bytes_since_flush w) (S i) in
  name ← mio_log_levels lev;
  let head_len := strnlen name MIO_LOG_LEVEL_NAME_MAX + 3 in
  _ ← c_assert (head_len <? MIO_LOG_MAX_REC_LEN);
  let head := take (Z.to_nat (head_len - 1)) ([91] ++ name ++ [93]) ++ [32] in
  let time_len := strnlen (until_nul (stack i)) MIO_LOG_MAX_TIMESTAMP_LEN in
  let '(rc, timestamp) := log_time (clock i) (stack i) MIO_LOG_MAX_TIMESTAMP_LEN in
  if (rc <? 0) || (MIO_LOG_MAX_REC_LEN - head_len <? time_len) then Done w else
  let head := head ++ take (Z.to_nat time_len) timestamp ++ [32] in
  let room := MIO_LOG_MAX_REC_LEN - Z.of_nat (length head) in
  let log_rec := head ++ take (Z.to_nat (room - 1)) msg ++ [0] in
  let log_rec := until_nul log_rec in
  match mio_log_file w with
  | LogNull => Fault NullDeref
  | LogClosed => Fault UseAfterFree
  | LogOpen file =>
      if negb (fwrite_ok i) then Done w
      else Done (MkLog (mio_log_level w) (LogOpen (file ++ log_rec))
                   (s32 (bytes_since_flush w + Z.of_nat (length log_rec))) (S i))
  end.
End Log.

(** [mio_log_new]: the name of the new file, or an error.  [dir] is NULL or the
    directory, [cwd] the result of getcwd() (an errno when it fails), [pid] the
    text of the process number and [fopen_rc] 0 or the errno of fopen(). *)
Definition mio_log_new (now stack : list Z) (logdir : option (list Z)) (cwd : Z + list Z)
    (appname pid : list Z) (fopen_rc : Z) : outcome (Z * option (list Z)) :=
  let '(rc, timestamp) := log_time now stack MIO_LOG_MAX_TIMESTAMP_LEN in
  if rc <? 0 then Done (rc, None) else
  match match logdir, cwd with Some d, _ => inr d | None, c => c end with
  | inl errno => Done (- errno, None)
  | inr dir =>
      let log_fname := dir ++ str "/" ++ appname ++ str "-" ++ pid ++ str "-" ++ until_nul timestamp
                         ++ str ".log" in
      if MIO_LOG_MAX_FNAME_LEN <? Z.of_nat (length log_fname) + 1 then Fault OutOfBounds else
      if fopen_rc =? 0 then Done (0, Some log_fname) else Done (- fopen_rc, None)
  end.

(** [mio_log_init]: a new, empty file. *)
Definition mio_log_init (level : Z) (now stack : list Z) (logdir : option (list Z)) (cwd : Z + list Z)
    (appname pid : list Z) (fopen_rc : Z) (w : log_state) : outcome (Z * log_state) :=
  '(rc, _) ← mio_log_new now stack logdir cwd appname pid fopen_rc;
  if rc <? 0 then Done (rc, w)
  else Done (0, MkLog level (LogOpen []) (bytes_since_flush w) (log_calls w)).

(** [mio_log_fini]: mio_log_file keeps pointing to the closed file. *)
Definition mio_log_fini (w : log_state) : outcome log_state :=
  match mio_log_file w with
  | LogNull => Fault NullDeref
  | LogClosed => Fault DoubleFree
  | LogOpen _ => Done (MkLog (mio_log_level w) LogClosed (bytes_since_flush w) (log_calls w))
  end.

(** ** What a log entry is *)

(** The start of an entry: the name of its level in brackets. *)
Definition log_head (name : list Z) : list Z := [91] ++ name ++ [93; 32].

Lemma mio_log_levels_name lev name :
  mio_log_levels lev = Done name → no_nul name ∧ 0 < Z.of_nat (length name) <= 7.
Proof.
  unfold mio_log_levels. repeat case_match; intros [= <-];
    (split; [by repeat constructor|split; vm_compute; congruence]).
Qed.

Lemma no_nul_take s n : no_nul s → no_nul (take n s).
Proof. apply Forall_take. Qed.

(** The bytes that one call of mio_log() writes. *)
Definition log_entry (name now junk msg : list Z) : list Z :=
  let n := length (until_nul junk) in
  if decide (n <= length now)%nat then
    let head := log_head name ++ take n now ++ [32] in
    head ++ take (1023 - length head) msg
  else log_head name ++ now.

Lemma mio_log_spec clock stack fwrite_ok lev name msg w file :
  mio_log_levels lev = Done name → mio_log_file w = LogOpen file →
  let i := log_calls w in
  fwrite_ok i = true →
  length (stack i) = 64%nat → no_nul (clock i) → (length (clock i) <= 63)%nat → no_nul msg →
  let entry := log_entry name (clock i) (stack i) msg in
  mio_log clock stack fwrite_ok lev msg w =
    Done (MkLog (mio_log_level w) (LogOpen (file ++ entry))
            (s32 (bytes_since_flush w + Z.of_nat (length entry))) (S i)).
Proof.
  intros Hname Hfile i Hok Hst Hnow Hlen Hmsg entry. unfold mio_log. fold i.
  destruct (mio_log_levels_name _ _ Hname) as [Hnn Hnl].
  rewrite Hname. cbn [mbind outcome_bind].
  unfold strnlen, MIO_LOG_LEVEL_NAME_MAX, MIO_LOG_MAX_REC_LEN, MIO_LOG_MAX_TIMESTAMP_LEN.
  rewrite (Z.min_l _ 16) by lia. rewrite (proj2 (Z.ltb_lt _ 1024)) by lia. cbn [c_assert mbind outcome_bind].
  assert (Hjunk : (length (until_nul (stack i)) <= 64)%nat).
  { rewrite <- Hst. generalize (stack i). intros l. induction l as [|c l IH]; [simpl; lia|].
    cbn [until_nul]. destruct (c =? 0); simpl; lia. }
  rewrite Z.min_l, Nat2Z.id by lia. unfold log_time.
  rewrite (proj2 (Z.ltb_ge 64 _)) by lia.
  rewrite (proj2 (Z.ltb_ge 0 0)), (proj2 (Z.ltb_ge _ (Z.of_nat (length (until_nul (stack i)))))) by lia.
  cbn [orb]. rewrite Hfile, Hok. cbn [negb mio_log_level bytes_since_flush].
  set (n := length (until_nul (stack i))) in *.
  replace (Z.to_nat (Z.of_nat (length name) + 3 - 1)) with (length ([91] ++ name ++ [93]))
    by (rewrite !length_app; simpl; lia).
  rewrite firstn_all, (take_ge (clock i)) by lia.
  replace (([91] ++ name ++ [93]) ++ [32]) with (log_head name)
    by (unfold log_head; rewrite <- !app_assoc; done).
  assert (Hentry : until_nul
    ((log_head name ++ take n (arr_memcpy (stack i) (clock i ++ [0])) ++ [32]) ++
     take (Z.to_nat (1024 - Z.of_nat (length (log_head name ++
       take n (arr_memcpy (stack i) (clock i ++ [0])) ++ [32])) - 1)) msg ++ [0]) = entry).
  { assert (Hh : no_nul (log_head name)).
    { apply Forall_app; split; [by repeat constructor|]. apply Forall_app; split; [done|by repeat constructor]. }
    unfold entry, log_entry. fold n. unfold arr_memcpy. case_decide as Hn.
    - rewrite <- (app_assoc (clock i) [0]). rewrite take_app_le by lia.
      set (h := log_head name ++ take n (clock i) ++ [32]).
      assert (no_nul h). { apply Forall_app; split; [done|]. apply Forall_app; split; [by apply Forall_take|by repeat constructor]. }
      rewrite until_nul_app by done. rewrite until_nul_app by (by apply Forall_take). cbn [until_nul Z.eqb].
      rewrite app_nil_r. do 2 f_equal. lia.
    - rewrite <- (app_assoc (clock i)). rewrite take_app_ge by lia.
      rewrite <- !app_assoc. rewrite until_nul_app, until_nul_app by done.
      destruct (n - length (clock i))%nat as [|m] eqn:E; [lia|].
      cbn [app take until_nul Z.eqb]. by rewrite app_nil_r. }
  by rewrite Hentry.
Qed.

(** Log entries.  mio_log() appends one entry to the file: the level in
    brackets, the time, a blank and the message, cut to the 1023 bytes the
    buffer takes.  The time is whole only when the memory of the local array
    happens to hold a text of the same length: a shorter text there shortens the
    time, and after a longer one the entry ends with the time, without the
    message and without the end of the line.  A write that fails leaves the file
    as it was. *)
Theorem mio_log_appends_entry (clock stack : nat → list Z) (fwrite_ok : nat → bool) (lev : Z)
    (name msg : list Z) (w : log_state) (file : list Z)
  (Hname : mio_log_levels lev = Done name) (Hfile : mio_log_file w = LogOpen file)
  (Hstack : length (stack (log_calls w)) = 64%nat)
  (Hclock : no_nul (clock (log_calls w)) ∧ (length (clock (log_calls w)) <= 63)%nat)
  (Hmsg : no_nul msg) (Hok : fwrite_ok (log_calls w) = true) :
  ∃ w' entry, mio_log clock stack fwrite_ok lev msg w = Done w' ∧
    mio_log_file w' = LogOpen (file ++ entry) ∧
    let now := clock (log_calls w) in
    let n := length (until_nul (stack (log_calls w))) in
    (n = length now → entry = take 1023 ([91] ++ name ++ [93; 32] ++ now ++ [32] ++ msg)) ∧
    ((n < length now)%nat → entry = take 1023 ([91] ++ name ++ [93; 32] ++ take n now ++ [32] ++ msg)) ∧
    ((length now < n)%nat → entry = [91] ++ name ++ [93; 32] ++ now).
Proof.
  destruct Hclock as [Hnow Hlen].
  rewrite (mio_log_spec _ _ _ _ _ _ _ _ Hname Hfile Hok Hstack Hnow Hlen Hmsg).
  eexists _, _. split; [done|]. split; [done|]. cbn zeta.
  destruct (mio_log_levels_name _ _ Hname) as [_ Hnl].
  assert (Hcut : ∀ t, (length t <= 63)%nat →
    (log_head name ++ t ++ [32]) ++ take (1023 - length (log_head name ++ t ++ [32])) msg =
    take 1023 ([91] ++ name ++ [93; 32] ++ t ++ [32] ++ msg)).
  { intros t Ht. replace ([91] ++ name ++ [93; 32] ++ t ++ [32] ++ msg) with
      ((log_head name ++ t ++ [32]) ++ msg) by (unfold log_head; rewrite <- !app_assoc; done).
    rewrite (take_app_ge (log_head name ++ t ++ [32])); [done|].
    unfold log_head. rewrite !length_app. simpl. lia. }
  unfold log_entry. split_and!; intros Hn.
  - rewrite decide_True by lia. rewrite (take_ge (clock _)) by lia. by apply Hcut.
  - rewrite decide_True by lia. apply Hcut. rewrite length_take. lia.
  - rewrite decide_False by lia. unfold log_head. by rewrite <- !app_assoc.
Qed.

Definition ex_log_state : log_state := MkLog MIO_INFO (LogOpen (str "x")) 0 0.

Lemma mio_log_appends_entry_witness :
  (∃ w', mio_log (λ _, str "12:00") (λ _, str "aaaaa" ++ replicate 59 0) (λ _, true) MIO_TELEMETRY
      (str "m") ex_log_state = Done w' ∧ mio_log_file w' = LogOpen (str "x[telem] 12:00 m")) ∧
  (∃ w', mio_log (λ _, str "12:00") (λ _, replicate 64 97) (λ _, true) MIO_TELEMETRY
      (str "m") ex_log_state = Done w' ∧ mio_log_file w' = LogOpen (str "x[telem] 12:00")).
Proof.
  split.
  - destruct (mio_log_appends_entry (λ _, str "12:00") (λ _, str "aaaaa" ++ replicate 59 0) (λ _, true)
      MIO_TELEMETRY (str "telem") (str "m") ex_log_state (str "x")) as (w' & e & H1 & H2 & H3 & _);
      [reflexivity|reflexivity|reflexivity|split; [by repeat constructor|simpl; lia]|by repeat constructor|reflexivity|].
    exists w'. split; [exact H1|]. rewrite H2, H3 by reflexivity. reflexivity.
  - destruct (mio_log_appends_entry (λ _, str "12:00") (λ _, replicate 64 97) (λ _, true)
      MIO_TELEMETRY (str "telem") (str "m") ex_log_state (str "x")) as (w' & e & H1 & H2 & _ & _ & H3);
      [reflexivity|reflexivity|reflexivity|split; [by repeat constructor|simpl; lia]|by repeat constructor|reflexivity|].
    exists w'. split; [exact H1|]. rewrite H2, H3 by (vm_compute; lia). reflexivity.
Defined.
