(* ===== verification/Conf.v ===== *)
(** * Configuration (src/mio_conf.c)

    [mio_conf_init] scans the tokens of a YAML file.  A scalar after a key token
    selects an entry of the table of keys, a scalar after a value token is stored
    in the variable of that entry; a sequence under MOTR_POOLS fills the table of
    pools.  libyaml's scanner is outside the program: its tokens are the input,
    and once they are used up (the scanner has failed) it gives no token for
    ever, as libyaml documents. *)

From Stdlib Require Import String.
From S2P Require Import Prelude ObjId HintMap Types Hints Pools CStr Logger.
Open Scope Z_scope.

(** ** The table of keys *)
Inductive conf_type := MIO | MOTR | CEPH.

Inductive conf_key :=
| MIO_CONF_INVALID
| MIO_CONFIG | MIO_LOG_LEVEL | MIO_LOG_DIR | MIO_DRIVER | MIO_TELEMETRY_STORE
| MIO_TELEMETRY_PREFIX
| MOTR_CONFIG | MOTR_INST_ADDR | MOTR_HA_ADDR | MOTR_PROFILE | MOTR_PROCESS_FID
| MOTR_IS_OOSTORE | MOTR_IS_READ_VERIFY | MOTR_TM_RECV_QUEUE_MIN_LEN
| MOTR_MAX_RPC_MSG_SIZE | MOTR_MAX_IOSIZE_PER_DEV | MOTR_DEFAULT_UNIT_SIZE
| MOTR_USER_GROUP | MOTR_POOLS | MOTR_POOL_NAME | MOTR_POOL_ID | MOTR_POOL_TYPE
| MOTR_POOL_DEFAULT.

#[global] Instance conf_key_eq_dec : EqDecision conf_key.
Proof. solve_decision. Defined.

(** An entry of conf_table with its index. *)
Record conf_entry := MkEntry { ce_key : conf_key; ce_name : string; ce_type : conf_type }.

Definition conf_table : list conf_entry := [
  MkEntry MIO_CONFIG "MIO_CONFIG" MIO;
  MkEntry MIO_LOG_LEVEL "MIO_LOG_LEVEL" MIO;
  MkEntry MIO_LOG_DIR "MIO_LOG_DIR" MIO;
  MkEntry MIO_DRIVER "MIO_DRIVER" MIO;
  MkEntry MIO_TELEMETRY_STORE "MIO_TELEMETRY_STORE" MIO;
  MkEntry MIO_TELEMETRY_PREFIX "MIO_TELEMETRY_PREFIX" MIO;
  MkEntry MOTR_CONFIG "MOTR_CONFIG" MOTR;
  MkEntry MOTR_INST_ADDR "MOTR_INST_ADDR" MOTR;
  MkEntry MOTR_HA_ADDR "MOTR_HA_ADDR" MOTR;
  MkEntry MOTR_PROFILE "MOTR_PROFILE" MOTR;
  MkEntry MOTR_PROCESS_FID "MOTR_PROCESS_FID" MOTR;
  MkEntry MOTR_IS_OOSTORE "MOTR_IS_OOSTORE" MOTR;
  MkEntry MOTR_IS_READ_VERIFY "MOTR_IS_READ_VERIFY" MOTR;
  MkEntry MOTR_TM_RECV_QUEUE_MIN_LEN "MOTR_TM_RECV_QUEUE_MIN_LEN" MOTR;
  MkEntry MOTR_MAX_RPC_MSG_SIZE "MOTR_MAX_RPC_MSG_SIZE" MOTR;
  MkEntry MOTR_MAX_IOSIZE_PER_DEV "MOTR_MAX_IOSIZE_PER_DEV" MOTR;
  MkEntry MOTR_DEFAULT_UNIT_SIZE "MOTR_DEFAULT_UNIT_SIZE" MOTR;
  MkEntry MOTR_USER_GROUP "MOTR_USER_GROUP" MOTR;
  MkEntry MOTR_POOLS "MOTR_POOLS" MOTR;
  MkEntry MOTR_POOL_NAME "MOTR_POOL_NAME" MOTR;
  MkEntry MOTR_POOL_ID "MOTR_POOL_ID" MOTR;
  MkEntry MOTR_POOL_TYPE "MOTR_POOL_TYPE" MOTR;
  MkEntry MOTR_POOL_DEFAULT "MOTR_POOL_DEFAULT" MOTR].

(** [conf_table[key].type]; the table is not indexed with MIO_CONF_INVALID. *)
Definition conf_table_type (key : conf_key) : outcome conf_type :=
  match list_find (λ e, ce_key e = key) conf_table with
  | Some (_, e) => Done (ce_type e)
  | None => Fault OutOfBounds
  end.

(** The loop of [conf_token_to_key]. *)
Fixpoint token_to_key_loop (table : list conf_entry) (token : list Z) : option conf_key :=
  match table with
  | [] => None
  | e :: table' =>
      match strstr token (str (ce_name e)) with
      | Some s1 => if bool_decide (s1 = str (ce_name e)) then Some (ce_key e)
                   else token_to_key_loop table' token
      | None => token_to_key_loop table' token
      end
  end.

Definition conf_token_to_key (token : list Z) (key : conf_key) : Z * conf_key :=
  match token_to_key_loop conf_table token with Some k => (0, k) | None => (-1, key) end.

(** ** Words *)
Definition MIO_DRIVER_INVALID : Z := -1.
Definition MIO_MOTR : Z := 0.
Definition MIO_TM_ST_INVALID : Z := -1.
Definition MIO_TM_ST_NONE : Z := 0.
Definition MIO_TM_ST_LOG : Z := 1.
Definition MIO_TM_ST_ADDB : Z := 2.

(** strcmp() of a value with a literal. *)
Definition is_word (value : list Z) (w : string) : bool := bool_decide (value = str w).

Definition conf_get_driver_id (value : list Z) : Z :=
  if is_word value "MOTR" then MIO_MOTR else MIO_DRIVER_INVALID.

Definition conf_get_telem_store_type (value : list Z) : Z :=
  if is_word value "ADDB" then MIO_TM_ST_ADDB
  else if is_word value "LOG" then MIO_TM_ST_LOG
  else MIO_TM_ST_NONE.

Definition conf_get_log_level (value : list Z) : Z :=
  if is_word value "MIO_ERROR" then MIO_ERROR
  else if is_word value "MIO_WARN" then MIO_WARN
  else if is_word value "MIO_INFO" then MIO_INFO
  else if is_word value "MIO_TRACE" then MIO_TRACE
  else if is_word value "MIO_TELEMETRY" then MIO_TELEMETRY
  else if is_word value "MIO_DEBUG" then MIO_DEBUG
  else MIO_LOG_INVALID.

(** [conf_copy_str]: strncpy() of [len] bytes into a block of [len] bytes; [to]
    is the old value of the pointer. *)
Definition conf_copy_str (to : cfield cstr) (from : list Z) (len : Z) (p : mplan)
  : Z * cfield cstr * mplan :=
  let '(ok, p) := plan_next p in
  if negb ok then (- ENOMEM, Init None, p)
  else
    let l := take (Z.to_nat len) (from ++ [0]) in
    (0, Init (Some (l ++ replicate (Z.to_nat len - length l) 0)), p).

Definition conf_extract_pool_type (ptype : Z) (type_str : list Z) : Z * Z :=
  if is_word type_str "NVM" then (0, MIO_POOL_TYPE_NVM)
  else if is_word type_str "SSD" then (0, MIO_POOL_TYPE_SSD)
  else if is_word type_str "HDD" then (0, MIO_POOL_TYPE_HDD)
  else (- EINVAL, ptype).

(** sscanf(id_str, "%lx : %lx %n", ...): its result and the two values, which are
    uninitialised when they are not matched. *)
Definition sscanf_pool_id (id_str : list Z) : Z * option Z * option Z :=
  match scan_lx id_str with
  | ScanEof => (-1, None, None)
  | ScanNone => (0, None, None)
  | ScanVal u1 rest =>
      match skip_spaces rest with
      | c :: rest =>
          if c =? 58 then
            match scan_lx rest with
            | ScanVal u2 _ => (2, Some u1, Some u2)
            | _ => (1, Some u1, None)
            end
          else (1, Some u1, None)
      | [] => (1, Some u1, None)
      end
  end.

Definition conf_pool_id_sscanf (pool_id : mio_pool_id) (id_str : list Z) : outcome (Z * mio_pool_id) :=
  let '(rc, u1, u2) := sscanf_pool_id id_str in
  if rc <? 0 then Done (rc, pool_id) else
  match u1, u2 with
  | Some u1, Some u2 => Done (0, MkPoolId u1 u2)
  | _, _ => Fault UninitRead
  end.

(** ** State: the variables of the file and the MIO instance *)
Record mio_inst := MkInst {
  m_telem_store_type : Z;
  m_telem_prefix : cfield cstr;
  m_log_level : Z;
  m_log_dir : cfield cstr;
  m_driver_id : Z;
  m_driver : bool;             (* m_driver is set *)
  m_driver_confs : bool        (* m_driver_confs is not NULL *)
}.

Record conf := MkConf {
  conf_which_blk_seq : Z;
  mio_inst_drv_id : Z;
  mio_inst_telem_store_type : Z;
  motr_conf : option mio_motr_config;
  mio_default_pool_name : list Z;
  the_pools : mio_pools;
  the_inst : mio_inst
}.

Definition CONF_BLK_SEQ_MOTR_POOLS : Z := 1.
Definition YAML_MAX_VAL_LEN : Z := 128.

Definition set_blk_seq (x : Z) (c : conf) : conf :=
  MkConf x (mio_inst_drv_id c) (mio_inst_telem_store_type c) (motr_conf c)
    (mio_default_pool_name c) (the_pools c) (the_inst c).
Definition set_drv_id (x : Z) (c : conf) : conf :=
  MkConf (conf_which_blk_seq c) x (mio_inst_telem_store_type c) (motr_conf c)
    (mio_default_pool_name c) (the_pools c) (the_inst c).
Definition set_telem_type (x : Z) (c : conf) : conf :=
  MkConf (conf_which_blk_seq c) (mio_inst_drv_id c) x (motr_conf c)
    (mio_default_pool_name c) (the_pools c) (the_inst c).
Definition set_motr_conf (x : option mio_motr_config) (c : conf) : conf :=
  MkConf (conf_which_blk_seq c) (mio_inst_drv_id c) (mio_inst_telem_store_type c) x
    (mio_default_pool_name c) (the_pools c) (the_inst c).
Definition set_default_name (x : list Z) (c : conf) : conf :=
  MkConf (conf_which_blk_seq c) (mio_inst_drv_id c) (mio_inst_telem_store_type c) (motr_conf c)
    x (the_pools c) (the_inst c).
Definition set_pools (x : mio_pools) (c : conf) : conf :=
  MkConf (conf_which_blk_seq c) (mio_inst_drv_id c) (mio_inst_telem_store_type c) (motr_conf c)
    (mio_default_pool_name c) x (the_inst c).
Definition set_inst (x : mio_inst) (c : conf) : conf :=
  MkConf (conf_which_blk_seq c) (mio_inst_drv_id c) (mio_inst_telem_store_type c) (motr_conf c)
    (mio_default_pool_name c) (the_pools c) x.

(** ** Allocation *)
Definition MIO_MOTR_DEFAULT_IOSIZE_PER_DEV : Z := 128 * 4096.

(** The structure just after malloc(). *)
Definition motr_conf_fresh : mio_motr_config :=
  MkMotrConf Uninit Uninit Uninit Uninit Uninit Uninit Uninit Uninit Uninit Uninit
    MIO_MOTR_DEFAULT_IOSIZE_PER_DEV Uninit Uninit.

Definition conf_alloc_driver (key : conf_key) (c : conf) (p : mplan) : outcome (Z * conf * mplan) :=
  type ← conf_table_type key;
  match type with
  | MOTR =>
      match motr_conf c with
      | Some _ => Done (0, c, p)
      | None =>
          let '(ok, p) := plan_next p in
          if ok then Done (0, set_motr_conf (Some motr_conf_fresh) c, p) else Done (- ENOMEM, c, p)
      end
  | CEPH => Done (- EINVAL, c, p)
  | MIO => Done (0, c, p)
  end.

(** free() of a string field. *)
Definition free_str (s : cfield cstr) : outcome unit :=
  match s with Uninit => Fault UninitRead | Init _ => Done tt end.

Definition conf_free_drivers (c : conf) : outcome conf :=
  match motr_conf c with
  | None => Done c
  | Some m =>
      _ ← free_str (mc_motr_local_addr m);
      _ ← free_str (mc_ha_addr m);
      _ ← free_str (mc_process_fid m);
      _ ← free_str (mc_profile m);
      Done (set_motr_conf None c)
  end.

Definition pool_zero : mio_pool :=
  MkPool (replicate 33 0) (MkPoolId 0 0) 0 0 0 0 (replicate 16 0).
Definition pools_zero : mio_pools := MkPools 0 (replicate 33 0) 0 None.

Definition conf_alloc_mio_pools (c : conf) (p : mplan) : Z * conf * mplan :=
  let '(ok, p) := plan_next p in
  if ok then
    (0, set_pools (MkPools 0 (replicate 33 0) 0
                     (Some (replicate (Z.to_nat MIO_MOTR_MAX_POOL_CNT) pool_zero))) c, p)
  else (- ENOMEM, set_pools pools_zero c, p).

Definition conf_free_mio_pools (c : conf) : conf := set_pools pools_zero c.

(** ** Blocks *)
Definition conf_start_block (c : conf) : outcome (Z * conf) :=
  if conf_which_blk_seq c =? CONF_BLK_SEQ_MOTR_POOLS then
    let pools := the_pools c in
    if mps_nr_pools pools + 1 =? MIO_MOTR_MAX_POOL_CNT then Done (- E2BIG, c)
    else
      _ ← pool_at pools (mps_nr_pools pools);
      let pools' := pool_put (mps_nr_pools pools) pool_zero pools in
      Done (0, set_pools (MkPools (mps_default_pool_idx pools') (mps_default_pool_name pools')
                            (mps_nr_pools pools' + 1) (mps_pools pools')) c)
  else Done (0, c).

Definition conf_extract_blk_seq (key : conf_key) (c : conf) (p : mplan) : Z * conf * mplan :=
  match key with
  | MOTR_POOLS => conf_alloc_mio_pools (set_blk_seq CONF_BLK_SEQ_MOTR_POOLS c) p
  | _ => (0, c, p)
  end.

Definition conf_extract_key (key : conf_key) (token : list Z) (c : conf) (p : mplan)
  : outcome (Z * conf_key * conf * mplan) :=
  let '(rc, key) := conf_token_to_key token key in
  if rc <? 0 then Done (rc, key, c, p) else
  '(rc, c, p) ← conf_alloc_driver key c p;
  Done (rc, key, c, p).

(** ** Values *)

(** The fields of the driver's configuration. *)
Definition set_local_addr x m := MkMotrConf (mc_is_oostore m) (mc_is_read_verify m) x (mc_ha_addr m)
  (mc_process_fid m) (mc_profile m) (mc_tm_recv_queue_min_len m) (mc_max_rpc_msg_size m)
  (mc_unit_size m) (mc_default_layout_id m) (mc_max_iosize_per_dev m) (mc_motr_group m) (mc_is_addb_on m).
Definition set_ha_addr x m := MkMotrConf (mc_is_oostore m) (mc_is_read_verify m) (mc_motr_local_addr m) x
  (mc_process_fid m) (mc_profile m) (mc_tm_recv_queue_min_len m) (mc_max_rpc_msg_size m)
  (mc_unit_size m) (mc_default_layout_id m) (mc_max_iosize_per_dev m) (mc_motr_group m) (mc_is_addb_on m).
Definition set_process_fid x m := MkMotrConf (mc_is_oostore m) (mc_is_read_verify m) (mc_motr_local_addr m)
  (mc_ha_addr m) x (mc_profile m) (mc_tm_recv_queue_min_len m) (mc_max_rpc_msg_size m)
  (mc_unit_size m) (mc_default_layout_id m) (mc_max_iosize_per_dev m) (mc_motr_group m) (mc_is_addb_on m).
Definition set_profile x m := MkMotrConf (mc_is_oostore m) (mc_is_read_verify m) (mc_motr_local_addr m)
  (mc_ha_addr m) (mc_process_fid m) x (mc_tm_recv_queue_min_len m) (mc_max_rpc_msg_size m)
  (mc_unit_size m) (mc_default_layout_id m) (mc_max_iosize_per_dev m) (mc_motr_group m) (mc_is_addb_on m).
Definition set_motr_group x m := MkMotrConf (mc_is_oostore m) (mc_is_read_verify m) (mc_motr_local_addr m)
  (mc_ha_addr m) (mc_process_fid m) (mc_profile m) (mc_tm_recv_queue_min_len m) (mc_max_rpc_msg_size m)
  (mc_unit_size m) (mc_default_layout_id m) (mc_max_iosize_per_dev m) x (mc_is_addb_on m).
Definition set_tm_len x m := MkMotrConf (mc_is_oostore m) (mc_is_read_verify m) (mc_motr_local_addr m)
  (mc_ha_addr m) (mc_process_fid m) (mc_profile m) x (mc_max_rpc_msg_size m)
  (mc_unit_size m) (mc_default_layout_id m) (mc_max_iosize_per_dev m) (mc_motr_group m) (mc_is_addb_on m).
Definition set_rpc_size x m := MkMotrConf (mc_is_oostore m) (mc_is_read_verify m) (mc_motr_local_addr m)
  (mc_ha_addr m) (mc_process_fid m) (mc_profile m) (mc_tm_recv_queue_min_len m) x
  (mc_unit_size m) (mc_default_layout_id m) (mc_max_iosize_per_dev m) (mc_motr_group m) (mc_is_addb_on m).
Definition set_iosize x m := MkMotrConf (mc_is_oostore m) (mc_is_read_verify m) (mc_motr_local_addr m)
  (mc_ha_addr m) (mc_process_fid m) (mc_profile m) (mc_tm_recv_queue_min_len m) (mc_max_rpc_msg_size m)
  (mc_unit_size m) (mc_default_layout_id m) x (mc_motr_group m) (mc_is_addb_on m).
Definition set_unit_size x y m := MkMotrConf (mc_is_oostore m) (mc_is_read_verify m) (mc_motr_local_addr m)
  (mc_ha_addr m) (mc_process_fid m) (mc_profile m) (mc_tm_recv_queue_min_len m) (mc_max_rpc_msg_size m)
  x y (mc_max_iosize_per_dev m) (mc_motr_group m) (mc_is_addb_on m).
Definition set_oostore x m := MkMotrConf x (mc_is_read_verify m) (mc_motr_local_addr m)
  (mc_ha_addr m) (mc_process_fid m) (mc_profile m) (mc_tm_recv_queue_min_len m) (mc_max_rpc_msg_size m)
  (mc_unit_size m) (mc_default_layout_id m) (mc_max_iosize_per_dev m) (mc_motr_group m) (mc_is_addb_on m).
Definition set_read_verify x m := MkMotrConf (mc_is_oostore m) x (mc_motr_local_addr m)
  (mc_ha_addr m) (mc_process_fid m) (mc_profile m) (mc_tm_recv_queue_min_len m) (mc_max_rpc_msg_size m)
  (mc_unit_size m) (mc_default_layout_id m) (mc_max_iosize_per_dev m) (mc_motr_group m) (mc_is_addb_on m).

Section Parse.

(** m0_obj_unit_size_to_layout_id() of Motr. *)
Context (unit_size_to_layout_id : Z → Z).

(** A string value goes to a field of the driver's configuration. *)
Definition extract_motr_str (get : mio_motr_config → cfield cstr)
    (set : cfield cstr → mio_motr_config → mio_motr_config)
    (value : list Z) (vlen : Z) (c : conf) (p : mplan) : outcome (Z * conf * mplan) :=
  match motr_conf c with
  | None => Fault NullDeref
  | Some m =>
      let '(rc, s, p) := conf_copy_str (get m) value vlen p in
      Done (rc, set_motr_conf (Some (set s m)) c, p)
  end.

Definition extract_motr (set : mio_motr_config → mio_motr_config) (c : conf) (p : mplan)
  : outcome (Z * conf * mplan) :=
  match motr_conf c with
  | None => Fault NullDeref
  | Some m => Done (0, set_motr_conf (Some (set m)) c, p)
  end.

(** A value goes to a field of the pool added last. *)
Definition extract_pool (set : mio_pool → outcome (Z * mio_pool)) (c : conf) (p : mplan)
  : outcome (Z * conf * mplan) :=
  let i := mps_nr_pools (the_pools c) - 1 in
  pool ← pool_at (the_pools c) i;
  '(rc, pool) ← set pool;
  Done (rc, set_pools (pool_put i pool (the_pools c)) c, p).

(** The bytes that memcpy(array, value, slen + 1) copies. *)
Definition name_bytes (value : list Z) : list Z :=
  take (Z.to_nat (strnlen value MIO_POOL_MAX_NAME_LEN + 1)) (value ++ [0]).

Definition set_pool_name (value : list Z) (pool : mio_pool) : outcome (Z * mio_pool) :=
  if MIO_POOL_MAX_NAME_LEN <? strnlen value MIO_POOL_MAX_NAME_LEN then Done (- EINVAL, pool)
  else Done (0, MkPool (arr_memcpy (mp_name pool) (name_bytes value)) (mp_id pool) (mp_type pool)
                  (mp_capacity pool) (mp_opt_alignment pool) (mp_nr_opt_blksizes pool)
                  (mp_opt_blksizes pool)).

Definition set_pool_id (value : list Z) (pool : mio_pool) : outcome (Z * mio_pool) :=
  '(rc, id) ← conf_pool_id_sscanf (mp_id pool) value;
  Done (rc, MkPool (mp_name pool) id (mp_type pool) (mp_capacity pool) (mp_opt_alignment pool)
              (mp_nr_opt_blksizes pool) (mp_opt_blksizes pool)).

Definition set_pool_type (value : list Z) (pool : mio_pool) : outcome (Z * mio_pool) :=
  let '(rc, type) := conf_extract_pool_type (mp_type pool) value in
  Done (rc, MkPool (mp_name pool) (mp_id pool) type (mp_capacity pool) (mp_opt_alignment pool)
              (mp_nr_opt_blksizes pool) (mp_opt_blksizes pool)).

(** [conf_extract_value]. *)
Definition conf_extract_value (key : conf_key) (value : list Z) (vlen : Z) (c : conf) (p : mplan)
  : outcome (Z * conf * mplan) :=
  let inst := the_inst c in
  match key with
  | MIO_DRIVER =>
      let id := conf_get_driver_id value in
      Done (if id =? MIO_DRIVER_INVALID then - EINVAL else 0, set_drv_id id c, p)
  | MIO_TELEMETRY_STORE =>
      let type := conf_get_telem_store_type value in
      Done (if type =? MIO_TM_ST_INVALID then - EINVAL else 0, set_telem_type type c, p)
  | MIO_TELEMETRY_PREFIX =>
      let '(rc, s, p) := conf_copy_str (m_telem_prefix inst) value vlen p in
      Done (rc, set_inst (MkInst (m_telem_store_type inst) s (m_log_level inst) (m_log_dir inst)
                            (m_driver_id inst) (m_driver inst) (m_driver_confs inst)) c, p)
  | MIO_LOG_LEVEL =>
      let level := conf_get_log_level value in
      Done (if level =? MIO_LOG_INVALID then - EINVAL else 0,
            set_inst (MkInst (m_telem_store_type inst) (m_telem_prefix inst) level (m_log_dir inst)
                        (m_driver_id inst) (m_driver inst) (m_driver_confs inst)) c, p)
  | MIO_LOG_DIR =>
      let '(rc, s, p) := conf_copy_str (m_log_dir inst) value vlen p in
      Done (rc, set_inst (MkInst (m_telem_store_type inst) (m_telem_prefix inst) (m_log_level inst) s
                            (m_driver_id inst) (m_driver inst) (m_driver_confs inst)) c, p)
  | MOTR_INST_ADDR => extract_motr_str mc_motr_local_addr set_local_addr value vlen c p
  | MOTR_HA_ADDR => extract_motr_str mc_ha_addr set_ha_addr value vlen c p
  | MOTR_PROFILE => extract_motr_str mc_profile set_profile value vlen c p
  | MOTR_PROCESS_FID => extract_motr_str mc_process_fid set_process_fid value vlen c p
  | MOTR_TM_RECV_QUEUE_MIN_LEN => extract_motr (set_tm_len (Init (u32 (atoi value)))) c p
  | MOTR_MAX_RPC_MSG_SIZE => extract_motr (set_rpc_size (Init (u32 (atoi value)))) c p
  | MOTR_MAX_IOSIZE_PER_DEV => extract_motr (set_iosize (u64 (atoi value))) c p
  | MOTR_DEFAULT_UNIT_SIZE =>
      extract_motr (set_unit_size (Init (atoi value))
                      (Init (s32 (unit_size_to_layout_id (atoi value))))) c p
  | MOTR_IS_OOSTORE => extract_motr (set_oostore (Init (negb (atoi value =? 0)))) c p
  | MOTR_IS_READ_VERIFY => extract_motr (set_read_verify (Init (negb (atoi value =? 0)))) c p
  | MOTR_USER_GROUP => extract_motr_str mc_motr_group set_motr_group value vlen c p
  | MOTR_POOL_DEFAULT =>
      if MIO_POOL_MAX_NAME_LEN <? strnlen value MIO_POOL_MAX_NAME_LEN then Done (- EINVAL, c, p)
      else Done (0, set_default_name (arr_memcpy (mio_default_pool_name c) (name_bytes value)) c, p)
  | MOTR_POOL_NAME => extract_pool (set_pool_name value) c p
  | MOTR_POOL_ID => extract_pool (set_pool_id value) c p
  | MOTR_POOL_TYPE => extract_pool (set_pool_type value) c p
  | _ => Done (0, c, p)
  end.

(** ** The scan *)
Inductive yaml_token :=
| YAML_KEY_TOKEN | YAML_VALUE_TOKEN | YAML_SCALAR_TOKEN (value : list Z)
| YAML_BLOCK_MAPPING_START_TOKEN | YAML_BLOCK_SEQUENCE_START_TOKEN | YAML_BLOCK_ENTRY_TOKEN
| YAML_BLOCK_END_TOKEN | YAML_STREAM_END_TOKEN | YAML_OTHER_TOKEN.

(** One token: the return code with the local variables key and is_key. *)
Definition conf_token (token : yaml_token) (is_key : bool) (key : conf_key) (c : conf) (p : mplan)
  : outcome (Z * bool * conf_key * conf * mplan) :=
  match token with
  | YAML_KEY_TOKEN => Done (0, true, key, c, p)
  | YAML_VALUE_TOKEN => Done (0, false, key, c, p)
  | YAML_SCALAR_TOKEN value =>
      if is_key then
        '(rc, key, c, p) ← conf_extract_key key value c p; Done (rc, is_key, key, c, p)
      else
        let scalar_vlen := strnlen value YAML_MAX_VAL_LEN in
        '(rc, c, p) ← conf_extract_value key value scalar_vlen c p; Done (rc, is_key, key, c, p)
  | YAML_BLOCK_SEQUENCE_START_TOKEN =>
      let '(rc, c, p) := conf_extract_blk_seq key c p in Done (rc, is_key, key, c, p)
  | YAML_BLOCK_ENTRY_TOKEN => '(rc, c) ← conf_start_block c; Done (rc, is_key, key, c, p)
  | _ => Done (0, is_key, key, c, p)
  end.

(** The while loop, up to the end of the stream or the first error. *)
Fixpoint conf_scan (tokens : list yaml_token) (is_key : bool) (key : conf_key) (c : conf) (p : mplan)
  : outcome (Z * conf * mplan) :=
  match tokens with
  | [] => Fault NoTermination
  | YAML_STREAM_END_TOKEN :: _ => Done (0, c, p)
  | token :: tokens' =>
      '(rc, is_key, key, c, p) ← conf_token token is_key key c p;
      if rc <? 0 then Done (rc, c, p) else conf_scan tokens' is_key key c p
  end.

Definition mio_default_pool_null_str : list Z := str "MIO_DEFAULT_POOL_NULL".

(** [mio_conf_default_pool_has_set]. *)
Definition mio_conf_default_pool_has_set (c : conf) : outcome bool :=
  eq ← strcmp_eq (mio_default_pool_name c) (mio_default_pool_null_str ++ [0]);
  Done (negb eq).

(** The search for the default pool. *)
Fixpoint default_pool_loop (c : conf) (i : Z) (n : nat) : outcome Z :=
  match n with
  | O => Done i
  | S n' =>
      pool ← pool_at (the_pools c) i;
      eq ← strcmp_eq (mp_name pool) (mio_default_pool_name c);
      if eq : bool then Done i else default_pool_loop c (i + 1) n'
  end.

(** [mio_conf_init]; the flags are the results of yaml_parser_initialize() and
    fopen(). *)
Definition mio_conf_init (parser_ok file_ok : bool) (tokens : list yaml_token) (c : conf) (p : mplan)
  : outcome (Z * conf * mplan) :=
  let c := set_default_name (arr_memcpy (mio_default_pool_name c)
             (take (Z.to_nat (strnlen mio_default_pool_null_str MIO_POOL_MAX_NAME_LEN + 1))
                (mio_default_pool_null_str ++ [0]))) c in
  if negb parser_ok then Done (-1, c, p) else
  if negb file_ok then Done (-1, c, p) else
  '(rc, c, p) ← conf_scan tokens true MIO_CONF_INVALID c p;
  if rc <? 0 then c ← conf_free_drivers c; Done (rc, c, p) else
  let inst := the_inst c in
  let c := set_inst (MkInst (mio_inst_telem_store_type c) (m_telem_prefix inst) (m_log_level inst)
             (m_log_dir inst) (mio_inst_drv_id c) true
             (match motr_conf c with Some _ => true | None => false end)) c in
  default_set ← mio_conf_default_pool_has_set c;
  if default_set : bool then
    i ← default_pool_loop c 0 (Z.to_nat (mps_nr_pools (the_pools c)));
    if i =? mps_nr_pools (the_pools c) then Done (- EINVAL, c, p)
    else
      pool ← pool_at (the_pools c) i;
      Done (rc, set_pools (MkPools i (mp_name pool) (mps_nr_pools (the_pools c))
                             (mps_pools (the_pools c))) c, p)
  else Done (rc, c, p).

(** [mio_conf_fini]. *)
Definition mio_conf_fini (c : conf) : outcome conf :=
  conf_free_drivers (conf_free_mio_pools c).
End Parse.

(** ** Keys *)

Lemma token_to_key_loop_sound table token k :
  token_to_key_loop table token = Some k →
  ∃ e pre, e ∈ table ∧ ce_key e = k ∧ token = pre ++ str (ce_name e).
Proof.
  induction table as [|e table IH]; simpl; [done|].
  assert (Hrec : token_to_key_loop table token = Some k →
    ∃ e' pre, e' ∈ e :: table ∧ ce_key e' = k ∧ token = pre ++ str (ce_name e')).
  { intros H. destruct (IH H) as (e' & pre & ? & ? & ?). exists e', pre.
    split_and!; try done. by right. }
  destruct (strstr token (str (ce_name e))) as [r|] eqn:E; [|exact Hrec].
  case_bool_decide as Hr; [|exact Hrec]. intros [= <-]. subst r.
  apply strstr_Some in E as (pre & post & -> & _). exists e, pre. split_and!; try done. left.
Qed.

Lemma strstr_self s : strstr s s = Some s.
Proof.
  assert (H : is_prefix s s = true) by (apply is_prefix_spec; exists []; by rewrite app_nil_r).
  destruct s; simpl in *; [done|by rewrite H].
Qed.

Lemma token_to_key_loop_complete table e :
  e ∈ table → token_to_key_loop table (str (ce_name e)) ≠ None.
Proof.
  induction table as [|e' table IH]; [by intros ?%elem_of_nil|].
  intros [->|He]%elem_of_cons; simpl.
  - rewrite strstr_self. by rewrite bool_decide_true.
  - destruct (strstr _ _) as [r|]; [case_bool_decide; [done|]|]; by apply IH.
Qed.

(** Every name of the table selects its own entry. *)
Lemma token_to_key_names :
  Forall (λ e, token_to_key_loop conf_table (str (ce_name e)) = Some (ce_key e)) conf_table.
Proof. repeat constructor. Qed.

(** [conf_token_to_key] maps the name of each entry of the table to that
    entry's key, whatever was in *key before.  For any other token it either
    finds an entry whose name the token ends with, or returns -1 and leaves
    *key alone; then the token is no name of the table. *)
Theorem conf_token_to_key_correct :
  (∀ e key, e ∈ conf_table → conf_token_to_key (str (ce_name e)) key = (0, ce_key e)) ∧
  ∀ token key,
    (∃ e pre, e ∈ conf_table ∧ conf_token_to_key token key = (0, ce_key e) ∧
       token = pre ++ str (ce_name e)) ∨
    (conf_token_to_key token key = (-1, key) ∧ ∀ e, e ∈ conf_table → token ≠ str (ce_name e)).
Proof.
  split.
  - intros e key He. unfold conf_token_to_key.
    pose proof token_to_key_names as Hn. rewrite Forall_forall in Hn. by rewrite (Hn e He).
  - intros token key. unfold conf_token_to_key.
    destruct (token_to_key_loop conf_table token) as [k|] eqn:E.
    + destruct (token_to_key_loop_sound _ _ _ E) as (e & pre & He & <- & ->). left. by exists e, pre.
    + right. split; [done|]. intros e He ->. by apply (token_to_key_loop_complete _ _ He).
Qed.

(** ** Strings *)

(** A string of the configuration is copied without its NUL: whatever the
    value, the block has exactly the bytes of the value (at most
    YAML_MAX_VAL_LEN) and reading it as a C string runs past its end. *)
Theorem conf_copy_str_unterminated (to : cfield cstr) (value : list Z) (p : mplan)
  (Hv : no_nul value) :
  ∃ block, conf_copy_str to value (strnlen value YAML_MAX_VAL_LEN) (true :: p) =
      (0, Init (Some block), p) ∧
    block = take (Z.to_nat YAML_MAX_VAL_LEN) value ∧ cstr_read block = Fault OutOfBounds.
Proof.
  exists (take (Z.to_nat YAML_MAX_VAL_LEN) value).
  split; [|split; [done|by apply cstr_read_unterminated, Forall_take]].
  unfold conf_copy_str, strnlen, YAML_MAX_VAL_LEN. cbn [plan_next negb].
  destruct (Z.min_spec (Z.of_nat (length value)) 128) as [[Hlt ->]|[Hle ->]].
  - rewrite Nat2Z.id, take_app_length, Nat.sub_diag, app_nil_r. by rewrite take_ge by lia.
  - rewrite take_app_le by lia. rewrite length_take.
    replace (Z.to_nat 128 - Z.to_nat 128 `min` length value)%nat with O by lia. by rewrite app_nil_r.
Qed.

Lemma conf_copy_str_unterminated_witness :
  no_nul (str "/tmp") ∧
  ∃ block, conf_copy_str (Init None) (str "/tmp") 4 [true] = (0, Init (Some block), []) ∧
    block = str "/tmp" ∧ cstr_read block = Fault OutOfBounds.
Proof.
  assert (H : no_nul (str "/tmp")) by (repeat constructor; discriminate).
  split; [exact H|]. exact (conf_copy_str_unterminated (Init None) (str "/tmp") [] H).
Defined.

(** A field that has been written. *)
Definition is_init {A} (f : cfield A) : bool := match f with Init _ => true | Uninit => false end.

Definition motr_strings_set (m : mio_motr_config) : bool :=
  is_init (mc_motr_local_addr m) && is_init (mc_ha_addr m) &&
  is_init (mc_process_fid m) && is_init (mc_profile m).

Lemma conf_free_drivers_eq c :
  conf_free_drivers c =
    if match motr_conf c with Some m => motr_strings_set m | None => true end
    then Done (set_motr_conf None c) else Fault UninitRead.
Proof.
  unfold conf_free_drivers, motr_strings_set.
  destruct (motr_conf c) as [m|] eqn:E; [|destruct c; simpl in *; by subst].
  destruct (mc_motr_local_addr m); simpl; [done|].
  destruct (mc_ha_addr m); simpl; [done|].
  destruct (mc_process_fid m); simpl; [done|].
  by destruct (mc_profile m).
Qed.

(** Releasing the configuration is safe exactly when the Motr section is
    absent or has set all of MOTR_INST_ADDR, MOTR_HA_ADDR, MOTR_PROCESS_FID and
    MOTR_PROFILE: the structure comes from malloc() and a field that was not
    set is an uninitialised pointer that is freed.  Afterwards there is no
    Motr configuration and no pool. *)
Theorem mio_conf_fini_safe (c : conf) :
  mio_conf_fini c =
    if match motr_conf c with Some m => motr_strings_set m | None => true end
    then Done (set_pools pools_zero (set_motr_conf None c))
    else Fault UninitRead.
Proof.
  unfold mio_conf_fini. rewrite conf_free_drivers_eq. simpl.
  by destruct (match motr_conf c with Some m => _ | None => _ end).
Qed.

(** ** The table of pools *)

(** The pools are not allocated, or the array has MIO_MOTR_MAX_POOL_CNT elements
    with whole names, of which at most one less are used. *)
Definition pools_inv (pools : mio_pools) : Prop :=
  (mps_pools pools = None ∧ mps_nr_pools pools = 0) ∨
  ∃ l, mps_pools pools = Some l ∧ Z.of_nat (length l) = MIO_MOTR_MAX_POOL_CNT ∧
    0 <= mps_nr_pools pools < MIO_MOTR_MAX_POOL_CNT ∧
    Forall (λ p, length (mp_name p) = 33%nat) l.

Lemma pool_at_inv pools i p :
  pool_at pools i = Done p → ∃ l, mps_pools pools = Some l ∧ 0 <= i ∧ l !! Z.to_nat i = Some p.
Proof.
  unfold pool_at. destruct (mps_pools pools) as [l|]; [|done].
  destruct (Z.ltb_spec i 0); [done|]. destruct (l !! Z.to_nat i) as [q|] eqn:E; [|done].
  intros [= ->]. by exists l.
Qed.

Lemma pools_inv_put pools i p l :
  pools_inv pools → mps_pools pools = Some l → length (mp_name p) = 33%nat →
  pools_inv (pool_put i p pools).
Proof.
  intros [[Hn _]|(l' & Hl' & Hlen & Hnr & Hf)] Hl Hp; [congruence|]. right.
  rewrite Hl' in Hl. injection Hl as ->. exists (<[Z.to_nat i:=p]> l).
  unfold pool_put. simpl. rewrite Hl'. simpl. rewrite length_insert.
  split_and!; try done; try lia. by apply Forall_insert.
Qed.

Lemma length_name_bytes value : (length (name_bytes value) <= 33)%nat.
Proof.
  unfold name_bytes, strnlen, MIO_POOL_MAX_NAME_LEN. rewrite length_take. lia.
Qed.

Lemma length_arr_memcpy a l : (length l <= length a)%nat → length (arr_memcpy a l) = length a.
Proof. intros. unfold arr_memcpy. rewrite length_app, length_drop. lia. Qed.

(** A step that leaves the table alone, or keeps its invariant. *)
Lemma extract_pool_inv set c p rc c' p' :
  pools_inv (the_pools c) →
  (∀ pool rc pool', length (mp_name pool) = 33%nat → set pool = Done (rc, pool') →
     length (mp_name pool') = 33%nat) →
  extract_pool set c p = Done (rc, c', p') → pools_inv (the_pools c').
Proof.
  intros Hinv Hset Hrun. unfold extract_pool in Hrun.
  apply outcome_bind_Done in Hrun as (pool & Hat & Hrun).
  apply outcome_bind_Done in Hrun as ([rc' pool'] & Hs & Hrun). injection Hrun as <- <- <-.
  apply pool_at_inv in Hat as (l & Hl & _ & Hp). simpl.
  eapply pools_inv_put; eauto. eapply Hset; eauto.
  destruct Hinv as [[? _]|(l' & Hl' & _ & _ & Hf)]; [congruence|].
  rewrite Hl' in Hl. injection Hl as ->. by eapply Forall_lookup_1 in Hf.
Qed.

Section PoolsInvariant.
Context (layout : Z → Z).

Lemma conf_extract_value_inv key value vlen c p rc c' p' :
  pools_inv (the_pools c) → conf_extract_value layout key value vlen c p = Done (rc, c', p') →
  pools_inv (the_pools c').
Proof.
  intros Hinv. unfold conf_extract_value, extract_motr_str, extract_motr.
  destruct key; try (intros [= <- <- <-]; exact Hinv);
    try (destruct (conf_copy_str _ _ _ _) as [[rc0 s] p0]; intros [= <- <- <-]; exact Hinv);
    try (destruct (motr_conf c); [|done]);
    try (destruct (conf_copy_str _ _ _ _) as [[rc0 s] p0]; intros [= <- <- <-]; exact Hinv);
    try (intros [= <- <- <-]; exact Hinv).
  - apply extract_pool_inv; [done|]. intros pool rc0 pool' Hl. unfold set_pool_name.
    destruct (_ <? _); intros [= <- <-]; [done|]. simpl.
    rewrite length_arr_memcpy; [done|]. rewrite Hl. apply length_name_bytes.
  - apply extract_pool_inv; [done|]. intros pool rc0 pool' Hl. unfold set_pool_id.
    intros ([rc1 id] & _ & [= <- <-])%outcome_bind_Done. done.
  - apply extract_pool_inv; [done|]. intros pool rc0 pool' Hl. unfold set_pool_type.
    destruct (conf_extract_pool_type _ _). intros [= <- <-]. done.
  - destruct (_ <? _); intros [= <- <- <-]; exact Hinv.
Qed.

Lemma conf_start_block_inv c rc c' :
  pools_inv (the_pools c) → conf_start_block c = Done (rc, c') → pools_inv (the_pools c').
Proof.
  intros Hinv. unfold conf_start_block. destruct (_ =? CONF_BLK_SEQ_MOTR_POOLS);
    [|intros [= <- <-]; exact Hinv].
  destruct (Z.eqb_spec (mps_nr_pools (the_pools c) + 1) MIO_MOTR_MAX_POOL_CNT) as [|Hne];
    [intros [= <- <-]; exact Hinv|].
  intros (q & Hat & [= <- <-])%outcome_bind_Done. simpl.
  apply pool_at_inv in Hat as (l & Hl & _ & _).
  destruct Hinv as [[? _]|(l' & Hl' & Hlen & Hnr & Hf)]; [congruence|]. right.
  rewrite Hl'. simpl. eexists. split; [done|]. rewrite length_insert.
  split_and!; try done; try lia. by apply Forall_insert.
Qed.

Lemma conf_alloc_mio_pools_inv c p rc c' p' :
  conf_alloc_mio_pools c p = (rc, c', p') → pools_inv (the_pools c').
Proof.
  unfold conf_alloc_mio_pools. destruct (plan_next p) as [[] p1]; intros [= <- <- <-];
    [right|by left]. eexists. split; [done|]. split_and!; try done.
  repeat constructor.
Qed.

Lemma conf_token_inv token is_key key c p rc is_key' key' c' p' :
  pools_inv (the_pools c) →
  conf_token layout token is_key key c p = Done (rc, is_key', key', c', p') →
  pools_inv (the_pools c').
Proof.
  intros Hinv. destruct token as [| |value| | | | | |]; simpl;
    try (intros [= <- <- <- <- <-]; exact Hinv).
  - destruct is_key.
    + unfold conf_extract_key, conf_alloc_driver.
      destruct (conf_token_to_key value key) as [rc0 k]. destruct (rc0 <? 0).
      { simpl. intros [= <- <- <- <- <-]. exact Hinv. }
      destruct (conf_table_type k) as [ty|]; [|done]. simpl.
      destruct ty; simpl; try (intros [= <- <- <- <- <-]; exact Hinv).
      destruct (motr_conf c); simpl; [intros [= <- <- <- <- <-]; exact Hinv|].
      destruct (plan_next p) as [[] p1]; simpl; intros [= <- <- <- <- <-]; exact Hinv.
    + intros ([[rc0 c0] p0] & Hv & [= <- <- <- <- <-])%outcome_bind_Done.
      by eapply conf_extract_value_inv.
  - unfold conf_extract_blk_seq. destruct key; try (intros [= <- <- <- <- <-]; exact Hinv).
    destruct (conf_alloc_mio_pools _ p) as [[rc0 c0] p0] eqn:E. intros [= <- <- <- <- <-].
    by eapply conf_alloc_mio_pools_inv.
  - intros ([rc0 c0] & Hv & [= <- <- <- <- <-])%outcome_bind_Done.
    by eapply conf_start_block_inv.
Qed.

Lemma conf_scan_inv tokens is_key key c p rc c' p' :
  pools_inv (the_pools c) → conf_scan layout tokens is_key key c p = Done (rc, c', p') →
  pools_inv (the_pools c').
Proof.
  revert is_key key c p. induction tokens as [|token tokens IH]; intros is_key key c p Hinv Hrun.
  { discriminate. }
  assert (Hstep : ('(rc, is_key, key, c, p) ← conf_token layout token is_key key c p;
    if rc <? 0 then Done (rc, c, p) else conf_scan layout tokens is_key key c p) = Done (rc, c', p') →
    pools_inv (the_pools c')).
  { intros ([[[[rc1 k1] key1] c1] p1] & Ht & Hk)%outcome_bind_Done.
    pose proof (conf_token_inv _ _ _ _ _ _ _ _ _ _ Hinv Ht) as Hinv1.
    destruct (rc1 <? 0); [by injection Hk as <- <- <-|by eapply IH]. }
  destruct token; try exact (Hstep Hrun). simpl in Hrun. by injection Hrun as <- <- <-.
Qed.
End PoolsInvariant.

(** ** The default pool *)

Lemma pools_inv_ok pools : pools_inv pools → 0 < mps_nr_pools pools → ∃ l, pools_ok pools l.
Proof.
  intros [[_ ?]|(l & Hl & Hlen & Hnr & _)] Hpos; [lia|]. exists l. split; [done|lia].
Qed.

(** Whether the pool has the name of the default pool. *)
Definition named_default (c : conf) (pool : mio_pool) : outcome bool :=
  strcmp_eq (mp_name pool) (mio_default_pool_name c).

Lemma default_pool_loop_spec c l i n j :
  pools_ok (the_pools c) l → 0 <= i → i + Z.of_nat n = mps_nr_pools (the_pools c) →
  default_pool_loop c i n = Done j →
  i <= j <= mps_nr_pools (the_pools c) ∧
  (j < mps_nr_pools (the_pools c) → ∃ p,
     pool_list (the_pools c) !! Z.to_nat j = Some p ∧ named_default c p = Done true) ∧
  ∀ k p, i <= k < j → pool_list (the_pools c) !! Z.to_nat k = Some p →
    named_default c p = Done false.
Proof.
  intros Hok. revert i; induction n as [|n IH]; intros i Hi Hn; simpl.
  { intros [= <-]. split_and!; try done; lia. }
  destruct (pool_at_lt (the_pools c) l i Hok) as (p & -> & Hp); [lia|]. simpl.
  destruct (strcmp_eq (mp_name p) (mio_default_pool_name c)) as [[]|] eqn:E; simpl; [| |done].
  - intros [= <-]. split_and!; try done; try lia. intros _. by exists p.
  - intros Hrun. destruct (IH (i + 1)) as (Hj & Hin & Hout); [lia..|done|].
    split_and!; try done; try lia. intros k q Hk Hq.
    destruct (decide (k = i)) as [->|]; [rewrite Hp in Hq; injection Hq as <-; exact E|]. apply (Hout k); [lia|done].
Qed.

(** (C33) What a successful [mio_conf_init] leaves behind, whatever the file:
    at most fifteen pools, fully inside the table; and when a default pool was
    named, the default index is that of the first pool with that name. *)
Theorem mio_conf_init_pools (layout : Z → Z) parser_ok file_ok tokens (c c' : conf) (p p' : mplan)
  (Hinv : pools_inv (the_pools c))
  (Hrun : mio_conf_init layout parser_ok file_ok tokens c p = Done (0, c', p')) :
  let pools := the_pools c' in
  0 <= mps_nr_pools pools < MIO_MOTR_MAX_POOL_CNT ∧
  (0 < mps_nr_pools pools → ∃ l, pools_ok pools l) ∧
  (mio_conf_default_pool_has_set c' = Done true →
     let i := mps_default_pool_idx pools in
     0 <= i < mps_nr_pools pools ∧
     (∃ pool, pool_list pools !! Z.to_nat i = Some pool ∧ named_default c' pool = Done true) ∧
     ∀ k pool, 0 <= k < i → pool_list pools !! Z.to_nat k = Some pool →
       named_default c' pool = Done false).
Proof.
  intros pools. unfold mio_conf_init in Hrun.
  destruct parser_ok; [|discriminate]. destruct file_ok; [|discriminate]. cbn [negb] in Hrun.
  apply outcome_bind_Done in Hrun as ([[rc c1] p1] & Hscan & Hrun).
  apply conf_scan_inv in Hscan; [|exact Hinv].
  destruct (Z.ltb_spec rc 0) as [Hneg|Hpos].
  { apply outcome_bind_Done in Hrun as (c2 & _ & Hrun). injection Hrun as -> _ _. lia. }
  match type of Hrun with context [set_inst ?i c1] => set (c2 := set_inst i c1) in Hrun end.
  assert (Hrange : 0 <= mps_nr_pools (the_pools c1) < MIO_MOTR_MAX_POOL_CNT).
  { destruct Hscan as [[_ ->]|(l & _ & _ & ? & _)]; [done|lia]. }
  apply outcome_bind_Done in Hrun as ([] & Hset & Hrun).
  - apply outcome_bind_Done in Hrun as (i & Hloop & Hrun).
    destruct (Z.eqb_spec i (mps_nr_pools (the_pools c2))) as [|Hne]; [discriminate|].
    apply outcome_bind_Done in Hrun as (pool & Hat & Hrun). injection Hrun as -> <- <-.
    simpl in pools. destruct (decide (mps_nr_pools (the_pools c1) = 0)) as [Hz|Hz].
    { simpl in Hloop, Hne. rewrite Hz in Hloop. simpl in Hloop. injection Hloop as <-. congruence. }
    destruct (pools_inv_ok _ Hscan) as [l Hok]; [lia|].
    destruct (default_pool_loop_spec c2 l 0 (Z.to_nat (mps_nr_pools (the_pools c2))) i Hok)
      as (Hi & Hin & Hout); [lia|simpl; lia|exact Hloop|]. simpl in Hi, Hne.
    split; [exact Hrange|]. split; [intros _; by exists l|]. intros _ i'.
    split; [simpl in *; lia|]. split; [apply Hin; simpl; lia|exact Hout].
  - injection Hrun as -> <- <-. split; [exact Hrange|].
    split; [apply pools_inv_ok; exact Hscan|]. intros Hset'. congruence.
Qed.

(** ** The pools of a file *)

(** A pool as a file describes it, with the id and type its words denote. *)
Record pool_desc := MkDesc {
  pd_name : list Z;
  pd_id : list Z;
  pd_type : list Z;
  pd_id_val : mio_pool_id;
  pd_type_val : Z
}.

Definition desc_ok (d : pool_desc) : Prop :=
  Z.of_nat (length (pd_name d)) <= MIO_POOL_MAX_NAME_LEN ∧
  sscanf_pool_id (pd_id d) = (2, Some (mpi_hi (pd_id_val d)), Some (mpi_lo (pd_id_val d))) ∧
  conf_extract_pool_type 0 (pd_type d) = (0, pd_type_val d).

Definition pool_of_desc (d : pool_desc) : mio_pool :=
  MkPool (arr_memcpy (replicate 33 0) (pd_name d ++ [0])) (pd_id_val d) (pd_type_val d) 0 0 0
    (replicate 16 0).

Definition entry_tokens (k : string) (value : list Z) : list yaml_token :=
  [YAML_KEY_TOKEN; YAML_SCALAR_TOKEN (str k); YAML_VALUE_TOKEN; YAML_SCALAR_TOKEN value].

Definition pool_tokens (d : pool_desc) : list yaml_token :=
  [YAML_BLOCK_ENTRY_TOKEN; YAML_BLOCK_MAPPING_START_TOKEN] ++
  entry_tokens "MOTR_POOL_NAME" (pd_name d) ++ entry_tokens "MOTR_POOL_ID" (pd_id d) ++
  entry_tokens "MOTR_POOL_TYPE" (pd_type d) ++ [YAML_BLOCK_END_TOKEN].

Definition pools_tokens (ds : list pool_desc) : list yaml_token :=
  [YAML_KEY_TOKEN; YAML_SCALAR_TOKEN (str "MOTR_POOLS"); YAML_VALUE_TOKEN;
   YAML_BLOCK_SEQUENCE_START_TOKEN] ++ (ds ≫= pool_tokens) ++ [YAML_BLOCK_END_TOKEN].

(** The table after the pools [l] were read. *)
Definition table_of (l : list mio_pool) : mio_pools :=
  MkPools 0 (replicate 33 0) (Z.of_nat (length l))
    (Some (l ++ replicate (16 - length l) pool_zero)).

Lemma name_bytes_short name :
  Z.of_nat (length name) <= MIO_POOL_MAX_NAME_LEN → name_bytes name = name ++ [0].
Proof.
  intros Hlen. unfold name_bytes, strnlen. rewrite Z.min_l by done.
  apply take_ge. rewrite length_app. simpl. lia.
Qed.

Section RoundTrip.
Context (layout : Z → Z).

(** Setting the last pool of a table. *)
Lemma extract_pool_last set c p l x x' r idx nm :
  the_pools c = MkPools idx nm (Z.of_nat (length l) + 1) (Some (l ++ x :: r)) → set x = Done (0, x') →
  extract_pool set c p =
    Done (0, set_pools (MkPools idx nm (Z.of_nat (length l) + 1) (Some (l ++ x' :: r))) c, p).
Proof.
  intros Hp Hset. unfold extract_pool, pool_at, pool_put. rewrite Hp. simpl.
  replace (Z.of_nat (length l) + 1 - 1) with (Z.of_nat (length l)) by lia.
  rewrite (proj2 (Z.ltb_ge _ _)), Nat2Z.id by lia.
  rewrite list_lookup_middle by done. simpl. rewrite Hset. simpl.
  by rewrite insert_app_r_alt, Nat.sub_diag by lia.
Qed.

Lemma conf_scan_step token tokens is_key key c p :
  token ≠ YAML_STREAM_END_TOKEN →
  conf_scan layout (token :: tokens) is_key key c p =
    '(rc, is_key, key, c, p) ← conf_token layout token is_key key c p;
    if rc <? 0 then Done (rc, c, p) else conf_scan layout tokens is_key key c p.
Proof. by destruct token. Qed.

Lemma conf_token_key key token c p m k :
  motr_conf c = Some m → conf_token_to_key token key = (0, k) → conf_table_type k = Done MOTR →
  conf_token layout (YAML_SCALAR_TOKEN token) true key c p = Done (0, true, k, c, p).
Proof.
  intros Hm Hk Hty. unfold conf_token, conf_extract_key. rewrite Hk. cbn [Z.ltb Z.compare].
  unfold conf_alloc_driver. rewrite Hty. cbn [mbind outcome_bind]. by rewrite Hm.
Qed.

Lemma conf_scan_entry k name value rest is_key key c p m :
  motr_conf c = Some m → conf_token_to_key (str name) key = (0, k) → conf_table_type k = Done MOTR →
  conf_scan layout (entry_tokens name value ++ rest) is_key key c p =
    '(rc, c, p) ← conf_extract_value layout k value (strnlen value YAML_MAX_VAL_LEN) c p;
    if rc <? 0 then Done (rc, c, p) else conf_scan layout rest false k c p.
Proof.
  intros Hm Hk Hty. unfold entry_tokens. cbn [app].
  rewrite conf_scan_step by done. cbn [conf_token mbind outcome_bind Z.ltb Z.compare].
  rewrite conf_scan_step by done. rewrite (conf_token_key _ _ _ _ m k) by done.
  cbn [mbind outcome_bind Z.ltb Z.compare].
  rewrite conf_scan_step by done. cbn [conf_token mbind outcome_bind Z.ltb Z.compare].
  rewrite conf_scan_step by done. cbn [conf_token].
  by destruct (conf_extract_value _ _ _ _ _ _) as [[[??]?]|].
Qed.

Lemma set_pools_twice a b c : set_pools a (set_pools b c) = set_pools a c.
Proof. done. Qed.

(** One pool of the file is appended to the table. *)
Lemma conf_scan_pool d rest is_key key c p m l :
  desc_ok d → motr_conf c = Some m → conf_which_blk_seq c = CONF_BLK_SEQ_MOTR_POOLS →
  the_pools c = table_of l → (length l < 15)%nat →
  conf_scan layout (pool_tokens d ++ rest) is_key key c p =
    conf_scan layout rest false MOTR_POOL_TYPE (set_pools (table_of (l ++ [pool_of_desc d])) c) p.
Proof.
  intros (Hname & Hid & Hty) Hm Hseq Hpools Hl.
  unfold pool_tokens. rewrite <- !app_assoc. cbn [app].
  rewrite conf_scan_step by done. cbn [conf_token]. unfold conf_start_block.
  rewrite Hseq, Hpools. cbn [Z.eqb CONF_BLK_SEQ_MOTR_POOLS Pos.eqb table_of mps_nr_pools].
  unfold MIO_MOTR_MAX_POOL_CNT. rewrite (proj2 (Z.eqb_neq _ _)) by lia.
  destruct (16 - length l)%nat as [|r] eqn:Er; [lia|].
  unfold pool_at, pool_put, table_of. rewrite Er. cbn [mps_pools mps_default_pool_idx mps_default_pool_name mps_nr_pools].
  rewrite (proj2 (Z.ltb_ge _ _)) by lia. rewrite Nat2Z.id. cbn [replicate].
  rewrite list_lookup_middle by done. cbn [mbind outcome_bind fmap option_fmap option_map].
  rewrite insert_app_r_alt, Nat.sub_diag by lia. cbn [list_insert insert mbind outcome_bind Z.ltb Z.compare].
  rewrite conf_scan_step by done. cbn [conf_token mbind outcome_bind Z.ltb Z.compare].
  rewrite (conf_scan_entry MOTR_POOL_NAME) with (m := m) by done. cbn [conf_extract_value].
  erewrite extract_pool_last by
    (done || (unfold set_pool_name, strnlen; rewrite Z.min_l, (proj2 (Z.ltb_ge _ _)) by lia; done)).
  cbn [mbind outcome_bind Z.ltb Z.compare].
  rewrite (conf_scan_entry MOTR_POOL_ID) with (m := m) by done. cbn [conf_extract_value].
  erewrite extract_pool_last by
    (done || (unfold set_pool_id, conf_pool_id_sscanf; rewrite Hid; done)).
  cbn [mbind outcome_bind Z.ltb Z.compare].
  rewrite (conf_scan_entry MOTR_POOL_TYPE) with (m := m) by done. cbn [conf_extract_value].
  erewrite extract_pool_last by
    (done || (unfold set_pool_type; cbn [mp_type pool_zero]; rewrite Hty; done)).
  cbn [mbind outcome_bind Z.ltb Z.compare].
  rewrite conf_scan_step by done. cbn [conf_token mbind outcome_bind Z.ltb Z.compare].
  rewrite !set_pools_twice. f_equal. f_equal. rewrite length_app. cbn [length].
  rewrite <- app_assoc. cbn [app]. f_equal; [lia|]. do 2 f_equal.
  replace (16 - (length l + 1))%nat with r by lia. f_equal.
  unfold pool_of_desc. rewrite name_bytes_short by done. simpl. by destruct (pd_id_val d).
Qed.

Lemma conf_scan_pool_list ds rest is_key key c p m l :
  Forall desc_ok ds → motr_conf c = Some m → conf_which_blk_seq c = CONF_BLK_SEQ_MOTR_POOLS →
  the_pools c = table_of l → (length l + length ds <= 15)%nat →
  ∃ is_key' key', conf_scan layout ((ds ≫= pool_tokens) ++ rest) is_key key c p =
    conf_scan layout rest is_key' key' (set_pools (table_of (l ++ (pool_of_desc <$> ds))) c) p.
Proof.
  intros Hds. revert is_key key c l. induction Hds as [|d ds Hd Hds IH];
    intros is_key key c l Hm Hseq Hp Hlen.
  - exists is_key, key. rewrite app_nil_r, <- Hp. by destruct c.
  - rewrite bind_cons, <- app_assoc, (conf_scan_pool d _ _ _ _ _ m l) by (done || (simpl in Hlen; lia)).
    destruct (IH false MOTR_POOL_TYPE (set_pools (table_of (l ++ [pool_of_desc d])) c) (l ++ [pool_of_desc d]))
      as (k1 & k2 & Heq); try done; [rewrite length_app; simpl in *; lia|].
    exists k1, k2. rewrite Heq. rewrite <- app_assoc. done.
Qed.
End RoundTrip.

(** (C32) The pools section of a file is read into the table exactly: for up to
    fifteen pools with names of at most MIO_POOL_MAX_NAME_LEN bytes, the table
    holds the pools of the file in their order, each with its NUL-terminated
    name, its id and its type, and the scan goes on behind the section. *)
Theorem conf_scan_pools_section (layout : Z → Z) (ds : list pool_desc) (rest : list yaml_token)
    (is_key : bool) (key : conf_key) (c : conf) (m : mio_motr_config) (p : mplan)
  (Hds : Forall desc_ok ds) (Hlen : Z.of_nat (length ds) < MIO_MOTR_MAX_POOL_CNT)
  (Hm : motr_conf c = Some m) :
  ∃ is_key' key',
    conf_scan layout (pools_tokens ds ++ rest) is_key key c (true :: p) =
    conf_scan layout rest is_key' key'
      (set_pools (table_of (pool_of_desc <$> ds)) (set_blk_seq CONF_BLK_SEQ_MOTR_POOLS c)) p.
Proof.
  unfold MIO_MOTR_MAX_POOL_CNT in Hlen. unfold pools_tokens. rewrite <- !app_assoc.
  set (c1 := set_pools (table_of []) (set_blk_seq CONF_BLK_SEQ_MOTR_POOLS c)).
  destruct (conf_scan_pool_list layout ds ([YAML_BLOCK_END_TOKEN] ++ rest) false MOTR_POOLS c1 p m [])
    as (k1 & k2 & Heq); try done; [simpl; lia|].
  exists k1, k2. transitivity (conf_scan layout ((ds ≫= pool_tokens) ++ [YAML_BLOCK_END_TOKEN] ++ rest)
    false MOTR_POOLS c1 p); [|exact Heq].
  cbn [app]. rewrite conf_scan_step by done. cbn [conf_token mbind outcome_bind Z.ltb Z.compare].
  rewrite conf_scan_step by done. rewrite (conf_token_key _ _ _ _ _ m MOTR_POOLS) by done.
  cbn [mbind outcome_bind Z.ltb Z.compare].
  rewrite conf_scan_step by done. cbn [conf_token mbind outcome_bind Z.ltb Z.compare].
  by rewrite conf_scan_step by done.
Qed.

(** ** A concrete file *)

Definition conf_zero : conf :=
  MkConf 0 0 0 None (replicate 33 0) pools_zero (MkInst 0 (Init None) 0 (Init None) 0 false false).

Definition ex_descs : list pool_desc := [
  MkDesc (str "fast") (str "6f00000000000001:11") (str "NVM") (MkPoolId 7998392938210000897 17) 0;
  MkDesc (str "slow") (str "0x6f00000000000001 : 0x12") (str "HDD") (MkPoolId 7998392938210000897 18) 2].

Definition ex_tokens : list yaml_token :=
  entry_tokens "MIO_DRIVER" (str "MOTR") ++ entry_tokens "MOTR_INST_ADDR" (str "inst") ++
  entry_tokens "MOTR_HA_ADDR" (str "ha") ++ entry_tokens "MOTR_PROFILE" (str "prof") ++
  entry_tokens "MOTR_PROCESS_FID" (str "fid") ++ entry_tokens "MOTR_POOL_DEFAULT" (str "slow") ++
  pools_tokens ex_descs ++ [YAML_STREAM_END_TOKEN].

Definition ex_conf_after : conf :=
  match mio_conf_init (λ x, x) true true ex_tokens conf_zero [] with
  | Done (_, c, _) => c | Fault _ => conf_zero
  end.

Lemma ex_descs_ok : Forall desc_ok ex_descs.
Proof. repeat constructor; vm_compute; congruence. Qed.

Lemma conf_scan_pools_section_witness :
  Forall desc_ok ex_descs ∧
  ∃ is_key' key',
    conf_scan (λ x, x) (pools_tokens ex_descs ++ [YAML_STREAM_END_TOKEN]) true MIO_CONFIG
      (set_motr_conf (Some motr_conf_fresh) conf_zero) [true] =
    conf_scan (λ x, x) [YAML_STREAM_END_TOKEN] is_key' key'
      (set_pools (table_of (pool_of_desc <$> ex_descs))
         (set_blk_seq CONF_BLK_SEQ_MOTR_POOLS (set_motr_conf (Some motr_conf_fresh) conf_zero))) [].
Proof.
  split; [exact ex_descs_ok|].
  refine (conf_scan_pools_section (λ x, x) ex_descs [YAML_STREAM_END_TOKEN] true MIO_CONFIG
    (set_motr_conf (Some motr_conf_fresh) conf_zero) motr_conf_fresh [] ex_descs_ok _ eq_refl).
  vm_compute. reflexivity.
Defined.

Lemma mio_conf_init_pools_witness :
  pools_inv (the_pools conf_zero) ∧
  mps_nr_pools (the_pools ex_conf_after) = 2 ∧ mps_default_pool_idx (the_pools ex_conf_after) = 1 ∧
  0 <= mps_default_pool_idx (the_pools ex_conf_after) < mps_nr_pools (the_pools ex_conf_after).
Proof.
  assert (H0 : pools_inv (the_pools conf_zero)) by (left; split; reflexivity).
  split; [exact H0|]. split; [vm_compute; reflexivity|]. split; [vm_compute; reflexivity|].
  destruct (mio_conf_init_pools (λ x, x) true true ex_tokens conf_zero ex_conf_after [] [] H0)
    as (_ & _ & H).
  - vm_compute. reflexivity.
  - destruct H as [H _]; [vm_compute; reflexivity|]. exact H.
Defined.

(** The section's tokens up to and including its pools. *)
Definition pools_tokens_open (ds : list pool_desc) : list yaml_token :=
  [YAML_KEY_TOKEN; YAML_SCALAR_TOKEN (str "MOTR_POOLS"); YAML_VALUE_TOKEN;
   YAML_BLOCK_SEQUENCE_START_TOKEN] ++ (ds ≫= pool_tokens).

(** The sixteenth pool.  The table has MIO_MOTR_MAX_POOL_CNT elements, but
    when fifteen pools were read the next entry of the section ends the scan
    with -E2BIG, the fifteen pools staying in the table. *)
Theorem conf_scan_sixteenth_pool (layout : Z → Z) (ds : list pool_desc) (rest : list yaml_token)
    (is_key : bool) (key : conf_key) (c : conf) (m : mio_motr_config) (p : mplan)
  (Hds : Forall desc_ok ds) (Hlen : Z.of_nat (length ds) = MIO_MOTR_MAX_POOL_CNT - 1)
  (Hm : motr_conf c = Some m) :
  conf_scan layout (pools_tokens_open ds ++ YAML_BLOCK_ENTRY_TOKEN :: rest) is_key key c (true :: p) =
    Done (- E2BIG, set_pools (table_of (pool_of_desc <$> ds)) (set_blk_seq CONF_BLK_SEQ_MOTR_POOLS c), p).
Proof.
  unfold MIO_MOTR_MAX_POOL_CNT in Hlen. unfold pools_tokens_open. rewrite <- !app_assoc.
  set (c1 := set_pools (table_of []) (set_blk_seq CONF_BLK_SEQ_MOTR_POOLS c)).
  destruct (conf_scan_pool_list layout ds (YAML_BLOCK_ENTRY_TOKEN :: rest) false MOTR_POOLS c1 p m [])
    as (k1 & k2 & Heq); try done; [simpl; lia|].
  transitivity (conf_scan layout ((ds ≫= pool_tokens) ++ YAML_BLOCK_ENTRY_TOKEN :: rest)
    false MOTR_POOLS c1 p).
  - cbn [app]. rewrite conf_scan_step by done. cbn [conf_token mbind outcome_bind Z.ltb Z.compare].
    rewrite conf_scan_step by done. rewrite (conf_token_key _ _ _ _ _ m MOTR_POOLS) by done.
    cbn [mbind outcome_bind Z.ltb Z.compare].
    rewrite conf_scan_step by done. cbn [conf_token mbind outcome_bind Z.ltb Z.compare].
    by rewrite conf_scan_step by done.
  - rewrite Heq, conf_scan_step by done. cbn [conf_token app]. unfold conf_start_block, table_of.
    cbn [set_pools conf_which_blk_seq the_pools mps_nr_pools c1 set_blk_seq Z.eqb CONF_BLK_SEQ_MOTR_POOLS Pos.eqb].
    rewrite length_fmap, Hlen. done.
Qed.

Definition ex_fifteen : list pool_desc :=
  replicate 15 (MkDesc (str "p") (str "1:2") (str "SSD") (MkPoolId 1 2) 1).

Lemma conf_scan_sixteenth_pool_witness :
  Forall desc_ok ex_fifteen ∧
  ∃ c, conf_scan (λ x, x) (pools_tokens_open ex_fifteen ++ [YAML_BLOCK_ENTRY_TOKEN]) true MIO_CONFIG
    (set_motr_conf (Some motr_conf_fresh) conf_zero) [true] = Done (- E2BIG, c, []).
Proof.
  assert (H : Forall desc_ok ex_fifteen) by (repeat constructor; vm_compute; congruence).
  split; [exact H|]. eexists.
  exact (conf_scan_sixteenth_pool (λ x, x) ex_fifteen [] true MIO_CONFIG
    (set_motr_conf (Some motr_conf_fresh) conf_zero) motr_conf_fresh [] H eq_refl eq_refl).
Defined.

(** An error in the file.  When the scan ends with an error,
    [mio_conf_init] returns that error and no Motr configuration is left, if
    the Motr section had not begun or its four strings were all set before the
    error; otherwise it frees an uninitialised pointer. *)
Theorem mio_conf_init_scan_error (layout : Z → Z) tokens (c c' : conf) (p p' : mplan) (rc : Z) :
  let c0 := set_default_name (arr_memcpy (mio_default_pool_name c) (mio_default_pool_null_str ++ [0])) c in
  conf_scan layout tokens true MIO_CONF_INVALID c0 p = Done (rc, c', p') → rc < 0 →
  mio_conf_init layout true true tokens c p =
    if match motr_conf c' with Some m => motr_strings_set m | None => true end
    then Done (rc, set_motr_conf None c', p') else Fault UninitRead.
Proof.
  intros c0 Hscan Hrc. unfold mio_conf_init. cbn [negb].
  change (take (Z.to_nat (strnlen mio_default_pool_null_str MIO_POOL_MAX_NAME_LEN + 1))
    (mio_default_pool_null_str ++ [0])) with (mio_default_pool_null_str ++ [0]).
  fold c0. rewrite Hscan. cbn [mbind outcome_bind]. rewrite (proj2 (Z.ltb_lt _ _) Hrc).
  rewrite conf_free_drivers_eq. by destruct (match motr_conf c' with Some m => _ | None => _ end).
Qed.

(** A misspelt key in the Motr section. *)
Lemma mio_conf_init_scan_error_witness :
  conf_scan (λ x, x) (entry_tokens "MOTR_CONFIG" [] ++ entry_tokens "MOTR_HA_ADR" (str "ha")) true
    MIO_CONF_INVALID (set_default_name (arr_memcpy (replicate 33 0) (mio_default_pool_null_str ++ [0])) conf_zero) [] =
    Done (-1, set_motr_conf (Some motr_conf_fresh)
      (set_default_name (arr_memcpy (replicate 33 0) (mio_default_pool_null_str ++ [0])) conf_zero), []) ∧
  mio_conf_init (λ x, x) true true (entry_tokens "MOTR_CONFIG" [] ++ entry_tokens "MOTR_HA_ADR" (str "ha"))
    conf_zero [] = Fault UninitRead.
Proof.
  split; [vm_compute; reflexivity|].
  refine (mio_conf_init_scan_error (λ x, x)
    (entry_tokens "MOTR_CONFIG" [] ++ entry_tokens "MOTR_HA_ADR" (str "ha")) conf_zero
    (set_motr_conf (Some motr_conf_fresh)
      (set_default_name (arr_memcpy (replicate 33 0) (mio_default_pool_null_str ++ [0])) conf_zero))
    [] [] (-1) _ _); vm_compute; reflexivity.
Defined.
