(* ===== verification/CmdHelpers.v ===== *)
(** * Helpers of the command line tools (src/examples/helpers.c)

    Object ids with an offset, ids and sizes in text form, waiting for one
    operation, and random numbers. *)

From Stdlib Require Import String.
From S2P Require Import Prelude Bytes ObjId HintMap CStr Conf.
Open Scope Z_scope.

Definition EOVERFLOW : Z := 75.

Section Helpers.
Context `{HostOrder}.

(** [mio_cmd_obj_id_clone] for ids that are not NULL: the offsets are added to the
    two big-endian words. *)
Definition mio_cmd_obj_id_clone (orig_oid : mio_obj_id) (off1 off2 : Z) : mio_obj_id :=
  let u1 := mio_byteorder_be64_to_cpu (of_native (take 8 (moi_bytes orig_oid))) in
  let u2 := mio_byteorder_be64_to_cpu (of_native (take 8 (drop 8 (moi_bytes orig_oid)))) in
  let n1 := mio_byteorder_cpu_to_be64 (u64 (u1 + off1)) in
  let n2 := mio_byteorder_cpu_to_be64 (u64 (u2 + off2)) in
  MkObjId (native 8 n1 ++ native 8 n2).

(** [mio_cmd_id_sscanf]; the words are not written when the text is empty, and
    are uninitialised when they are not matched. *)
Definition mio_cmd_id_sscanf (idstr : list Z) : outcome (Z * option (Z * Z)) :=
  let '(rc, u1, u2) := sscanf_pool_id idstr in
  if rc <? 0 then Done (rc, None) else
  match u1, u2 with
  | Some u1, Some u2 => Done (0, Some (mio_byteorder_cpu_to_be64 u1, mio_byteorder_cpu_to_be64 u2))
  | _, _ => Fault UninitRead
  end.
End Helpers.

(** strtoull() in base 0: the value and the text behind the number; without
    digits nothing is consumed, and a number that does not fit gives the
    largest one. *)
Definition strtoull0 (s : list Z) : Z * list Z :=
  let '(neg, t) := scan_sign (skip_spaces s) in
  let '(v, n, rest) :=
    match t with
    | c0 :: t1 =>
        if c0 =? 48 then
          match t1 with
          | c1 :: t2 =>
              if (c1 =? 120) || (c1 =? 88) then
                match scan_digits 16 t2 0 0 with
                | (_, O, _) => (0, 1%nat, t1)
                | r => r
                end
              else scan_digits 8 t 0 0
          | [] => scan_digits 8 t 0 0
          end
        else scan_digits 10 t 0 0
    | [] => (0, O, [])
    end in
  if (n =? 0)%nat then (0, s)
  else if 2 ^ 64 <=? v then (2 ^ 64 - 1, rest)
  else (if neg then u64 (- v) else v, rest).

(** The multiplier of a suffix out of "bkmgKMG". *)
Definition suffix_multiplier (c : Z) : option Z :=
  if c =? 98 then Some (2 ^ 9)
  else if c =? 107 then Some (2 ^ 10)
  else if c =? 109 then Some (2 ^ 20)
  else if c =? 103 then Some (2 ^ 30)
  else if c =? 75 then Some 1000
  else if c =? 77 then Some (1000 * 1000)
  else if c =? 71 then Some (1000 * 1000 * 1000)
  else None.

(** [mio_cmd_strtou64]: the return code and *out. *)
Definition mio_cmd_strtou64 (arg : list Z) : Z * Z :=
  let '(out, rest) := strtoull0 arg in
  match rest with
  | [] => (0, out)
  | c :: _ =>
      match suffix_multiplier c with
      | Some mult =>
          if out <=? (2 ^ 64 - 1) / mult then (0, out * mult) else (- EOVERFLOW, out)
      | None => (- EINVAL, out)
      end
  end.

(** [mio_cmd_random]: [random] are the coming results of random(). *)
Definition mio_cmd_random (max : Z) (random : list Z) : outcome (Z * list Z) :=
  if max =? 0 then Fault DivByZero else
  match random with
  | r :: random => Done (u32 r mod max, random)
  | [] => Done (0, [])
  end.

(** A list of results without a failure. *)
Lemma plan_next_all p ok p' :
  plan_next p = (ok, p') → Forall (λ b, b = true) p → ok = true ∧ Forall (λ b, b = true) p'.
Proof. intros E Hp. destruct Hp; injection E as <- <-; done. Qed.

(** ** Identifiers *)
Section Ids.
Context `{HostOrder}.

(** The two words of an id. *)
Definition id_words (oid : mio_obj_id) : Z * Z :=
  (u_hi (mio__obj_id_to_uint128 oid), u_lo (mio__obj_id_to_uint128 oid)).

Lemma clone_to_uint128 oid off1 off2 :
  mio_cmd_obj_id_clone oid off1 off2 =
    mio__uint128_to_obj_id (MkU128 (u64 ((id_words oid).1 + off1)) (u64 ((id_words oid).2 + off2))).
Proof. done. Qed.

Lemma id_words_of_uint128 u : u128_ok u → id_words (mio__uint128_to_obj_id u) = (u_hi u, u_lo u).
Proof.
  intros Hu. unfold id_words.
  destruct (obj_id_uint128_roundtrip u (mio__uint128_to_obj_id u) Hu (uint128_to_obj_id_ok u)) as [-> _].
  done.
Qed.

Lemma clone_words oid off1 off2 :
  id_words (mio_cmd_obj_id_clone oid off1 off2) =
    (u64 ((id_words oid).1 + off1), u64 ((id_words oid).2 + off2)).
Proof.
  rewrite clone_to_uint128, id_words_of_uint128; [done|]. split; apply u64_range.
Qed.

(** Offsets of type int are different modulo 2^64. *)
Lemma u64_add_inj x a b :
  - 2 ^ 31 <= a < 2 ^ 31 → - 2 ^ 31 <= b < 2 ^ 31 → u64 (x + a) = u64 (x + b) → a = b.
Proof.
  unfold u64. intros Ha Hb Heq.
  pose proof (Z.div_mod (x + a) (2 ^ 64)). pose proof (Z.div_mod (x + b) (2 ^ 64)). nia.
Qed.

(** Clones of one id with different offsets are different ids. *)
Lemma clone_inj oid a b a' b' :
  - 2 ^ 31 <= a < 2 ^ 31 → - 2 ^ 31 <= b < 2 ^ 31 →
  - 2 ^ 31 <= a' < 2 ^ 31 → - 2 ^ 31 <= b' < 2 ^ 31 →
  mio_cmd_obj_id_clone oid a b = mio_cmd_obj_id_clone oid a' b' → a = a' ∧ b = b'.
Proof.
  intros ???? Heq. apply (f_equal id_words) in Heq. rewrite !clone_words in Heq.
  injection Heq as E1 E2. split; by eapply u64_add_inj.
Qed.

Lemma clone_self oid : obj_id_ok oid → mio_cmd_obj_id_clone oid 0 0 = oid.
Proof.
  intros Hoid. pose proof (obj_id_to_uint128_ok oid Hoid) as [Hhi Hlo]. rewrite clone_to_uint128, !Z.add_0_r.
  unfold id_words. cbn [fst snd]. rewrite !u64_small by done.
  destruct (obj_id_uint128_roundtrip (mio__obj_id_to_uint128 oid) oid) as (_ & Hback & _); [by apply obj_id_to_uint128_ok|done|].
  by destruct (mio__obj_id_to_uint128 oid).
Qed.
End Ids.

(** ** Sizes *)

Lemma dec_digits_head fuel x :
  0 < x < 10 ^ Z.of_nat fuel → ∃ c t, dec_digits fuel x = c :: t ∧ 49 <= c <= 57.
Proof.
  revert x; induction fuel as [|fuel IH]; intros x Hx.
  { change (10 ^ Z.of_nat 0) with 1 in Hx. lia. }
  cbn [dec_digits]. destruct (Z.ltb_spec x 10) as [Hlt|Hge].
  - exists (48 + x mod 10), []. rewrite Z.mod_small by lia. split; [done|lia].
  - destruct (IH (x / 10)) as (c & t & -> & Hc).
    + split; [apply Z.div_str_pos; lia|]. apply Z.div_lt_upper_bound; [lia|].
      rewrite Nat2Z.inj_succ, Z.pow_succ_r in Hx by lia. lia.
    + by exists c, (t ++ [48 + x mod 10]).
Qed.

(** A character at which a decimal number ends: it is not a digit, and no x of a
    prefix. *)
Definition ends_number (rest : list Z) : Prop :=
  match rest with
  | [] => True
  | c :: _ => (c < 48 ∨ 57 < c) ∧ c ≠ 120 ∧ c ≠ 88
  end.

Lemma cmd_scan_digits_stop base rest acc n :
  base <= 10 → ends_number rest → scan_digits base rest acc n = (acc, n, rest).
Proof.
  intros Hb Hr. destruct rest as [|c rest]; [done|]. cbn [scan_digits ends_number] in *.
  destruct Hr as [Hr _]. unfold digit_val.
  repeat match goal with |- context [if ?b then _ else _] => destruct b eqn:?; simpl end; try done;
    rewrite ?andb_true_iff, ?Z.leb_le, ?Z.ltb_lt in *; lia.
Qed.

Lemma strtoull0_decimal x rest :
  0 <= x < 2 ^ 64 → ends_number rest → strtoull0 (sprintf_u x ++ rest) = (x, rest).
Proof.
  intros Hx Hr. unfold strtoull0, sprintf_u.
  destruct (decide (x = 0)) as [->|Hnz].
  - change (dec_digits 20 0) with [48]. cbn [app].
    change (skip_spaces (48 :: rest)) with (48 :: rest).
    change (scan_sign (48 :: rest)) with (false, 48 :: rest). cbv iota beta.
    change (48 =? 48) with true. cbv iota.
    assert (Hs : scan_digits 8 (48 :: rest) 0 0 = (0, 1%nat, rest)).
    { cbn [scan_digits]. change (digit_val 48) with (Some 0). simpl. by rewrite cmd_scan_digits_stop. }
    destruct rest as [|c rest]; [done|]. destruct Hr as (_ & H1 & H2).
    rewrite (proj2 (Z.eqb_neq c 120)), (proj2 (Z.eqb_neq c 88)) by done. cbv [orb]. by rewrite Hs.
  - destruct (dec_digits_head 20 x) as (c & t & E & Hc); [lia|].
    assert (Hscan : scan_digits 10 (c :: t ++ rest) 0 0 = (x, S (length t), rest)).
    { change (c :: t ++ rest) with ((c :: t) ++ rest). rewrite <- E.
      rewrite scan_dec_digits by lia. rewrite cmd_scan_digits_stop by done. rewrite E. done. }
    rewrite E. cbn [app].
    assert (Hsp : is_space c = false) by (unfold is_space; lia).
    cbn [skip_spaces]. rewrite Hsp. cbn [scan_sign].
    rewrite (proj2 (Z.eqb_neq c 45)), (proj2 (Z.eqb_neq c 43)) by lia. cbv iota beta.
    rewrite (proj2 (Z.eqb_neq c 48)), Hscan by lia. cbv iota beta. cbn [Nat.eqb].
    by rewrite (proj2 (Z.leb_gt _ _)) by lia.
Qed.

Lemma suffix_multiplier_pos c m : suffix_multiplier c = Some m → 0 < m ∧ ends_number [c].
Proof.
  unfold suffix_multiplier.
  repeat match goal with |- context [if ?b then _ else _] => destruct b eqn:? end; try done;
    rewrite ?Z.eqb_eq in *; subst; intros [= <-]; split; simpl; lia.
Qed.

(** (C27) A size in decimal is read exactly: without a suffix it is the number, with
    one of the suffixes the product, or -EOVERFLOW exactly when the product does
    not fit 64 bits; any other character after the number is refused.  What
    follows the suffix is not looked at. *)
Theorem mio_cmd_strtou64_correct (x : Z) (c : Z) (tail : list Z) (Hx : 0 <= x < 2 ^ 64)
    (Hc : ends_number [c]) :
  mio_cmd_strtou64 (sprintf_u x) = (0, x) ∧
  mio_cmd_strtou64 (sprintf_u x ++ c :: tail) =
    match suffix_multiplier c with
    | Some m => if x * m <? 2 ^ 64 then (0, x * m) else (- EOVERFLOW, x)
    | None => (- EINVAL, x)
    end.
Proof.
  unfold mio_cmd_strtou64. split.
  - by rewrite <- (app_nil_r (sprintf_u x)), strtoull0_decimal.
  - rewrite strtoull0_decimal by done. cbv iota beta.
    destruct (suffix_multiplier c) as [m|] eqn:Em; [|done].
    apply suffix_multiplier_pos in Em as [Hm _].
    destruct (Z.leb_spec x ((2 ^ 64 - 1) / m)) as [Hle|Hgt].
    + rewrite (proj2 (Z.ltb_lt _ _)); [done|].
      pose proof (Z.mul_div_le (2 ^ 64 - 1) m Hm). nia.
    + rewrite (proj2 (Z.ltb_ge _ _)); [done|].
      pose proof (Z.mul_succ_div_gt (2 ^ 64 - 1) m Hm). nia.
Qed.

Lemma mio_cmd_strtou64_correct_witness :
  mio_cmd_strtou64 (str "4k") = (0, 4096) ∧
  mio_cmd_strtou64 (str "17179869184g") = (- EOVERFLOW, 17179869184).
Proof.
  split.
  - apply (mio_cmd_strtou64_correct 4 107 []); simpl; lia.
  - apply (mio_cmd_strtou64_correct 17179869184 103 []); simpl; lia.
Defined.

(** A hexadecimal size, and text after the suffix. *)
Example strtou64_hex : mio_cmd_strtou64 (str "0x10Kib") = (0, 16000).
Proof. reflexivity. Qed.

(** Text without a number is the size 0. *)
Example strtou64_no_number : mio_cmd_strtou64 [] = (0, 0).
Proof. reflexivity. Qed.

(** A negative size is a very large one. *)
Example strtou64_negative : mio_cmd_strtou64 (str "-1") = (0, 2 ^ 64 - 1).
Proof. reflexivity. Qed.
