(* ===== verification/ObjService.v ===== *)
(** * What the library promises to a program (src/mio.h)

    The interface between the programs of src/examples/ and the library: objects
    as they are stored, operations that are started and waited for, and the laws
    that the documentation of the API gives.  Reading and writing are promised
    for vectors in order that do not overlap, which is what [IoWrite] and [IoRead]
    show of the driver; an object's size is that of its stored attributes, as in
    [ObjDriver].  An instance in memory, whose operations fail as it is told,
    runs the programs in the witnesses. *)

From Stdlib Require Import Sorted.
From S2P Require Import Prelude ObjId HintMap Types.
Open Scope Z_scope.

(** ** Objects and operations *)

(** An object as it is stored: the size of its attributes, its bytes and its
    pool. *)
Record obj_view := MkView { ov_size : Z; ov_bytes : Z → Z; ov_pool : option mio_pool_id }.

Abbreviation obj_views := (mio_obj_id → option obj_view).

(** An operation with its arguments; data are offsets with bytes, vectors offsets
    with lengths. *)
Inductive obj_call :=
| CallOpen (oid : mio_obj_id)
| CallCreate (oid : mio_obj_id) (pool : option mio_pool_id) (hints : option mio_hint_map)
| CallDelete (oid : mio_obj_id)
| CallWrite (data : list (Z * list Z))
| CallRead (vecs : list (Z * Z)).

Definition call_target (c : obj_call) (o : mio_obj) : mio_obj_id :=
  match c with
  | CallOpen oid | CallCreate oid _ _ | CallDelete oid => oid
  | CallWrite _ | CallRead _ => mo_id o
  end.

(** Vectors that are not empty, in order and without overlap. *)
Definition vecs_ok (vecs : list (Z * Z)) : Prop :=
  Forall (λ v, 0 <= v.1 ∧ 0 < v.2 ∧ v.1 + v.2 < 2 ^ 64) vecs ∧
  StronglySorted (λ u v, u.1 + u.2 <= v.1) vecs.

Definition data_vecs (data : list (Z * list Z)) : list (Z * Z) :=
  (λ d, (d.1, Z.of_nat (length d.2))) <$> data.

(** The byte that data put at an offset. *)
Fixpoint data_at (data : list (Z * list Z)) (z : Z) : option Z :=
  match data with
  | [] => None
  | (off, bs) :: data' =>
      if (off <=? z) && (z <? off + Z.of_nat (length bs)) then bs !! Z.to_nat (z - off) else data_at data' z
  end.

Definition data_end (data : list (Z * list Z)) : Z :=
  foldr (λ d e, Z.max (d.1 + Z.of_nat (length d.2)) e) 0 data.

(** [len] bytes of an object. *)
Definition view_bytes (v : obj_view) (off len : Z) : list Z :=
  (λ i, ov_bytes v (off + Z.of_nat i)) <$> seq 0 (Z.to_nat len).

(** A handle that still refers to the same object. *)
Definition same_handle (o o' : mio_obj) : Prop :=
  mo_id o' = mo_id o ∧ moa_size (mo_attrs o') = moa_size (mo_attrs o) ∧
  (mo_drv_obj o ≠ None → mo_drv_obj o' ≠ None).

(** What starting an operation does to the handle.  That an object does not exist
    is the result of the operation, not of starting it. *)
Definition start_spec (c : obj_call) (o : mio_obj) (rc : Z) (o' : mio_obj) : Prop :=
  match c with
  | CallOpen oid | CallCreate oid _ _ =>
      rc ≠ - ENOENT ∧ moa_size (mo_attrs o') = moa_size (mo_attrs o) ∧
      mo_attrs_updated o' = mo_attrs_updated o ∧ (rc = 0 → mo_id o' = oid ∧ mo_drv_obj o' ≠ None)
  | CallDelete _ => True
  | CallWrite _ | CallRead _ => same_handle o o'
  end.

(** What an operation that was started has done when it is over: [rc] is its
    result, [d] the bytes read, [a] and [b] the objects before and after. *)
Definition done_spec (create_pool : option mio_pool_id → option mio_hint_map → option mio_pool_id)
    (c : obj_call) (o : mio_obj) (a : obj_views) (rc : Z) (d : list (list Z)) (o' : mio_obj) (b : obj_views)
  : Prop :=
  match c with
  | CallOpen oid =>
      b oid = a oid ∧ mo_id o' = mo_id o ∧ (mo_drv_obj o ≠ None → mo_drv_obj o' ≠ None) ∧
      mo_attrs_updated o' = mo_attrs_updated o ∧
      (rc = 0 → ∃ v, a oid = Some v ∧ moa_size (mo_attrs o') = ov_size v) ∧
      (rc = - ENOENT → a oid = None ∧ moa_size (mo_attrs o') = moa_size (mo_attrs o))
  | CallCreate oid pool hints =>
      same_handle o o' ∧ mo_attrs_updated o' = mo_attrs_updated o ∧
      (rc = 0 → ∃ v, b oid = Some v ∧ ov_size v = 0 ∧ ov_pool v = create_pool pool hints)
  | CallDelete oid => rc = 0 → b oid = None
  | CallWrite data =>
      mo_id o' = mo_id o ∧ (mo_drv_obj o ≠ None → mo_drv_obj o' ≠ None) ∧
      (rc = 0 → vecs_ok (data_vecs data) →
       mo_attrs_updated o' = true ∧
       moa_size (mo_attrs o') = Z.max (moa_size (mo_attrs o)) (data_end data) ∧
       ∃ v v', a (mo_id o) = Some v ∧ b (mo_id o) = Some v' ∧
         ov_size v' = ov_size v ∧ ov_pool v' = ov_pool v ∧
         ∀ z, match data_at data z with
              | Some x => ov_bytes v' z = x
              | None => ov_bytes v' z = ov_bytes v z ∨ moa_size (mo_attrs o) <= z
              end)
  | CallRead vecs =>
      same_handle o o' ∧ b (mo_id o) = a (mo_id o) ∧
      (∀ i bs u, d !! i = Some bs → vecs !! i = Some u → Z.of_nat (length bs) <= Z.max 0 u.2) ∧
      (rc = 0 → vecs_ok vecs → ∃ v, a (mo_id o) = Some v ∧ d = (λ v', view_bytes v v'.1 v'.2) <$> vecs)
  end.

(** Closing stores the attributes of the handle if they have changed - or fails to,
    which the application is not told. *)
Definition close_spec (o : mio_obj) (a b : obj_views) : Prop :=
  match a (mo_id o) with
  | None => b (mo_id o) = None
  | Some v => ∃ v', b (mo_id o) = Some v' ∧ ov_bytes v' = ov_bytes v ∧ ov_pool v' = ov_pool v ∧
      (ov_size v' = ov_size v ∨ mo_attrs_updated o = true ∧ ov_size v' = moa_size (mo_attrs o))
  end.

Definition EEXIST : Z := 17.

(** ** The interface *)
Class ObjService := {
  sv : Type;
  sv_objects : sv → obj_views;
  (** The function of the API for a call: its return value, the handle. *)
  sv_start : obj_call → mio_obj → sv → Z * mio_obj * sv;
  (** The operation runs until it is done: its result, the bytes read, the
      handle. *)
  sv_wait : obj_call → mio_obj → sv → Z * list (list Z) * mio_obj * sv;
  (** mio_obj_close(). *)
  sv_close : mio_obj → sv → outcome sv;
  (** The pool of an object that is created with a pool and hints. *)
  sv_create_pool : option mio_pool_id → option mio_hint_map → option mio_pool_id;
  sv_start_ok : ∀ c o s rc o' s', sv_start c o s = (rc, o', s') →
    rc <= 0 ∧ (∀ id, sv_objects s' id = sv_objects s id) ∧ start_spec c o rc o';
  sv_wait_ok : ∀ c o s rc d o' s', sv_wait c o s = (rc, d, o', s') →
    rc <= 0 ∧ (∀ id, id ≠ call_target c o → sv_objects s' id = sv_objects s id) ∧
    done_spec sv_create_pool c o (sv_objects s) rc d o' (sv_objects s');
  sv_close_ok : ∀ o s, mo_drv_obj o ≠ None → ∃ s', sv_close o s = Done s' ∧
    (∀ id, id ≠ mo_id o → sv_objects s' id = sv_objects s id) ∧
    close_spec o (sv_objects s) (sv_objects s')
}.

(** The attributes that have changed reach the store when an object is closed. *)
Definition close_stores `{ObjService} : Prop :=
  ∀ o s s' v', mo_attrs_updated o = true → sv_close o s = Done s' →
    sv_objects s' (mo_id o) = Some v' → ov_size v' = moa_size (mo_attrs o).

(** Only creating an object that exists gives -EEXIST. *)
Definition exists_honest `{ObjService} : Prop :=
  (∀ oid o s, (sv_start (CallOpen oid) o s).1.1 ≠ - EEXIST ∧ (sv_wait (CallOpen oid) o s).1.1.1 ≠ - EEXIST) ∧
  (∀ oid pool hints o s, sv_objects s oid = None →
     (sv_start (CallCreate oid pool hints) o s).1.1 ≠ - EEXIST ∧
     (sv_wait (CallCreate oid pool hints) o s).1.1.1 ≠ - EEXIST).

(** ** Lemmas on vectors *)

Lemma length_view_bytes v off len : 0 <= len → Z.of_nat (length (view_bytes v off len)) = len.
Proof. intros. unfold view_bytes. rewrite length_fmap, length_seq. lia. Qed.

Lemma view_bytes_lookup v off len i :
  0 <= i < len → view_bytes v off len !! Z.to_nat i = Some (ov_bytes v (off + i)).
Proof.
  intros Hi. unfold view_bytes. rewrite list_lookup_fmap, lookup_seq_lt by lia. simpl.
  do 2 f_equal. lia.
Qed.

(** Data that start behind an offset do not touch it. *)
Lemma data_at_before data z :
  Forall (λ d, z < d.1) data → data_at data z = None.
Proof.
  induction 1 as [|[off bs] data Hz _ IH]; [done|]. cbn [data_at fst] in *.
  by rewrite (proj2 (Z.leb_gt _ _)) by done.
Qed.

(** ** An instance in memory *)

(** The objects; the coming results of starting and of waiting, and whether the
    coming closings store the attributes: lists that have ended stand for
    success.  With [reliable] starting never fails and closing always stores. *)
Record mem_sv := MkMemSv { ms_objs : obj_views; ms_rcs : list Z; ms_stores : list bool }.

Definition views_upd (id : mio_obj_id) (v : option obj_view) (a : obj_views) : obj_views :=
  λ id', if decide (id' = id) then v else a id'.

Definition ms_next (s : mem_sv) : Z * mem_sv :=
  match ms_rcs s with
  | [] => (0, s)
  | rc :: rcs =>
      (if (0 <? rc) || (rc =? - ENOENT) || (rc =? - EEXIST) then - EIO else rc, MkMemSv (ms_objs s) rcs (ms_stores s))
  end.

Definition ms_set_objs (a : obj_views) (s : mem_sv) : mem_sv := MkMemSv a (ms_rcs s) (ms_stores s).

Definition mem_m0_obj : m0_obj := MkM0Obj (MkU128 0 0) 12 (MkFid 0 0).

Definition mem_open_handle (oid : mio_obj_id) (o : mio_obj) : mio_obj :=
  MkObj oid (mo_sess_seqno o) (mo_hints o) (mo_attrs_updated o) (mo_attrs o) (Some mem_m0_obj).

Definition mem_mark_updated (o : mio_obj) : mio_obj :=
  MkObj (mo_id o) (mo_sess_seqno o) (mo_hints o) true (mo_attrs o) (mo_drv_obj o).

Definition mem_start (reliable : bool) (c : obj_call) (o : mio_obj) (s : mem_sv) : Z * mio_obj * mem_sv :=
  let '(rc, s) := if reliable then (0, s) else ms_next s in
  if negb (rc =? 0) then (rc, o, s) else
  match c with
  | CallOpen oid | CallCreate oid _ _ => (0, mem_open_handle oid o, s)
  | CallDelete _ => (0, o, s)
  | CallWrite _ | CallRead _ => (0, mem_mark_updated o, s)
  end.

Definition mem_do (c : obj_call) (o : mio_obj) (s : mem_sv) : Z * list (list Z) * mio_obj * mem_sv :=
  let a := ms_objs s in
  match c, a (call_target c o) with
  | CallOpen _, Some v => (0, [], set_moa_size (ov_size v) o, s)
  | CallCreate oid pool _, None =>
      (0, [], o, ms_set_objs (views_upd oid (Some (MkView 0 (λ _, 0) pool)) a) s)
  | CallCreate _ _ _, Some _ => (- EEXIST, [], o, s)
  | CallDelete oid, Some _ => (0, [], o, ms_set_objs (views_upd oid None a) s)
  | CallWrite data, Some v =>
      let bytes z := match data_at data z with Some x => x | None => ov_bytes v z end in
      (0, [], mem_mark_updated (set_moa_size (Z.max (moa_size (mo_attrs o)) (data_end data)) o),
       ms_set_objs (views_upd (mo_id o) (Some (MkView (ov_size v) bytes (ov_pool v))) a) s)
  | CallRead vecs, Some v =>
      if forallb (λ u, (0 <? u.2) && (u.2 <? 2 ^ 32)) vecs
      then (0, (λ u, view_bytes v u.1 u.2) <$> vecs, o, s) else (- EINVAL, [], o, s)
  | _, None => (- ENOENT, [], o, s)
  end.

Definition mem_wait (c : obj_call) (o : mio_obj) (s : mem_sv) : Z * list (list Z) * mio_obj * mem_sv :=
  let '(rc, s) := ms_next s in
  if negb (rc =? 0) then (rc, [], o, s) else mem_do c o s.

Definition mem_close (reliable : bool) (o : mio_obj) (s : mem_sv) : outcome mem_sv :=
  match mo_drv_obj o with
  | None => Fault NullDeref
  | Some _ =>
      let '(ok, l) := plan_next (ms_stores s) in
      let s := MkMemSv (ms_objs s) (ms_rcs s) l in
      Done match ms_objs s (mo_id o) with
           | Some v =>
               if (reliable || ok) && mo_attrs_updated o then
                 ms_set_objs (views_upd (mo_id o)
                   (Some (MkView (moa_size (mo_attrs o)) (ov_bytes v) (ov_pool v))) (ms_objs s)) s
               else s
           | None => s
           end
  end.

Lemma views_upd_eq id v a : views_upd id v a id = v.
Proof. unfold views_upd. by rewrite decide_True. Qed.
Lemma views_upd_ne id v a id' : id' ≠ id → views_upd id v a id' = a id'.
Proof. intros. unfold views_upd. by rewrite decide_False. Qed.

Lemma ms_next_spec s rc s' : ms_next s = (rc, s') →
  rc <= 0 ∧ rc ≠ - ENOENT ∧ rc ≠ - EEXIST ∧ ms_objs s' = ms_objs s.
Proof.
  unfold ms_next, ENOENT, EIO, EEXIST. destruct (ms_rcs s) as [|r]; [by intros [= <- <-]|].
  destruct (Z.ltb_spec 0 r), (Z.eqb_spec r (- (2))), (Z.eqb_spec r (- (17))); intros [= <- <-]; simpl in *;
    (split; [lia|]; split; [lia|]; split; [lia|done]).
Qed.

Lemma mem_start_ok reliable c o s rc o' s' : mem_start reliable c o s = (rc, o', s') →
  rc <= 0 ∧ (∀ id, ms_objs s' id = ms_objs s id) ∧ start_spec c o rc o'.
Proof.
  unfold mem_start. destruct (if reliable then (0, s) else ms_next s) as [rc0 s0] eqn:E.
  assert (rc0 <= 0 ∧ rc0 ≠ - ENOENT ∧ ms_objs s0 = ms_objs s) as (Hrc & Hno & Hs).
  { destruct reliable; [by injection E as <- <-|]. apply ms_next_spec in E. tauto. }
  destruct (Z.eqb_spec rc0 0) as [->|Hne]; simpl.
  - destruct c; intros [= <- <- <-]; (split; [done|]); (split; [by rewrite Hs|]); simpl; done.
  - intros [= <- <- <-]. split; [done|]. split; [by rewrite Hs|]. by destruct c; simpl.
Qed.

Lemma mem_do_ok c o s rc d o' s' : mem_do c o s = (rc, d, o', s') →
  rc <= 0 ∧ (∀ id, id ≠ call_target c o → ms_objs s' id = ms_objs s id) ∧
  done_spec (λ pool _, pool) c o (ms_objs s) rc d o' (ms_objs s').
Proof.
  unfold mem_do. destruct c as [oid|oid pool hints|oid|data|vecs]; simpl;
    destruct (ms_objs s _) as [v|] eqn:Ev; try destruct (forallb _ vecs);
    intros [= <- <- <- <-]; (split; [unfold EEXIST, ENOENT, EINVAL; lia|]).
  all: split; [intros id Hid; simpl; by rewrite ?views_upd_ne by done|].
  all: simpl; rewrite ?views_upd_eq.
  - repeat split; try done. intros _. by exists v.
  - repeat split; done.
  - repeat split; done.
  - repeat split; try done. intros _. by eexists.
  - done.
  - done.
  - repeat split; try done. eexists _, _. do 4 (split; [done|]).
    intros z. simpl. destruct (data_at data z); [done|by left].
  - repeat split; done.
  - repeat split; try done; [|intros _ _; by exists v]. intros i bs u Hbs Hu.
    rewrite list_lookup_fmap, Hu in Hbs. injection Hbs as <-.
    unfold view_bytes. rewrite length_fmap, length_seq. lia.
  - repeat split; done.
  - repeat split; done.
Qed.

Lemma mem_wait_ok c o s rc d o' s' : mem_wait c o s = (rc, d, o', s') →
  rc <= 0 ∧ (∀ id, id ≠ call_target c o → ms_objs s' id = ms_objs s id) ∧
  done_spec (λ pool _, pool) c o (ms_objs s) rc d o' (ms_objs s').
Proof.
  unfold mem_wait. destruct (ms_next s) as [rc0 s0] eqn:E. apply ms_next_spec in E as (Hrc & Hno & _ & Hs).
  rewrite <- Hs. destruct (Z.eqb_spec rc0 0) as [->|Hne]; simpl; [apply mem_do_ok|].
  intros [= <- <- <- <-]. split; [lia|]. split; [done|].
  destruct c; simpl; repeat split; try done; lia.
Qed.

Lemma mem_close_ok reliable o s : mo_drv_obj o ≠ None → ∃ s', mem_close reliable o s = Done s' ∧
  (∀ id, id ≠ mo_id o → ms_objs s' id = ms_objs s id) ∧ close_spec o (ms_objs s) (ms_objs s').
Proof.
  unfold mem_close, close_spec. destruct (mo_drv_obj o); [|done]. intros _.
  destruct (plan_next (ms_stores s)) as [ok l]. eexists; split; [done|]. simpl.
  destruct (ms_objs s (mo_id o)) as [v|] eqn:Ev; simpl.
  - destruct ((reliable || ok) && mo_attrs_updated o) eqn:Eu; simpl.
    + apply andb_true_iff in Eu as [_ Hu].
      split; [intros; by rewrite views_upd_ne by done|]. rewrite views_upd_eq. eexists; split; [done|].
      do 2 (split; [done|]). by right.
    + split; [done|]. rewrite Ev. eexists; split; [done|]. do 2 (split; [done|]). by left.
  - split; [done|]. by rewrite Ev.
Qed.

Definition mem_service (reliable : bool) : ObjService := {|
  sv := mem_sv; sv_objects := ms_objs; sv_start := mem_start reliable; sv_wait := mem_wait; sv_close := mem_close reliable;
  sv_create_pool := λ pool _, pool;
  sv_start_ok := mem_start_ok reliable; sv_wait_ok := mem_wait_ok; sv_close_ok := mem_close_ok reliable
|}.

Lemma mem_close_stores : @close_stores (mem_service true).
Proof.
  intros o s s' v' Hu. simpl. unfold mem_close. destruct (mo_drv_obj o); [|done].
  destruct (plan_next (ms_stores s)) as [ok l]. simpl. rewrite Hu. intros [= <-].
  destruct (ms_objs s (mo_id o)) as [v|] eqn:Ev; simpl; [|by rewrite Ev].
  rewrite views_upd_eq. by intros [= <-].
Qed.

Lemma mem_exists_honest : @exists_honest (mem_service true).
Proof.
  split.
  - intros oid o s. split; [done|]. simpl. unfold mem_wait. destruct (ms_next s) as [rc s'] eqn:E.
    apply ms_next_spec in E as (_ & _ & Hne & _). destruct (Z.eqb_spec rc 0) as [->|]; [|done]. simpl.
    by destruct (ms_objs s' oid).
  - intros oid pool hints o s Hs. split; [done|]. simpl in Hs |- *. unfold mem_wait. destruct (ms_next s) as [rc s'] eqn:E.
    apply ms_next_spec in E as (_ & _ & Hne & Hobj). destruct (Z.eqb_spec rc 0) as [->|]; [|done]. simpl.
    by rewrite Hobj, Hs.
Qed.

(** An object of [size] bytes, and a state of the instance. *)
Definition ex_view (size : Z) : obj_view := MkView size (λ z, z mod 251) None.
Definition ex_oid (k : Z) : mio_obj_id := MkObjId (replicate 15 0 ++ [k]).
Definition ex_objs (k size : Z) : obj_views := views_upd (ex_oid k) (Some (ex_view size)) (λ _, None).
