(* ===== verification/ObjCmd.v ===== *)
(** * The object commands (src/examples/obj.c, obj_io_poll.c and helpers.c)

    Creating and deleting objects, and the three commands that move data in
    batches of blocks: from a file to an object, from an object to a file, and from
    one object to another. *)

From Stdlib Require Import String.
From S2P Require Import Prelude Bytes ObjId HintMap Types Hints CStr Conf CmdHelpers ObjService.
Open Scope Z_scope.

Definition MIO_CMD_MAX_BLOCK_COUNT_PER_OP : Z := 120.

(** ** Memory for a batch *)

(** [struct mio_iovec]: the place of miov_base in the block of memory, the range of
    the object, and the bytes at miov_base once they are written. *)
Record cmd_iov := MkCmdIov { ci_base : Z; ci_off : Z; ci_len : Z; ci_data : option (list Z) }.

(** The vectors of a batch and the size of their block of memory. *)
Record cmd_iovecs := MkCmdIovecs { ci_vecs : list cmd_iov; ci_size : Z }.

Definition set_ci_data (d : list Z) (v : cmd_iov) : cmd_iov := MkCmdIov (ci_base v) (ci_off v) (ci_len v) (Some d).

(** The vector of block [i]: all its arithmetic is in 64 bits. *)
Definition cmd_iov_at (bsize offset max_offset i : Z) : cmd_iov :=
  let off := u64 (offset + u64 (i * bsize)) in
  MkCmdIov (u64 (i * bsize)) off
    (if max_offset <? u64 (off + bsize) then u64 (max_offset - off) else bsize) None.

(** Writing [n] bytes at miov_base. *)
Definition ci_access (d : cmd_iovecs) (v : cmd_iov) (n : Z) : outcome unit :=
  if ci_base v + n <=? ci_size d then Done tt else Fault OutOfBounds.

(** [obj_alloc_iovecs]: two calls of malloc(). *)
Definition obj_alloc_iovecs (bcount bsize offset max_offset : Z) (p : mplan) : Z * option cmd_iovecs * mplan :=
  let '(ok1, p) := plan_next p in
  let '(ok2, p) := plan_next p in
  if ok1 && ok2 then
    (0, Some (MkCmdIovecs (cmd_iov_at bsize offset max_offset <$> seqZ 0 bcount) (u64 (bcount * bsize))), p)
  else (- ENOMEM, None, p).

(** ** Files *)

Definition signature : list Z := str "MIOWR".

(** memset() of every vector with a letter of the signature. *)
Fixpoint pseudo_data (d : cmd_iovecs) (i : nat) (l : list cmd_iov) : outcome (list cmd_iov) :=
  match l with
  | [] => Done []
  | v :: l' =>
      _ ← ci_access d v (ci_len v);
      l' ← pseudo_data d (S i) l';
      Done (set_ci_data (replicate (Z.to_nat (ci_len v)) (nth (i mod 5) signature 0)) v :: l')
  end.

(** fread() of every vector from a file with [rest] to come, until one is not
    filled: the number that are filled, and the rest.  Nothing is an element of
    length zero. *)
Fixpoint fread_vecs (d : cmd_iovecs) (l : list cmd_iov) (rest : list Z) : outcome (Z * list cmd_iov * list Z) :=
  match l with
  | [] => Done (0, [], rest)
  | v :: l' =>
      let got := Z.min (ci_len v) (Z.of_nat (length rest)) in
      _ ← ci_access d v got;
      if (ci_len v =? 0) || (got <? ci_len v) then Done (0, l, drop (Z.to_nat got) rest) else
      '(i, l', rest') ← fread_vecs d l' (drop (Z.to_nat got) rest);
      Done (i + 1, set_ci_data (take (Z.to_nat got) rest) v :: l', rest')
  end.

(** [obj_read_data_from_file]: without a file the data are made up. *)
Definition obj_read_data_from_file (fp : option (list Z)) (d : cmd_iovecs)
  : outcome (Z * cmd_iovecs * option (list Z)) :=
  match fp with
  | None =>
      l ← pseudo_data d 0 (ci_vecs d);
      Done (Z.of_nat (length l), MkCmdIovecs l (ci_size d), None)
  | Some rest =>
      '(i, l, rest) ← fread_vecs d (ci_vecs d) rest;
      Done (i, MkCmdIovecs l (ci_size d), Some rest)
  end.

(** Writing [bs] at position [pos] of a file; a gap is filled with zeros. *)
Definition file_put (pos : Z) (bs f : list Z) : list Z :=
  let n := Z.to_nat pos in
  take n f ++ replicate (n - length f) 0 ++ bs ++ drop (n + length bs) f.

Definition ci_contents (d : cmd_iovecs) (v : cmd_iov) : outcome (list Z) :=
  _ ← ci_access d v (ci_len v);
  match ci_data v with Some bs => Done bs | None => Fault UninitRead end.

(** fwrite() of every vector, one behind the other; [p] are the coming results of
    fwrite(). *)
Fixpoint fwrite_vecs (d : cmd_iovecs) (l : list cmd_iov) (pos : Z) (f : list Z) (p : mplan)
  : outcome (Z * list Z * mplan) :=
  match l with
  | [] => Done (0, f, p)
  | v :: l' =>
      bs ← ci_contents d v;
      let '(ok, p) := plan_next p in
      if negb ok || (ci_len v =? 0) then Done (0, f, p) else
      '(i, f, p) ← fwrite_vecs d l' (pos + ci_len v) (file_put pos bs f) p;
      Done (i + 1, f, p)
  end.

(** putchar() of every byte. *)
Fixpoint put_vecs (d : cmd_iovecs) (l : list cmd_iov) : outcome (list Z) :=
  match l with
  | [] => Done []
  | v :: l' => bs ← ci_contents d v; out ← put_vecs d l'; Done (bs ++ out)
  end.

(** A file that is written: its bytes and the coming results of fwrite(). *)
Record out_file := MkOutFile { of_bytes : list Z; of_plan : mplan }.

(** [obj_write_data_to_file]: the result, the file and what is printed.  Printing
    counts again from 0. *)
Definition obj_write_data_to_file (print_on_console : bool) (fp : option out_file) (d : cmd_iovecs)
  : outcome (Z * option out_file * list Z) :=
  '(i, fp) ←
    match fp with
    | None => Done (0, None)
    | Some f =>
        pos ← match ci_vecs d with v :: _ => Done (ci_off v) | [] => Fault OutOfBounds end;
        '(i, bs, p) ← fwrite_vecs d (ci_vecs d) pos (of_bytes f) (of_plan f);
        Done (i, Some (MkOutFile bs p))
    end;
  if print_on_console then
    out ← put_vecs d (ci_vecs d); Done (Z.of_nat (length (ci_vecs d)), fp, out)
  else Done (i, fp, []).

(** ** The state of a program *)
Section ObjCmd.
Context `{HostOrder} `{ObjService}.
Context (print_on_console : bool).

(** The library; the coming results of malloc(); the number of operations that
    have been started and not finalised; the telemetry records advertised, the
    newest first; what was printed. *)
Record cmd_world := MkCmdWorld {
  cw_sv : sv;
  cw_plan : mplan;
  cw_ops : Z;
  cw_telem : list (string * list Z);
  cw_out : list Z
}.

Definition set_cw_sv (s : sv) (w : cmd_world) : cmd_world := MkCmdWorld s (cw_plan w) (cw_ops w) (cw_telem w) (cw_out w).
Definition set_cw_plan (p : mplan) (w : cmd_world) : cmd_world :=
  MkCmdWorld (cw_sv w) p (cw_ops w) (cw_telem w) (cw_out w).
Definition set_cw_ops (n : Z) (w : cmd_world) : cmd_world :=
  MkCmdWorld (cw_sv w) (cw_plan w) n (cw_telem w) (cw_out w).
Definition cw_advertise (topic : string) (l : list Z) (w : cmd_world) : cmd_world :=
  MkCmdWorld (cw_sv w) (cw_plan w) (cw_ops w) ((topic, l) :: cw_telem w) (cw_out w).
Definition cw_print (l : list Z) (w : cmd_world) : cmd_world :=
  MkCmdWorld (cw_sv w) (cw_plan w) (cw_ops w) (cw_telem w) (cw_out w ++ l).

(** A function of the API that starts an operation. *)
Definition cmd_start (c : obj_call) (o : mio_obj) (w : cmd_world) : Z * mio_obj * cmd_world :=
  let '(rc, o, s) := sv_start c o (cw_sv w) in
  (rc, o, set_cw_ops (if rc =? 0 then cw_ops w + 1 else cw_ops w) (set_cw_sv s w)).

(** [mio_cmd_wait_on_op]. *)
Definition mio_cmd_wait_on_op (c : obj_call) (o : mio_obj) (w : cmd_world)
  : Z * list (list Z) * mio_obj * cmd_world :=
  let '(rc, d, o, s) := sv_wait c o (cw_sv w) in (rc, d, o, set_cw_sv s w).

(** mio_op_fini(). *)
Definition cmd_op_fini (w : cmd_world) : cmd_world := set_cw_ops (cw_ops w - 1) w.

Definition cmd_close (o : mio_obj) (w : cmd_world) : outcome cmd_world :=
  s ← sv_close o (cw_sv w); Done (set_cw_sv s w).

(** A handle that is set to zero. *)
Definition obj_zero : mio_obj := MkObj (MkObjId (replicate 16 0)) 0 hint_map_zero false attrs_zero None.

(** ** Objects *)

(** [obj_open]; the operation is not finalised. *)
Definition obj_open (oid : mio_obj_id) (o : mio_obj) (w : cmd_world) : Z * mio_obj * cmd_world :=
  let '(rc, o, w) := cmd_start (CallOpen oid) o w in
  if negb (rc =? 0) then (rc, o, w) else
  let '(rc, _, o, w) := mio_cmd_wait_on_op (CallOpen oid) o w in
  (rc, o, w).

Record mio_cmd_obj_hint := MkCmdHint { co_hkey : Z; co_hvalue : Z }.

(** [obj_do_create]. *)
Definition obj_do_create (pool : option mio_pool_id) (oid : mio_obj_id) (o : mio_obj)
    (chint : option mio_cmd_obj_hint) (w : cmd_world) : outcome (Z * mio_obj * cmd_world) :=
  '(rc, hints, p) ←
    match chint with
    | None => Done (0, None, cw_plan w)
    | Some chint =>
        '(_, hints, p) ← mio_hints_init (Some hint_map_zero) (cw_plan w);
        '(rc, hints) ← mio_hint_add hints (co_hkey chint) (co_hvalue chint);
        Done (rc, hints, p)
    end;
  let w := set_cw_plan p w in
  if rc <? 0 then Done (rc, o, w) else
  let c := CallCreate oid pool hints in
  let '(rc, o, w) := cmd_start c o w in
  if negb (rc =? 0) then Done (rc, o, w) else
  let '(rc, _, o, w) := mio_cmd_wait_on_op c o w in
  Done (rc, o, w).

(** [obj_create]. *)
Definition obj_create (pool : option mio_pool_id) (oid : mio_obj_id) (o : mio_obj)
    (chint : option mio_cmd_obj_hint) (w : cmd_world) : outcome (Z * mio_obj * cmd_world) :=
  let '(rc, o, w) := obj_open oid o w in
  if rc =? 0 then Done (- EEXIST, o, w)
  else if rc =? - ENOENT then obj_do_create pool oid o chint w
  else Done (rc, o, w).

(** [obj_open_or_create]. *)
Definition obj_open_or_create (pool : option mio_pool_id) (oid : mio_obj_id) (o : mio_obj)
    (chint : option mio_cmd_obj_hint) (w : cmd_world) : outcome (Z * mio_obj * cmd_world) :=
  let '(rc, o, w) := obj_open oid o w in
  if rc =? - ENOENT then obj_do_create pool oid o chint w else Done (rc, o, w).

(** [obj_rm] and [mio_cmd_obj_unlink]. *)
Definition obj_rm (oid : mio_obj_id) (w : cmd_world) : Z * cmd_world :=
  let '(rc, _, w) := cmd_start (CallDelete oid) obj_zero w in
  if negb (rc =? 0) then (rc, w) else
  let '(rc, _, _, w) := mio_cmd_wait_on_op (CallDelete oid) obj_zero w in
  (rc, w).

Definition mio_cmd_obj_unlink (oid : mio_obj_id) (w : cmd_world) : Z * cmd_world := obj_rm oid w.

(** [mio_cmd_obj_touch]: the handle is not closed. *)
Definition mio_cmd_obj_touch (oid : mio_obj_id) (w : cmd_world) : outcome (Z * cmd_world) :=
  '(rc, _, w) ← obj_create None oid obj_zero None w; Done (rc, w).

(** ** Telemetry of reads and writes *)

Definition telem_topic (is_write : bool) (s : string) : string :=
  String.append (if is_write then "mio-obj-write-" else "mio-obj-read-") s.

(** [telemetry_obj_io_start]. *)
Definition telemetry_obj_io_start (o : mio_obj) (d : cmd_iovecs) (is_write : bool) (w : cmd_world) : cmd_world :=
  let '(u1, u2) := id_words (mo_id o) in
  let io_size := foldl (λ n v, u64 (n + ci_len v)) 0 (ci_vecs d) in
  cw_advertise (telem_topic is_write "iosize") [u1; u2; io_size]
    (cw_advertise (telem_topic is_write "start") [u1; u2] w).

(** [telemetry_obj_io_end]. *)
Definition telemetry_obj_io_end (o : mio_obj) (is_write : bool) (w : cmd_world) : cmd_world :=
  let '(u1, u2) := id_words (mo_id o) in cw_advertise (telem_topic is_write "end") [u1; u2] w.

(** ** Reading and writing one batch *)

(** The data of a write as the library reads them. *)
Fixpoint write_data (d : cmd_iovecs) (l : list cmd_iov) : outcome (list (Z * list Z)) :=
  match l with
  | [] => Done []
  | v :: l' => bs ← ci_contents d v; data ← write_data d l'; Done ((ci_off v, bs) :: data)
  end.

(** [obj_write]. *)
Definition obj_write (o : mio_obj) (d : cmd_iovecs) (w : cmd_world) : outcome (Z * mio_obj * cmd_world) :=
  let w := telemetry_obj_io_start o d true w in
  data ← write_data d (ci_vecs d);
  let '(rc, o, w) := cmd_start (CallWrite data) o w in
  if rc <? 0 then Done (rc, o, w) else
  let '(rc, _, o, w) := mio_cmd_wait_on_op (CallWrite data) o w in
  Done (rc, o, telemetry_obj_io_end o true (cmd_op_fini w)).

(** The bytes that have been read arrive at miov_base. *)
Fixpoint store_data (d : cmd_iovecs) (l : list cmd_iov) (data : list (list Z)) : outcome (list cmd_iov) :=
  match l, data with
  | v :: l', bs :: data' =>
      _ ← ci_access d v (Z.of_nat (length bs));
      l' ← store_data d l' data';
      Done (set_ci_data bs v :: l')
  | _, _ => Done l
  end.

(** [obj_read]: its telemetry records say that it is a write. *)
Definition obj_read (o : mio_obj) (d : cmd_iovecs) (w : cmd_world)
  : outcome (Z * cmd_iovecs * mio_obj * cmd_world) :=
  let w := telemetry_obj_io_start o d true w in
  let c := CallRead ((λ v, (ci_off v, ci_len v)) <$> ci_vecs d) in
  let '(rc, o, w) := cmd_start c o w in
  if rc <? 0 then Done (rc, d, o, w) else
  let '(rc, data, o, w) := mio_cmd_wait_on_op c o w in
  l ← store_data d (ci_vecs d) data;
  Done (rc, MkCmdIovecs l (ci_size d), o, telemetry_obj_io_end o true (cmd_op_fini w)).

(** ** The loop over batches

    The commands share their loop, with batches of at most [max_blocks] blocks.
    [body] handles one batch: it returns rc and whether the loop goes on.  [X] is what it keeps besides the world. *)
Section Loop.
Context {X : Type}.
Context (body : cmd_iovecs → X → cmd_world → outcome (Z * bool * X * cmd_world)).
Context (max_blocks block_size max_index : Z).

Fixpoint batches_loop (fuel : nat) (rc block_count last_index : Z) (x : X) (w : cmd_world)
  : outcome (Z * X * cmd_world) :=
  match fuel with
  | O => Fault NoTermination
  | S fuel =>
      if negb (0 <? block_count) then Done (rc, x, w) else
      let bcount := if max_blocks <? block_count then max_blocks else block_count in
      let '(rc, data, p) := obj_alloc_iovecs bcount block_size last_index max_index (cw_plan w) in
      let w := set_cw_plan p w in
      match data with
      | None => Done (rc, x, w)
      | Some data =>
          '(rc, continue, x, w) ← body data x w;
          if negb continue then Done (rc, x, w) else
          batches_loop fuel rc (block_count - bcount) (u64 (last_index + u64 (bcount * block_size))) x w
      end
  end.
End Loop.

Definition blocks_loop {X} (body : cmd_iovecs → X → cmd_world → outcome (Z * bool * X * cmd_world)) :=
  batches_loop body MIO_CMD_MAX_BLOCK_COUNT_PER_OP.

(** The number of blocks of [size] bytes, in the arithmetic of the code. *)
Definition size_blocks (size block_size : Z) : outcome Z :=
  if block_size =? 0 then Fault DivByZero else Done (u64 (u64 (size - 1) / block_size + 1)).

(** ** From a file to an object *)

(** What fopen() and fstat() of the source give. *)
Inductive fopen_result := FopenFails (errno : Z) | FopenOk (bytes : list Z) (fstat_rc : Z).

(** fclose(); NULL is an error. *)
Definition fclose {F} (fp : option F) : outcome unit :=
  match fp with Some _ => Done tt | None => Fault NullDeref end.

(** [obj_write_init]: the result, *fp, *max_index, *block_count and the handle. *)
Definition obj_write_init (pool : option mio_pool_id) (oid : mio_obj_id) (o : mio_obj)
    (src : option fopen_result) (block_size block_count : Z) (w : cmd_world)
  : outcome (Z * option (list Z) * Z * Z * mio_obj * cmd_world) :=
  let create_obj fp max_index block_count :=
    '(rc, o, w) ← obj_open_or_create pool oid obj_zero None w;
    _ ← (if rc <? 0 then fclose fp else Done tt);
    Done (rc, fp, max_index, block_count, o, w) in
  match src with
  | None => create_obj None (u64 (block_count * block_size)) block_count
  | Some (FopenFails errno) => Done (- errno, None, 0, block_count, o, w)
  | Some (FopenOk bytes rc) =>
      if rc <? 0 then Done (rc, Some bytes, 0, block_count, o, w) else
      let max_index := Z.of_nat (length bytes) in
      max_block_count ← size_blocks max_index block_size;
      create_obj (Some bytes) max_index (if max_block_count <? block_count then max_block_count else block_count)
  end.

(** The body of the loop of [mio_cmd_obj_write]. *)
Definition write_body (d : cmd_iovecs) (x : option (list Z) * mio_obj) (w : cmd_world)
  : outcome (Z * bool * (option (list Z) * mio_obj) * cmd_world) :=
  let '(fp, o) := x in
  '(rc, d', fp) ← obj_read_data_from_file fp d;
  if negb (rc =? Z.of_nat (length (ci_vecs d))) then Done (rc, false, (fp, o), w) else
  '(rc, o, w) ← obj_write o d' w;
  Done (rc, rc =? 0, (fp, o), w).

(** [mio_cmd_obj_write]; [stack_obj] is the handle before it is initialised. *)
Definition mio_cmd_obj_write (fuel : nat) (stack_obj : mio_obj) (src : option fopen_result)
    (pool : option mio_pool_id) (oid : mio_obj_id) (block_size block_count : Z) (w : cmd_world)
  : outcome (Z * cmd_world) :=
  '(rc, fp, max_index, block_count, o, w) ←
    obj_write_init pool oid stack_obj src block_size block_count w;
  if rc <? 0 then Done (rc, w) else
  '(rc, (fp, o), w) ← blocks_loop write_body block_size max_index fuel rc block_count 0 (fp, o) w;
  w ← cmd_close o w;
  _ ← fclose fp;
  Done (rc, w).

(** ** From an object to a file *)

(** What fopen() of the destination gives: it is empty. *)
Inductive fopen_w_result := FopenWFails (errno : Z) | FopenWOk (p : mplan).

(** [obj_read_init]; the handle is not initialised before it is opened. *)
Definition obj_read_init (oid : mio_obj_id) (o : mio_obj) (dest : option fopen_w_result)
    (block_size block_count : Z) (w : cmd_world)
  : outcome (Z * option out_file * Z * Z * mio_obj * cmd_world) :=
  let go fp :=
    let '(rc, o, w) := obj_open oid o w in
    if rc <? 0 then _ ← fclose fp; Done (rc, fp, 0, block_count, o, w) else
    let max_index := moa_size (mo_attrs o) in
    max_block_count ← size_blocks max_index block_size;
    Done (0, fp, max_index, if max_block_count <? block_count then max_block_count else block_count, o, w) in
  match dest with
  | None => go None
  | Some (FopenWFails errno) => Done (- errno, None, 0, block_count, o, w)
  | Some (FopenWOk p) => go (Some (MkOutFile [] p))
  end.

(** The body of the loop of [mio_cmd_obj_read]. *)
Definition read_body (d : cmd_iovecs) (x : option out_file * mio_obj) (w : cmd_world)
  : outcome (Z * bool * (option out_file * mio_obj) * cmd_world) :=
  let '(fp, o) := x in
  '(rc, d, o, w) ← obj_read o d w;
  if negb (rc =? 0) then Done (rc, false, (fp, o), w) else
  '(rc, fp, out) ← obj_write_data_to_file print_on_console fp d;
  let w := cw_print out w in
  if negb (rc =? Z.of_nat (length (ci_vecs d))) then Done (rc, false, (fp, o), w)
  else Done (0, true, (fp, o), w).

(** [mio_cmd_obj_read]: the result, the file and the world. *)
Definition mio_cmd_obj_read (fuel : nat) (stack_obj : mio_obj) (oid : mio_obj_id)
    (dest : option fopen_w_result) (block_size block_count : Z) (w : cmd_world)
  : outcome (Z * option out_file * cmd_world) :=
  '(rc, fp, max_index, block_count, o, w) ← obj_read_init oid stack_obj dest block_size block_count w;
  if rc <? 0 then Done (rc, fp, w) else
  '(rc, (fp, o), w) ← blocks_loop read_body block_size max_index fuel rc block_count 0 (fp, o) w;
  w ← cmd_close o w;
  _ ← fclose fp;
  Done (rc, fp, w).

(** ** From an object to an object *)

(** The body of the loop of [mio_cmd_obj_copy]. *)
Definition copy_body (d : cmd_iovecs) (x : mio_obj * mio_obj) (w : cmd_world)
  : outcome (Z * bool * (mio_obj * mio_obj) * cmd_world) :=
  let '(from, to) := x in
  '(rc, d, from, w) ← obj_read from d w;
  if negb (rc =? 0) then Done (rc, false, (from, to), w) else
  '(rc, to, w) ← obj_write to d w;
  Done (rc, rc =? 0, (from, to), w).

(** [mio_cmd_obj_copy]: the source is closed also when it could not be opened. *)
Definition mio_cmd_obj_copy (fuel : nat) (from_oid : mio_obj_id) (to_pool : option mio_pool_id)
    (to_oid : mio_obj_id) (block_size : Z) (chint : option mio_cmd_obj_hint) (w : cmd_world)
  : outcome (Z * cmd_world) :=
  let '(rc, from, w) := obj_open from_oid obj_zero w in
  if rc <? 0 then w ← cmd_close from w; Done (rc, w) else
  let max_index := moa_size (mo_attrs from) in
  block_count ← size_blocks max_index block_size;
  '(rc, to, w) ← obj_open_or_create to_pool to_oid obj_zero chint w;
  if rc <? 0 then w ← cmd_close from w; Done (rc, w) else
  '(rc, (from, to), w) ← blocks_loop copy_body block_size max_index fuel rc block_count 0 (from, to) w;
  w ← cmd_close to w;
  w ← cmd_close from w;
  Done (rc, w).
End ObjCmd.
