(* ===== verification/ObjCopy.v ===== *)
(** * Moving data between files and objects: the theorems on [ObjCmd]

    The vectors of a batch form a chain over a range of the object; the loop keeps
    that the bytes before the block_batch have been moved. *)

From Stdlib Require Import String Sorted.
From S2P Require Import Prelude Bytes ObjId HintMap Types Hints CStr Conf CmdHelpers ObjService ObjCmd.
Open Scope Z_scope.

(** ** Chains of vectors *)

(** [len] bytes of [f] from [off] on. *)
Definition fbytes (f : Z → Z) (off len : Z) : list Z := (λ i, f (off + Z.of_nat i)) <$> seq 0 (Z.to_nat len).

Lemma length_fbytes f off len : length (fbytes f off len) = Z.to_nat len.
Proof. unfold fbytes. by rewrite length_fmap, length_seq. Qed.

Lemma fbytes_lookup f off len i : 0 <= i < len → fbytes f off len !! Z.to_nat i = Some (f (off + i)).
Proof.
  intros Hi. unfold fbytes. rewrite list_lookup_fmap, lookup_seq_lt by lia. simpl. do 2 f_equal. lia.
Qed.

Lemma fbytes_app f off m n : 0 <= m → 0 <= n → fbytes f off (m + n) = fbytes f off m ++ fbytes f (off + m) n.
Proof.
  intros Hm Hn. unfold fbytes. rewrite Z2Nat.inj_add, seq_app, fmap_app by lia. f_equal.
  cbn [Nat.add]. rewrite <- (Nat.add_0_r (Z.to_nat m)) at 1. rewrite <- fmap_add_seq, <- list_fmap_compose.
  apply list_fmap_ext. intros i x _. simpl. f_equal. lia.
Qed.

Lemma fbytes_ext f g off len : (∀ z, off <= z < off + len → f z = g z) → fbytes f off len = fbytes g off len.
Proof.
  intros Hfg. unfold fbytes. apply list_fmap_ext. intros i x Hi.
  apply lookup_seq in Hi as [-> Hi]. apply Hfg. lia.
Qed.

(** The vectors [l] cover the bytes from [a] to [e] in order, inside a block of
    [size] bytes. *)
Fixpoint chain (size a : Z) (l : list cmd_iov) (e : Z) : Prop :=
  match l with
  | [] => a = e
  | v :: l => ci_off v = a ∧ 0 < ci_len v ∧ 0 <= ci_base v ∧ ci_base v + ci_len v <= size ∧
      chain size (a + ci_len v) l e
  end.

(** The vectors filled with the bytes of [f]. *)
Definition filled (f : Z → Z) (l : list cmd_iov) : list cmd_iov :=
  (λ v, set_ci_data (fbytes f (ci_off v) (ci_len v)) v) <$> l.

Definition chain_data (f : Z → Z) (l : list cmd_iov) : list (Z * list Z) :=
  (λ v, (ci_off v, fbytes f (ci_off v) (ci_len v))) <$> l.

Definition iov_ranges (l : list cmd_iov) : list (Z * Z) := (λ v, (ci_off v, ci_len v)) <$> l.

Lemma chain_le size a l e : chain size a l e → a <= e.
Proof.
  revert a; induction l as [|v l IH]; intros a; cbn [chain]; [lia|].
  intros (_ & Hl & _ & _ & Hc). apply IH in Hc. lia.
Qed.

Lemma chain_filled f size a l e : chain size a l e → chain size a (filled f l) e.
Proof.
  revert a; induction l as [|v l IH]; intros a; cbn [chain filled fmap list_fmap]; [done|].
  intros (? & ? & ? & ? & Hc). do 4 (split; [done|]). by apply IH.
Qed.

Lemma chain_bounds size a l e : chain size a l e → Forall (λ v, a <= ci_off v ∧ ci_off v + ci_len v <= e) l.
Proof.
  revert a; induction l as [|v l IH]; intros a; cbn [chain]; [constructor|].
  intros (Ho & Hl & _ & _ & Hc). constructor.
  - pose proof (chain_le _ _ _ _ Hc). lia.
  - eapply Forall_impl; [by apply IH|]. simpl. intros; lia.
Qed.

Lemma chain_vecs_ok size a l e : 0 <= a → e < 2 ^ 64 → chain size a l e → vecs_ok (iov_ranges l).
Proof.
  intros Ha He Hc. split.
  - revert a Ha Hc; induction l as [|v l IH]; intros a Ha; cbn [chain]; [constructor|].
    intros (Ho & Hl & _ & _ & Hc). pose proof (chain_le _ _ _ _ Hc).
    constructor; [simpl; lia|]. apply (IH (a + ci_len v)); [lia|done].
  - revert a Ha Hc; induction l as [|v l IH]; intros a Ha; cbn [chain]; [constructor|].
    intros (Ho & Hl & _ & _ & Hc). constructor; [apply (IH (a + ci_len v)); [lia|done]|].
    apply Forall_fmap. eapply Forall_impl; [exact (chain_bounds _ _ _ _ Hc)|]. simpl. intros; lia.
Qed.

Lemma data_vecs_chain f size a l e : chain size a l e → data_vecs (chain_data f l) = iov_ranges l.
Proof.
  revert a; induction l as [|v l IH]; intros a; cbn [chain]; [done|].
  intros (_ & Hl & _ & _ & Hc). cbn. f_equal; [|by eapply IH].
  rewrite length_fbytes. f_equal. lia.
Qed.

Lemma data_at_chain f size a l e z : chain size a l e →
  data_at (chain_data f l) z = if (a <=? z) && (z <? e) then Some (f z) else None.
Proof.
  revert a; induction l as [|v l IH]; intros a; cbn [chain].
  - intros ->. by replace ((e <=? z) && (z <? e)) with false by lia.
  - intros (Ho & Hl & _ & _ & Hc). cbn [chain_data fmap list_fmap data_at].
    rewrite length_fbytes. pose proof (chain_le _ _ _ _ Hc).
    replace (Z.of_nat (Z.to_nat (ci_len v))) with (ci_len v) by lia. rewrite Ho.
    destruct (Z.leb_spec a z), (Z.ltb_spec z (a + ci_len v)); simpl.
    + rewrite fbytes_lookup by lia. replace (z <? e) with true by lia. do 2 f_equal. lia.
    + etransitivity; [by eapply IH|]. by replace (a + ci_len v <=? z) with true by lia.
    + etransitivity; [by eapply IH|]. by replace (a + ci_len v <=? z) with false by lia.
    + etransitivity; [by eapply IH|]. by replace (a + ci_len v <=? z) with false by lia.
Qed.

Lemma data_end_chain f size a l e : 0 <= a → l ≠ [] → chain size a l e → data_end (chain_data f l) = e.
Proof.
  revert a; induction l as [|v l IH]; intros a Ha Hne; cbn [chain]; [done|].
  intros (Ho & Hl & _ & _ & Hc). cbn [chain_data fmap list_fmap data_end foldr fst snd].
  rewrite length_fbytes. pose proof (chain_le _ _ _ _ Hc). destruct l as [|v' l].
  - cbn [chain] in Hc. cbn. lia.
  - assert (Hd : data_end (chain_data f (v' :: l)) = e) by (apply (IH (a + ci_len v)); [lia|done|done]).
    unfold data_end, chain_data in Hd. rewrite Hd. lia.
Qed.

(** ** What the functions of a batch do on a chain *)

Lemma ci_access_ok d v n : ci_base v + n <= ci_size d → ci_access d v n = Done tt.
Proof. intros. unfold ci_access. by rewrite (proj2 (Z.leb_le _ _)). Qed.

Lemma store_data_chain d f a l e : chain (ci_size d) a l e →
  store_data d l ((λ u, fbytes f u.1 u.2) <$> iov_ranges l) = Done (filled f l).
Proof.
  revert a; induction l as [|v l IH]; intros a; cbn [chain]; [done|].
  intros (Ho & Hl & Hb & Hs & Hc). cbn [iov_ranges fmap list_fmap store_data fst snd].
  rewrite length_fbytes, ci_access_ok by lia. cbn [mbind outcome_bind].
  unfold iov_ranges in IH. rewrite (IH _ Hc). done.
Qed.

Lemma ci_contents_filled d f v : ci_base v + ci_len v <= ci_size d →
  ci_contents d (set_ci_data (fbytes f (ci_off v) (ci_len v)) v) = Done (fbytes f (ci_off v) (ci_len v)).
Proof. intros. unfold ci_contents. by rewrite ci_access_ok. Qed.

Lemma write_data_chain d f a l e : chain (ci_size d) a l e →
  write_data d (filled f l) = Done (chain_data f l).
Proof.
  revert a; induction l as [|v l IH]; intros a; cbn [chain]; [done|].
  intros (Ho & Hl & Hb & Hs & Hc). cbn [filled fmap list_fmap write_data].
  rewrite ci_contents_filled by done. cbn [mbind outcome_bind].
  unfold filled in IH. rewrite (IH _ Hc). done.
Qed.

(** Reading a file that holds the bytes of the chain fills it. *)
Lemma fread_vecs_chain d f a l e rest : chain (ci_size d) a l e →
  fread_vecs d l (fbytes f a (e - a) ++ rest) = Done (Z.of_nat (length l), filled f l, rest).
Proof.
  revert a; induction l as [|v l IH]; intros a; cbn [chain].
  - intros ->. by rewrite Z.sub_diag.
  - intros (Ho & Hl & Hb & Hs & Hc). pose proof (chain_le _ _ _ _ Hc).
    replace (e - a) with (ci_len v + (e - (a + ci_len v))) by lia.
    rewrite fbytes_app by lia. rewrite <- app_assoc. cbn [fread_vecs].
    rewrite length_app, length_fbytes.
    rewrite (Z.min_l (ci_len v)) by lia.
    rewrite ci_access_ok by done. cbn [mbind outcome_bind].
    replace ((ci_len v =? 0) || (ci_len v <? ci_len v)) with false by lia.
    rewrite drop_app_length', take_app_length' by (rewrite length_fbytes; lia).
    rewrite (IH _ Hc). cbn [mbind outcome_bind]. rewrite <- Ho. unfold filled. cbn [fmap list_fmap length].
    do 3 f_equal. lia.
Qed.

(** ** The vectors of a batch *)
Section Batch.
Context (bs size : Z) (Hbs : 0 < bs) (Hsize : 0 < size) (Hfit : size + 121 * bs < 2 ^ 64).

(** Where the batch of [n] blocks from [li] on ends. *)
Definition batch_end (li n : Z) : Z := Z.min (li + n * bs) size.

Lemma batch_chain li (m : nat) i n :
  0 <= li → 0 <= i → i + Z.of_nat m = n → n <= 120 →
  li + i * bs <= size → (0 < Z.of_nat m → li + (n - 1) * bs < size) →
  chain (n * bs) (li + i * bs) (cmd_iov_at bs li size <$> seqZ i (Z.of_nat m)) (batch_end li n).
Proof.
  intros Hli. revert i; induction m as [|m IH]; intros i Hi Hn Hmax Hle Hlast.
  - rewrite seqZ_nil by lia. cbn [fmap list_fmap chain]. unfold batch_end. assert (i = n) as -> by lia. lia.
  - rewrite seqZ_cons by lia. cbn [fmap list_fmap chain].
    assert (Hlast' : li + (n - 1) * bs < size) by (apply Hlast; lia).
    assert (Hib : i * bs <= (n - 1) * bs) by (apply Z.mul_le_mono_nonneg_r; lia).
    assert (Hnb : n * bs <= 120 * bs) by (apply Z.mul_le_mono_nonneg_r; lia).
    assert (E : cmd_iov_at bs li size i = MkCmdIov (i * bs) (li + i * bs) (Z.min bs (size - (li + i * bs))) None).
    { unfold cmd_iov_at. rewrite (u64_small (i * bs)) by lia. rewrite (u64_small (li + i * bs)) by lia.
      rewrite (u64_small (_ + bs)) by lia.
      destruct (Z.ltb_spec size (li + i * bs + bs)).
      - rewrite u64_small by lia. f_equal. lia.
      - f_equal. lia. }
    rewrite E. cbn [ci_off ci_len ci_base].
    split; [done|]. split; [lia|]. split; [nia|]. split; [nia|].
    replace (Z.of_nat (S m) - 1) with (Z.of_nat m) by lia. replace (Z.pred (Z.of_nat (S m))) with (Z.of_nat m) by lia.
    destruct (decide (m = 0)%nat) as [->|Hm].
    + rewrite seqZ_nil by lia. cbn [fmap list_fmap chain]. unfold batch_end. assert (n = i + 1) as -> by lia. lia.
    + assert (Hi1 : (i + 1) * bs <= (n - 1) * bs) by (apply Z.mul_le_mono_nonneg_r; lia).
      replace (Z.min bs (size - (li + i * bs))) with bs by lia.
      replace (li + i * bs + bs) with (li + (i + 1) * bs) by lia.
      replace (Z.succ i) with (i + 1) by lia. apply IH; lia.
Qed.

(** A batch: its vectors and their memory. *)
Definition block_batch (li n : Z) : cmd_iovecs := MkCmdIovecs (cmd_iov_at bs li size <$> seqZ 0 n) (n * bs).

Lemma obj_alloc_iovecs_spec li n p :
  0 <= li → 0 < n <= 120 → li + (n - 1) * bs < size →
  chain (ci_size (block_batch li n)) li (ci_vecs (block_batch li n)) (batch_end li n) ∧
  Z.of_nat (length (ci_vecs (block_batch li n))) = n ∧
  ∃ rc p', obj_alloc_iovecs n bs li size p = (rc, (if rc =? 0 then Some (block_batch li n) else None), p') ∧ rc <= 0.
Proof.
  intros Hli Hn Hlast.
  assert (Hnb : n * bs <= 120 * bs) by (apply Z.mul_le_mono_nonneg_r; lia).
  assert (0 <= (n - 1) * bs) by (apply Z.mul_nonneg_nonneg; lia).
  split; [|split].
  - pose proof (batch_chain li (Z.to_nat n) 0 n Hli) as Hc. rewrite Z2Nat.id in Hc by lia.
    rewrite Z.mul_0_l, Z.add_0_r in Hc. apply Hc; lia.
  - simpl. rewrite length_fmap, length_seqZ. lia.
  - unfold obj_alloc_iovecs. destruct (plan_next p) as [ok1 p1], (plan_next p1) as [ok2 p2].
    destruct (ok1 && ok2).
    + exists 0, p2. unfold block_batch. rewrite u64_small by nia. done.
    + exists (- ENOMEM), p2. split; [done|unfold ENOMEM; lia].
Qed.
End Batch.

Lemma size_blocks_spec size bs : 0 < bs → 0 < size → size + 121 * bs < 2 ^ 64 →
  ∃ n, size_blocks size bs = Done n ∧ 0 < n ∧ (n - 1) * bs < size <= n * bs.
Proof.
  intros Hbs Hs Hfit. unfold size_blocks. rewrite (proj2 (Z.eqb_neq bs 0)) by lia.
  eexists; split; [done|]. rewrite (u64_small (size - 1)) by lia.
  pose proof (div_mod_eq (size - 1) bs Hbs). pose proof (mod_bound (size - 1) bs Hbs).
  assert (0 <= (size - 1) / bs < size) by (split; [apply Z.div_pos; lia|apply Z.div_lt_upper_bound; nia]).
  rewrite u64_small by lia. split; [lia|]. nia.
Qed.

(** ** Opening and creating *)
Section Objects.
Context `{HostOrder} `{ObjService}.

Abbreviation objs w := (sv_objects (cw_sv w)).

Lemma cmd_open_spec oid o w rc o' w' : obj_open oid o w = (rc, o', w') →
  rc <= 0 ∧ (∀ id, objs w' id = objs w id) ∧ mo_attrs_updated o' = mo_attrs_updated o ∧
  ((sv_start (CallOpen oid) o (cw_sv w)).1.1 = 0 → mo_id o' = oid ∧ mo_drv_obj o' ≠ None) ∧
  (rc = 0 → ∃ v, objs w oid = Some v ∧ mo_id o' = oid ∧ mo_drv_obj o' ≠ None ∧
     moa_size (mo_attrs o') = ov_size v) ∧
  (rc = - ENOENT → objs w oid = None ∧ moa_size (mo_attrs o') = moa_size (mo_attrs o)).
Proof.
  unfold obj_open, cmd_start, mio_cmd_wait_on_op.
  destruct (sv_start (CallOpen oid) o (cw_sv w)) as [[rc1 o1] s1] eqn:E1. simpl.
  apply sv_start_ok in E1 as (Hr1 & Hobj1 & Hno & Hsz & Hup & Hok). destruct (Z.eqb_spec rc1 0) as [->|Hne]; simpl.
  - destruct (sv_wait (CallOpen oid) o1 s1) as [[[rc2 d2] o2] s2] eqn:E2. intros [= <- <- <-]. simpl.
    apply sv_wait_ok in E2 as (Hr2 & Hfr2 & Hb & Hid & Hdrv & Hup2 & Hrc0 & Hn). simpl in *.
    destruct (Hok eq_refl) as [Hid1 Hd1].
    split; [done|]. split.
    { intros id. destruct (decide (id = oid)) as [->|Hne]; [by rewrite Hb, Hobj1|by rewrite Hfr2, Hobj1]. }
    split; [congruence|]. split; [intros _; split; [congruence|tauto]|]. split.
    + intros Hrc. destruct (Hrc0 Hrc) as (v & Hv & Hs). exists v. rewrite <- Hobj1. split; [done|].
      split; [congruence|]. split; [tauto|done].
    + intros Hrc. destruct (Hn Hrc) as [Hv Hs]. rewrite <- Hobj1. split; [done|congruence].
  - intros [= <- <- <-]. simpl. do 3 (split; [done|]). split; [done|]. split; done.
Qed.

(** The hints of a creation: one entry. *)
Definition cmd_hints (chint : option mio_cmd_obj_hint) : option mio_hint_map :=
  (λ c, MkHintMap 32 1 (Arr (co_hkey c :: replicate 31 (-1))) (Arr (co_hvalue c :: replicate 31 0))) <$> chint.

Lemma do_create_hints k v p : ∃ hints p',
  mio_hints_init (Some hint_map_zero) p = Done (hints, p') ∧
  ∃ rc h, mio_hint_add hints.2 k v = Done (rc, h) ∧
    (rc < 0 ∨ rc = 0 ∧ h = cmd_hints (Some (MkCmdHint k v))).
Proof.
  unfold mio_hints_init, mio_hint_map_init, arr_alloc.
  destruct (plan_next p) as [[] p1]; simpl; destruct (plan_next p1) as [[] p2]; simpl.
  - eexists (_, _), _. split; [reflexivity|]. simpl. eexists _, _. split; [reflexivity|]. by right.
  - eexists (_, _), _. split; [reflexivity|]. simpl. eexists _, _. split; [reflexivity|]. left. unfold EINVAL. lia.
  - eexists (_, _), _. split; [reflexivity|]. simpl. eexists _, _. split; [reflexivity|]. left. unfold EINVAL. lia.
  - eexists (_, _), _. split; [reflexivity|]. simpl. eexists _, _. split; [reflexivity|]. left. unfold EINVAL. lia.
Qed.

Lemma obj_do_create_spec pool oid o chint w :
  ∃ rc o' w', obj_do_create pool oid o chint w = Done (rc, o', w') ∧ rc <= 0 ∧
    (∀ id, id ≠ oid → objs w' id = objs w id) ∧ mo_attrs_updated o' = mo_attrs_updated o ∧
    (rc = 0 → ∃ v, objs w' oid = Some v ∧ ov_size v = 0 ∧ ov_pool v = sv_create_pool pool (cmd_hints chint) ∧
       mo_id o' = oid ∧ mo_drv_obj o' ≠ None ∧ moa_size (mo_attrs o') = moa_size (mo_attrs o)).
Proof.
  assert (Hgo : ∀ hints w0, objs w0 = objs w → hints = cmd_hints chint → ∃ rc o' w',
    (let c := CallCreate oid pool hints in
     let '(rc, o, w) := cmd_start c o w0 in
     if negb (rc =? 0) then Done (rc, o, w) else
     let '(rc, _, o, w) := mio_cmd_wait_on_op c o w in Done (rc, o, w)) = Done (rc, o', w') ∧ rc <= 0 ∧
    (∀ id, id ≠ oid → objs w' id = objs w id) ∧ mo_attrs_updated o' = mo_attrs_updated o ∧
    (rc = 0 → ∃ v, objs w' oid = Some v ∧ ov_size v = 0 ∧ ov_pool v = sv_create_pool pool (cmd_hints chint) ∧
       mo_id o' = oid ∧ mo_drv_obj o' ≠ None ∧ moa_size (mo_attrs o') = moa_size (mo_attrs o))).
  { intros hints w0 Hw0 ->. unfold cmd_start, mio_cmd_wait_on_op.
    destruct (sv_start _ o (cw_sv w0)) as [[rc1 o1] s1] eqn:E1. simpl.
    apply sv_start_ok in E1 as (Hr1 & Hobj1 & Hno & Hsz & Hup & Hok).
    destruct (Z.eqb_spec rc1 0) as [->|Hne]; simpl.
    - destruct (sv_wait _ o1 s1) as [[[rc2 d2] o2] s2] eqn:E2.
      apply sv_wait_ok in E2 as (Hr2 & Hfr2 & (Hid2 & Hsz2 & Hd2) & Hup2 & Hrc0). simpl in *.
      destruct (Hok eq_refl) as [Hid1 Hd1].
      eexists _, _, _. split; [done|]. simpl. split; [done|].
      split; [intros; by rewrite Hfr2, Hobj1, Hw0 by done|]. split; [congruence|].
      intros Hrc. destruct (Hrc0 Hrc) as (v & Hv & Hs & Hp). exists v. do 3 (split; [done|]).
      split; [congruence|]. split; [tauto|congruence].
    - eexists _, _, _. split; [done|]. simpl. split; [done|].
      split; [intros; by rewrite Hobj1, Hw0|]. done. }
  unfold obj_do_create. destruct chint as [[k v]|]; cbn [co_hkey co_hvalue].
  - destruct (do_create_hints k v (cw_plan w)) as ([rc0 hints] & p' & -> & rc & h & E & Hrc).
    cbn [mbind outcome_bind snd] in *. rewrite E. cbn [mbind outcome_bind].
    destruct (Z.ltb_spec rc 0) as [Hlt|Hge].
    + eexists _, _, _. split; [done|]. split; [lia|]. split; [done|]. split; [done|]. lia.
    + apply Hgo; [done|]. destruct Hrc as [|[_ ->]]; [lia|done].
  - cbn [mbind outcome_bind]. by apply Hgo.
Qed.

Lemma cmd_create_spec pool oid o chint w :
  ∃ rc o' w', obj_create pool oid o chint w = Done (rc, o', w') ∧ rc <= 0 ∧
    (∀ id, id ≠ oid → objs w' id = objs w id) ∧
    (rc = 0 → objs w oid = None ∧
       ∃ v, objs w' oid = Some v ∧ ov_size v = 0 ∧ ov_pool v = sv_create_pool pool (cmd_hints chint)).
Proof.
  unfold obj_create. destruct (obj_open oid o w) as [[rc1 o1] w1] eqn:E1.
  pose proof (cmd_open_spec _ _ _ _ _ _ E1) as (Hr1 & Hobj1 & _ & _ & _ & Hn).
  destruct (Z.eqb_spec rc1 0) as [->|Hne0].
  { eexists _, _, _. split; [done|]. split; [unfold EEXIST; lia|]. split; [intros; by rewrite Hobj1|done]. }
  destruct (Z.eqb_spec rc1 (- ENOENT)) as [->|Hne].
  - destruct (Hn eq_refl) as [Hnone _].
    destruct (obj_do_create_spec pool oid o1 chint w1) as (rc & o' & w' & -> & Hr & Hfr & _ & Hok).
    eexists _, _, _. split; [done|]. split; [done|]. split; [intros; by rewrite Hfr|].
    intros Hz. split; [done|]. destruct (Hok Hz) as (v & Hv & Hs & Hp & _). by exists v.
  - eexists _, _, _. split; [done|]. split; [done|]. split; [intros; by rewrite Hobj1|done].
Qed.

(** What both ways to a handle give, for a handle that was set to zero. *)
Lemma obj_open_or_create_spec pool oid chint w :
  ∃ rc o' w', obj_open_or_create pool oid obj_zero chint w = Done (rc, o', w') ∧ rc <= 0 ∧
    (∀ id, id ≠ oid → objs w' id = objs w id) ∧ mo_attrs_updated o' = false ∧
    (rc = 0 → ∃ v, objs w' oid = Some v ∧ mo_id o' = oid ∧ mo_drv_obj o' ≠ None ∧
       moa_size (mo_attrs o') = ov_size v ∧
       (objs w oid = Some v ∨
        objs w oid = None ∧ ov_size v = 0 ∧ ov_pool v = sv_create_pool pool (cmd_hints chint))).
Proof.
  unfold obj_open_or_create. destruct (obj_open oid obj_zero w) as [[rc1 o1] w1] eqn:E1.
  apply cmd_open_spec in E1 as (Hr1 & Hobj1 & Hup & _ & Hrc0 & Hn).
  destruct (Z.eqb_spec rc1 (- ENOENT)) as [->|Hne].
  - destruct (Hn eq_refl) as [Hnone Hsz].
    destruct (obj_do_create_spec pool oid o1 chint w1) as (rc & o' & w' & -> & Hr & Hfr & Hup' & Hc).
    eexists _, _, _. split; [done|]. split; [done|].
    split; [intros; by rewrite Hfr, Hobj1|]. split; [by rewrite Hup', Hup|].
    intros Hrc. destruct (Hc Hrc) as (v & Hv & Hs & Hp & Hid & Hd & Hsz'). exists v.
    do 3 (split; [done|]). rewrite Hsz', Hsz, Hs. split; [done|]. by right.
  - eexists _, _, _. split; [done|]. split; [done|]. split; [intros; by rewrite Hobj1|]. split; [done|].
    intros Hrc. destruct (Hrc0 Hrc) as (v & Hv & Hid & Hd & Hs). exists v. rewrite Hobj1.
    do 4 (split; [done|]). by left.
Qed.

(** Deleting. *)
Lemma obj_rm_spec oid w rc w' : obj_rm oid w = (rc, w') →
  rc <= 0 ∧ (∀ id, id ≠ oid → objs w' id = objs w id) ∧ (rc = 0 → objs w' oid = None).
Proof.
  unfold obj_rm, cmd_start, mio_cmd_wait_on_op.
  destruct (sv_start _ obj_zero (cw_sv w)) as [[rc1 o1] s1] eqn:E1. simpl.
  apply sv_start_ok in E1 as (Hr1 & Hobj1 & _). destruct (Z.eqb_spec rc1 0) as [->|Hne]; simpl.
  - destruct (sv_wait _ obj_zero s1) as [[[rc2 d2] o2] s2] eqn:E2. intros [= <- <-]. simpl.
    apply sv_wait_ok in E2 as (Hr2 & Hfr2 & Hok). simpl in *.
    split; [done|]. split; [intros; by rewrite Hfr2, Hobj1|done].
  - intros [= <- <-]. simpl. split; [done|]. split; [intros; apply Hobj1|done].
Qed.

(** ** Reading and writing a batch *)

Lemma store_data_short d a l e data : chain (ci_size d) a l e →
  (∀ i bs u, data !! i = Some bs → iov_ranges l !! i = Some u → Z.of_nat (length bs) <= Z.max 0 u.2) →
  ∃ l', store_data d l data = Done l'.
Proof.
  revert a data; induction l as [|v l IH]; intros a data; cbn [chain]; [by eexists|].
  intros (Ho & Hl & Hb & Hs & Hc) Hlen. destruct data as [|bs data]; [by eexists|]. cbn [store_data].
  pose proof (Hlen 0%nat bs _ eq_refl eq_refl) as Hb0. simpl in Hb0.
  rewrite ci_access_ok by lia. cbn [mbind outcome_bind].
  destruct (IH _ data Hc) as [l' ->]; [|by eexists].
  intros i bs' u Hi Hu. by apply (Hlen (S i) bs' u).
Qed.

Lemma obj_read_spec o d w a e :
  0 <= a → e < 2 ^ 64 → chain (ci_size d) a (ci_vecs d) e →
  ∃ rc d' o' w', obj_read o d w = Done (rc, d', o', w') ∧ rc <= 0 ∧ (∀ id, objs w' id = objs w id) ∧
    same_handle o o' ∧
    (rc = 0 → ∃ v, objs w (mo_id o) = Some v ∧
       d' = MkCmdIovecs (filled (ov_bytes v) (ci_vecs d)) (ci_size d)).
Proof.
  intros Ha He Hc. unfold obj_read, cmd_start, mio_cmd_wait_on_op.
  change (cw_sv (telemetry_obj_io_start o d true w)) with (cw_sv w).
  destruct (sv_start _ o (cw_sv w)) as [[rc1 o1] s1] eqn:E1. simpl.
  apply sv_start_ok in E1 as (Hr1 & Hobj1 & Hsame1).
  destruct (Z.ltb_spec rc1 0) as [Hlt|Hge]; simpl.
  { eexists _, _, _, _. split; [done|]. do 3 (split; [done|]). lia. }
  destruct (sv_wait _ o1 s1) as [[[rc2 d2] o2] s2] eqn:E2. simpl.
  apply sv_wait_ok in E2 as (Hr2 & Hfr2 & Hsame2 & Hb & Hlen & Hok).
  destruct Hsame1 as (Hid1 & Hsz1 & Hd1), Hsame2 as (Hid2 & Hsz2 & Hd2). simpl in *.
  assert (Hobjs : ∀ id, sv_objects s2 id = objs w id).
  { intros id. destruct (decide (id = mo_id o1)) as [->|Hne]; [by rewrite Hb, Hobj1|by rewrite Hfr2, Hobj1]. }
  assert (Hsame : same_handle o o2) by (split; [congruence|split; [congruence|tauto]]).
  destruct (decide (rc2 = 0)) as [->|Hne].
  - destruct (Hok eq_refl) as (v & Hv & ->); [exact (chain_vecs_ok _ _ _ _ Ha He Hc)|].
    pose proof (store_data_chain d (ov_bytes v) a (ci_vecs d) e Hc) as Hst.
    change ((λ v', view_bytes v v'.1 v'.2) <$> ?l) with ((λ u, fbytes (ov_bytes v) u.1 u.2) <$> l).
    unfold iov_ranges in Hst. rewrite Hst. simpl.
    eexists _, _, _, _. split; [done|]. simpl. do 3 (split; [done|]). intros _. exists v.
    split; [by rewrite <- Hobj1, <- Hid1|done].
  - destruct (store_data_short d a (ci_vecs d) e d2 Hc Hlen) as [l' ->]. simpl.
    eexists _, _, _, _. split; [done|]. simpl. do 3 (split; [done|]). done.
Qed.

Lemma obj_write_spec o f l size w a e :
  0 <= a → e < 2 ^ 64 → l ≠ [] → chain size a l e →
  ∃ rc o' w', obj_write o (MkCmdIovecs (filled f l) size) w = Done (rc, o', w') ∧ rc <= 0 ∧
    (∀ id, id ≠ mo_id o → objs w' id = objs w id) ∧ mo_id o' = mo_id o ∧
    (mo_drv_obj o ≠ None → mo_drv_obj o' ≠ None) ∧
    (rc = 0 → mo_attrs_updated o' = true ∧ moa_size (mo_attrs o') = Z.max (moa_size (mo_attrs o)) e ∧
       ∃ v v', objs w (mo_id o) = Some v ∧ objs w' (mo_id o) = Some v' ∧ ov_size v' = ov_size v ∧
         ov_pool v' = ov_pool v ∧
         (∀ z, a <= z < e → ov_bytes v' z = f z) ∧
         (∀ z, ¬ a <= z < e → ov_bytes v' z = ov_bytes v z ∨ moa_size (mo_attrs o) <= z)).
Proof.
  intros Ha He Hne Hc. unfold obj_write, cmd_start, mio_cmd_wait_on_op.
  cbn [ci_vecs].
  rewrite (write_data_chain (MkCmdIovecs (filled f l) size) f a l e Hc).
  cbn [mbind outcome_bind].
  change (cw_sv (telemetry_obj_io_start o (MkCmdIovecs (filled f l) size) true w)) with (cw_sv w).
  destruct (sv_start _ o (cw_sv w)) as [[rc1 o1] s1] eqn:E1. cbn [cw_sv set_cw_ops set_cw_sv].
  apply sv_start_ok in E1 as (Hr1 & Hobj1 & Hid1 & Hsz1 & Hd1).
  destruct (Z.ltb_spec rc1 0) as [Hlt|Hge].
  { eexists _, _, _. split; [done|]. split; [done|]. split; [intros; apply Hobj1|]. do 2 (split; [done|]). lia. }
  destruct (sv_wait _ o1 s1) as [[[rc2 d2] o2] s2] eqn:E2. cbn [cw_sv set_cw_sv].
  apply sv_wait_ok in E2 as (Hr2 & Hfr2 & Hid2 & Hd2 & Hok). cbn [call_target] in Hfr2.
  eexists _, _, _. split; [done|]. split; [done|].
  split; [intros; simpl; rewrite Hfr2 by congruence; apply Hobj1|]. split; [congruence|]. split; [tauto|].
  intros ->. destruct (Hok eq_refl) as (Hup & Hsz & v & v' & Hv & Hv' & Hvs & Hvp & Hz).
  { rewrite (data_vecs_chain f size a l e Hc). exact (chain_vecs_ok _ _ _ _ Ha He Hc). }
  rewrite Hid1 in *. rewrite Hobj1 in Hv. rewrite (data_end_chain f size a l e Ha Hne Hc) in Hsz.
  split; [done|]. split; [congruence|]. exists v, v'. do 4 (split; [done|]).
  split; intros z Hza; specialize (Hz z); rewrite (data_at_chain f size a l e z Hc) in Hz.
  - by replace ((a <=? z) && (z <? e)) with true in Hz by lia.
  - replace ((a <=? z) && (z <? e)) with false in Hz by lia. by rewrite Hsz1 in Hz.
Qed.
End Objects.

(** ** The loop *)
Section Loop.
Context `{HostOrder} `{ObjService} {X : Type}.
Context (body : cmd_iovecs → X → cmd_world → outcome (Z * bool * X * cmd_world)).
Context (bs size : Z) (Hbs : 0 < bs) (Hsize : 0 < size) (Hfit : size + 121 * bs < 2 ^ 64).
(** [I off] holds when the bytes below [off] have been moved, [E] after an error. *)
Context (I : Z → X → cmd_world → Prop) (E : Z → X → cmd_world → Prop).
Context (Hplan : ∀ off x w p, I off x w → I off x (set_cw_plan p w)).
Context (Hnomem : ∀ off x w rc, I off x w → rc < 0 → E rc x w).

Section Batches.
Context (cap top : Z) (Hcap : 0 < cap <= 120).
Context (Hbody : ∀ li n x w, 0 <= li → 0 < n <= cap → li + (n - 1) * bs < size →
  (∃ c, n = Z.min cap c ∧ li + c * bs = top) → I li x w →
  ∃ rc b x' w', body (block_batch bs size li n) x w = Done (rc, b, x', w') ∧
    if b : bool then rc = 0 ∧ I (batch_end bs size li n) x' w' else E rc x' w').

Lemma batches_loop_correct fuel c li x w :
  0 <= li → 0 <= c → (0 < c → li + (c - 1) * bs < size) → (Z.to_nat c < fuel)%nat → li + c * bs = top →
  I (Z.min li size) x w →
  ∃ rc x' w', batches_loop body cap bs size fuel 0 c li x w = Done (rc, x', w') ∧
    (rc = 0 ∧ I (Z.min (li + c * bs) size) x' w' ∨ E rc x' w').
Proof.
  revert c li x w; induction fuel as [|fuel IH]; intros c li x w Hli Hc Hlast Hfuel Htop HI; [lia|].
  cbn [batches_loop]. destruct (Z.ltb_spec 0 c) as [Hpos|Hz]; cbn [negb].
  2: { eexists _, _, _. split; [done|]. left. split; [done|]. assert (c = 0) as -> by lia.
       by rewrite Z.mul_0_l, Z.add_0_r. }
  specialize (Hlast Hpos).
  set (n := if cap <? c then cap else c).
  assert (Hmin : n = Z.min cap c) by (unfold n; destruct (Z.ltb_spec cap c); lia).
  assert (Hn : 0 < n <= cap ∧ n <= c) by lia.
  assert (Hnc : (n - 1) * bs <= (c - 1) * bs) by (apply Z.mul_le_mono_nonneg_r; lia).
  assert (Hn0 : 0 <= (n - 1) * bs) by (apply Z.mul_nonneg_nonneg; lia).
  assert (Hn120 : n * bs <= 120 * bs) by (apply Z.mul_le_mono_nonneg_r; lia).
  destruct (obj_alloc_iovecs_spec bs size Hbs Hsize Hfit li n (cw_plan w)) as (Hch & Hlen & rc & p' & -> & Hrc);
    [lia..|].
  rewrite Z.min_l in HI by lia. apply (Hplan _ _ _ p') in HI.
  destruct (Z.eqb_spec rc 0) as [->|Hne].
  2: { eexists _, _, _. split; [done|]. right. eapply Hnomem; [done|lia]. }
  destruct (Hbody li n x _ Hli (proj1 Hn) ltac:(lia) ltac:(exists c; split; [exact Hmin|exact Htop]) HI) as (rc & b & x1 & w1 & -> & Hb).
  cbn [mbind outcome_bind]. destruct b; cbn [negb].
  - destruct Hb as [-> HI1]. rewrite (u64_small (n * bs)) by lia. rewrite u64_small by lia.
    destruct (IH (c - n) (li + n * bs) x1 w1) as (rc & x2 & w2 & -> & H2); [lia|lia| |lia|lia|done|].
    { intros Hcn. replace (li + n * bs + (c - n - 1) * bs) with (li + (c - 1) * bs) by lia. done. }
    eexists _, _, _. split; [done|].
    by replace (li + n * bs + (c - n) * bs) with (li + c * bs) in H2 by lia.
  - eexists _, _, _. split; [done|]. by right.
Qed.
End Batches.

Lemma blocks_loop_correct
  (Hbody : ∀ li n x w, 0 <= li → 0 < n <= 120 → li + (n - 1) * bs < size → I li x w →
    ∃ rc b x' w', body (block_batch bs size li n) x w = Done (rc, b, x', w') ∧
      if b : bool then rc = 0 ∧ I (batch_end bs size li n) x' w' else E rc x' w') fuel c li x w :
  0 <= li → 0 <= c → (0 < c → li + (c - 1) * bs < size) → (Z.to_nat c < fuel)%nat →
  I (Z.min li size) x w →
  ∃ rc x' w', blocks_loop body bs size fuel 0 c li x w = Done (rc, x', w') ∧
    (rc = 0 ∧ I (Z.min (li + c * bs) size) x' w' ∨ E rc x' w').
Proof. intros. eapply batches_loop_correct with (cap := 120); [lia|intros; by apply Hbody|done..]. Qed.
End Loop.

(** ** The destination *)
Section Dest.
Context `{HostOrder} `{ObjService}.
Abbreviation objs w := (sv_objects (cw_sv w)).
Context (f : Z → Z) (oid : mio_obj_id) (vt0 : obj_view) (s0 : Z).

(** An object that was [vt0], after the bytes of [f] below [off] have been written
    through the handle [o], whose size was [s0]. *)
Definition dest_inv (off : Z) (o : mio_obj) (w : cmd_world) : Prop :=
  ∃ vt, objs w oid = Some vt ∧ ov_size vt = ov_size vt0 ∧ ov_pool vt = ov_pool vt0 ∧
    (∀ z, 0 <= z < off → ov_bytes vt z = f z) ∧
    (0 < off → mo_attrs_updated o = true) ∧
    moa_size (mo_attrs o) = if 0 <? off then Z.max s0 off else s0.

(** The object after it was closed. *)
Definition dest_closed (size : Z) (w : cmd_world) : Prop :=
  ∃ vt, objs w oid = Some vt ∧ ov_pool vt = ov_pool vt0 ∧
    (∀ z, 0 <= z < size → ov_bytes vt z = f z) ∧
    (close_stores → ov_size vt = Z.max s0 size).

Lemma dest_write o l size w a e :
  mo_id o = oid → 0 <= a → a < e < 2 ^ 64 → chain size a l e →
  ∃ rc o' w', obj_write o (MkCmdIovecs (filled f l) size) w = Done (rc, o', w') ∧ rc <= 0 ∧
    (∀ id, id ≠ oid → objs w' id = objs w id) ∧ mo_id o' = oid ∧
    (mo_drv_obj o ≠ None → mo_drv_obj o' ≠ None) ∧ (rc = 0 → dest_inv a o w → dest_inv e o' w').
Proof.
  intros Hid Ha He Hc. destruct (obj_write_spec o f l size w a e) as (rc & o' & w' & -> & Hrc & Hfr & Hid' & Hd & Hok); try lia.
  { intros ->. simpl in Hc. lia. }
  { done. }
  rewrite Hid in *. eexists _, _, _. do 5 (split; [done|]). intros -> (vt & Hvt & Hvs & Hvp & Hb & Hup & Hsz).
  destruct (Hok eq_refl) as (Hup' & Hsz' & u & u' & Hu & Hu' & Hus & Hupl & Hin & Hout).
  assert (u = vt) as -> by congruence.
  exists u'. split; [done|]. do 2 (split; [congruence|]). split.
  - intros z Hz. destruct (decide (a <= z)) as [Hge|Hlt]; [apply Hin; lia|].
    destruct (Hout z) as [->|Hbad]; [lia|apply Hb; lia|].
    replace (0 <? a) with true in Hsz by lia. lia.
  - split; [done|]. rewrite Hsz', Hsz. replace (0 <? e) with true by lia. destruct (Z.ltb_spec 0 a); lia.
Qed.

Lemma cmd_close_spec o w : mo_drv_obj o ≠ None → ∃ w', cmd_close o w = Done w' ∧
  sv_close o (cw_sv w) = Done (cw_sv w') ∧
  (∀ id, id ≠ mo_id o → objs w' id = objs w id) ∧ close_spec o (objs w) (objs w').
Proof.
  intros Hd. destruct (sv_close_ok o (cw_sv w) Hd) as (s & Hs & Hfr & Hc).
  exists (set_cw_sv s w). unfold cmd_close. rewrite Hs. done.
Qed.

Lemma dest_close size o w : mo_id o = oid → mo_drv_obj o ≠ None → ∃ w',
  cmd_close o w = Done w' ∧ (∀ id, id ≠ oid → objs w' id = objs w id) ∧
  (0 < size → dest_inv size o w → dest_closed size w').
Proof.
  intros Hid Hd. destruct (cmd_close_spec o w Hd) as (w' & -> & Hs & Hfr & Hc). rewrite Hid in Hfr.
  exists w'. do 2 (split; [done|]). intros Hpos (vt & Hvt & Hvs & Hvp & Hb & Hup & Hsz).
  replace (0 <? size) with true in Hsz by lia.
  unfold close_spec in Hc. rewrite Hid, Hvt in Hc. destruct Hc as (u & Hu & Hub & Hupl & Hus).
  exists u. split; [done|]. split; [congruence|]. split; [intros; rewrite Hub; by apply Hb|].
  intros Hstores. rewrite <- Hsz. eapply Hstores; [by apply Hup|done|by rewrite Hid].
Qed.

(** Closing a handle of an object of the stored size changes nothing of it. *)
Lemma close_spec_same o a b u :
  close_spec o a b → a (mo_id o) = Some u → moa_size (mo_attrs o) = ov_size u → b (mo_id o) = Some u.
Proof.
  unfold close_spec. intros Hc Ha Hs. rewrite Ha in Hc. destruct Hc as (u' & -> & Hb & Hp & Hsz).
  destruct u, u'; simpl in *. f_equal. f_equal; [|done|done]. destruct Hsz as [|[_ ?]]; lia.
Qed.

(** The same, for the world. *)
Lemma cmd_close_same o w u :
  mo_drv_obj o ≠ None → objs w (mo_id o) = Some u → moa_size (mo_attrs o) = ov_size u →
  ∃ w', cmd_close o w = Done w' ∧ ∀ id, objs w' id = objs w id.
Proof.
  intros Hd Hu Hsz. destruct (cmd_close_spec o w Hd) as (w' & -> & _ & Hfr & Hc). exists w'. split; [done|].
  intros id. destruct (decide (id = mo_id o)) as [->|Hne]; [|by apply Hfr]. rewrite Hu. by eapply close_spec_same.
Qed.
End Dest.

(** The size of an object, 0 if there is none. *)
Definition size_at (a : obj_views) (oid : mio_obj_id) : Z := match a oid with Some u => ov_size u | None => 0 end.

(** ** Copying *)
Section Copy.
Context `{HostOrder} `{ObjService}.
Abbreviation objs w := (sv_objects (cw_sv w)).
Context (from_oid to_oid : mio_obj_id) (Hne : from_oid ≠ to_oid).
Context (a0 : obj_views) (v vt0 : obj_view).

(** What every step keeps: the source, the other objects, and two handles that
    can be closed. *)
Definition copy_frame (x : mio_obj * mio_obj) (w : cmd_world) : Prop :=
  objs w from_oid = Some v ∧
  (∀ id, id ≠ from_oid → id ≠ to_oid → objs w id = a0 id) ∧
  mo_id x.1 = from_oid ∧ mo_drv_obj x.1 ≠ None ∧ moa_size (mo_attrs x.1) = ov_size v ∧
  mo_id x.2 = to_oid ∧ mo_drv_obj x.2 ≠ None.

(** The bytes below [off] have arrived. *)
Definition copy_inv (off : Z) (x : mio_obj * mio_obj) (w : cmd_world) : Prop :=
  copy_frame x w ∧ dest_inv (ov_bytes v) to_oid vt0 (ov_size vt0) off x.2 w.

Definition copy_err (rc : Z) (x : mio_obj * mio_obj) (w : cmd_world) : Prop := rc < 0 ∧ copy_frame x w.

Lemma copy_body_correct bs size li n x w :
  0 < bs → 0 < size → size + 121 * bs < 2 ^ 64 →
  0 <= li → 0 < n <= 120 → li + (n - 1) * bs < size → copy_inv li x w →
  ∃ rc b x' w', copy_body (block_batch bs size li n) x w = Done (rc, b, x', w') ∧
    if b : bool then rc = 0 ∧ copy_inv (batch_end bs size li n) x' w' else copy_err rc x' w'.
Proof.
  intros Hbs Hsize Hfit Hli Hn Hlast [(Hv & Hfr & Hfid & Hfd & Hfs & Htid & Htd) Hdest].
  destruct (obj_alloc_iovecs_spec bs size Hbs Hsize Hfit li n [] Hli Hn Hlast) as (Hc & Hlen & _).
  assert (0 <= (n - 1) * bs) by (apply Z.mul_nonneg_nonneg; lia).
  assert (He : li < batch_end bs size li n < 2 ^ 64) by (unfold batch_end; lia).
  destruct x as [from to]. unfold copy_body. cbn [fst snd] in *.
  destruct (obj_read_spec from (block_batch bs size li n) w li _ Hli (proj2 He) Hc)
    as (rc & d & from' & w1 & -> & Hrc & Hobj1 & (Hid1 & Hsz1 & Hd1) & Hok).
  cbn [mbind outcome_bind]. assert (Hfd' := Hd1 Hfd).
  assert (Hdest1 : dest_inv (ov_bytes v) to_oid vt0 (ov_size vt0) li to w1) by (unfold dest_inv; by rewrite Hobj1).
  destruct (Z.eqb_spec rc 0) as [->|Hrne]; cbn [negb].
  2: { eexists _, _, _, _. split; [done|]. split; [lia|]. unfold copy_frame. simpl.
       rewrite Hobj1, Hid1, Hsz1. do 1 (split; [done|]). split; [intros; by rewrite Hobj1, Hfr|]. done. }
  destruct (Hok eq_refl) as (v' & Hv' & ->). assert (v' = v) as -> by congruence.
  destruct (dest_write (ov_bytes v) to_oid vt0 (ov_size vt0) to (ci_vecs (block_batch bs size li n)) (ci_size (block_batch bs size li n)) w1 li _
    Htid Hli He Hc) as (rc & to' & w2 & -> & Hrc2 & Hfr2 & Hid2 & Hd2 & Hok2).
  cbn [mbind outcome_bind]. eexists _, _, _, _. split; [done|].
  assert (Hframe : copy_frame (from', to') w2).
  { unfold copy_frame. simpl. split; [by rewrite Hfr2, Hobj1 by congruence|].
    split; [intros; by rewrite Hfr2, Hobj1, Hfr by congruence|].
    rewrite Hid1, Hsz1, Hid2. repeat split; auto. }
  destruct (Z.eqb_spec rc 0) as [->|Hrne]; [|split; [lia|done]]. split; [done|]. split; [done|]. by apply Hok2.
Qed.

(** The loop and the closings. *)
Lemma copy_loop_correct fuel bs n x w :
  0 < bs → 0 < ov_size v → ov_size v + 121 * bs < 2 ^ 64 →
  0 < n → (n - 1) * bs < ov_size v <= n * bs → (Z.to_nat n < fuel)%nat → copy_inv 0 x w →
  ∃ rc x' w' w1 w2, blocks_loop copy_body bs (ov_size v) fuel 0 n 0 x w = Done (rc, x', w') ∧
    cmd_close x'.2 w' = Done w1 ∧ cmd_close x'.1 w1 = Done w2 ∧ rc <= 0 ∧
    objs w2 from_oid = Some v ∧ (∀ id, id ≠ from_oid → id ≠ to_oid → objs w2 id = a0 id) ∧
    (rc = 0 → dest_closed (ov_bytes v) to_oid vt0 (ov_size vt0) (ov_size v) w2).
Proof.
  intros Hbs Hsize Hfit Hn Hblocks Hfuel HI.
  destruct (blocks_loop_correct copy_body bs (ov_size v) Hbs Hsize Hfit copy_inv copy_err) with
    (fuel := fuel) (c := n) (li := 0) (x := x) (w := w) as (rc & x' & w' & Hloop & Hend); try lia.
  - done.
  - intros off x1 w1 rc [Hf _] Hrc. by split.
  - intros. by apply copy_body_correct.
  - by rewrite Z.min_l by lia.
  - assert (Hf : copy_frame x' w') by (destruct Hend as [(_ & Hf & _)|[_ Hf]]; done).
    destruct Hf as (Hv & Hfr & Hfid & Hfd & Hfs & Htid & Htd).
    destruct (dest_close (ov_bytes v) to_oid vt0 (ov_size vt0) (ov_size v) x'.2 w' Htid Htd) as (w1 & Hw1 & Hfr1 & Hc1).
    destruct (cmd_close_spec x'.1 w1 Hfd) as (w2 & Hw2 & _ & Hfr2 & Hc2). rewrite Hfid in Hfr2.
    exists rc, x', w', w1, w2. do 3 (split; [done|]). split; [destruct Hend as [[-> _]|[? _]]; lia|].
    split; [rewrite <- Hfid; eapply close_spec_same; [done| |done]; by rewrite Hfid, Hfr1|].
    split; [intros; by rewrite Hfr2, Hfr1, Hfr|]. intros ->. destruct Hend as [[_ HI']|[Hbad _]]; [|lia].
    destruct HI' as [_ HI']. rewrite Z.add_0_l, Z.min_r in HI' by lia.
    unfold dest_closed in *. rewrite (Hfr2 to_oid) by done. by apply Hc1.
Qed.
End Copy.

(** The number of rounds that are enough for an object of a size. *)
Definition blocks_fuel (size bs : Z) : nat := Z.to_nat (size / bs + 1).

Lemma blocks_fuel_enough size bs n fuel :
  0 < bs → 0 <= n → (n - 1) * bs < size → (blocks_fuel size bs < fuel)%nat → (Z.to_nat n < fuel)%nat.
Proof.
  unfold blocks_fuel. intros Hbs Hn Hle Hfuel.
  assert (n - 1 <= size / bs) by (apply Z.div_le_lower_bound; lia). lia.
Qed.

(** How many blocks a command moves. *)
Lemma clip_blocks_spec size bs count fuel :
  0 < bs → 0 < size → size + 121 * bs < 2 ^ 64 → 0 < count → (blocks_fuel size bs < fuel)%nat →
  ∃ m, size_blocks size bs = Done m ∧
    let n := if m <? count then m else count in
    0 < n <= count ∧ Z.min (n * bs) size = Z.min (count * bs) size ∧ 0 <= (n - 1) * bs < size ∧ (Z.to_nat n < fuel)%nat.
Proof.
  intros Hbs Hsize Hfit Hcount Hfuel. destruct (size_blocks_spec size bs Hbs Hsize Hfit) as (m & Hm & Hm0 & Hblocks).
  exists m. split; [done|]. intros n.
  assert (Hn : 0 < n <= m ∧ n <= count ∧ Z.min (n * bs) size = Z.min (count * bs) size).
  { unfold n. destruct (Z.ltb_spec m count); [|lia].
    assert (m * bs <= count * bs) by (apply Z.mul_le_mono_nonneg_r; lia). lia. }
  destruct Hn as (Hn & Hnc & HTe).
  assert (0 <= (n - 1) * bs <= (m - 1) * bs) by (split; [apply Z.mul_nonneg_nonneg|apply Z.mul_le_mono_nonneg_r]; lia).
  split_and!; [lia|lia|done|lia|lia|]. eapply blocks_fuel_enough; [..|done]; lia.
Qed.

(** The copy, as the storage manager uses it. *)
Lemma obj_copy_spec `{HostOrder} `{ObjService} (fuel : nat) (from_oid to_oid : mio_obj_id)
    (to_pool : option mio_pool_id) (bs : Z) (chint : option mio_cmd_obj_hint) (w : cmd_world) (v : obj_view)
  (Hne : from_oid ≠ to_oid) (Hbs : 0 < bs) (Hv : sv_objects (cw_sv w) from_oid = Some v)
  (Hsize : 0 < ov_size v) (Hfit : ov_size v + 121 * bs < 2 ^ 64)
  (Hstart : (sv_start (CallOpen from_oid) obj_zero (cw_sv w)).1.1 = 0)
  (Hfuel : (blocks_fuel (ov_size v) bs < fuel)%nat) :
  ∃ rc w', mio_cmd_obj_copy fuel from_oid to_pool to_oid bs chint w = Done (rc, w') ∧ rc <= 0 ∧
    sv_objects (cw_sv w') from_oid = Some v ∧
    (∀ id, id ≠ from_oid → id ≠ to_oid → sv_objects (cw_sv w') id = sv_objects (cw_sv w) id) ∧
    (rc = 0 → ∃ vt, sv_objects (cw_sv w') to_oid = Some vt ∧
       (∀ z, 0 <= z < ov_size v → ov_bytes vt z = ov_bytes v z) ∧
       (sv_objects (cw_sv w) to_oid = None → ov_pool vt = sv_create_pool to_pool (cmd_hints chint)) ∧
       (close_stores → ov_size vt = Z.max (size_at (sv_objects (cw_sv w)) to_oid) (ov_size v))).
Proof.
  unfold mio_cmd_obj_copy. destruct (obj_open from_oid obj_zero w) as [[rc from] w1] eqn:E1.
  apply cmd_open_spec in E1 as (Hrc1 & Hobj1 & Hup1 & Hst & Hok1 & _).
  destruct (Hst Hstart) as [Hid1 Hd1].
  destruct (Z.ltb_spec rc 0) as [Hlt|Hge].
  { destruct (cmd_close_spec from w1 Hd1) as (w2 & -> & _ & Hfr & Hc).
    eexists _, _. split; [done|]. split; [done|]. rewrite Hid1 in *. split.
    - unfold close_spec in Hc. rewrite Hid1, Hobj1, Hv in Hc. destruct Hc as (u & -> & Hb & Hp & Hsz).
      destruct Hsz as [Hsz|[Hup _]]; [destruct u, v; simpl in *; congruence|by rewrite Hup1 in Hup].
    - split; [intros; by rewrite Hfr, Hobj1|lia]. }
  destruct (Hok1 ltac:(lia)) as (v' & Hv' & _ & _ & Hsz1). assert (v' = v) as -> by congruence. rewrite Hsz1.
  destruct (size_blocks_spec (ov_size v) bs Hbs Hsize Hfit) as (n & -> & Hn & Hblocks).
  cbn [mbind outcome_bind].
  destruct (obj_open_or_create_spec to_pool to_oid chint w1) as (rc2 & to & w2 & -> & Hrc2 & Hfr2 & Hup2 & Hok2).
  cbn [mbind outcome_bind]. destruct (Z.ltb_spec rc2 0) as [Hlt2|Hge2].
  { destruct (cmd_close_spec from w2 Hd1) as (w3 & -> & _ & Hfr3 & Hc). rewrite Hid1 in *.
    eexists _, _. split; [done|]. split; [done|]. split.
    - rewrite <- Hid1. eapply close_spec_same; [done| |done]. by rewrite Hid1, Hfr2, Hobj1.
    - split; [intros; by rewrite Hfr3, Hfr2, Hobj1|lia]. }
  destruct (Hok2 ltac:(lia)) as (vt0 & Hvt0 & Htid & Htd & Htsz & Hwas).
  assert (rc2 = 0) as -> by lia.
  destruct (copy_loop_correct from_oid to_oid Hne (sv_objects (cw_sv w)) v vt0 fuel bs n (from, to) w2)
    as (rc3 & [from' to'] & w3 & w4 & w5 & -> & Hw4 & Hw5 & Hrc3 & Hsrc & Hfr & Hto); try done.
  { eapply blocks_fuel_enough; [..|done]; lia. }
  { split.
    - unfold copy_frame. simpl. split; [by rewrite Hfr2, Hobj1|].
      split; [intros; by rewrite Hfr2, Hobj1|]. done.
    - exists vt0. do 3 (split; [done|]). split; [lia|]. split; [lia|done]. }
  simpl in Hw4, Hw5. cbn [mbind outcome_bind]. rewrite Hw4. cbn [mbind outcome_bind]. rewrite Hw5.
  cbn [mbind outcome_bind].
  eexists _, _. split; [done|]. do 3 (split; [done|]). intros ->.
  destruct (Hto eq_refl) as (vt & Hvt & Hp & Hb & Hs). exists vt. do 2 (split; [done|]).
  rewrite Hobj1 in Hwas. unfold size_at. split.
  - intros Hnone. destruct Hwas as [Hsome|(_ & _ & Hpool)]; congruence.
  - intros Hst'. rewrite (Hs Hst'). destruct Hwas as [->|(-> & -> & _)]; done.
Qed.

(** (C18) Copying an object that is not empty returns, whatever fails in between, when
    opening it can be started.  The source and every other object are what they
    were.  If the result is 0 every byte of the source has arrived, in an object that
    is created in the chosen pool if there was none; its size is the larger of the
    two, provided that closing it stored its attributes. *)
Theorem mio_cmd_obj_copy_correct `{HostOrder} `{ObjService} (fuel : nat) (from_oid to_oid : mio_obj_id)
    (to_pool : option mio_pool_id) (bs : Z) (chint : option mio_cmd_obj_hint) (w : cmd_world) (v : obj_view)
  (Hne : from_oid ≠ to_oid) (Hbs : 0 < bs) (Hv : sv_objects (cw_sv w) from_oid = Some v)
  (Hsize : 0 < ov_size v) (Hfit : ov_size v + 121 * bs < 2 ^ 64)
  (Hstart : (sv_start (CallOpen from_oid) obj_zero (cw_sv w)).1.1 = 0)
  (Hfuel : (blocks_fuel (ov_size v) bs < fuel)%nat) :
  ∃ rc w', mio_cmd_obj_copy fuel from_oid to_pool to_oid bs chint w = Done (rc, w') ∧ rc <= 0 ∧
    sv_objects (cw_sv w') from_oid = Some v ∧
    (∀ id, id ≠ from_oid → id ≠ to_oid → sv_objects (cw_sv w') id = sv_objects (cw_sv w) id) ∧
    (rc = 0 → ∃ vt, sv_objects (cw_sv w') to_oid = Some vt ∧
       (∀ z, 0 <= z < ov_size v → ov_bytes vt z = ov_bytes v z) ∧
       (sv_objects (cw_sv w) to_oid = None → ov_pool vt = sv_create_pool to_pool (cmd_hints chint)) ∧
       (close_stores → ov_size vt = Z.max (size_at (sv_objects (cw_sv w)) to_oid) (ov_size v))).
Proof. exact (obj_copy_spec fuel from_oid to_oid to_pool bs chint w v Hne Hbs Hv Hsize Hfit Hstart Hfuel). Qed.

(** ** Witnesses and boundary cases *)
Section Witnesses.
#[local] Instance ex_host : HostOrder := false.

Definition ex_world {svc : ObjService} (s : sv) : cmd_world := MkCmdWorld s [] 0 [] [].

(** 300 bytes in blocks of two: two batches. *)
Lemma mio_cmd_obj_copy_correct_witness :
  let _ := mem_service true in
  ∃ rc w', mio_cmd_obj_copy 152 (ex_oid 1) None (ex_oid 2) 2 None
      (ex_world (MkMemSv (ex_objs 1 300) [] [])) = Done (rc, w') ∧ rc <= 0 ∧
    sv_objects (cw_sv w') (ex_oid 1) = Some (ex_view 300).
Proof.
  intros svc.
  destruct (@mio_cmd_obj_copy_correct _ svc 152 (ex_oid 1) (ex_oid 2) None 2 None
    (@ex_world svc (MkMemSv (ex_objs 1 300) [] [])) (ex_view 300)) as (rc & w' & H1 & H2 & H3 & _).
  - discriminate.
  - reflexivity.
  - reflexivity.
  - reflexivity.
  - reflexivity.
  - reflexivity.
  - apply (bool_decide_unpack _). vm_compute. exact I.
  - exists rc, w'. split; [exact H1|]. split; [exact H2|exact H3].
Defined.

(** The result of a copy, and the size and the last byte of its target. *)
Definition copy_result {svc : ObjService} (r : outcome (Z * cmd_world)) : outcome (Z * option (Z * Z)) :=
  '(rc, w) ← r; Done (rc, (λ v, (ov_size v, ov_bytes v 299)) <$> sv_objects (cw_sv w) (ex_oid 2)).

Example copy_succeeds :
  @copy_result (mem_service true) (@mio_cmd_obj_copy _ (mem_service true) 4 (ex_oid 1) None (ex_oid 2) 2 None
    (@ex_world (mem_service true) (MkMemSv (ex_objs 1 300) [] []))) = Done (0, Some (300, 48)).
Proof. vm_compute. reflexivity. Qed.

(** When the attributes are not stored, the result is 0 and the size of the copy
    is 0. *)
Example copy_size_lost :
  @copy_result (mem_service false) (@mio_cmd_obj_copy _ (mem_service false) 4 (ex_oid 1) None (ex_oid 2) 2 None
    (@ex_world (mem_service false) (MkMemSv (ex_objs 1 300) [] [false]))) = Done (0, Some (0, 48)).
Proof. vm_compute. reflexivity. Qed.

(** When opening the source cannot be started its handle is closed all the same,
    with no object of the driver behind it. *)
Example copy_open_fails :
  @copy_result (mem_service false) (@mio_cmd_obj_copy _ (mem_service false) 4 (ex_oid 1) None (ex_oid 2) 2 None
    (@ex_world (mem_service false) (MkMemSv (ex_objs 1 300) [- EIO] []))) = Fault NullDeref.
Proof. vm_compute. reflexivity. Qed.

(** An empty object has 2^52 blocks of 4 KB, and the length of the second vector
    wraps around. *)
Example empty_object_blocks :
  size_blocks 0 4096 = Done (2 ^ 52) ∧
  (λ r, ci_len <$> ci_vecs r) <$> (obj_alloc_iovecs 2 4096 0 0 []).1.2 = Some [0; 2 ^ 64 - 4096].
Proof. vm_compute. done. Qed.

(** 120 blocks of 2^61 bytes need no memory at all in 64 bits. *)
Example huge_blocks_wrap : (λ r, ci_size r) <$> (obj_alloc_iovecs 120 (2 ^ 61) 0 (2 ^ 62) []).1.2 = Some 0.
Proof. vm_compute. done. Qed.
End Witnesses.
