(* ===== verification/ObjFile.v ===== *)
(** * From a file to an object and back: the theorems on [ObjCmd]

    Writing a file to an object, reading an object to a file, and both. *)

From Stdlib Require Import String Sorted.
From S2P Require Import Prelude Bytes ObjId HintMap Types Hints CStr Conf CmdHelpers ObjService ObjCmd ObjCopy.
Open Scope Z_scope.

(** The bytes of a file as a function. *)
Definition file_fun (bytes : list Z) (z : Z) : Z := nth (Z.to_nat z) bytes 0.

Lemma fbytes_file_fun bytes : fbytes (file_fun bytes) 0 (Z.of_nat (length bytes)) = bytes.
Proof.
  apply list_eq. intros i. destruct (decide (i < length bytes)%nat) as [Hi|Hi].
  - rewrite <- (Nat2Z.id i) at 1. rewrite fbytes_lookup by lia. unfold file_fun.
    replace (Z.to_nat (0 + Z.of_nat i)) with i by lia.
    destruct (lookup_lt_is_Some_2 bytes i Hi) as [x Hx]. rewrite Hx. f_equal. by apply nth_lookup_Some.
  - rewrite !lookup_ge_None_2; [done|lia|rewrite length_fbytes; lia].
Qed.

(** ** The end of a file *)

Lemma file_put_end f bs : file_put (Z.of_nat (length f)) bs f = f ++ bs.
Proof.
  unfold file_put. rewrite Nat2Z.id, firstn_all, Nat.sub_diag, drop_ge by lia. simpl. by rewrite app_nil_r.
Qed.

(** Writing the vectors of a chain at the end of a file, when no fwrite() fails. *)
Lemma fwrite_vecs_chain d g a l e f p :
  chain (ci_size d) a l e → Forall (λ b, b = true) p → Z.of_nat (length f) = a →
  ∃ p', fwrite_vecs d (filled g l) a f p = Done (Z.of_nat (length l), f ++ fbytes g a (e - a), p') ∧
    Forall (λ b, b = true) p'.
Proof.
  revert a f p; induction l as [|v l IH]; intros a f p; cbn [chain].
  - intros -> Hp _. exists p. rewrite Z.sub_diag. cbn. by rewrite app_nil_r.
  - intros (Ho & Hl & Hb & Hs & Hc) Hp Hf. pose proof (chain_le _ _ _ _ Hc).
    cbn [filled fmap list_fmap fwrite_vecs]. rewrite ci_contents_filled by done. cbn [mbind outcome_bind].
    destruct (plan_next p) as [ok p1] eqn:Ep.
    destruct (plan_next_all _ _ _ Ep Hp) as [-> Hp1].
    cbn [negb orb ci_len set_ci_data]. rewrite (proj2 (Z.eqb_neq (ci_len v) 0)) by lia.
    rewrite <- Hf, file_put_end.
    destruct (IH (a + ci_len v) (f ++ fbytes g (ci_off v) (ci_len v)) p1 Hc Hp1) as (p' & E & Hp').
    { rewrite length_app, length_fbytes. lia. }
    unfold filled in E. rewrite Hf, E. cbn [mbind outcome_bind]. exists p'. split; [|done].
    rewrite <- app_assoc, Ho, <- fbytes_app by lia. cbn [length]. do 3 f_equal; [lia|]. f_equal. f_equal. lia.
Qed.

(** ** From a file to an object *)
Section Write.
Context `{HostOrder} `{ObjService}.
Abbreviation objs w := (sv_objects (cw_sv w)).
Context (oid : mio_obj_id) (a0 : obj_views) (f : Z → Z) (vt0 : obj_view) (size : Z).

Definition write_frame (x : option (list Z) * mio_obj) (w : cmd_world) : Prop :=
  (∃ rest, x.1 = Some rest) ∧ (∀ id, id ≠ oid → objs w id = a0 id) ∧ mo_id x.2 = oid ∧ mo_drv_obj x.2 ≠ None.

(** The file has been read up to [off]. *)
Definition write_inv (off : Z) (x : option (list Z) * mio_obj) (w : cmd_world) : Prop :=
  write_frame x w ∧ x.1 = Some (fbytes f off (size - off)) ∧ dest_inv f oid vt0 (ov_size vt0) off x.2 w.

Definition write_err (rc : Z) (x : option (list Z) * mio_obj) (w : cmd_world) : Prop := rc < 0 ∧ write_frame x w.

Lemma write_body_correct bs li n x w :
  0 < bs → 0 < size → size + 121 * bs < 2 ^ 64 →
  0 <= li → 0 < n <= 120 → li + (n - 1) * bs < size → write_inv li x w →
  ∃ rc b x' w', write_body (block_batch bs size li n) x w = Done (rc, b, x', w') ∧
    if b : bool then rc = 0 ∧ write_inv (batch_end bs size li n) x' w' else write_err rc x' w'.
Proof.
  intros Hbs Hsize Hfit Hli Hn Hlast [(_ & Hfr & Hid & Hd) [Hfp Hdest]].
  destruct (obj_alloc_iovecs_spec bs size Hbs Hsize Hfit li n [] Hli Hn Hlast) as (Hc & Hlen & _).
  assert (0 <= (n - 1) * bs) by (apply Z.mul_nonneg_nonneg; lia).
  assert (He : li < batch_end bs size li n < 2 ^ 64) by (unfold batch_end; lia).
  assert (Hle : batch_end bs size li n <= size) by (unfold batch_end; lia).
  destruct x as [fp o]. unfold write_body. cbn [fst snd] in *. subst fp.
  set (e := batch_end bs size li n) in *. set (b := block_batch bs size li n) in *.
  replace (size - li) with ((e - li) + (size - e)) by lia. rewrite fbytes_app by lia.
  replace (li + (e - li)) with e by lia. unfold obj_read_data_from_file.
  rewrite (fread_vecs_chain b f li _ e _ Hc). cbn [mbind outcome_bind]. rewrite Z.eqb_refl. cbn [negb].
  destruct (dest_write f oid vt0 (ov_size vt0) o (ci_vecs b) (ci_size b) w li e Hid Hli He Hc)
    as (rc & o' & w2 & -> & Hrc2 & Hfr2 & Hid2 & Hd2 & Hok2).
  cbn [mbind outcome_bind]. eexists _, _, _, _. split; [done|].
  assert (Hframe : write_frame (Some (fbytes f e (size - e)), o') w2).
  { split; [by eexists|]. split; [intros; by rewrite Hfr2, Hfr|]. simpl. tauto. }
  destruct (Z.eqb_spec rc 0) as [->|Hrne]; [|split; [lia|done]].
  split; [done|]. split; [done|]. split; [done|]. by apply Hok2.
Qed.
End Write.

(** Writing a file that is not empty to an object returns, whatever fails.  The other
    objects are what they were; if the result is 0 the object starts with the first
    blocks of the file, as many as were asked for. *)
Theorem mio_cmd_obj_write_correct `{HostOrder} `{ObjService} (fuel : nat) (stack_obj : mio_obj)
    (bytes : list Z) (pool : option mio_pool_id) (oid : mio_obj_id) (bs count : Z) (w : cmd_world)
  (size := Z.of_nat (length bytes)) (Hbs : 0 < bs) (Hsize : 0 < size) (Hfit : size + 121 * bs < 2 ^ 64)
  (Hcount : 0 < count) (Hfuel : (blocks_fuel size bs < fuel)%nat) :
  ∃ rc w', mio_cmd_obj_write fuel stack_obj (Some (FopenOk bytes 0)) pool oid bs count w = Done (rc, w') ∧ rc <= 0 ∧
    (∀ id, id ≠ oid → sv_objects (cw_sv w') id = sv_objects (cw_sv w) id) ∧
    (rc = 0 → ∃ vt, sv_objects (cw_sv w') oid = Some vt ∧
       (∀ z, 0 <= z < Z.min (count * bs) size → ov_bytes vt z = file_fun bytes z) ∧
       (close_stores → ov_size vt = Z.max (size_at (sv_objects (cw_sv w)) oid) (Z.min (count * bs) size))).
Proof.
  unfold mio_cmd_obj_write, obj_write_init. change (0 <? 0) with false. cbv iota. fold size.
  destruct (clip_blocks_spec size bs count fuel Hbs Hsize Hfit Hcount Hfuel) as (m & -> & Hn & HT & Hlast & Hfu).
  cbn [mbind outcome_bind]. set (n := if m <? count then m else count) in *.
  destruct (obj_open_or_create_spec pool oid None w) as (rc & o & w1 & -> & Hrc & Hfr & Hup & Hok).
  cbn [mbind outcome_bind].
  destruct (Z.ltb_spec rc 0) as [Hlt|Hge]; cbn [mbind outcome_bind fclose].
  { rewrite (proj2 (Z.ltb_lt rc 0)) by lia. eexists _, _. split; [done|]. do 2 (split; [done|]). lia. }
  rewrite (proj2 (Z.ltb_ge rc 0)) by lia. assert (rc = 0) as -> by lia.
  destruct (Hok eq_refl) as (vt0 & Hvt0 & Hid & Hd & Hsz & Hwas).
  destruct (blocks_loop_correct write_body bs size Hbs Hsize Hfit
    (write_inv oid (sv_objects (cw_sv w)) (file_fun bytes) vt0 size) (write_err oid (sv_objects (cw_sv w)))) with
    (fuel := fuel) (c := n) (li := 0) (x := (Some bytes, o)) (w := w1) as (rc & [fp o'] & w2 & -> & Hend); try lia.
  - done.
  - intros off x1 w' rc' [Hf _] Hrc'. by split.
  - intros. by apply write_body_correct.
  - rewrite Z.min_l by lia. split; [split; [by eexists|]; done|]. split.
    + rewrite Z.sub_0_r. simpl. by rewrite fbytes_file_fun.
    + exists vt0. do 3 (split; [done|]). split; [lia|]. split; [lia|done].
  - assert (Hf : write_frame oid (sv_objects (cw_sv w)) (fp, o') w2) by (destruct Hend as [(_ & Hf & _)|[_ Hf]]; done).
    destruct Hf as ([rest Hrest] & Hfr2 & Hid2 & Hd2). cbn [fst snd] in *. subst fp.
    set (T := Z.min (count * bs) size) in *.
    destruct (dest_close (file_fun bytes) oid vt0 (ov_size vt0) T o' w2 Hid2 Hd2) as (w3 & Hw3 & Hfr3 & Hc).
    cbn [mbind outcome_bind]. rewrite Hw3. cbn [mbind outcome_bind fclose].
    eexists _, _. split; [done|]. split; [destruct Hend as [[-> _]|[? _]]; lia|].
    split; [intros; by rewrite Hfr3, Hfr2|]. intros ->. destruct Hend as [[_ (_ & _ & HI)]|[Hbad _]]; [|lia].
    rewrite Z.add_0_l, HT in HI. destruct Hc as (vt & Hvt & _ & Hb & Hs); [unfold T; lia|done|].
    exists vt. do 2 (split; [done|]). intros Hst. rewrite (Hs Hst). unfold size_at.
    destruct Hwas as [->|(-> & -> & _)]; done.
Qed.

(** ** From an object to a file *)
Section Read.
Context `{HostOrder} `{ObjService}.
Abbreviation objs w := (sv_objects (cw_sv w)).
Context (oid : mio_obj_id) (a0 : obj_views) (v : obj_view) (Hv : a0 oid = Some v).

Definition read_frame (x : option out_file * mio_obj) (w : cmd_world) : Prop :=
  (∃ f, x.1 = Some f) ∧ (∀ id, objs w id = a0 id) ∧
  mo_id x.2 = oid ∧ mo_drv_obj x.2 ≠ None ∧ moa_size (mo_attrs x.2) = ov_size v.

(** The file holds the bytes below [off], and no coming fwrite() fails. *)
Definition read_inv (off : Z) (x : option out_file * mio_obj) (w : cmd_world) : Prop :=
  read_frame x w ∧ ∃ p, x.1 = Some (MkOutFile (fbytes (ov_bytes v) 0 off) p) ∧ Forall (λ b, b = true) p.

Definition read_err (rc : Z) (x : option out_file * mio_obj) (w : cmd_world) : Prop := rc < 0 ∧ read_frame x w.

Lemma read_body_correct bs size li n x w :
  0 < bs → 0 < size → size + 121 * bs < 2 ^ 64 →
  0 <= li → 0 < n <= 120 → li + (n - 1) * bs < size → read_inv li x w →
  ∃ rc b x' w', read_body false (block_batch bs size li n) x w = Done (rc, b, x', w') ∧
    if b : bool then rc = 0 ∧ read_inv (batch_end bs size li n) x' w' else read_err rc x' w'.
Proof.
  intros Hbs Hsize Hfit Hli Hn Hlast [(_ & Hfr & Hid & Hd & Hsz) (p & Hfp & Hp)].
  destruct (obj_alloc_iovecs_spec bs size Hbs Hsize Hfit li n [] Hli Hn Hlast) as (Hc & Hlen & _).
  assert (0 <= (n - 1) * bs) by (apply Z.mul_nonneg_nonneg; lia).
  assert (He : li < batch_end bs size li n < 2 ^ 64) by (unfold batch_end; lia).
  destruct x as [fp o]. unfold read_body. cbn [fst snd] in *. subst fp.
  set (e := batch_end bs size li n) in *. set (b := block_batch bs size li n) in *.
  destruct (obj_read_spec o b w li _ Hli (proj2 He) Hc)
    as (rc & d & o' & w1 & -> & Hrc & Hobj1 & (Hid1 & Hsz1 & Hd1) & Hok).
  cbn [mbind outcome_bind].
  assert (Hframe : ∀ f w', objs w' = objs w1 → read_frame (Some f, o') w').
  { intros f w' Hw'. split; [by eexists|]. split; [intros; by rewrite Hw', Hobj1|]. simpl.
    split; [congruence|]. split; [tauto|congruence]. }
  destruct (Z.eqb_spec rc 0) as [->|Hrne]; cbn [negb].
  2: { eexists _, _, _, _. split; [done|]. split; [lia|by apply Hframe]. }
  destruct (Hok eq_refl) as (v' & Hv' & ->). assert (v' = v) as -> by (rewrite Hid, Hfr in Hv'; congruence).
  unfold obj_write_data_to_file. cbn [ci_vecs of_bytes of_plan].
  assert (Hpos : match filled (ov_bytes v) (ci_vecs b) with v :: _ => Done (ci_off v) | [] => Fault OutOfBounds end
    = Done li).
  { destruct (ci_vecs b) as [|u l] eqn:Eb; [simpl in Hlen; lia|]. destruct Hc as [Ho _]. simpl. by rewrite Ho. }
  rewrite Hpos. cbn [mbind outcome_bind].
  destruct (fwrite_vecs_chain (MkCmdIovecs (filled (ov_bytes v) (ci_vecs b)) (ci_size b)) (ov_bytes v) li
    (ci_vecs b) e (fbytes (ov_bytes v) 0 li) p Hc Hp) as (p' & -> & Hp').
  { rewrite length_fbytes. lia. }
  cbn [mbind outcome_bind ci_vecs]. unfold filled. rewrite length_fmap, Z.eqb_refl. cbn [negb].
  eexists _, _, _, _. split; [done|]. split; [done|]. split; [by apply Hframe|].
  exists p'. split; [|done]. simpl. do 2 f_equal.
  replace (fbytes (ov_bytes v) li (e - li)) with (fbytes (ov_bytes v) (0 + li) (e - li)) by done.
  rewrite <- fbytes_app by lia. f_equal. lia.
Qed.
End Read.

(** Reading an object that is not empty to a file returns, whatever fails, when the
    file can be written; no object changes; if the result is 0 the file consists of
    the first blocks of the object, as many as were asked for. *)
Theorem mio_cmd_obj_read_correct `{HostOrder} `{ObjService} (fuel : nat) (stack_obj : mio_obj)
    (oid : mio_obj_id) (p : mplan) (bs count : Z) (w : cmd_world) (v : obj_view)
  (Hbs : 0 < bs) (Hv : sv_objects (cw_sv w) oid = Some v) (Hsize : 0 < ov_size v)
  (Hfit : ov_size v + 121 * bs < 2 ^ 64) (Hcount : 0 < count) (Hp : Forall (λ b, b = true) p)
  (Hfuel : (blocks_fuel (ov_size v) bs < fuel)%nat) :
  ∃ rc fp w', mio_cmd_obj_read false fuel stack_obj oid (Some (FopenWOk p)) bs count w = Done (rc, fp, w') ∧
    rc <= 0 ∧ (∀ id, sv_objects (cw_sv w') id = sv_objects (cw_sv w) id) ∧
    (rc = 0 → ∃ p', fp = Some (MkOutFile (fbytes (ov_bytes v) 0 (Z.min (count * bs) (ov_size v))) p')).
Proof.
  unfold mio_cmd_obj_read, obj_read_init.
  destruct (obj_open oid stack_obj w) as [[rc o] w1] eqn:E1.
  apply cmd_open_spec in E1 as (Hrc & Hobj1 & _ & _ & Hok & _).
  destruct (Z.ltb_spec rc 0) as [Hlt|Hge]; cbn [mbind outcome_bind fclose].
  { rewrite (proj2 (Z.ltb_lt rc 0)) by lia. eexists _, _, _. split; [done|]. do 2 (split; [done|]). lia. }
  destruct (Hok ltac:(lia)) as (v' & Hv' & Hid & Hd & Hsz). assert (v' = v) as -> by congruence. rewrite Hsz.
  destruct (clip_blocks_spec (ov_size v) bs count fuel Hbs Hsize Hfit Hcount Hfuel) as (m & -> & Hn & HT & Hlast & Hfu).
  cbn [mbind outcome_bind]. change (0 <? 0) with false. cbv iota. set (n := if m <? count then m else count) in *.
  destruct (blocks_loop_correct (read_body false) bs (ov_size v) Hbs Hsize Hfit
    (read_inv oid (sv_objects (cw_sv w)) v) (read_err oid (sv_objects (cw_sv w)) v)) with
    (fuel := fuel) (c := n) (li := 0) (x := (Some (MkOutFile [] p), o)) (w := w1) as (rc' & [fp o'] & w2 & -> & Hend); try lia.
  - done.
  - intros off x1 w' rc' [Hf _] Hrc'. by split.
  - intros. by apply read_body_correct.
  - rewrite Z.min_l by lia. split; [split; [by eexists|]; done|]. by exists p.
  - assert (Hf : read_frame oid (sv_objects (cw_sv w)) v (fp, o') w2) by (destruct Hend as [(_ & Hf & _)|[_ Hf]]; done).
    destruct Hf as ([file Hfile] & Hfr2 & Hid2 & Hd2 & Hsz2). cbn [fst snd] in *. subst fp.
    destruct (cmd_close_same o' w2 v Hd2) as (w3 & Hw3 & Hfr3); [by rewrite Hid2, Hfr2|done|].
    cbn [mbind outcome_bind]. rewrite Hw3. cbn [mbind outcome_bind fclose].
    eexists _, _, _. split; [done|]. split; [destruct Hend as [[-> _]|[? _]]; lia|]. split.
    + intros id. by rewrite Hfr3, Hfr2.
    + intros ->. destruct Hend as [[_ (_ & p' & Hfp & _)]|[Hbad _]]; [|lia].
      rewrite Z.add_0_l, HT in Hfp. exists p'. done.
Qed.

(** A file that is written to an object and read back from it is the file it was,
    whatever the block sizes of the two commands, if both return 0; both return,
    whatever fails.  The object must not have been larger than the file before, and
    its attributes must have been stored when it was closed. *)
Theorem mio_cmd_obj_file_roundtrip `{HostOrder} `{ObjService} (fuel : nat) (stack_obj stack_obj' : mio_obj)
    (bytes : list Z) (pool : option mio_pool_id) (oid : mio_obj_id) (bs bs' count count' : Z) (p : mplan)
    (w : cmd_world) (size := Z.of_nat (length bytes))
  (Hbs : 0 < bs) (Hbs' : 0 < bs') (Hsize : 0 < size)
  (Hfit : size + 121 * bs < 2 ^ 64) (Hfit' : size + 121 * bs' < 2 ^ 64)
  (Hcount : size <= count * bs) (Hcount' : size <= count' * bs')
  (Hold : size_at (sv_objects (cw_sv w)) oid <= size)
  (Hstores : close_stores) (Hp : Forall (λ b, b = true) p)
  (Hfuel : (blocks_fuel size bs < fuel)%nat) (Hfuel' : (blocks_fuel size bs' < fuel)%nat) :
  ∃ rc w1, mio_cmd_obj_write fuel stack_obj (Some (FopenOk bytes 0)) pool oid bs count w = Done (rc, w1) ∧ rc <= 0 ∧
    (rc = 0 → ∃ rc' fp w2,
       mio_cmd_obj_read false fuel stack_obj' oid (Some (FopenWOk p)) bs' count' w1 = Done (rc', fp, w2) ∧ rc' <= 0 ∧
       (rc' = 0 → of_bytes <$> fp = Some bytes)).
Proof.
  assert (0 < count) by nia. assert (0 < count') by nia.
  destruct (mio_cmd_obj_write_correct fuel stack_obj bytes pool oid bs count w) as (rc & w1 & -> & Hrc & _ & Hok);
    [done..|].
  eexists _, _. split; [done|]. split; [done|]. intros ->.
  destruct (Hok eq_refl) as (vt & Hvt & Hb & Hs). fold size in Hb, Hs. specialize (Hs Hstores).
  assert (Hvs : ov_size vt = size) by lia.
  destruct (mio_cmd_obj_read_correct fuel stack_obj' oid p bs' count' w1 vt) as (rc' & fp & w2 & -> & Hrc' & _ & Hok');
    [done..|lia|rewrite Hvs; lia|done|done|by rewrite Hvs|].
  eexists _, _, _. split; [done|]. split; [done|]. intros Hr. destruct (Hok' Hr) as (p' & ->). simpl. f_equal.
  rewrite Hvs, Z.min_r by lia. rewrite <- (fbytes_file_fun bytes). fold size.
  rewrite Z.min_r in Hb by lia. apply fbytes_ext. intros z Hz. apply Hb. lia.
Qed.

(** ** Witnesses and boundary cases *)
Section Witnesses.
#[local] Instance ex_host_file : HostOrder := false.

Definition ex_bytes : list Z := replicate 100 7 ++ replicate 201 9.

Lemma mio_cmd_obj_file_roundtrip_witness :
  let svc := mem_service true in
  ∃ rc w1, mio_cmd_obj_write 400 obj_zero (Some (FopenOk ex_bytes 0)) None (ex_oid 1) 2 1000
      (ex_world (MkMemSv (λ _, None) [] [])) = Done (rc, w1) ∧ rc <= 0.
Proof.
  intros svc.
  destruct (@mio_cmd_obj_file_roundtrip _ svc 400 obj_zero obj_zero ex_bytes None (ex_oid 1) 2 3 1000 (2 ^ 64 - 1) []
    (@ex_world svc (MkMemSv (λ _, None) [] []))) as (rc & w1 & H1 & H2 & _).
  - reflexivity.
  - reflexivity.
  - reflexivity.
  - reflexivity.
  - reflexivity.
  - discriminate.
  - discriminate.
  - discriminate.
  - exact mem_close_stores.
  - constructor.
  - apply (bool_decide_unpack _). vm_compute. exact I.
  - apply (bool_decide_unpack _). vm_compute. exact I.
  - exists rc, w1. split; [exact H1|exact H2].
Defined.

Definition file_result {svc : ObjService} (r : outcome (Z * option out_file * cmd_world)) : outcome (Z * option (list Z)) :=
  match r with Done (rc, fp, _) => Done (rc, of_bytes <$> fp) | Fault e => Fault e end.

(** Two batches, with different block sizes. *)
Example roundtrip_runs :
  let svc := mem_service true in
  ('(_, w) ← mio_cmd_obj_write 4 obj_zero (Some (FopenOk ex_bytes 0)) None (ex_oid 1) 2 1000
     (ex_world (MkMemSv (λ _, None) [] []));
   file_result (mio_cmd_obj_read false 4 obj_zero (ex_oid 1) (Some (FopenWOk [])) 3 1000 w)) = Done (0, Some ex_bytes).
Proof. vm_compute. reflexivity. Qed.

(** Writing made-up data ends with fclose(NULL), although the object is written; and
    so does reading without a file. *)
Example write_pseudo_data :
  let svc := mem_service true in
  (r ← mio_cmd_obj_write 4 obj_zero None None (ex_oid 1) 4 2 (ex_world (MkMemSv (λ _, None) [] [])); Done r.1)
    = Fault NullDeref.
Proof. vm_compute. reflexivity. Qed.

Example read_to_console :
  let svc := mem_service true in
  file_result (mio_cmd_obj_read true 4 obj_zero (ex_oid 1) None 100 3 (ex_world (MkMemSv (ex_objs 1 300) [] [])))
    = Fault NullDeref.
Proof. vm_compute. reflexivity. Qed.

(** An empty file is reported as written. *)
Example write_empty_file :
  let svc := mem_service true in
  fst <$> (λ r, match r with Done x => Some x | Fault _ => None end)
    (mio_cmd_obj_write 4 obj_zero (Some (FopenOk [] 0)) None (ex_oid 1) 4096 1 (ex_world (MkMemSv (λ _, None) [] [])))
    = Some 0.
Proof. vm_compute. reflexivity. Qed.

(** A file that cannot be written: the result is 0 and the file is empty; when the
    data are printed too, the failure is overwritten and the rest is written with a
    gap. *)
Example read_fwrite_fails :
  let svc := mem_service true in
  file_result (mio_cmd_obj_read false 4 obj_zero (ex_oid 1) (Some (FopenWOk [false])) 100 3
    (ex_world (MkMemSv (ex_objs 1 300) [] []))) = Done (0, Some []).
Proof. vm_compute. reflexivity. Qed.

Example read_fwrite_fails_console :
  let svc := mem_service true in
  file_result (mio_cmd_obj_read true 4 obj_zero (ex_oid 1) (Some (FopenWOk [true; false])) 1 3
    (ex_world (MkMemSv (ex_objs 1 300) [] []))) = Done (0, Some [0]).
Proof. vm_compute. reflexivity. Qed.

(** Reading is recorded as writing. *)
Example read_telemetry :
  let svc := mem_service true in
  match mio_cmd_obj_read false 4 obj_zero (ex_oid 1) (Some (FopenWOk [])) 300 1 (ex_world (MkMemSv (ex_objs 1 300) [] [])) with
  | Done (_, _, w) => cw_telem w
  | Fault _ => []
  end = [("mio-obj-write-end"%string, [0; 1]); ("mio-obj-write-iosize"%string, [0; 1; 300]);
         ("mio-obj-write-start"%string, [0; 1])].
Proof. vm_compute. reflexivity. Qed.

(** The operation of opening is never finalised: one remains. *)
Example open_leaks_operation :
  let svc := mem_service true in
  match mio_cmd_obj_read false 4 obj_zero (ex_oid 1) (Some (FopenWOk [])) 300 1 (ex_world (MkMemSv (ex_objs 1 300) [] [])) with
  | Done (_, _, w) => cw_ops w
  | Fault _ => 0
  end = 1.
Proof. vm_compute. reflexivity. Qed.
End Witnesses.
