(* ===== verification/ObjAsync.v ===== *)
(** * Object commands with callbacks (src/examples/obj_io_cbs.c)

    The asynchronous commands start the operations of all batches and then wait:
    the callback of an operation releases its memory, and for a read writes the data
    to the file first.  Operations complete in any order: [sched k] are those that
    complete before the batch [k + 1] is started, [last] those that complete after the
    last one.  The mutex is held until all are started, so that the counter of
    operations goes down only then. *)

From Stdlib Require Import String.
From S2P Require Import Prelude Bytes ObjId HintMap Types Hints CStr Conf CmdHelpers ObjService ObjCmd.
Open Scope Z_scope.

(** ** Operations *)

(** An operation of obj_io_ops: what was started, its vectors, and its result once it
    is complete. *)
Record async_op := MkAsyncOp { ao_call : obj_call; ao_iovecs : cmd_iovecs; ao_rc : option Z }.

(** obj_io_ops, obj_io_nr_ops_on_fly, the file that is written and the handle. *)
Record async_st := MkAsync {
  obj_io_ops : list (option async_op);
  obj_io_nr_ops_on_fly : Z;
  as_file : option out_file;
  as_obj : mio_obj
}.

Definition set_as_obj (o : mio_obj) (st : async_st) : async_st :=
  MkAsync (obj_io_ops st) (obj_io_nr_ops_on_fly st) (as_file st) o.
Definition set_as_op (i : nat) (op : async_op) (st : async_st) : async_st :=
  MkAsync (<[i := Some op]> (obj_io_ops st)) (obj_io_nr_ops_on_fly st) (as_file st) (as_obj st).
Definition set_as_file (f : option out_file) (st : async_st) : async_st :=
  MkAsync (obj_io_ops st) (obj_io_nr_ops_on_fly st) f (as_obj st).

Definition in_flight (op : option async_op) : bool :=
  match op with Some op => bool_decide (ao_rc op = None) | None => false end.

Section ObjAsync.
Context `{HostOrder} `{ObjService}.
Context (print_on_console : bool).

(** [obj_rw_op_alloc]: two calls of malloc(). *)
Definition obj_rw_op_alloc (p : mplan) : Z * mplan :=
  let '(ok1, p) := plan_next p in
  if negb ok1 then (- ENOMEM, p) else
  let '(ok2, p) := plan_next p in
  if negb ok2 then (- ENOMEM, p) else (0, p).

(** Starting an operation and keeping it in obj_io_ops. *)
Definition obj_rw_async (c : obj_call) (d : cmd_iovecs) (op_idx : Z) (st : async_st) (w : cmd_world)
  : outcome (Z * async_st * cmd_world) :=
  let '(rc, p) := obj_rw_op_alloc (cw_plan w) in
  let w := set_cw_plan p w in
  if rc <? 0 then Done (rc, st, w) else
  let '(rc, o, w) := cmd_start c (as_obj st) w in
  let st := set_as_obj o st in
  if rc <? 0 then Done (rc, st, w) else
  if (op_idx <? 0) || (Z.of_nat (length (obj_io_ops st)) <=? op_idx) then Fault OutOfBounds else
  Done (rc, set_as_op (Z.to_nat op_idx) (MkAsyncOp c d None) st, w).

(** [obj_write_async]. *)
Definition obj_write_async (d : cmd_iovecs) (op_idx : Z) (st : async_st) (w : cmd_world)
  : outcome (Z * async_st * cmd_world) :=
  data ← write_data d (ci_vecs d); obj_rw_async (CallWrite data) d op_idx st w.

(** [obj_read_async]. *)
Definition obj_read_async (d : cmd_iovecs) (op_idx : Z) (st : async_st) (w : cmd_world)
  : outcome (Z * async_st * cmd_world) :=
  obj_rw_async (CallRead ((λ v, (ci_off v, ci_len v)) <$> ci_vecs d)) d op_idx st w.

(** [obj_read_cb]: the result of writing the file is not looked at. *)
Definition obj_read_cb (rc : Z) (d : cmd_iovecs) (st : async_st) (w : cmd_world) : outcome (async_st * cmd_world) :=
  if rc =? 0 then
    '(_, fp, out) ← obj_write_data_to_file print_on_console (as_file st) d;
    Done (set_as_file fp st, cw_print out w)
  else Done (st, w).

(** The operation [i] completes and its callback is called: [obj_write_cb] only
    releases memory. *)
Definition async_complete (i : nat) (st : async_st) (w : cmd_world) : outcome (async_st * cmd_world) :=
  match obj_io_ops st !! i with
  | Some (Some (MkAsyncOp c d None)) =>
      let '(rc, data, o, w) := mio_cmd_wait_on_op c (as_obj st) w in
      let st := set_as_op i (MkAsyncOp c d (Some rc)) (set_as_obj o st) in
      match c with
      | CallRead _ => l ← store_data d (ci_vecs d) data; obj_read_cb rc (MkCmdIovecs l (ci_size d)) st w
      | _ => Done (st, w)
      end
  | _ => Done (st, w)
  end.

Fixpoint async_run (l : list nat) (st : async_st) (w : cmd_world) : outcome (async_st * cmd_world) :=
  match l with
  | [] => Done (st, w)
  | i :: l => '(st, w) ← async_complete i st w; async_run l st w
  end.

(** [obj_wait_on_all_ops]: it waits for ever for an operation that does not
    complete. *)
Definition obj_wait_on_all_ops (last : list nat) (st : async_st) (w : cmd_world) : outcome (async_st * cmd_world) :=
  '(st, w) ← async_run last st w;
  if existsb in_flight (obj_io_ops st) then Fault NoTermination
  else Done (MkAsync (obj_io_ops st) 0 (as_file st) (as_obj st), w).

(** [obj_io_async_init]: the number of blocks is an int, malloc() fails for a negative
    number of operations. *)
Definition obj_io_async_init (bcount async_step : Z) (fp : option out_file) (o : mio_obj) (p : mplan)
  : outcome (Z * async_st * mplan) :=
  if async_step =? 0 then Fault DivByZero else
  let todo := s32 (u64 (u64 (u64 (s32 bcount) + async_step) - 1) / async_step) in
  let '(ok, p) := plan_next p in
  if negb ok || (todo <? 0) then Done (- ENOMEM, MkAsync [] 0 fp o, p)
  else Done (0, MkAsync (replicate (Z.to_nat todo) None) 0 fp o, p).

(** [obj_io_async_fini]: mio_op_fini() of every operation that was started. *)
Definition obj_io_async_fini (st : async_st) (w : cmd_world) : cmd_world :=
  set_cw_ops (cw_ops w - Z.of_nat (length (filter is_Some (obj_io_ops st)))) w.

(** ** The commands *)
Section Commands.
Context (sched : nat → list nat) (last : list nat).

(** Another operation is on its way, and some complete. *)
Definition async_launched (st : async_st) (w : cmd_world) : outcome (async_st * cmd_world) :=
  async_run (sched (Z.to_nat (obj_io_nr_ops_on_fly st)))
    (MkAsync (obj_io_ops st) (obj_io_nr_ops_on_fly st + 1) (as_file st) (as_obj st)) w.

(** The body of the loop of [mio_cmd_obj_write_async]. *)
Definition write_async_body (d : cmd_iovecs) (x : option (list Z) * async_st) (w : cmd_world)
  : outcome (Z * bool * (option (list Z) * async_st) * cmd_world) :=
  let '(fp, st) := x in
  '(rc, d', fp) ← obj_read_data_from_file fp d;
  if negb (rc =? Z.of_nat (length (ci_vecs d))) then Done (rc, false, (fp, st), w) else
  '(rc, st, w) ← obj_write_async d' (obj_io_nr_ops_on_fly st) st w;
  if negb (rc =? 0) then Done (rc, false, (fp, st), w) else
  '(st, w) ← async_launched st w;
  Done (0, true, (fp, st), w).

(** The body of the loop of [mio_cmd_obj_read_async]. *)
Definition read_async_body (d : cmd_iovecs) (st : async_st) (w : cmd_world)
  : outcome (Z * bool * async_st * cmd_world) :=
  '(rc, st, w) ← obj_read_async d (obj_io_nr_ops_on_fly st) st w;
  if negb (rc =? 0) then Done (rc, false, st, w) else
  '(st, w) ← async_launched st w;
  Done (0, true, st, w).

Definition async_max_blocks (async_step : Z) : Z :=
  if MIO_CMD_MAX_BLOCK_COUNT_PER_OP <? async_step then MIO_CMD_MAX_BLOCK_COUNT_PER_OP else async_step.

(** The results of the operations. *)
Definition async_results (st : async_st) : list Z := omap (λ op, op ≫= ao_rc) (obj_io_ops st).

(** [mio_cmd_obj_write_async]; what the operations returned is the second part of the
    result. *)
Definition mio_cmd_obj_write_async (fuel : nat) (stack_obj : mio_obj) (src : option fopen_result)
    (pool : option mio_pool_id) (oid : mio_obj_id) (block_size block_count async_step : Z) (w : cmd_world)
  : outcome (Z * list Z * cmd_world) :=
  '(rc, fp, max_index, block_count, o, w) ←
    obj_write_init pool oid stack_obj src block_size block_count w;
  if rc <? 0 then Done (rc, [], w) else
  '(rc, st, p) ← obj_io_async_init block_count async_step None o (cw_plan w);
  let w := set_cw_plan p w in
  '(rc, fp, st, w) ←
    (if rc <? 0 then Done (rc, fp, st, w) else
     '(rc, (fp, st), w) ← batches_loop write_async_body (async_max_blocks async_step) block_size max_index fuel rc
                            block_count 0 (fp, st) w;
     '(st, w) ← obj_wait_on_all_ops last st w;
     Done (rc, fp, st, obj_io_async_fini st w));
  w ← cmd_close (as_obj st) w;
  _ ← fclose fp;
  Done (rc, async_results st, w).

(** [mio_cmd_obj_read_async]. *)
Definition mio_cmd_obj_read_async (fuel : nat) (oid : mio_obj_id) (dest : option fopen_w_result)
    (block_size block_count async_step : Z) (w : cmd_world) : outcome (Z * list Z * option out_file * cmd_world) :=
  '(rc, fp, max_index, block_count, o, w) ← obj_read_init oid obj_zero dest block_size block_count w;
  if rc <? 0 then Done (rc, [], fp, w) else
  '(rc, st, p) ← obj_io_async_init block_count async_step fp o (cw_plan w);
  let w := set_cw_plan p w in
  '(rc, st, w) ←
    (if rc <? 0 then Done (rc, st, w) else
     '(rc, st, w) ← batches_loop read_async_body (async_max_blocks async_step) block_size max_index fuel rc
                      block_count 0 st w;
     '(st, w) ← obj_wait_on_all_ops last st w;
     Done (rc, st, obj_io_async_fini st w));
  w ← cmd_close (as_obj st) w;
  _ ← fclose (as_file st);
  Done (rc, async_results st, as_file st, w).
End Commands.
End ObjAsync.
