(* ===== verification/ObjAsyncCorrect.v ===== *)
(** * Object commands with callbacks: the theorems on [ObjAsync]

    Whatever the order in which the operations complete, all bytes arrive if all of
    them succeed; the array of operations is large enough when a batch is not larger
    than its limit. *)

From Stdlib Require Import String.
From stdpp Require Import list_numbers.
From S2P Require Import Prelude Bytes ObjId HintMap Types Hints CStr Conf CmdHelpers ObjService ObjCmd ObjCopy ObjFile ObjAsync.
Open Scope Z_scope.

(** ** A file that is written in any order *)

Lemma length_file_put pos bs f : length (file_put pos bs f) = Nat.max (length f) (Z.to_nat pos + length bs).
Proof.
  unfold file_put. rewrite !length_app, length_take, length_replicate, length_drop.
  set (n := Z.to_nat pos). lia.
Qed.

Lemma file_put_inside pos bs f i :
  (Z.to_nat pos <= i < Z.to_nat pos + length bs)%nat → file_put pos bs f !! i = bs !! (i - Z.to_nat pos)%nat.
Proof.
  intros Hi. unfold file_put. set (n := Z.to_nat pos) in *. rewrite app_assoc, lookup_app_r.
  2:{ rewrite length_app, length_take, length_replicate. lia. }
  rewrite length_app, length_take, length_replicate, lookup_app_l by lia. f_equal. lia.
Qed.

Lemma file_put_outside pos bs f i x :
  ¬ (Z.to_nat pos <= i < Z.to_nat pos + length bs)%nat → f !! i = Some x → file_put pos bs f !! i = Some x.
Proof.
  intros Hi Hx. pose proof (lookup_lt_Some _ _ _ Hx) as Hlt. unfold file_put. set (n := Z.to_nat pos) in *.
  destruct (decide (i < n)%nat) as [Hin|Hge].
  - rewrite lookup_app_l by (rewrite length_take; lia). by rewrite lookup_take_lt by done.
  - rewrite app_assoc, lookup_app_r by (rewrite length_app, length_take, length_replicate; lia).
    rewrite length_app, length_take, length_replicate, lookup_app_r by lia. rewrite lookup_drop.
    replace (n + length bs + (i - (n `min` length f + (n - length f)) - length bs))%nat with i by lia. done.
Qed.

(** Writing the vectors of a chain at their place. *)
Lemma fwrite_vecs_at d g a l e bytes p :
  0 <= a → chain (ci_size d) a l e → Forall (λ b, b = true) p →
  ∃ bytes' p', fwrite_vecs d (filled g l) a bytes p = Done (Z.of_nat (length l), bytes', p') ∧
    Forall (λ b, b = true) p' ∧ (length bytes <= length bytes')%nat ∧
    Z.of_nat (length bytes') <= Z.max (Z.of_nat (length bytes)) e ∧
    (∀ z, a <= z < e → bytes' !! Z.to_nat z = Some (g z)) ∧
    (∀ z x, 0 <= z → ¬ a <= z < e → bytes !! Z.to_nat z = Some x → bytes' !! Z.to_nat z = Some x).
Proof.
  revert a bytes p; induction l as [|v l IH]; intros a bytes p Ha; cbn [chain].
  - intros -> Hp. exists bytes, p. split; [done|]. split_and!; [done|lia|lia|lia|done].
  - intros (Ho & Hl & Hb & Hs & Hc) Hp. pose proof (chain_le _ _ _ _ Hc).
    cbn [filled fmap list_fmap fwrite_vecs]. rewrite ci_contents_filled by done. cbn [mbind outcome_bind].
    destruct (plan_next p) as [ok p1] eqn:Ep. destruct (plan_next_all _ _ _ Ep Hp) as [-> Hp1].
    cbn [negb orb ci_len set_ci_data]. rewrite (proj2 (Z.eqb_neq (ci_len v) 0)) by lia. rewrite Ho.
    set (bytes1 := file_put a (fbytes g a (ci_len v)) bytes).
    pose proof (length_file_put a (fbytes g a (ci_len v)) bytes) as Hlen1. rewrite length_fbytes in Hlen1. fold bytes1 in Hlen1.
    destruct (IH (a + ci_len v) bytes1 p1 ltac:(lia) Hc Hp1) as (bytes' & p' & E & Hp' & Hge & Hle & Hin & Hout).
    unfold filled in E. rewrite E. cbn [mbind outcome_bind]. exists bytes', p'. split; [do 3 f_equal; cbn [length]; lia|].
    split; [done|]. split; [lia|]. split; [lia|]. split.
    + intros z Hz. destruct (decide (a + ci_len v <= z)) as [Hge'|Hlt]; [apply Hin; lia|].
      apply Hout; [lia|lia|]. unfold bytes1. rewrite file_put_inside by (rewrite length_fbytes; lia).
      replace (Z.to_nat z - Z.to_nat a)%nat with (Z.to_nat (z - a)) by lia. rewrite fbytes_lookup by lia. do 2 f_equal. lia.
    + intros z x Hz Hno Hx. apply Hout; [done|lia|]. apply file_put_outside; [rewrite length_fbytes; lia|done].
Qed.

(** ** Operations in flight *)

Definition flight (st : async_st) (j : nat) : Prop := ∃ op, obj_io_ops st !! j = Some (Some op) ∧ ao_rc op = None.

Lemma no_flight st : (∀ j, ¬ flight st j) → existsb in_flight (obj_io_ops st) = false.
Proof.
  intros Hno. apply not_true_iff_false. rewrite existsb_exists. intros (op & Hop & Hf).
  apply list_elem_of_In, list_elem_of_lookup in Hop as [j Hj]. destruct op as [op|]; [|done].
  apply (Hno j). exists op. split; [done|]. by apply bool_decide_eq_true in Hf.
Qed.

(** What was started: the operations below the counter. *)
Record ops_ok (N k : nat) (P : nat → async_op → Prop) (st : async_st) : Prop := {
  oo_len : length (obj_io_ops st) = N;
  oo_count : obj_io_nr_ops_on_fly st = Z.of_nat k;
  oo_ops : ∀ j op, obj_io_ops st !! j = Some (Some op) → P j op;
  oo_started : ∀ j, (j < k)%nat → ∃ op, obj_io_ops st !! j = Some (Some op);
  oo_free : ∀ j op, obj_io_ops st !! j = Some (Some op) → (j < k)%nat
}.

(** No operation has failed. *)
Definition all_ok (st : async_st) : Prop :=
  ∀ j op rc, obj_io_ops st !! j = Some (Some op) → ao_rc op = Some rc → rc = 0.

Lemma all_ok_results st : Forall (λ rc, rc = 0) (async_results st) → all_ok st.
Proof.
  intros Hall j op rc Hj Hrc. rewrite Forall_forall in Hall. apply Hall. unfold async_results.
  apply list_elem_of_omap. exists (Some op). split; [by eapply list_elem_of_lookup_2|done].
Qed.

Section Async.
Context `{HostOrder} `{ObjService}.
Abbreviation objs w := (sv_objects (cw_sv w)).

(** ** Starting *)

Lemma obj_rw_op_alloc_rc p : (obj_rw_op_alloc p).1 = 0 ∨ (obj_rw_op_alloc p).1 < 0.
Proof.
  unfold obj_rw_op_alloc. destruct (plan_next p) as [[] p1]; [|by right]. cbn [negb].
  destruct (plan_next p1) as [[] p2]; [by left|by right].
Qed.

Definition is_io (c : obj_call) : Prop := match c with CallWrite _ | CallRead _ => True | _ => False end.

Lemma obj_rw_async_spec c d k st w :
  is_io c → (k < length (obj_io_ops st))%nat →
  ∃ rc st' w', obj_rw_async c d (Z.of_nat k) st w = Done (rc, st', w') ∧ rc <= 0 ∧ (∀ id, objs w' id = objs w id) ∧
    same_handle (as_obj st) (as_obj st') ∧ as_file st' = as_file st ∧
    obj_io_nr_ops_on_fly st' = obj_io_nr_ops_on_fly st ∧
    obj_io_ops st' = if rc =? 0 then <[k := Some (MkAsyncOp c d None)]> (obj_io_ops st) else obj_io_ops st.
Proof.
  intros Hio Hk. unfold obj_rw_async. pose proof (obj_rw_op_alloc_rc (cw_plan w)) as Hp.
  destruct (obj_rw_op_alloc (cw_plan w)) as [rc0 p]. cbn [fst] in Hp.
  assert (Hrefl : ∀ o, same_handle o o) by done.
  destruct (Z.ltb_spec rc0 0) as [Hlt|Hge].
  { exists rc0, st, (set_cw_plan p w). split_and!; try done; [lia|]. by rewrite (proj2 (Z.eqb_neq rc0 0)) by lia. }
  unfold cmd_start. cbn [cw_sv set_cw_plan]. destruct (sv_start c (as_obj st) (cw_sv w)) as [[rc o] s] eqn:E.
  apply sv_start_ok in E as (Hr & Hobj & Hs). assert (Hsame : same_handle (as_obj st) o) by (by destruct c).
  destruct (Z.ltb_spec rc 0) as [Hlt|Hge'].
  { eexists rc, _, _. split; [done|]. split_and!; try done. by rewrite (proj2 (Z.eqb_neq rc 0)) by lia. }
  assert (rc = 0) as -> by lia. cbn [obj_io_ops set_as_obj].
  rewrite (proj2 (Z.ltb_ge _ 0)), (proj2 (Z.leb_gt _ _)) by lia. cbn [orb]. rewrite Nat2Z.id.
  eexists 0, _, _. by split_and!.
Qed.

(** After starting, the operation is one of those of the array. *)
Lemma ops_ok_started N k P st st' c d :
  ops_ok N k P st → (k < N)%nat → P k (MkAsyncOp c d None) →
  obj_io_ops st' = <[k := Some (MkAsyncOp c d None)]> (obj_io_ops st) →
  ops_ok N (S k) P (MkAsync (obj_io_ops st') (obj_io_nr_ops_on_fly st + 1) (as_file st') (as_obj st')).
Proof.
  intros [Hlen Hcnt Hops Hst Hfree] Hk HP Heq. split; cbn [obj_io_ops obj_io_nr_ops_on_fly]; rewrite ?Heq.
  - by rewrite length_insert.
  - lia.
  - intros j op Hj. apply list_lookup_insert_Some in Hj as [(-> & [= <-] & _)|[_ Hj]]; [done|by apply Hops].
  - intros j Hj. destruct (decide (j = k)) as [->|Hne].
    + rewrite list_lookup_insert_eq by lia. by eexists.
    + rewrite list_lookup_insert_ne by done. apply Hst. lia.
  - intros j op Hj. apply list_lookup_insert_Some in Hj as [(-> & _ & _)|[_ Hj]]; [lia|]. apply Hfree in Hj. lia.
Qed.

(** An operation that completes stays in the array. *)
Lemma ops_ok_done N k P st i c d rc f o :
  ops_ok N k P st → obj_io_ops st !! i = Some (Some (MkAsyncOp c d None)) → P i (MkAsyncOp c d (Some rc)) →
  ops_ok N k P (MkAsync (<[i := Some (MkAsyncOp c d (Some rc))]> (obj_io_ops st)) (obj_io_nr_ops_on_fly st) f o).
Proof.
  intros [Hlen Hcnt Hops Hst Hfree] Hi HP. pose proof (lookup_lt_Some _ _ _ Hi) as Hlt.
  split; cbn [obj_io_ops obj_io_nr_ops_on_fly]; try done.
  - by rewrite length_insert.
  - intros j op Hj. apply list_lookup_insert_Some in Hj as [(-> & [= <-] & _)|[_ Hj]]; [done|by apply Hops].
  - intros j Hj. destruct (decide (j = i)) as [->|Hne].
    + rewrite list_lookup_insert_eq by done. by eexists.
    + rewrite list_lookup_insert_ne by done. by apply Hst.
  - intros j op Hj. apply list_lookup_insert_Some in Hj as [(-> & _ & _)|[_ Hj]]; [by eapply Hfree|by eapply Hfree].
Qed.

Lemma flight_done st i op f o j :
  ao_rc op ≠ None → flight (MkAsync (<[i := Some op]> (obj_io_ops st)) (obj_io_nr_ops_on_fly st) f o) j →
  flight st j ∧ j ≠ i.
Proof.
  intros Hrc (op' & Hj & Hnone). cbn [obj_io_ops] in Hj.
  apply list_lookup_insert_Some in Hj as [(-> & [= <-] & _)|[Hne Hj]]; [done|]. split; [by exists op'|done].
Qed.
End Async.

(** ** Running completions

    [I k st w] is kept when an operation completes. *)
Section Run.
Context `{HostOrder} `{ObjService} (I : async_st → cmd_world → Prop).
Context (Hcomplete : ∀ i st w, I st w → ∃ st' w', async_complete false i st w = Done (st', w') ∧ I st' w' ∧
  ∀ j, flight st' j → flight st j ∧ j ≠ i).

Lemma async_run_spec l st w : I st w →
  ∃ st' w', async_run false l st w = Done (st', w') ∧ I st' w' ∧ ∀ j, flight st' j → flight st j ∧ j ∉ l.
Proof.
  revert st w; induction l as [|i l IH]; intros st w HI; cbn [async_run].
  { exists st, w. split_and!; [done..|]. intros j Hj. split; [done|apply not_elem_of_nil]. }
  destruct (Hcomplete i st w HI) as (st1 & w1 & -> & HI1 & Hf1). cbn [mbind outcome_bind].
  destruct (IH st1 w1 HI1) as (st2 & w2 & -> & HI2 & Hf2). exists st2, w2. split_and!; [done..|].
  intros j Hj. destruct (Hf2 j Hj) as [Hj1 Hnl]. destruct (Hf1 j Hj1) as [Hj0 Hne]. split; [done|].
  rewrite not_elem_of_cons. done.
Qed.

Lemma obj_wait_on_all_ops_spec last st w : I st w → (∀ j, flight st j → j ∈ last) →
  ∃ st' w', obj_wait_on_all_ops false last st w = Done (MkAsync (obj_io_ops st') 0 (as_file st') (as_obj st'), w') ∧
    I st' w' ∧ ∀ j, ¬ flight st' j.
Proof.
  intros HI Hlast. unfold obj_wait_on_all_ops. destruct (async_run_spec last st w HI) as (st' & w' & -> & HI' & Hf).
  cbn [mbind outcome_bind]. assert (Hno : ∀ j, ¬ flight st' j).
  { intros j Hj. destruct (Hf j Hj) as [Hj0 Hnl]. by apply Hnl, Hlast. }
  rewrite no_flight by done. by exists st', w'.
Qed.
End Run.

(** The place of a batch. *)
Lemma batch_place T N bs size cap c0 (Hbs : 0 < bs) (Hcap : 0 < cap <= 120) (HTs : T = Z.min (c0 * bs) size)
    (HN : Z.of_nat N = (c0 + cap - 1) / cap) li n k :
  0 <= li → 0 < n → li + (n - 1) * bs < size → (∃ c, n = Z.min cap c ∧ li + c * bs = c0 * bs) →
  li = Z.min (Z.of_nat k * cap * bs) T →
  (k < N)%nat ∧ batch_end bs size li n = Z.min (Z.of_nat (S k) * cap * bs) T ∧ li < batch_end bs size li n <= T ∧
  batch_end bs size li n <= size.
Proof.
  intros Hli Hn Hlast (c & Hnc & Htop) Hk.
  assert (0 <= (n - 1) * bs) by (apply Z.mul_nonneg_nonneg; lia).
  assert (Hcpos : 0 < c) by lia. assert (0 < c * bs) by (apply Z.mul_pos_pos; lia).
  assert (Hlt : li < T) by lia. assert (Hkb : Z.of_nat k * cap * bs = li) by lia.
  assert (Hkc : Z.of_nat k * cap + c = c0) by (apply (Z.mul_reg_r _ _ bs); lia).
  split.
  { assert (Z.of_nat k + 1 <= (c0 + cap - 1) / cap); [|lia]. apply Z.div_le_lower_bound; lia. }
  replace (Z.of_nat (S k) * cap * bs) with (li + cap * bs) by lia. unfold batch_end.
  destruct (decide (c <= cap)) as [Hle|Hgt].
  - assert (c * bs <= cap * bs) by (apply Z.mul_le_mono_nonneg_r; lia).
    assert (n = c) as -> by lia. rewrite Htop, <- HTs. lia.
  - assert (cap * bs <= c * bs) by (apply Z.mul_le_mono_nonneg_r; lia). assert (0 < cap * bs) by (apply Z.mul_pos_pos; lia).
    assert (n = cap) as -> by lia. lia.
Qed.

(** ** Writing *)
Section Write.
Context `{HostOrder} `{ObjService}.
Abbreviation objs w := (sv_objects (cw_sv w)).
Context (oid : mio_obj_id) (a0 : obj_views) (f : Z → Z) (vt0 : obj_view) (s0 T : Z) (N : nat) (HT : 0 < T < 2 ^ 64).

(** The operation writes the bytes from [a] to [e]. *)
Definition write_op (op : async_op) (a e : Z) : Prop :=
  0 <= a < e ∧ e <= T ∧ ∃ l sz, chain sz a l e ∧ ao_call op = CallWrite (chain_data f l).

Definition write_op_ok (j : nat) (op : async_op) : Prop :=
  (∃ a e, write_op op a e) ∧ ∀ rc, ao_rc op = Some rc → rc <= 0.

Definition written_ops (st : async_st) (vt : obj_view) : Prop :=
  ∀ j op a e, obj_io_ops st !! j = Some (Some op) → ao_rc op = Some 0 → write_op op a e →
    e <= moa_size (mo_attrs (as_obj st)) ∧ ∀ z, a <= z < e → ov_bytes vt z = f z.

(** [k] operations that write the bytes below [off] have been started, those that
    are complete have written theirs; [live] if no start has failed. *)
Record w_inv (live : Prop) (k : nat) (off : Z) (st : async_st) (w : cmd_world) : Prop := {
  wi_frame : (∀ id, id ≠ oid → objs w id = a0 id) ∧ mo_id (as_obj st) = oid ∧ mo_drv_obj (as_obj st) ≠ None;
  wi_ops : ops_ok N k write_op_ok st;
  wi_cover : ∀ z, 0 <= z < off → ∃ j op a e, obj_io_ops st !! j = Some (Some op) ∧ write_op op a e ∧ a <= z < e;
  wi_data : all_ok st → ∃ vt, objs w oid = Some vt ∧ ov_size vt = ov_size vt0 ∧ ov_pool vt = ov_pool vt0 ∧
    s0 <= moa_size (mo_attrs (as_obj st)) <= Z.max s0 T ∧ written_ops st vt;
  wi_updated : live → all_ok st → (0 < k)%nat → (∃ j, flight st j) ∨ mo_attrs_updated (as_obj st) = true
}.

(** What a write of a chain does. *)
Lemma write_op_done c d a e o (u b : obj_views) rc data o' :
  write_op (MkAsyncOp c d None) a e → mo_id o = oid →
  done_spec sv_create_pool c o u rc data o' b → rc = 0 →
  mo_attrs_updated o' = true ∧ moa_size (mo_attrs o') = Z.max (moa_size (mo_attrs o)) e ∧
  ∃ v v', u oid = Some v ∧ b oid = Some v' ∧ ov_size v' = ov_size v ∧ ov_pool v' = ov_pool v ∧
    (∀ z, a <= z < e → ov_bytes v' z = f z) ∧
    (∀ z, ¬ a <= z < e → ov_bytes v' z = ov_bytes v z ∨ moa_size (mo_attrs o) <= z).
Proof.
  intros (Ha & He & l & sz & Hc & Hcall) Hid Hdone ->. cbn [ao_call] in Hcall. subst c.
  destruct Hdone as (_ & _ & Hok). destruct (Hok eq_refl) as (Hup & Hsz & v & v' & Hv & Hv' & Hvs & Hvp & Hz).
  { rewrite (data_vecs_chain f sz a l e Hc). apply (chain_vecs_ok sz a l e); [lia|lia|done]. }
  assert (Hne : l ≠ []) by (intros ->; simpl in Hc; lia).
  rewrite (data_end_chain f sz a l e (proj1 Ha) Hne Hc) in Hsz. rewrite Hid in *.
  split; [done|]. split; [done|]. exists v, v'. do 4 (split; [done|]).
  split; intros z Hza; specialize (Hz z); rewrite (data_at_chain f sz a l e z Hc) in Hz.
  - by replace ((a <=? z) && (z <? e)) with true in Hz by lia.
  - by replace ((a <=? z) && (z <? e)) with false in Hz by lia.
Qed.

Lemma write_complete live k off i st w : w_inv live k off st w →
  ∃ st' w', async_complete false i st w = Done (st', w') ∧ w_inv live k off st' w' ∧ ∀ j, flight st' j → flight st j ∧ j ≠ i.
Proof.
  intros Hinv. unfold async_complete.
  assert (Hsame : (∀ c d, obj_io_ops st !! i ≠ Some (Some (MkAsyncOp c d None))) →
    ∃ st' w', Done (st, w) = Done (st', w') ∧ w_inv live k off st' w' ∧ ∀ j, flight st' j → flight st j ∧ j ≠ i).
  { intros Hno. exists st, w. split; [done|]. split; [done|]. intros j Hj. split; [done|]. intros ->.
    destruct Hj as ([c d r] & Hj & Hr). cbn in Hr. subst r. by apply (Hno c d). }
  destruct (obj_io_ops st !! i) as [[[c d [r|]]|]|] eqn:Ei; [by apply Hsame| |by apply Hsame..].
  destruct Hinv as [(Hfr & Hid & Hd) Hops Hcov Hdata Hupd]. clear Hsame.
  destruct (oo_ops _ _ _ _ Hops i _ Ei) as [(a & e & Hw) _].
  assert (Hcw : ∃ data, c = CallWrite data) by (destruct Hw as (_ & _ & l & sz & _ & Hc); by eexists).
  unfold mio_cmd_wait_on_op. destruct (sv_wait c (as_obj st) (cw_sv w)) as [[[rc data] o'] s'] eqn:Ew.
  apply sv_wait_ok in Ew as (Hrc & Hfr' & Hspec).
  assert (Htgt : call_target c (as_obj st) = oid) by (by destruct Hcw as [? ->]). rewrite Htgt in Hfr'.
  assert (Hid' : mo_id o' = oid ∧ mo_drv_obj o' ≠ None).
  { destruct Hcw as [dt ->]. destruct Hspec as (Hi & Hdr & _). split; [congruence|by apply Hdr]. }
  set (st' := MkAsync (<[i := Some (MkAsyncOp c d (Some rc))]> (obj_io_ops st)) (obj_io_nr_ops_on_fly st) (as_file st) o').
  assert (Hgoal : w_inv live k off st' (set_cw_sv s' w) ∧ ∀ j, flight st' j → flight st j ∧ j ≠ i).
  2:{ destruct Hgoal as [Hi Hf]. destruct Hcw as [dt ->]. by exists st', (set_cw_sv s' w). }
  assert (Hold : all_ok st' → all_ok st ∧ rc = 0).
  { intros Hall. pose proof (lookup_lt_Some _ _ _ Ei) as Hlt. split.
    - intros j op r Hj Hr. destruct (decide (j = i)) as [->|Hne]; [by rewrite Ei in Hj; injection Hj as <-|].
      apply (Hall j op r); [|done]. cbn. by rewrite list_lookup_insert_ne by done.
    - apply (Hall i (MkAsyncOp c d (Some rc)) rc); [|done]. cbn. by rewrite list_lookup_insert_eq by done. }
  split; [|intros j Hj; by apply (flight_done st i (MkAsyncOp c d (Some rc)) (as_file st) o')].
  split.
  - split; [intros id Hne; cbn; by rewrite Hfr', Hfr|done].
  - apply ops_ok_done; [done|done|]. split; [by exists a, e|]. intros r [= <-]. done.
  - intros z Hz. destruct (Hcov z Hz) as (j & op & a1 & e1 & Hj & Hop & Hin). destruct (decide (j = i)) as [->|Hne].
    + exists i, (MkAsyncOp c d (Some rc)), a1, e1. rewrite Ei in Hj. injection Hj as <-. cbn.
      rewrite list_lookup_insert_eq by (by eapply lookup_lt_Some). done.
    + exists j, op, a1, e1. cbn. by rewrite list_lookup_insert_ne by done.
  - intros Hall. destruct (Hold Hall) as [Hall0 ->]. destruct (Hdata Hall0) as (vt & Hvt & Hvs & Hvp & Hsz & Hwr).
    destruct (write_op_done c d a e (as_obj st) _ _ 0 data o' Hw Hid Hspec eq_refl)
      as (_ & Hsz' & v & v' & Hv & Hv' & Hs' & Hp' & Hin & Hout). assert (v = vt) as -> by congruence.
    exists v'. split; [done|]. split; [congruence|]. split; [congruence|]. cbn [as_obj st']. rewrite Hsz'.
    assert (e <= T) by apply Hw. split; [lia|]. intros j op a1 e1 Hj Hr Hop. cbn in Hj.
    apply list_lookup_insert_Some in Hj as [(-> & [= <-] & _)|[Hne Hj]].
    + destruct (write_op_done c d a1 e1 (as_obj st) _ _ 0 data o' Hop Hid Hspec eq_refl)
        as (_ & Hsz1 & v1 & v1' & Hv1 & Hv1' & _ & _ & Hin1 & _). assert (v1' = v') as -> by congruence.
      cbn [as_obj st']. split; [lia|done].
    + destruct (Hwr j op a1 e1 Hj Hr Hop) as [Hle Hb]. cbn [as_obj st']. split; [lia|]. intros z Hz.
      destruct (decide (a <= z < e)) as [Hi|Ho]; [by apply Hin|]. destruct (Hout z Ho) as [->|Hbad]; [by apply Hb|lia].
  - intros _ Hall _. destruct (Hold Hall) as [_ ->]. right.
    by destruct (write_op_done c d a e (as_obj st) _ _ 0 data o' Hw Hid Hspec eq_refl) as (Hu & _).
Qed.

Lemma w_inv_sv live k off st w w' : cw_sv w' = cw_sv w → w_inv live k off st w → w_inv live k off st w'.
Proof. intros Hsv [Hf Ho Hc Hd Hu]. split; rewrite ?Hsv; done. Qed.

(** A write has been started. *)
Lemma w_inv_started k off e st st' w w' c d :
  w_inv True k off st w → (k < N)%nat → off < e →
  write_op (MkAsyncOp c d None) off e → (∀ id, objs w' id = objs w id) → same_handle (as_obj st) (as_obj st') →
  obj_io_ops st' = <[k := Some (MkAsyncOp c d None)]> (obj_io_ops st) →
  w_inv True (S k) e (MkAsync (obj_io_ops st') (obj_io_nr_ops_on_fly st + 1) (as_file st') (as_obj st')) w'.
Proof.
  intros [(Hfr & Hid & Hd) Hops Hcov Hdata Hupd] Hk He Hop Hobj (Hid' & Hsz' & Hd') Heq.
  assert (Hlen : (k < length (obj_io_ops st))%nat) by by rewrite (oo_len _ _ _ _ Hops).
  assert (Hother : ∀ j op, obj_io_ops st !! j = Some (Some op) → j ≠ k).
  { intros j op Hj ->. apply (oo_free _ _ _ _ Hops) in Hj. lia. }
  assert (Hnew : ∀ j op, obj_io_ops st !! j = Some (Some op) → obj_io_ops st' !! j = Some (Some op)).
  { intros j op Hj. rewrite Heq, list_lookup_insert_ne; [done|]. symmetry. by eapply Hother. }
  split.
  - split; [intros; by rewrite Hobj, Hfr|]. cbn [as_obj]. split; [congruence|by apply Hd'].
  - eapply ops_ok_started; [done|done| |exact Heq]. split; [by exists off, e|done].
  - intros z Hz. cbn [obj_io_ops]. destruct (decide (z < off)) as [Hlt|Hge].
    + destruct (Hcov z ltac:(lia)) as (j & op & a & b & Hj & Hr & Hin). exists j, op, a, b. split; [by apply Hnew|done].
    + exists k, (MkAsyncOp c d None), off, e. rewrite Heq, list_lookup_insert_eq by done. split; [done|]. split; [done|lia].
  - intros Hall. destruct Hdata as (vt & Hvt & Hvs & Hvp & Hsz & Hwr).
    { intros j op rc Hj. by apply (Hall j op rc), Hnew. }
    exists vt. rewrite Hobj. cbn [as_obj]. rewrite Hsz'. do 4 (split; [done|]). intros j op a b Hj Hr Hw. cbn [obj_io_ops as_obj] in *.
    rewrite Heq in Hj. apply list_lookup_insert_Some in Hj as [(-> & [= <-] & _)|[_ Hj]]; [done|]. rewrite Hsz'. by eapply Hwr.
  - intros _ _ _. left. exists k, (MkAsyncOp c d None). cbn [obj_io_ops]. rewrite Heq. by rewrite list_lookup_insert_eq.
Qed.

(** When all operations are complete and none has failed. *)
Lemma w_inv_finished live k st w :
  w_inv live k T st w → live → (0 < k)%nat → (∀ j, ¬ flight st j) → all_ok st → dest_inv f oid vt0 s0 T (as_obj st) w.
Proof.
  intros [_ Hops Hcov Hdata Hupd] Hl Hk Hno Hall. destruct (Hdata Hall) as (vt & Hvt & Hvs & Hvp & Hmsz & Hwr).
  assert (Hdone : ∀ j op, obj_io_ops st !! j = Some (Some op) → ao_rc op = Some 0).
  { intros j op Hj. destruct (ao_rc op) as [r|] eqn:Er; [by rewrite (Hall j op r Hj Er)|]. exfalso. apply (Hno j). by exists op. }
  assert (Hbytes : ∀ z, 0 <= z < T → z < moa_size (mo_attrs (as_obj st)) ∧ ov_bytes vt z = f z).
  { intros z Hz. destruct (Hcov z Hz) as (j & op & a & e & Hj & Hop & Hin).
    destruct (Hwr j op a e Hj (Hdone j op Hj) Hop) as [Hle Hb]. split; [lia|by apply Hb]. }
  exists vt. do 3 (split; [done|]). split; [intros z Hz; by apply Hbytes|]. split.
  - intros _. destruct (Hupd Hl Hall Hk) as [[j Hj]|Hu]; [by destruct (Hno j)|done].
  - rewrite (proj2 (Z.ltb_lt 0 T)) by lia. destruct (Hbytes (T - 1)) as [? _]; [lia|]. lia.
Qed.

(** ** The loop *)
Section Loop.
Context (bs size cap c0 : Z) (sched : nat → list nat).
Context (Hbs : 0 < bs) (Hsize : 0 < size) (Hfit : size + 121 * bs < 2 ^ 64) (Hcap : 0 < cap <= 120).
Context (Hc0 : 0 < c0) (HTs : T = Z.min (c0 * bs) size) (HN : Z.of_nat N = (c0 + cap - 1) / cap).

Definition w_loop (off : Z) (x : option (list Z) * async_st) (w : cmd_world) : Prop :=
  x.1 = Some (fbytes f off (size - off)) ∧ ∃ k, off = Z.min (Z.of_nat k * cap * bs) T ∧ w_inv True k off x.2 w.

Definition w_err (rc : Z) (x : option (list Z) * async_st) (w : cmd_world) : Prop :=
  rc < 0 ∧ (∃ rest, x.1 = Some rest) ∧ ∃ k off, w_inv False k off x.2 w.

Lemma write_async_body_correct li n x w :
  0 <= li → 0 < n <= cap → li + (n - 1) * bs < size → (∃ c, n = Z.min cap c ∧ li + c * bs = c0 * bs) → w_loop li x w →
  ∃ rc b x' w', write_async_body false sched (block_batch bs size li n) x w = Done (rc, b, x', w') ∧
    if b : bool then rc = 0 ∧ w_loop (batch_end bs size li n) x' w' else w_err rc x' w'.
Proof.
  intros Hli Hn Hlast Htop [Hfp (k & Hk & Hinv)].
  destruct (obj_alloc_iovecs_spec bs size Hbs Hsize Hfit li n [] Hli ltac:(lia) Hlast) as (Hc & Hlen & _).
  destruct (batch_place T N bs size cap c0 Hbs Hcap HTs HN li n k Hli (proj1 Hn) Hlast Htop Hk) as (HkN & Hend & [Hlt HeT] & Hle).
  destruct x as [fp st]. unfold write_async_body. cbn [fst snd] in *. subst fp.
  set (e := batch_end bs size li n) in *. set (b := block_batch bs size li n) in *.
  replace (size - li) with ((e - li) + (size - e)) by lia. rewrite fbytes_app by lia.
  replace (li + (e - li)) with e by lia. unfold obj_read_data_from_file.
  rewrite (fread_vecs_chain b f li _ e _ Hc). cbn [mbind outcome_bind]. rewrite Z.eqb_refl. cbn [negb].
  unfold obj_write_async. cbn [ci_vecs]. rewrite (write_data_chain (MkCmdIovecs (filled f (ci_vecs b)) (ci_size b)) f li _ e Hc).
  cbn [mbind outcome_bind]. rewrite (oo_count _ _ _ _ (wi_ops _ _ _ _ _ Hinv)).
  set (c := CallWrite (chain_data f (ci_vecs b))).
  destruct (obj_rw_async_spec c (MkCmdIovecs (filled f (ci_vecs b)) (ci_size b)) k st w I)
    as (rc & st1 & w1 & -> & Hrc & Hobj & Hsame & _ & Hcnt & Hops'); [by rewrite (oo_len _ _ _ _ (wi_ops _ _ _ _ _ Hinv))|].
  cbn [mbind outcome_bind]. destruct (Z.eqb_spec rc 0) as [->|Hne]; cbn [negb].
  - unfold async_launched.
    assert (Hinv1 : w_inv True (S k) e (MkAsync (obj_io_ops st1) (obj_io_nr_ops_on_fly st + 1) (as_file st1) (as_obj st1)) w1).
    { eapply w_inv_started; [done|done|done| |done|done|done]. split; [lia|]. split; [done|].
      exists (ci_vecs b), (ci_size b). done. }
    rewrite Hcnt. destruct (async_run_spec (w_inv True (S k) e) (write_complete True (S k) e)
      (sched (Z.to_nat (obj_io_nr_ops_on_fly st))) _ _ Hinv1) as (st2 & w2 & -> & Hinv2 & _).
    cbn [mbind outcome_bind]. eexists _, _, _, _. split; [done|]. split; [done|]. split; [done|]. exists (S k). done.
  - eexists _, _, _, _. split; [done|]. split; [lia|]. split; [by eexists|]. exists k, li. cbn [snd].
    destruct Hinv as [(Hfr & Hid & Hd) Hops Hcov Hdata _], Hsame as (Hid1 & Hsz1 & Hd1). split.
    + split; [intros; by rewrite Hobj, Hfr|]. split; [congruence|by apply Hd1].
    + destruct Hops as [H1 H2 H3 H4 H5]. split; rewrite ?Hops'; try done. congruence.
    + by rewrite Hops'.
    + unfold all_ok, written_ops. rewrite Hops', Hsz1, Hobj. exact Hdata.
    + done.
Qed.

(** The loop, and the wait until all operations are complete. *)
Lemma write_async_run last fuel st w x0 :
  x0 = Some (fbytes f 0 size) → (c0 - 1) * bs < size → (Z.to_nat c0 < fuel)%nat →
  (∀ j, (j < N)%nat → j ∈ last) → w_inv True 0 0 st w →
  ∃ rc fp st1 w1 st2 w2, batches_loop (write_async_body false sched) cap bs size fuel 0 c0 0 (x0, st) w = Done (rc, (Some fp, st1), w1) ∧
    obj_wait_on_all_ops false last st1 w1 = Done (st2, w2) ∧ rc <= 0 ∧
    ((∀ id, id ≠ oid → objs w2 id = a0 id) ∧ mo_id (as_obj st2) = oid ∧ mo_drv_obj (as_obj st2) ≠ None) ∧
    (rc = 0 → all_ok st2 → dest_inv f oid vt0 s0 T (as_obj st2) w2).
Proof.
  intros -> Hlast Hfuel Hall Hinv0. assert (0 <= (c0 - 1) * bs) by (apply Z.mul_nonneg_nonneg; lia).
  destruct (batches_loop_correct (write_async_body false sched) bs size Hbs Hsize Hfit w_loop w_err) with
    (cap := cap) (top := c0 * bs) (fuel := fuel) (c := c0) (li := 0) (x := (Some (fbytes f 0 size), st)) (w := w)
    as (rc & [fp st1] & w1 & -> & Hend); try lia.
  - intros off x1 w' p [Hx (k & Hk & HI)]. split; [done|]. exists k. split; [done|]. eapply w_inv_sv; [|exact HI]. done.
  - intros off x1 w' rc' [Hx (k & Hk & HI)] Hrc'. split; [done|]. split; [by eexists|]. exists k, off.
    destruct HI. by split.
  - intros. by apply write_async_body_correct.
  - rewrite Z.min_l by lia. split; [by rewrite Z.sub_0_r|]. exists 0%nat. split; [lia|done].
  - assert (Hfin : ∃ live k off, w_inv live k off st1 w1 ∧ (∃ rest, fp = Some rest) ∧ rc <= 0 ∧
        (rc = 0 → live ∧ (0 < k)%nat ∧ off = T)).
    { destruct Hend as [[-> [Hx (k & Hk & HI)]]|(Hneg & Hrest & k & off & HI)].
      - exists True, k, T. rewrite Z.add_0_l, <- HTs in HI, Hk. split; [done|]. split; [by eexists|]. split; [done|].
        intros _. split; [done|]. split; [|done]. destruct k; [simpl in Hk; lia|lia].
      - exists False, k, off. split; [done|]. split; [done|]. split; [lia|]. lia. }
    destruct Hfin as (live & k & off & HI & [rest ->] & Hrc0 & Hlive).
    destruct (obj_wait_on_all_ops_spec (w_inv live k off) (write_complete live k off) last st1 w1 HI)
      as (st' & w2 & Hwait & HI' & Hno).
    { intros j (op & Hj & _). apply Hall. apply lookup_lt_Some in Hj. by rewrite (oo_len _ _ _ _ (wi_ops _ _ _ _ _ HI)) in Hj. }
    eexists _, _, _, _, _, _. split; [done|]. split; [exact Hwait|]. split; [done|]. split; [exact (wi_frame _ _ _ _ _ HI')|].
    intros -> Hallok. destruct (Hlive eq_refl) as (Hl & Hk & ->). exact (w_inv_finished live k st' w2 HI' Hl Hk Hno Hallok).
Qed.
End Loop.
End Write.

Lemma ops_count c step : 0 < c → 0 < step → 0 <= (c + step - 1) / step <= c.
Proof.
  intros Hc Hs. split; [apply Z.div_pos; lia|]. apply Z.div_le_upper_bound; [lia|].
  assert (0 <= (c - 1) * (step - 1)) by (apply Z.mul_nonneg_nonneg; lia). lia.
Qed.

Lemma ops_number c step : 0 < c → 0 < step →
  ∃ N, Z.to_nat ((c + step - 1) / step) = N ∧ Z.of_nat N = (c + step - 1) / step ∧ Z.of_nat N <= c.
Proof. intros Hc Hs. pose proof (ops_count c step Hc Hs). eexists. split; [done|]. lia. Qed.

Lemma obj_io_async_init_spec c step fp o p :
  0 < c < 2 ^ 31 → 0 < step <= 120 →
  ∃ rc st p', obj_io_async_init c step fp o p = Done (rc, st, p') ∧ as_file st = fp ∧ as_obj st = o ∧
    (rc < 0 ∧ obj_io_ops st = [] ∨
     rc = 0 ∧ obj_io_nr_ops_on_fly st = 0 ∧ obj_io_ops st = replicate (Z.to_nat ((c + step - 1) / step)) None).
Proof.
  intros Hc Hs. unfold obj_io_async_init. rewrite (proj2 (Z.eqb_neq step 0)) by lia.
  rewrite (s32_small c), (u64_small c), (u64_small (c + step)), (u64_small (c + step - 1)) by lia.
  pose proof (ops_count c step ltac:(lia) ltac:(lia)).
  rewrite s32_small by lia. destruct (plan_next p) as [ok p'].
  rewrite (proj2 (Z.ltb_ge ((c + step - 1) / step) 0)) by lia. rewrite orb_false_r. destruct ok; cbn [negb].
  - eexists _, _, _. split; [done|]. split_and!; [done..|]. by right.
  - eexists _, _, _. split; [done|]. split_and!; [done..|]. left. split; [unfold ENOMEM; lia|done].
Qed.

Lemma async_max_blocks_small step : 0 < step <= 120 → async_max_blocks step = step.
Proof. intros Hs. unfold async_max_blocks, MIO_CMD_MAX_BLOCK_COUNT_PER_OP. by rewrite (proj2 (Z.ltb_ge _ _)) by lia. Qed.

(** Nothing has been started. *)
Lemma ops_ok_init N P fp o : ops_ok N 0 P (MkAsync (replicate N None) 0 fp o).
Proof.
  split; cbn [obj_io_ops obj_io_nr_ops_on_fly].
  - apply length_replicate.
  - done.
  - intros j op Hj. by apply lookup_replicate in Hj as [? _].
  - intros j Hj. lia.
  - intros j op Hj. by apply lookup_replicate in Hj as [? _].
Qed.


(** ** Reading *)

Lemma chain_det sz a l e a' e' : chain sz a l e → chain sz a' l e' → l ≠ [] → a = a' ∧ e = e'.
Proof.
  intros Hc Hc' Hne. destruct l as [|v l]; [done|]. clear Hne. revert a a' v Hc Hc'.
  induction l as [|u l IH]; intros a a' v (Ho & _ & _ & _ & Hc) (Ho' & _ & _ & _ & Hc').
  - simpl in Hc, Hc'. lia.
  - destruct (IH (a + ci_len v) (a' + ci_len v) u Hc Hc'). lia.
Qed.

Section Read.
Context `{HostOrder} `{ObjService}.
Abbreviation objs w := (sv_objects (cw_sv w)).
Context (oid : mio_obj_id) (a0 : obj_views) (v : obj_view) (Hv : a0 oid = Some v) (T : Z) (N : nat) (HT : 0 < T < 2 ^ 64).

(** The operation reads the bytes from [a] to [e]. *)
Definition read_op (op : async_op) (a e : Z) : Prop :=
  0 <= a < e ∧ e <= T ∧ ∃ l sz, chain sz a l e ∧ ao_call op = CallRead (iov_ranges l) ∧ ao_iovecs op = MkCmdIovecs l sz.

Definition read_op_ok (j : nat) (op : async_op) : Prop :=
  (∃ a e, read_op op a e) ∧ ∀ rc, ao_rc op = Some rc → rc <= 0.

(** The file has the bytes of the operations that are complete. *)
Definition file_ok (st : async_st) (bytes : list Z) : Prop :=
  Z.of_nat (length bytes) <= T ∧
  ∀ j op a e z, obj_io_ops st !! j = Some (Some op) → ao_rc op = Some 0 → read_op op a e → a <= z < e →
    bytes !! Z.to_nat z = Some (ov_bytes v z).

Record r_inv (k : nat) (off : Z) (st : async_st) (w : cmd_world) : Prop := {
  ai_frame : (∀ id, objs w id = a0 id) ∧ mo_id (as_obj st) = oid ∧ mo_drv_obj (as_obj st) ≠ None ∧
    moa_size (mo_attrs (as_obj st)) = ov_size v;
  ai_ops : ops_ok N k read_op_ok st;
  ai_cover : ∀ z, 0 <= z < off → ∃ j op a e, obj_io_ops st !! j = Some (Some op) ∧ read_op op a e ∧ a <= z < e;
  ai_file : ∃ bytes p, as_file st = Some (MkOutFile bytes p) ∧ Forall (λ b, b = true) p ∧ file_ok st bytes
}.

Lemma read_op_det op a e a' e' : read_op op a e → read_op op a' e' → a = a' ∧ e = e'.
Proof.
  intros (Ha & _ & l & sz & Hc & _ & Hl) (Ha' & _ & l' & sz' & Hc' & _ & Hl'). rewrite Hl in Hl'. injection Hl' as <- <-.
  apply (chain_det sz _ l _ _ _ Hc Hc'). intros ->. simpl in Hc. lia.
Qed.

Lemma r_inv_done k off st w c d rc f' o' s' i bytes p :
  r_inv k off st w → obj_io_ops st !! i = Some (Some (MkAsyncOp c d None)) → rc <= 0 →
  (∀ id, sv_objects s' id = objs w id) → same_handle (as_obj st) o' →
  f' = Some (MkOutFile bytes p) → Forall (λ b, b = true) p → Z.of_nat (length bytes) <= T →
  (∀ bytes0 p0, as_file st = Some (MkOutFile bytes0 p0) →
     ∀ z x, 0 <= z → bytes0 !! Z.to_nat z = Some x → x = ov_bytes v z → bytes !! Z.to_nat z = Some x) →
  (rc = 0 → ∀ a e z, read_op (MkAsyncOp c d None) a e → a <= z < e → bytes !! Z.to_nat z = Some (ov_bytes v z)) →
  ∀ w', cw_sv w' = s' →
  r_inv k off (MkAsync (<[i := Some (MkAsyncOp c d (Some rc))]> (obj_io_ops st)) (obj_io_nr_ops_on_fly st) f' o') w'.
Proof.
  intros [(Hfr & Hid & Hd & Hsz) Hops Hcov (bytes0 & p0 & Hf0 & Hp0 & Hlen0 & Hdone0)] Hi Hrc Hobj (Hid' & Hsz' & Hd')
    -> Hp Hlen Hold Hnew w' <-.
  split.
  - split; [intros; by rewrite Hobj, Hfr|]. cbn [as_obj]. split_and!; [congruence|by apply Hd'|congruence].
  - apply ops_ok_done; [done|done|]. destruct (oo_ops _ _ _ _ Hops i _ Hi) as [Hr _]. split; [exact Hr|]. by intros r [= <-].
  - intros z Hz. destruct (Hcov z Hz) as (j & op & a1 & e1 & Hj & Hop & Hin). destruct (decide (j = i)) as [->|Hne].
    + exists i, (MkAsyncOp c d (Some rc)), a1, e1. rewrite Hi in Hj. injection Hj as <-. cbn.
      rewrite list_lookup_insert_eq by (by eapply lookup_lt_Some). done.
    + exists j, op, a1, e1. cbn. by rewrite list_lookup_insert_ne by done.
  - exists bytes, p. split; [done|]. split; [done|]. split; [done|]. intros j op a e z Hj Hr Hop Hz. cbn [obj_io_ops] in Hj.
    apply list_lookup_insert_Some in Hj as [(-> & [= <-] & _)|[_ Hj]].
    + cbn in Hr. injection Hr as ->. by eapply Hnew.
    + assert (0 <= a) by (destruct Hop; lia). eapply (Hold _ _ Hf0); [lia| |done]. by eapply Hdone0.
Qed.

Lemma read_complete k off i st w : r_inv k off st w →
  ∃ st' w', async_complete false i st w = Done (st', w') ∧ r_inv k off st' w' ∧ ∀ j, flight st' j → flight st j ∧ j ≠ i.
Proof.
  intros Hinv. unfold async_complete.
  assert (Hsame : (∀ c d, obj_io_ops st !! i ≠ Some (Some (MkAsyncOp c d None))) →
    ∃ st' w', Done (st, w) = Done (st', w') ∧ r_inv k off st' w' ∧ ∀ j, flight st' j → flight st j ∧ j ≠ i).
  { intros Hno. exists st, w. split; [done|]. split; [done|]. intros j Hj. split; [done|]. intros ->.
    destruct Hj as ([c d r] & Hj & Hr). cbn in Hr. subst r. by apply (Hno c d). }
  destruct (obj_io_ops st !! i) as [[[c d [r|]]|]|] eqn:Ei; [by apply Hsame| |by apply Hsame..]. clear Hsame.
  destruct (oo_ops _ _ _ _ (ai_ops _ _ _ _ Hinv) i _ Ei) as [(a & e & Hop) _].
  destruct (ai_frame _ _ _ _ Hinv) as (Hfr & Hid & _). destruct (ai_file _ _ _ _ Hinv) as (bytes & p & Hf & Hp & Hlen & _).
  pose proof Hop as ((Ha & Hae) & He & l & sz & Hc & Hcall & Hvecs). cbn in Hcall, Hvecs. subst c d.
  unfold mio_cmd_wait_on_op. destruct (sv_wait _ (as_obj st) (cw_sv w)) as [[[rc data] o'] s'] eqn:Ew.
  apply sv_wait_ok in Ew as (Hrc & Hfr' & Hsame & Hb & Hshort & Hok). cbn [call_target] in Hfr'.
  assert (Hobjs : ∀ id, sv_objects s' id = objs w id).
  { intros id. destruct (decide (id = mo_id (as_obj st))) as [->|Hne]; [done|by rewrite Hfr']. }
  assert (Hflight : ∀ f' j, flight (MkAsync (<[i := Some (MkAsyncOp (CallRead (iov_ranges l)) (MkCmdIovecs l sz) (Some rc))]>
      (obj_io_ops st)) (obj_io_nr_ops_on_fly st) f' o') j → flight st j ∧ j ≠ i) by (intros f' j Hj; eapply (flight_done st i); [|exact Hj]; done).
  cbn [ci_vecs ci_size]. unfold obj_read_cb. destruct (Z.eqb_spec rc 0) as [->|Hne].
  - destruct (Hok eq_refl) as (v' & Hv' & ->); [apply (chain_vecs_ok sz a l e Ha ltac:(lia) Hc)|].
    assert (v' = v) as -> by (rewrite Hid, Hfr in Hv'; congruence).
    pose proof (store_data_chain (MkCmdIovecs l sz) (ov_bytes v) a l e Hc) as Hst.
    change ((λ v', view_bytes v v'.1 v'.2) <$> iov_ranges l) with ((λ u, fbytes (ov_bytes v) u.1 u.2) <$> iov_ranges l).
    rewrite Hst. cbn [mbind outcome_bind]. unfold obj_write_data_to_file. cbn [as_file set_as_op set_as_obj]. rewrite Hf.
    cbn [ci_vecs of_bytes of_plan].
    assert (Hpos : match filled (ov_bytes v) l with v :: _ => Done (ci_off v) | [] => Fault OutOfBounds end = Done a).
    { destruct l as [|u l']; [simpl in Hc; lia|]. destruct Hc as [Ho _]. simpl. by rewrite Ho. }
    rewrite Hpos. cbn [mbind outcome_bind].
    destruct (fwrite_vecs_at (MkCmdIovecs (filled (ov_bytes v) l) sz) (ov_bytes v) a l e bytes p Ha Hc Hp)
      as (bytes' & p' & -> & Hp' & _ & Hlen' & Hin & Hout). cbn [mbind outcome_bind].
    eexists _, _. split; [done|]. split; [|apply Hflight].
    eapply (r_inv_done k off st w _ _ 0 (Some (MkOutFile bytes' p')) o' s' i bytes' p'); try done.
    + lia.
    + intros bytes0 p0 Hf0 z x Hz Hx Hxv. rewrite Hf in Hf0. injection Hf0 as <- <-.
      destruct (decide (a <= z < e)) as [Hi|Ho]; [rewrite Hin by done; by rewrite Hxv|by apply Hout].
    + intros _ a1 e1 z Hop1 Hz. destruct (read_op_det _ _ _ _ _ Hop Hop1) as [<- <-]. by apply Hin.
  - destruct (store_data_short (MkCmdIovecs l sz) a l e data Hc Hshort) as [l' ->]. cbn [mbind outcome_bind].
    eexists _, _. split; [done|]. split; [|apply Hflight].
    eapply (r_inv_done k off st w _ _ rc (as_file st) o' s' i bytes p); try done.
    intros bytes0 p0 Hf0 z x Hz Hx _. rewrite Hf in Hf0. by injection Hf0 as <- <-.
Qed.

Lemma r_inv_sv k off st w w' : cw_sv w' = cw_sv w → r_inv k off st w → r_inv k off st w'.
Proof. intros Hsv [Hf Ho Hc Hfi]. split; rewrite ?Hsv; done. Qed.

(** A read has been started. *)
Lemma r_inv_started k off e st st' w w' c d :
  r_inv k off st w → (k < N)%nat → off < e →
  read_op (MkAsyncOp c d None) off e → (∀ id, objs w' id = objs w id) → same_handle (as_obj st) (as_obj st') →
  as_file st' = as_file st → obj_io_ops st' = <[k := Some (MkAsyncOp c d None)]> (obj_io_ops st) →
  r_inv (S k) e (MkAsync (obj_io_ops st') (obj_io_nr_ops_on_fly st + 1) (as_file st') (as_obj st')) w'.
Proof.
  intros [(Hfr & Hid & Hd & Hsz) Hops Hcov (bytes & p & Hf & Hp & Hlen & Hdone)] Hk He Hop Hobj (Hid' & Hsz' & Hd') Hfl Heq.
  assert (Hl : (k < length (obj_io_ops st))%nat) by by rewrite (oo_len _ _ _ _ Hops).
  assert (Hother : ∀ j op, obj_io_ops st !! j = Some (Some op) → j ≠ k).
  { intros j op Hj ->. apply (oo_free _ _ _ _ Hops) in Hj. lia. }
  split.
  - split; [intros; by rewrite Hobj, Hfr|]. cbn [as_obj]. split_and!; [congruence|by apply Hd'|congruence].
  - eapply ops_ok_started; [done|done| |exact Heq]. split; [by exists off, e|done].
  - intros z Hz. cbn [obj_io_ops]. rewrite Heq. destruct (decide (z < off)) as [Hlt|Hge].
    + destruct (Hcov z ltac:(lia)) as (j & op & a & b & Hj & Hr & Hin). exists j, op, a, b.
      rewrite list_lookup_insert_ne by (symmetry; by eapply Hother). done.
    + exists k, (MkAsyncOp c d None), off, e. rewrite list_lookup_insert_eq by done. split; [done|]. split; [done|lia].
  - exists bytes, p. cbn [as_file]. split; [congruence|]. split; [done|]. split; [done|].
    intros j op a b z Hj Hr Hw Hz. cbn [obj_io_ops] in Hj. rewrite Heq in Hj.
    apply list_lookup_insert_Some in Hj as [(-> & [= <-] & _)|[_ Hj]]; [done|]. by eapply Hdone.
Qed.

(** When all operations are complete and none has failed. *)
Lemma r_inv_finished k st w :
  r_inv k T st w → (∀ j, ¬ flight st j) → all_ok st → of_bytes <$> as_file st = Some (fbytes (ov_bytes v) 0 T).
Proof.
  intros [_ Hops Hcov (bytes & p & -> & _ & Hlen & Hdone)] Hno Hall.
  assert (Hbytes : ∀ z, 0 <= z < T → bytes !! Z.to_nat z = Some (ov_bytes v z)).
  { intros z Hz. destruct (Hcov z Hz) as (j & op & a & e & Hj & Hop & Hin).
    apply (Hdone j op a e z Hj); [|done|done]. destruct (ao_rc op) as [r|] eqn:Er; [by rewrite (Hall j op r Hj Er)|].
    exfalso. apply (Hno j). by exists op. }
  cbn [fmap option_fmap option_map of_bytes]. f_equal. apply list_eq. intros i.
  destruct (decide (Z.of_nat i < T)) as [Hi|Hi].
  - rewrite <- (Nat2Z.id i). rewrite Hbytes, fbytes_lookup by lia. done.
  - rewrite !lookup_ge_None_2; [done|rewrite length_fbytes; lia|lia].
Qed.

Section Loop.
Context (bs size cap c0 : Z) (sched : nat → list nat).
Context (Hbs : 0 < bs) (Hsize : 0 < size) (Hfit : size + 121 * bs < 2 ^ 64) (Hcap : 0 < cap <= 120).
Context (Hc0 : 0 < c0) (HTs : T = Z.min (c0 * bs) size) (HN : Z.of_nat N = (c0 + cap - 1) / cap).

Definition r_loop (off : Z) (st : async_st) (w : cmd_world) : Prop :=
  ∃ k, off = Z.min (Z.of_nat k * cap * bs) T ∧ r_inv k off st w.

Definition r_err (rc : Z) (st : async_st) (w : cmd_world) : Prop := rc < 0 ∧ ∃ k off, r_inv k off st w.

Lemma read_async_body_correct li n st w :
  0 <= li → 0 < n <= cap → li + (n - 1) * bs < size → (∃ c, n = Z.min cap c ∧ li + c * bs = c0 * bs) → r_loop li st w →
  ∃ rc b st' w', read_async_body false sched (block_batch bs size li n) st w = Done (rc, b, st', w') ∧
    if b : bool then rc = 0 ∧ r_loop (batch_end bs size li n) st' w' else r_err rc st' w'.
Proof.
  intros Hli Hn Hlast Htop (k & Hk & Hinv).
  destruct (obj_alloc_iovecs_spec bs size Hbs Hsize Hfit li n [] Hli ltac:(lia) Hlast) as (Hc & Hlen & _).
  destruct (batch_place T N bs size cap c0 Hbs Hcap HTs HN li n k Hli (proj1 Hn) Hlast Htop Hk) as (HkN & Hend & [Hlt HeT] & Hle).
  set (e := batch_end bs size li n) in *. set (b := block_batch bs size li n) in *.
  unfold read_async_body, obj_read_async. rewrite (oo_count _ _ _ _ (ai_ops _ _ _ _ Hinv)).
  set (c := CallRead ((λ v, (ci_off v, ci_len v)) <$> ci_vecs b)).
  destruct (obj_rw_async_spec c b k st w I) as (rc & st1 & w1 & -> & Hrc & Hobj & Hsame & Hfl & Hcnt & Hops');
    [by rewrite (oo_len _ _ _ _ (ai_ops _ _ _ _ Hinv))|].
  cbn [mbind outcome_bind]. destruct (Z.eqb_spec rc 0) as [->|Hne]; cbn [negb].
  - unfold async_launched. rewrite Hcnt.
    assert (Hinv1 : r_inv (S k) e (MkAsync (obj_io_ops st1) (obj_io_nr_ops_on_fly st + 1) (as_file st1) (as_obj st1)) w1).
    { eapply r_inv_started; [done|done|done| |done|done|done|done]. split; [lia|]. split; [done|].
      exists (ci_vecs b), (ci_size b). done. }
    destruct (async_run_spec (r_inv (S k) e) (read_complete (S k) e)
      (sched (Z.to_nat (obj_io_nr_ops_on_fly st))) _ _ Hinv1) as (st2 & w2 & -> & Hinv2 & _).
    cbn [mbind outcome_bind]. eexists _, _, _, _. split; [done|]. split; [done|]. by exists (S k).
  - eexists _, _, _, _. split; [done|]. split; [lia|]. exists k, li.
    destruct Hinv as [(Hfr & Hid & Hd & Hsz) Hops Hcov (bytes & p & Hf & Hp & Hok)], Hsame as (Hid1 & Hsz1 & Hd1). split.
    + split; [intros; by rewrite Hobj, Hfr|]. split_and!; [congruence|by apply Hd1|congruence].
    + destruct Hops as [H1 H2 H3 H4 H5]. split; rewrite ?Hops'; try done. congruence.
    + by rewrite Hops'.
    + exists bytes, p. split; [congruence|]. split; [done|]. unfold file_ok in *. by rewrite Hops'.
Qed.

Lemma read_async_run last fuel st w :
  (c0 - 1) * bs < size → (Z.to_nat c0 < fuel)%nat → (∀ j, (j < N)%nat → j ∈ last) → r_inv 0 0 st w →
  ∃ rc st1 w1 st2 w2, batches_loop (read_async_body false sched) cap bs size fuel 0 c0 0 st w = Done (rc, st1, w1) ∧
    obj_wait_on_all_ops false last st1 w1 = Done (st2, w2) ∧ rc <= 0 ∧
    ((∀ id, objs w2 id = a0 id) ∧ mo_id (as_obj st2) = oid ∧ mo_drv_obj (as_obj st2) ≠ None ∧
       moa_size (mo_attrs (as_obj st2)) = ov_size v) ∧
    is_Some (as_file st2) ∧
    (rc = 0 → all_ok st2 → of_bytes <$> as_file st2 = Some (fbytes (ov_bytes v) 0 T)).
Proof.
  intros Hlast Hfuel Hall Hinv0. assert (0 <= (c0 - 1) * bs) by (apply Z.mul_nonneg_nonneg; lia).
  destruct (batches_loop_correct (read_async_body false sched) bs size Hbs Hsize Hfit r_loop r_err) with
    (cap := cap) (top := c0 * bs) (fuel := fuel) (c := c0) (li := 0) (x := st) (w := w)
    as (rc & st1 & w1 & -> & Hend); try lia.
  - intros off x1 w' p1 (k & Hk & HI). exists k. split; [done|]. eapply r_inv_sv; [|exact HI]. done.
  - intros off x1 w' rc' (k & Hk & HI) Hrc'. split; [done|]. by exists k, off.
  - intros. by apply read_async_body_correct.
  - rewrite Z.min_l by lia. exists 0%nat. split; [lia|done].
  - assert (Hfin : ∃ k off, r_inv k off st1 w1 ∧ rc <= 0 ∧ (rc = 0 → off = T)).
    { destruct Hend as [[-> (k & Hk & HI)]|(Hneg & k & off & HI)].
      - exists k, T. by rewrite Z.add_0_l, <- HTs in HI.
      - exists k, off. split; [done|]. lia. }
    destruct Hfin as (k & off & HI & Hrc0 & Hoff).
    destruct (obj_wait_on_all_ops_spec (r_inv k off) (read_complete k off) last st1 w1 HI) as (st' & w2 & Hwait & HI' & Hno).
    { intros j (op & Hj & _). apply Hall. apply lookup_lt_Some in Hj. by rewrite (oo_len _ _ _ _ (ai_ops _ _ _ _ HI)) in Hj. }
    eexists _, _, _, _, _. split; [done|]. split; [exact Hwait|]. split; [done|]. split; [exact (ai_frame _ _ _ _ HI')|].
    split; [destruct (ai_file _ _ _ _ HI') as (bytes & p & Hf & _); by exists (MkOutFile bytes p)|].
    intros -> Hallok. rewrite (Hoff eq_refl) in HI'. exact (r_inv_finished k st' w2 HI' Hno Hallok).
Qed.
End Loop.
End Read.

(** Reading an object to a file in the same way: no object changes, and if the result
    is 0, no operation has failed and the file can be written, the file consists of the
    first blocks of the object, in whatever order the callbacks wrote them. *)
Theorem mio_cmd_obj_read_async_correct `{HostOrder} `{ObjService} (sched : nat → list nat) (last : list nat)
    (fuel : nat) (oid : mio_obj_id) (p : mplan) (bs count step : Z) (w : cmd_world) (v : obj_view)
  (Hbs : 0 < bs) (Hv : sv_objects (cw_sv w) oid = Some v) (Hsize : 0 < ov_size v) (Hfit : ov_size v + 121 * bs < 2 ^ 64)
  (Hcount : 0 < count < 2 ^ 31) (Hstep : 0 < step <= 120) (Hlast : ∀ j, Z.of_nat j < count → j ∈ last)
  (Hp : Forall (λ b, b = true) p) (Hfuel : (blocks_fuel (ov_size v) bs < fuel)%nat) :
  ∃ rc results fp w', mio_cmd_obj_read_async false sched last fuel oid (Some (FopenWOk p)) bs count step w =
      Done (rc, results, fp, w') ∧ rc <= 0 ∧
    (∀ id, sv_objects (cw_sv w') id = sv_objects (cw_sv w) id) ∧
    (rc = 0 → Forall (λ rc, rc = 0) results →
       of_bytes <$> fp = Some (fbytes (ov_bytes v) 0 (Z.min (count * bs) (ov_size v)))).
Proof.
  unfold mio_cmd_obj_read_async, obj_read_init.
  destruct (obj_open oid obj_zero w) as [[rc o] w1] eqn:E1.
  apply cmd_open_spec in E1 as (Hrc & Hobj1 & _ & _ & Hok & _).
  destruct (Z.ltb_spec rc 0) as [Hlt|Hge]; cbn [mbind outcome_bind fclose].
  { rewrite (proj2 (Z.ltb_lt rc 0)) by lia. eexists _, _, _, _. split; [done|]. do 2 (split; [done|]). lia. }
  destruct (Hok ltac:(lia)) as (v' & Hv' & Hid & Hd & Hsz). assert (v' = v) as -> by congruence. rewrite Hsz.
  destruct (clip_blocks_spec (ov_size v) bs count fuel Hbs Hsize Hfit (proj1 Hcount) Hfuel) as (m & -> & Hn & HTe & Hlb & Hfu).
  cbn [mbind outcome_bind]. change (0 <? 0) with false. cbv iota. set (n := if m <? count then m else count) in *.
  set (T := Z.min (count * bs) (ov_size v)) in *.
  assert (HT : 0 < T < 2 ^ 64) by (unfold T; assert (0 < count * bs) by (apply Z.mul_pos_pos; lia); lia).
  destruct (obj_io_async_init_spec n step (Some (MkOutFile [] p)) o (cw_plan w1))
    as (rc0 & st0 & p0 & -> & Hfile0 & Hobj0 & Hinit); [lia|done|].
  cbn [mbind outcome_bind]. destruct Hinit as [[Hneg Hnil]|(-> & Hcnt0 & Hops0)].
  { rewrite (proj2 (Z.ltb_lt rc0 0)) by lia. cbn [mbind outcome_bind]. rewrite Hobj0, Hfile0.
    destruct (cmd_close_same o (set_cw_plan p0 w1) v Hd) as (w2 & -> & Hfr2); [by rewrite Hid; cbn; rewrite Hobj1|done|].
    cbn [mbind outcome_bind fclose]. eexists _, _, _, _. split; [done|]. split; [lia|].
    split; [intros id; rewrite Hfr2; apply Hobj1|lia]. }
  change (0 <? 0) with false. cbv iota. destruct (ops_number n step ltac:(lia) ltac:(lia)) as (N & HNe & HNz & HNn).
  rewrite HNe in Hops0.
  assert (Hinv0 : r_inv oid (sv_objects (cw_sv w)) v T N 0 0 st0 (set_cw_plan p0 w1)).
  { destruct st0 as [ops cnt fl o0]. cbn in Hfile0, Hobj0, Hcnt0, Hops0. subst. split.
    - by split_and!.
    - apply ops_ok_init.
    - lia.
    - exists [], p. do 2 (split; [done|]). split; [simpl; lia|]. intros j op a e z Hj. cbn in Hj.
      by apply lookup_replicate in Hj as [? _]. }
  rewrite async_max_blocks_small by done.
  destruct (read_async_run oid (sv_objects (cw_sv w)) v Hv T N HT bs (ov_size v) step n sched Hbs Hsize Hfit Hstep
    ltac:(lia) (eq_sym HTe) HNz last fuel st0 (set_cw_plan p0 w1))
    as (rc0 & st1 & w2 & st2 & w3 & -> & Hwait & Hrc0 & (Hfr' & Hid' & Hd' & Hsz') & [file Hfile] & Hfin); try done; try lia.
  { intros j Hj. apply Hlast. lia. }
  cbn [mbind outcome_bind]. rewrite Hwait. cbn [mbind outcome_bind].
  destruct (cmd_close_same (as_obj st2) (obj_io_async_fini st2 w3) v Hd') as (w5 & -> & Hfr5);
    [by rewrite Hid'; cbn; rewrite Hfr'|done|].
  cbn [mbind outcome_bind]. rewrite Hfile. cbn [fclose mbind outcome_bind]. eexists _, _, _, _. split; [done|]. split; [done|].
  split; [intros id; rewrite Hfr5; apply Hfr'|]. intros Hr0 Hres. rewrite <- Hfile. by apply Hfin, all_ok_results.
Qed.

(** ** Witnesses and boundary cases *)
Section Witnesses.
#[local] Instance ex_host_async : HostOrder := false.


(** The result, the results of the operations, and the size and the last byte of the
    object. *)
Definition async_result {svc : ObjService} (r : outcome (Z * list Z * cmd_world)) : outcome (Z * list Z * option (Z * Z)) :=
  '(rc, results, w) ← r; Done (rc, results, (λ v, (ov_size v, ov_bytes v 300)) <$> sv_objects (cw_sv w) (ex_oid 1)).

Definition ex_async_write (reliable : bool) (rcs : list Z) (sched : nat → list nat) (last : list nat) (step : Z) :=
  let svc := mem_service reliable in
  async_result (mio_cmd_obj_write_async false sched last 200 obj_zero (Some (FopenOk ex_bytes 0)) None (ex_oid 1) 2 200 step
    (ex_world (MkMemSv (λ _, None) rcs []))).

(** The last operation completes first. *)
Example async_write_reversed : ex_async_write true [] (λ _, []) [3; 2; 1; 0]%nat 50 = Done (0, [0; 0; 0; 0], Some (301, 9)).
Proof. vm_compute. reflexivity. Qed.

Example async_write_early : ex_async_write true [] (λ k, [k]) [3%nat] 50 = Done (0, [0; 0; 0; 0], Some (301, 9)).
Proof. vm_compute. reflexivity. Qed.

(** An operation fails: the command returns 0. *)
Example async_write_fails :
  ex_async_write false [0; 0; 0; 0; 0; 0; 0; 0; 0; - EIO] (λ _, []) [0; 1; 2; 3]%nat 50 =
    Done (0, [0; - EIO; 0; 0], Some (301, 9)).
Proof. vm_compute. reflexivity. Qed.

(** More than 120 blocks for an operation: there is room for one operation, and two are
    started. *)
Example async_write_overruns : ex_async_write true [] (λ _, []) [0; 1]%nat 200 = Fault OutOfBounds.
Proof. vm_compute. reflexivity. Qed.

Example async_write_no_step : ex_async_write true [] (λ _, []) [] 0 = Fault DivByZero.
Proof. vm_compute. reflexivity. Qed.
End Witnesses.
