(* ===== verification/ObjArgs.v ===== *)
(** * The options of the programs (src/examples/obj.c and kvs.c)

    What getopt_long() returns becomes the parameters of a program: ids, sizes with a
    suffix and numbers are read from their text. *)

From Stdlib Require Import String.
From S2P Require Import Prelude Bytes ObjId HintMap CStr Conf CmdHelpers.
Open Scope Z_scope.

(** ** Options *)

(** [struct mio_cmd_obj_params]. *)
Record mio_cmd_obj_params := MkObjParams {
  cop_conf_fname : option (list Z);
  cop_pool_id : mio_pool_id;
  cop_io_type : Z;
  cop_oid : mio_obj_id;
  cop_nr_objs : Z;
  cop_block_size : Z;
  cop_block_count : Z;
  cop_async_mode : bool;
  cop_async_step : Z;
  cop_nr_threads : Z
}.

(** [struct mio_cmd_kvs_params]. *)
Record mio_cmd_kvs_params := MkKvsParams {
  ckp_conf_fname : option (list Z);
  ckp_kid : mio_obj_id;
  ckp_nr_pairs : Z;
  ckp_start_kno : Z;
  ckp_log : option (list Z)
}.

(** One result of getopt_long(): a character with optarg, which is empty for an option
    without argument; '?' and ':' are options like the others.  -1 is the end of the
    list. *)
Record getopt_result := MkOpt { go_char : Z; optarg : list Z }.

Definition chr (s : string) : Z := hd 0 (str s).

Section Args.
Context `{HostOrder}.

(** [pool_id_sscanf]: the words are uninitialised when they are not matched. *)
Definition pool_id_sscanf (idstr : list Z) (pool_id : mio_pool_id) : outcome (Z * mio_pool_id) :=
  let '(rc, u1, u2) := sscanf_pool_id idstr in
  if rc <? 0 then Done (rc, pool_id) else
  match u1, u2 with
  | Some u1, Some u2 => Done (0, MkPoolId u1 u2)
  | _, _ => Fault UninitRead
  end.

(** [obj_id_sscanf] and [kvs_id_sscanf]: the words are stored as they are. *)
Definition obj_id_sscanf (idstr : list Z) (oid : mio_obj_id) : outcome (Z * mio_obj_id) :=
  '(rc, words) ← mio_cmd_id_sscanf idstr;
  Done (rc, match words with Some (u1, u2) => MkObjId (native 8 u1 ++ native 8 u2) | None => oid end).

Definition kvs_id_sscanf := obj_id_sscanf.

(** The text that [obj_id_printf] prints. *)
Definition obj_id_printf (oid : mio_obj_id) : list Z :=
  let u1 := mio_byteorder_be64_to_cpu (of_native (take 8 (moi_bytes oid))) in
  let u2 := mio_byteorder_be64_to_cpu (of_native (take 8 (drop 8 (moi_bytes oid)))) in
  sprintf_lx u1 ++ 58 :: sprintf_lx u2.

(** ** The loop *)

(** What one option does: no result is exit(). *)
Definition obj_args_step (v : getopt_result) (params : mio_cmd_obj_params) (print_on_console : bool) (p : mplan)
  : outcome (option (mio_cmd_obj_params * bool) * mplan) :=
  let '(MkObjParams conf pool io oid nr bs bc am st th) := params in
  let go params := Done (Some (params, print_on_console), p) in
  let size k := let '(rc, n) := mio_cmd_strtou64 (optarg v) in if rc <? 0 then Done (None, p) else go (k n) in
  let c := go_char v in
  if c =? chr "p" then
    '(_, pool) ← pool_id_sscanf (optarg v) pool; go (MkObjParams conf pool io oid nr bs bc am st th)
  else if c =? chr "o" then
    '(_, oid) ← obj_id_sscanf (optarg v) oid; go (MkObjParams conf pool io oid nr bs bc am st th)
  else if c =? chr "s" then size (λ n, MkObjParams conf pool io oid nr n bc am st th)
  else if c =? chr "c" then size (λ n, MkObjParams conf pool io oid nr bs n am st th)
  else if c =? chr "n" then go (MkObjParams conf pool io oid (atoi (optarg v)) bs bc am st th)
  else if c =? chr "i" then go (MkObjParams conf pool (atoi (optarg v)) oid nr bs bc am st th)
  else if c =? chr "l" then size (λ n, MkObjParams conf pool io oid nr bs bc am n th)
  else if c =? chr "t" then go (MkObjParams conf pool io oid nr bs bc am st (atoi (optarg v)))
  else if c =? chr "y" then
    let '(ok, p) := plan_next p in
    if ok then Done (Some (MkObjParams (Some (optarg v)) pool io oid nr bs bc am st th, print_on_console), p)
    else Done (None, p)
  else if c =? chr "a" then go (MkObjParams conf pool io oid nr bs bc true st th)
  else if c =? chr "v" then Done (Some (params, true), p)
  else if (c =? chr "h") || (c =? chr "?") || (c =? chr ":") then Done (None, p)
  else go params.

Fixpoint obj_args_loop (l : list getopt_result) (params : mio_cmd_obj_params) (print_on_console : bool) (p : mplan)
  : outcome (option (mio_cmd_obj_params * bool) * mplan) :=
  match l with
  | [] => Done (Some (params, print_on_console), p)
  | v :: l =>
      '(r, p) ← obj_args_step v params print_on_console p;
      match r with
      | Some (params, poc) => obj_args_loop l params poc p
      | None => Done (None, p)
      end
  end.

Definition obj_id_zero : mio_obj_id := MkObjId (replicate 16 0).

(** The parameters before the loop: MIO_CMD_MAX_BLOCK_COUNT_PER_OP is 120. *)
Definition obj_args_default : mio_cmd_obj_params :=
  MkObjParams None (MkPoolId 0 0) 0 obj_id_zero 1 4096 (2 ^ 64 - 1) false 120 0.

(** [mio_cmd_obj_args_init]: the parameters and print_on_console. *)
Definition mio_cmd_obj_args_init (l : list getopt_result) (p : mplan)
  : outcome (option (mio_cmd_obj_params * bool) * mplan) :=
  obj_args_loop l obj_args_default false p.

(** One option of [mio_cmd_kvs_args_init], the loop, and the function. *)
Definition kvs_args_step (v : getopt_result) (params : mio_cmd_kvs_params) (p : mplan)
  : outcome (option mio_cmd_kvs_params * mplan) :=
  let '(MkKvsParams conf kid nr start log) := params in
  let c := go_char v in
  let strdup k := let '(ok, p) := plan_next p in Done (if ok : bool then Some (k (Some (optarg v))) else None, p) in
  if c =? chr "k" then '(_, kid) ← kvs_id_sscanf (optarg v) kid; Done (Some (MkKvsParams conf kid nr start log), p)
  else if c =? chr "s" then Done (Some (MkKvsParams conf kid nr (atoi (optarg v)) log), p)
  else if c =? chr "n" then Done (Some (MkKvsParams conf kid (atoi (optarg v)) start log), p)
  else if c =? chr "y" then strdup (λ f, MkKvsParams f kid nr start log)
  else if c =? chr "l" then strdup (λ f, MkKvsParams conf kid nr start f)
  else if (c =? chr "h") || (c =? chr "?") || (c =? chr ":") then Done (None, p)
  else Done (Some params, p).

Fixpoint kvs_args_loop (l : list getopt_result) (params : mio_cmd_kvs_params) (p : mplan)
  : outcome (option mio_cmd_kvs_params * mplan) :=
  match l with
  | [] => Done (Some params, p)
  | v :: l =>
      '(r, p) ← kvs_args_step v params p;
      match r with Some params => kvs_args_loop l params p | None => Done (None, p) end
  end.

Definition mio_cmd_kvs_args_init (l : list getopt_result) (p : mplan) : outcome (option mio_cmd_kvs_params * mplan) :=
  kvs_args_loop l (MkKvsParams None obj_id_zero 1 0 None) p.
End Args.

(** ** Text and values *)
Section Text.
Context `{HostOrder}.

Lemma sscanf_id_text u1 u2 :
  0 <= u1 < 2 ^ 64 → 0 <= u2 < 2 ^ 64 → sscanf_pool_id (sprintf_lx u1 ++ 58 :: sprintf_lx u2) = (2, Some u1, Some u2).
Proof.
  intros H1 H2. unfold sscanf_pool_id. rewrite scan_lx_sprintf by (done || intros c [= <-]; done).
  change (skip_spaces (58 :: ?l)) with (58 :: l). change (58 =? 58) with true. cbv iota.
  rewrite <- (app_nil_r (sprintf_lx u2)), scan_lx_sprintf by done. done.
Qed.

(** An id that was printed is read back. *)
Lemma obj_id_text oid0 oid : obj_id_ok oid → obj_id_sscanf (obj_id_printf oid) oid0 = Done (0, oid).
Proof.
  intros Hoid. set (u := mio__obj_id_to_uint128 oid).
  assert (Hu : u128_ok u) by by apply obj_id_to_uint128_ok.
  destruct (obj_id_uint128_roundtrip u oid Hu Hoid) as (_ & Hback & _).
  unfold obj_id_sscanf, mio_cmd_id_sscanf. change (obj_id_printf oid) with (sprintf_lx (u_hi u) ++ 58 :: sprintf_lx (u_lo u)).
  destruct Hu as [Hhi Hlo]. rewrite sscanf_id_text by done. cbn [Z.ltb Z.compare mbind outcome_bind].
  change (Done (0, mio__uint128_to_obj_id u) = Done (0, oid)). unfold u. by rewrite Hback.
Qed.

Lemma strtou64_text n : 0 <= n < 2 ^ 64 → mio_cmd_strtou64 (sprintf_u n) = (0, n).
Proof. intros Hn. unfold mio_cmd_strtou64. by rewrite <- (app_nil_r (sprintf_u n)), strtoull0_decimal. Qed.

(** ** The options as values *)
Inductive setting :=
| SetPool (id : mio_pool_id)
| SetObject (oid : mio_obj_id)
| SetBlockSize (n : Z)
| SetBlockCount (n : Z)
| SetNrObjs (n : Z)
| SetIoType (n : Z)
| SetAsyncStep (n : Z)
| SetThreads (n : Z)
| SetConf (fname : list Z)
| SetAsync
| SetConsole.

Definition is_int (n : Z) : Prop := - 2 ^ 31 <= n < 2 ^ 31.

Definition setting_ok (t : setting) : Prop :=
  match t with
  | SetPool id => 0 <= mpi_hi id < 2 ^ 64 ∧ 0 <= mpi_lo id < 2 ^ 64
  | SetObject oid => obj_id_ok oid
  | SetBlockSize n | SetBlockCount n | SetAsyncStep n => 0 <= n < 2 ^ 64
  | SetNrObjs n | SetIoType n | SetThreads n => is_int n
  | SetConf _ | SetAsync | SetConsole => True
  end.

(** What a user writes for it. *)
Definition setting_opt (t : setting) : getopt_result :=
  match t with
  | SetPool id => MkOpt (chr "p") (sprintf_lx (mpi_hi id) ++ 58 :: sprintf_lx (mpi_lo id))
  | SetObject oid => MkOpt (chr "o") (obj_id_printf oid)
  | SetBlockSize n => MkOpt (chr "s") (sprintf_u n)
  | SetBlockCount n => MkOpt (chr "c") (sprintf_u n)
  | SetNrObjs n => MkOpt (chr "n") (sprintf_d n)
  | SetIoType n => MkOpt (chr "i") (sprintf_d n)
  | SetAsyncStep n => MkOpt (chr "l") (sprintf_u n)
  | SetThreads n => MkOpt (chr "t") (sprintf_d n)
  | SetConf fname => MkOpt (chr "y") fname
  | SetAsync => MkOpt (chr "a") []
  | SetConsole => MkOpt (chr "v") []
  end.

Definition apply_setting (x : mio_cmd_obj_params * bool) (t : setting) : mio_cmd_obj_params * bool :=
  let '(MkObjParams conf pool io oid nr bs bc am st th, poc) := x in
  match t with
  | SetPool id => (MkObjParams conf id io oid nr bs bc am st th, poc)
  | SetObject oid => (MkObjParams conf pool io oid nr bs bc am st th, poc)
  | SetBlockSize n => (MkObjParams conf pool io oid nr n bc am st th, poc)
  | SetBlockCount n => (MkObjParams conf pool io oid nr bs n am st th, poc)
  | SetNrObjs n => (MkObjParams conf pool io oid n bs bc am st th, poc)
  | SetIoType n => (MkObjParams conf pool n oid nr bs bc am st th, poc)
  | SetAsyncStep n => (MkObjParams conf pool io oid nr bs bc am n th, poc)
  | SetThreads n => (MkObjParams conf pool io oid nr bs bc am st n, poc)
  | SetConf fname => (MkObjParams (Some fname) pool io oid nr bs bc am st th, poc)
  | SetAsync => (MkObjParams conf pool io oid nr bs bc true st th, poc)
  | SetConsole => (MkObjParams conf pool io oid nr bs bc am st th, true)
  end.

(** Compares the characters of the options. *)
Ltac opts :=
  repeat match goal with
  | |- context [chr ?a =? chr ?b] => let r := eval vm_compute in (chr a =? chr b) in change (chr a =? chr b) with r
  end; cbv iota beta.

Lemma obj_args_step_ok t x p : setting_ok t → Forall (λ b, b = true) p →
  ∃ p', obj_args_step (setting_opt t) x.1 x.2 p = Done (Some (apply_setting x t), p') ∧ Forall (λ b, b = true) p'.
Proof.
  destruct x as [[conf pool io oid nr bs bc am st th] poc]. intros Ht Hp.
  destruct t as [id|oid'|n|n|n|n|n|n|fname| |]; cbn [setting_ok] in Ht; unfold obj_args_step;
    cbn [fst snd setting_opt go_char optarg apply_setting].
  - destruct Ht as [H1 H2]. opts. unfold pool_id_sscanf. rewrite sscanf_id_text by done. cbn. exists p. by destruct id.
  - opts. rewrite obj_id_text by done. by exists p.
  - opts. rewrite strtou64_text by done. by exists p.
  - opts. rewrite strtou64_text by done. by exists p.
  - opts. rewrite atoi_sprintf_d by done. by exists p.
  - opts. rewrite atoi_sprintf_d by done. by exists p.
  - opts. rewrite strtou64_text by done. by exists p.
  - opts. rewrite atoi_sprintf_d by done. by exists p.
  - opts. destruct (plan_next p) as [ok p'] eqn:E. apply plan_next_all in E as [-> Hp']; [|done]. by exists p'.
  - by exists p.
  - by exists p.
Qed.

Lemma obj_args_loop_app l x p rest : Forall setting_ok l → Forall (λ b, b = true) p →
  ∃ p', obj_args_loop ((setting_opt <$> l) ++ rest) x.1 x.2 p =
          obj_args_loop rest (foldl apply_setting x l).1 (foldl apply_setting x l).2 p' ∧ Forall (λ b, b = true) p'.
Proof.
  intros Hl. revert x p. induction Hl as [|t l Ht Hl IH]; intros x p Hp; [by exists p|].
  destruct (obj_args_step_ok t x p Ht Hp) as (p1 & Hs & Hp1). destruct (IH (apply_setting x t) p1 Hp1) as (p2 & Hr & Hp2).
  exists p2. split; [|done]. cbn [fmap list_fmap app obj_args_loop foldl]. rewrite Hs. cbn [mbind outcome_bind].
  destruct (apply_setting x t) as [params poc]. exact Hr.
Qed.

Lemma obj_args_settings l p : Forall setting_ok l → Forall (λ b, b = true) p →
  ∃ p', mio_cmd_obj_args_init (setting_opt <$> l) p = Done (Some (foldl apply_setting (obj_args_default, false) l), p') ∧
    Forall (λ b, b = true) p'.
Proof.
  intros Hl Hp. destruct (obj_args_loop_app l (obj_args_default, false) p [] Hl Hp) as (p' & Hr & Hp'). exists p'.
  split; [|done]. rewrite app_nil_r in Hr. unfold mio_cmd_obj_args_init. cbn [fst snd] in Hr. rewrite Hr.
  cbn [obj_args_loop]. by destruct (foldl _ _ _).
Qed.

(** (C39) The options of a program in any order and number, in the form a user writes
    them, set the parameters to the values they denote, the last one of a kind wins,
    and what is not given keeps its default; after them an option that is not known,
    lacks its argument or asks for help ends the program. *)
Theorem mio_cmd_obj_args_correct (l : list setting) (p : mplan) :
  Forall setting_ok l → Forall (λ b, b = true) p →
  (∃ p', mio_cmd_obj_args_init (setting_opt <$> l) p =
           Done (Some (foldl apply_setting (obj_args_default, false) l), p')) ∧
  (∀ v rest, go_char v ∈ [chr "?"; chr ":"; chr "h"] →
     ∃ p', mio_cmd_obj_args_init ((setting_opt <$> l) ++ v :: rest) p = Done (None, p')).
Proof.
  intros Hl Hp. split.
  - destruct (obj_args_settings l p Hl Hp) as (p' & Hr & _). by exists p'.
  - unfold mio_cmd_obj_args_init. intros [c arg] rest Hc. cbn [go_char] in Hc.
    destruct (obj_args_loop_app l (obj_args_default, false) p (MkOpt c arg :: rest) Hl Hp) as (p' & Hr & _). exists p'.
    cbn [fst snd] in Hr. rewrite Hr. cbn [obj_args_loop]. destruct (foldl _ _ _) as [[] poc]. unfold obj_args_step.
    cbn [fst snd go_char optarg]. rewrite !elem_of_cons in Hc. destruct Hc as [->|[->|[->|Hc]]]; [by opts..|].
    by apply not_elem_of_nil in Hc.
Qed.

(** ** The options of the key-value programs *)
Inductive kvs_setting :=
| SetKvs (kid : mio_obj_id)
| SetStart (n : Z)
| SetNrPairs (n : Z)
| SetKvsConf (fname : list Z)
| SetLog (fname : list Z).

Definition kvs_setting_ok (t : kvs_setting) : Prop :=
  match t with SetKvs kid => obj_id_ok kid | SetStart n | SetNrPairs n => is_int n | SetKvsConf _ | SetLog _ => True end.

Definition kvs_setting_opt (t : kvs_setting) : getopt_result :=
  match t with
  | SetKvs kid => MkOpt (chr "k") (obj_id_printf kid)
  | SetStart n => MkOpt (chr "s") (sprintf_d n)
  | SetNrPairs n => MkOpt (chr "n") (sprintf_d n)
  | SetKvsConf fname => MkOpt (chr "y") fname
  | SetLog fname => MkOpt (chr "l") fname
  end.

Definition apply_kvs_setting (x : mio_cmd_kvs_params) (t : kvs_setting) : mio_cmd_kvs_params :=
  let '(MkKvsParams conf kid nr start log) := x in
  match t with
  | SetKvs kid => MkKvsParams conf kid nr start log
  | SetStart n => MkKvsParams conf kid nr n log
  | SetNrPairs n => MkKvsParams conf kid n start log
  | SetKvsConf fname => MkKvsParams (Some fname) kid nr start log
  | SetLog fname => MkKvsParams conf kid nr start (Some fname)
  end.

Lemma kvs_args_step_ok t x p : kvs_setting_ok t → Forall (λ b, b = true) p →
  ∃ p', kvs_args_step (kvs_setting_opt t) x p = Done (Some (apply_kvs_setting x t), p') ∧ Forall (λ b, b = true) p'.
Proof.
  destruct x as [conf kid nr start log]. intros Ht Hp.
  destruct t as [kid'|n|n|fname|fname]; cbn [kvs_setting_ok] in Ht; unfold kvs_args_step;
    cbn [kvs_setting_opt go_char optarg apply_kvs_setting]; opts.
  - unfold kvs_id_sscanf. rewrite obj_id_text by done. by exists p.
  - rewrite atoi_sprintf_d by done. by exists p.
  - rewrite atoi_sprintf_d by done. by exists p.
  - destruct (plan_next p) as [ok p'] eqn:E. apply plan_next_all in E as [-> Hp']; [|done]. by exists p'.
  - destruct (plan_next p) as [ok p'] eqn:E. apply plan_next_all in E as [-> Hp']; [|done]. by exists p'.
Qed.

Theorem mio_cmd_kvs_args_correct (l : list kvs_setting) (p : mplan) :
  Forall kvs_setting_ok l → Forall (λ b, b = true) p →
  ∃ p', mio_cmd_kvs_args_init (kvs_setting_opt <$> l) p =
          Done (Some (foldl apply_kvs_setting (MkKvsParams None obj_id_zero 1 0 None) l), p').
Proof.
  unfold mio_cmd_kvs_args_init. intros Hl. generalize (MkKvsParams None obj_id_zero 1 0 None). revert p.
  induction Hl as [|t l Ht Hl IH]; intros p x Hp; [by exists p|].
  destruct (kvs_args_step_ok t x p Ht Hp) as (p1 & Hs & Hp1). destruct (IH p1 (apply_kvs_setting x t) Hp1) as (p2 & Hr).
  exists p2. cbn [fmap list_fmap kvs_args_loop foldl]. rewrite Hs. cbn [mbind outcome_bind]. exact Hr.
Qed.
End Text.

(** ** Witness and boundary cases *)
Section Witnesses.
#[local] Instance ex_host_args : HostOrder := false.

Lemma mio_cmd_obj_args_correct_witness :
  ∃ p', mio_cmd_obj_args_init [MkOpt (chr "p") (str "6f00000000000001:1c"); MkOpt (chr "t") (str "-4"); MkOpt (chr "s") (str "4096")] [] =
    Done (Some (MkObjParams None (MkPoolId 7998392938210000897 28) 0 obj_id_zero 1 4096 (2 ^ 64 - 1) false 120 (-4), false), p').
Proof.
  refine (proj1 (mio_cmd_obj_args_correct
    [SetPool (MkPoolId 7998392938210000897 28); SetThreads (-4); SetBlockSize 4096] [] _ _)).
  - repeat constructor; simpl; unfold is_int; lia.
  - constructor.
Defined.

(** The result as plain data: pool, object, sizes and threads. *)
Definition ex_args (l : list (string * string)) : outcome (option (mio_pool_id * list Z * Z * Z * Z * bool)) :=
  match mio_cmd_obj_args_init ((λ x, MkOpt (chr x.1) (str x.2)) <$> l) [] with
  | Done (Some (x, console), _) =>
      Done (Some (cop_pool_id x, moi_bytes (cop_oid x), cop_block_size x, cop_block_count x, cop_nr_threads x, console))
  | Done (None, _) => Done None
  | Fault f => Fault f
  end.

(** Sizes with suffixes, an id with spaces, and a number that is none. *)
Example args_text :
  ex_args [("s", "4k"); ("c", "0x10"); ("o", "1 : 2 "); ("t", "four"); ("v", "")]%string =
    Done (Some (MkPoolId 0 0, [0;0;0;0;0;0;0;1;0;0;0;0;0;0;0;2], 4096, 16, 0, true)).
Proof. vm_compute. reflexivity. Qed.

(** An id with one number: the second word is not initialised. *)
Example args_half_id : ex_args [("o", "12")]%string = Fault UninitRead.
Proof. vm_compute. reflexivity. Qed.

(** An empty id is ignored: the object keeps the id of zeros. *)
Example args_empty_id :
  ex_args [("o", "")]%string = Done (Some (MkPoolId 0 0, replicate 16 0, 4096, 2 ^ 64 - 1, 0, false)).
Proof. vm_compute. reflexivity. Qed.

(** A size that does not fit ends the program. *)
Example args_size_overflow : ex_args [("s", "17179869184g")]%string = Done None.
Proof. vm_compute. reflexivity. Qed.
End Witnesses.
