(* ===== verification/Programs.v ===== *)
(** * The small programs of src/examples/ that run one command each

    mio_touch.c, mio_unlink.c, mio_copy.c and mio_cat.c: options, starting the library,
    the command, stopping the library.  The theorems join options and object commands. *)

From Stdlib Require Import String.
From S2P Require Import Prelude Bytes ObjId HintMap Types CStr Conf CmdHelpers ObjService ObjCmd ObjCopy ObjFile ObjAsync ObjArgs.
Open Scope Z_scope.

Definition EXIT_FAILURE : Z := 1.

(** ** Starting and stopping the library for programs that use objects *)
Class ObjLibrary `{ObjService} := {
  (** mio_init() with the name of the configuration, mio_fini(). *)
  ol_init : option (list Z) → sv → Z * sv;
  ol_fini : sv → sv;
  ol_init_ok : ∀ conf s rc s', ol_init conf s = (rc, s') → rc <= 0 ∧ ∀ id, sv_objects s' id = sv_objects s id;
  ol_fini_ok : ∀ s id, sv_objects (ol_fini s) id = sv_objects s id
}.

Section Programs.
Context `{HostOrder} `{ObjLibrary}.
(** Opening a file for reading and for writing, a handle before it is initialised, the
    order in which Motr completes operations. *)
Context (fopen_r : list Z → fopen_result) (fopen_w : list Z → fopen_w_result).
Context (stack_obj : mio_obj) (sched : nat → list nat) (last : list nat) (fuel : nat).

(** The part of main() from mio_init() on: the exit status, what the command gives. *)
Definition with_library {A} (conf : option (list Z)) (none : A) (cmd : cmd_world → outcome (Z * A * cmd_world))
    (w : cmd_world) : outcome (Z * A * cmd_world) :=
  let '(rc, s) := ol_init conf (cw_sv w) in
  let w := set_cw_sv s w in
  if rc <? 0 then Done (EXIT_FAILURE, none, w) else
  '(rc, a, w) ← cmd w;
  Done (rc, a, set_cw_sv (ol_fini (cw_sv w)) w).

(** Reading the options; without a result the program has ended. *)
Definition with_options {A} (l : list getopt_result) (none : A)
    (go : mio_cmd_obj_params → bool → cmd_world → outcome (Z * A * cmd_world)) (w : cmd_world)
  : outcome (option Z * A * cmd_world) :=
  '(r, p) ← mio_cmd_obj_args_init l (cw_plan w);
  let w := set_cw_plan p w in
  match r with
  | None => Done (None, none, w)
  | Some (params, print_on_console) => '(rc, a, w) ← go params print_on_console w; Done (Some rc, a, w)
  end.

(** main() of mio_touch.c and mio_unlink.c. *)
Definition touch_main (l : list getopt_result) (w : cmd_world) : outcome (option Z * unit * cmd_world) :=
  with_options l tt (λ params _, with_library (cop_conf_fname params) tt (λ w,
    '(rc, w) ← mio_cmd_obj_touch (cop_oid params) w; Done (rc, tt, w))) w.

Definition unlink_main (l : list getopt_result) (w : cmd_world) : outcome (option Z * unit * cmd_world) :=
  with_options l tt (λ params _, with_library (cop_conf_fname params) tt (λ w,
    let '(rc, w) := mio_cmd_obj_unlink (cop_oid params) w in Done (rc, tt, w))) w.

(** strdup(argv[optind]), if there is such an argument. *)
Definition file_arg (arg : option (list Z)) (w : cmd_world) : option (list Z) * cmd_world :=
  match arg with
  | None => (None, w)
  | Some fname => let '(ok, p) := plan_next (cw_plan w) in (if ok : bool then Some fname else None, set_cw_plan p w)
  end.

(** main() of mio_copy.c: without -p the pool is the one with the id of zeros, which is
    not NULL. *)
Definition copy_main (l : list getopt_result) (arg : option (list Z)) (w : cmd_world)
  : outcome (option Z * unit * cmd_world) :=
  with_options l tt (λ params print_on_console w,
    let '(src_fname, w) := file_arg arg w in
    with_library (cop_conf_fname params) tt (λ w,
      let src := fopen_r <$> src_fname in
      let pool := Some (cop_pool_id params) in
      if cop_async_mode params then
        '(rc, _, w) ← mio_cmd_obj_write_async print_on_console sched last fuel stack_obj src pool (cop_oid params)
                        (cop_block_size params) (cop_block_count params) (cop_async_step params) w;
        Done (rc, tt, w)
      else
        '(rc, w) ← mio_cmd_obj_write fuel stack_obj src pool (cop_oid params)
                     (cop_block_size params) (cop_block_count params) w;
        Done (rc, tt, w)) w) w.

(** main() of mio_cat.c, with the file it leaves. *)
Definition cat_main (l : list getopt_result) (arg : option (list Z)) (w : cmd_world)
  : outcome (option Z * option out_file * cmd_world) :=
  with_options l None (λ params print_on_console w,
    let '(dst_fname, w) := file_arg arg w in
    if match dst_fname with
       | None => cop_async_mode params || negb print_on_console
       | Some _ => false
       end then Done (-1, None, w) else
    with_library (cop_conf_fname params) None (λ w,
      let dest := fopen_w <$> dst_fname in
      if cop_async_mode params then
        '(rc, _, fp, w) ← mio_cmd_obj_read_async print_on_console sched last fuel (cop_oid params) dest
                            (cop_block_size params) (cop_block_count params) (cop_async_step params) w;
        Done (rc, fp, w)
      else
        mio_cmd_obj_read print_on_console fuel stack_obj (cop_oid params) dest
          (cop_block_size params) (cop_block_count params) w) w) w.
End Programs.

(** ** What the programs do *)
Section Runs.
Context `{HostOrder} `{ObjLibrary}.
Abbreviation objs w := (sv_objects (cw_sv w)).
Abbreviation all_succeed p := (Forall (λ b : bool, b = true) p).

(** The parameters that options give. *)
Definition params_of (l : list setting) : mio_cmd_obj_params := (foldl apply_setting (obj_args_default, false) l).1.
Definition console_of (l : list setting) : bool := (foldl apply_setting (obj_args_default, false) l).2.

Lemma with_options_ok l w : Forall setting_ok l → all_succeed (cw_plan w) →
  ∃ p, all_succeed p ∧ ∀ A (none : A) go, with_options (setting_opt <$> l) none go w =
    '(rc, a, w) ← go (params_of l) (console_of l) (set_cw_plan p w); Done (Some rc, a, w).
Proof.
  intros Hl Hp. destruct (obj_args_settings l (cw_plan w) Hl Hp) as (p & Hr & Hp'). exists p. split; [done|].
  intros A none go. unfold with_options. rewrite Hr. cbn [mbind outcome_bind]. unfold params_of, console_of.
  by destruct (foldl apply_setting (obj_args_default, false) l).
Qed.

(** The command runs on the objects as they were, and what it has done stays. *)
Lemma with_library_ok {A} conf (none : A) cmd w (P : Z → A → (mio_obj_id → option obj_view) → Prop) :
  (∀ w1, cw_plan w1 = cw_plan w → (∀ id, objs w1 id = objs w id) →
     ∃ rc a w2, cmd w1 = Done (rc, a, w2) ∧ rc <= 0 ∧ (∀ f, (∀ id, f id = objs w2 id) → P rc a f)) →
  (∀ f, (∀ id, f id = objs w id) → P EXIT_FAILURE none f) →
  ∃ rc a w', with_library conf none cmd w = Done (rc, a, w') ∧ (rc = EXIT_FAILURE ∨ rc <= 0) ∧ P rc a (objs w').
Proof.
  intros Hcmd Hfail. unfold with_library. destruct (ol_init conf (cw_sv w)) as [rc s] eqn:E.
  apply ol_init_ok in E as [Hrc Hobj]. destruct (Z.ltb_spec rc 0) as [Hneg|Hge].
  { exists EXIT_FAILURE, none, (set_cw_sv s w). split; [done|]. split; [by left|]. by apply Hfail. }
  destruct (Hcmd (set_cw_sv s w)) as (rc2 & a & w2 & -> & Hrc2 & HP); [done|done|]. cbn [mbind outcome_bind].
  eexists _, _, _. split; [done|]. split; [by right|]. apply HP. intros id. apply ol_fini_ok.
Qed.

Lemma file_arg_ok fname w : all_succeed (cw_plan w) →
  ∃ p, file_arg (Some fname) w = (Some fname, set_cw_plan p w) ∧ all_succeed p.
Proof.
  intros Hp. unfold file_arg. destruct (plan_next (cw_plan w)) as [ok p] eqn:E.
  apply plan_next_all in E as [-> Hp']; [|done]. by exists p.
Qed.

Section File.
Context (fopen_r : list Z → fopen_result) (fopen_w : list Z → fopen_w_result).
Context (stack_obj : mio_obj) (sched : nat → list nat) (last : list nat) (fuel : nat).
Context (l : list setting) (Hl : Forall setting_ok l).
Let P := params_of l.
Context (Hasync : cop_async_mode P = false) (Hbs : 0 < cop_block_size P).

(** An object holds the bytes and nothing behind them. *)
Definition holds_bytes (bytes : list Z) (v : obj_view) : Prop :=
  ov_size v = Z.of_nat (length bytes) ∧ ∀ z, 0 <= z < Z.of_nat (length bytes) → ov_bytes v z = file_fun bytes z.

Lemma copy_main_spec from bytes (w : cmd_world) :
  let size := Z.of_nat (length bytes) in
  0 < size → size + 121 * cop_block_size P < 2 ^ 64 → size <= cop_block_count P * cop_block_size P →
  fopen_r from = FopenOk bytes 0 → size_at (objs w) (cop_oid P) <= size → close_stores → all_succeed (cw_plan w) →
  (blocks_fuel size (cop_block_size P) < fuel)%nat →
  ∃ rc w1, copy_main fopen_r stack_obj sched last fuel (setting_opt <$> l) (Some from) w = Done (Some rc, tt, w1) ∧
    (rc = EXIT_FAILURE ∨ rc <= 0) ∧ (∀ id, id ≠ cop_oid P → objs w1 id = objs w id) ∧
    (rc = 0 → ∃ v, objs w1 (cop_oid P) = Some v ∧ holds_bytes bytes v).
Proof.
  intros size Hsize Hfit Hcount Hfr Hold Hstores Hp Hfuel. assert (0 < cop_block_count P) by nia.
  destruct (with_options_ok l w Hl Hp) as (p & Hp1 & Hopt). unfold copy_main. rewrite Hopt. fold P. rewrite Hasync.
  destruct (file_arg_ok from (set_cw_plan p w) Hp1) as (p2 & -> & _). cbn [fmap option_fmap option_map]. rewrite Hfr.
  match goal with |- context [with_library _ _ ?cmd ?w0] => destruct (with_library_ok (cop_conf_fname P) tt cmd w0 (λ rc _ f, (∀ id, id ≠ cop_oid P → f id = objs w id) ∧
    (rc = 0 → ∃ v, f (cop_oid P) = Some v ∧ holds_bytes bytes v))) as (rc & [] & w' & -> & Hrc & HP) end; cycle 2.
  - cbn [mbind outcome_bind]. eexists _, _. split; [reflexivity|]. split; [exact Hrc|]. exact HP.
  - intros w1 _ Hobj.
    destruct (mio_cmd_obj_write_correct fuel stack_obj bytes (Some (cop_pool_id P)) (cop_oid P) (cop_block_size P) (cop_block_count P) w1)
      as (rc & w2 & -> & Hrc & Hfr2 & Hok); [done..|]. fold size in Hok. cbn [mbind outcome_bind].
    eexists _, _, _. split; [done|]. split; [done|]. intros f Hf.
    split; [intros id Hid; by rewrite Hf, Hfr2, Hobj|]. intros Hz. destruct (Hok Hz) as (v & Hv & Hb & Hs). exists v.
    rewrite Hf. split; [done|]. rewrite Z.min_r in Hb by done. specialize (Hs Hstores). unfold size_at in Hs, Hold. rewrite Hobj in Hs.
    split; [fold size; cbn in Hs, Hold; lia|done].
  - intros f Hf. cbv beta. split; [intros; by rewrite Hf|done].
Qed.

Lemma cat_main_spec to bytes v pw (w : cmd_world) :
  let size := Z.of_nat (length bytes) in
  console_of l = false → 0 < size → size + 121 * cop_block_size P < 2 ^ 64 → size <= cop_block_count P * cop_block_size P →
  fopen_w to = FopenWOk pw → all_succeed pw → objs w (cop_oid P) = Some v → holds_bytes bytes v → all_succeed (cw_plan w) →
  (blocks_fuel size (cop_block_size P) < fuel)%nat →
  ∃ rc fp w1, cat_main fopen_w stack_obj sched last fuel (setting_opt <$> l) (Some to) w = Done (Some rc, fp, w1) ∧
    (rc = EXIT_FAILURE ∨ rc <= 0) ∧ (∀ id, objs w1 id = objs w id) ∧ (rc = 0 → of_bytes <$> fp = Some bytes).
Proof.
  intros size Hcon Hsize Hfit Hcount Hfw Hpw Hv [Hs Hb] Hp Hfuel. assert (0 < cop_block_count P) by nia. fold size in Hs, Hb.
  destruct (with_options_ok l w Hl Hp) as (p & Hp1 & Hopt). unfold cat_main. rewrite Hopt. fold P. rewrite Hasync, Hcon.
  destruct (file_arg_ok to (set_cw_plan p w) Hp1) as (p2 & -> & _). cbn [fmap option_fmap option_map]. rewrite Hfw.
  match goal with |- context [with_library _ _ ?cmd ?w0] => destruct (with_library_ok (cop_conf_fname P) None cmd w0
    (λ rc fp f, (∀ id, f id = objs w id) ∧ (rc = 0 → of_bytes <$> fp = Some bytes))) as (rc & fp & w' & -> & Hrc & HP) end; cycle 2.
  - cbn [mbind outcome_bind]. eexists _, _, _. split; [reflexivity|]. split; [exact Hrc|]. exact HP.
  - intros w1 _ Hobj.
    destruct (mio_cmd_obj_read_correct fuel stack_obj (cop_oid P) pw (cop_block_size P) (cop_block_count P) w1 v)
      as (rc & fp & w2 & -> & Hrc & Hfr2 & Hok); [done|by rewrite Hobj|by rewrite Hs|by rewrite Hs|done|done|by rewrite Hs|].
    eexists _, _, _. split; [done|]. split; [done|]. intros f Hf.
    split; [intros id; by rewrite Hf, Hfr2, Hobj|]. intros Hz. destruct (Hok Hz) as (p' & ->). simpl. f_equal.
    rewrite Hs, Z.min_r by done. rewrite <- (fbytes_file_fun bytes). fold size. apply fbytes_ext. intros z Hz'. apply Hb. lia.
  - intros f Hf. cbv beta. split; [intros; by rewrite Hf|done].
Qed.
End File.
End Runs.

(** mio_touch and then mio_unlink, each in a process of its own: both end and only their
    object changes.  After the first one has returned 0 there is a new, empty object in
    the pool the library chooses; after the second one it is gone. *)
Theorem touch_unlink_correct `{HostOrder} `{ObjLibrary} (lt lu : list setting) (w : cmd_world) :
  let oid := cop_oid (params_of lt) in
  let objs w := sv_objects (cw_sv w) in
  Forall setting_ok lt → Forall setting_ok lu → cop_oid (params_of lu) = oid → Forall (λ b, b = true) (cw_plan w) →
  ∃ rc w1, touch_main (setting_opt <$> lt) w = Done (Some rc, tt, w1) ∧ (∀ id, id ≠ oid → objs w1 id = objs w id) ∧
    (rc = 0 → objs w oid = None ∧
       (∃ v, objs w1 oid = Some v ∧ ov_size v = 0 ∧ ov_pool v = sv_create_pool None None) ∧
       ∀ w2, (∀ id, objs w2 id = objs w1 id) → Forall (λ b, b = true) (cw_plan w2) →
         ∃ rc' w3, unlink_main (setting_opt <$> lu) w2 = Done (Some rc', tt, w3) ∧
           (∀ id, id ≠ oid → objs w3 id = objs w id) ∧ (rc' = 0 → objs w3 oid = None)).
Proof.
  intros oid objs Hlt Hlu Hoid Hp. unfold touch_main, unlink_main.
  destruct (with_options_ok lt w Hlt Hp) as (p & Hp1 & ->). fold oid.
  match goal with |- context [with_library _ _ ?cmd ?w0] =>
    destruct (with_library_ok (cop_conf_fname (params_of lt)) tt cmd w0 (λ rc _ f,
      (∀ id, id ≠ oid → f id = objs w id) ∧ (rc = 0 → objs w oid = None ∧
        ∃ v, f oid = Some v ∧ ov_size v = 0 ∧ ov_pool v = sv_create_pool None None))) as (rc & [] & w1 & -> & _ & Hfr & Hok) end.
  - intros w1 _ Hobj. unfold mio_cmd_obj_touch.
    destruct (cmd_create_spec None oid obj_zero None w1) as (rc & o & w2 & -> & Hrc & Hfr & Hok). cbn [mbind outcome_bind].
    eexists _, _, _. split; [done|]. split; [done|]. intros f Hf. split; [intros id Hid; by rewrite Hf, Hfr, Hobj|].
    intros Hz. destruct (Hok Hz) as (Hn & v & Hv & Hvs). split; [unfold objs; by rewrite <- Hobj|]. exists v. by rewrite Hf.
  - intros f Hf. split; [intros; by rewrite Hf|done].
  - cbn [mbind outcome_bind]. eexists _, _. split; [done|]. split; [done|]. intros Hz. destruct (Hok Hz) as [Hn Hv].
    split; [done|]. split; [done|]. intros w2 Hw2 Hp2. destruct (with_options_ok lu w2 Hlu Hp2) as (p' & Hp' & ->). rewrite Hoid.
    match goal with |- context [with_library _ _ ?cmd ?w0] =>
      destruct (with_library_ok (cop_conf_fname (params_of lu)) tt cmd w0 (λ rc _ f,
        (∀ id, id ≠ oid → f id = objs w id) ∧ (rc = 0 → f oid = None))) as (rc' & [] & w3 & -> & _ & Hfr3 & Hok3) end.
    + intros w3 _ Hobj. unfold mio_cmd_obj_unlink. destruct (obj_rm oid w3) as [rc' w4] eqn:E.
      pose proof (obj_rm_spec _ _ _ _ E) as (Hrc & Hfr4 & Hgone). eexists _, _, _. split; [done|]. split; [done|].
      intros f Hf. split; [|intros; by rewrite Hf; apply Hgone]. intros id Hid. rewrite Hf, Hfr4, Hobj by done.
      etransitivity; [apply Hw2|by apply Hfr].
    + intros f Hf. split; [|done]. intros id Hid. rewrite Hf. etransitivity; [apply Hw2|by apply Hfr].
    + cbn [mbind outcome_bind]. by eexists _, _.
Qed.

(** (C24) From the command line to an object and back.  mio_copy writes a file to an object
    and mio_cat, in another process, writes the object to a file; the options are given as
    a user writes them, in any order, with different block sizes.  Both end; if both
    return 0 the second file is the first one.  Only the object changes.  The object must
    not have been larger than the file, its attributes must be stored when it is closed,
    and memory for the options must be there. *)
Theorem copy_cat_roundtrip `{HostOrder} `{ObjLibrary} (fopen_r : list Z → fopen_result) (fopen_w : list Z → fopen_w_result)
    (stack_obj stack_obj' : mio_obj) (sched : nat → list nat) (last : list nat) (fuel : nat)
    (ls lc : list setting) (from to bytes : list Z) (pw : mplan) (w : cmd_world) :
  let size := Z.of_nat (length bytes) in
  let P := params_of ls in
  let Q := params_of lc in
  let objs w := sv_objects (cw_sv w) in
  Forall setting_ok ls → Forall setting_ok lc → cop_oid P = cop_oid Q →
  cop_async_mode P = false → cop_async_mode Q = false → console_of lc = false →
  0 < cop_block_size P → 0 < cop_block_size Q → 0 < size →
  size + 121 * cop_block_size P < 2 ^ 64 → size + 121 * cop_block_size Q < 2 ^ 64 →
  size <= cop_block_count P * cop_block_size P → size <= cop_block_count Q * cop_block_size Q →
  fopen_r from = FopenOk bytes 0 → fopen_w to = FopenWOk pw → Forall (λ b, b = true) pw →
  size_at (objs w) (cop_oid P) <= size → close_stores → Forall (λ b, b = true) (cw_plan w) →
  (blocks_fuel size (cop_block_size P) < fuel)%nat → (blocks_fuel size (cop_block_size Q) < fuel)%nat →
  ∃ rc w1, copy_main fopen_r stack_obj sched last fuel (setting_opt <$> ls) (Some from) w = Done (Some rc, tt, w1) ∧
    (∀ id, id ≠ cop_oid P → objs w1 id = objs w id) ∧
    (rc = 0 → ∀ w2, (∀ id, objs w2 id = objs w1 id) → Forall (λ b, b = true) (cw_plan w2) →
       ∃ rc' fp w3, cat_main fopen_w stack_obj' sched last fuel (setting_opt <$> lc) (Some to) w2 = Done (Some rc', fp, w3) ∧
         (∀ id, objs w3 id = objs w2 id) ∧ (rc' = 0 → of_bytes <$> fp = Some bytes)).
Proof.
  intros size P Q objs Hls Hlc Hoid HaP HaQ Hcon HbP HbQ Hsize HfP HfQ HcP HcQ Hfr Hfw Hpw Hold Hstores Hplan HfuP HfuQ.
  destruct (copy_main_spec fopen_r stack_obj sched last fuel ls Hls HaP HbP from bytes w) as (rc & w1 & -> & Hrc & Hfr1 & Hok); [done..|].
  eexists _, _. split; [done|]. split; [done|]. intros Hz w2 Hw2 Hp2. destruct (Hok Hz) as (v & Hv & Hb).
  fold P in Hv. rewrite Hoid in Hv.
  destruct (cat_main_spec fopen_w stack_obj' sched last fuel lc Hlc HaQ HbQ to bytes v pw w2)
    as (rc' & fp & w3 & -> & _ & Hobj & Hfile); [done..|etransitivity; [apply Hw2|exact Hv]|done|done|done|].
  by eexists _, _, _.
Qed.

(** ** Witness and boundary cases *)
Section Witnesses.
#[local] Instance prog_host : HostOrder := false.
#[local] Instance prog_objects : ObjService := mem_service true.

Definition prog_init (conf : option (list Z)) (s : mem_sv) : Z * mem_sv :=
  (match conf with Some _ => 0 | None => - EINVAL end, s).

Lemma prog_init_ok (conf : option (list Z)) (s : mem_sv) rc s' : prog_init conf s = (rc, s') →
  rc <= 0 ∧ ∀ id, ms_objs s' id = ms_objs s id.
Proof. intros [= <- <-]. split; [destruct conf; unfold EINVAL; lia|done]. Qed.

#[local] Instance prog_library : @ObjLibrary (mem_service true) :=
  @Build_ObjLibrary (mem_service true) prog_init (λ s, s) prog_init_ok (λ s id, eq_refl).

Definition prog_oid : mio_obj_id := mio__uint128_to_obj_id (MkU128 18 52).
Definition prog_start : cmd_world := @ex_world (mem_service true) (MkMemSv (λ _, None) [] []).
Definition prog_bytes : list Z := [1; 2; 3; 4; 5].
Definition copy_settings : list setting := [SetConf (str "mio.yaml"); SetBlockSize 2; SetBlockCount 3; SetObject prog_oid].
Definition cat_settings : list setting := [SetObject prog_oid; SetBlockSize 4; SetConf (str "mio.yaml"); SetBlockCount 2].

Lemma copy_cat_roundtrip_witness :
  ∃ rc w1, copy_main (λ _, FopenOk prog_bytes 0) obj_zero (λ _, []) [] 400 (setting_opt <$> copy_settings) (Some (str "a"))
      prog_start = Done (Some rc, tt, w1).
Proof.
  assert (Hoid : obj_id_ok prog_oid) by (split; [reflexivity|repeat constructor; discriminate]).
  destruct (copy_cat_roundtrip (λ _, FopenOk prog_bytes 0) (λ _, FopenWOk []) obj_zero obj_zero (λ _, []) [] 400
    copy_settings cat_settings (str "a") (str "b") prog_bytes [] prog_start) as (rc & w1 & Hcopy & _).
  - repeat apply Forall_cons_2; [exact I|split; [discriminate|reflexivity]|split; [discriminate|reflexivity]|exact Hoid|constructor].
  - repeat apply Forall_cons_2; [exact Hoid|split; [discriminate|reflexivity]|exact I|split; [discriminate|reflexivity]|constructor].
  - reflexivity.
  - reflexivity.
  - reflexivity.
  - reflexivity.
  - reflexivity.
  - reflexivity.
  - reflexivity.
  - reflexivity.
  - reflexivity.
  - discriminate.
  - discriminate.
  - reflexivity.
  - reflexivity.
  - constructor.
  - discriminate.
  - exact mem_close_stores.
  - constructor.
  - apply (bool_decide_unpack _). vm_compute. exact I.
  - apply (bool_decide_unpack _). vm_compute. exact I.
  - exists rc, w1. exact Hcopy.
Defined.

Lemma touch_unlink_correct_witness :
  ∃ rc w1, touch_main (setting_opt <$> copy_settings) prog_start = Done (Some rc, tt, w1).
Proof.
  assert (Hoid : obj_id_ok prog_oid) by (split; [reflexivity|repeat constructor; discriminate]).
  destruct (touch_unlink_correct copy_settings cat_settings prog_start) as (rc & w1 & Htouch & _).
  - repeat apply Forall_cons_2; [exact I|split; [discriminate|reflexivity]|split; [discriminate|reflexivity]|exact Hoid|constructor].
  - repeat apply Forall_cons_2; [exact Hoid|split; [discriminate|reflexivity]|exact I|split; [discriminate|reflexivity]|constructor].
  - reflexivity.
  - constructor.
  - exists rc, w1. exact Htouch.
Defined.

(** Copying a file to an object and the object to a file: the results and the file. *)
Definition copy_and_cat (ls lc : list setting) (to : option (list Z)) : outcome (option Z * option Z * option (list Z)) :=
  match copy_main (λ _, FopenOk prog_bytes 0) obj_zero (λ _, []) [] 20 (setting_opt <$> ls) (Some (str "a")) prog_start with
  | Done (rc, _, w) =>
      match cat_main (λ _, FopenWOk []) obj_zero (λ _, []) [] 20 (setting_opt <$> lc) to w with
      | Done (rc', fp, _) => Done (rc, rc', of_bytes <$> fp)
      | Fault e => Fault e
      end
  | Fault e => Fault e
  end.

Example copy_and_cat_ok : copy_and_cat copy_settings cat_settings (Some (str "b")) = Done (Some 0, Some 0, Some prog_bytes).
Proof. vm_compute. reflexivity. Qed.

(** Without a configuration the library does not start. *)
Example copy_without_conf : copy_and_cat (drop 1 copy_settings) cat_settings (Some (str "b")) = Done (Some 1, Some (- ENOENT), Some []).
Proof. vm_compute. reflexivity. Qed.

(** Without a file and without -v there is nothing to write to. *)
Example cat_without_file : copy_and_cat copy_settings cat_settings None = Done (Some 0, Some (-1), None).
Proof. vm_compute. reflexivity. Qed.
End Witnesses.
