(* ===== verification/IoThread.v ===== *)
(** * Reading and writing in threads (src/examples/io_thread.c)

    Writing random blocks to an object and reading them back, each with an MD5 sum
    of the bytes that were moved; MD5 is a function that the programs are given. *)

From Stdlib Require Import String.
From S2P Require Import Prelude Bytes ObjId HintMap Types Hints CStr Conf CmdHelpers ObjService ObjCmd ObjCopy.
Open Scope Z_scope.

Definition IO_THREAD_MAX_RAND_NUM : Z := 1024.

Section IoThread.
Context `{HostOrder} `{ObjService}.

(** ** Blocks of random numbers *)

(** The loops that fill a block with a number of [wsz] bytes: whole numbers only. *)
Definition word_block (wsz : nat) (bsize rand : Z) : list Z :=
  mjoin (replicate (Z.to_nat (bsize / Z.of_nat wsz)) (native wsz rand)).

(** The inner loop of [io_thread_generate_data]. *)
Definition rand_block : Z → Z → list Z := word_block 4.

(** [io_thread_generate_data]; the MD5 context is the bytes it has been given.  The
    rest of a block whose size is no multiple of 4 is not set. *)
Fixpoint io_thread_generate_data (bsize : Z) (d : cmd_iovecs) (l : list cmd_iov) (ctx random : list Z)
  : outcome (list cmd_iov * list Z * list Z) :=
  match l with
  | [] => Done ([], ctx, random)
  | v :: l' =>
      '(rand, random) ← mio_cmd_random IO_THREAD_MAX_RAND_NUM random;
      _ ← ci_access d v bsize;
      if negb (bsize mod 4 =? 0) then Fault UninitRead else
      let bs := rand_block bsize rand in
      '(l', ctx, random) ← io_thread_generate_data bsize d l' (ctx ++ bs) random;
      Done (set_ci_data (take (Z.to_nat (ci_len v)) bs) v :: l', ctx, random)
  end.

(** The MD5 sum of what has been read: [bsize] bytes of every vector. *)
Fixpoint md5_update (bsize : Z) (l : list cmd_iov) (ctx : list Z) : outcome (list Z) :=
  match l with
  | [] => Done ctx
  | v :: l' =>
      match ci_data v with
      | Some bs => if Z.of_nat (length bs) <? bsize then Fault UninitRead
                   else md5_update bsize l' (ctx ++ take (Z.to_nat bsize) bs)
      | None => Fault UninitRead
      end
  end.

(** ** The loops

    Both functions share theirs; all arithmetic on sizes is in 32 bits. *)
Section Loop.
Context {X : Type} (body : cmd_iovecs → X → cmd_world → outcome (Z * bool * X * cmd_world)).
Context (block_size max_index : Z).

Fixpoint io_thread_loop (fuel : nat) (rc block_count last_index : Z) (x : X) (w : cmd_world)
  : outcome (Z * X * cmd_world) :=
  match fuel with
  | O => Fault NoTermination
  | S fuel =>
      if negb (0 <? block_count) then Done (rc, x, w) else
      let bcount := if MIO_CMD_MAX_BLOCK_COUNT_PER_OP <? block_count
                    then MIO_CMD_MAX_BLOCK_COUNT_PER_OP else block_count in
      let '(rc, data, p) := obj_alloc_iovecs bcount block_size last_index max_index (cw_plan w) in
      let w := set_cw_plan p w in
      match data with
      | None => Done (rc, x, w)
      | Some data =>
          '(rc, continue, x, w) ← body data x w;
          if negb continue then Done (rc, x, w) else
          io_thread_loop fuel rc (block_count - bcount) (u64 (last_index + u32 (bcount * block_size))) x w
      end
  end.
End Loop.

(** What a thread keeps: the handle, the MD5 context, the coming results of
    random(). *)
Record io_state := MkIoState { is_obj : mio_obj; is_ctx : list Z; is_random : list Z }.

Definition io_write_body (block_size : Z) (d : cmd_iovecs) (x : io_state) (w : cmd_world)
  : outcome (Z * bool * io_state * cmd_world) :=
  '(l, ctx, random) ← io_thread_generate_data block_size d (ci_vecs d) (is_ctx x) (is_random x);
  '(rc, o, w) ← obj_write (is_obj x) (MkCmdIovecs l (ci_size d)) w;
  Done (rc, rc =? 0, MkIoState o ctx random, w).

Definition io_read_body (block_size : Z) (d : cmd_iovecs) (x : io_state) (w : cmd_world)
  : outcome (Z * bool * io_state * cmd_world) :=
  '(rc, d, o, w) ← obj_read (is_obj x) d w;
  if negb (rc =? 0) then Done (rc, false, MkIoState o (is_ctx x) (is_random x), w) else
  ctx ← md5_update block_size (ci_vecs d) (is_ctx x);
  Done (rc, true, MkIoState o ctx (is_random x), w).

Context (md5 : list Z → list Z).

(** [io_thread_obj_write] and [io_thread_obj_read]: the result, *md5sum, the handle
    and the random numbers that are left. *)
Definition io_thread_obj (body : Z → cmd_iovecs → io_state → cmd_world → outcome (Z * bool * io_state * cmd_world))
    (fuel : nat) (o : mio_obj) (block_size block_count : Z) (random : list Z) (w : cmd_world)
  : outcome (Z * list Z * mio_obj * list Z * cmd_world) :=
  '(rc, x, w) ← io_thread_loop (body block_size) block_size (u32 (block_size * block_count)) fuel 0 block_count 0
                  (MkIoState o [] random) w;
  Done (rc, md5 (is_ctx x), is_obj x, is_random x, w).

Definition io_thread_obj_write := io_thread_obj io_write_body.
Definition io_thread_obj_read := io_thread_obj io_read_body.

(** ** Lemmas *)

(** As long as the sizes fit 32 bits the loop is that of the commands. *)
Lemma io_thread_loop_eq {X} (body : cmd_iovecs → X → cmd_world → outcome (Z * bool * X * cmd_world))
    bs mx fuel rc count li x w :
  0 <= bs → bs * count < 2 ^ 32 →
  io_thread_loop body bs mx fuel rc count li x w = blocks_loop body bs mx fuel rc count li x w.
Proof.
  intros Hbs. unfold blocks_loop. revert rc count li x w. induction fuel as [|fuel IH]; intros rc count li x w Hfit; [done|].
  cbn [io_thread_loop batches_loop]. destruct (Z.ltb_spec 0 count) as [Hpos|]; cbn [negb]; [|done].
  set (n := if MIO_CMD_MAX_BLOCK_COUNT_PER_OP <? count then MIO_CMD_MAX_BLOCK_COUNT_PER_OP else count).
  assert (Hn : 0 < n <= count).
  { unfold n, MIO_CMD_MAX_BLOCK_COUNT_PER_OP. destruct (Z.ltb_spec 120 count); lia. }
  destruct (obj_alloc_iovecs n bs li mx (cw_plan w)) as [[rc' [d|]] p]; [|done].
  destruct (body d x (set_cw_plan p w)) as [[[[rc1 b] x1] w1]|f]; [|done]. cbn [mbind outcome_bind].
  destruct b; cbn [negb]; [|done]. assert (n * bs <= count * bs) by (apply Z.mul_le_mono_nonneg_r; lia).
  rewrite (u32_small (n * bs)), (u64_small (n * bs)) by nia. apply IH. nia.
Qed.

(** The number of a block, and the byte of the data at an offset. *)
Definition block_rand (random : list Z) (k : Z) : Z :=
  match random !! Z.to_nat k with Some r => u32 r mod IO_THREAD_MAX_RAND_NUM | None => 0 end.

Definition word_data (wsz : nat) (bs : Z) (rnd : Z → Z) (z : Z) : Z :=
  nth (Z.to_nat (z mod bs mod Z.of_nat wsz)) (native wsz (rnd (z / bs))) 0.

Definition rand_data (bs : Z) (random : list Z) : Z → Z := word_data 4 bs (block_rand random).

Lemma repeat_bytes (l : list Z) m :
  l ≠ [] → mjoin (replicate m l) = (λ i, nth (i mod length l) l 0) <$> seq 0 (m * length l).
Proof.
  intros Hl. assert (length l ≠ O) by (by destruct l). induction m as [|m IH]; [done|].
  rewrite replicate_S_end, join_app, IH. simpl mjoin. rewrite app_nil_r.
  replace (S m * length l)%nat with (m * length l + length l)%nat by lia. rewrite seq_app, fmap_app. f_equal.
  apply list_eq. intros i. rewrite list_lookup_fmap. destruct (decide (i < length l)%nat) as [Hi|Hi].
  - rewrite lookup_seq_lt by done. cbn [fmap option_fmap option_map]. rewrite Nat.add_0_l.
    replace (m * length l + i)%nat with (i + m * length l)%nat by lia.
    rewrite Nat.Div0.mod_add, Nat.mod_small by done. destruct (lookup_lt_is_Some_2 l i Hi) as [x Hx].
    rewrite Hx. f_equal. symmetry. by apply nth_lookup_Some.
  - rewrite lookup_ge_None_2 by lia. by rewrite lookup_seq_ge by lia.
Qed.

Lemma word_block_bytes wsz bs rnd k :
  (0 < wsz)%nat → 0 < bs → bs mod Z.of_nat wsz = 0 → 0 <= k →
  word_block wsz bs (rnd k) = fbytes (word_data wsz bs rnd) (k * bs) bs.
Proof.
  intros Hw Hbs H4 Hk. unfold word_block. pose proof (length_native wsz (rnd k)) as Hlen.
  rewrite repeat_bytes by (intros Hn; rewrite Hn in Hlen; simpl in Hlen; lia). rewrite Hlen.
  unfold fbytes. replace (Z.to_nat (bs / Z.of_nat wsz) * wsz)%nat with (Z.to_nat bs).
  2:{ pose proof (proj2 (Z.div_exact bs (Z.of_nat wsz) ltac:(lia)) H4).
      assert (0 <= bs / Z.of_nat wsz) by (apply Z.div_pos; lia). lia. }
  apply list_fmap_ext. intros i j Hj. apply lookup_seq in Hj as [-> Hi]. unfold word_data.
  rewrite Nat.add_0_l. replace (k * bs + Z.of_nat i) with (Z.of_nat i + k * bs) by lia.
  rewrite Z.mod_add, Z.div_add by lia. rewrite (Z.mod_small (Z.of_nat i)), (Z.div_small (Z.of_nat i)) by lia.
  rewrite Z.add_0_l. f_equal. rewrite <- (Nat2Z.id (i mod wsz)), Nat2Z.inj_mod. done.
Qed.

Lemma rand_block_bytes bs random k :
  0 < bs → bs mod 4 = 0 → 0 <= k →
  rand_block bs (block_rand random k) = fbytes (rand_data bs random) (k * bs) bs.
Proof. intros. apply (word_block_bytes 4); (done || lia). Qed.

Lemma mio_cmd_random_nth random k :
  0 <= k →
  mio_cmd_random IO_THREAD_MAX_RAND_NUM (drop (Z.to_nat k) random) =
  Done (block_rand random k, drop (Z.to_nat (k + 1)) random).
Proof.
  intros Hk. unfold mio_cmd_random, block_rand. change (IO_THREAD_MAX_RAND_NUM =? 0) with false. cbn iota.
  replace (Z.to_nat (k + 1)) with (S (Z.to_nat k)) by lia.
  destruct (random !! Z.to_nat k) as [r|] eqn:E; [by rewrite (drop_S random r) by done|].
  apply lookup_ge_None in E. by rewrite !drop_ge by lia.
Qed.

(** Whole blocks. *)
Definition whole (bs : Z) (l : list cmd_iov) : Prop := Forall (λ v, ci_len v = bs) l.

Lemma generate_data_chain bs d l k e random ctx :
  0 < bs → bs mod 4 = 0 → 0 <= k → chain (ci_size d) (k * bs) l e → whole bs l →
  let f := rand_data bs random in
  io_thread_generate_data bs d l ctx (drop (Z.to_nat k) random) =
  Done (filled f l, ctx ++ fbytes f (k * bs) (e - k * bs), drop (Z.to_nat (k + Z.of_nat (length l))) random).
Proof.
  intros Hbs H4 Hk Hc Hw f. revert k ctx Hk Hc. induction Hw as [|v l Hv Hw IH]; intros k ctx Hk; cbn [chain].
  - intros <-. cbn. by rewrite Z.sub_diag, app_nil_r, Z.add_0_r.
  - intros (Ho & Hl & Hb & Hs & Hc). pose proof (chain_le _ _ _ _ Hc). rewrite Hv in *. cbn [io_thread_generate_data].
    rewrite mio_cmd_random_nth by done. cbn [mbind outcome_bind]. rewrite ci_access_ok by done.
    cbn [mbind outcome_bind]. rewrite H4. cbn [Z.eqb negb]. rewrite rand_block_bytes by done. fold f.
    replace (k * bs + bs) with ((k + 1) * bs) in * by lia. rewrite (IH (k + 1)) by (done || lia). cbn [mbind outcome_bind].
    rewrite Hv, take_ge by (rewrite length_fbytes; lia). cbn [filled fmap list_fmap length]. rewrite Ho, Hv.
    replace (k + 1 + Z.of_nat (length l)) with (k + Z.of_nat (S (length l))) by lia.
    rewrite <- app_assoc. replace (e - k * bs) with (bs + (e - (k + 1) * bs)) by lia.
    rewrite fbytes_app by lia. by replace (k * bs + bs) with ((k + 1) * bs) by lia.
Qed.

Lemma md5_update_chain bs size g l a e ctx :
  chain size a l e → whole bs l → md5_update bs (filled g l) ctx = Done (ctx ++ fbytes g a (e - a)).
Proof.
  intros Hc Hw. revert a ctx Hc. induction Hw as [|v l Hv Hw IH]; intros a ctx; cbn [chain].
  - intros <-. cbn. by rewrite Z.sub_diag, app_nil_r.
  - intros (Ho & Hl & Hb & Hs & Hc). pose proof (chain_le _ _ _ _ Hc). rewrite Hv in *.
    cbn [filled fmap list_fmap md5_update set_ci_data ci_data]. rewrite length_fbytes, Hv.
    rewrite (proj2 (Z.ltb_ge _ _)) by lia. rewrite take_ge by (rewrite length_fbytes; lia).
    unfold filled in IH. rewrite (IH _ _ Hc), <- app_assoc, Ho.
    replace (e - a) with (bs + (e - (a + bs))) by lia. by rewrite fbytes_app by lia.
Qed.

Lemma block_batch_whole bs size li n :
  0 < bs → 0 <= li → li + n * bs <= size → size + bs < 2 ^ 64 → whole bs (ci_vecs (block_batch bs size li n)).
Proof.
  intros Hbs Hli Hn Hfit. unfold whole, block_batch. cbn [ci_vecs]. apply Forall_fmap, Forall_forall.
  intros i Hi. apply elem_of_seqZ in Hi. unfold cmd_iov_at. cbn.
  assert (0 <= i * bs) by (apply Z.mul_nonneg_nonneg; lia).
  assert ((i + 1) * bs <= n * bs) by (apply Z.mul_le_mono_nonneg_r; lia).
  rewrite (u64_small (i * bs)) by lia. rewrite (u64_small (li + i * bs)) by lia. rewrite u64_small by lia.
  by rewrite (proj2 (Z.ltb_ge _ _)) by lia.
Qed.

(** ** What writing and reading do *)
Section Correct.
Abbreviation objs w := (sv_objects (cw_sv w)).
Context (oid : mio_obj_id) (a0 : obj_views) (bs count : Z).
Context (Hbs : 0 < bs) (Hcount : 0 < count) (Hfit : bs * count < 2 ^ 32).
Let size := count * bs.

(** The next block is a whole one. *)
Lemma blocks_left k n : 0 <= k → 0 < n → k * bs + (n - 1) * bs < size → k * bs + n * bs <= size ∧ k + n <= count.
Proof.
  intros Hk Hn Hlt. assert (k + n <= count); [|split; [unfold size; nia|done]].
  assert (Hm : (k + (n - 1)) * bs < count * bs) by (unfold size in Hlt; lia).
  apply Z.mul_lt_mono_pos_r in Hm; lia.
Qed.

Lemma loop_fits : 0 < size ∧ size + 121 * bs < 2 ^ 64 ∧ u32 (bs * count) = size ∧ bs < 2 ^ 32.
Proof. unfold size. assert (bs <= bs * count) by nia. rewrite u32_small by nia. split_and!; nia. Qed.

(** Writing: the context is made of the data below [off], and the object has them if
    it was [known] before. *)
Section Write.
Context (Hbs4 : bs mod 4 = 0) (random : list Z) (vt0 : obj_view) (s0 : Z) (known : Prop).
Let f := rand_data bs random.

Definition io_frame (x : io_state) (w : cmd_world) : Prop :=
  (∀ id, id ≠ oid → objs w id = a0 id) ∧ mo_id (is_obj x) = oid ∧ mo_drv_obj (is_obj x) ≠ None.

Definition io_write_inv (off : Z) (x : io_state) (w : cmd_world) : Prop :=
  io_frame x w ∧ ∃ k, 0 <= k ∧ off = k * bs ∧ is_ctx x = fbytes f 0 off ∧
    is_random x = drop (Z.to_nat k) random ∧ (known → dest_inv f oid vt0 s0 off (is_obj x) w).

Definition io_err (rc : Z) (x : io_state) (w : cmd_world) : Prop := rc < 0 ∧ io_frame x w.

Lemma io_write_body_correct li n x w :
  0 <= li → 0 < n <= 120 → li + (n - 1) * bs < size → io_write_inv li x w →
  ∃ rc b x' w', io_write_body bs (block_batch bs size li n) x w = Done (rc, b, x', w') ∧
    if b : bool then rc = 0 ∧ io_write_inv (batch_end bs size li n) x' w' else io_err rc x' w'.
Proof.
  intros Hli Hn Hlast [(Hfr & Hid & Hd) (k & Hk & -> & Hctx & Hrand & Hdest)].
  destruct loop_fits as (Hs & Hf & _ & _). destruct (blocks_left k n Hk ltac:(lia) Hlast) as [Hend _].
  destruct (obj_alloc_iovecs_spec bs size Hbs Hs Hf (k * bs) n [] Hli Hn Hlast) as (Hc & Hlen & _).
  pose proof (block_batch_whole bs size (k * bs) n Hbs Hli Hend ltac:(lia)) as Hw.
  assert (He : batch_end bs size (k * bs) n = (k + n) * bs) by (unfold batch_end; lia). rewrite He in *.
  set (b := block_batch bs size (k * bs) n) in *. unfold io_write_body. rewrite Hrand, Hctx.
  rewrite (generate_data_chain bs b (ci_vecs b) k _ random _ Hbs Hbs4 Hk Hc Hw). fold f. cbn [mbind outcome_bind].
  assert (0 < n * bs) by (apply Z.mul_pos_pos; lia).
  destruct (dest_write f oid vt0 s0 (is_obj x) (ci_vecs b) (ci_size b) w (k * bs) ((k + n) * bs) Hid Hli ltac:(lia) Hc)
    as (rc & o' & w2 & -> & Hrc2 & Hfr2 & Hid2 & Hd2 & Hok2).
  cbn [mbind outcome_bind]. eexists _, _, _, _. split; [done|].
  assert (Hframe : ∀ ctx r, io_frame (MkIoState o' ctx r) w2) by (intros; split; [intros; by rewrite Hfr2, Hfr|simpl; tauto]).
  destruct (Z.eqb_spec rc 0) as [->|Hrne]; [|split; [lia|done]].
  split; [done|]. split; [done|]. exists (k + n). split; [lia|]. split; [done|]. cbn [is_ctx is_random is_obj].
  rewrite Hlen. split; [|split; [done|by intros Hkn; apply Hok2, Hdest]].
  replace (fbytes f (k * bs)) with (fbytes f (0 + k * bs)) by done. rewrite <- fbytes_app by lia. f_equal. lia.
Qed.

(** [io_thread_obj_write] on an open handle returns; if the result is 0 the object
    has the random data, and the sum is theirs. *)
Lemma io_thread_obj_write_correct fuel o w :
  io_frame (MkIoState o [] random) w → (known → dest_inv f oid vt0 s0 0 o w) → (Z.to_nat count < fuel)%nat →
  ∃ rc sum o' random' w', io_thread_obj_write fuel o bs count random w = Done (rc, sum, o', random', w') ∧ rc <= 0 ∧
    io_frame (MkIoState o' [] random') w' ∧
    (rc = 0 → sum = md5 (fbytes f 0 size) ∧ (known → dest_inv f oid vt0 s0 size o' w')).
Proof.
  intros Hframe Hdest Hfuel. destruct loop_fits as (Hs & Hf & Hu & _).
  unfold io_thread_obj_write, io_thread_obj. rewrite io_thread_loop_eq, Hu by lia.
  destruct (blocks_loop_correct (io_write_body bs) bs size Hbs Hs Hf io_write_inv io_err) with
    (fuel := fuel) (c := count) (li := 0) (x := MkIoState o [] random) (w := w) as (rc & [o' ctx r] & w' & -> & Hend); try lia.
  - done.
  - intros off x1 w1 rc [Hfr _] Hrc. by split.
  - intros. by apply io_write_body_correct.
  - rewrite Z.min_l by lia. split; [done|]. exists 0. by rewrite Z.mul_0_l.
  - cbn [mbind outcome_bind is_ctx is_obj is_random]. eexists _, _, _, _, _. split; [done|].
    destruct Hend as [[-> [Hfr (k & Hk & Hoff & Hctx & _ & Hdest')]]|[Hneg Hfr]].
    + split; [done|]. split; [exact Hfr|]. intros _. rewrite Z.add_0_l in *.
      rewrite Z.min_l in * by (unfold size; lia). cbn [is_ctx is_obj] in *. by rewrite Hctx.
    + split; [lia|]. split; [exact Hfr|lia].
Qed.
End Write.

(** Reading. *)
Section Read.
Context (v : obj_view) (s0 : Z) (Hv : ∀ v', a0 oid = Some v' → v' = v).

Definition io_read_frame (x : io_state) (w : cmd_world) : Prop :=
  (∀ id, objs w id = a0 id) ∧ mo_id (is_obj x) = oid ∧ mo_drv_obj (is_obj x) ≠ None ∧
  moa_size (mo_attrs (is_obj x)) = s0.

Definition io_read_inv (off : Z) (x : io_state) (w : cmd_world) : Prop :=
  io_read_frame x w ∧ ∃ k, 0 <= k ∧ off = k * bs ∧ is_ctx x = fbytes (ov_bytes v) 0 off.

Definition io_read_err (rc : Z) (x : io_state) (w : cmd_world) : Prop := rc < 0 ∧ io_read_frame x w.

Lemma io_read_body_correct li n x w :
  0 <= li → 0 < n <= 120 → li + (n - 1) * bs < size → io_read_inv li x w →
  ∃ rc b x' w', io_read_body bs (block_batch bs size li n) x w = Done (rc, b, x', w') ∧
    if b : bool then rc = 0 ∧ io_read_inv (batch_end bs size li n) x' w' else io_read_err rc x' w'.
Proof.
  intros Hli Hn Hlast [(Hfr & Hid & Hd & Hsz) (k & Hk & -> & Hctx)].
  destruct loop_fits as (Hs & Hf & _ & _). destruct (blocks_left k n Hk ltac:(lia) Hlast) as [Hend _].
  destruct (obj_alloc_iovecs_spec bs size Hbs Hs Hf (k * bs) n [] Hli Hn Hlast) as (Hc & Hlen & _).
  pose proof (block_batch_whole bs size (k * bs) n Hbs Hli Hend ltac:(lia)) as Hw.
  assert (He : batch_end bs size (k * bs) n = (k + n) * bs) by (unfold batch_end; lia). rewrite He in *.
  set (b := block_batch bs size (k * bs) n) in *. unfold io_read_body.
  assert (0 < n * bs) by (apply Z.mul_pos_pos; lia).
  destruct (obj_read_spec (is_obj x) b w (k * bs) ((k + n) * bs) Hli ltac:(lia) Hc)
    as (rc & d & o' & w1 & -> & Hrc & Hobj1 & (Hid1 & Hsz1 & Hd1) & Hok). cbn [mbind outcome_bind].
  assert (Hframe : ∀ ctx r, io_read_frame (MkIoState o' ctx r) w1).
  { intros. split; [intros; by rewrite Hobj1, Hfr|]. simpl. split; [congruence|]. split; [tauto|congruence]. }
  destruct (Z.eqb_spec rc 0) as [->|Hrne]; cbn [negb].
  2:{ eexists _, _, _, _. split; [done|]. split; [lia|done]. }
  destruct (Hok eq_refl) as (v' & Hv' & ->). assert (v' = v) as -> by (apply Hv; by rewrite Hid, Hfr in Hv').
  cbn [ci_vecs]. rewrite (md5_update_chain bs (ci_size b) (ov_bytes v) (ci_vecs b) _ _ _ Hc Hw). cbn [mbind outcome_bind].
  eexists _, _, _, _. split; [done|]. split; [done|]. split; [done|]. exists (k + n). split; [lia|]. split; [done|].
  cbn [is_ctx]. rewrite Hctx. replace (fbytes (ov_bytes v) (k * bs)) with (fbytes (ov_bytes v) (0 + k * bs)) by done.
  rewrite <- fbytes_app by lia. f_equal. lia.
Qed.

Lemma io_thread_obj_read_correct fuel o random w :
  io_read_frame (MkIoState o [] random) w → (Z.to_nat count < fuel)%nat →
  ∃ rc sum o' random' w', io_thread_obj_read fuel o bs count random w = Done (rc, sum, o', random', w') ∧ rc <= 0 ∧
    io_read_frame (MkIoState o' [] random') w' ∧ (rc = 0 → sum = md5 (fbytes (ov_bytes v) 0 size)).
Proof.
  intros Hframe Hfuel. destruct loop_fits as (Hs & Hf & Hu & _).
  unfold io_thread_obj_read, io_thread_obj. rewrite io_thread_loop_eq, Hu by lia.
  destruct (blocks_loop_correct (io_read_body bs) bs size Hbs Hs Hf io_read_inv io_read_err) with
    (fuel := fuel) (c := count) (li := 0) (x := MkIoState o [] random) (w := w) as (rc & [o' ctx r] & w' & -> & Hend); try lia.
  - done.
  - intros off x1 w1 rc [Hfr _] Hrc. by split.
  - intros. by apply io_read_body_correct.
  - rewrite Z.min_l by lia. split; [done|]. exists 0. by rewrite Z.mul_0_l.
  - cbn [mbind outcome_bind is_ctx is_obj is_random]. eexists _, _, _, _, _. split; [done|].
    destruct Hend as [[-> [Hfr (k & Hk & Hoff & Hctx)]]|[Hneg Hfr]].
    + split; [done|]. split; [exact Hfr|]. intros _. rewrite Z.add_0_l in *.
      rewrite Z.min_l in * by (unfold size; lia). cbn [is_ctx] in *. by rewrite Hctx.
    + split; [lia|]. split; [exact Hfr|lia].
Qed.
End Read.
End Correct.
End IoThread.
