(* ===== verification/RwThreads.v ===== *)
(** * Concurrent writers and readers (src/examples/mio_rw_threads.c)

    Writer threads take objects from one list, write them and put them on another;
    reader threads take them from there, read them, compare the MD5 sums and delete
    them.  A step of a thread is one of its critical sections, or its reading,
    writing or deleting of one object outside of them.  pthread_cond_wait() is left
    when the condition is broadcast; waking up without that only repeats the
    test. *)

From Stdlib Require Import String.
From S2P Require Import Prelude Bytes ObjId HintMap Types Hints CStr Conf CmdHelpers ObjService ObjCmd ObjCopy IoThread.
Open Scope Z_scope.

(** ** The lists *)

(** [struct rwt_obj_todo]; a sum that is not set is [None]. *)
Record rwt_obj_todo := MkTodo {
  ot_oid : mio_obj_id;
  ot_block_size : Z;
  ot_block_count : Z;
  ot_md5sum_write : option (list Z);
  ot_md5sum_read : option (list Z)
}.

(** [struct rwt_obj_todo_list]: the counters, and the list behind otl_head. *)
Record rwt_obj_todo_list := MkTodoList {
  otl_nr_in_list : Z;
  otl_nr_todo : Z;
  otl_nr_done : Z;
  otl_nr_failed : Z;
  otl_nr_matched : Z;
  otl_head : list rwt_obj_todo
}.

Definition set_sum_write (sum : list Z) (t : rwt_obj_todo) : rwt_obj_todo :=
  MkTodo (ot_oid t) (ot_block_size t) (ot_block_count t) (Some sum) (ot_md5sum_read t).
Definition set_sum_read (sum : list Z) (t : rwt_obj_todo) : rwt_obj_todo :=
  MkTodo (ot_oid t) (ot_block_size t) (ot_block_count t) (ot_md5sum_write t) (Some sum).

(** Putting an object on a list, and taking one from it. *)
Definition otl_push (t : rwt_obj_todo) (l : rwt_obj_todo_list) : rwt_obj_todo_list :=
  MkTodoList (otl_nr_in_list l + 1) (otl_nr_todo l) (otl_nr_done l) (otl_nr_failed l) (otl_nr_matched l) (t :: otl_head l).
Definition otl_pop (rest : list rwt_obj_todo) (l : rwt_obj_todo_list) : rwt_obj_todo_list :=
  MkTodoList (otl_nr_in_list l - 1) (otl_nr_todo l) (otl_nr_done l) (otl_nr_failed l) (otl_nr_matched l) rest.
Definition otl_fail (l : rwt_obj_todo_list) : rwt_obj_todo_list :=
  MkTodoList (otl_nr_in_list l) (otl_nr_todo l) (otl_nr_done l) (otl_nr_failed l + 1) (otl_nr_matched l) (otl_head l).
Definition otl_finish (matched : bool) (l : rwt_obj_todo_list) : rwt_obj_todo_list :=
  MkTodoList (otl_nr_in_list l) (otl_nr_todo l) (otl_nr_done l + 1) (otl_nr_failed l)
    (if matched then otl_nr_matched l + 1 else otl_nr_matched l) (otl_head l).

Definition otl_complete (l : rwt_obj_todo_list) : bool := otl_nr_done l + otl_nr_failed l =? otl_nr_todo l.

Definition otl_init (nr_objs : Z) : rwt_obj_todo_list := MkTodoList 0 nr_objs 0 0 0 [].

(** The loops of [rwt_todo_lists_fini] take as many objects as the counter says; it
    is not set back. *)
Definition rwt_list_fini (l : rwt_obj_todo_list) : rwt_obj_todo_list :=
  MkTodoList (otl_nr_in_list l) (otl_nr_todo l) (otl_nr_done l) (otl_nr_failed l) (otl_nr_matched l)
    (drop (Z.to_nat (otl_nr_in_list l)) (otl_head l)).

Section RwThreads.
Context `{HostOrder} `{ObjService} (md5 : list Z → list Z) (fuel : nat).

(** [rwt_set_obj_id]: the index is added to the first word. *)
Definition rwt_set_obj_id (st_oid : mio_obj_id) (idx : Z) : mio_obj_id :=
  let u1 := mio_byteorder_be64_to_cpu (of_native (take 8 (moi_bytes st_oid))) in
  let u2 := mio_byteorder_be64_to_cpu (of_native (take 8 (drop 8 (moi_bytes st_oid)))) in
  MkObjId (native 8 (mio_byteorder_cpu_to_be64 (u64 (u1 + idx))) ++ native 8 (mio_byteorder_cpu_to_be64 u2)).

(** The loop of [rwt_todo_lists_init], and the function: the result, the list of
    objects to read and that of objects to write. *)
Fixpoint todo_lists_loop (st_oid : mio_obj_id) (block_size block_count : Z) (n : nat) (i : Z)
    (l : rwt_obj_todo_list) (p : mplan) : Z * rwt_obj_todo_list * mplan :=
  match n with
  | O => (0, l, p)
  | S n =>
      let '(ok, p) := plan_next p in
      if negb ok then (- ENOMEM, l, p) else
      let todo := MkTodo (rwt_set_obj_id st_oid i) block_size block_count None None in
      todo_lists_loop st_oid block_size block_count n (i + 1) (otl_push todo l) p
  end.

Definition rwt_todo_lists_init (st_oid : mio_obj_id) (nr_objs block_size block_count : Z) (p : mplan)
  : Z * rwt_obj_todo_list * rwt_obj_todo_list * mplan :=
  let '(rc, l, p) := todo_lists_loop st_oid block_size block_count (Z.to_nat nr_objs) 0 (otl_init nr_objs) p in
  if rc <? 0 then (rc, rwt_list_fini (otl_init nr_objs), rwt_list_fini l, p)
  else (rc, otl_init nr_objs, l, p).

(** ** One object *)

(** [rwt_obj_write]. *)
Definition rwt_obj_write (todo : rwt_obj_todo) (random : list Z) (w : cmd_world)
  : outcome (Z * rwt_obj_todo * list Z * cmd_world) :=
  '(rc, o, w) ← obj_create None (ot_oid todo) obj_zero None w;
  if (rc <? 0) && negb (rc =? - EEXIST) then Done (rc, todo, random, w) else
  '(rc, sum, o, random, w) ← io_thread_obj_write md5 fuel o (ot_block_size todo) (ot_block_count todo) random w;
  w ← cmd_close o w;
  Done (rc, set_sum_write sum todo, random, w).

(** [rwt_obj_read]. *)
Definition rwt_obj_read (todo : rwt_obj_todo) (random : list Z) (w : cmd_world)
  : outcome (Z * rwt_obj_todo * list Z * cmd_world) :=
  let '(rc, o, w) := obj_open (ot_oid todo) obj_zero w in
  if rc <? 0 then Done (rc, todo, random, w) else
  '(rc, sum, o, random, w) ← io_thread_obj_read md5 fuel o (ot_block_size todo) (ot_block_count todo) random w;
  w ← cmd_close o w;
  Done (rc, set_sum_read sum todo, random, w).

(** [rwt_obj_verify_md5sums]. *)
Definition rwt_obj_verify_md5sums (todo : rwt_obj_todo) : outcome bool :=
  match ot_md5sum_write todo, ot_md5sum_read todo with
  | Some s, Some t => Done (bool_decide (s = t))
  | _, _ => Fault UninitRead
  end.

(** ** Threads *)

(** Where a writer and a reader are: before the test of the main loop, reading or
    writing an object, before the critical section after that, deleting the object,
    before the last broadcast, and at the end.  A reader may be waiting. *)
Inductive wthread := WTake | WWrite (t : rwt_obj_todo) | WPut (t : rwt_obj_todo) (rc : Z) | WExit | WDone.
Inductive rthread := RTake | RSleep | RRead (t : rwt_obj_todo) | RPut (t : rwt_obj_todo) (rc : Z)
  | RRemove (t : rwt_obj_todo) (read_all_done : bool) | RExit | RDone.

(** What the threads share. *)
Record rwt_shared := MkShared {
  obj_to_write_list : rwt_obj_todo_list;
  obj_to_read_list : rwt_obj_todo_list;
  rwt_random : list Z;
  rwt_w : cmd_world
}.

Definition set_read_list (l : rwt_obj_todo_list) (s : rwt_shared) : rwt_shared :=
  MkShared (obj_to_write_list s) l (rwt_random s) (rwt_w s).

(** A step of [rwt_writer]: where it is afterwards, what is shared, and whether the
    condition was broadcast. *)
Definition rwt_writer (t : wthread) (s : rwt_shared) : outcome (option (wthread * rwt_shared * bool)) :=
  match t with
  | WTake =>
      let l := obj_to_write_list s in
      if otl_nr_in_list l =? 0 then Done (Some (WExit, s, false)) else
      match otl_head l with
      | [] => Fault AssertFail
      | todo :: rest =>
          Done (Some (WWrite todo, MkShared (otl_pop rest l) (obj_to_read_list s) (rwt_random s) (rwt_w s), false))
      end
  | WWrite todo =>
      '(rc, todo, random, w) ← rwt_obj_write todo (rwt_random s) (rwt_w s);
      Done (Some (WPut todo rc, MkShared (obj_to_write_list s) (obj_to_read_list s) random w, false))
  | WPut todo rc =>
      let l := obj_to_read_list s in
      let l := if rc =? 0 then otl_push todo l else if rc <? 0 then otl_fail l else l in
      Done (Some (WTake, set_read_list l s, true))
  | WExit => Done (Some (WDone, s, true))
  | WDone => Done None
  end.

(** A step of [rwt_reader]. *)
Definition rwt_reader (t : rthread) (s : rwt_shared) : outcome (option (rthread * rwt_shared * bool)) :=
  let l := obj_to_read_list s in
  match t with
  | RTake =>
      if otl_nr_in_list l =? 0 then Done (Some (if otl_complete l then RExit else RSleep, s, false)) else
      match otl_head l with
      | [] => Fault NullDeref
      | todo :: rest => Done (Some (RRead todo, set_read_list (otl_pop rest l) s, false))
      end
  | RSleep => Done None
  | RRead todo =>
      '(rc, todo, random, w) ← rwt_obj_read todo (rwt_random s) (rwt_w s);
      Done (Some (RPut todo rc, MkShared (obj_to_write_list s) l random w, false))
  | RPut todo rc =>
      if rc <? 0 then Done (Some (RRemove todo false, set_read_list (otl_fail l) s, false)) else
      matched ← rwt_obj_verify_md5sums todo;
      let l := otl_finish matched l in
      Done (Some (RRemove todo (otl_complete l), set_read_list l s, false))
  | RRemove todo read_all_done =>
      let '(_, w) := obj_rm (ot_oid todo) (rwt_w s) in
      Done (Some (if read_all_done then RExit else RTake, MkShared (obj_to_write_list s) l (rwt_random s) w, false))
  | RExit => Done (Some (RDone, s, true))
  | RDone => Done None
  end.

(** ** The program *)

Record rwt_state := MkRwt { rw_writers : list wthread; rw_readers : list rthread; rw_shared : rwt_shared }.

Definition wake (t : rthread) : rthread := match t with RSleep => RTake | t => t end.

Definition broadcast (b : bool) (l : list rthread) : list rthread := if b then wake <$> l else l.

Inductive rwt_id := Writer (i : nat) | Reader (i : nat).

(** A thread makes a step, unless it does not exist, waits or has ended. *)
Definition rwt_exec (who : rwt_id) (s : rwt_state) : outcome (option rwt_state) :=
  match who with
  | Writer i =>
      match rw_writers s !! i with
      | None => Done None
      | Some t =>
          r ← rwt_writer t (rw_shared s);
          Done ('(t, sh, b) ← r; Some (MkRwt (<[i := t]> (rw_writers s)) (broadcast b (rw_readers s)) sh))
      end
  | Reader i =>
      match rw_readers s !! i with
      | None => Done None
      | Some t =>
          r ← rwt_reader t (rw_shared s);
          Done ('(t, sh, b) ← r; Some (MkRwt (rw_writers s) (broadcast b (<[i := t]> (rw_readers s))) sh))
      end
  end.

Definition rwt_step (s s' : rwt_state) : Prop := ∃ who, rwt_exec who s = Done (Some s').

(** [mio_rwt_start] when all threads can be created: the result of
    rwt_todo_lists_init() is dropped. *)
Definition mio_rwt_start (nr_threads : nat) (st_oid : mio_obj_id) (nr_objs block_size block_count : Z)
    (p : mplan) (random : list Z) (w : cmd_world) : rwt_state :=
  let '(_, rl, wl, _) := rwt_todo_lists_init st_oid nr_objs block_size block_count p in
  MkRwt (replicate nr_threads WTake) (replicate nr_threads RTake) (MkShared wl rl random w).

Definition rwt_over (s : rwt_state) : Prop := Forall (λ t, t = WDone) (rw_writers s) ∧ Forall (λ t, t = RDone) (rw_readers s).

(** A schedule. *)
Fixpoint rwt_run (schedule : list rwt_id) (s : rwt_state) : outcome rwt_state :=
  match schedule with
  | [] => Done s
  | who :: schedule => r ← rwt_exec who s; rwt_run schedule (default s r)
  end.

(** ** Identifiers *)

Lemma rwt_set_obj_id_inj st_oid i j :
  0 <= i < 2 ^ 31 → 0 <= j < 2 ^ 31 → rwt_set_obj_id st_oid i = rwt_set_obj_id st_oid j → i = j.
Proof.
  intros Hi Hj Heq. apply (f_equal (λ id, (id_words id).1)) in Heq.
  assert (Hw : ∀ k, (id_words (rwt_set_obj_id st_oid k)).1 = (id_words (mio_cmd_obj_id_clone st_oid k 0)).1).
  { intros k. unfold id_words, mio__obj_id_to_uint128, rwt_set_obj_id, mio_cmd_obj_id_clone. cbn.
    by rewrite !take_app_length' by (by rewrite length_native). }
  rewrite !Hw, !clone_words in Heq. apply u64_add_inj in Heq; lia.
Qed.

(** ** One object: what a thread achieves *)
Section Object.
Abbreviation objs w := (sv_objects (cw_sv w)).
Context (bs count : Z) (Hbs : 0 < bs) (Hbs4 : bs mod 4 = 0) (Hcount : 0 < count) (Hfit : bs * count < 2 ^ 32).
Context (Hfuel : (Z.to_nat count < fuel)%nat) (Hhonest : exists_honest).

Definition todo_ok (t : rwt_obj_todo) : Prop := ot_block_size t = bs ∧ ot_block_count t = count.

(** The object holds the data of the sum. *)
Definition written (w : cmd_world) (t : rwt_obj_todo) : Prop :=
  ∃ v, objs w (ot_oid t) = Some v ∧ ot_md5sum_write t = Some (md5 (fbytes (ov_bytes v) 0 (count * bs))).

Lemma obj_create_spec oid w :
  ∃ rc o w', obj_create None oid obj_zero None w = Done (rc, o, w') ∧ rc <= 0 ∧
    (∀ id, id ≠ oid → objs w' id = objs w id) ∧
    (rc = 0 ∨ rc = - EEXIST → ∃ v, objs w' oid = Some v ∧ mo_id o = oid ∧ mo_drv_obj o ≠ None ∧
       moa_size (mo_attrs o) = ov_size v).
Proof.
  unfold obj_create. destruct (obj_open oid obj_zero w) as [[rc1 o1] w1] eqn:E1.
  pose proof E1 as Hopen. apply cmd_open_spec in Hopen as (Hr1 & Hobj1 & _ & _ & Hrc0 & Hn).
  destruct (Z.eqb_spec rc1 0) as [->|Hne0].
  { eexists _, _, _. split; [done|]. split; [unfold EEXIST; lia|]. split; [intros; by rewrite Hobj1|]. intros _.
    destruct (Hrc0 eq_refl) as (v & Hv & Hid & Hd & Hs). exists v. by rewrite Hobj1. }
  destruct (Z.eqb_spec rc1 (- ENOENT)) as [->|Hne].
  - destruct (Hn eq_refl) as [Hnone Hsz].
    destruct (obj_do_create_spec None oid o1 None w1) as (rc & o' & w' & Hc & Hr & Hfr & Hup' & Hok).
    rewrite Hc. eexists _, _, _. split; [done|]. split; [done|]. split; [intros; by rewrite Hfr, Hobj1|].
    intros [->| ->].
    + destruct (Hok eq_refl) as (v & Hv & Hs & _ & Hid & Hd & Hsz'). exists v. do 3 (split; [done|]).
      by rewrite Hsz', Hsz, Hs.
    + exfalso. unfold obj_do_create in Hc. cbn [mbind outcome_bind] in Hc. unfold cmd_start, mio_cmd_wait_on_op in Hc.
      change (0 <? 0) with false in Hc. cbn iota in Hc.
      destruct (proj2 Hhonest oid None None o1 (cw_sv w1)) as [Hs1 _]; [by rewrite Hobj1|].
      cbn [set_cw_plan cw_sv] in Hc. destruct (sv_start _ o1 (cw_sv w1)) as [[r o2] s2] eqn:Es. cbn [fst] in Hs1.
      destruct (Z.eqb_spec r 0) as [->|Hr0]; cbn [negb] in Hc; [|injection Hc; intros; congruence]. 
      apply sv_start_ok in Es as (_ & Hobj2 & _). cbn [cw_sv set_cw_ops set_cw_sv] in Hc.
      destruct (proj2 Hhonest oid None None o2 s2) as [_ Hs2]; [by rewrite Hobj2, Hobj1|].
      destruct (sv_wait _ o2 s2) as [[[r2 d2] o3] s3]. cbn [fst] in Hs2. injection Hc; intros; congruence.
  - eexists _, _, _. split; [done|]. split; [done|]. split; [intros; by rewrite Hobj1|].
    intros [->| ->]; [done|]. exfalso. unfold obj_open, cmd_start, mio_cmd_wait_on_op in E1.
    destruct (proj1 Hhonest oid obj_zero (cw_sv w)) as [Hs1 _].
    destruct (sv_start _ obj_zero (cw_sv w)) as [[r o2] s2]. cbn [fst] in Hs1.
    destruct (Z.eqb_spec r 0) as [->|Hr0]; cbn [negb] in E1; [|injection E1; intros; congruence].
    cbn [cw_sv set_cw_ops set_cw_sv] in E1. destruct (proj1 Hhonest oid o2 s2) as [_ Hs2].
    destruct (sv_wait _ o2 s2) as [[[r2 d2] o3] s3]. cbn [fst] in Hs2. injection E1; intros; congruence.
Qed.

Lemma rwt_obj_write_spec todo random w :
  todo_ok todo →
  ∃ rc todo' random' w', rwt_obj_write todo random w = Done (rc, todo', random', w') ∧ rc <= 0 ∧
    ot_oid todo' = ot_oid todo ∧ todo_ok todo' ∧ (∀ id, id ≠ ot_oid todo → objs w' id = objs w id) ∧
    (rc = 0 → written w' todo').
Proof.
  intros [Hb Hc]. unfold rwt_obj_write. rewrite Hb, Hc.
  destruct (obj_create_spec (ot_oid todo) w) as (rc & o & w1 & -> & Hrc & Hfr & Hok). cbn [mbind outcome_bind].
  destruct (decide (rc = 0 ∨ rc = - EEXIST)) as [Hopen|Hfail].
  2:{ replace ((rc <? 0) && negb (rc =? - EEXIST)) with true by (unfold EEXIST in *; lia).
      eexists _, _, _, _. split; [done|]. do 3 (split; [done|]). split; [done|]. intros ->. destruct Hfail. by left. }
  replace ((rc <? 0) && negb (rc =? - EEXIST)) with false by (unfold EEXIST in *; lia).
  destruct (Hok Hopen) as (vt0 & Hvt0 & Hid & Hd & Hsz).
  destruct (io_thread_obj_write_correct md5 (ot_oid todo) (objs w) bs count Hbs Hcount Hfit Hbs4 random vt0 (ov_size vt0) True fuel o w1)
    as (rc2 & sum & o2 & random2 & w2 & -> & Hrc2 & (Hfr2 & Hid2 & Hd2) & Hok2).
  - split_and!; [by intros id Hne; rewrite Hfr|done|done].
  - intros _. exists vt0. do 3 (split; [done|]). split; [lia|]. split; [lia|]. done.
  - done.
  - cbn [mbind outcome_bind]. cbn [is_obj] in *.
    destruct (dest_close (rand_data bs random) (ot_oid todo) vt0 (ov_size vt0) (count * bs) o2 w2 Hid2 Hd2) as (w3 & -> & Hfr3 & Hcl).
    cbn [mbind outcome_bind]. eexists _, _, _, _. split; [done|]. split; [done|]. split; [done|]. split; [done|].
    split; [intros; by rewrite Hfr3, Hfr2|]. intros ->. destruct (Hok2 eq_refl) as [-> Hdest].
    destruct (Hcl ltac:(apply Z.mul_pos_pos; lia) (Hdest I)) as (vt & Hvt & _ & Hbytes & _).
    exists vt. split; [done|]. cbn. do 2 f_equal. apply fbytes_ext. intros z Hz. symmetry. apply Hbytes. lia.
Qed.

Lemma rwt_obj_read_spec todo random w :
  todo_ok todo → written w todo →
  ∃ rc todo' random' w', rwt_obj_read todo random w = Done (rc, todo', random', w') ∧ rc <= 0 ∧
    ot_oid todo' = ot_oid todo ∧ todo_ok todo' ∧ (∀ id, objs w' id = objs w id) ∧
    (rc = 0 → rwt_obj_verify_md5sums todo' = Done true).
Proof.
  intros [Hb Hc] (v & Hv & Hsum). unfold rwt_obj_read. rewrite Hb, Hc.
  destruct (obj_open (ot_oid todo) obj_zero w) as [[rc o] w1] eqn:E1.
  apply cmd_open_spec in E1 as (Hr1 & Hobj1 & _ & _ & Hok & _).
  destruct (Z.ltb_spec rc 0) as [Hlt|Hge].
  { eexists _, _, _, _. split; [done|]. do 3 (split; [done|]). split; [done|]. lia. }
  destruct (Hok ltac:(lia)) as (v' & Hv' & Hid & Hd & Hsz). assert (v' = v) as -> by congruence.
  destruct (io_thread_obj_read_correct md5 (ot_oid todo) (objs w) bs count Hbs Hcount Hfit v (ov_size v) ltac:(congruence) fuel o random w1)
    as (rc2 & sum & o2 & random2 & w2 & -> & Hrc2 & (Hobj2 & Hid2 & Hd2 & Hsz2) & Hok2); [by split_and!|done|].
  cbn [mbind outcome_bind is_obj] in *.
  destruct (cmd_close_spec o2 w2 Hd2) as (w3 & -> & _ & Hfr3 & Hc3). cbn [mbind outcome_bind].
  eexists _, _, _, _. split; [done|]. split; [done|]. split; [done|]. split; [done|]. split.
  - intros id. destruct (decide (id = ot_oid todo)) as [->|Hne]; [|by rewrite Hfr3, Hobj2 by congruence].
    rewrite Hv, <- Hid2. eapply close_spec_same; [done| |done]. by rewrite Hid2, Hobj2.
  - intros ->. rewrite (Hok2 eq_refl). unfold rwt_obj_verify_md5sums. cbn. rewrite Hsum. by rewrite bool_decide_true.
Qed.
End Object.
End RwThreads.
