(* ===== verification/RwCorrect.v ===== *)
(** * Writers and readers in any order: the theorems on [RwThreads]

    An invariant of all interleavings, by induction on the steps: every object is at
    one place, the counters add up, and who waits can still be woken; and a measure
    that every step decreases. *)

From Stdlib Require Import String.
From stdpp Require Import list_numbers.
From S2P Require Import Prelude Bytes ObjId HintMap Types Hints CStr Conf CmdHelpers ObjService ObjCmd ObjCopy IoThread RwThreads.
Open Scope Z_scope.

Lemma bind_nil {A B} (f : A → list B) l : (∀ x, x ∈ l → f x = []) → l ≫= f = [].
Proof.
  induction l as [|x l IH]; intros Hl; [done|]. rewrite bind_cons, (Hl x) by left. apply IH. intros; apply Hl; by right.
Qed.

(** ** Where the objects are *)

Inductive stage := Fresh | Wrote (rc : Z) | Ready | ReadDone (rc : Z) | Gone.
Abbreviation claim := (stage * rwt_obj_todo)%type.

Definition wclaim (t : wthread) : list claim :=
  match t with WWrite todo => [(Fresh, todo)] | WPut todo rc => [(Wrote rc, todo)] | _ => [] end.
Definition rclaim (t : rthread) : list claim :=
  match t with
  | RRead todo => [(Ready, todo)] | RPut todo rc => [(ReadDone rc, todo)] | RRemove todo _ => [(Gone, todo)]
  | _ => []
  end.

(** An object that is not yet counted as done or failed. *)
Definition unfinished (c : claim) : nat := match c.1 with Gone => 0 | _ => 1 end.
Definition pending (cs : list claim) : Z := Z.of_nat (sum_list_with unfinished cs).

#[global] Instance pending_proper : Proper ((≡ₚ) ==> (=)) pending.
Proof. intros l k Hp. unfold pending. by rewrite Hp. Qed.

Lemma pending_cons c cs : pending (c :: cs) = Z.of_nat (unfinished c) + pending cs.
Proof. unfold pending. cbn [sum_list_with]. lia. Qed.

Lemma pending_nonneg cs : 0 <= pending cs.
Proof. unfold pending. lia. Qed.

Definition claim_ids (cs : list claim) : list mio_obj_id := (λ c, ot_oid c.2) <$> cs.

Section Invariant.
Context `{HostOrder} `{ObjService} (md5 : list Z → list Z) (fuel : nat).
Abbreviation objs w := (sv_objects (cw_sv w)).
Context (bs count : Z) (Hbs : 0 < bs) (Hbs4 : bs mod 4 = 0) (Hcount : 0 < count) (Hfit : bs * count < 2 ^ 32).
Context (Hfuel : (Z.to_nat count < fuel)%nat) (Hhonest : exists_honest).

Local Abbreviation written := (written md5 bs count).

Definition claim_ok (w : cmd_world) (c : claim) : Prop :=
  todo_ok bs count c.2 ∧
  match c.1 with
  | Fresh | Gone => True
  | Wrote rc => rc <= 0 ∧ (rc = 0 → written w c.2)
  | Ready => written w c.2
  | ReadDone rc => rc <= 0 ∧ (rc = 0 → rwt_obj_verify_md5sums c.2 = Done true)
  end.

(** What the threads share together with all places of objects. *)
Record claims_inv (sh : rwt_shared) (cs : list claim) : Prop := {
  ci_ok : Forall (claim_ok (rwt_w sh)) cs;
  ci_ids : NoDup (claim_ids cs);
  ci_total : pending cs + otl_nr_done (obj_to_read_list sh) + otl_nr_failed (obj_to_read_list sh) =
    otl_nr_todo (obj_to_read_list sh);
  ci_done : 0 <= otl_nr_done (obj_to_read_list sh);
  ci_failed : 0 <= otl_nr_failed (obj_to_read_list sh);
  ci_matched : otl_nr_matched (obj_to_read_list sh) = otl_nr_done (obj_to_read_list sh);
  ci_wcount : otl_nr_in_list (obj_to_write_list sh) = Z.of_nat (length (otl_head (obj_to_write_list sh)));
  ci_rcount : otl_nr_in_list (obj_to_read_list sh) = Z.of_nat (length (otl_head (obj_to_read_list sh)))
}.

#[global] Instance claims_inv_proper sh : Proper ((≡ₚ) ==> iff) (claims_inv sh).
Proof.
  intros l k Hp. split; intros [Ho Hn Ht ? ? ? ? ?]; (split; [by rewrite Hp in Ho || rewrite <- Hp in Ho| | |done..]).
  - unfold claim_ids in *. by rewrite <- Hp.
  - by rewrite <- Hp.
  - unfold claim_ids in *. by rewrite Hp.
  - by rewrite Hp.
Qed.

Definition listed (sh : rwt_shared) : list claim :=
  ((λ t, (Fresh, t)) <$> otl_head (obj_to_write_list sh)) ++ ((λ t, (Ready, t)) <$> otl_head (obj_to_read_list sh)).

(** What holds of a claim depends on its own object only. *)
Lemma claim_ok_frame w w' c : objs w' (ot_oid c.2) = objs w (ot_oid c.2) → claim_ok w c → claim_ok w' c.
Proof. intros He. unfold claim_ok, RwThreads.written. destruct c as [[] t]; simpl in *; rewrite ?He; done. Qed.

(** One claim changes, and the world at its object. *)
Lemma claims_update w w' c c' cs :
  Forall (claim_ok w) (c :: cs) → NoDup (claim_ids (c :: cs)) → ot_oid c'.2 = ot_oid c.2 →
  (∀ id, id ≠ ot_oid c.2 → objs w' id = objs w id) → claim_ok w' c' →
  Forall (claim_ok w') (c' :: cs) ∧ NoDup (claim_ids (c' :: cs)).
Proof.
  intros Hok Hnd Hid Hfr Hc'. apply Forall_cons in Hok as [_ Hok]. unfold claim_ids in *.
  rewrite fmap_cons in *. apply NoDup_cons in Hnd as [Hni Hnd]. split.
  - constructor; [done|]. rewrite Forall_forall in Hok |- *. intros d Hd.
    eapply claim_ok_frame; [|by apply Hok]. apply Hfr. intros Heq. apply Hni. rewrite <- Heq.
    apply list_elem_of_fmap. by exists d.
  - rewrite Hid. by constructor.
Qed.

(** ** A step of a writer *)
Lemma writer_inv t sh cs :
  claims_inv sh (wclaim t ++ listed sh ++ cs) →
  ∃ r, rwt_writer md5 fuel t sh = Done r ∧
    match r with
    | None => t = WDone
    | Some (t', sh', _) => claims_inv sh' (wclaim t' ++ listed sh' ++ cs)
    end.
Proof.
  intros Hinv. pose proof Hinv as [Hok Hnd Htot Hdone Hfailed Hmat Hwc Hrc]. destruct t as [|todo|todo rc| |]; cbn [rwt_writer].
  - destruct (Z.eqb_spec (otl_nr_in_list (obj_to_write_list sh)) 0) as [Hz|Hnz]; [by eexists|].
    destruct (otl_head (obj_to_write_list sh)) as [|todo rest] eqn:Eh; [simpl in Hwc; lia|].
    eexists. split; [done|]. unfold listed in *. rewrite Eh in *. cbn [obj_to_write_list obj_to_read_list otl_pop otl_head wclaim].
    split; try done. cbn in *. lia.
  - cbn [wclaim app] in *. pose proof Hok as [[Htodo _] _]%Forall_cons.
    destruct (rwt_obj_write_spec md5 fuel bs count Hbs Hbs4 Hcount Hfit Hfuel Hhonest todo (rwt_random sh) (rwt_w sh) Htodo)
      as (rc & todo' & random' & w' & -> & Hrc0 & Hid & Htodo' & Hfr & Hw). cbn [mbind outcome_bind].
    eexists. split; [done|]. cbn [wclaim app]. 
    destruct (claims_update _ w' _ (Wrote rc, todo') _ Hok Hnd Hid Hfr) as [Hok' Hnd']; [by split|].
    split; try done.
  - cbn [wclaim app] in *. pose proof Hok as [[Htodo [Hle Hw]] _]%Forall_cons. eexists. split; [done|].
    cbn [wclaim app] in *. destruct (Z.eqb_spec rc 0) as [->|Hne].
    + assert (Hp : (Wrote 0, todo) :: listed sh ++ cs ≡ₚ (Wrote 0, todo) :: (listed sh ++ cs)) by done.
      assert (Hl : listed (set_read_list (otl_push todo (obj_to_read_list sh)) sh) ++ cs ≡ₚ (Ready, todo) :: listed sh ++ cs).
      { unfold listed. cbn. solve_Permutation. }
      rewrite Hl. destruct (claims_update _ (rwt_w sh) _ (Ready, todo) _ Hok Hnd eq_refl) as [Hok' Hnd']; [done| |].
      { split; [done|by apply Hw]. }
      split; try done. cbn. rewrite Hrc. lia.
    + rewrite (proj2 (Z.ltb_lt rc 0)) by lia. apply Forall_cons in Hok as [_ Hok]. unfold claim_ids in Hnd.
      rewrite fmap_cons in Hnd. apply NoDup_cons in Hnd as [_ Hnd]. rewrite pending_cons in Htot. cbn [unfinished fst] in Htot.
      split; cbn; try done; try lia. unfold listed in *. cbn in *. lia.
  - by eexists.
  - by eexists.
Qed.

(** ** A step of a reader *)
Lemma reader_inv t sh cs :
  claims_inv sh (rclaim t ++ listed sh ++ cs) →
  ∃ r, rwt_reader md5 fuel t sh = Done r ∧
    match r with
    | None => t = RSleep ∨ t = RDone
    | Some (t', sh', _) => claims_inv sh' (rclaim t' ++ listed sh' ++ cs)
    end.
Proof.
  intros Hinv. pose proof Hinv as [Hok Hnd Htot Hdone Hfailed Hmat Hwc Hrc].
  destruct t as [| |todo|todo rc|todo all_done| |]; cbn [rwt_reader].
  - destruct (Z.eqb_spec (otl_nr_in_list (obj_to_read_list sh)) 0) as [Hz|Hnz].
    { eexists. split; [done|]. by destruct (otl_complete _). }
    destruct (otl_head (obj_to_read_list sh)) as [|todo rest] eqn:Eh; [simpl in Hrc; lia|].
    eexists. split; [done|]. cbn [rclaim app] in *.
    assert (Hl : listed sh ++ cs ≡ₚ (Ready, todo) :: listed (set_read_list (otl_pop rest (obj_to_read_list sh)) sh) ++ cs).
    { unfold listed. rewrite Eh. cbn. solve_Permutation. }
    rewrite Hl in Hinv. destruct Hinv as [Hok' Hnd' Htot' _ _ _ _ _]. split; try done. cbn in *. lia.
  - eexists. split; [done|]. by left.
  - cbn [rclaim app] in *. pose proof Hok as [[Htodo Hw] _]%Forall_cons.
    destruct (rwt_obj_read_spec md5 fuel bs count Hbs Hcount Hfit Hfuel todo (rwt_random sh) (rwt_w sh) Htodo Hw)
      as (rc & todo' & random' & w' & -> & Hrc0 & Hid & Htodo' & Hfr & Hv). cbn [mbind outcome_bind].
    eexists. split; [done|]. cbn [rclaim app].
    destruct (claims_update _ w' _ (ReadDone rc, todo') _ Hok Hnd Hid) as [Hok' Hnd']; [intros; apply Hfr|by split|].
    split; try done.
  - cbn [rclaim app] in *. pose proof Hok as [[Htodo [Hle Hv]] _]%Forall_cons.
    destruct (claims_update _ (rwt_w sh) _ (Gone, todo) _ Hok Hnd eq_refl) as [Hok' Hnd']; [done|by split|].
    rewrite pending_cons in Htot. cbn [unfinished fst] in Htot.
    destruct (Z.ltb_spec rc 0) as [Hlt|Hge].
    + eexists. split; [done|]. cbn [rclaim app]. split; try done; cbn; try lia.
      rewrite pending_cons. cbn. unfold listed in *. cbn in *. lia.
    + cbn [snd] in Hv. rewrite (Hv ltac:(lia)). cbn [mbind outcome_bind]. eexists. split; [done|]. cbn [rclaim app].
      split; try done; cbn; try lia. rewrite pending_cons. cbn. unfold listed in *. cbn in *. lia.
  - cbn [rclaim app] in *. destruct (obj_rm (ot_oid todo) (rwt_w sh)) as [rc w'] eqn:Erm.
    apply obj_rm_spec in Erm as (_ & Hfr & _). eexists. split; [done|].
    destruct (claims_update _ w' _ (Gone, todo) _ Hok Hnd eq_refl Hfr) as [Hok' Hnd'];
      [split; [by apply Forall_cons in Hok as [[? _] _]|done]|].
    apply Forall_cons in Hok' as [_ Hok']. unfold claim_ids in Hnd'. rewrite fmap_cons in Hnd'.
    apply NoDup_cons in Hnd' as [_ Hnd']. rewrite pending_cons in Htot. cbn [unfinished fst] in Htot.
    replace (rclaim (if all_done then RExit else RTake)) with (@nil claim) by (by destruct all_done).
    split; done.
  - by eexists.
  - eexists. split; [done|]. by right.
Qed.

(** ** The whole program *)

Definition claims (s : rwt_state) : list claim :=
  listed (rw_shared s) ++ (rw_writers s ≫= wclaim) ++ (rw_readers s ≫= rclaim).

(** A reader that will broadcast, or test the condition again. *)
Definition busy (t : rthread) : Prop := match t with RTake | RRemove _ _ | RExit => True | _ => False end.

(** A reader that has seen the end. *)
Definition leaving (t : rthread) : Prop := match t with RRemove _ true | RExit | RDone => True | _ => False end.

Record rwt_inv (s : rwt_state) : Prop := {
  ri_claims : claims_inv (rw_shared s) (claims s);
  ri_wexit : ∀ t, t ∈ rw_writers s → t = WExit ∨ t = WDone → otl_head (obj_to_write_list (rw_shared s)) = [];
  ri_sleep : RSleep ∈ rw_readers s → otl_head (obj_to_read_list (rw_shared s)) = [] ∧
    (otl_complete (obj_to_read_list (rw_shared s)) = false ∨ ∃ t, t ∈ rw_readers s ∧ busy t);
  ri_leave : ∀ t, t ∈ rw_readers s → leaving t → otl_complete (obj_to_read_list (rw_shared s)) = true
}.

Lemma insert_elem {A} (l : list A) i x y z :
  l !! i = Some x → z ∈ <[i := y]> l → z = y ∨ z ∈ l.
Proof.
  intros Hi Hz. destruct (thread_split l i x y Hi) as [Hl Hl']. rewrite Hl' in Hz. rewrite Hl.
  apply elem_of_cons in Hz as [->|Hz]; [by left|]. right. by right.
Qed.

Lemma insert_keeps {A} (l : list A) i x y z :
  l !! i = Some x → z ∈ l → z ≠ x → z ∈ <[i := y]> l.
Proof.
  intros Hi Hz Hne. destruct (thread_split l i x y Hi) as [Hl Hl']. rewrite Hl in Hz. rewrite Hl'.
  apply elem_of_cons in Hz as [->|Hz]; [done|]. by right.
Qed.

Lemma insert_new {A} (l : list A) i x y : l !! i = Some x → y ∈ <[i := y]> l.
Proof. intros Hi. apply list_elem_of_insert. by eapply lookup_lt_Some. Qed.

Lemma broadcast_claims b l : broadcast b l ≫= rclaim = l ≫= rclaim.
Proof.
  destruct b; [|done]. cbn [broadcast]. induction l as [|t l IH]; [done|]. rewrite fmap_cons, !bind_cons, IH. by destruct t.
Qed.

Lemma no_sleep l : RSleep ∉ broadcast true l.
Proof. intros (t & Ht & _)%list_elem_of_fmap. by destruct t. Qed.

(** After all objects are counted there is none left. *)
Lemma complete_pending sh cs : claims_inv sh cs → otl_complete (obj_to_read_list sh) = true → pending cs = 0.
Proof. intros [_ _ Ht _ _ _ _ _] Hc. unfold otl_complete in Hc. lia. Qed.

Lemma writer_step_inv i t s :
  rwt_inv s → rw_writers s !! i = Some t →
  ∃ r, rwt_exec md5 fuel (Writer i) s = Done r ∧
    match r with None => t = WDone | Some s' => rwt_inv s' end.
Proof.
  intros [Hcl Hwe Hsl Hlv] Hi. cbn [rwt_exec]. rewrite Hi. destruct (thread_split _ _ _ t Hi) as [Hsp _].
  assert (Hperm : claims s ≡ₚ wclaim t ++ listed (rw_shared s) ++ (delete i (rw_writers s) ≫= wclaim) ++ (rw_readers s ≫= rclaim)).
  { unfold claims. rewrite Hsp at 1. cbn [mbind list_bind]. solve_Permutation. }
  rewrite Hperm in Hcl. pose proof Hcl as Hcl0. apply writer_inv in Hcl as ([[[t' sh'] b]|] & Hstep & Hpost); rewrite Hstep;
    cbn [mbind outcome_bind option_bind]; eexists; (split; [done|]); [|done].
  destruct (thread_split _ _ _ t' Hi) as [_ Hsp'].
  assert (Hclaims : claims_inv sh' (claims (MkRwt (<[i := t']> (rw_writers s)) (broadcast b (rw_readers s)) sh'))).
  { unfold claims. cbn [rw_writers rw_readers rw_shared]. rewrite Hsp', broadcast_claims. cbn [mbind list_bind].
    match goal with |- claims_inv _ ?l => assert (l ≡ₚ wclaim t' ++ listed sh' ++ (delete i (rw_writers s) ≫= wclaim) ++ (rw_readers s ≫= rclaim)) as -> by solve_Permutation end.
    done. }
  assert (Hcase : (b = true ∧ ((∃ todo rc, t = WPut todo rc ∧ t' = WTake) ∨ t = WExit ∧ t' = WDone ∧ sh' = rw_shared s) ∧
      obj_to_write_list sh' = obj_to_write_list (rw_shared s)) ∨
    (b = false ∧ obj_to_read_list sh' = obj_to_read_list (rw_shared s) ∧
      (otl_head (obj_to_write_list (rw_shared s)) = [] → otl_head (obj_to_write_list sh') = []) ∧
      (t' = WExit ∨ t' = WDone → otl_head (obj_to_write_list sh') = []))).
  { pose proof (ci_wcount _ _ Hcl0) as Hwc. destruct t as [|todo|todo rc| |]; cbn [rwt_writer] in Hstep.
    - destruct (Z.eqb_spec (otl_nr_in_list (obj_to_write_list (rw_shared s))) 0) as [Hz|Hnz].
      + injection Hstep as <- <- <-. right. split_and!; try done. intros _. apply length_zero_iff_nil. lia.
      + destruct (otl_head (obj_to_write_list (rw_shared s))) as [|todo rest] eqn:Eh; [done|].
        injection Hstep as <- <- <-. right. split_and!; try done. intros [|]; done.
    - apply outcome_bind_Done in Hstep as ([[[rc todo'] random'] w'] & _ & Hstep). injection Hstep as <- <- <-.
      right. split_and!; try done. intros [|]; done.
    - injection Hstep as <- <- <-. left. split_and!; try done. left. by eexists _, _.
    - injection Hstep as <- <- <-. left. split_and!; try done. by right.
    - done. }
  split; [exact Hclaims|..]; cbn [rw_writers rw_readers rw_shared] in *.
  - intros z Hz Hend. destruct (insert_elem _ _ _ _ _ Hi Hz) as [->|Hold].
    + destruct Hcase as [(_ & [(todo & rc & _ & ->)|(-> & -> & ->)] & Hw)|(_ & _ & _ & Hx)]; [by destruct Hend| |by apply Hx].
      apply (Hwe WExit); [by eapply list_elem_of_lookup_2|by left].
    + specialize (Hwe z Hold Hend). destruct Hcase as [(_ & _ & ->)|(_ & _ & Hx & _)]; [done|by apply Hx].
  - intros Hs. destruct Hcase as [(-> & _)|(-> & Hrl & _)]; [by apply no_sleep in Hs|].
    cbn [broadcast] in *. rewrite Hrl. by apply Hsl.
  - intros z Hz Hl. assert (Hold : ∃ z', z' ∈ rw_readers s ∧ leaving z').
    { destruct b; cbn [broadcast] in Hz; [|by exists z]. apply list_elem_of_fmap in Hz as (z' & -> & Hz').
      exists z'. split; [done|]. by destruct z'. }
    destruct Hold as (z' & Hz' & Hl'). specialize (Hlv z' Hz' Hl').
    destruct Hcase as [(-> & [(todo & rc & -> & ->)|(-> & -> & ->)] & Hw)|(_ & -> & _)]; [|done|done].
    exfalso. pose proof (complete_pending _ _ Hcl0 Hlv) as Hp. cbn [wclaim app] in Hp.
    rewrite pending_cons in Hp. cbn [unfinished fst] in Hp.
    match type of Hp with _ + pending ?l = _ => pose proof (pending_nonneg l) end. lia.
Qed.

(** What a step of a reader does to the counters and to itself. *)
Lemma reader_step_cases t sh cs t' sh' b :
  claims_inv sh (rclaim t ++ listed sh ++ cs) → rwt_reader md5 fuel t sh = Done (Some (t', sh', b)) →
  obj_to_write_list sh' = obj_to_write_list sh ∧
  ((t = RExit ∧ t' = RDone ∧ sh' = sh ∧ b = true) ∨
   b = false ∧
   ((t = RTake ∧ sh' = sh ∧ otl_head (obj_to_read_list sh) = [] ∧
       ((t' = RSleep ∧ otl_complete (obj_to_read_list sh) = false) ∨
        (t' = RExit ∧ otl_complete (obj_to_read_list sh) = true))) ∨
    (t = RTake ∧ (∃ todo, t' = RRead todo) ∧ otl_head (obj_to_read_list sh) ≠ [] ∧
       otl_complete (obj_to_read_list sh') = otl_complete (obj_to_read_list sh)) ∨
    ((∃ todo, t = RRead todo) ∧ (∃ todo rc, t' = RPut todo rc) ∧ obj_to_read_list sh' = obj_to_read_list sh) ∨
    ((∃ todo rc, t = RPut todo rc) ∧ (∃ todo d, t' = RRemove todo d ∧ (d = true → otl_complete (obj_to_read_list sh') = true)) ∧
       otl_head (obj_to_read_list sh') = otl_head (obj_to_read_list sh)) ∨
    ((∃ todo d, t = RRemove todo d ∧ t' = if d : bool then RExit else RTake) ∧ obj_to_read_list sh' = obj_to_read_list sh))).
Proof.
  intros [_ _ _ _ _ _ _ Hrc] Hstep. destruct t as [| |todo|todo rc|todo d| |]; cbn [rwt_reader] in Hstep; try done.
  - destruct (Z.eqb_spec (otl_nr_in_list (obj_to_read_list sh)) 0) as [Hz|Hnz].
    + injection Hstep as <- <- <-. split; [done|]. right. split; [done|]. left. do 2 (split; [done|]).
      split; [apply length_zero_iff_nil; lia|]. destruct (otl_complete _); [by right|by left].
    + destruct (otl_head (obj_to_read_list sh)) as [|todo rest] eqn:Eh; [done|].
      injection Hstep as <- <- <-. split; [done|]. right. split; [done|]. right. left. split_and!; try done. by eexists.
  - apply outcome_bind_Done in Hstep as ([[[rc todo'] random'] w'] & _ & Hstep). injection Hstep as <- <- <-.
    split; [done|]. right. split; [done|]. do 2 right. left. split_and!; [by eexists|by eexists _, _|done].
  - split.
    { destruct (rc <? 0); [by injection Hstep as <- <- <-|]. apply outcome_bind_Done in Hstep as (m & _ & Hstep).
      by injection Hstep as <- <- <-. }
    right. destruct (rc <? 0).
    + injection Hstep as <- <- <-. split; [done|]. do 3 right. left. split; [by eexists _, _|]. split; [|done].
      by eexists _, _.
    + apply outcome_bind_Done in Hstep as (m & _ & Hstep). injection Hstep as <- <- <-. split; [done|]. do 3 right. left.
      split; [by eexists _, _|]. split; [|done]. eexists _, _. split; [done|]. done.
  - destruct (obj_rm (ot_oid todo) (rwt_w sh)) as [rc w']. injection Hstep as <- <- <-. split; [done|]. right.
    split; [done|]. do 4 right. split; [|done]. by eexists _, _.
  - injection Hstep as <- <- <-. split; [done|]. by left.
Qed.

Lemma reader_step_inv i t s :
  rwt_inv s → rw_readers s !! i = Some t →
  ∃ r, rwt_exec md5 fuel (Reader i) s = Done r ∧
    match r with None => t = RSleep ∨ t = RDone | Some s' => rwt_inv s' end.
Proof.
  intros [Hcl Hwe Hsl Hlv] Hi. cbn [rwt_exec]. rewrite Hi. destruct (thread_split _ _ _ t Hi) as [Hsp _].
  assert (Hperm : claims s ≡ₚ rclaim t ++ listed (rw_shared s) ++ (rw_writers s ≫= wclaim) ++ (delete i (rw_readers s) ≫= rclaim)).
  { unfold claims. rewrite Hsp at 1. cbn [mbind list_bind]. solve_Permutation. }
  rewrite Hperm in Hcl. pose proof Hcl as Hcl0. apply reader_inv in Hcl as ([[[t' sh'] b]|] & Hstep & Hpost); rewrite Hstep;
    cbn [mbind outcome_bind option_bind]; eexists; (split; [done|]); [|done].
  destruct (thread_split _ _ _ t' Hi) as [_ Hsp'].
  destruct (reader_step_cases _ _ _ _ _ _ Hcl0 Hstep) as [Hw Hcase].
  pose proof (list_elem_of_lookup_2 _ _ _ Hi) as Ht.
  split; cbn [rw_writers rw_readers rw_shared].
  - unfold claims. cbn [rw_writers rw_readers rw_shared]. rewrite broadcast_claims, Hsp'. cbn [mbind list_bind].
    match goal with |- claims_inv _ ?l => assert (l ≡ₚ rclaim t' ++ listed sh' ++ (rw_writers s ≫= wclaim) ++ (delete i (rw_readers s) ≫= rclaim)) as -> by solve_Permutation end.
    done.
  - rewrite Hw. exact Hwe.
  - intros Hs. destruct Hcase as [(_ & _ & _ & ->)|[-> Hcase]]; [by apply no_sleep in Hs|]. cbn [broadcast] in *.
    destruct (insert_elem _ _ _ _ _ Hi Hs) as [Hnew|Hold].
    + destruct Hcase as [(-> & -> & Hh & [[_ Hc]|[-> _]])|[(_ & (? & ->) & _)|[(_ & (? & ? & ->) & _)|
        [(_ & (? & ? & -> & _) & _)|((? & d & _ & ->) & _)]]]]; try done; [|by destruct d].
      split; [done|by left].
    + destruct (Hsl Hold) as [Hh Hbusy].
      assert (Hnb : busy t' → ∃ z, z ∈ <[i := t']> (rw_readers s) ∧ busy z).
      { intros Hb. exists t'. split; [by eapply insert_new|done]. }
      destruct Hcase as [(-> & -> & _ & [[-> Hc]|[-> _]])|[(_ & _ & Hne & _)|[((? & ->) & (? & ? & ->) & ->)|
        [(_ & (? & ? & -> & _) & ->)|((? & d & -> & ->) & ->)]]]].
      * split; [done|by left].
      * split; [done|]. right. by apply Hnb.
      * done.
      * split; [done|]. destruct Hbusy as [|(z & Hz & Hb)]; [by left|right]. exists z. split; [|done].
        eapply insert_keeps; [done..|]. by intros ->.
      * split; [done|]. right. by apply Hnb.
      * split; [done|]. right. apply Hnb. by destruct d.
  - intros z Hz Hl.
    assert (Hold : z = t' ∨ ∃ z', z' ∈ rw_readers s ∧ leaving z').
    { destruct b; cbn [broadcast] in Hz.
      - apply list_elem_of_fmap in Hz as (z' & -> & Hz'). assert (leaving z') by (by destruct z').
        destruct (insert_elem _ _ _ _ _ Hi Hz') as [->|Ho]; [|right; by exists z'].
        left. destruct Hcase as [(_ & -> & _)|[? _]]; done.
      - destruct (insert_elem _ _ _ _ _ Hi Hz) as [->|Ho]; [by left|right; by exists z]. }
    destruct Hold as [->|(z' & Hz' & Hl')].
    + destruct Hcase as [(-> & -> & -> & ->)|[-> [(-> & -> & Hh & [[-> Hc]|[-> Hc]])|[(_ & (? & ->) & _)|[(_ & (? & ? & ->) & _)|
        [(_ & (? & d & -> & Hd) & _)|((? & d & -> & ->) & ->)]]]]]]; try done.
      * by apply (Hlv RExit).
      * destruct d; [by apply Hd|done].
      * destruct d; [|done]. by eapply (Hlv (RRemove _ true)).
    + pose proof (Hlv z' Hz' Hl') as Hc. pose proof (complete_pending _ _ Hcl0 Hc) as Hp.
      destruct Hcase as [(_ & _ & -> & _)|[_ [(_ & -> & _)|[(_ & _ & _ & ->)|[(_ & _ & ->)|
        [((? & ? & ->) & _)|(_ & ->)]]]]]]; done.
Qed.

(** No step of any thread faults, and every step keeps the invariant. *)
Lemma rwt_exec_inv who s :
  rwt_inv s → ∃ r, rwt_exec md5 fuel who s = Done r ∧ from_option rwt_inv True r.
Proof.
  intros Hinv. destruct who as [i|i].
  - destruct (rw_writers s !! i) as [t|] eqn:Hi; [|exists None; cbn; by rewrite Hi].
    destruct (writer_step_inv i t s Hinv Hi) as (r & Hr & Hpost). exists r. by destruct r.
  - destruct (rw_readers s !! i) as [t|] eqn:Hi; [|exists None; cbn; by rewrite Hi].
    destruct (reader_step_inv i t s Hinv Hi) as (r & Hr & Hpost). exists r. by destruct r.
Qed.

Lemma rwt_reachable_inv s s' : rwt_inv s → rtc (rwt_step md5 fuel) s s' → rwt_inv s'.
Proof.
  intros Hinv Hs. induction Hs as [|s1 s2 s3 [who Hw] _ IH]; [done|]. apply IH.
  destruct (rwt_exec_inv who s1 Hinv) as (r & Hr & Hpost). rewrite Hw in Hr. by injection Hr as <-.
Qed.

(** As long as not all threads have ended some thread can make a step; in the end
    all objects are counted. *)
Lemma rwt_progress s :
  rwt_inv s → rw_writers s ≠ [] → rw_readers s ≠ [] →
  (∃ s', rwt_step md5 fuel s s') ∨ rwt_over s ∧ otl_complete (obj_to_read_list (rw_shared s)) = true.
Proof.
  intros Hinv Hnw Hnr.
  assert (Hdw : ∀ t, t = WDone ∨ ¬ t = WDone) by (intros []; (by left) || (by right)).
  assert (Hdr : ∀ t, (t = RSleep ∨ t = RDone) ∨ ¬ (t = RSleep ∨ t = RDone)).
  { intros []; (by left; left) || (by left; right) || (right; by intros []). }
  destruct (all_or_one (λ t, t = WDone) (rw_writers s) Hdw) as [Hw|(i & t & Hi & Hne)].
  2:{ left. destruct (writer_step_inv i t s Hinv Hi) as ([s'|] & Hr & Hpost); [|done]. exists s'. by exists (Writer i). }
  destruct (all_or_one (λ t, t = RSleep ∨ t = RDone) (rw_readers s) Hdr) as [Hr|(i & t & Hi & Hne)].
  2:{ left. destruct (reader_step_inv i t s Hinv Hi) as ([s'|] & Hr & Hpost); [|done]. exists s'. by exists (Reader i). }
  right. pose proof (proj1 (Forall_forall _ _) Hw) as Hw'. pose proof (proj1 (Forall_forall _ _) Hr) as Hr'.
  clear Hw Hr. rename Hw' into Hw, Hr' into Hr. cbn beta in *. destruct Hinv as [Hcl Hwe Hsl Hlv].
  destruct (rw_writers s) as [|tw ws] eqn:Ews; [done|]. assert (tw = WDone) as -> by (apply Hw; left).
  assert (Hwl : otl_head (obj_to_write_list (rw_shared s)) = []) by (apply (Hwe WDone); [left|by right]).
  assert (Hnosleep : RSleep ∉ rw_readers s).
  { intros Hs. destruct (Hsl Hs) as [Hrl [Hc|(t & Ht & Hb)]]; [|by destruct (Hr t Ht) as [-> | ->]].
    assert (Hclaims : claims s = []).
    { unfold claims, listed. rewrite Hwl, Hrl, Ews, (bind_nil wclaim), (bind_nil rclaim); [done|..].
      - intros t Ht. by destruct (Hr t Ht) as [-> | ->].
      - intros t Ht. by rewrite (Hw t Ht). }
    rewrite Hclaims in Hcl. destruct Hcl as [_ _ Ht _ _ _ _ _]. unfold otl_complete in Hc.
    apply Z.eqb_neq in Hc. by change (pending []) with 0 in Ht. }
  assert (Hdone : ∀ t, t ∈ rw_readers s → t = RDone).
  { intros t Ht. destruct (Hr t Ht) as [-> | ->]; done. }
  split.
  - split; apply Forall_forall; [by rewrite Ews|done].
  - destruct (rw_readers s) as [|tr rs]; [done|]. apply (Hlv tr); [left|]. by rewrite (Hdone tr) by left.
Qed.
End Invariant.

Section Program.
Context `{HostOrder} `{ObjService} (md5 : list Z → list Z) (fuel : nat).

(** ** Termination *)

Definition wwork (t : wthread) : nat := match t with WTake => 2 | WWrite _ => 8 | WPut _ _ => 7 | WExit => 1 | WDone => 0 end.
Definition rwork (t : rthread) : nat :=
  match t with RTake | RSleep => 2 | RRead _ => 5 | RPut _ _ => 4 | RRemove _ _ => 3 | RExit => 1 | RDone => 0 end.
Definition awake (t : rthread) : nat := match t with RTake => 1 | _ => 0 end.

(** The work that is left, and how many readers may still fall asleep. *)
Definition shwork (sh : rwt_shared) : nat :=
  7 * length (otl_head (obj_to_write_list sh)) + 4 * length (otl_head (obj_to_read_list sh)).
Definition rwt_work (s : rwt_state) : nat :=
  shwork (rw_shared s) + sum_list_with wwork (rw_writers s) + sum_list_with rwork (rw_readers s).
Definition rwt_measure (s : rwt_state) : nat :=
  rwt_work s * S (length (rw_readers s)) + sum_list_with awake (rw_readers s).

Lemma broadcast_work b l : sum_list_with rwork (broadcast b l) = sum_list_with rwork l.
Proof. destruct b; [|done]. cbn [broadcast]. induction l as [|[] l IH]; cbn in *; lia. Qed.

Lemma awake_le l : (sum_list_with awake l <= length l)%nat.
Proof. induction l as [|[] l IH]; cbn in *; lia. Qed.

Lemma length_broadcast b l : length (broadcast b l) = length l.
Proof. destruct b; [|done]. apply length_fmap. Qed.

Lemma writer_work t sh t' sh' b :
  rwt_writer md5 fuel t sh = Done (Some (t', sh', b)) → (shwork sh' + wwork t' < shwork sh + wwork t)%nat.
Proof.
  unfold shwork. destruct t as [|todo|todo rc| |]; cbn [rwt_writer]; intros Hstep; try done.
  - destruct (otl_nr_in_list _ =? 0); [injection Hstep as <- <- <-; cbn; lia|].
    destruct (otl_head (obj_to_write_list sh)) as [|todo rest]; [done|]. injection Hstep as <- <- <-. cbn. lia.
  - apply outcome_bind_Done in Hstep as ([[[rc todo'] random'] w'] & _ & Hstep). injection Hstep as <- <- <-. cbn. lia.
  - injection Hstep as <- <- <-. cbn. destruct (rc =? 0), (rc <? 0); cbn; lia.
  - injection Hstep as <- <- <-. cbn. lia.
Qed.

Lemma reader_work t sh t' sh' b :
  rwt_reader md5 fuel t sh = Done (Some (t', sh', b)) →
  (shwork sh' + rwork t' < shwork sh + rwork t)%nat ∨ t = RTake ∧ t' = RSleep ∧ sh' = sh ∧ b = false.
Proof.
  unfold shwork. destruct t as [| |todo|todo rc|todo d| |]; cbn [rwt_reader]; intros Hstep; try done.
  - destruct (otl_nr_in_list _ =? 0).
    + injection Hstep as <- <- <-. destruct (otl_complete _); [left; cbn; lia|by right].
    + destruct (otl_head (obj_to_read_list sh)) as [|todo rest]; [done|]. injection Hstep as <- <- <-. left. cbn. lia.
  - apply outcome_bind_Done in Hstep as ([[[rc todo'] random'] w'] & _ & Hstep). injection Hstep as <- <- <-. left. cbn. lia.
  - left. destruct (rc <? 0); [injection Hstep as <- <- <-; cbn; lia|].
    apply outcome_bind_Done in Hstep as (m & _ & Hstep). injection Hstep as <- <- <-. cbn. lia.
  - destruct (obj_rm _ _) as [rc w']. injection Hstep as <- <- <-. left. destruct d; cbn; lia.
  - injection Hstep as <- <- <-. left. cbn. lia.
Qed.

Lemma rwt_step_measure s s' : rwt_step md5 fuel s s' → (rwt_measure s' < rwt_measure s)%nat.
Proof.
  intros [who Hw]. unfold rwt_measure, rwt_work.
  assert (Hscale : ∀ a b n c d, (a < b → c <= n → a * S n + c < b * S n + d)%nat).
  { intros a b n c d Hab Hc. assert (S a * S n <= b * S n)%nat by (apply Nat.mul_le_mono_r; lia). lia. }
  destruct who as [i|i]; cbn [rwt_exec] in Hw.
  - destruct (rw_writers s !! i) as [t|] eqn:Hi; [|done]. apply outcome_bind_Done in Hw as ([[[t' sh'] b]|] & Hstep & Hw); [|done].
    injection Hw as <-. cbn [rw_writers rw_readers rw_shared]. apply writer_work in Hstep.
    destruct (sum_split wwork _ _ _ t' Hi) as [Hsp Hsp']. rewrite Hsp, Hsp'.
    rewrite broadcast_work, length_broadcast. apply Hscale; [lia|]. etransitivity; [apply awake_le|]. by rewrite length_broadcast.
  - destruct (rw_readers s !! i) as [t|] eqn:Hi; [|done]. apply outcome_bind_Done in Hw as ([[[t' sh'] b]|] & Hstep & Hw); [|done].
    injection Hw as <-. cbn [rw_writers rw_readers rw_shared]. apply reader_work in Hstep.
    destruct (sum_split rwork _ _ _ t' Hi) as [Hsp Hsp']. rewrite broadcast_work, length_broadcast, length_insert, Hsp, Hsp'.
    destruct Hstep as [Hlt|(-> & -> & -> & ->)].
    + apply Hscale; [lia|]. etransitivity; [apply awake_le|]. by rewrite length_broadcast, length_insert.
    + destruct (sum_split awake _ _ _ RSleep Hi) as [Ha Ha']. cbn [broadcast]. rewrite Ha, Ha'. cbn [rwork awake]. lia.
Qed.

Lemma rwt_steps_bound n s s' : nsteps (rwt_step md5 fuel) n s s' → (n + rwt_measure s' <= rwt_measure s)%nat.
Proof. apply nsteps_measure. intros ??. apply rwt_step_measure. Qed.
(** ** The start *)

Definition rwt_todo (st_oid : mio_obj_id) (bs count i : Z) : rwt_obj_todo :=
  MkTodo (rwt_set_obj_id st_oid i) bs count None None.

Lemma todo_lists_loop_all st_oid bs count n i l p :
  Forall (λ b, b = true) p →
  ∃ p', todo_lists_loop st_oid bs count n i l p =
    (0, MkTodoList (otl_nr_in_list l + Z.of_nat n) (otl_nr_todo l) (otl_nr_done l) (otl_nr_failed l) (otl_nr_matched l)
          (reverse (rwt_todo st_oid bs count <$> seqZ i (Z.of_nat n)) ++ otl_head l), p').
Proof.
  revert i l p. induction n as [|n IH]; intros i l p Hp; cbn [todo_lists_loop].
  { exists p. replace (otl_nr_in_list l + Z.of_nat 0) with (otl_nr_in_list l) by lia. by destruct l. }
  destruct (plan_next p) as [ok p'] eqn:Ep. destruct (plan_next_all _ _ _ Ep Hp) as [-> Hp']. cbn [negb].
  destruct (IH (i + 1) (otl_push (MkTodo (rwt_set_obj_id st_oid i) bs count None None) l) p' Hp') as (p2 & ->).
  exists p2. cbn [otl_push otl_nr_in_list otl_nr_todo otl_nr_done otl_nr_failed otl_nr_matched otl_head].
  do 3 f_equal; [lia|]. rewrite (seqZ_cons i) by lia. replace (Z.pred (Z.of_nat (S n))) with (Z.of_nat n) by lia.
  replace (Z.succ i) with (i + 1) by lia. by rewrite fmap_cons, reverse_cons, <- app_assoc.
Qed.

Lemma rwt_todo_ids st_oid bs count n :
  0 <= n < 2 ^ 31 → NoDup (ot_oid <$> (rwt_todo st_oid bs count <$> seqZ 0 n)).
Proof.
  intros Hn. rewrite <- list_fmap_compose. apply NoDup_fmap_2_strong; [|apply NoDup_seqZ].
  intros i j Hi Hj Heq. apply elem_of_seqZ in Hi, Hj. eapply rwt_set_obj_id_inj; [..|exact Heq]; lia.
Qed.

Lemma pending_fresh l : pending ((λ t, (Fresh, t)) <$> l) = Z.of_nat (length l).
Proof. unfold pending. f_equal. induction l as [|t l IH]; [done|]. rewrite fmap_cons. cbn [sum_list_with length]. rewrite IH. done. Qed.

Section Start.
Context (bs count : Z) (nr_threads : nat) (st_oid : mio_obj_id) (nr_objs : Z) (p : mplan) (random : list Z) (w : cmd_world).
Context (Hobjs : 0 <= nr_objs < 2 ^ 31) (Hp : Forall (λ b, b = true) p).

Local Abbreviation todos := (reverse (rwt_todo st_oid bs count <$> seqZ 0 nr_objs)).

Lemma rwt_start_eq :
  mio_rwt_start nr_threads st_oid nr_objs bs count p random w =
    MkRwt (replicate nr_threads WTake) (replicate nr_threads RTake)
      (MkShared (MkTodoList nr_objs nr_objs 0 0 0 todos) (otl_init nr_objs) random w).
Proof.
  unfold mio_rwt_start, rwt_todo_lists_init.
  destruct (todo_lists_loop_all st_oid bs count (Z.to_nat nr_objs) 0 (otl_init nr_objs) p Hp) as (p' & ->).
  change (0 <? 0) with false. cbn iota. cbn [otl_init otl_nr_in_list otl_nr_todo otl_nr_done otl_nr_failed otl_nr_matched otl_head].
  rewrite Z2Nat.id, app_nil_r by lia. do 3 f_equal.
Qed.

Lemma rwt_start_inv : rwt_inv md5 bs count (mio_rwt_start nr_threads st_oid nr_objs bs count p random w).
Proof.
  rewrite rwt_start_eq. split; cbn [rw_shared rw_writers rw_readers obj_to_read_list obj_to_write_list].
  - assert (Hcl : claims (MkRwt (replicate nr_threads WTake) (replicate nr_threads RTake)
        (MkShared (MkTodoList nr_objs nr_objs 0 0 0 todos) (otl_init nr_objs) random w)) = (λ t, (Fresh, t)) <$> todos).
    { unfold claims, listed. cbn [rw_shared rw_writers rw_readers obj_to_read_list obj_to_write_list otl_head otl_init].
      rewrite !bind_nil by (intros t [-> _]%elem_of_replicate; done). by rewrite !app_nil_r. }
    rewrite Hcl. assert (Hlen : Z.of_nat (length todos) = nr_objs).
    { rewrite length_reverse, length_fmap, length_seqZ. lia. }
    split; cbn [obj_to_read_list obj_to_write_list otl_head otl_init rwt_w otl_nr_in_list otl_nr_todo otl_nr_done otl_nr_failed otl_nr_matched].
    + apply Forall_fmap, Forall_reverse, Forall_fmap, Forall_forall. intros i _. by split.
    + unfold claim_ids. rewrite <- list_fmap_compose. cbn [compose]. 
      rewrite (reverse_Permutation (rwt_todo st_oid bs count <$> seqZ 0 nr_objs)). by apply rwt_todo_ids.
    + rewrite pending_fresh, Hlen. lia.
    + lia.
    + lia.
    + done.
    + by rewrite Hlen.
    + done.
  - intros t [-> _]%elem_of_replicate [|]; done.
  - intros [? _]%elem_of_replicate. done.
  - intros t [-> _]%elem_of_replicate. done.
Qed.

Lemma rwt_start_measure :
  rwt_measure (mio_rwt_start nr_threads st_oid nr_objs bs count p random w) =
    ((7 * Z.to_nat nr_objs + 4 * nr_threads) * S nr_threads + nr_threads)%nat.
Proof.
  rewrite rwt_start_eq. unfold rwt_measure, rwt_work, shwork.
  cbn [rw_shared rw_writers rw_readers obj_to_read_list obj_to_write_list otl_head otl_init].
  rewrite !sum_replicate, length_replicate, length_reverse, length_fmap, length_seqZ. cbn [wwork rwork awake length]. lia.
Qed.
End Start.

Lemma rwt_exec_todo who s s' :
  rwt_exec md5 fuel who s = Done (Some s') →
  otl_nr_todo (obj_to_read_list (rw_shared s')) = otl_nr_todo (obj_to_read_list (rw_shared s)).
Proof.
  intros Hw. destruct who as [i|i]; cbn [rwt_exec] in Hw.
  - destruct (rw_writers s !! i) as [t|]; [|done].
    apply outcome_bind_Done in Hw as ([[[t' sh'] b]|] & Hstep & Hw); [|done]. injection Hw as <-. cbn [rw_shared].
    destruct t; cbn [rwt_writer] in Hstep; try done; repeat case_match; simplify_eq; try done.
    apply outcome_bind_Done in Hstep as ([[[? ?] ?] ?] & _ & Hstep). by injection Hstep as <- <- <-.
  - destruct (rw_readers s !! i) as [t|]; [|done].
    apply outcome_bind_Done in Hw as ([[[t' sh'] b]|] & Hstep & Hw); [|done]. injection Hw as <-. cbn [rw_shared].
    destruct t; cbn [rwt_reader] in Hstep; try done; repeat case_match; simplify_eq; try done.
    + apply outcome_bind_Done in Hstep as ([[[? ?] ?] ?] & _ & Hstep). by injection Hstep as <- <- <-.
    + apply outcome_bind_Done in Hstep as (? & _ & Hstep). by injection Hstep as <- <- <-.
Qed.

Lemma rwt_exec_threads who s s' :
  rwt_exec md5 fuel who s = Done (Some s') →
  length (rw_writers s') = length (rw_writers s) ∧ length (rw_readers s') = length (rw_readers s).
Proof.
  intros Hw. destruct who as [i|i]; cbn [rwt_exec] in Hw.
  - destruct (rw_writers s !! i) as [t|]; [|done].
    apply outcome_bind_Done in Hw as ([[[t' sh'] b]|] & _ & Hw); [|done]. injection Hw as <-.
    cbn [rw_writers rw_readers]. by rewrite length_insert, length_broadcast.
  - destruct (rw_readers s !! i) as [t|]; [|done].
    apply outcome_bind_Done in Hw as ([[[t' sh'] b]|] & _ & Hw); [|done]. injection Hw as <-.
    cbn [rw_writers rw_readers]. by rewrite length_broadcast, length_insert.
Qed.

Lemma rwt_reachable_const s s' :
  rtc (rwt_step md5 fuel) s s' →
  otl_nr_todo (obj_to_read_list (rw_shared s')) = otl_nr_todo (obj_to_read_list (rw_shared s)) ∧
  length (rw_writers s') = length (rw_writers s) ∧ length (rw_readers s') = length (rw_readers s).
Proof.
  induction 1 as [|s1 s2 s3 [who Hw] _ (IH1 & IH2 & IH3)]; [done|].
  destruct (rwt_exec_threads who s1 s2 Hw) as [Hlw Hlr]. rewrite IH1, IH2, IH3, (rwt_exec_todo who s1 s2 Hw). done.
Qed.

(** ** The theorem *)

(** (C36) Writer and reader threads, in whatever order they make their steps: no step
    faults (a taken object is there, both sums are set when they are compared); the
    sums of every object that was read match; no deadlock: some thread can make a
    step, or all have ended and every object is counted as done or failed; and after
    a bounded number of steps all have ended. *)
Theorem mio_rw_threads_correct (bs count : Z) (nr_threads : nat) (st_oid : mio_obj_id) (nr_objs : Z) (p : mplan)
    (random : list Z) (w : cmd_world) (s : rwt_state) :
  0 < bs → bs mod 4 = 0 → 0 < count → bs * count < 2 ^ 32 → (Z.to_nat count < fuel)%nat → exists_honest →
  (0 < nr_threads)%nat → 0 <= nr_objs < 2 ^ 31 → Forall (λ b, b = true) p →
  let s0 := mio_rwt_start nr_threads st_oid nr_objs bs count p random w in
  rtc (rwt_step md5 fuel) s0 s →
  let l := obj_to_read_list (rw_shared s) in
  (∀ who, ∃ r, rwt_exec md5 fuel who s = Done r) ∧
  otl_nr_matched l = otl_nr_done l ∧
  ((∃ s', rwt_step md5 fuel s s') ∨ rwt_over s ∧ otl_nr_done l + otl_nr_failed l = nr_objs) ∧
  (∀ n, nsteps (rwt_step md5 fuel) n s0 s → (n <= (7 * Z.to_nat nr_objs + 4 * nr_threads) * S nr_threads + nr_threads)%nat).
Proof.
  intros Hbs Hbs4 Hcount Hfit Hfuel Hhonest Hnt Hobjs Hp s0 Hs l.
  pose proof (rwt_start_inv bs count nr_threads st_oid nr_objs p random w Hobjs Hp) as Hinv0.
  assert (Hinv : rwt_inv md5 bs count s) by (by eapply rwt_reachable_inv).
  destruct (rwt_reachable_const _ _ Hs) as (Htodo & Hlw & Hlr). unfold s0 in Htodo, Hlw, Hlr.
  rewrite (rwt_start_eq bs count nr_threads st_oid nr_objs p random w Hobjs Hp) in Htodo, Hlw, Hlr.
  cbn [rw_shared rw_writers rw_readers obj_to_read_list otl_init otl_nr_todo] in Htodo, Hlw, Hlr.
  rewrite length_replicate in Hlw. rewrite length_replicate in Hlr. split_and!.
  - intros who. destruct (rwt_exec_inv md5 fuel bs count Hbs Hbs4 Hcount Hfit Hfuel Hhonest who s Hinv) as (r & Hr & _). by exists r.
  - by destruct (ri_claims _ _ _ _ Hinv).
  - destruct (rwt_progress md5 fuel bs count Hbs Hbs4 Hcount Hfit Hfuel Hhonest s Hinv) as [Hstep|[Hover Hc]].
    + intros Hnil. rewrite Hnil in Hlw. simpl in Hlw. lia.
    + intros Hnil. rewrite Hnil in Hlr. simpl in Hlr. lia.
    + by left.
    + right. split; [done|]. unfold otl_complete in Hc. apply Z.eqb_eq in Hc. unfold l. congruence.
  - intros n Hn. apply rwt_steps_bound in Hn. unfold s0 in Hn. rewrite rwt_start_measure in Hn by done. lia.
Qed.
End Program.

(** ** Witness and boundary cases *)
Section Witnesses.
#[local] Instance ex_host_rwt : HostOrder := false.

(** Two threads of each kind, three objects of two blocks. *)
Lemma mio_rw_threads_correct_witness :
  let svc := mem_service true in
  let s0 := mio_rwt_start 2 (ex_oid 1) 3 4 2 [] [7] (ex_world (MkMemSv (λ _, None) [] [])) in
  otl_nr_matched (obj_to_read_list (rw_shared s0)) = otl_nr_done (obj_to_read_list (rw_shared s0)) ∧
  (∀ n, nsteps (rwt_step id 3) n s0 s0 → (n <= 89)%nat).
Proof.
  intros svc s0.
  destruct (@mio_rw_threads_correct _ svc id 3 4 2 2 (ex_oid 1) 3 [] [7] (@ex_world svc (MkMemSv (λ _, None) [] [])) s0)
    as (_ & H2 & _ & H4).
  - lia.
  - reflexivity.
  - lia.
  - lia.
  - simpl. lia.
  - apply mem_exists_honest.
  - lia.
  - lia.
  - constructor.
  - apply rtc_refl.
  - split; [exact H2|]. intros n Hn. apply H4 in Hn. simpl in Hn. lia.
Defined.

(** The counters done, failed and matched, the readers that wait and the threads
    that have ended. *)
Definition rwt_result {svc : ObjService} (r : outcome rwt_state) : outcome (Z * Z * Z * Z * Z) :=
  s ← r;
  let l := obj_to_read_list (rw_shared s) in
  let count {A} (f : A → nat) (ts : list A) := Z.of_nat (sum_list_with f ts) in
  Done (otl_nr_done l, otl_nr_failed l, otl_nr_matched l,
    count (λ t, match t with RSleep => 1%nat | _ => 0%nat end) (rw_readers s),
    count (λ t, match t with RDone => 1%nat | _ => 0%nat end) (rw_readers s) +
    count (λ t, match t with WDone => 1%nat | _ => 0%nat end) (rw_writers s)).

Definition ex_rounds (n : nat) (ids : list rwt_id) : list rwt_id := concat (replicate n ids).
Definition ex_all : list rwt_id := [Reader 0; Reader 1; Writer 0; Writer 1].

Definition ex_start (reliable : bool) (p : mplan) (rcs : list Z) : @rwt_state (mem_service reliable) :=
  let svc := mem_service reliable in mio_rwt_start 2 (ex_oid 1) 3 4 2 p [7] (ex_world (MkMemSv (λ _, None) rcs [])).

Example rwt_in_turns :
  let svc := mem_service true in
  rwt_result (rwt_run id 3 (ex_rounds 15 ex_all) (ex_start true [] [])) = Done (3, 0, 3, 0, 4).
Proof. vm_compute. reflexivity. Qed.

(** The first results are failures: objects are counted as failed, and all threads
    end. *)
Example rwt_with_failures :
  let svc := mem_service false in
  rwt_result (rwt_run id 3 (ex_rounds 15 ex_all) (ex_start false [] [- EIO; - EIO])) = Done (1, 2, 1, 0, 4).
Proof. vm_compute. reflexivity. Qed.

(** No memory for the first object: the writers end, and the readers wait for
    objects for ever. *)
Example rwt_no_memory_hangs :
  let svc := mem_service true in
  rwt_result (rwt_run id 3 (ex_rounds 15 ex_all) (ex_start true [false] [])) = Done (0, 0, 0, 2, 2).
Proof. vm_compute. reflexivity. Qed.

(** No memory for the second: the counter of the list that was emptied is still
    one, and a writer stops at the assertion. *)
Example rwt_no_memory_asserts :
  let svc := mem_service true in
  rwt_result (rwt_run id 3 [Writer 0] (ex_start true [true; false] [])) = Fault AssertFail.
Proof. vm_compute. reflexivity. Qed.
End Witnesses.
