(* ===== verification/RwLock.v ===== *)
(** * Readers and writers of one object with a lock (src/examples/mio_rw_lock.c)

    Each thread opens the object, takes its exclusive lock, takes the next slot of
    the report, writes or reads the object, prints a line and releases the lock.
    mio_obj_lock() waits until nobody has the lock, or fails.  A step of a thread is
    one of the calls; writing or reading the object is one step, since it is done
    with the lock held. *)

From Stdlib Require Import String.
From S2P Require Import Prelude Bytes ObjId HintMap Types Hints CStr Conf CmdHelpers ObjService ObjCmd ObjCopy IoThread.
Open Scope Z_scope.

(** ** The report *)

Inductive rwl_io_role := RWL_WRITER | RWL_READER.

(** [struct rwl_io]; a field that is not set is [None].  io_thread_idx is not used. *)
Record rwl_io := MkRwlIo {
  io_idx : Z;
  io_oid : mio_obj_id;
  io_block_size : Z;
  io_block_count : Z;
  io_role : option rwl_io_role;
  io_md5sum : option (list Z)
}.

Definition set_io_role (role : rwl_io_role) (io : rwl_io) : rwl_io :=
  MkRwlIo (io_idx io) (io_oid io) (io_block_size io) (io_block_count io) (Some role) (io_md5sum io).
Definition set_io_sum (sum : list Z) (io : rwl_io) : rwl_io :=
  MkRwlIo (io_idx io) (io_oid io) (io_block_size io) (io_block_count io) (io_role io) (Some sum).

(** [struct rwl_io_report]. *)
Record rwl_io_report := MkReport {
  ior_nr_ioses : Z;
  ior_nr_done : Z;
  ior_ioses : option (list rwl_io)
}.

(** [rwl_io_report_init]: ior_nr_ioses is not set. *)
Definition rwl_io_report_init (oid : mio_obj_id) (nr_ioses block_size block_count : Z) (p : mplan)
  : Z * rwl_io_report * mplan :=
  let '(ok, p) := plan_next p in
  if negb ok then (- ENOMEM, MkReport 0 0 None, p) else
  (0, MkReport 0 0 (Some ((λ i, MkRwlIo i oid block_size block_count None None) <$> seqZ 0 nr_ioses)), p).

Definition rwl_slot (r : rwl_io_report) (i : Z) : outcome rwl_io :=
  match ior_ioses r with
  | None => Fault NullDeref
  | Some l =>
      if i <? 0 then Fault OutOfBounds else
      match l !! Z.to_nat i with Some io => Done io | None => Fault OutOfBounds end
  end.

Definition set_slot (i : Z) (io : rwl_io) (r : rwl_io_report) : rwl_io_report :=
  MkReport (ior_nr_ioses r) (ior_nr_done r) ((λ l, <[Z.to_nat i := io]> l) <$> ior_ioses r).

Definition io_taken (r : rwl_io_report) : rwl_io_report := MkReport (ior_nr_ioses r) (ior_nr_done r + 1) (ior_ioses r).

(** A line of the output. *)
Record rwl_line := MkLine { ln_idx : Z; ln_role : rwl_io_role; ln_sum : list Z; ln_pass : option bool }.

Definition initialised {A} (x : option A) : outcome A := match x with Some x => Done x | None => Fault UninitRead end.

(** [rwl_print_io]. *)
Definition rwl_print_io (r : rwl_io_report) (io : rwl_io) : outcome rwl_line :=
  role ← initialised (io_role io);
  sum ← initialised (io_md5sum io);
  match role with
  | RWL_WRITER => Done (MkLine (io_idx io) role sum None)
  | RWL_READER =>
      if 0 <? io_idx io then
        last_io ← rwl_slot r (io_idx io - 1);
        last_sum ← initialised (io_md5sum last_io);
        Done (MkLine (io_idx io) role sum (Some (bool_decide (sum = last_sum))))
      else Done (MkLine (io_idx io) role sum (Some true))
  end.

(** ** Threads *)

Inductive rwl_pos :=
| LOpen
| LLock (o : mio_obj)
| LTask (o : mio_obj)
| LIo (o : mio_obj) (i : Z)
| LPrint (o : mio_obj) (i : Z) (rc : Z)
| LUnlock (o : mio_obj) (rc : Z)
| LClose (o : mio_obj) (rc : Z)
| LDone (rc : Z).

Section RwLock.
Context `{HostOrder} `{ObjService} (md5 : list Z → list Z) (fuel : nat) (oid : mio_obj_id).

(** What the threads share: the report, who has the lock, the output, the random
    numbers, the library. *)
Record rwl_shared := MkRwlShared {
  cc_io_report : rwl_io_report;
  rl_lock : option nat;
  rl_out : list rwl_line;
  rl_random : list Z;
  rl_w : cmd_world
}.

Definition set_rl_w (w : cmd_world) (s : rwl_shared) : rwl_shared :=
  MkRwlShared (cc_io_report s) (rl_lock s) (rl_out s) (rl_random s) w.
Definition set_rl_lock (l : option nat) (s : rwl_shared) : rwl_shared :=
  MkRwlShared (cc_io_report s) l (rl_out s) (rl_random s) (rl_w s).
Definition set_rl_report (r : rwl_io_report) (s : rwl_shared) : rwl_shared :=
  MkRwlShared r (rl_lock s) (rl_out s) (rl_random s) (rl_w s).
Definition rl_print (ln : rwl_line) (s : rwl_shared) : rwl_shared :=
  MkRwlShared (cc_io_report s) (rl_lock s) (rl_out s ++ [ln]) (rl_random s) (rl_w s).

(** A step of [rwl_obj_write] or [rwl_obj_read] of the thread [me]; [lock_rc] is the
    result of mio_obj_lock(). *)
Definition rwl_obj_step (role : rwl_io_role) (me : nat) (lock_rc : Z) (t : rwl_pos) (s : rwl_shared)
  : outcome (option (rwl_pos * rwl_shared)) :=
  match t with
  | LOpen =>
      let '(rc, o, w) := obj_open oid obj_zero (rl_w s) in
      Done (Some (if rc <? 0 then LDone rc else LLock o, set_rl_w w s))
  | LLock o =>
      if lock_rc <? 0 then Done (Some (LClose o lock_rc, s)) else
      match rl_lock s with
      | Some _ => Done None
      | None => Done (Some (LTask o, set_rl_lock (Some me) s))
      end
  | LTask o =>
      let i := ior_nr_done (cc_io_report s) in
      io ← rwl_slot (cc_io_report s) i;
      Done (Some (LIo o i, set_rl_report (io_taken (set_slot i (set_io_role role io) (cc_io_report s))) s))
  | LIo o i =>
      io ← rwl_slot (cc_io_report s) i;
      '(rc, sum, o, random, w) ←
        match role with
        | RWL_WRITER => io_thread_obj_write md5 fuel o (io_block_size io) (io_block_count io) (rl_random s) (rl_w s)
        | RWL_READER => io_thread_obj_read md5 fuel o (io_block_size io) (io_block_count io) (rl_random s) (rl_w s)
        end;
      Done (Some (LPrint o i rc,
        MkRwlShared (set_slot i (set_io_sum sum io) (cc_io_report s)) (rl_lock s) (rl_out s) random w))
  | LPrint o i rc =>
      io ← rwl_slot (cc_io_report s) i;
      s ← (if rc =? 0 then ln ← rwl_print_io (cc_io_report s) io; Done (rl_print ln s) else Done s);
      match role with
      | RWL_WRITER => Done (Some (LUnlock o rc, s))
      | RWL_READER =>
          ln ← rwl_print_io (cc_io_report s) io;
          Done (Some (LUnlock o rc, rl_print ln s))
      end
  | LUnlock o rc => Done (Some (LClose o rc, set_rl_lock None s))
  | LClose o rc => w ← cmd_close o (rl_w s); Done (Some (LDone rc, set_rl_w w s))
  | LDone _ => Done None
  end.

(** The whole call, when nobody else runs. *)
Fixpoint rwl_obj_call (n : nat) (role : rwl_io_role) (lock_rc : Z) (t : rwl_pos) (s : rwl_shared)
  : outcome (Z * rwl_shared) :=
  match n, t with
  | _, LDone rc => Done (rc, s)
  | O, _ => Fault NoTermination
  | S n, _ =>
      r ← rwl_obj_step role 0 lock_rc t s;
      match r with
      | Some (t, s) => rwl_obj_call n role lock_rc t s
      | None => Fault NoTermination
      end
  end.

Definition rwl_obj_write := rwl_obj_call 7 RWL_WRITER.

Record rwl_state := MkRwl { rl_threads : list (rwl_io_role * rwl_pos); rl_shared : rwl_shared }.

Definition rwl_exec (who : nat) (lock_rc : Z) (s : rwl_state) : outcome (option rwl_state) :=
  match rl_threads s !! who with
  | None => Done None
  | Some (role, t) =>
      r ← rwl_obj_step role who lock_rc t (rl_shared s);
      Done ('(t, sh) ← r; Some (MkRwl (<[who := (role, t)]> (rl_threads s)) sh))
  end.

Definition rwl_step (s s' : rwl_state) : Prop := ∃ who lock_rc, rwl_exec who lock_rc s = Done (Some s').

(** [mio_rwl_start] when all threads can be created: the result of
    rwl_io_report_init() is dropped. *)
Definition mio_rwl_start (nr_threads : nat) (block_size block_count : Z) (lock_rc : Z) (p : mplan)
    (random : list Z) (w : cmd_world) : outcome (Z * rwl_state) :=
  let '(_, report, _) := rwl_io_report_init oid (2 * Z.of_nat nr_threads + 1) block_size block_count p in
  '(rc, s) ← rwl_obj_write lock_rc LOpen (MkRwlShared report None [] random w);
  if rc <? 0 then Done (rc, MkRwl [] s) else
  Done (0, MkRwl (replicate nr_threads (RWL_WRITER, LOpen) ++ replicate nr_threads (RWL_READER, LOpen)) s).

Definition rwl_over (s : rwl_state) : Prop := Forall (λ t, ∃ rc, t.2 = LDone rc) (rl_threads s).

(** A schedule, with the results of taking the lock. *)
Fixpoint rwl_run (schedule : list (nat * Z)) (s : rwl_state) : outcome rwl_state :=
  match schedule with
  | [] => Done s
  | (who, lock_rc) :: schedule => r ← rwl_exec who lock_rc s; rwl_run schedule (default s r)
  end.
End RwLock.
