(* ===== verification/RwLockCorrect.v ===== *)
(** * The theorems on [RwLock]

    An invariant of all interleavings: only the thread that has the lock is between
    taking a slot and printing its line, the slots that are done have a sum, and the
    sum of the last one is that of the object as long as no reading or writing has
    failed. *)

From Stdlib Require Import String.
From stdpp Require Import list_numbers.
From S2P Require Import Prelude Bytes ObjId HintMap Types Hints CStr Conf CmdHelpers ObjService ObjCmd ObjCopy IoThread RwThreads RwCorrect RwLock.
Open Scope Z_scope.

(** ** Slots *)

Lemma rwl_slot_set r i io j :
  0 <= i → 0 <= j → is_Some (ior_ioses r) → (∃ io', rwl_slot r i = Done io') →
  rwl_slot (set_slot i io r) j = if j =? i then Done io else rwl_slot r j.
Proof.
  intros Hi Hj [l Hl] [io' Hs]. unfold rwl_slot, set_slot in *. cbn [ior_ioses]. rewrite Hl in *. cbn [fmap option_fmap option_map].
  rewrite (proj2 (Z.ltb_ge j 0)) by lia. rewrite (proj2 (Z.ltb_ge i 0)) in Hs by lia.
  destruct (l !! Z.to_nat i) eqn:E; [|done]. destruct (Z.eqb_spec j i) as [->|Hne].
  - by rewrite list_lookup_insert_eq by (by eapply lookup_lt_Some).
  - by rewrite list_lookup_insert_ne by lia.
Qed.

Section Invariant.
Context `{HostOrder} `{ObjService} (md5 : list Z → list Z) (fuel : nat) (oid : mio_obj_id).
Abbreviation objs w := (sv_objects (cw_sv w)).
Abbreviation slot s i := (rwl_slot (cc_io_report s) i).
Abbreviation nr_done s := (ior_nr_done (cc_io_report s)).
Context (bs count : Z) (N M : Z) (good : Prop).

(** The sum of a slot is that of the object. *)
Definition matches (s : rwl_shared) (i : Z) : Prop :=
  ∃ io v, slot s i = Done io ∧ objs (rl_w s) oid = Some v ∧
    io_md5sum io = Some (md5 (fbytes (ov_bytes v) 0 (count * bs))).

Definition recorded (s : rwl_shared) (k : Z) : Prop :=
  (∀ i, 0 <= i < k → ∃ io, slot s i = Done io ∧ io_md5sum io ≠ None) ∧ (good → 0 < k → matches s (k - 1)).

Definition critical (t : rwl_pos) : Prop := match t with LTask _ | LIo _ _ | LPrint _ _ _ | LUnlock _ _ => True | _ => False end.
Definition untaken (t : rwl_pos) : nat := match t with LOpen | LLock _ | LTask _ => 1 | _ => 0 end.

Definition opened (s : rwl_shared) (o : mio_obj) : Prop :=
  mo_id o = oid ∧ mo_drv_obj o ≠ None ∧ (good → objs (rl_w s) oid ≠ None).

Definition slot_taken (s : rwl_shared) (role : rwl_io_role) (i : Z) : Prop :=
  i = nr_done s - 1 ∧ 0 <= i ∧ ∃ io, slot s i = Done io ∧ io_role io = Some role.

Definition pos_ok (s : rwl_shared) (role : rwl_io_role) (t : rwl_pos) : Prop :=
  match t with
  | LOpen => True
  | LLock o => opened s o
  | LTask o => opened s o ∧ recorded s (nr_done s)
  | LIo o i => opened s o ∧ slot_taken s role i ∧ recorded s i
  | LPrint o i rc => rc <= 0 ∧ opened s o ∧ slot_taken s role i ∧ recorded s (nr_done s) ∧
      (good → role = RWL_READER → 0 < i → matches s (i - 1))
  | LUnlock o rc => rc <= 0 ∧ opened s o ∧ recorded s (nr_done s)
  | LClose o rc => rc <= 0 ∧ opened s o
  | LDone rc => rc <= 0
  end.

Definition report_ok (r : rwl_io_report) : Prop :=
  ∃ l, ior_ioses r = Some l ∧ Z.of_nat (length l) = N ∧
    ∀ i io, l !! i = Some io → io_idx io = Z.of_nat i ∧ io_block_size io = bs ∧ io_block_count io = count.

Definition lines_ok (l : list rwl_line) : Prop := Forall (λ ln, ln_pass ln ≠ Some false) l.

Record rwl_inv (s : rwl_state) : Prop := {
  li_report : report_ok (cc_io_report (rl_shared s));
  li_done : 0 <= nr_done (rl_shared s);
  li_left : nr_done (rl_shared s) + Z.of_nat (sum_list_with (λ t, untaken t.2) (rl_threads s)) <= M;
  li_free : rl_lock (rl_shared s) = None → recorded (rl_shared s) (nr_done (rl_shared s));
  li_pos : ∀ j role t, rl_threads s !! j = Some (role, t) →
    pos_ok (rl_shared s) role t ∧ (critical t ↔ rl_lock (rl_shared s) = Some j);
  li_holder : ∀ j, rl_lock (rl_shared s) = Some j → is_Some (rl_threads s !! j);
  li_lines : good → lines_ok (rl_out (rl_shared s))
}.

(** ** What other threads keep *)

Definition same_bytes (w w' : cmd_world) : Prop :=
  match objs w oid with
  | Some v => ∃ v', objs w' oid = Some v' ∧ ov_bytes v' = ov_bytes v
  | None => objs w' oid = None
  end.

Lemma matches_frame s s' i :
  cc_io_report s' = cc_io_report s → same_bytes (rl_w s) (rl_w s') → matches s i → matches s' i.
Proof.
  intros Hr Hb (io & v & Hs & Hv & Hm). unfold same_bytes in Hb. rewrite Hv in Hb. destruct Hb as (v' & Hv' & Hb).
  exists io, v'. by rewrite Hr, Hb.
Qed.

Lemma recorded_frame s s' k :
  cc_io_report s' = cc_io_report s → same_bytes (rl_w s) (rl_w s') → recorded s k → recorded s' k.
Proof.
  intros Hr Hb [Hs Hm]. split; [by rewrite Hr|]. intros Hg Hk. eapply matches_frame; [done..|by apply Hm].
Qed.

Lemma opened_frame s s' o : same_bytes (rl_w s) (rl_w s') → opened s o → opened s' o.
Proof.
  intros Hb (Hi & Hd & He). split_and!; [done..|]. intros Hg. specialize (He Hg). unfold same_bytes in Hb.
  destruct (objs (rl_w s) oid); [|done]. by destruct Hb as (v' & -> & _).
Qed.

Lemma pos_ok_frame s s' role t :
  cc_io_report s' = cc_io_report s → same_bytes (rl_w s) (rl_w s') → pos_ok s role t → pos_ok s' role t.
Proof.
  intros Hr Hb. pose proof (opened_frame s s') as Ho. pose proof (recorded_frame s s') as Hrec.
  pose proof (matches_frame s s') as Hm. unfold pos_ok, slot_taken. rewrite Hr.
  destruct t; intros Hp; repeat match goal with Hx : _ ∧ _ |- _ => destruct Hx end; split_and?; eauto.
Qed.

(** One thread makes a step; either nothing that the others rely on changes, or the
    lock is its own. *)
Lemma inv_update s i role t t' sh' :
  rwl_inv s → rl_threads s !! i = Some (role, t) →
  report_ok (cc_io_report sh') → 0 <= nr_done sh' →
  nr_done sh' + Z.of_nat (untaken t') <= nr_done (rl_shared s) + Z.of_nat (untaken t) →
  (rl_lock sh' = None → recorded sh' (nr_done sh')) →
  pos_ok sh' role t' → (critical t' ↔ rl_lock sh' = Some i) →
  (rl_lock sh' = rl_lock (rl_shared s) ∧ cc_io_report sh' = cc_io_report (rl_shared s) ∧
     same_bytes (rl_w (rl_shared s)) (rl_w sh') ∨
   (rl_lock (rl_shared s) = None ∨ rl_lock (rl_shared s) = Some i) ∧ (rl_lock sh' = None ∨ rl_lock sh' = Some i) ∧
     (good → objs (rl_w (rl_shared s)) oid ≠ None → objs (rl_w sh') oid ≠ None)) →
  (good → lines_ok (rl_out (rl_shared s)) → lines_ok (rl_out sh')) →
  rwl_inv (MkRwl (<[i := (role, t')]> (rl_threads s)) sh').
Proof.
  intros [Hrep Hdone Hleft Hfree Hpos Hhold Hlines] Hi Hrep' Hdone' Hleft' Hfree' Hpos' Hcrit Hframe Hlines'.
  destruct (sum_split (λ t, untaken t.2) _ _ _ (role, t') Hi) as [Hsum Hsum']. cbn [snd] in *.
  split; cbn [rl_shared rl_threads]; try done.
  - rewrite Hsum'. rewrite Hsum in Hleft. lia.
  - intros j role' u Hj. apply list_lookup_insert_Some in Hj as [(-> & [= <- <-] & _)|[Hne Hj]]; [done|].
    destruct (Hpos j role' u Hj) as [Hu Hcu].
    destruct Hframe as [(-> & Hr & Hb)|(Hl & Hl' & He)]; [split; [by eapply pos_ok_frame|done]|].
    assert (Hnc : ¬ critical u) by (rewrite Hcu; destruct Hl as [-> | ->]; congruence).
    split; [|split; [done|destruct Hl' as [-> | ->]; congruence]].
    assert (Hop : ∀ o, opened (rl_shared s) o → opened sh' o) by (intros o (? & ? & ?); split_and!; auto).
    destruct u; cbn [critical pos_ok] in *; try done; [by apply Hop|]. destruct Hu; split; [done|by apply Hop].
  - intros j Hj. destruct (decide (j = i)) as [->|Hne].
    + rewrite list_lookup_insert_eq by (by eapply lookup_lt_Some). by eexists.
    + rewrite list_lookup_insert_ne by done. apply Hhold.
      destruct Hframe as [(<- & _ & _)|(_ & [Hn|Hn] & _)]; [done|congruence|congruence].
  - intros Hg. by apply Hlines', Hlines.
Qed.

Lemma slot_ok r i : report_ok r → 0 <= i < N →
  ∃ io, rwl_slot r i = Done io ∧ io_idx io = i ∧ io_block_size io = bs ∧ io_block_count io = count.
Proof.
  intros (l & Hl & Hlen & Hok) Hi. unfold rwl_slot. rewrite Hl, (proj2 (Z.ltb_ge i 0)) by lia.
  destruct (lookup_lt_is_Some_2 l (Z.to_nat i)) as [io Hio]; [lia|]. rewrite Hio. exists io. split; [done|].
  destruct (Hok _ _ Hio) as (-> & ? & ?). split; [lia|done].
Qed.

Lemma slot_bound r i io : report_ok r → rwl_slot r i = Done io → 0 <= i < N.
Proof.
  intros (l & Hl & Hlen & Hok). unfold rwl_slot. rewrite Hl. destruct (Z.ltb_spec i 0); [done|].
  destruct (l !! Z.to_nat i) eqn:E; [|done]. intros _. apply lookup_lt_Some in E. lia.
Qed.

Lemma report_ok_set r i io io' : report_ok r → rwl_slot r i = Done io →
  io_idx io' = io_idx io → io_block_size io' = io_block_size io → io_block_count io' = io_block_count io →
  report_ok (set_slot i io' r).
Proof.
  intros Hr Hs Hx Hb Hc. pose proof (slot_bound _ _ _ Hr Hs) as Hi.
  destruct Hr as (l & Hl & Hlen & Hok). unfold rwl_slot in Hs. rewrite Hl, (proj2 (Z.ltb_ge i 0)) in Hs by lia.
  destruct (l !! Z.to_nat i) as [io0|] eqn:E; [|done]. injection Hs as ->. eexists. unfold set_slot. cbn [ior_ioses]. rewrite Hl.
  split; [done|]. split; [by rewrite length_insert|]. intros j io1 Hj.
  apply list_lookup_insert_Some in Hj as [(<- & <- & _)|[_ Hj]]; [|by apply Hok]. rewrite Hx, Hb, Hc. by apply Hok.
Qed.

(** ** The steps *)
Section Steps.
Context (Hbs : 0 < bs) (Hbs4 : bs mod 4 = 0) (Hcount : 0 < count) (Hfit : bs * count < 2 ^ 32).
Context (Hfuel : (Z.to_nat count < fuel)%nat) (HMN : M <= N).

Local Abbreviation obj_step := (rwl_obj_step md5 fuel oid).

(** No reading or writing has failed. *)
Definition succeeded (t : rwl_pos) : Prop := match t with LPrint _ _ rc => rc = 0 | _ => True end.

(** A step that cannot be made waits for the lock or there is none left. *)
Definition step_post (s : rwl_state) (i : nat) (role : rwl_io_role) (lock_rc : Z) (t : rwl_pos)
    (r : option (rwl_pos * rwl_shared)) : Prop :=
  match r with
  | None => (∃ rc, t = LDone rc) ∨ (∃ o, t = LLock o) ∧ 0 <= lock_rc ∧ rl_lock (rl_shared s) ≠ None
  | Some (t', sh') => (good → succeeded t') → rwl_inv (MkRwl (<[i := (role, t')]> (rl_threads s)) sh')
  end.

Lemma same_bytes_refl w w' : (∀ id, objs w' id = objs w id) → same_bytes w w'.
Proof. intros He. unfold same_bytes. rewrite He. destruct (objs w oid) as [v|]; [by exists v|done]. Qed.

Lemma step_open s i role lock_rc : rwl_inv s → rl_threads s !! i = Some (role, LOpen) →
  ∃ r, obj_step role i lock_rc LOpen (rl_shared s) = Done r ∧ step_post s i role lock_rc LOpen r.
Proof.
  intros Hinv Hi. destruct (li_pos _ Hinv _ _ _ Hi) as [_ Hcrit]. cbn [rwl_obj_step].
  destruct (obj_open oid obj_zero (rl_w (rl_shared s))) as [[rc o] w'] eqn:E.
  apply cmd_open_spec in E as (Hrc & Hobjs & _ & _ & Hok & _). eexists. split; [done|]. intros _.
  eapply inv_update; [exact Hinv|exact Hi|apply (li_report _ Hinv)|apply (li_done _ Hinv)|..].
  - destruct (rc <? 0); cbn; lia.
  - intros Hn. apply (recorded_frame (rl_shared s)); [done|by apply same_bytes_refl|by apply (li_free _ Hinv)].
  - destruct (Z.ltb_spec rc 0); [done|]. destruct Hok as (v & Hv & Hid & Hd & _); [lia|].
    split_and!; [done..|]. intros _. cbn. by rewrite Hobjs, Hv.
  - cbn. rewrite <- Hcrit. by destruct (rc <? 0).
  - left. split_and!; [done..|]. by apply same_bytes_refl.
  - done.
Qed.

Lemma step_lock s i role lock_rc o : rwl_inv s → rl_threads s !! i = Some (role, LLock o) →
  ∃ r, obj_step role i lock_rc (LLock o) (rl_shared s) = Done r ∧ step_post s i role lock_rc (LLock o) r.
Proof.
  intros Hinv Hi. destruct (li_pos _ Hinv _ _ _ Hi) as [Ho Hcrit]. cbn [rwl_obj_step].
  destruct (Z.ltb_spec lock_rc 0) as [Hlt|Hge]; [eexists; split; [done|]; intros _|].
  { eapply inv_update; [exact Hinv|exact Hi|apply (li_report _ Hinv)|apply (li_done _ Hinv)|..]; try done.
    - cbn. lia.
    - apply (li_free _ Hinv).
    - split; [lia|done].
    - left. split_and!; [done..|]. by apply same_bytes_refl. }
  destruct (rl_lock (rl_shared s)) as [j|] eqn:El; (eexists; split; [done|]).
  { right. split; [by eexists|]. split; [done|congruence]. }
  intros _. eapply inv_update; [exact Hinv|exact Hi|apply (li_report _ Hinv)|apply (li_done _ Hinv)|..]; try done.
  - split; [done|]. by apply (li_free _ Hinv).
  - right. split_and!; [by left|by right|done].
Qed.

Lemma step_task s i role lock_rc o : rwl_inv s → rl_threads s !! i = Some (role, LTask o) →
  ∃ r, obj_step role i lock_rc (LTask o) (rl_shared s) = Done r ∧ step_post s i role lock_rc (LTask o) r.
Proof.
  intros Hinv Hi. destruct (li_pos _ Hinv _ _ _ Hi) as [[Ho Hrec] Hcrit]. cbn [rwl_obj_step].
  assert (Hl : rl_lock (rl_shared s) = Some i) by by apply Hcrit.
  set (k := nr_done (rl_shared s)) in *. pose proof (li_done _ Hinv) as Hk. fold k in Hk.
  assert (HkN : k < N).
  { pose proof (li_left _ Hinv) as Hleft. fold k in Hleft.
    destruct (sum_split (λ t, untaken t.2) _ _ _ (role, LTask o) Hi) as [Hsum _]. rewrite Hsum in Hleft. cbn in Hleft. lia. }
  destruct (slot_ok _ k (li_report _ Hinv)) as (io & Hio & _); [lia|]. rewrite Hio. cbn [mbind outcome_bind].
  eexists. split; [done|]. intros _.
  assert (Hr : report_ok (io_taken (set_slot k (set_io_role role io) (cc_io_report (rl_shared s))))).
  { by apply (report_ok_set _ k io (set_io_role role io) (li_report _ Hinv)). }
  assert (Hslot : ∀ j, 0 <= j → rwl_slot (io_taken (set_slot k (set_io_role role io) (cc_io_report (rl_shared s)))) j =
      if j =? k then Done (set_io_role role io) else slot (rl_shared s) j).
  { intros j Hj. apply rwl_slot_set; [done..| |by exists io]. destruct (li_report _ Hinv) as (l & Hll & _). by exists l. }
  eapply inv_update; [exact Hinv|exact Hi|exact Hr|cbn; fold k; lia|cbn; fold k; lia|..].
  - cbn. congruence.
  - split; [done|]. split.
    + split; [cbn; fold k; lia|]. split; [done|]. exists (set_io_role role io). split; [|done].
      cbn [set_rl_report cc_io_report]. by rewrite Hslot, Z.eqb_refl by done.
    + destruct Hrec as [Hsums Hmat]. split.
      * intros j Hj. cbn [set_rl_report cc_io_report]. rewrite Hslot by lia.
        rewrite (proj2 (Z.eqb_neq j k)) by lia. by apply Hsums.
      * intros Hg Hpos. destruct (Hmat Hg Hpos) as (io' & v & Hs' & Hv & Hm). exists io', v.
        cbn [set_rl_report cc_io_report rl_w]. rewrite Hslot by lia. by rewrite (proj2 (Z.eqb_neq (k - 1) k)) by lia.
  - cbn. by rewrite Hl.
  - right. split_and!; [by right|by right|done].
  - done.
Qed.

(** Reading or writing the whole object. *)
Lemma rwl_io_spec s role o :
  opened s o →
  ∃ rc sum o' random' w',
    (match role with
     | RWL_WRITER => io_thread_obj_write md5 fuel o bs count (rl_random s) (rl_w s)
     | RWL_READER => io_thread_obj_read md5 fuel o bs count (rl_random s) (rl_w s)
     end) = Done (rc, sum, o', random', w') ∧ mo_id o' = oid ∧ mo_drv_obj o' ≠ None ∧ rc <= 0 ∧
    (good → rc = 0 → ∃ v', objs w' oid = Some v' ∧ sum = md5 (fbytes (ov_bytes v') 0 (count * bs)) ∧
       (role = RWL_READER → objs (rl_w s) oid = Some v')).
Proof.
  intros (Hid & Hd & He). set (a0 := objs (rl_w s)). destruct role.
  - set (v0 := default (MkView 0 (λ _, 0) None) (a0 oid)).
    destruct (io_thread_obj_write_correct md5 oid a0 bs count Hbs Hcount Hfit Hbs4 (rl_random s) v0
      (moa_size (mo_attrs o)) (a0 oid ≠ None) fuel o (rl_w s))
      as (rc & sum & o' & random' & w' & Hw & Hrc & (_ & Hid' & Hd') & Hok); [done| |done|].
    { intros Hne. unfold v0, a0 in *. destruct (objs (rl_w s) oid) as [v|] eqn:Ev; [|done].
      exists v. do 3 (split; [done|]). split; [lia|]. split; [lia|done]. }
    exists rc, sum, o', random', w'. do 4 (split; [done|]). intros Hg ->. destruct (Hok eq_refl) as [-> Hdest].
    destruct (Hdest (He Hg)) as (vt & Hvt & _ & _ & Hb & _). exists vt. split; [done|]. split; [|done].
    f_equal. apply fbytes_ext. intros z Hz. symmetry. apply Hb. lia.
  - set (v0 := default (MkView 0 (λ _, 0) None) (a0 oid)).
    destruct (io_thread_obj_read_correct md5 oid a0 bs count Hbs Hcount Hfit v0 (moa_size (mo_attrs o))) with
      (fuel := fuel) (o := o) (random := rl_random s) (w := rl_w s)
      as (rc & sum & o' & random' & w' & Hr & Hrc & (Hobjs & Hid' & Hd' & _) & Hok); [|by split_and!|done|].
    { intros v' Hv'. unfold v0. by rewrite Hv'. }
    exists rc, sum, o', random', w'. do 4 (split; [done|]). intros Hg ->. specialize (Hok eq_refl).
    cbn [is_obj] in *. specialize (He Hg). unfold v0 in Hok. unfold a0 in *. destruct (objs (rl_w s) oid) as [v|] eqn:Ev; [|done].
    exists v. by rewrite Hobjs.
Qed.

Lemma step_io s i role lock_rc o k : rwl_inv s → rl_threads s !! i = Some (role, LIo o k) →
  ∃ r, obj_step role i lock_rc (LIo o k) (rl_shared s) = Done r ∧ step_post s i role lock_rc (LIo o k) r.
Proof.
  intros Hinv Hi. destruct (li_pos _ Hinv _ _ _ Hi) as [(Ho & (Hk & Hk0 & io & Hio & Hrole) & Hrec) Hcrit]. cbn [rwl_obj_step].
  assert (Hl : rl_lock (rl_shared s) = Some i) by by apply Hcrit.
  pose proof (slot_bound _ _ _ (li_report _ Hinv) Hio) as Hb.
  destruct (slot_ok _ k (li_report _ Hinv) Hb) as (io' & Hio' & _ & Hbsz & Hcnt). assert (io' = io) as -> by congruence.
  rewrite Hio. cbn [mbind outcome_bind]. rewrite Hbsz, Hcnt.
  destruct (rwl_io_spec (rl_shared s) role o Ho) as (rc & sum & o' & random' & w' & -> & Hid & Hd & Hrc & Hok).
  cbn [mbind outcome_bind]. eexists. split; [done|]. intros Hsucc.
  set (sh' := MkRwlShared _ _ _ random' w').
  assert (Hslot : ∀ j, 0 <= j → slot sh' j = if j =? k then Done (set_io_sum sum io) else slot (rl_shared s) j).
  { intros j Hj. apply rwl_slot_set; [done..| |by exists io]. destruct (li_report _ Hinv) as (l & Hll & _). by exists l. }
  assert (Hother : ∀ j, 0 <= j < k → slot sh' j = slot (rl_shared s) j).
  { intros j Hj. rewrite Hslot by lia. by rewrite (proj2 (Z.eqb_neq j k)) by lia. }
  assert (Hexists : good → objs w' oid ≠ None).
  { intros Hg. destruct (Hok Hg (Hsucc Hg)) as (v' & -> & _). done. }
  assert (Hmatch : good → matches sh' k).
  { intros Hg. destruct (Hok Hg (Hsucc Hg)) as (v' & Hv' & Hsum & _). exists (set_io_sum sum io), v'.
    rewrite Hslot, Z.eqb_refl by done. split; [done|]. split; [done|]. by rewrite Hsum. }
  assert (Hrec' : recorded sh' (nr_done sh')).
  { change (nr_done sh') with (nr_done (rl_shared s)). replace (nr_done (rl_shared s)) with (k + 1) by lia. split.
    - intros j Hj. destruct (decide (j = k)) as [->|Hne].
      + exists (set_io_sum sum io). by rewrite Hslot, Z.eqb_refl by done.
      + rewrite Hother by lia. apply Hrec. lia.
    - intros Hg _. replace (k + 1 - 1) with k by lia. by apply Hmatch. }
  eapply inv_update; [exact Hinv|exact Hi| |apply (li_done _ Hinv)|..].
  - by apply (report_ok_set _ k io (set_io_sum sum io) (li_report _ Hinv)).
  - cbn. lia.
  - cbn. congruence.
  - split; [done|]. split; [by split_and!|]. split; [|split; [done|]].
    + split; [cbn; lia|]. split; [done|]. exists (set_io_sum sum io). by rewrite Hslot, Z.eqb_refl by done.
    + intros Hg Hr Hpos. destruct Hrec as [_ Hm]. destruct (Hm Hg Hpos) as (io1 & v & Hs1 & Hv1 & Hm1).
      destruct (Hok Hg (Hsucc Hg)) as (v' & Hv' & _ & Hsame). exists io1, v. rewrite Hother by lia.
      split; [done|]. split; [|done]. cbn [rl_w sh']. specialize (Hsame Hr). congruence.
  - cbn. by rewrite Hl.
  - right. split_and!; [by right|by right|]. intros Hg _. by apply Hexists.
  - done.
Qed.

Lemma lines_ok_snoc l ln : lines_ok l → ln_pass ln ≠ Some false → lines_ok (l ++ [ln]).
Proof. intros Hl Hln. apply Forall_app. by split; [|constructor]. Qed.

(** Printing a slot that is done. *)
Lemma rwl_print_spec s role k io rc o : report_ok (cc_io_report s) → pos_ok s role (LPrint o k rc) → slot s k = Done io →
  ∃ ln, rwl_print_io (cc_io_report s) io = Done ln ∧ (good → ln_pass ln ≠ Some false).
Proof.
  intros Hrep (_ & Ho & (Hk & Hk0 & io' & Hio' & Hrole) & [Hsums Hlast] & Hprev) Hio. assert (io' = io) as -> by congruence.
  unfold rwl_print_io. rewrite Hrole. cbn [initialised mbind outcome_bind].
  destruct (Hsums k ltac:(lia)) as (io1 & Hio1 & Hs1). assert (io1 = io) as -> by congruence.
  destruct (io_md5sum io) as [sum|] eqn:Esum; [|done]. cbn [initialised mbind outcome_bind].
  destruct role; [by eexists|].
  assert (Hidx : io_idx io = k).
  { destruct (slot_ok _ k Hrep (slot_bound _ _ _ Hrep Hio)) as (io2 & Hio2 & Hi2 & _). congruence. }
  rewrite Hidx. destruct (Z.ltb_spec 0 k) as [Hpos|]; [|by eexists].
  destruct (Hsums (k - 1) ltac:(lia)) as (io2 & Hio2 & Hs2). rewrite Hio2. cbn [mbind outcome_bind].
  destruct (io_md5sum io2) as [sum2|] eqn:Esum2; [|done]. cbn [initialised mbind outcome_bind]. eexists. split; [done|].
  intros Hg. cbn [ln_pass]. destruct (Hprev Hg eq_refl Hpos) as (io3 & v & Hio3 & Hv & Hm3).
  destruct (Hlast Hg ltac:(lia)) as (io4 & v4 & Hio4 & Hv4 & Hm4). replace (nr_done s - 1) with k in Hio4 by lia.
  rewrite bool_decide_true by congruence. done.
Qed.

Lemma step_print s i role lock_rc o k rc : rwl_inv s → rl_threads s !! i = Some (role, LPrint o k rc) →
  ∃ r, obj_step role i lock_rc (LPrint o k rc) (rl_shared s) = Done r ∧ step_post s i role lock_rc (LPrint o k rc) r.
Proof.
  intros Hinv Hi. destruct (li_pos _ Hinv _ _ _ Hi) as [Hpos Hcrit]. pose proof Hpos as (Hrc & Ho & (_ & _ & io & Hio & _) & Hrec & _).
  assert (Hl : rl_lock (rl_shared s) = Some i) by by apply Hcrit.
  destruct (rwl_print_spec _ _ _ _ _ _ (li_report _ Hinv) Hpos Hio) as (ln & Hln & Hpass).
  cbn [rwl_obj_step]. rewrite Hio. cbn [mbind outcome_bind]. rewrite Hln.
  assert (Hgen : ∀ sh', cc_io_report sh' = cc_io_report (rl_shared s) → rl_lock sh' = rl_lock (rl_shared s) →
    rl_w sh' = rl_w (rl_shared s) → (good → lines_ok (rl_out (rl_shared s)) → lines_ok (rl_out sh')) →
    rwl_inv (MkRwl (<[i := (role, LUnlock o rc)]> (rl_threads s)) sh')).
  { intros sh' Hr Hlk Hw Hout. assert (Hb : same_bytes (rl_w (rl_shared s)) (rl_w sh')) by (by apply same_bytes_refl; rewrite Hw).
    eapply inv_update; [exact Hinv|exact Hi|rewrite Hr; apply (li_report _ Hinv)|rewrite Hr; apply (li_done _ Hinv)|..]; try done.
    - by rewrite Hr.
    - intros Hn. congruence.
    - split; [done|]. split; [by eapply opened_frame|]. rewrite Hr. by eapply recorded_frame.
    - by rewrite Hlk.
    - by left. }
  assert (Hsnoc : ∀ l, good → lines_ok l → lines_ok (l ++ [ln])) by (intros l Hg Hl'; apply lines_ok_snoc; auto).
  destruct (rc =? 0), role; cbn [mbind outcome_bind rl_print cc_io_report]; try rewrite Hln; cbn [mbind outcome_bind];
    (eexists; split; [done|]); intros _; apply Hgen; try done; cbn [rl_print rl_out]; auto.
Qed.

Lemma step_unlock s i role lock_rc o rc : rwl_inv s → rl_threads s !! i = Some (role, LUnlock o rc) →
  ∃ r, obj_step role i lock_rc (LUnlock o rc) (rl_shared s) = Done r ∧ step_post s i role lock_rc (LUnlock o rc) r.
Proof.
  intros Hinv Hi. destruct (li_pos _ Hinv _ _ _ Hi) as [(Hrc & Ho & Hrec) Hcrit].
  assert (Hl : rl_lock (rl_shared s) = Some i) by by apply Hcrit. eexists. split; [done|]. intros _.
  eapply inv_update; [exact Hinv|exact Hi|apply (li_report _ Hinv)|apply (li_done _ Hinv)|..]; try done.
  right. split_and!; [by right|by left|done].
Qed.

Lemma step_close s i role lock_rc o rc : rwl_inv s → rl_threads s !! i = Some (role, LClose o rc) →
  ∃ r, obj_step role i lock_rc (LClose o rc) (rl_shared s) = Done r ∧ step_post s i role lock_rc (LClose o rc) r.
Proof.
  intros Hinv Hi. destruct (li_pos _ Hinv _ _ _ Hi) as [(Hrc & Hid & Hd & He) Hcrit]. cbn [rwl_obj_step].
  destruct (cmd_close_spec o (rl_w (rl_shared s)) Hd) as (w' & -> & _ & _ & Hc). cbn [mbind outcome_bind].
  assert (Hb : same_bytes (rl_w (rl_shared s)) w').
  { unfold close_spec in Hc. rewrite Hid in Hc. unfold same_bytes.
    destruct (objs (rl_w (rl_shared s)) oid); [|done]. destruct Hc as (v' & ? & ? & _). by exists v'. }
  eexists. split; [done|]. intros _.
  eapply inv_update; [exact Hinv|exact Hi|apply (li_report _ Hinv)|apply (li_done _ Hinv)|..]; try done.
  - intros Hn. by apply (recorded_frame (rl_shared s)); [..|apply (li_free _ Hinv)].
  - by left.
Qed.

Lemma rwl_obj_step_inv s i role lock_rc t : rwl_inv s → rl_threads s !! i = Some (role, t) →
  ∃ r, obj_step role i lock_rc t (rl_shared s) = Done r ∧ step_post s i role lock_rc t r.
Proof.
  intros Hinv Hi. destruct t; eauto using step_open, step_lock, step_task, step_io, step_print, step_unlock, step_close.
  eexists. split; [done|]. left. by eexists.
Qed.

(** ** All steps *)

Definition ios_ok (s : rwl_state) : Prop := Forall (λ t, succeeded t.2) (rl_threads s).

Lemma rwl_exec_inv who lock_rc s : rwl_inv s →
  ∃ r, rwl_exec md5 fuel oid who lock_rc s = Done r ∧ ∀ s', r = Some s' → (good → ios_ok s') → rwl_inv s'.
Proof.
  intros Hinv. unfold rwl_exec. destruct (rl_threads s !! who) as [[role t]|] eqn:Hi; [|by eexists].
  destruct (rwl_obj_step_inv s who role lock_rc t Hinv Hi) as (r & -> & Hpost). cbn [mbind outcome_bind].
  eexists. split; [done|]. intros s' Hs' Hios. destruct r as [[t' sh']|]; [|done]. injection Hs' as <-. apply Hpost.
  intros Hg. specialize (Hios Hg). unfold ios_ok in Hios. rewrite Forall_lookup in Hios.
  apply (Hios who (role, t')). apply list_lookup_insert_eq. by eapply lookup_lt_Some.
Qed.

Lemma rwl_reachable_inv s s' :
  rwl_inv s → rtc (λ a b, rwl_step md5 fuel oid a b ∧ (good → ios_ok b)) s s' → rwl_inv s'.
Proof.
  intros Hinv Hs. induction Hs as [|s1 s2 s3 [(who & lrc & Hw) Hok] _ IH]; [done|]. apply IH.
  destruct (rwl_exec_inv who lrc s1 Hinv) as (r & Hr & Hpost). rewrite Hw in Hr. injection Hr as <-. by apply Hpost.
Qed.

Lemma rwl_progress s : rwl_inv s → (∃ s', rwl_step md5 fuel oid s s') ∨ rwl_over s.
Proof.
  intros Hinv.
  assert (Hgo : ∀ i role t, rl_threads s !! i = Some (role, t) → (∀ rc, t ≠ LDone rc) →
    (∀ o, t = LLock o → rl_lock (rl_shared s) = None) → ∃ s', rwl_step md5 fuel oid s s').
  { intros i role t Hi Hnd Hlk. destruct (rwl_obj_step_inv s i role 0 t Hinv Hi) as ([[t' sh']|] & Hr & Hpost).
    - eexists. exists i, 0. unfold rwl_exec. by rewrite Hi, Hr.
    - exfalso. destruct Hpost as [[rc ->]|((o & ->) & _ & Hl)]; [by eapply Hnd|]. by apply Hl, (Hlk o). }
  assert (Hdec : ∀ u : rwl_io_role * rwl_pos, (∃ rc, u.2 = LDone rc) ∨ ¬ ∃ rc, u.2 = LDone rc).
  { intros [role t]. destruct t; try (right; by intros [? ?]). left. by eexists. }
  destruct (all_or_one _ (rl_threads s) Hdec) as [Hall|(i & [role t] & Hi & Hne)]; [by right|]. left.
  destruct (rl_lock (rl_shared s)) as [j|] eqn:El.
  - destruct (li_holder _ Hinv j El) as [[role' u] Hj]. destruct (li_pos _ Hinv _ _ _ Hj) as [_ Hcrit].
    apply Hcrit in El. apply (Hgo j role' u Hj); intros; destruct u; done.
  - apply (Hgo i role t Hi); [|done]. intros rc ->. apply Hne. by eexists.
Qed.

(** Only one thread has the lock. *)
Lemma rwl_exclusive s i j u v :
  rwl_inv s → rl_threads s !! i = Some u → rl_threads s !! j = Some v → critical u.2 → critical v.2 → i = j.
Proof.
  intros Hinv Hi Hj Hu Hv. destruct u as [ru tu], v as [rv tv].
  destruct (li_pos _ Hinv _ _ _ Hi) as [_ Hcu], (li_pos _ Hinv _ _ _ Hj) as [_ Hcv].
  apply Hcu in Hu. apply Hcv in Hv. congruence.
Qed.
End Steps.
End Invariant.

(** ** Termination *)
Section Program.
Context `{HostOrder} `{ObjService} (md5 : list Z → list Z) (fuel : nat) (oid : mio_obj_id).

Definition rank (t : rwl_pos) : nat :=
  match t with
  | LOpen => 7 | LLock _ => 6 | LTask _ => 5 | LIo _ _ => 4 | LPrint _ _ _ => 3 | LUnlock _ _ => 2 | LClose _ _ => 1
  | LDone _ => 0
  end.

Definition rwl_left (s : rwl_state) : nat := sum_list_with (λ t, rank t.2) (rl_threads s).

Lemma rank_step role me lock_rc t s t' s' :
  rwl_obj_step md5 fuel oid role me lock_rc t s = Done (Some (t', s')) → (rank t' < rank t)%nat.
Proof.
  destruct t; cbn [rwl_obj_step]; intros Hs.
  - destruct (obj_open _ _ _) as [[rc o] w]. injection Hs as <- _. destruct (rc <? 0); cbn; lia.
  - destruct (lock_rc <? 0); [injection Hs as <- _; cbn; lia|]. destruct (rl_lock s); [done|]. injection Hs as <- _. cbn. lia.
  - apply outcome_bind_Done in Hs as (io & _ & Hs). injection Hs as <- _. cbn. lia.
  - apply outcome_bind_Done in Hs as (io & _ & Hs). apply outcome_bind_Done in Hs as ([[[[? ?] ?] ?] ?] & _ & Hs).
    injection Hs as <- _. cbn. lia.
  - apply outcome_bind_Done in Hs as (io & _ & Hs). apply outcome_bind_Done in Hs as (s1 & _ & Hs). destruct role.
    + injection Hs as <- _. cbn. lia.
    + apply outcome_bind_Done in Hs as (ln & _ & Hs). injection Hs as <- _. cbn. lia.
  - injection Hs as <- _. cbn. lia.
  - apply outcome_bind_Done in Hs as (w & _ & Hs). injection Hs as <- _. cbn. lia.
  - done.
Qed.

Lemma rwl_steps_bound n s s' : nsteps (rwl_step md5 fuel oid) n s s' → (n + rwl_left s' <= rwl_left s)%nat.
Proof.
  apply nsteps_measure. clear. intros s1 s2 (who & lrc & Hw). unfold rwl_exec in Hw.
  destruct (rl_threads s1 !! who) as [[role t]|] eqn:Hi; [|done].
  apply outcome_bind_Done in Hw as ([[t' sh']|] & Hstep & Hw); [|done]. injection Hw as <-. apply rank_step in Hstep.
  unfold rwl_left. cbn [rl_threads].
  destruct (sum_split (λ t, rank t.2) _ _ _ (role, t') Hi) as [-> ->]. cbn [snd] in *. lia.
Qed.

(** The result of a call is that of its reading or writing. *)
Definition result_of (t : rwl_pos) : option Z :=
  match t with LPrint _ _ rc | LUnlock _ rc | LClose _ rc | LDone rc => Some rc | _ => None end.

Lemma call_result n role lock_rc t s rc s' rc0 :
  rwl_obj_call md5 fuel oid n role lock_rc t s = Done (rc, s') → result_of t = Some rc0 → rc = rc0.
Proof.
  revert t s. induction n as [|n IH]; intros t s Hc Hr.
  { destruct t; try done. cbn in *. congruence. }
  destruct t as [| | | |o i r|o r|o r|r]; try done; cbn [rwl_obj_call] in Hc; injection Hr as <-.
  - cbn [rwl_obj_step] in Hc. apply outcome_bind_Done in Hc as (x & Hx & Hc).
    apply outcome_bind_Done in Hx as (io & _ & Hx). apply outcome_bind_Done in Hx as (s1 & _ & Hx). destruct role.
    + injection Hx as <-. by eapply IH.
    + apply outcome_bind_Done in Hx as (ln & _ & Hx). injection Hx as <-. by eapply IH.
  - cbn [rwl_obj_step mbind outcome_bind] in Hc. by eapply IH.
  - cbn [rwl_obj_step] in Hc. apply outcome_bind_Done in Hc as (x & Hx & Hc).
    apply outcome_bind_Done in Hx as (w & _ & Hx). injection Hx as <-. by eapply IH.
  - by injection Hc as <- _.
Qed.

(** ** The start and the theorem *)
Section Start.
Context (bs count : Z) (Hbs : 0 < bs) (Hbs4 : bs mod 4 = 0) (Hcount : 0 < count) (Hfit : bs * count < 2 ^ 32).
Context (Hfuel : (Z.to_nat count < fuel)%nat) (N M : Z) (HMN : M <= N).

Local Abbreviation inv := (rwl_inv md5 oid bs count N M).
Local Abbreviation step_inv good :=
  (rwl_obj_step_inv md5 fuel oid bs count N M good Hbs Hbs4 Hcount Hfit Hfuel HMN).

(** A single thread is never blocked. *)
Lemma alone_steps good role lock_rc t s :
  inv good (MkRwl [(role, t)] s) → (∀ rc, t ≠ LDone rc) →
  ∃ t' s', rwl_obj_step md5 fuel oid role 0 lock_rc t s = Done (Some (t', s')) ∧
    ((good → succeeded t') → inv good (MkRwl [(role, t')] s')).
Proof.
  intros Hinv Hnd. destruct (step_inv good _ 0 role lock_rc t Hinv eq_refl) as ([[t' s']|] & Hr & Hpost).
  - by exists t', s'.
  - exfalso. destruct Hpost as [[rc ->]|((o & ->) & _ & Hl)]; [by eapply Hnd|]. apply Hl. cbn [rl_shared].
    destruct (rl_lock s) as [j|] eqn:El; [|done]. exfalso.
    destruct (li_holder _ _ _ _ _ _ _ _ Hinv j El) as [u Hu]. destruct j; [|done].
    destruct (li_pos _ _ _ _ _ _ _ _ Hinv 0%nat role (LLock o) eq_refl) as [_ Hcrit]. by apply Hcrit in El.
Qed.

Lemma call_returns n role lock_rc t s :
  inv False (MkRwl [(role, t)] s) → (rank t <= n)%nat →
  ∃ rc s', rwl_obj_call md5 fuel oid n role lock_rc t s = Done (rc, s').
Proof.
  revert t s. induction n as [|n IH]; intros t s Hinv Hn.
  { destruct t; cbn in Hn; try lia. by eexists _, _. }
  assert (Hcase : (∃ rc, t = LDone rc) ∨ ∀ rc, t ≠ LDone rc) by (destruct t; (by left; eexists) || by right).
  destruct Hcase as [[rc ->]|Hnd]; [by eexists _, _|].
  destruct (alone_steps False role lock_rc t s Hinv Hnd) as (t' & s' & Hs & Hpost). pose proof (rank_step _ _ _ _ _ _ _ Hs).
  cbn [rwl_obj_call]. rewrite Hs. cbn [mbind outcome_bind].
  destruct (IH t' s') as (rc & s2 & Hc); [by apply Hpost|lia|]. destruct t; by eexists _, _.
Qed.

Lemma call_inv good n role lock_rc t s rc s' :
  rwl_obj_call md5 fuel oid n role lock_rc t s = Done (rc, s') → (good → rc = 0) → inv good (MkRwl [(role, t)] s) →
  inv good (MkRwl [(role, LDone rc)] s').
Proof.
  intros Hc Hg. revert t s Hc. induction n as [|n IH]; intros t s Hc Hinv.
  { destruct t; try done. cbn in Hc. by injection Hc as <- <-. }
  assert (Hcase : (∃ rc, t = LDone rc) ∨ ∀ rc, t ≠ LDone rc) by (destruct t; (by left; eexists) || by right).
  destruct Hcase as [[rc0 ->]|Hnd]; [by injection Hc as <- <-|].
  destruct (alone_steps good role lock_rc t s Hinv Hnd) as (t' & s1 & Hs & Hpost).
  cbn [rwl_obj_call] in Hc. rewrite Hs in Hc. cbn [mbind outcome_bind] in Hc.
  assert (Hc' : rwl_obj_call md5 fuel oid n role lock_rc t' s1 = Done (rc, s')) by (by destruct t; try done; edestruct Hnd).
  apply (IH t' s1 Hc'). apply Hpost. intros Hgood. destruct t'; try done. cbn.
  rewrite <- (Hg Hgood). symmetry. by eapply call_result.
Qed.
End Start.

Lemma rwl_report_inv bs count n p :
  0 <= n → Forall (λ b, b = true) p →
  ∃ p' r, rwl_io_report_init oid n bs count p = (0, r, p') ∧ report_ok bs count n r ∧ ior_nr_done r = 0.
Proof.
  intros Hn Hp. unfold rwl_io_report_init. destruct (plan_next p) as [ok p'] eqn:Ep.
  destruct (plan_next_all _ _ _ Ep Hp) as [-> _]. cbn [negb]. eexists _, _. split; [done|]. split; [|done].
  eexists. split; [done|]. split; [rewrite length_fmap, length_seqZ; lia|]. intros i io Hio.
  apply list_lookup_fmap_Some in Hio as (j & -> & Hj). apply lookup_seqZ in Hj as [-> _]. done.
Qed.

(** The main thread has written the object: all threads can start. *)
Lemma rwl_threads_inv good bs count N n sh rc :
  N = 2 * Z.of_nat n + 1 → rwl_inv md5 oid bs count N 1 good (MkRwl [(RWL_WRITER, LDone rc)] sh) →
  rwl_inv md5 oid bs count N N good (MkRwl (replicate n (RWL_WRITER, LOpen) ++ replicate n (RWL_READER, LOpen)) sh).
Proof.
  intros HN [Hrep Hdone Hleft Hfree Hpos Hhold Hlines]. cbn [rl_shared rl_threads] in *.
  assert (Hlock : rl_lock sh = None).
  { destruct (rl_lock sh) as [j|] eqn:El; [|done]. destruct (Hhold j eq_refl) as [u Hu]. destruct j; [|done].
    destruct (Hpos 0%nat _ _ eq_refl) as [_ Hcrit]. by destruct (proj2 Hcrit eq_refl). }
  split; cbn [rl_shared rl_threads]; try done.
  - rewrite sum_list_with_app, !sum_replicate. cbn in *. lia.
  - intros j role t Hj. rewrite Hlock. assert (t = LOpen) as ->; [|done].
    apply lookup_app_Some in Hj as [Hj|[_ Hj]]; apply lookup_replicate in Hj as [Hj _]; congruence.
  - intros j. by rewrite Hlock.
Qed.

(** (C35) Threads that write and read one object under its lock, in whatever order they
    make their steps and whatever fails: the start returns, and if it succeeds no
    step faults (a slot is there, the sums that are compared are set); never two
    threads are in the critical section; the slots are enough; no deadlock; a bounded
    number of steps; and as long as no reading or writing has failed every line that
    a reader prints says MATCHED. *)
Theorem mio_rw_lock_correct (bs count : Z) (nr_threads : nat) (lock_rc : Z) (p : mplan) (random : list Z) (w : cmd_world) :
  0 < bs → bs mod 4 = 0 → 0 < count → bs * count < 2 ^ 32 → (Z.to_nat count < fuel)%nat → Forall (λ b, b = true) p →
  ∃ rc s0, mio_rwl_start md5 fuel oid nr_threads bs count lock_rc p random w = Done (rc, s0) ∧
    (rc = 0 → ∀ s, rtc (rwl_step md5 fuel oid) s0 s →
      (∀ who lrc, ∃ r, rwl_exec md5 fuel oid who lrc s = Done r) ∧
      (∀ i j u v, rl_threads s !! i = Some u → rl_threads s !! j = Some v → critical u.2 → critical v.2 → i = j) ∧
      ior_nr_done (cc_io_report (rl_shared s)) <= 2 * Z.of_nat nr_threads + 1 ∧
      ((∃ s', rwl_step md5 fuel oid s s') ∨ rwl_over s) ∧
      (∀ n, nsteps (rwl_step md5 fuel oid) n s0 s → (n <= 14 * nr_threads)%nat) ∧
      (rtc (λ a b, rwl_step md5 fuel oid a b ∧ ios_ok b) s0 s → Forall (λ ln, ln_pass ln ≠ Some false) (rl_out (rl_shared s)))).
Proof.
  intros Hbs Hbs4 Hcount Hfit Hfuel Hp. unfold mio_rwl_start. set (N := 2 * Z.of_nat nr_threads + 1).
  destruct (rwl_report_inv bs count N p) as (p' & r & -> & Hr & Hr0); [lia|done|].
  set (sh0 := MkRwlShared r None [] random w).
  assert (Hinit : ∀ good, rwl_inv md5 oid bs count N 1 good (MkRwl [(RWL_WRITER, LOpen)] sh0)).
  { intros good. split; cbn [rl_shared rl_threads cc_io_report sh0 rl_lock rl_out]; rewrite ?Hr0; try done.
    - intros _. split; [intros i Hi; lia|intros _ ?; lia].
    - intros [|j] role t Hj; [|done]. injection Hj as <- <-. done.
    - constructor. }
  destruct (call_returns bs count Hbs Hbs4 Hcount Hfit Hfuel N 1 ltac:(lia) 7 RWL_WRITER lock_rc LOpen sh0 (Hinit False) ltac:(cbn; lia))
    as (rc & sh & Hcall). unfold rwl_obj_write. rewrite Hcall. cbn [mbind outcome_bind].
  destruct (Z.ltb_spec rc 0) as [Hlt|Hge]; [eexists _, _; split; [done|]; lia|]. eexists _, _. split; [done|]. intros _ s Hs.
  assert (Hinv0 : ∀ good, (good → rc = 0) → rwl_inv md5 oid bs count N N good
      (MkRwl (replicate nr_threads (RWL_WRITER, LOpen) ++ replicate nr_threads (RWL_READER, LOpen)) sh)).
  { intros good Hg. eapply rwl_threads_inv; [done|].
    exact (call_inv bs count Hbs Hbs4 Hcount Hfit Hfuel N 1 ltac:(lia) good _ _ _ _ _ _ _ Hcall Hg (Hinit good)). }
  set (s0 := MkRwl (replicate nr_threads (RWL_WRITER, LOpen) ++ _) sh) in *.
  assert (Hinv : rwl_inv md5 oid bs count N N False s).
  { eapply (rwl_reachable_inv md5 fuel oid bs count N N False Hbs Hbs4 Hcount Hfit Hfuel ltac:(lia) s0); [by apply Hinv0|].
    eapply rtc_subrel; [|exact Hs]. intros a b Hab. by split. }
  split_and!.
  - intros who lrc. destruct (rwl_exec_inv md5 fuel oid bs count N N False Hbs Hbs4 Hcount Hfit Hfuel ltac:(lia) who lrc s Hinv)
      as (r1 & Hr1 & _). by exists r1.
  - intros i j u v. by apply (rwl_exclusive md5 oid bs count N N False).
  - pose proof (li_left _ _ _ _ _ _ _ _ Hinv). lia.
  - by apply (rwl_progress md5 fuel oid bs count N N False Hbs Hbs4 Hcount Hfit Hfuel ltac:(lia)).
  - intros n Hn. apply rwl_steps_bound in Hn. unfold rwl_left in Hn at 2. unfold s0 in Hn. cbn [rl_threads] in Hn.
    rewrite sum_list_with_app, !sum_replicate in Hn. cbn [snd rank] in Hn. lia.
  - intros Hok. assert (Hrc : rc = 0).
    { pose proof (call_inv bs count Hbs Hbs4 Hcount Hfit Hfuel N 1 ltac:(lia) False _ _ _ _ _ _ _ Hcall ltac:(done) (Hinit False)) as Hend.
      destruct (li_pos _ _ _ _ _ _ _ _ Hend 0%nat _ _ eq_refl) as [Hle _]. cbn in Hle. lia. }
    eapply (li_lines _ _ _ _ _ _ True); [|done].
    eapply (rwl_reachable_inv md5 fuel oid bs count N N True Hbs Hbs4 Hcount Hfit Hfuel ltac:(lia) s0); [by apply Hinv0|].
    eapply rtc_subrel; [|exact Hok]. intros a b [Hab Hb]. by split.
Qed.
End Program.

(** ** Witness and boundary cases *)
Section Witnesses.
#[local] Instance ex_host_rwl : HostOrder := false.

(** One writer and one reader, two blocks of four bytes; the main thread has
    written the object. *)
Lemma mio_rw_lock_correct_witness :
  let svc := mem_service true in
  ∃ rc s0, mio_rwl_start id 3 (ex_oid 1) 1 4 2 0 [] [7] (ex_world (MkMemSv (ex_objs 1 300) [] [])) = Done (rc, s0) ∧
    (rc = 0 → Forall (λ ln, ln_pass ln ≠ Some false) (rl_out (rl_shared s0)) ∧ ior_nr_done (cc_io_report (rl_shared s0)) <= 3).
Proof.
  intros svc.
  destruct (@mio_rw_lock_correct _ svc id 3 (ex_oid 1) 4 2 1 0 [] [7] (@ex_world svc (MkMemSv (ex_objs 1 300) [] [])))
    as (rc & s0 & H1 & H2).
  - lia.
  - reflexivity.
  - lia.
  - lia.
  - simpl. lia.
  - constructor.
  - exists rc, s0. split; [exact H1|]. intros Hrc.
    destruct (H2 Hrc s0 (rtc_refl _ s0)) as (_ & _ & H5 & _ & _ & H6). split; [apply H6, rtc_refl|]. simpl in H5. lia.
Defined.

(** The lines of the output: the slot, whether a reader has printed it, and what it
    says. *)
Definition rwl_result {svc : ObjService} (nr_threads : nat) (p : mplan) (schedule : list (nat * Z)) (w : cmd_world)
  : outcome (Z * list (Z * bool * option bool)) :=
  '(rc, s) ← mio_rwl_start id 3 (ex_oid 1) nr_threads 4 2 0 p [7] w;
  s ← rwl_run id 3 (ex_oid 1) schedule s;
  Done (rc, (λ ln, (ln_idx ln, match ln_role ln with RWL_READER => true | _ => false end, ln_pass ln)) <$> rl_out (rl_shared s)).

Definition ex_times (n : nat) (l : list (nat * Z)) : list (nat * Z) := concat (replicate n l).

(** The main thread, then the reader and the writer in turns: a reader prints its
    line twice. *)
Example rwl_in_turns :
  let svc := mem_service true in
  rwl_result 1 [] (ex_times 20 [(1%nat, 0); (0%nat, 0)]) (ex_world (MkMemSv (ex_objs 1 300) [] [])) =
    Done (0, [(0, false, None); (1, true, Some true); (1, true, Some true); (2, false, None)]).
Proof. vm_compute. reflexivity. Qed.

(** The write of a thread fails, and leaves the sum of the data it has not written:
    the line of the next reader, which has read what is there, says FAILED. *)
Example rwl_failed_write :
  let svc := mem_service false in
  rwl_result 1 [] (ex_times 7 [(0%nat, 0)] ++ ex_times 7 [(1%nat, 0)])
    (ex_world (MkMemSv (ex_objs 1 300) [0; 0; 0; 0; 0; 0; - EIO] [])) =
    Done (0, [(0, false, None); (2, true, Some false); (2, true, Some false)]).
Proof. vm_compute. reflexivity. Qed.

(** A reader that cannot read prints a line all the same. *)
Example rwl_failed_read :
  let svc := mem_service false in
  rwl_result 1 [] (ex_times 7 [(1%nat, 0)])
    (ex_world (MkMemSv (ex_objs 1 300) [0; 0; 0; 0; 0; 0; - EIO] [])) =
    Done (0, [(0, false, None); (1, true, Some false)]).
Proof. vm_compute. reflexivity. Qed.

(** No memory for the report: the main thread uses it all the same. *)
Example rwl_no_memory :
  let svc := mem_service true in
  rwl_result 1 [false] [] (ex_world (MkMemSv (ex_objs 1 300) [] [])) = Fault NullDeref.
Proof. vm_compute. reflexivity. Qed.
End Witnesses.
