(* ===== verification/IoPerf.v ===== *)
(** * The benchmark (src/examples/mio_io_perf.c)

    One object is divided among threads; a writer fills its blocks with random
    numbers, a reader drops what it reads.  The threads share the handle of the
    object.  A step of a thread is a batch: allocating the vectors, filling them and
    writing or reading them; what may happen when batches of two threads are in
    Motr at the same time is in [IoConc]. *)

From Stdlib Require Import String.
From S2P Require Import Prelude Bytes ObjId HintMap Types Hints CStr Conf CmdHelpers ObjService ObjCmd ObjCopy ObjFile ObjAsync IoThread.
Open Scope Z_scope.

Definition RWT_MAX_RAND_NUM : Z := 1024.

(** ** Threads *)

(** What mio_cmd_thread_init() meets: no memory, or the result of
    pthread_create(). *)
Inductive thread_create := ThreadNoMemory | ThreadCreated (rc : Z).

Definition mio_cmd_thread_init (t : thread_create) : Z :=
  match t with ThreadNoMemory => - ENOMEM | ThreadCreated rc => - rc end.

Inductive iob_io_type := IOB_READ | IOB_WRITE.

(** Where a thread is: before its loop, in it with the blocks that are left, the
    offset of the next one and the end of its part, or at its end with iwi_rc. *)
Inductive iob_pos :=
| IStart
| ILoop (block_count last_index max_index : Z)
| IEnd (rc : Z).

(** [struct iob_worker_info] without the times. *)
Record iob_worker_info := MkWorker {
  iwi_thrd_idx : Z;
  iwi_offset : Z;
  iwi_block_size : Z;
  iwi_block_count : Z;
  iwi_pos : iob_pos
}.

Definition set_iwi_pos (t : iob_pos) (wk : iob_worker_info) : iob_worker_info :=
  MkWorker (iwi_thrd_idx wk) (iwi_offset wk) (iwi_block_size wk) (iwi_block_count wk) t.

Section IoPerf.
Context `{HostOrder} `{ObjService}.

(** [iob_generate_data]: a random number of 64 bits fills a block, and the rest of a
    block whose size is no multiple of 8 is not set. *)
Fixpoint iob_generate_data (bsize : Z) (d : cmd_iovecs) (l : list cmd_iov) (random : list Z)
  : outcome (list cmd_iov * list Z) :=
  match l with
  | [] => Done ([], random)
  | v :: l' =>
      '(rand, random) ← mio_cmd_random RWT_MAX_RAND_NUM random;
      _ ← ci_access d v (8 * (bsize / 8));
      if negb (bsize mod 8 =? 0) then Fault UninitRead else
      '(l', random) ← iob_generate_data bsize d l' random;
      Done (set_ci_data (take (Z.to_nat (ci_len v)) (word_block 8 bsize rand)) v :: l', random)
  end.

(** One round of the loop of [iob_obj_write]: where the thread is after it, the
    handle, the random numbers that are left. *)
Definition iob_write_round (block_size block_count last_index max_index : Z) (o : mio_obj) (random : list Z)
    (w : cmd_world) : outcome (iob_pos * mio_obj * list Z * cmd_world) :=
  if negb (0 <? block_count) then Done (IEnd 0, o, random, w) else
  let bcount := if MIO_CMD_MAX_BLOCK_COUNT_PER_OP <? block_count then MIO_CMD_MAX_BLOCK_COUNT_PER_OP else block_count in
  let '(rc, data, p) := obj_alloc_iovecs bcount block_size last_index max_index (cw_plan w) in
  let w := set_cw_plan p w in
  match data with
  | None => Done (IEnd rc, o, random, w)
  | Some data =>
      '(l, random) ← iob_generate_data block_size data (ci_vecs data) random;
      '(rc, o, w) ← obj_write o (MkCmdIovecs l (ci_size data)) w;
      if negb (rc =? 0) then Done (IEnd rc, o, random, w) else
      Done (ILoop (block_count - bcount) (u64 (last_index + u64 (bcount * block_size))) max_index, o, random, w)
  end.

(** One round of the loop of [iob_obj_read]. *)
Definition iob_read_round (block_size block_count last_index max_index : Z) (o : mio_obj) (random : list Z)
    (w : cmd_world) : outcome (iob_pos * mio_obj * list Z * cmd_world) :=
  if negb (0 <? block_count) then Done (IEnd 0, o, random, w) else
  let bcount := if MIO_CMD_MAX_BLOCK_COUNT_PER_OP <? block_count then MIO_CMD_MAX_BLOCK_COUNT_PER_OP else block_count in
  let '(rc, data, p) := obj_alloc_iovecs bcount block_size last_index max_index (cw_plan w) in
  let w := set_cw_plan p w in
  match data with
  | None => Done (IEnd rc, o, random, w)
  | Some data =>
      '(rc, _, o, w) ← obj_read o data w;
      if negb (rc =? 0) then Done (IEnd rc, o, random, w) else
      Done (ILoop (block_count - bcount) (u64 (last_index + u64 (bcount * block_size))) max_index, o, random, w)
  end.

(** Before the loop: a writer starts at its offset, a reader at 0. *)
Definition iob_loop_start (iotype : iob_io_type) (wk : iob_worker_info) : iob_pos :=
  let size := u64 (iwi_block_size wk * iwi_block_count wk) in
  match iotype with
  | IOB_WRITE => ILoop (iwi_block_count wk) (iwi_offset wk) (u64 (iwi_offset wk + size))
  | IOB_READ => ILoop (iwi_block_count wk) 0 size
  end.

(** What the threads share; [ib_freed] when the array of workers has been freed. *)
Record iob_state := MkIob {
  ib_workers : list iob_worker_info;
  ib_freed : bool;
  ib_obj : mio_obj;
  ib_random : list Z;
  ib_w : cmd_world
}.

(** A step of the thread [who], by [iob_writer] or [iob_reader]. *)
Definition iob_exec (iotype : iob_io_type) (who : nat) (s : iob_state) : outcome (option iob_state) :=
  match ib_workers s !! who with
  | None => Done None
  | Some wk =>
      match iwi_pos wk with
      | IEnd _ => Done None
      | _ =>
          if ib_freed s then Fault UseAfterFree else
          '(t, o, random, w) ←
            match iwi_pos wk, iotype with
            | ILoop c li mx, IOB_WRITE => iob_write_round (iwi_block_size wk) c li mx (ib_obj s) (ib_random s) (ib_w s)
            | ILoop c li mx, IOB_READ => iob_read_round (iwi_block_size wk) c li mx (ib_obj s) (ib_random s) (ib_w s)
            | _, _ => Done (iob_loop_start iotype wk, ib_obj s, ib_random s, ib_w s)
            end;
          Done (Some (MkIob (<[who := set_iwi_pos t wk]> (ib_workers s)) false o random w))
      end
  end.

Definition iob_step (iotype : iob_io_type) (s s' : iob_state) : Prop := ∃ who, iob_exec iotype who s = Done (Some s').

(** ** Starting and stopping *)

(** The loop of [iob_threads_start] from the thread [i] on: the threads that run. *)
Fixpoint iob_threads_loop (n : nat) (i blk_cnt_left per block_size : Z) (creates : list thread_create)
  : Z * list iob_worker_info :=
  match n with
  | O => (0, [])
  | S n =>
      let count := if per <? blk_cnt_left then per else blk_cnt_left in
      let wk := MkWorker i (u64 (u64 (i * per) * block_size)) block_size count IStart in
      let '(rc, creates) := match creates with [] => (0, []) | c :: l => (mio_cmd_thread_init c, l) end in
      if rc <? 0 then (rc, []) else
      let '(rc, l) := iob_threads_loop n (i + 1) (u64 (blk_cnt_left - count)) per block_size creates in (rc, wk :: l)
  end.

(** [iob_threads_start]: the result, the threads, whether the workers have been
    freed. *)
Definition iob_threads_start (nr_threads block_size block_count : Z) (creates : list thread_create) (p : mplan)
  : outcome (Z * list iob_worker_info * bool * mplan) :=
  let '(ok1, p) := plan_next p in
  let '(ok2, p) := plan_next p in
  if negb (ok1 && ok2) || (nr_threads <? 0) then Done (- ENOMEM, [], false, p) else
  if nr_threads =? 0 then Fault DivByZero else
  let per := u64 (u64 (block_count + nr_threads) - 1) / nr_threads in
  let '(rc, l) := iob_threads_loop (Z.to_nat nr_threads) 0 block_count per block_size creates in
  Done (rc, l, rc <? 0, p).

(** [iob_io_by_threads] until the threads run: without a result they do. *)
Definition iob_io_start (pool : option mio_pool_id) (oid : mio_obj_id) (nr_threads block_size block_count : Z)
    (creates : list thread_create) (random : list Z) (w : cmd_world) : outcome (option Z * iob_state) :=
  let '(ok, p) := plan_next (cw_plan w) in
  let w := set_cw_plan p w in
  if negb ok then Done (Some (- ENOMEM), MkIob [] false obj_zero random w) else
  '(rc, o, w) ← obj_open_or_create pool oid obj_zero None w;
  if rc <? 0 then Done (Some rc, MkIob [] false o random w) else
  '(rc, l, freed, p) ← iob_threads_start nr_threads block_size block_count creates (cw_plan w);
  Done (if rc <? 0 then Some rc else None, MkIob l freed o random (set_cw_plan p w)).

Definition iob_ended (wk : iob_worker_info) : Prop := ∃ rc, iwi_pos wk = IEnd rc.
Definition iob_over (s : iob_state) : Prop := Forall iob_ended (ib_workers s).

(** The rest of [iob_io_by_threads] after the threads have ended: the object is
    closed, and the result is that of starting. *)
Definition iob_threads_stop (s : iob_state) : outcome (Z * cmd_world) :=
  w ← cmd_close (ib_obj s) (ib_w s); Done (0, w).

(** [iob_io_by_async] without the times; the second part of the result is what the
    operations returned. *)
Definition iob_io_by_async (print_on_console : bool) (sched : nat → list nat) (last : list nat) (fuel : nat) (stack_obj : mio_obj)
    (iotype : iob_io_type) (pool : option mio_pool_id) (oid : mio_obj_id) (block_size block_count async_step : Z)
    (w : cmd_world) : outcome (Z * list Z * cmd_world) :=
  '(rc, rcs, w) ←
    match iotype with
    | IOB_READ =>
        '(rc, rcs, _, w) ← mio_cmd_obj_read_async print_on_console sched last fuel oid None block_size block_count async_step w;
        Done (rc, rcs, w)
    | IOB_WRITE => mio_cmd_obj_write_async print_on_console sched last fuel stack_obj None pool oid block_size block_count async_step w
    end;
  Done (if rc <? 0 then rc else 0, rcs, w).

(** A schedule of the threads. *)
Fixpoint iob_run (iotype : iob_io_type) (schedule : list nat) (s : iob_state) : outcome iob_state :=
  match schedule with
  | [] => Done s
  | who :: schedule => r ← iob_exec iotype who s; iob_run iotype schedule (default s r)
  end.

(** ** Filling blocks *)

Lemma iob_generate_chain bs d l k e random :
  0 < bs → bs mod 8 = 0 → 0 <= k → chain (ci_size d) (k * bs) l e → whole bs l →
  iob_generate_data bs d l (drop (Z.to_nat k) random) =
  Done (filled (word_data 8 bs (block_rand random)) l, drop (Z.to_nat (k + Z.of_nat (length l))) random).
Proof.
  intros Hbs H8 Hk Hc Hw. revert k Hk Hc. induction Hw as [|v l Hv Hw IH]; intros k Hk; cbn [chain].
  - intros <-. cbn. by rewrite Z.add_0_r.
  - intros (Ho & Hl & Hb & Hs & Hc). rewrite Hv in *. cbn [iob_generate_data].
    change RWT_MAX_RAND_NUM with IO_THREAD_MAX_RAND_NUM. rewrite mio_cmd_random_nth by done. cbn [mbind outcome_bind].
    pose proof (proj2 (Z.div_exact bs 8 ltac:(lia)) H8). rewrite ci_access_ok by lia.
    cbn [mbind outcome_bind]. rewrite H8. cbn [Z.eqb negb]. rewrite (word_block_bytes 8) by (done || lia).
    replace (k * bs + bs) with ((k + 1) * bs) in * by lia. rewrite (IH (k + 1)) by (done || lia). cbn [mbind outcome_bind].
    rewrite Hv, take_ge by (rewrite length_fbytes; lia). cbn [filled fmap list_fmap length]. rewrite Ho, Hv.
    by replace (k + 1 + Z.of_nat (length l)) with (k + Z.of_nat (S (length l))) by lia.
Qed.

(** A block that one number fills. *)
Definition block_ok (bs : Z) (v : obj_view) (k : Z) : Prop :=
  ∃ r, 0 <= r < RWT_MAX_RAND_NUM ∧ ∀ j, 0 <= j < bs → ov_bytes v (k * bs + j) = nth (Z.to_nat (j mod 8)) (native 8 r) 0.

Lemma block_ok_filled bs v k random :
  0 <= k → (∀ z, k * bs <= z < (k + 1) * bs → ov_bytes v z = word_data 8 bs (block_rand random) z) → block_ok bs v k.
Proof.
  intros Hk Hz. exists (block_rand random k). split.
  - unfold block_rand, RWT_MAX_RAND_NUM, IO_THREAD_MAX_RAND_NUM. destruct (random !! _); [apply Z.mod_pos_bound|]; lia.
  - intros j Hj. rewrite Hz by lia. unfold word_data. replace (k * bs + j) with (j + k * bs) by lia.
    rewrite Z.mod_add, Z.div_add by lia. by rewrite (Z.mod_small j bs), Z.div_small, Z.add_0_l by lia.
Qed.

Lemma generate_any bs d l k e random :
  0 < bs → bs mod 8 = 0 → 0 <= k → chain (ci_size d) (k * bs) l e → whole bs l →
  ∃ stream random', iob_generate_data bs d l random = Done (filled (word_data 8 bs (block_rand stream)) l, random').
Proof.
  intros Hbs H8 Hk Hc Hw.
  pose proof (iob_generate_chain bs d l k e (replicate (Z.to_nat k) 0 ++ random) Hbs H8 Hk Hc Hw) as Hg.
  rewrite drop_app_length' in Hg by (by rewrite length_replicate). by eexists _, _.
Qed.

(** ** What holds while the threads run *)
Section Invariant.
Abbreviation objs w := (sv_objects (cw_sv w)).
Context (oid : mio_obj_id) (bs count top : Z) (a0 : obj_views) (vt0 : obj_view).
Context (Hbs : 0 < bs) (Htop : (top + 121) * bs < 2 ^ 64).

(** More than the steps that a thread has left. *)
Definition iob_rank (wk : iob_worker_info) : Z :=
  match iwi_pos wk with IStart => iwi_block_count wk + 2 | ILoop c _ _ => c + 1 | IEnd _ => 0 end.

(** A worker has the blocks from [a] on. *)
Definition worker_part (wk : iob_worker_info) (a : Z) : Prop :=
  let n := iwi_block_count wk in
  iwi_block_size wk = bs ∧ iwi_offset wk = a * bs ∧ 0 <= a ∧ 0 <= n ∧ a + n <= top ∧ (0 < n → a + n <= count).

Definition worker_ok (wk : iob_worker_info) : Prop :=
  ∃ a, worker_part wk a ∧
  match iwi_pos wk with
  | IStart => True
  | ILoop c li mx => 0 <= c <= iwi_block_count wk ∧ mx = (a + iwi_block_count wk) * bs ∧
                     li = (a + iwi_block_count wk - c) * bs
  | IEnd rc => rc <= 0
  end.

Definition worker_fine (wk : iob_worker_info) : Prop := match iwi_pos wk with IEnd rc => rc = 0 | _ => True end.

(** The blocks that a worker has written. *)
Definition written (wk : iob_worker_info) (k : Z) : Prop :=
  match iwi_pos wk with
  | IStart => False
  | ILoop _ li _ => iwi_offset wk <= k * bs < li
  | IEnd _ => iwi_offset wk <= k * bs < iwi_offset wk + iwi_block_count wk * bs
  end.

(** The object, if no thread has failed. *)
Definition content_ok (wks : list iob_worker_info) (o : mio_obj) (w : cmd_world) : Prop :=
  ∃ vt, objs w oid = Some vt ∧ ov_size vt = ov_size vt0 ∧ ov_pool vt = ov_pool vt0 ∧
    (mo_attrs_updated o = true ∨ moa_size (mo_attrs o) = ov_size vt0) ∧
    ov_size vt0 <= moa_size (mo_attrs o) <= Z.max (ov_size vt0) (count * bs) ∧
    (∀ wk k, wk ∈ wks → 0 <= k → written wk k → block_ok bs vt k ∧ (k + 1) * bs <= moa_size (mo_attrs o)) ∧
    (∀ z, count * bs <= z < ov_size vt0 → ov_bytes vt z = ov_bytes vt0 z).

Record iob_inv (s : iob_state) : Prop := {
  iv_live : ib_freed s = false;
  iv_frame : ∀ id, id ≠ oid → objs (ib_w s) id = a0 id;
  iv_handle : mo_id (ib_obj s) = oid ∧ mo_drv_obj (ib_obj s) ≠ None;
  iv_workers : Forall worker_ok (ib_workers s);
  iv_content : Forall worker_fine (ib_workers s) → content_ok (ib_workers s) (ib_obj s) (ib_w s)
}.

(** A worker that has no more blocks than before. *)
Lemma content_same wks i wk wk' o w :
  (∀ k, written wk' k → written wk k) → wks !! i = Some wk → content_ok wks o w → content_ok (<[i := wk']> wks) o w.
Proof.
  intros Hsame Hi (vt & Hvt & Hs & Hp & Hup & Hsz & Hb & Hrest). exists vt. do 5 (split; [done|]). split; [|done].
  intros u k Hu Hk Hw. apply list_elem_of_lookup in Hu as [j Hj]. destruct (decide (j = i)) as [->|Hne].
  - rewrite list_lookup_insert_eq in Hj by (by eapply lookup_lt_Some). injection Hj as <-.
    apply (Hb wk); [by eapply list_elem_of_lookup_2|done|by apply Hsame].
  - rewrite list_lookup_insert_ne in Hj by done. apply (Hb u); [by eapply list_elem_of_lookup_2|done|done].
Qed.

(** A worker that has the blocks from [k0] on to [k1] besides. *)
Lemma content_batch wks i wk wk' o w stream k0 k1 o' w' :
  0 <= k0 < k1 → k1 <= count → wks !! i = Some wk → mo_id o = oid →
  (∀ k, written wk' k → written wk k ∨ k0 <= k < k1) →
  (mo_attrs_updated o' = true ∧ moa_size (mo_attrs o') = Z.max (moa_size (mo_attrs o)) (k1 * bs) ∧
   ∃ v v', objs w (mo_id o) = Some v ∧ objs w' (mo_id o) = Some v' ∧ ov_size v' = ov_size v ∧ ov_pool v' = ov_pool v ∧
     (∀ z, k0 * bs <= z < k1 * bs → ov_bytes v' z = word_data 8 bs (block_rand stream) z) ∧
     (∀ z, ¬ k0 * bs <= z < k1 * bs → ov_bytes v' z = ov_bytes v z ∨ moa_size (mo_attrs o) <= z)) →
  content_ok wks o w → content_ok (<[i := wk']> wks) o' w'.
Proof.
  intros Hk0 Hk1 Hi Hid Hnew (Hup' & Hsz' & v & v' & Hv & Hv' & Hvs & Hvp & Hin & Hout)
    (vt & Hvt & Hs & Hp & Hup & Hsz & Hb & Hrest).
  rewrite Hid in *. assert (v = vt) as -> by congruence.
  assert (k1 * bs <= count * bs) by (apply Z.mul_le_mono_nonneg_r; lia).
  exists v'. split; [done|]. do 2 (split; [congruence|]). split; [by left|]. split; [lia|].
  assert (Hbatch : ∀ k, k0 <= k < k1 → block_ok bs v' k ∧ (k + 1) * bs <= moa_size (mo_attrs o')).
  { intros k Hk. assert (k0 * bs <= k * bs) by (apply Z.mul_le_mono_nonneg_r; lia).
    assert ((k + 1) * bs <= k1 * bs) by (apply Z.mul_le_mono_nonneg_r; lia).
    split; [|lia]. apply (block_ok_filled bs v' k stream); [lia|]. intros z Hz. apply Hin. lia. }
  split.
  2:{ intros z Hz. destruct (Hout z) as [->|?]; [lia|by apply Hrest|lia]. }
  assert (Hold : ∀ u k, u ∈ wks → 0 <= k → written u k → block_ok bs v' k ∧ (k + 1) * bs <= moa_size (mo_attrs o')).
  { intros u k Hu Hk Hw. destruct (decide (k0 <= k < k1)) as [Hkk|Hkk]; [by apply Hbatch|].
    destruct (Hb u k Hu Hk Hw) as [(r & Hr & Hbytes) Hle]. split; [|lia]. exists r. split; [done|]. intros j Hj.
    rewrite <- Hbytes by done. destruct (Hout (k * bs + j)) as [->|?]; [|done|lia].
    destruct (decide (k < k0)) as [Hlt|Hge].
    - assert ((k + 1) * bs <= k0 * bs) by (apply Z.mul_le_mono_nonneg_r; lia). lia.
    - assert (k1 * bs <= k * bs) by (apply Z.mul_le_mono_nonneg_r; lia). lia. }
  intros u k Hu Hk Hw. apply list_elem_of_lookup in Hu as [j Hj]. destruct (decide (j = i)) as [->|Hne].
  - rewrite list_lookup_insert_eq in Hj by (by eapply lookup_lt_Some). injection Hj as <-.
    destruct (Hnew k Hw) as [Hw'|Hkk]; [|by apply Hbatch]. by apply (Hold wk); [eapply list_elem_of_lookup_2| |].
  - rewrite list_lookup_insert_ne in Hj by done. by apply (Hold u); [eapply list_elem_of_lookup_2| |].
Qed.

(** One batch: what is written is whole blocks, and everything else stays. *)
Lemma iob_write_round_spec wks i wk a c li mx o random w :
  bs mod 8 = 0 → wks !! i = Some wk → worker_part wk a → iwi_pos wk = ILoop c li mx →
  0 <= c <= iwi_block_count wk → mx = (a + iwi_block_count wk) * bs → li = (a + iwi_block_count wk - c) * bs →
  mo_id o = oid → mo_drv_obj o ≠ None →
  ∃ t o' random' w', iob_write_round bs c li mx o random w = Done (t, o', random', w') ∧
    (∀ id, id ≠ oid → objs w' id = objs w id) ∧ mo_id o' = oid ∧ mo_drv_obj o' ≠ None ∧
    let wks' := <[i := set_iwi_pos t wk]> wks in
    worker_ok (set_iwi_pos t wk) ∧ iob_rank (set_iwi_pos t wk) < c + 1 ∧
    (worker_fine (set_iwi_pos t wk) → content_ok wks o w → content_ok wks' o' w').
Proof.
  intros H8 Hi (Hwbs & Hoff & Ha & Hn & Hat & Hac) Hpos Hc -> -> Hid Hd. set (n := iwi_block_count wk) in *.
  assert (Hok : ∀ t, match t with
      | IStart => True
      | ILoop c li mx => 0 <= c <= n ∧ mx = (a + n) * bs ∧ li = (a + n - c) * bs
      | IEnd rc => rc <= 0 end → worker_ok (set_iwi_pos t wk)) by (intros t Ht; by exists a).
  unfold iob_write_round. destruct (Z.ltb_spec 0 c) as [Hpos'|Hz]; cbn [negb].
  2:{ eexists _, _, _, _. split; [done|]. do 3 (split; [done|]). split; [by apply Hok|]. split; [cbn; lia|].
      intros _. apply content_same with (wk := wk); [|done]. intros k. unfold written. rewrite Hpos, Hoff.
      cbn [iwi_pos set_iwi_pos iwi_offset iwi_block_count]. fold n. rewrite Hoff. assert (c = 0) as -> by lia. lia. }
  set (m := if MIO_CMD_MAX_BLOCK_COUNT_PER_OP <? c then MIO_CMD_MAX_BLOCK_COUNT_PER_OP else c).
  assert (Hm : 0 < m <= 120 ∧ m <= c).
  { unfold m, MIO_CMD_MAX_BLOCK_COUNT_PER_OP. destruct (Z.ltb_spec 120 c); lia. }
  set (k0 := a + n - c). assert (Hk0 : 0 <= k0) by (unfold k0; lia).
  assert (0 <= k0 * bs) by (apply Z.mul_nonneg_nonneg; lia).
  assert (Hmx : (k0 + m) * bs <= (a + n) * bs) by (apply Z.mul_le_mono_nonneg_r; unfold k0; lia).
  assert ((a + n) * bs <= top * bs) by (apply Z.mul_le_mono_nonneg_r; lia).
  assert (0 < m * bs) by (apply Z.mul_pos_pos; lia).
  destruct (obj_alloc_iovecs_spec bs ((a + n) * bs) Hbs ltac:(lia) ltac:(lia) (k0 * bs) m (cw_plan w)) as (Hch & Hlen & rc & p' & -> & Hrc);
    [lia..|]. unfold batch_end in Hch. rewrite Z.min_l in Hch by lia. replace (k0 * bs + m * bs) with ((k0 + m) * bs) in * by lia.
  pose proof (block_batch_whole bs ((a + n) * bs) (k0 * bs) m Hbs ltac:(lia) ltac:(lia) ltac:(lia)) as Hwhole.
  set (d := block_batch bs ((a + n) * bs) (k0 * bs) m) in *.
  destruct (Z.eqb_spec rc 0) as [->|Hrne].
  2:{ eexists _, _, _, _. split; [done|]. do 3 (split; [done|]). split; [by apply Hok|]. split; [cbn; lia|]. cbn. lia. }
  destruct (generate_any bs d (ci_vecs d) k0 ((k0 + m) * bs) random Hbs H8 Hk0 Hch Hwhole) as (stream & random' & ->).
  cbn [mbind outcome_bind].
  destruct (obj_write_spec o (word_data 8 bs (block_rand stream)) (ci_vecs d) (ci_size d) (set_cw_plan p' w) (k0 * bs) ((k0 + m) * bs))
    as (rc & o' & w' & -> & Hrc' & Hfr & Hid' & Hd' & Hwr); [lia|lia|intros Hnil; rewrite Hnil in Hlen; simpl in Hlen; lia|done|].
  cbn [mbind outcome_bind]. rewrite Hid in Hfr.
  destruct (Z.eqb_spec rc 0) as [->|Hrne]; cbn [negb].
  2:{ eexists _, _, _, _. split; [done|]. split; [done|]. split; [congruence|]. split; [tauto|].
      split; [by apply Hok|]. split; [cbn; lia|]. cbn. lia. }
  eexists _, _, _, _. split; [done|]. split; [done|]. split; [congruence|]. split; [tauto|].
  rewrite (u64_small (m * bs)) by lia. rewrite u64_small by lia.
  replace (k0 * bs + m * bs) with ((k0 + m) * bs) by lia.
  split; [apply Hok; unfold k0; split_and!; [lia|lia|done|f_equal; lia]|]. split; [cbn; lia|].
  intros _. apply content_batch with (wk := wk) (stream := stream) (k0 := k0) (k1 := k0 + m); [lia|unfold k0; lia|done..| |by apply Hwr].
  intros k. unfold written. rewrite Hpos. cbn [iwi_pos set_iwi_pos iwi_offset]. fold k0. intros [Hge Hlt].
  destruct (decide (k < k0)) as [Hkk|Hkk].
  - left. split; [done|]. apply Z.mul_lt_mono_pos_r; lia.
  - right. apply Z.mul_lt_mono_pos_r in Hlt; lia.
Qed.
Context (H8 : bs mod 8 = 0).

Lemma iob_loop_start_ok wk a : worker_part wk a →
  worker_ok (set_iwi_pos (iob_loop_start IOB_WRITE wk) wk) ∧ ∀ k, ¬ written (set_iwi_pos (iob_loop_start IOB_WRITE wk) wk) k.
Proof.
  intros (Hwbs & Hoff & Ha & Hn & Hat & Hac). unfold iob_loop_start. rewrite Hwbs, Hoff.
  assert ((a + iwi_block_count wk) * bs <= top * bs) by (apply Z.mul_le_mono_nonneg_r; lia).
  assert (0 <= a * bs) by (apply Z.mul_nonneg_nonneg; lia).
  assert (0 <= bs * iwi_block_count wk) by (apply Z.mul_nonneg_nonneg; lia).
  rewrite (u64_small (bs * _)) by lia. rewrite u64_small by lia. split.
  - exists a. split; [done|]. cbn [iwi_pos set_iwi_pos iwi_block_count]. split; [lia|]. split; lia.
  - intros k. unfold written. cbn [iwi_pos set_iwi_pos iwi_offset]. rewrite Hoff. lia.
Qed.

(** A worker is replaced: what the invariant needs. *)
Lemma iob_inv_update s i wk wk' o random w :
  iob_inv s → ib_workers s !! i = Some wk →
  (∀ id, id ≠ oid → objs w id = objs (ib_w s) id) → mo_id o = oid → mo_drv_obj o ≠ None → worker_ok wk' →
  (worker_fine wk) →
  (worker_fine wk' → content_ok (ib_workers s) (ib_obj s) (ib_w s) → content_ok (<[i := wk']> (ib_workers s)) o w) →
  iob_inv (MkIob (<[i := wk']> (ib_workers s)) false o random w).
Proof.
  intros [_ Hfr [Hid Hd] Hwks Hcont] Hi Hfr' Hid' Hd' Hok Hfine Hc. split; cbn [ib_freed ib_w ib_obj ib_workers].
  - done.
  - intros id Hne. by rewrite Hfr', Hfr.
  - done.
  - by apply Forall_insert.
  - intros Hall. apply Hc.
    + rewrite Forall_lookup in Hall. apply (Hall i). apply list_lookup_insert_eq. by eapply lookup_lt_Some.
    + apply Hcont. rewrite Forall_lookup in *. intros j u Hj. destruct (decide (j = i)) as [->|Hne]; [congruence|].
      apply (Hall j). by rewrite list_lookup_insert_ne.
Qed.

Lemma iob_exec_inv who s : iob_inv s →
  ∃ r, iob_exec IOB_WRITE who s = Done r ∧
    match r with
    | None => ∀ wk, ib_workers s !! who = Some wk → iob_ended wk
    | Some s' => iob_inv s' ∧ ∃ wk t, ib_workers s !! who = Some wk ∧
        ib_workers s' = <[who := set_iwi_pos t wk]> (ib_workers s) ∧ 0 <= iob_rank (set_iwi_pos t wk) < iob_rank wk
    end.
Proof.
  intros Hinv. unfold iob_exec. destruct (ib_workers s !! who) as [wk|] eqn:Hi; [|by eexists].
  pose proof (iv_workers s Hinv) as Hwks. pose proof (Forall_lookup_1 _ _ _ _ Hwks Hi) as (a & Hpart & Hpos).
  pose proof Hpart as (Hwbs & _ & _ & Hn & _). destruct (iv_handle s Hinv) as [Hid Hd]. rewrite (iv_live s Hinv).
  destruct (iwi_pos wk) as [|c li mx|rc] eqn:Ep.
  - cbn [mbind outcome_bind]. eexists. split; [done|]. destruct (iob_loop_start_ok wk a Hpart) as [Hok Hnw]. split.
    + apply iob_inv_update with (wk := wk); try done; [by unfold worker_fine; rewrite Ep|].
      intros _. apply content_same with (wk := wk); [|done]. intros k Hk. by destruct (Hnw k).
    + eexists wk, _. split; [done|]. split; [done|]. unfold iob_rank. rewrite Ep. unfold iob_loop_start. cbn. lia.
  - destruct Hpos as (Hc & Hmx & Hli).
    destruct (iob_write_round_spec (ib_workers s) who wk a c li mx (ib_obj s) (ib_random s) (ib_w s))
      as (t & o' & random' & w' & Hr & Hfr & Hid' & Hd' & Hok & Hrank & Hcont); try done.
    rewrite Hwbs, Hr. cbn [mbind outcome_bind]. eexists. split; [done|]. split.
    + apply iob_inv_update with (wk := wk); try done. by unfold worker_fine; rewrite Ep.
    + eexists wk, t. split; [done|]. split; [done|]. unfold iob_rank at 3. rewrite Ep. split; [|lia].
      destruct Hok as (a' & (_ & _ & _ & Hn' & _) & Hp'). unfold iob_rank. destruct (iwi_pos (set_iwi_pos t wk)); lia.
  - eexists. split; [done|]. intros ? [= <-]. by exists rc.
Qed.

Lemma iob_reachable_inv s s' : iob_inv s → rtc (iob_step IOB_WRITE) s s' → iob_inv s'.
Proof.
  intros Hinv. induction 1 as [|s1 s2 s3 [who Hw] _ IH]; [done|].
  destruct (iob_exec_inv who s1 Hinv) as (r & Hr & Hok). rewrite Hw in Hr. injection Hr as <-. apply IH, Hok.
Qed.

Definition iob_measure (wks : list iob_worker_info) : nat := sum_list_with (λ wk, Z.to_nat (iob_rank wk)) wks.

Lemma iob_steps_bound s n s' : iob_inv s → nsteps (iob_step IOB_WRITE) n s s' → (n + iob_measure (ib_workers s') <= iob_measure (ib_workers s))%nat.
Proof.
  intros Hinv Hn. induction Hn as [s|n s1 s2 s3 [who Hw] _ IH]; [lia|].
  destruct (iob_exec_inv who s1 Hinv) as (r & Hr & Hok). rewrite Hw in Hr. injection Hr as <-.
  destruct Hok as (Hinv2 & wk & t & Hi & Hwks & Hrank). specialize (IH Hinv2). unfold iob_measure in *. rewrite Hwks in IH.
  destruct (sum_split (λ wk, Z.to_nat (iob_rank wk)) _ _ _ (set_iwi_pos t wk) Hi) as [-> Hs']. lia.
Qed.

Lemma iob_progress s : iob_inv s → (∃ s', iob_step IOB_WRITE s s') ∨ iob_over s.
Proof.
  intros Hinv. destruct (all_or_one iob_ended (ib_workers s)) as [Hall|(i & wk & Hi & Hne)]; [|by right|].
  - intros wk. unfold iob_ended. destruct (iwi_pos wk); [right; by intros [? ?]|right; by intros [? ?]|left; by eexists].
  - left. destruct (iob_exec_inv i s Hinv) as ([s'|] & Hr & Hok); [by exists s', i|]. by destruct (Hne (Hok wk Hi)).
Qed.
End Invariant.

(** ** Dividing the blocks *)
Section Divide.
Context (bs count top per : Z).
Context (Hbs : 0 < bs) (Hcount : 0 < count) (Htop : (top + 121) * bs < 2 ^ 64) (Hct : count <= top) (Hper : 0 < per).

(** The block [k] is in the part of a worker. *)
Definition in_part (wk : iob_worker_info) (k : Z) : Prop :=
  iwi_offset wk <= k * bs < iwi_offset wk + iwi_block_count wk * bs.

Lemma iob_threads_loop_spec n i left creates rc l :
  iob_threads_loop n i left per bs creates = (rc, l) → 0 <= i → left = Z.max 0 (count - i * per) →
  left <= Z.of_nat n * per → (i + Z.of_nat n) * per <= top → 0 <= rc →
  Forall (λ wk, iwi_pos wk = IStart ∧ ∃ a, worker_part bs count top wk a) l ∧
  (∀ k, i * per <= k < count → ∃ wk, wk ∈ l ∧ in_part wk k) ∧
  Z.of_nat (iob_measure l) = left + 2 * Z.of_nat n.
Proof.
  assert (Htb : top * bs < 2 ^ 64) by lia. assert (top <= top * bs) by nia.
  revert i left creates rc l. induction n as [|n IH]; intros i left creates rc l; cbn [iob_threads_loop].
  { intros [= <- <-] Hi Hleft Hle Hit _. split; [constructor|]. split; [|cbn; lia]. intros k Hk. lia. }
  set (c := if per <? left then per else left). assert (Hc : c = Z.min per left) by (unfold c; destruct (Z.ltb_spec per left); lia).
  destruct (match creates with [] => (0, []) | t :: l0 => (mio_cmd_thread_init t, l0) end) as [rc0 creates'].
  destruct (Z.ltb_spec rc0 0) as [Hneg|Hok]; [intros [= <- <-]; lia|].
  destruct (iob_threads_loop n (i + 1) (u64 (left - c)) per bs creates') as [rc1 l1] eqn:El.
  intros [= <- <-] Hi Hleft Hle Hit Hrc. assert (0 <= i * per) by (apply Z.mul_nonneg_nonneg; lia).
  assert (Hnp : (i + Z.of_nat (S n)) * per = i * per + per + Z.of_nat n * per) by lia.
  assert (0 <= Z.of_nat n * per) by (apply Z.mul_nonneg_nonneg; lia).
  rewrite u64_small in El by lia. destruct (IH _ _ _ _ _ El) as (Hall & Hcov & Hsum); [lia..|].
  assert (i * per * bs <= top * bs) by (apply Z.mul_le_mono_nonneg_r; lia).
  assert (0 <= i * per * bs) by (apply Z.mul_nonneg_nonneg; lia).
  rewrite (u64_small (i * per)) by lia. rewrite u64_small by lia. split; [|split].
  - constructor; [|done]. split; [done|]. exists (i * per). unfold worker_part. cbn [iwi_block_size iwi_offset iwi_block_count]. split_and!; lia.
  - intros k Hk. destruct (decide (k < i * per + c)) as [Hin|Hout].
    + eexists. split; [by left|]. unfold in_part. cbn [iwi_offset iwi_block_count].
      assert (i * per * bs <= k * bs) by (apply Z.mul_le_mono_nonneg_r; lia).
      assert (k * bs < (i * per + c) * bs) by (apply Z.mul_lt_mono_pos_r; lia). lia.
    + destruct (Hcov k) as (wk & Hwk & Hin); [lia|]. exists wk. split; [by right|done].
  - unfold iob_measure in *. cbn [sum_list_with iob_rank iwi_pos iwi_block_count]. lia.
Qed.
End Divide.

(** ** The benchmark *)
Section Benchmark.
Abbreviation objs w := (sv_objects (cw_sv w)).

(** Starting. *)
Lemma iob_io_start_inv pool oid nr bs count creates random w :
  0 < bs → 0 < count → 0 < nr < 2 ^ 31 → (count + nr + 121) * bs < 2 ^ 64 →
  ∃ rc s, iob_io_start pool oid nr bs count creates random w = Done (rc, s) ∧
    (rc = None → ∃ vt0, ov_size vt0 = match objs w oid with Some v => ov_size v | None => 0 end ∧
       (∀ v, objs w oid = Some v → vt0 = v) ∧
       iob_inv oid bs count (count + nr) (objs w) vt0 s ∧
       (∀ k, 0 <= k < count → ∃ wk, wk ∈ ib_workers s ∧ in_part bs wk k) ∧
       Z.of_nat (iob_measure (ib_workers s)) = count + 2 * nr).
Proof.
  intros Hbs Hcount Hnr Hfit. unfold iob_io_start. destruct (plan_next (cw_plan w)) as [ok p].
  destruct ok; cbn [negb]; [|by eexists _, _].
  destruct (obj_open_or_create_spec pool oid None (set_cw_plan p w)) as (rc & o & w1 & -> & Hrc & Hfr & Hup & Hok).
  cbn [mbind outcome_bind]. destruct (Z.ltb_spec rc 0) as [Hneg|Hge]; [by eexists _, _|].
  destruct Hok as (v & Hv & Hid & Hd & Hsz & Hold); [lia|]. unfold iob_threads_start.
  destruct (plan_next (cw_plan w1)) as [ok1 p1], (plan_next p1) as [ok2 p2].
  rewrite (proj2 (Z.ltb_ge nr 0)) by lia. rewrite (proj2 (Z.eqb_neq nr 0)) by lia.
  destruct (ok1 && ok2); cbn [negb orb]; [|by eexists _, _].
  set (per := u64 (u64 (count + nr) - 1) / nr). assert (Hper : per = (count + nr - 1) / nr).
  { unfold per. assert (count + nr <= (count + nr) * bs) by nia. by rewrite (u64_small (count + nr)), u64_small by lia. }
  destruct (iob_threads_loop (Z.to_nat nr) 0 count per bs creates) as [rc1 l] eqn:El. cbn [mbind outcome_bind].
  destruct (Z.ltb_spec rc1 0) as [Hneg|Hge1]; [by eexists _, _|]. eexists _, _. split; [done|]. intros _.
  pose proof (Z.div_mod (count + nr - 1) nr ltac:(lia)) as Hdiv. pose proof (Z.mod_pos_bound (count + nr - 1) nr ltac:(lia)).
  rewrite <- Hper in Hdiv. assert (0 < per) by (rewrite Hper; apply Z.div_str_pos; lia).
  destruct (iob_threads_loop_spec bs count (count + nr) per Hbs Hcount ltac:(lia) ltac:(lia) ltac:(lia) _ _ _ _ _ _ El)
    as (Hall & Hcov & Hsum); [lia..|]. exists v. split.
  { destruct Hold as [E|(E & Hz & _)]; simpl in E; by rewrite E. }
  split. { intros u Hu. destruct Hold as [E|(E & _)]; simpl in E; congruence. }
  split; [|split; [intros k Hk; by apply Hcov|cbn [ib_workers]; lia]].
  split; cbn [ib_freed ib_w ib_obj ib_workers cw_sv set_cw_plan].
  - done.
  - intros id Hne. by rewrite Hfr.
  - done.
  - eapply Forall_impl; [exact Hall|]. intros wk (Hpos & a & Ha). exists a. by rewrite Hpos.
  - intros _. exists v. split; [done|]. split; [done|]. split; [done|]. split; [by right|]. split; [lia|]. split; [|done].
    intros wk k Hwk _ Hw. rewrite Forall_forall in Hall. destruct (Hall wk Hwk) as [Hpos _]. unfold written in Hw.
    by rewrite Hpos in Hw.
Qed.

(** The steps keep the parts of the workers. *)
Lemma iob_cover bs count s s' :
  rtc (iob_step IOB_WRITE) s s' →
  (∀ k, 0 <= k < count → ∃ wk, wk ∈ ib_workers s ∧ in_part bs wk k) →
  ∀ k, 0 <= k < count → ∃ wk, wk ∈ ib_workers s' ∧ in_part bs wk k.
Proof.
  induction 1 as [|s1 s2 s3 [who Hw] _ IH]; [done|]. intros Hcov. apply IH. intros k Hk.
  destruct (Hcov k Hk) as (wk & Hwk & Hin). unfold iob_exec in Hw.
  destruct (ib_workers s1 !! who) as [u|] eqn:Hu; [|done].
  assert (∃ t, ib_workers s2 = <[who := set_iwi_pos t u]> (ib_workers s1)) as [t ->].
  { destruct (iwi_pos u); [..|done]; (destruct (ib_freed s1); [done|]);
      apply outcome_bind_Done in Hw as ([[[t o] random] w'] & _ & [= <-]); by exists t. }
  apply list_elem_of_lookup in Hwk as [j Hj]. destruct (decide (j = who)) as [->|Hne].
  - assert (u = wk) as -> by congruence. exists (set_iwi_pos t wk). split; [|done].
    apply list_elem_of_lookup. exists who. apply list_lookup_insert_eq. by eapply lookup_lt_Some.
  - exists wk. split; [|done]. apply list_elem_of_lookup. exists j. by rewrite list_lookup_insert_ne.
Qed.

(** Stopping. *)
Lemma iob_threads_stop_spec oid bs count top a0 vt0 s :
  0 < bs → 0 < count → iob_inv oid bs count top a0 vt0 s → iob_over s →
  (∀ k, 0 <= k < count → ∃ wk, wk ∈ ib_workers s ∧ in_part bs wk k) →
  ∃ w', iob_threads_stop s = Done (0, w') ∧ (∀ id, id ≠ oid → objs w' id = a0 id) ∧
    (Forall worker_fine (ib_workers s) →
     ∃ v, objs w' oid = Some v ∧ ov_pool v = ov_pool vt0 ∧ (∀ k, 0 <= k < count → block_ok bs v k) ∧
       (∀ z, count * bs <= z < ov_size vt0 → ov_bytes v z = ov_bytes vt0 z) ∧
       (close_stores → ov_size v = Z.max (ov_size vt0) (count * bs))).
Proof.
  intros Hbs Hcount [_ Hfr [Hid Hd] _ Hcont] Hover Hcov. unfold iob_threads_stop.
  destruct (cmd_close_spec (ib_obj s) (ib_w s) Hd) as (w' & -> & Hclose & Hfr' & Hcs). cbn [mbind outcome_bind].
  rewrite Hid in *. exists w'. split; [done|]. split; [intros id Hne; by rewrite Hfr', Hfr|]. intros Hfine.
  destruct (Hcont Hfine) as (vt & Hvt & Hs & Hp & Hup & Hsz & Hb & Hrest).
  assert (Hall : ∀ k, 0 <= k < count → block_ok bs vt k ∧ (k + 1) * bs <= moa_size (mo_attrs (ib_obj s))).
  { intros k Hk. destruct (Hcov k Hk) as (wk & Hwk & Hin). apply (Hb wk); [done|lia|]. unfold written.
    unfold iob_over in Hover. rewrite Forall_forall in Hover. by destruct (Hover wk Hwk) as [rc ->]. }
  assert (Hend : moa_size (mo_attrs (ib_obj s)) = Z.max (ov_size vt0) (count * bs)).
  { destruct (Hall (count - 1)) as [_ Hlast]; [lia|]. replace (count - 1 + 1) with count in Hlast by lia. lia. }
  unfold close_spec in Hcs. rewrite Hid, Hvt in Hcs. destruct Hcs as (u & Hu & Hub & Hup' & Hus).
  exists u. split; [done|]. split; [congruence|]. split; [|split; [by rewrite Hub|]].
  { intros k Hk. destruct (Hall k Hk) as [(r & Hr & Hj) _]. exists r. by rewrite Hub. } intros Hst. destruct Hup as [Hup|Hup].
  - rewrite <- Hend. eapply Hst; [done|exact Hclose|by rewrite Hid].
  - destruct Hus as [->|[_ ->]]; lia.
Qed.
End Benchmark.

(** ** The asynchronous mode *)

Lemma batches_loop_keeps {X} body (P : X → Prop) max_blocks bs mx :
  (∀ d x w rc b x' w', body d x w = Done (rc, b, x', w') → P x → P x') →
  ∀ fuel rc count li x w rc' x' w', batches_loop body max_blocks bs mx fuel rc count li x w = Done (rc', x', w') → P x → P x'.
Proof.
  intros Hbody. induction fuel as [|fuel IH]; intros rc count li x w rc' x' w'; cbn [batches_loop]; [done|].
  destruct (negb (0 <? count)); [by intros [= _ <- _]|]. destruct (obj_alloc_iovecs _ _ _ _ _) as [[rc1 [d|]] p].
  - intros Hl Hx. apply outcome_bind_Done in Hl as ([[[rc2 b] x2] w2] & Hb & Hl). pose proof (Hbody _ _ _ _ _ _ _ Hb Hx) as Hx2.
    destruct b; cbn [negb] in Hl; [by eapply IH|by injection Hl as _ <- _].
  - by intros [= _ <- _].
Qed.

Lemma write_async_no_file poc sched last fuel stack_obj pool oid bs count async_step w r :
  mio_cmd_obj_write_async poc sched last fuel stack_obj None pool oid bs count async_step w ≠ Done r.
Proof.
  unfold mio_cmd_obj_write_async, obj_write_init. intros Hr.
  apply outcome_bind_Done in Hr as ([[[[[rc fp] mx] c] o] w1] & Hi & Hr).
  apply outcome_bind_Done in Hi as ([[rc1 o1] w2] & _ & Hi).
  destruct (Z.ltb_spec rc1 0); [done|]. injection Hi as <- <- <- <- <- <-.
  rewrite (proj2 (Z.ltb_ge rc1 0)) in Hr by done.
  apply outcome_bind_Done in Hr as ([[rc2 st] p] & _ & Hr). apply outcome_bind_Done in Hr as ([[[rc3 fp] st'] w3] & Hl & Hr).
  apply outcome_bind_Done in Hr as (w4 & _ & Hr). apply outcome_bind_Done in Hr as (u & Hf & _).
  enough (fp = None) as -> by done. destruct (rc2 <? 0); [by injection Hl|].
  apply outcome_bind_Done in Hl as ([[rc4 [fp' st2]] w5] & Hl & Hw). apply outcome_bind_Done in Hw as ([st3 w6] & _ & [= _ <- _ _]).
  refine (batches_loop_keeps _ (λ x, x.1 = None) _ _ _ _ _ _ _ _ _ _ _ _ _ Hl eq_refl).
  intros d [fp0 st4] w7 rc7 b [fp1 st5] w8 Hb. cbn [fst]. intros ->. unfold write_async_body in Hb.
  apply outcome_bind_Done in Hb as ([[rc8 d'] fp2] & Hd & Hb). cbn [obj_read_data_from_file] in Hd.
  apply outcome_bind_Done in Hd as (l & _ & [= _ _ <-]). destruct (negb _); [by injection Hb|].
  apply outcome_bind_Done in Hb as ([[rc9 st6] w9] & _ & Hb). destruct (negb _); [by injection Hb|].
  by apply outcome_bind_Done in Hb as ([st7 w10] & _ & [= _ _ <- _ _]).
Qed.

(** Reading without a file: no callback opens one. *)
Lemma obj_rw_async_file c d i st w rc st' w' : obj_rw_async c d i st w = Done (rc, st', w') → as_file st' = as_file st.
Proof.
  unfold obj_rw_async. destruct (obj_rw_op_alloc (cw_plan w)) as [rc0 p]. destruct (rc0 <? 0); [by intros [= _ <- _]|].
  destruct (cmd_start _ _ _) as [[rc1 o] w1]. destruct (rc1 <? 0); [by intros [= _ <- _]|].
  destruct (_ || _); [done|]. by intros [= _ <- _].
Qed.

Lemma async_complete_no_file poc i st w st' w' :
  async_complete poc i st w = Done (st', w') → as_file st = None → as_file st' = None.
Proof.
  unfold async_complete. destruct (obj_io_ops st !! i) as [[[c d [rc|]]|]|]; try by intros [= <- _].
  destruct (mio_cmd_wait_on_op c (as_obj st) w) as [[[rc data] o] w1]. destruct c; try by intros [= <- _].
  intros Hr Hf. apply outcome_bind_Done in Hr as (l & _ & Hr). unfold obj_read_cb in Hr.
  destruct (rc =? 0); [|by injection Hr as <- _].
  apply outcome_bind_Done in Hr as ([[n fp] out] & Hw & [= <- _]). cbn [as_file set_as_file set_as_op set_as_obj] in *.
  rewrite Hf in Hw. cbn [obj_write_data_to_file mbind outcome_bind] in Hw. destruct poc; [|by injection Hw as _ <- _].
  by apply outcome_bind_Done in Hw as (bs & _ & [= _ <- _]).
Qed.

Lemma async_run_no_file poc l st w st' w' : async_run poc l st w = Done (st', w') → as_file st = None → as_file st' = None.
Proof.
  revert st w. induction l as [|i l IH]; intros st w; cbn [async_run]; [by intros [= <- _]|].
  intros Hr Hf. apply outcome_bind_Done in Hr as ([st1 w1] & Hc & Hr). eapply IH; [exact Hr|]. by eapply async_complete_no_file.
Qed.

Lemma read_async_no_file poc sched last fuel oid bs count async_step w r :
  mio_cmd_obj_read_async poc sched last fuel oid None bs count async_step w ≠ Done r.
Proof.
  unfold mio_cmd_obj_read_async, obj_read_init. intros Hr.
  apply outcome_bind_Done in Hr as ([[[[[rc fp] mx] c] o] w1] & Hi & Hr).
  destruct (obj_open oid obj_zero w) as [[rc1 o1] w2]. destruct (Z.ltb_spec rc1 0); [done|].
  apply outcome_bind_Done in Hi as (n & _ & [= <- <- <- <- <- <-]). cbn [Z.ltb Z.compare] in Hr.
  apply outcome_bind_Done in Hr as ([[rc2 st] p] & Hi & Hr). apply outcome_bind_Done in Hr as ([[rc3 st'] w3] & Hl & Hr).
  apply outcome_bind_Done in Hr as (w4 & _ & Hr). apply outcome_bind_Done in Hr as (u & Hf & _).
  enough (as_file st' = None) as E by by rewrite E in Hf.
  assert (as_file st = None) as Hst.
  { unfold obj_io_async_init in Hi. destruct (async_step =? 0); [done|]. destruct (plan_next _) as [ok p'].
    destruct (negb ok || _); by injection Hi as _ <- _. }
  destruct (rc2 <? 0); [by injection Hl as _ <- _|].
  apply outcome_bind_Done in Hl as ([[rc4 st2] w5] & Hl & Hw).
  apply outcome_bind_Done in Hw as ([st3 w6] & Hw & [= _ <- _]). unfold obj_wait_on_all_ops in Hw.
  apply outcome_bind_Done in Hw as ([st4 w7] & Hw & Ht). destruct (existsb _ _); [done|]. injection Ht as <- _. cbn [as_file].
  eapply async_run_no_file; [exact Hw|].
  refine (batches_loop_keeps _ (λ st, as_file st = None) _ _ _ _ _ _ _ _ _ _ _ _ _ Hl Hst).
  intros d st5 w8 rc8 b st6 w9 Hb Hf5. unfold read_async_body, obj_read_async in Hb.
  apply outcome_bind_Done in Hb as ([[rc9 st7] w10] & Ha & Hb). apply obj_rw_async_file in Ha.
  destruct (negb _); [injection Hb as _ _ <- _; congruence|].
  apply outcome_bind_Done in Hb as ([st8 w11] & Hl2 & [= _ _ <- _]). unfold async_launched in Hl2.
  eapply async_run_no_file; [exact Hl2|]. cbn [as_file]. congruence.
Qed.

(** The asynchronous mode of the benchmark never returns: without a file fclose()
    is called with NULL, in every branch. *)
Theorem iob_io_by_async_crashes (print_on_console : bool) (sched : nat → list nat) (last : list nat) (fuel : nat)
    (stack_obj : mio_obj) (iotype : iob_io_type) (pool : option mio_pool_id) (oid : mio_obj_id)
    (block_size block_count async_step : Z) (w : cmd_world) :
  ∀ r, iob_io_by_async print_on_console sched last fuel stack_obj iotype pool oid block_size block_count async_step w ≠ Done r.
Proof.
  intros r Hr. unfold iob_io_by_async in Hr. apply outcome_bind_Done in Hr as ([[rc rcs] w'] & Hr & _). destruct iotype.
  - apply outcome_bind_Done in Hr as ([[[rc1 rcs1] fp] w1] & Hr & _). by eapply read_async_no_file.
  - by eapply write_async_no_file.
Qed.
(** ** The threads *)

End IoPerf.

(** ** Witness and boundary cases *)
Section Witnesses.
#[local] Instance ex_host_perf : HostOrder := false.


(** The parts and positions of the threads, the result of stopping, and the first bytes
    of the object. *)
Definition iob_result {svc : ObjService} (iotype : iob_io_type) (nr bs count : Z) (creates : list thread_create)
    (schedule : list nat) (w : cmd_world) : outcome (list (Z * Z) * Z * option (Z * list Z)) :=
  '(rc, s) ← iob_io_start None (ex_oid 2) nr bs count creates [1; 2; 3; 4; 5] w;
  match rc with
  | Some rc => Done ([], rc, None)
  | None =>
      s ← iob_run iotype schedule s;
      '(rc, w) ← iob_threads_stop s;
      Done ((λ wk, (iwi_offset wk, match iwi_pos wk with IEnd rc => rc | _ => 1 end)) <$> ib_workers s, rc,
            (λ v, (ov_size v, fbytes (ov_bytes v) 0 (bs * count))) <$> sv_objects (cw_sv w) (ex_oid 2))
  end.

(** Three blocks for two threads, the second one first. *)
Example iob_two_threads :
  let svc := mem_service true in
  iob_result IOB_WRITE 2 8 3 [] [1; 1; 1; 0; 0; 0]%nat (ex_world (MkMemSv (ex_objs 1 300) [] [])) =
    Done ([(0, 0); (16, 0)], 0,
          Some (24, [2; 0; 0; 0; 0; 0; 0; 0; 3; 0; 0; 0; 0; 0; 0; 0; 1; 0; 0; 0; 0; 0; 0; 0])).
Proof. vm_compute. reflexivity. Qed.

(** A thread fails, and the result is 0 all the same. *)
Example iob_failure_not_told :
  let svc := mem_service false in
  iob_result IOB_WRITE 2 8 3 [] [1; 1; 1; 0; 0; 0]%nat (ex_world (MkMemSv (ex_objs 1 300) [0; 0; 0; 0; 0; - EIO] [])) =
    Done ([(0, 0); (16, - EIO)], 0,
          Some (16, [2; 0; 0; 0; 0; 0; 0; 0; 3; 0; 0; 0; 0; 0; 0; 0; 0; 0; 0; 0; 0; 0; 0; 0])).
Proof. vm_compute. reflexivity. Qed.

(** Without -t the number of threads is 0, by which is divided. *)
Example iob_no_threads :
  let svc := mem_service true in
  iob_result IOB_WRITE 0 8 3 [] [] (ex_world (MkMemSv (ex_objs 1 300) [] [])) = Fault DivByZero.
Proof. vm_compute. reflexivity. Qed.

(** A block whose size is no multiple of 8 is not filled. *)
Example iob_odd_blocks :
  let svc := mem_service true in
  iob_result IOB_WRITE 1 12 3 [] [0; 0]%nat (ex_world (MkMemSv (ex_objs 1 300) [] [])) = Fault UninitRead.
Proof. vm_compute. reflexivity. Qed.

(** The second thread cannot be created: the first one goes on with memory that has
    been freed. *)
Example iob_second_thread_fails :
  let svc := mem_service true in
  (let w := ex_world (MkMemSv (ex_objs 1 300) [] []) in
   '(rc, s) ← iob_io_start None (ex_oid 2) 2 8 3 [ThreadCreated 0; ThreadNoMemory] [] w;
   s ← iob_run IOB_WRITE [0]%nat s; Done (rc, ib_freed s)) = Fault UseAfterFree.
Proof. vm_compute. reflexivity. Qed.

(** Every reader reads the first blocks: its offset is not used. *)
Example iob_readers_same_blocks :
  let svc := mem_service true in
  (let w := ex_world (MkMemSv (ex_objs 2 32) [] []) in
   '(rc, s) ← iob_io_start None (ex_oid 2) 2 8 4 [] [] w;
   Done ((λ wk, (iwi_offset wk, iob_loop_start IOB_READ wk)) <$> ib_workers s)) =
    Done [(0, ILoop 2 0 16); (16, ILoop 2 0 16)].
Proof. vm_compute. reflexivity. Qed.
End Witnesses.
