(* ===== verification/Hsm.v ===== *)
(** * Hierarchical storage management (src/examples/mio_hsm.c)

    A shell that creates, writes, reads and lists objects and moves them to the pool
    of their hotness, over the object commands and the interface of the library. *)

From Stdlib Require Import String Sorted.
From S2P Require Import Prelude Bytes ObjId HintMap Types Hints CStr Conf CmdHelpers ObjService ObjCmd.
Open Scope Z_scope.

(** ** What the shell uses of the library besides objects *)
Class HsmService `{ObjService} := {
  (** mio_obj_hint_get(): the result, the value, the handle. *)
  hs_hint_get : mio_obj → Z → sv → Z * Z * mio_obj * sv;
  (** mio_obj_pool_id(). *)
  hs_pool_id : mio_obj → sv → Z * mio_pool_id;
  hs_hint_get_ok : ∀ o key s rc x o' s', hs_hint_get o key s = (rc, x, o', s') →
    rc <= 0 ∧ (∀ id, sv_objects s' id = sv_objects s id) ∧ same_handle o o' ∧
    mo_attrs_updated o' = mo_attrs_updated o;
  hs_pool_id_ok : ∀ o s rc p, hs_pool_id o s = (rc, p) → rc <= 0
}.

Inductive hsm_action :=
| HSM_INVALID_ACT | HSM_HELP | HSM_CREATE | HSM_WRITE | HSM_READ | HSM_MOVE | HSM_SHOW | HSM_WORKLOAD
| HSM_SET_HOT_OBJ_THLD | HSM_SET_COLD_OBJ_THLD | HSM_GET_OBJ_THLDS.

#[global] Instance hsm_action_eq_dec : EqDecision hsm_action.
Proof. solve_decision. Defined.

Section Hsm.
Context `{HostOrder} `{HsmService}.
(** hsm_params: the first object, their number, the blocks; the pools of the
    configuration, the fastest first. *)
Context (cop_oid : mio_obj_id) (cop_nr_objs cop_block_size cop_block_count : Z) (pool_ids : list mio_pool_id).
(** What opening the log for writing gives, and a handle before it is
    initialised. *)
Context (hsm_log : fopen_w_result) (stack_obj : mio_obj) (print_on_console : bool) (fuel : nat).

(** The world of the commands, the system hints (mio_sys_hints) and the coming
    results of random(). *)
Record hsm_world := MkHsmWorld { hw_cmd : cmd_world; hw_sys_hints : mio_hint_map; hw_random : list Z }.

Definition set_hw_cmd (c : cmd_world) (w : hsm_world) : hsm_world := MkHsmWorld c (hw_sys_hints w) (hw_random w).

Definition hsm_make_oid (idx : Z) : mio_obj_id := mio_cmd_obj_id_clone cop_oid idx 0.
Definition hsm_make_tmp_oid : mio_obj_id := mio_cmd_obj_id_clone cop_oid 0 4096.

(** A loop over [n] objects from [i] on that ends with the first error; rc is not
    initialised before the first round. *)
Fixpoint for_objs {W} (f : Z → W → outcome (Z * W)) (n : nat) (i : Z) (rc : option Z) (w : W)
  : outcome (option Z * W) :=
  match n with
  | O => Done (rc, w)
  | S n =>
      '(rc, w) ← f i w;
      if rc <? 0 then Done (Some rc, w) else for_objs f n (i + 1) (Some rc) w
  end.

Definition rc_of {W} (r : option Z * W) : outcome (Z * W) :=
  match r with (Some rc, w) => Done (rc, w) | (None, _) => Fault UninitRead end.

(** ** Creating, writing and reading *)

(** [hsm_create_objs]: after an error all objects are deleted. *)
Definition hsm_create_objs (w : cmd_world) : outcome (Z * cmd_world) :=
  let n := Z.to_nat cop_nr_objs in
  r ← for_objs (λ i w, mio_cmd_obj_touch (hsm_make_oid i) w) n 0 (Some 0) w;
  '(rc, w) ← rc_of r;
  if rc <? 0 then
    '(_, w) ← for_objs (λ i w, let '(_, w) := mio_cmd_obj_unlink (hsm_make_oid i) w in Done (0, w)) n 0 None w;
    Done (rc, w)
  else Done (rc, w).

(** The objects of a command: none, or the number of them. *)
Definition hsm_clip (idx nr_objs : Z) : option Z :=
  if cop_nr_objs <=? idx then None
  else Some (if cop_nr_objs <? s32 (idx + nr_objs) then cop_nr_objs - idx else nr_objs).

(** [hsm_write_objs]. *)
Definition hsm_write_objs (idx nr_objs blk_cnt : Z) (w : cmd_world) : outcome (Z * cmd_world) :=
  match hsm_clip idx nr_objs with
  | None => Done (- EINVAL, w)
  | Some nr_objs =>
      r ← for_objs (λ i w, mio_cmd_obj_write fuel stack_obj None None (hsm_make_oid i) cop_block_size (u64 blk_cnt) w)
            (Z.to_nat (s32 (idx + nr_objs) - idx)) idx None w;
      rc_of r
  end.

(** One object to the log. *)
Definition hsm_read_one (blk_cnt : Z) (oid : mio_obj_id) (w : cmd_world) : outcome (Z * cmd_world) :=
  '(rc, _, w) ← mio_cmd_obj_read print_on_console fuel stack_obj oid (Some hsm_log) cop_block_size blk_cnt w;
  Done (rc, w).

(** [hsm_read_objs]: the loop ends at [nr_objs], not [idx + nr_objs]. *)
Definition hsm_read_objs (idx nr_objs blk_cnt : Z) (w : cmd_world) : outcome (Z * cmd_world) :=
  match hsm_clip idx nr_objs with
  | None => Done (- EINVAL, w)
  | Some nr_objs =>
      r ← for_objs (λ i w, hsm_read_one (u64 blk_cnt) (hsm_make_oid i) w) (Z.to_nat (nr_objs - idx)) idx None w;
      rc_of r
  end.

(** ** Moving *)

(** [hsm_obj_hint_stat]: the result and the value of the hint. *)
Definition hsm_obj_hint_stat (oid : mio_obj_id) (co_hkey co_hvalue : Z) (w : cmd_world)
  : outcome (Z * Z * cmd_world) :=
  let '(rc, o, w) := obj_open oid obj_zero w in
  if rc <? 0 then Done (rc, co_hvalue, w) else
  let '(rc, x, o, s) := hs_hint_get o co_hkey (cw_sv w) in
  w ← cmd_close o (set_cw_sv s w);
  Done (rc, if rc <? 0 then co_hvalue else x, w).

(** [hsm_obj_pool_id]. *)
Definition hsm_obj_pool_id (oid : mio_obj_id) (w : cmd_world) : outcome (Z * mio_pool_id * cmd_world) :=
  let '(rc, o, w) := obj_open oid obj_zero w in
  if rc <? 0 then Done (rc, MkPoolId 0 0, w) else
  let '(rc, p) := hs_pool_id o (cw_sv w) in
  w ← cmd_close o w;
  Done (rc, p, w).

Definition HSM_OBJ_MOVE : Z := 0.
Definition HSM_OBJ_NOT_MOVE : Z := 1.

(** [hsm_obj_if_move]. *)
Definition hsm_obj_if_move (sys_hints : mio_hint_map) (oid : mio_obj_id) (hotness : Z) (w : cmd_world)
  : outcome (Z * cmd_world) :=
  '(rc, pool_id, w) ← hsm_obj_pool_id oid w;
  if rc <? 0 then Done (rc, w) else
  new_pool_id ← mio_obj_hotness_to_pool_id sys_hints pool_ids hotness;
  Done (if mio_obj_pool_id_cmp pool_id new_pool_id then HSM_OBJ_NOT_MOVE else HSM_OBJ_MOVE, w).

(** [hsm_move_one], after the decision: steps 1 to 3. *)
Definition hsm_move_data (oid : mio_obj_id) (chint : mio_cmd_obj_hint) (w : cmd_world) : outcome (Z * cmd_world) :=
  let tmp_oid := hsm_make_tmp_oid in
  '(rc, w) ← mio_cmd_obj_copy fuel oid None tmp_oid cop_block_size None w;
  if rc <? 0 then Done (rc, w) else
  let '(rc, w) := mio_cmd_obj_unlink oid w in
  if rc <? 0 then Done (rc, w) else
  '(rc, w) ← mio_cmd_obj_copy fuel tmp_oid None oid cop_block_size (Some chint) w;
  if rc <? 0 then Done (rc, w) else
  Done (mio_cmd_obj_unlink tmp_oid w).

(** [hsm_move_one]: an error of hsm_obj_if_move() is no reason to stop. *)
Definition hsm_move_one (sys_hints : mio_hint_map) (oid : mio_obj_id) (w : cmd_world) : outcome (Z * cmd_world) :=
  '(rc, hvalue, w) ← hsm_obj_hint_stat oid MIO_HINT_OBJ_HOT_INDEX 0 w;
  if rc <? 0 then Done (rc, w) else
  '(rc, w) ← hsm_obj_if_move sys_hints oid hvalue w;
  if rc =? HSM_OBJ_NOT_MOVE then Done (0, w) else
  hsm_move_data oid (MkCmdHint MIO_HINT_OBJ_HOT_INDEX hvalue) w.

(** [hsm_move_objs]. *)
Definition hsm_move_objs (sys_hints : mio_hint_map) (idx nr_objs : Z) (w : cmd_world) : outcome (Z * cmd_world) :=
  match hsm_clip idx nr_objs with
  | None => Done (- EINVAL, w)
  | Some nr_objs =>
      r ← for_objs (λ i w, hsm_move_one sys_hints (hsm_make_oid (idx + i)) w) (Z.to_nat nr_objs) 0 (Some 0) w;
      rc_of r
  end.

(** [hsm_show_objs]: the pools that are printed. *)
Definition hsm_show_objs (idx nr_objs : Z) (w : cmd_world) : outcome (Z * (list (Z * mio_pool_id) * cmd_world)) :=
  match hsm_clip idx nr_objs with
  | None => Done (- EINVAL, ([], w))
  | Some nr_objs =>
      r ← for_objs (λ i '(out, w),
            '(rc, p, w) ← hsm_obj_pool_id (hsm_make_oid (idx + i)) w;
            Done (rc, (if rc <? 0 then out else out ++ [(i, p)], w))) (Z.to_nat nr_objs) 0 (Some 0) ([], w);
      rc_of r
  end.

(** ** The workload *)
Definition HSM_HOTEST_INDEX : Z := 16.

(** The frequency indices of [n] objects from [i] on, and their sum. *)
Fixpoint hsm_freqs (n : nat) (i sigma : Z) (random : list Z) : outcome (list Z * Z * list Z) :=
  match n with
  | O => Done ([], sigma, random)
  | S n =>
      '(r, random) ← mio_cmd_random HSM_HOTEST_INDEX random;
      let rand := u32 (u32 (i + 1) * r) in
      '(freqs, sigma, random) ← hsm_freqs n (i + 1) (u32 (sigma + rand)) random;
      Done (rand :: freqs, sigma, random)
  end.

(** The numbers of operations of the objects and their sum. *)
Fixpoint hsm_adjust (nr_ops sigma : Z) (freqs : list Z) (adjusted_nr_ops : Z) : outcome (list Z * Z) :=
  match freqs with
  | [] => Done ([], adjusted_nr_ops)
  | f :: freqs =>
      if sigma =? 0 then Fault DivByZero else
      let f := u32 (f * nr_ops) / sigma in
      '(l, adjusted_nr_ops) ← hsm_adjust nr_ops sigma freqs (s32 (adjusted_nr_ops + f));
      Done (f :: l, adjusted_nr_ops)
  end.

(** The search for the object of an operation: its index, or the number of
    objects. *)
Fixpoint hsm_choose (which sigma : Z) (freqs : list Z) (j : Z) : Z :=
  match freqs with
  | [] => j
  | f :: freqs => if which <? u32 (sigma + f) then j else hsm_choose which (u32 (sigma + f)) freqs (j + 1)
  end.

(** The operations. *)
Fixpoint hsm_run_ops (n : nat) (nr_ops : Z) (freqs : list Z) (rc : Z) (random : list Z) (w : cmd_world)
  : outcome (Z * list Z * cmd_world) :=
  match n with
  | O => Done (rc, random, w)
  | S n =>
      '(which, random) ← mio_cmd_random (u32 nr_ops) random;
      let j := hsm_choose which 0 freqs 0 in
      '(rc, w) ← hsm_read_one cop_block_count (hsm_make_oid j) w;
      if rc <? 0 then Done (rc, random, w) else hsm_run_ops n nr_ops freqs rc random w
  end.

(** [hsm_workload_generate]. *)
Definition hsm_workload_generate (w : hsm_world) : outcome (Z * hsm_world) :=
  let c := hw_cmd w in
  let '(ok, p) := plan_next (cw_plan c) in
  let c := set_cw_plan p c in
  if negb ok then Done (- ENOMEM, set_hw_cmd c w) else
  let n := Z.to_nat cop_nr_objs in
  '(freqs, sigma, random) ← hsm_freqs n 0 0 (hw_random w);
  '(freqs, nr_ops) ← hsm_adjust 128 sigma freqs 0;
  '(rc, random, c) ← hsm_run_ops (Z.to_nat nr_ops) nr_ops freqs 0 random c;
  if rc <? 0 then Done (rc, MkHsmWorld c (hw_sys_hints w) random) else
  '(rc, c) ← (fix stats n i rc c :=
     match n with
     | O => Done (rc, c)
     | S n => '(rc, _, c) ← hsm_obj_hint_stat (hsm_make_oid i) MIO_HINT_OBJ_HOT_INDEX 0 c; stats n (i + 1) rc c
     end) n 0 rc c;
  Done (rc, MkHsmWorld c (hw_sys_hints w) random).

(** ** The shell *)

(** [hsm_get_action]: argv[optind]. *)
Definition hsm_get_action (s : list Z) : hsm_action :=
  if is_word s "help" then HSM_HELP
  else if is_word s "create" then HSM_CREATE
  else if is_word s "workload" then HSM_WORKLOAD
  else if is_word s "write" then HSM_WRITE
  else if is_word s "read" then HSM_READ
  else if is_word s "move" then HSM_MOVE
  else if is_word s "show" then HSM_SHOW
  else if is_word s "set_hot_thld" then HSM_SET_HOT_OBJ_THLD
  else if is_word s "set_cold_thld" then HSM_SET_COLD_OBJ_THLD
  else if is_word s "get_thlds" then HSM_GET_OBJ_THLDS
  else HSM_INVALID_ACT.

(** [hsm_get_io_args] on the words that follow the action: the index, the number of
    objects and the number of blocks. *)
Definition hsm_get_io_args (args : list (list Z)) : option (Z * Z * Z) :=
  match args with
  | idx :: nr_objs :: rest =>
      Some (atoi idx, atoi nr_objs, match rest with blk :: _ => atoi blk | [] => 0 end)
  | _ => None
  end.

(** [hsm_set_obj_thld]. *)
Definition hsm_set_obj_thld (args : list (list Z)) (set_hot_thld : bool) (w : hsm_world) : outcome (Z * hsm_world) :=
  match args with
  | [] => Done (- EINVAL, w)
  | a :: _ =>
      '(_, hints) ← mio_sys_hint_set (hw_sys_hints w)
        (if set_hot_thld then MIO_HINT_HOT_OBJ_THRESHOLD else MIO_HINT_COLD_OBJ_THRESHOLD) (u64 (atoi a));
      Done (0, MkHsmWorld (hw_cmd w) hints (hw_random w))
  end.

(** [hsm_get_obj_thlds]: the thresholds that are printed. *)
Definition hsm_get_obj_thlds (w : hsm_world) : outcome (Z * option (Z * Z)) :=
  '(rc, hot) ← mio_sys_hint_get (hw_sys_hints w) MIO_HINT_HOT_OBJ_THRESHOLD None;
  '(rc, cold) ← (if rc =? 0 then mio_sys_hint_get (hw_sys_hints w) MIO_HINT_COLD_OBJ_THRESHOLD None
                 else Done (rc, None));
  if rc <? 0 then Done (rc, None) else
  match hot, cold with Some h, Some c => Done (0, Some (h, c)) | _, _ => Fault UninitRead end.

Definition with_cmd (f : cmd_world → outcome (Z * cmd_world)) (w : hsm_world) : outcome (Z * hsm_world) :=
  '(rc, c) ← f (hw_cmd w); Done (rc, set_hw_cmd c w).

(** [hsm_shell_run_cmd] for a line of at least one word. *)
Definition hsm_shell_run_cmd (action : list Z) (args : list (list Z)) (w : hsm_world) : outcome (Z * hsm_world) :=
  let io (f : Z → Z → Z → cmd_world → outcome (Z * cmd_world)) :=
    match hsm_get_io_args args with
    | Some (idx, nr_objs, blk_cnt) => with_cmd (f idx nr_objs blk_cnt) w
    | None => Done (- EINVAL, w)
    end in
  match hsm_get_action action with
  | HSM_INVALID_ACT => Done (- EINVAL, w)
  | HSM_HELP => Done (0, w)
  | HSM_CREATE => with_cmd hsm_create_objs w
  | HSM_WORKLOAD => hsm_workload_generate w
  | HSM_WRITE => io hsm_write_objs
  | HSM_READ => io hsm_read_objs
  | HSM_MOVE => io (λ idx nr_objs _, hsm_move_objs (hw_sys_hints w) idx nr_objs)
  | HSM_SHOW => io (λ idx nr_objs _ c, '(rc, (_, c)) ← hsm_show_objs idx nr_objs c; Done (rc, c))
  | HSM_SET_HOT_OBJ_THLD => hsm_set_obj_thld args true w
  | HSM_SET_COLD_OBJ_THLD => hsm_set_obj_thld args false w
  | HSM_GET_OBJ_THLDS => '(rc, _) ← hsm_get_obj_thlds w; Done (rc, w)
  end.

(** The words of a line: strtok() with the delimiters of SH_TOK_DELIM. *)
Definition hsm_is_delim (c : Z) : bool := (c =? 32) || (c =? 9) || (c =? 13) || (c =? 10) || (c =? 7).

Fixpoint words (s cur : list Z) : list (list Z) :=
  match s with
  | [] => match cur with [] => [] | _ => [cur] end
  | c :: s =>
      if hsm_is_delim c then match cur with [] => words s [] | _ => cur :: words s [] end
      else words s (cur ++ [c])
  end.

Definition SH_TOK_BUFSIZE : Z := 64.

(** The loop of [hsm_shell_split_line]: the array has [bufsize] elements, of which
    the [position] in [tokens] are set. *)
Fixpoint split_loop (l : list (list Z)) (tokens : list (list Z)) (bufsize : Z) (p : mplan)
  : outcome (option (list (list Z) * Z) * mplan) :=
  match l with
  | [] => if Z.of_nat (length tokens) <? bufsize then Done (Some (tokens, Z.of_nat (length tokens)), p)
          else Fault OutOfBounds
  | token :: l =>
      if bufsize <=? Z.of_nat (length tokens) then Fault OutOfBounds else
      let tokens := tokens ++ [token] in
      if bufsize <=? Z.of_nat (length tokens) then
        let '(ok, p) := plan_next p in
        if ok then split_loop l tokens (bufsize + SH_TOK_BUFSIZE) p else Done (None, p)
      else split_loop l tokens bufsize p
  end.

(** [hsm_shell_split_line]: argv and argc, or NULL. *)
Definition hsm_shell_split_line (line : list Z) (p : mplan) : outcome (option (list (list Z) * Z) * mplan) :=
  let '(ok, p) := plan_next p in
  if negb ok then Done (None, p) else split_loop (words line []) [str "hsm"] SH_TOK_BUFSIZE p.

(** [hsm_shell_loop] on the lines that readline() gives; [argc] keeps its value when
    a line cannot be split. *)
Fixpoint hsm_shell_loop (lines : list (list Z)) (argc : option Z) (p : mplan) (w : hsm_world) : outcome (Z * hsm_world) :=
  match lines with
  | [] => Done (0, w)
  | line :: lines =>
      '(r, p) ← hsm_shell_split_line line p;
      match r with
      | Some (argv, n) =>
          match argv with
          | _ :: action :: args =>
              if is_word action "quit" then Done (0, w) else
              '(_, w) ← hsm_shell_run_cmd action args w;
              hsm_shell_loop lines (Some n) p w
          | _ => hsm_shell_loop lines (Some n) p w
          end
      | None =>
          match argc with
          | None => Fault UninitRead
          | Some n => if 1 <? n then Fault NullDeref else hsm_shell_loop lines argc p w
          end
      end
  end.
End Hsm.
