(* ===== verification/HsmMove.v ===== *)
(** * Moving objects between pools: the theorems on [Hsm] *)

From Stdlib Require Import String Sorted.
From S2P Require Import Prelude Bytes ObjId HintMap Types Hints CStr Conf CmdHelpers ObjService ObjCmd ObjCopy Hsm.
Open Scope Z_scope.

(** ** Objects and the temporary object *)
Section Oids.
Context `{HostOrder} (cop_oid : mio_obj_id).

Lemma hsm_make_oid_inj i j : - 2 ^ 31 <= i < 2 ^ 31 → - 2 ^ 31 <= j < 2 ^ 31 →
  hsm_make_oid cop_oid i = hsm_make_oid cop_oid j → i = j.
Proof. intros Hi Hj Heq. apply clone_inj in Heq; lia. Qed.

Lemma hsm_tmp_oid_ne i : - 2 ^ 31 <= i < 2 ^ 31 → hsm_make_oid cop_oid i ≠ hsm_make_tmp_oid cop_oid.
Proof. intros Hi Heq. apply clone_inj in Heq; lia. Qed.
End Oids.

(** ** One object *)
Section Move.
Context `{HostOrder} `{HsmService}.
Context (cop_oid : mio_obj_id) (bs : Z) (pool_ids : list mio_pool_id) (fuel : nat).
Abbreviation objs w := (sv_objects (cw_sv w)).
Abbreviation tmp_oid := (hsm_make_tmp_oid cop_oid).

(** Opening an object, looking at it and closing it change nothing. *)
Lemma open_close_same oid w rc o w1 o' s :
  obj_open oid obj_zero w = (rc, o, w1) → rc = 0 → same_handle o o' → mo_attrs_updated o' = mo_attrs_updated o →
  (∀ id, sv_objects s id = objs w1 id) →
  ∃ w2, cmd_close o' (set_cw_sv s w1) = Done w2 ∧ ∀ id, objs w2 id = objs w id.
Proof.
  intros E Hrc (Hid & Hsz & Hd) Hup Hs. apply cmd_open_spec in E as (_ & Hobj & Hup' & _ & Hok & _).
  destruct (Hok Hrc) as (v & Hv & Hid1 & Hd1 & Hsz1).
  destruct (cmd_close_spec o' (set_cw_sv s w1)) as (w2 & -> & _ & Hfr & Hc); [tauto|]. simpl in *.
  exists w2. split; [done|]. intros id. destruct (decide (id = oid)) as [->|Hne].
  - rewrite Hv, <- Hid1, <- Hid. eapply close_spec_same; [done| |congruence].
    by rewrite Hid, Hid1, Hs, Hobj.
  - by rewrite Hfr, Hs, Hobj by congruence.
Qed.

Lemma hsm_obj_hint_stat_spec oid key x0 w : ∃ rc x w',
  hsm_obj_hint_stat oid key x0 w = Done (rc, x, w') ∧ rc <= 0 ∧ ∀ id, objs w' id = objs w id.
Proof.
  unfold hsm_obj_hint_stat. destruct (obj_open oid obj_zero w) as [[rc o] w1] eqn:E.
  pose proof (cmd_open_spec _ _ _ _ _ _ E) as (Hrc & Hobj & _).
  destruct (Z.ltb_spec rc 0); [by eexists _, _, _|].
  destruct (hs_hint_get o key (cw_sv w1)) as [[[rc2 x] o'] s] eqn:E2.
  apply hs_hint_get_ok in E2 as (Hrc2 & Hs & Hsame & Hup).
  destruct (open_close_same _ _ _ _ _ o' s E ltac:(lia) Hsame Hup Hs) as (w2 & -> & Hw2).
  by eexists _, _, _.
Qed.

Lemma hsm_obj_pool_id_spec oid w : ∃ rc p w',
  hsm_obj_pool_id oid w = Done (rc, p, w') ∧ rc <= 0 ∧ ∀ id, objs w' id = objs w id.
Proof.
  unfold hsm_obj_pool_id. destruct (obj_open oid obj_zero w) as [[rc o] w1] eqn:E.
  pose proof (cmd_open_spec _ _ _ _ _ _ E) as (Hrc & Hobj & _).
  destruct (Z.ltb_spec rc 0); [by eexists _, _, _|].
  destruct (hs_pool_id o (cw_sv w1)) as [rc2 p] eqn:E2. apply hs_pool_id_ok in E2.
  destruct (open_close_same _ _ _ _ _ o (cw_sv w1) E ltac:(lia)) as (w2 & Hc & Hw2); [done..|].
  replace (set_cw_sv (cw_sv w1) w1) with w1 in Hc by (by destruct w1). rewrite Hc.
  by eexists _, _, _.
Qed.

(** An object [oid] has the size and the bytes of [v]. *)
Definition holds (a : obj_views) (oid : mio_obj_id) (v : obj_view) : Prop :=
  ∃ v', a oid = Some v' ∧ ov_size v' = ov_size v ∧ ∀ z, 0 <= z < ov_size v → ov_bytes v' z = ov_bytes v z.

(** Starting to open an object never fails. *)
Definition opening_starts : Prop := ∀ oid o s, (sv_start (CallOpen oid) o s).1.1 = 0.

(** What moving an object does, however far it comes: the data are in the object or
    in the temporary object; when it succeeds they are in the object, in the pool
    that [chint] chooses, and the temporary object is gone. *)
Definition moved (oid : mio_obj_id) (v : obj_view) (chint : mio_cmd_obj_hint) (a : obj_views) (rc : Z) (b : obj_views)
  : Prop :=
  (∀ id, id ≠ oid → id ≠ tmp_oid → b id = a id) ∧ (holds b oid v ∨ holds b tmp_oid v) ∧
  (rc = 0 → b tmp_oid = None ∧ holds b oid v ∧ ov_pool <$> b oid = Some (sv_create_pool None (cmd_hints (Some chint)))).

Lemma copy_step from to chint w v u :
  from ≠ to → 0 < bs → 0 < ov_size v → ov_size v + 121 * bs < 2 ^ 64 → (blocks_fuel (ov_size v) bs < fuel)%nat →
  opening_starts → close_stores →
  objs w from = Some u → ov_size u = ov_size v → (∀ z, 0 <= z < ov_size v → ov_bytes u z = ov_bytes v z) →
  size_at (objs w) to <= ov_size v →
  ∃ rc w', mio_cmd_obj_copy fuel from None to bs chint w = Done (rc, w') ∧ rc <= 0 ∧
    objs w' from = Some u ∧ (∀ id, id ≠ from → id ≠ to → objs w' id = objs w id) ∧
    (rc = 0 → holds (objs w') to v ∧
       (objs w to = None → ov_pool <$> objs w' to = Some (sv_create_pool None (cmd_hints chint)))).
Proof.
  intros Hne Hbs Hpos Hfit Hfuel Hopen Hstores Hu Hus Hub Hold.
  destruct (obj_copy_spec fuel from to None bs chint w u) as (rc & w' & -> & Hrc & Hsrc & Hfr & Hok);
    try done; try (by rewrite Hus); try apply Hopen.
  exists rc, w'. do 4 (split; [done|]). intros ->.
  destruct (Hok eq_refl) as (vt & Hvt & Hb & Hp & Hs). specialize (Hs Hstores). rewrite Hus in Hs. split.
  - exists vt. split; [done|]. split; [lia|]. intros z Hz. rewrite Hb, Hub by lia. done.
  - intros Hnone. rewrite Hvt. simpl. by rewrite (Hp Hnone).
Qed.

Lemma hsm_move_data_correct oid chint w v :
  oid ≠ tmp_oid → 0 < bs → 0 < ov_size v → ov_size v + 121 * bs < 2 ^ 64 → (blocks_fuel (ov_size v) bs < fuel)%nat →
  opening_starts → close_stores → objs w oid = Some v → size_at (objs w) tmp_oid <= ov_size v →
  ∃ rc w', hsm_move_data cop_oid bs fuel oid chint w = Done (rc, w') ∧ rc <= 0 ∧ moved oid v chint (objs w) rc (objs w').
Proof.
  intros Hne Hbs Hpos Hfit Hfuel Hopen Hstores Hv Htmp. unfold hsm_move_data.
  destruct (copy_step oid tmp_oid None w v v) as (rc & w1 & -> & Hrc & Hsrc1 & Hfr1 & Hok1); [done..|].
  cbn [mbind outcome_bind]. assert (Hv1 : holds (objs w1) oid v) by (exists v; done).
  destruct (Z.ltb_spec rc 0) as [Hlt|Hge].
  { eexists _, _. split; [done|]. split; [done|]. split; [done|]. split; [by left|lia]. }
  destruct Hok1 as [Ht1 _]; [lia|]. unfold mio_cmd_obj_unlink.
  destruct (obj_rm oid w1) as [rc2 w2] eqn:E2. apply obj_rm_spec in E2 as (Hrc2 & Hfr2 & Hok2).
  destruct Ht1 as (u & Hu & Hus & Hub). assert (Hu2 : objs w2 tmp_oid = Some u) by (by rewrite Hfr2).
  assert (Ht2 : holds (objs w2) tmp_oid v) by (by exists u).
  assert (Hfr12 : ∀ id, id ≠ oid → id ≠ tmp_oid → objs w2 id = objs w id) by (intros; by rewrite Hfr2, Hfr1).
  destruct (Z.ltb_spec rc2 0) as [Hlt2|Hge2].
  { eexists _, _. split; [done|]. split; [done|]. split; [done|]. split; [by right|lia]. }
  assert (Hgone : objs w2 oid = None) by (apply Hok2; lia).
  destruct (copy_step tmp_oid oid (Some chint) w2 v u) as (rc3 & w3 & -> & Hrc3 & Hsrc3 & Hfr3 & Hok3); [done..| |].
  { unfold size_at. rewrite Hgone. lia. }
  cbn [mbind outcome_bind]. destruct (Z.ltb_spec rc3 0) as [Hlt3|Hge3].
  { eexists _, _. split; [done|]. split; [done|].
    split; [intros; by rewrite Hfr3, Hfr12|]. split; [right; by exists u|lia]. }
  destruct Hok3 as [Ho3 Hp3]; [lia|]. specialize (Hp3 Hgone).
  destruct (obj_rm tmp_oid w3) as [rc4 w4] eqn:E4. apply obj_rm_spec in E4 as (Hrc4 & Hfr4 & Hok4).
  eexists _, _. split; [done|]. split; [done|].
  assert (Ho4 : holds (objs w4) oid v).
  { destruct Ho3 as (x & Hx & ?). exists x. by rewrite Hfr4. }
  split; [intros; by rewrite Hfr4, Hfr3, Hfr12|]. split; [by left|].
  intros ->. split; [by apply Hok4|]. split; [done|]. by rewrite Hfr4.
Qed.

Lemma holds_trans a oid u v :
  holds a oid u → ov_size u = ov_size v → (∀ z, 0 <= z < ov_size v → ov_bytes u z = ov_bytes v z) → holds a oid v.
Proof.
  intros (x & Hx & Hs & Hb) Hus Hub. exists x. split; [done|]. split; [lia|].
  intros z Hz. rewrite Hb, Hub by lia. done.
Qed.

(** The pool of a hotness is found. *)
Definition hotness_has_pool (sys_hints : mio_hint_map) : Prop :=
  ∀ h, ∃ p, mio_obj_hotness_to_pool_id sys_hints pool_ids h = Done p.

Lemma hsm_obj_if_move_spec sys_hints oid h w : hotness_has_pool sys_hints → ∃ rc w',
  hsm_obj_if_move pool_ids sys_hints oid h w = Done (rc, w') ∧ ∀ id, objs w' id = objs w id.
Proof.
  intros Hp. unfold hsm_obj_if_move. destruct (hsm_obj_pool_id_spec oid w) as (rc & p & w' & -> & _ & Hw).
  cbn [mbind outcome_bind]. destruct (rc <? 0); [by eexists _, _|].
  destruct (Hp h) as [q ->]. cbn [mbind outcome_bind]. by eexists _, _.
Qed.

(** One object, whether it is moved or stays. *)
Definition moved_or_stays (oid : mio_obj_id) (v : obj_view) (a : obj_views) (rc : Z) (b : obj_views) : Prop :=
  (∀ id, id ≠ oid → id ≠ tmp_oid → b id = a id) ∧ (holds b oid v ∨ holds b tmp_oid v) ∧
  (rc = 0 → holds b oid v ∧
    ((∀ id, b id = a id) ∨
     b tmp_oid = None ∧ ∃ h, ov_pool <$> b oid =
       Some (sv_create_pool None (cmd_hints (Some (MkCmdHint MIO_HINT_OBJ_HOT_INDEX h)))))).

Lemma hsm_move_one_correct sys_hints oid w v :
  oid ≠ tmp_oid → 0 < bs → 0 < ov_size v → ov_size v + 121 * bs < 2 ^ 64 → (blocks_fuel (ov_size v) bs < fuel)%nat →
  opening_starts → close_stores → hotness_has_pool sys_hints →
  objs w oid = Some v → size_at (objs w) tmp_oid <= ov_size v →
  ∃ rc w', hsm_move_one cop_oid bs pool_ids fuel sys_hints oid w = Done (rc, w') ∧ rc <= 0 ∧
    moved_or_stays oid v (objs w) rc (objs w').
Proof.
  intros Hne Hbs Hpos Hfit Hfuel Hopen Hstores Hpools Hv Htmp. unfold hsm_move_one.
  destruct (hsm_obj_hint_stat_spec oid MIO_HINT_OBJ_HOT_INDEX 0 w) as (rc & x & w1 & -> & Hrc & Hw1).
  cbn [mbind outcome_bind].
  assert (Hstay : ∀ w' rc', (∀ id, objs w' id = objs w id) → moved_or_stays oid v (objs w) rc' (objs w')).
  { intros w' rc' Hw'. assert (holds (objs w') oid v) by (exists v; by rewrite Hw').
    split; [done|]. split; [by left|]. intros _. split; [done|by left]. }
  destruct (Z.ltb_spec rc 0); [eexists _, _; split; [done|]; split; [done|]; by apply Hstay|].
  destruct (hsm_obj_if_move_spec sys_hints oid x w1 Hpools) as (rc2 & w2 & -> & Hw2). cbn [mbind outcome_bind].
  assert (Hw12 : ∀ id, objs w2 id = objs w id) by (intros; by rewrite Hw2, Hw1).
  destruct (rc2 =? HSM_OBJ_NOT_MOVE); [eexists _, _; split; [done|]; split; [done|]; by apply Hstay|].
  destruct (hsm_move_data_correct oid (MkCmdHint MIO_HINT_OBJ_HOT_INDEX x) w2 v)
    as (rc3 & w3 & -> & Hrc3 & Hfr & Hor & Hok); try done.
  { by rewrite Hw12. }
  { unfold size_at. rewrite Hw12. done. }
  eexists _, _. split; [done|]. split; [done|]. split; [intros; by rewrite Hfr, Hw12|]. split; [done|].
  intros Hrc0. destruct (Hok Hrc0) as (Ht & Ho & Hp). split; [done|]. right. split; [done|]. by exists x.
Qed.

(** ** All objects of a command *)
Context (nr : Z) (vs : Z → obj_view) (sys_hints : mio_hint_map).
Abbreviation oid_at i := (hsm_make_oid cop_oid i).

(** Every object has its data, and there is no temporary object. *)
Definition all_hold (a : obj_views) : Prop :=
  a tmp_oid = None ∧ ∀ i, 0 <= i < nr → holds a (oid_at i) (vs i).

Lemma move_loop_correct idx n i w :
  nr <= 2 ^ 31 → 0 <= idx → 0 <= i → idx + i + Z.of_nat n <= nr → 0 < bs →
  (∀ i, 0 <= i < nr → 0 < ov_size (vs i) ∧ ov_size (vs i) + 121 * bs < 2 ^ 64 ∧
     (blocks_fuel (ov_size (vs i)) bs < fuel)%nat) →
  opening_starts → close_stores → hotness_has_pool sys_hints → all_hold (objs w) →
  ∃ rc w', for_objs (λ i w, hsm_move_one cop_oid bs pool_ids fuel sys_hints (oid_at (idx + i)) w) n i (Some 0) w =
      Done (Some rc, w') ∧ rc <= 0 ∧
    (∀ i, 0 <= i < nr → holds (objs w') (oid_at i) (vs i) ∨ holds (objs w') tmp_oid (vs i)) ∧
    (rc = 0 → all_hold (objs w')).
Proof.
  intros Hnr Hidx Hi Hn Hbs Hvs Hopen Hstores Hpools. revert i w Hi Hn.
  induction n as [|n IH]; intros i w Hi Hn [Htmp Hall]; cbn [for_objs].
  { eexists _, _. split; [done|]. split; [done|]. split; [intros j Hj; left; by apply Hall|]. by split. }
  destruct (Hall (idx + i)) as (u & Hu & Hus & Hub); [lia|]. destruct (Hvs (idx + i)) as (Hpos & Hfit & Hfuel); [lia|].
  destruct (hsm_move_one_correct sys_hints (oid_at (idx + i)) w u) as (rc & w1 & -> & Hrc & Hfr & Hor & Hok);
    try done; try (by rewrite Hus).
  { apply hsm_tmp_oid_ne. lia. }
  { unfold size_at. rewrite Htmp. lia. }
  cbn [mbind outcome_bind].
  assert (Hother : ∀ j, 0 <= j < nr → j ≠ idx + i → holds (objs w1) (oid_at j) (vs j)).
  { intros j Hj Hne. destruct (Hall j Hj) as (x & Hx & ?). exists x. split; [|done].
    rewrite Hfr; [done| |by apply hsm_tmp_oid_ne; lia]. intros Heq. apply hsm_make_oid_inj in Heq; lia. }
  destruct (Z.ltb_spec rc 0) as [Hlt|Hge].
  - eexists _, _. split; [done|]. split; [done|]. split; [|lia].
    intros j Hj. destruct (decide (j = idx + i)) as [->|Hne]; [|left; by apply Hother].
    destruct Hor; [left|right]; eapply holds_trans; eauto.
  - assert (rc = 0) as -> by lia. destruct (Hok eq_refl) as [Ho Ht].
    apply IH; [lia|lia|]. split.
    + destruct Ht as [Heq|[Hnone _]]; [by rewrite Heq|done].
    + intros j Hj. destruct (decide (j = idx + i)) as [->|Hne]; [|by apply Hother].
      eapply holds_trans; eauto.
Qed.
End Move.


(** ** Witnesses and boundary cases *)
Section Witnesses.
#[local] Instance ex_host_hsm : HostOrder := false.

(** Every object has the hotness 200 and the pool it was created with. *)
Definition mem_hint_get (o : mio_obj) (key : Z) (s : mem_sv) : Z * Z * mio_obj * mem_sv := (0, 200, o, s).
Definition mem_pool_id (o : mio_obj) (s : mem_sv) : Z * mio_pool_id :=
  match ms_objs s (mo_id o) with
  | Some v => (0, match ov_pool v with Some p => p | None => MkPoolId 0 0 end)
  | None => (- EINVAL, MkPoolId 0 0)
  end.

Lemma mem_hint_get_ok (o : mio_obj) (key : Z) (s : mem_sv) rc x o' s' : mem_hint_get o key s = (rc, x, o', s') →
  rc <= 0 ∧ (∀ id, ms_objs s' id = ms_objs s id) ∧ same_handle o o' ∧ mo_attrs_updated o' = mo_attrs_updated o.
Proof. intros [= <- <- <- <-]. repeat split; try done; lia. Qed.

Lemma mem_pool_id_ok (o : mio_obj) (s : mem_sv) rc p : mem_pool_id o s = (rc, p) → rc <= 0.
Proof. unfold mem_pool_id. destruct (ms_objs s (mo_id o)); intros [= <- <-]; unfold EINVAL; lia. Qed.

Definition mem_hsm (reliable : bool) : @HsmService (mem_service reliable) :=
  @Build_HsmService (mem_service reliable) mem_hint_get mem_pool_id mem_hint_get_ok mem_pool_id_ok.

Lemma mem_opening_starts : @opening_starts (mem_service true).
Proof. intros oid o s. reflexivity. Qed.

Definition ex_pools : list mio_pool_id := [MkPoolId 1 1; MkPoolId 2 2].
Definition no_hints : mio_hint_map := MkHintMap 32 0 (Arr (replicate 32 (-1))) (Arr (replicate 32 0)).

Lemma ex_hotness_has_pool : hotness_has_pool ex_pools no_hints.
Proof.
  intros h. unfold mio_obj_hotness_to_pool_id, mio_obj_hotness_to_pool_idx.
  change (get_thld no_hints MIO_HINT_HOT_OBJ_THRESHOLD MIO_DEFAULT_HOT_OBJ_THLD) with (@Done Z 128).
  change (get_thld no_hints MIO_HINT_COLD_OBJ_THRESHOLD MIO_DEFAULT_COLD_OBJ_THLD) with (@Done Z 16).
  cbn [mbind outcome_bind]. destruct (128 <? h); [by eexists|]. destruct (h <? 16); by eexists.
Qed.

(** The objects with the sizes [sizes], whose ids are offsets from that of zeros,
    and perhaps a temporary object. *)
Definition hsm_oid : mio_obj_id := MkObjId (replicate 16 0).
Fixpoint ex_hsm_objs (i : Z) (sizes : list Z) : obj_views :=
  match sizes with
  | [] => λ _, None
  | n :: sizes => views_upd (hsm_make_oid hsm_oid i) (Some (ex_view n)) (ex_hsm_objs (i + 1) sizes)
  end.

Definition ex_vs (i : Z) : obj_view := ex_view (if i =? 0 then 7 else 500).

Lemma ex_all_hold : all_hold hsm_oid 2 ex_vs (ex_hsm_objs 0 [7; 500]).
Proof.
  cbn [ex_hsm_objs]. split.
  - by rewrite !views_upd_ne by (apply not_eq_sym, hsm_tmp_oid_ne; lia).
  - intros i Hi. assert (i = 0 ∨ i = 1) as [->| ->] by lia; eexists; split; [|by split| |by split].
    + by rewrite views_upd_eq.
    + rewrite views_upd_ne by (intros E; apply hsm_make_oid_inj in E; lia). by rewrite views_upd_eq.
Qed.


Definition sizes_after {svc : ObjService} (ids : list mio_obj_id) (r : outcome (Z * cmd_world))
  : outcome (Z * list (option Z)) :=
  '(rc, w) ← r; Done (rc, (λ id, ov_size <$> sv_objects (cw_sv w) id) <$> ids).

Definition ex_ids : list mio_obj_id := [hsm_make_oid hsm_oid 0; hsm_make_oid hsm_oid 1; hsm_make_tmp_oid hsm_oid].

Example move_runs :
  let svc := mem_service true in let hsm := mem_hsm true in
  sizes_after ex_ids (hsm_move_objs hsm_oid 2 4 ex_pools 10 no_hints 0 2
    (ex_world (MkMemSv (ex_hsm_objs 0 [7; 500]) [] []))) = Done (0, [Some 7; Some 500; None]).
Proof. vm_compute. reflexivity. Qed.

(** A temporary object that is left from before and larger gives the object its
    size. *)
Example move_with_old_tmp :
  let svc := mem_service true in let hsm := mem_hsm true in
  sizes_after ex_ids (hsm_move_objs hsm_oid 1 4 ex_pools 10 no_hints 0 1
    (ex_world (MkMemSv (views_upd (hsm_make_tmp_oid hsm_oid) (Some (ex_view 60)) (ex_hsm_objs 0 [7])) [] []))) =
    Done (0, [Some 60; None; None]).
Proof. vm_compute. reflexivity. Qed.

(** When the size of the temporary object is not stored, which mio_obj_close() does
    not report, the object is deleted and both have the size 0. *)
Example move_loses_size :
  let svc := mem_service false in let hsm := mem_hsm false in
  sizes_after ex_ids (hsm_move_objs hsm_oid 1 4 ex_pools 10 no_hints 0 1
    (ex_world (MkMemSv (ex_hsm_objs 0 [7]) [] [true; true; false]))) = Done (- EINVAL, [Some 0; None; Some 0]).
Proof. vm_compute. reflexivity. Qed.
End Witnesses.
