(* ===== verification/HsmShell.v ===== *)
(** * The shell of the storage manager: the theorems on the rest of [Hsm]

    Splitting a line, choosing objects for a workload, and the ranges of the
    commands. *)

From Stdlib Require Import String.
From S2P Require Import Prelude Bytes ObjId HintMap Types Hints CStr Conf CmdHelpers ObjService ObjCmd ObjCopy Hsm HsmMove.
Open Scope Z_scope.

(** ** Lines *)

(** A word: it is not empty and has no delimiter. *)
Definition is_token (t : list Z) : Prop := t ≠ [] ∧ Forall (λ c, hsm_is_delim c = false) t.

Lemma words_app t s cur : Forall (λ c, hsm_is_delim c = false) t → words (t ++ s) cur = words s (cur ++ t).
Proof.
  intros Ht. revert cur. induction Ht as [|c t Hc _ IH]; intros cur; cbn [app words]; [by rewrite app_nil_r|].
  rewrite Hc, IH. by rewrite <- app_assoc.
Qed.

Lemma words_delim s c : hsm_is_delim c = true → words (c :: s) [] = words s [].
Proof. intros Hc. cbn [words]. by rewrite Hc. Qed.

(** A line made of words with delimiters between them gives the words. *)
Lemma words_join (ts : list (list Z)) (seps : list Z) (last : list Z) :
  Forall is_token ts → Forall (λ c, hsm_is_delim c = true) seps → length seps = length ts → (last = [] ∨ is_token last) →
  words (concat (zip_with (λ t c, t ++ [c]) ts seps) ++ last) [] = ts ++ (if decide (last = []) then [] else [last]).
Proof.
  intros Hts. revert seps. induction Hts as [|t ts [Hne Ht] _ IH]; intros seps Hseps Hlen Hlast.
  - destruct seps; [|done]. simpl. destruct Hlast as [->|[Hne Hl]]; [done|].
    rewrite <- (app_nil_r last) at 1. rewrite words_app by done. rewrite decide_False by done.
    simpl. by destruct last.
  - destruct seps as [|c seps]; [done|]. apply Forall_cons in Hseps as [Hc Hseps]. simpl in Hlen.
    cbn [zip_with concat]. rewrite <- !app_assoc, words_app by done. cbn [app words]. rewrite Hc.
    destruct t as [|x t]; [done|]. rewrite IH by (done || lia). done.
Qed.

(** The array of words always has room for the next one and for the NULL at the
    end. *)
Lemma split_loop_correct l tokens bufsize p :
  Z.of_nat (length tokens) < bufsize →
  ∃ r p', split_loop l tokens bufsize p = Done (r, p') ∧
    (r = None ∨ r = Some (tokens ++ l, Z.of_nat (length (tokens ++ l)))) ∧
    (Forall (λ b, b = true) p → r ≠ None).
Proof.
  revert tokens bufsize p; induction l as [|t l IH]; intros tokens bufsize p Hlt; cbn [split_loop].
  { rewrite (proj2 (Z.ltb_lt _ _)) by done. rewrite app_nil_r. eexists _, _. split; [done|]. split; [by right|done]. }
  rewrite (proj2 (Z.leb_gt _ _)) by done. rewrite length_app. cbn [length].
  destruct (Z.leb_spec bufsize (Z.of_nat (length tokens + 1))) as [Hle|Hgt].
  - destruct (plan_next p) as [ok p1] eqn:Ep. destruct ok.
    + destruct (IH (tokens ++ [t]) (bufsize + SH_TOK_BUFSIZE) p1) as (r & p' & -> & Hr & Hn).
      { rewrite length_app. cbn [length]. unfold SH_TOK_BUFSIZE. lia. }
      rewrite <- app_assoc in Hr. eexists _, _. split; [done|]. split; [done|].
      intros Hp. apply Hn. by destruct (plan_next_all _ _ _ Ep Hp).
    + eexists _, _. split; [done|]. split; [by left|]. intros Hp. by destruct (plan_next_all _ _ _ Ep Hp).
  - destruct (IH (tokens ++ [t]) bufsize p) as (r & p' & -> & Hr & Hn).
    { rewrite length_app. cbn [length]. lia. }
    rewrite <- app_assoc in Hr. eexists _, _. split; [done|]. split; [done|done].
Qed.

(** Splitting a line never writes behind its array, however many words there are: it
    gives "hsm" and the words of the line, or NULL when there is no memory. *)
Theorem hsm_shell_split_line_correct (ts : list (list Z)) (seps last : list Z) (p : mplan)
  (Hts : Forall is_token ts) (Hseps : Forall (λ c, hsm_is_delim c = true) seps) (Hlen : length seps = length ts)
  (Hlast : last = [] ∨ is_token last) :
  let line := concat (zip_with (λ t c, t ++ [c]) ts seps) ++ last in
  let argv := str "hsm" :: ts ++ (if decide (last = []) then [] else [last]) in
  ∃ r p', hsm_shell_split_line line p = Done (r, p') ∧
    (r = None ∨ r = Some (argv, Z.of_nat (length argv))) ∧ (Forall (λ b, b = true) p → r ≠ None).
Proof.
  intros line argv. unfold hsm_shell_split_line. destruct (plan_next p) as [ok p1] eqn:Ep.
  destruct ok; cbn [negb].
  - destruct (split_loop_correct (words line []) [str "hsm"] SH_TOK_BUFSIZE p1) as (r & p' & -> & Hr & Hn).
    { cbn. unfold SH_TOK_BUFSIZE. lia. }
    unfold line in Hr. rewrite words_join in Hr by done.
    eexists _, _. split; [done|]. split; [exact Hr|].
    intros Hp. apply Hn. by destruct (plan_next_all _ _ _ Ep Hp).
  - eexists _, _. split; [done|]. split; [by left|]. intros Hp. by destruct (plan_next_all _ _ _ Ep Hp).
Qed.

(** ** The workload *)

Definition zsum (l : list Z) : Z := foldr Z.add 0 l.

Lemma zsum_nonneg l : Forall (Z.le 0) l → 0 <= zsum l.
Proof. induction 1; cbn [zsum foldr]; [done|]. unfold zsum in *. lia. Qed.

(** The object of an operation: the numbers [which] that choose object [j] are those
    between the sums of the frequencies before and up to it, so every object is
    chosen by as many numbers as its frequency, and no other object is. *)
Theorem hsm_choose_correct (which : Z) (freqs : list Z) (Hf : Forall (Z.le 0) freqs)
  (Hsum : zsum freqs < 2 ^ 32) (Hwhich : 0 <= which < zsum freqs) :
  ∃ j, hsm_choose which 0 freqs 0 = Z.of_nat j ∧ (j < length freqs)%nat ∧
    zsum (take j freqs) <= which < zsum (take (S j) freqs).
Proof.
  enough (Hgen : ∀ sigma i, 0 <= sigma → sigma + zsum freqs < 2 ^ 32 → sigma <= which < sigma + zsum freqs →
    ∃ j, hsm_choose which sigma freqs i = i + Z.of_nat j ∧ (j < length freqs)%nat ∧
      sigma + zsum (take j freqs) <= which < sigma + zsum (take (S j) freqs)).
  { destruct (Hgen 0 0) as (j & -> & Hj & Hb); [lia..|]. by exists j. }
  clear Hsum Hwhich. induction Hf as [|f freqs Hf0 Hf IH]; intros sigma i Hs Hsum Hwhich.
  { unfold zsum in Hwhich. simpl in Hwhich. lia. }
  pose proof (zsum_nonneg freqs Hf). change (zsum (f :: freqs)) with (f + zsum freqs) in *.
  cbn [hsm_choose]. rewrite u32_small by lia.
  destruct (Z.ltb_spec which (sigma + f)) as [Hlt|Hge].
  - exists 0%nat. split; [lia|]. split; [simpl; lia|]. cbn [take]. unfold zsum. simpl. lia.
  - destruct (IH (sigma + f) (i + 1)) as (j & -> & Hj & Hb); [lia..|].
    exists (S j). split; [lia|]. split; [simpl; lia|].
    change (zsum (take (S j) (f :: freqs))) with (f + zsum (take j freqs)).
    change (zsum (take (S (S j)) (f :: freqs))) with (f + zsum (take (S j) freqs)). lia.
Qed.

(** The operations of a workload: [nr_ops] of them are shared out, none too many. *)
Lemma hsm_adjust_correct (nr_ops sigma : Z) (freqs : list Z) (acc : Z) :
  0 < sigma → 0 <= nr_ops < 2 ^ 20 → Forall (λ f, 0 <= f < 2 ^ 12) freqs → 0 <= acc →
  acc + (nr_ops * zsum freqs) / sigma < 2 ^ 31 →
  ∃ l n, hsm_adjust nr_ops sigma freqs acc = Done (l, n) ∧ length l = length freqs ∧ Forall (Z.le 0) l ∧
    n = acc + zsum l ∧ sigma * zsum l <= nr_ops * zsum freqs.
Proof.
  intros Hs Hn Hf. revert acc. induction Hf as [|f freqs Hf0 Hf IH]; intros acc Hacc Hfit; cbn [hsm_adjust].
  { eexists _, _. split; [done|]. split; [done|]. split; [done|]. unfold zsum. simpl. lia. }
  rewrite (proj2 (Z.eqb_neq sigma 0)) by lia. change (zsum (f :: freqs)) with (f + zsum freqs) in *.
  assert (Hnn : 0 <= zsum freqs) by (apply zsum_nonneg; eapply Forall_impl; [done|]; simpl; lia).
  assert (Hfn : 0 <= f * nr_ops < 2 ^ 32) by nia. rewrite u32_small by done.
  set (q := f * nr_ops / sigma). assert (Hq : 0 <= q) by (apply Z.div_pos; lia).
  pose proof (Z.mul_div_le (f * nr_ops) sigma Hs) as Hqs. fold q in Hqs.
  set (T := nr_ops * (f + zsum freqs) / sigma) in *.
  assert (Hsplit : q + nr_ops * zsum freqs / sigma <= T).
  { apply Z.div_le_lower_bound; [done|]. pose proof (Z.mul_div_le (nr_ops * zsum freqs) sigma Hs). lia. }
  assert (0 <= nr_ops * zsum freqs / sigma) by (apply Z.div_pos; nia).
  rewrite s32_small by lia.
  destruct (IH (acc + q)) as (l & n & -> & Hlen & Hl & -> & Hsum); [lia|lia|].
  cbn [mbind outcome_bind]. eexists _, _. split; [done|]. split; [simpl; lia|]. split; [by constructor|].
  change (zsum (q :: l)) with (q + zsum l). split; lia.
Qed.

(** ** The ranges of the commands *)

(** Reading from an index that is not below the number of objects to read returns
    rc without having set it. *)
Theorem hsm_read_objs_unset `{HostOrder} `{HsmService} cop_oid cop_nr_objs bs hsm_log stack_obj console fuel
    (idx nr_objs blk_cnt : Z) (w : cmd_world)
  (Hidx : 0 <= idx < cop_nr_objs) (Hnr : 0 <= nr_objs <= idx) (Hmax : cop_nr_objs < 2 ^ 30) :
  hsm_read_objs cop_oid cop_nr_objs bs hsm_log stack_obj console fuel idx nr_objs blk_cnt w = Fault UninitRead.
Proof.
  unfold hsm_read_objs, hsm_clip. rewrite (proj2 (Z.leb_gt _ _)) by lia. rewrite s32_small by lia.
  assert (Hz : Z.to_nat ((if cop_nr_objs <? idx + nr_objs then cop_nr_objs - idx else nr_objs) - idx) = O).
  { destruct (Z.ltb_spec cop_nr_objs (idx + nr_objs)); lia. }
  rewrite Hz. done.
Qed.

(** ** Boundary cases *)
Section Examples.
#[local] Instance ex_host_shell : HostOrder := false.

Example split_line_runs :
  hsm_shell_split_line (str "move 0  2") [] = Done (Some ([str "hsm"; str "move"; str "0"; str "2"], 4), []).
Proof. vm_compute. reflexivity. Qed.

(** A hundred words: the array grows once. *)
Example split_line_long :
  (λ r, match r with Done (Some (_, n), _) => n | _ => 0 end)
    (hsm_shell_split_line (concat (replicate 100 (str "x "))) []) = 101.
Proof. vm_compute. reflexivity. Qed.

(** Creating the objects a second time fails with -EEXIST, and deletes them all. *)
Example create_again_deletes :
  let svc := mem_service true in let hsm := mem_hsm true in
  sizes_after ex_ids (hsm_create_objs hsm_oid 2 (ex_world (MkMemSv (ex_hsm_objs 0 [7; 500]) [] []))) =
    Done (- EEXIST, [None; None; None]).
Proof. vm_compute. reflexivity. Qed.

(** A workload whose random numbers are all multiples of 16. *)
Example workload_divides_by_zero :
  ('(freqs, sigma, _) ← hsm_freqs 3 0 0 [16; 32; 0]; hsm_adjust 128 sigma freqs 0) = Fault DivByZero.
Proof. vm_compute. reflexivity. Qed.
End Examples.
