(* ===== verification/HintCmd.v ===== *)
(** * Setting and listing the hints of an object (src/examples/mio_hint_set.c and
    src/examples/mio_hint_stat.c)

    Two programs: what the first one stores is what the second one lists, over an
    interface of what the driver keeps of the hints of an object. *)

From Stdlib Require Import String.
From S2P Require Import Prelude Bytes ObjId HintMap Types Hints.
Open Scope Z_scope.

Definition MIO_HINT_OBJ_KEY_NUM : Z := 3.

(** ** What the programs use of objects

    Opening gives a handle with the hints that are kept; the driver stores the
    persistent ones and loads those that are kept. *)
Class HintDriver (W : Type) := {
  hd_kept : W → mio_obj_id → gmap Z Z;
  hd_open : mio_obj_id → W → Z * mio_obj * W;
  hd_load : mio_obj → W → Z * mio_obj * W;
  hd_store : mio_obj → W → Z * mio_obj * W;
  hd_close : mio_obj → W → outcome W;
  hd_open_ok : ∀ oid w rc o w', hd_open oid w = (rc, o, w') → rc <= 0 ∧ (∀ id, hd_kept w' id = hd_kept w id) ∧
    (rc = 0 → mo_id o = oid ∧ hint_map_wf (mo_hints o) ∧ mhm_nr_entries (mo_hints o) = MIO_OBJ_HINT_NUM ∧
       phints_ok (moa_phints (mo_attrs o)) ∧ hint_abs (mo_hints o) = hd_kept w oid);
  hd_load_ok : ∀ o w rc o' w', hd_load o w = (rc, o', w') → rc <= 0 ∧ (∀ id, hd_kept w' id = hd_kept w id) ∧
    mo_id o' = mo_id o ∧
    (rc = 0 → hint_map_wf (mo_hints o) → hint_abs (mo_hints o) = hd_kept w (mo_id o) →
       hint_map_wf (mo_hints o') ∧ hint_abs (mo_hints o') = hd_kept w (mo_id o));
  hd_store_ok : ∀ o w rc o' w', hd_store o w = (rc, o', w') → rc <= 0 ∧ mo_id o' = mo_id o ∧
    (∀ id, id ≠ mo_id o → hd_kept w' id = hd_kept w id) ∧
    (rc = 0 → hd_kept w' (mo_id o) = hint_abs (moa_phints (mo_attrs o)));
  hd_close_ok : ∀ o w, ∃ w', hd_close o w = Done w' ∧ ∀ id, hd_kept w' id = hd_kept w id
}.

Section HintCmd.
Context {W : Type} `{HintDriver W}.

Definition hd_ops : obj_hint_ops W := MkHintOps (Some hd_load) (Some hd_store).

(** The loop of [obj_hint_set]: a hint for every key, its own number. *)
Fixpoint hint_set_loop (n : nat) (i rc : Z) (hints : option mio_hint_map) : outcome (Z * option mio_hint_map) :=
  match n with
  | O => Done (rc, hints)
  | S n =>
      '(rc, hints) ← mio_hint_add hints i (u64 i);
      if rc <? 0 then Done (rc, hints) else hint_set_loop n (i + 1) rc hints
  end.

(** [obj_hint_set] of mio_hint_set.c: the result of storing is not looked at. *)
Definition obj_hint_set (oid : mio_obj_id) (w : W) (p : mplan) : outcome (Z * W * mplan) :=
  let '(rc, obj, w) := hd_open oid w in
  if rc <? 0 then Done (rc, w, p) else
  '(_, hints, p) ← mio_hints_init (Some hint_map_zero) p;
  '(rc, hints) ← hint_set_loop (Z.to_nat MIO_HINT_OBJ_KEY_NUM) 0 rc hints;
  '(_, obj, w, p) ← mio_obj_hints_set 0 (Some hd_ops) (Some obj) hints w p;
  _ ← mio_hints_fini hints;
  w ← (match obj with Some obj => hd_close obj w | None => Fault NullDeref end);
  Done (rc, w, p).

(** The loop of [obj_hint_stat]: the hints that are set, with their names. *)
Fixpoint hint_stat_loop (n : nat) (i : Z) (hints : option mio_hint_map) (hvalue : option Z)
  : outcome (list (option string * Z)) :=
  match n with
  | O => Done []
  | S n =>
      let hname := mio_hint_name MIO_HINT_SCOPE_OBJ i in
      '(rc, hvalue) ← mio_hint_lookup hints i hvalue;
      if rc <? 0 then hint_stat_loop n (i + 1) hints hvalue else
      match hvalue with
      | None => Fault UninitRead
      | Some v => l ← hint_stat_loop n (i + 1) hints hvalue; Done ((hname, v) :: l)
      end
  end.

(** [obj_hint_stat] of mio_hint_stat.c: after an error the object stays open. *)
Definition obj_hint_stat (oid : mio_obj_id) (w : W) (p : mplan) : outcome (Z * list (option string * Z) * W * mplan) :=
  let '(rc, obj, w) := hd_open oid w in
  if rc <? 0 then Done (rc, [], w, p) else
  '(rc, obj, hints, w, p) ← mio_obj_hints_get 0 (Some hd_ops) (Some obj) (Some hint_map_zero) w p;
  if rc <? 0 then Done (rc, [], w, p) else
  text ← hint_stat_loop (Z.to_nat MIO_HINT_OBJ_KEY_NUM) 0 hints None;
  w ← (match obj with Some obj => hd_close obj w | None => Fault NullDeref end);
  Done (0, text, w, p).

(** ** The hints the first program makes *)
Definition set_hints : gmap Z Z := {[0 := 0; 1 := 1; 2 := 2]}.

Lemma hint_set_loop_spec n i m : hint_map_wf m → mhm_nr_entries m = MIO_OBJ_HINT_NUM →
  Z.of_nat (size (hint_abs m)) + Z.of_nat n <= MIO_OBJ_HINT_NUM → 0 <= i → i + Z.of_nat n < 2 ^ 64 →
  ∃ m', hint_set_loop n i 0 (Some m) = Done (0, Some m') ∧ hint_map_wf m' ∧
    hint_abs m' = foldl (λ a j, <[j := j]> a) (hint_abs m) (seqZ i (Z.of_nat n)).
Proof.
  revert i m. induction n as [|n IH]; intros i m Hwf Hnr Hsz Hi Hmax; [by exists m|].
  cbn [hint_set_loop mio_hint_add]. rewrite (u64_small i) by lia.
  destruct (hint_map_set_cases m i i Hwf) as (rc & m1 & -> & Hwf1 & Hn1 & Hc). cbn [mbind outcome_bind].
  rewrite decide_False in Hc by (rewrite Hnr; lia). destruct Hc as [-> Habs]. cbn [Z.ltb Z.compare].
  destruct (IH (i + 1) m1) as (m2 & -> & Hwf2 & Habs2); [done|congruence| |lia|lia|].
  - rewrite Habs. pose proof (map_size_insert i i (hint_abs m)) as Hs. destruct (hint_abs m !! i); cbn in Hs; lia.
  - exists m2. split; [done|]. split; [done|]. rewrite Habs2, Habs.
    rewrite (seqZ_cons i) by lia. cbn [foldl]. by replace (Z.succ i) with (i + 1) by lia; replace (Z.pred (Z.of_nat (S n))) with (Z.of_nat n) by lia.
Qed.

(** Copying into a map that is set to zero. *)
Lemma hint_copy_zero from : hint_map_wf from → ∃ to,
  mio_hint_map_copy hint_map_zero from [] = Done (0, to, []) ∧ hint_map_wf to ∧ hint_abs to = hint_abs from.
Proof.
  intros Hwf. pose proof (wf_size _ Hwf) as Hsz. pose proof (wf_bound _ Hwf) as Hb.
  assert (Hpos : 0 < mhm_nr_entries from) by (destruct Hwf as (? & ? & Hr); apply (hm_pos _ _ _ Hr)).
  destruct (hint_map_init_ok hint_map_zero (mhm_nr_entries from) Hpos) as (m & Hm & Hwfm & Habs & Hn).
  destruct (hint_map_copy_refines m from [] Hwfm Hwf) as (rc & to & Hc & Hwf' & _ & Hd).
  exists to. assert (mio_hint_map_copy hint_map_zero from [] = mio_hint_map_copy m from []) as ->.
  { unfold mio_hint_map_copy. cbn [hint_map_zero mhm_nr_entries]. cbn [Z.eqb]. fold hint_map_zero. rewrite Hm.
    rewrite Hn, (proj2 (Z.eqb_neq _ _)) by lia. reflexivity. }
  assert (Hu : hint_abs from ∪ hint_abs m = hint_abs from) by (rewrite Habs; apply map_union_empty).
  rewrite Hu, decide_True in Hd by lia. destruct Hd as [-> Habs']. by split_and!.
Qed.

Lemma persistent_set_hints : filter (λ kv, is_persistent kv.1 = true) set_hints = {[0 := 0; 2 := 2]}.
Proof. by vm_compute. Qed.

(** Hints the object keeps, when all of them are persistent, are overwritten. *)
Lemma set_hints_all (m : gmap Z Z) : (∀ k, is_Some (m !! k) → is_persistent k = true) → set_hints ∪ m = set_hints.
Proof.
  intros Hm. apply map_eq. intros k. rewrite lookup_union. destruct (m !! k) as [v|] eqn:Ek.
  - specialize (Hm k (mk_is_Some _ _ Ek)). rewrite is_persistent_keys in Hm.
    unfold MIO_HINT_OBJ_LIFETIME, MIO_HINT_OBJ_HOT_INDEX in Hm. assert (k = 0 ∨ k = 2) as [->| ->] by lia; done.
  - by destruct (set_hints !! k).
Qed.

Lemma set_hints_size : size set_hints = 3%nat.
Proof. done. Qed.

Lemma new_set_hints : ∃ m0 m, mio_hints_init (Some hint_map_zero) [] = Done (0, Some m0, []) ∧
  hint_set_loop (Z.to_nat MIO_HINT_OBJ_KEY_NUM) 0 0 (Some m0) = Done (0, Some m) ∧ hint_map_wf m ∧ hint_abs m = set_hints.
Proof.
  destruct (hint_map_init_ok hint_map_zero MIO_OBJ_HINT_NUM) as (m0 & Hm0 & Hwf0 & Habs0 & Hn0); [done|].
  destruct (hint_set_loop_spec (Z.to_nat MIO_HINT_OBJ_KEY_NUM) 0 m0 Hwf0 Hn0) as (m & Hm & Hwf & Habs); [by rewrite Habs0|lia|done|].
  exists m0, m. unfold mio_hints_init. rewrite Hm0. split_and!; try done. rewrite Habs, Habs0. by vm_compute.
Qed.

(** Storing them on a handle. *)
Lemma obj_hints_set_spec o m w : hint_map_wf m → hint_abs m = set_hints →
  hint_map_wf (mo_hints o) → mhm_nr_entries (mo_hints o) = MIO_OBJ_HINT_NUM → phints_ok (moa_phints (mo_attrs o)) →
  (∀ k, is_Some (hint_abs (mo_hints o) !! k) → is_persistent k = true) →
  ∃ rc o' w', mio_obj_hints_set 0 (Some hd_ops) (Some o) (Some m) w [] = Done (rc, Some o', w', []) ∧ rc <= 0 ∧
    (∀ id, id ≠ mo_id o → hd_kept w' id = hd_kept w id) ∧
    ((∀ x v, (hd_store x v).1.1 = 0) → hd_kept w' (mo_id o) = {[0 := 0; 2 := 2]}).
Proof.
  intros Hwf Habs Hwfo Hnr Hph Hper. unfold mio_obj_hints_set. cbn [mio_obj_hint_ops_check hd_ops]. fold hd_ops.
  change (mio_obj_hint_ops_check 0 (Some hd_ops)) with 0. cbn [Z.ltb Z.compare].
  destruct (hint_map_copy_refines (mo_hints o) m [] Hwfo Hwf) as (rc & to & -> & Hwft & _ & Hc).
  assert (Hu : hint_abs m ∪ hint_abs (mo_hints o) = set_hints) by (rewrite Habs; by apply set_hints_all).
  rewrite Hu, decide_True in Hc by (rewrite Hnr; done). destruct Hc as [-> Habst]. cbn [mbind outcome_bind Z.eqb].
  destruct (obj_hint_store_spec hd_ops hd_store (set_mo_hints to o) w eq_refl Hwft Hph) as (o' & (ph & -> & Hwfp & _ & Habsp) & ->).
  cbn [mbind outcome_bind]. destruct (hd_store (set_moa_phints ph (set_mo_hints to o)) w) as [[rc o'] w'] eqn:E.
  pose proof (hd_store_ok _ _ _ _ _ E) as (Hrc & _ & Hfr & Hok).
  assert (Hkept : rc = 0 → hd_kept w' (mo_id o) = hint_abs ph) by exact Hok.
  exists (if rc <? 0 then rc else 0), o', w'. split; [by destruct (rc <? 0)|]. split; [by destruct (Z.ltb_spec rc 0)|]. split; [done|].
  intros Hst. specialize (Hst (set_moa_phints ph (set_mo_hints to o)) w). rewrite E in Hst. cbn in Hst.
  rewrite (Hkept Hst), Habsp. cbn [mo_hints set_mo_hints]. rewrite Habst. apply persistent_set_hints.
Qed.

(** Listing what is kept. *)
Lemma hint_stat_loop_spec m : hint_map_wf m → hint_abs m = {[0 := 0; 2 := 2]} →
  hint_stat_loop (Z.to_nat MIO_HINT_OBJ_KEY_NUM) 0 (Some m) None =
    Done [(Some "MIO_HINT_OBJ_LIFETIME"%string, 0); (Some "MIO_HINT_OBJ_HOT_INDEX"%string, 2)].
Proof.
  intros Hwf Habs. change (Z.to_nat MIO_HINT_OBJ_KEY_NUM) with 3%nat. cbn [hint_stat_loop].
  unfold mio_hint_lookup. rewrite (hint_map_get_cases m 0 None Hwf), Habs. change (({[0 := 0; 2 := 2]} : gmap Z Z) !! 0) with (Some 0).
  cbn [mbind outcome_bind Z.ltb Z.compare]. rewrite (hint_map_get_cases m (0 + 1) _ Hwf), Habs.
  change (({[0 := 0; 2 := 2]} : gmap Z Z) !! (0 + 1)) with (@None Z). cbn [mbind outcome_bind]. change (- ENOENT <? 0) with true. cbv iota.
  rewrite (hint_map_get_cases m (0 + 1 + 1) _ Hwf), Habs. change (({[0 := 0; 2 := 2]} : gmap Z Z) !! (0 + 1 + 1)) with (Some 2). reflexivity.
Qed.

Lemma hint_list_spec oid w : hd_kept w oid = {[0 := 0; 2 := 2]} →
  ∃ rc text w', obj_hint_stat oid w [] = Done (rc, text, w', []) ∧ rc <= 0 ∧ (∀ id, hd_kept w' id = hd_kept w id) ∧
    (rc = 0 → text = [(Some "MIO_HINT_OBJ_LIFETIME"%string, 0); (Some "MIO_HINT_OBJ_HOT_INDEX"%string, 2)]).
Proof.
  intros Hk. unfold obj_hint_stat. destruct (hd_open oid w) as [[rc o] w1] eqn:E.
  apply hd_open_ok in E as (Hrc & Hk1 & Hok). destruct (Z.ltb_spec rc 0) as [Hneg|Hge].
  { eexists _, _, _. split; [done|]. split; [done|]. split; [done|lia]. }
  destruct Hok as (Hid & Hwf & Hnr & Hph & Habs); [lia|]. unfold mio_obj_hints_get.
  change (mio_obj_hint_ops_check 0 (Some hd_ops)) with 0. cbn [Z.ltb Z.compare]. cbn [obj_hint_load hd_ops moo_hint_load].
  destruct (hd_load o w1) as [[rc2 o2] w2] eqn:E2. apply hd_load_ok in E2 as (Hrc2 & Hk2 & Hid2 & Hok2). rewrite Hid in Hok2.
  assert (Hkept : ∀ id, hd_kept w2 id = hd_kept w id) by (intros id; by rewrite Hk2, Hk1).
  cbn [mbind outcome_bind]. destruct (Z.ltb_spec rc2 0) as [Hneg|Hge2].
  { cbn [mbind outcome_bind]. rewrite (proj2 (Z.ltb_lt _ _)) by done. eexists _, _, _. split; [done|]. split; [done|]. split; [done|lia]. }
  destruct Hok2 as [Hwf2 Habs2]; [lia|done|by rewrite Hk1|].
  destruct (hint_copy_zero (mo_hints o2) Hwf2) as (m & -> & Hwfm & Habsm). cbn [mbind outcome_bind Z.ltb Z.compare].
  rewrite (hint_stat_loop_spec m Hwfm) by (by rewrite Habsm, Habs2, Hk1). cbn [mbind outcome_bind].
  destruct (hd_close_ok o2 w2) as (w3 & -> & Hk3). eexists _, _, _. split; [done|]. split; [done|]. split; [intros id; by rewrite Hk3|done].
Qed.
End HintCmd.

(** (C40) Setting the hints of an object and listing them, for an object that keeps only
    persistent hints, when nothing lacks memory.  Setting returns and changes no other
    object; if it returns 0 and the driver has stored what it was given, which the
    result does not tell, the object keeps the two persistent hints of the three.  Then
    listing returns, changes nothing, and if it returns 0 it has printed these two with
    their values: the third one ends with the session. *)
Theorem hint_set_stat_correct {W} `{HintDriver W} (oid : mio_obj_id) (w : W) :
  (∀ k, is_Some (hd_kept w oid !! k) → is_persistent k = true) →
  ∃ rc w', obj_hint_set oid w [] = Done (rc, w', []) ∧ rc <= 0 ∧ (∀ id, id ≠ oid → hd_kept w' id = hd_kept w id) ∧
    (rc = 0 → (∀ o v, (hd_store o v).1.1 = 0) →
       hd_kept w' oid = {[0 := 0; 2 := 2]} ∧
       ∃ rc2 text w2, obj_hint_stat oid w' [] = Done (rc2, text, w2, []) ∧ rc2 <= 0 ∧
         (∀ id, hd_kept w2 id = hd_kept w' id) ∧
         (rc2 = 0 → text = [(Some "MIO_HINT_OBJ_LIFETIME"%string, 0); (Some "MIO_HINT_OBJ_HOT_INDEX"%string, 2)])).
Proof.
  intros Hper. unfold obj_hint_set. destruct (hd_open oid w) as [[rc o] w1] eqn:E.
  apply hd_open_ok in E as (Hrc & Hk1 & Hok). destruct (Z.ltb_spec rc 0) as [Hneg|Hge].
  { eexists _, _. split; [done|]. split; [done|]. split; [done|lia]. }
  destruct Hok as (Hid & Hwf & Hnr & Hph & Habs); [lia|]. assert (rc = 0) as -> by lia.
  destruct new_set_hints as (m0 & m & -> & Hm & Hwfm & Habsm). cbn [mbind outcome_bind]. rewrite Hm. cbn [mbind outcome_bind].
  destruct (obj_hints_set_spec o m w1 Hwfm Habsm Hwf Hnr Hph) as (rc2 & o2 & w2 & -> & _ & Hfr & Hst); [by rewrite Habs|].
  rewrite Hid in *. cbn [mbind outcome_bind]. unfold mio_hints_fini.
  destruct (mio_hint_map_fini_wf m Hwfm) as (m' & ->). cbn [mbind outcome_bind].
  destruct (hd_close_ok o2 w2) as (w3 & -> & Hk3). cbn [mbind outcome_bind]. eexists _, _. split; [done|]. split; [done|].
  split; [intros id Hne; by rewrite Hk3, Hfr, Hk1|]. intros _ Hstore.
  assert (Hkept : hd_kept w3 oid = {[0 := 0; 2 := 2]}) by (rewrite Hk3; by apply Hst).
  split; [done|]. by apply hint_list_spec.
Qed.

(** ** An instance in memory, witness and boundary cases *)
Section Witnesses.

(** What is kept of each object, and the coming results of the driver; a list that has
    ended stands for success. *)
Record hint_mem := MkHintMem { hm_kept : mio_obj_id → gmap Z Z; hm_rcs : list Z }.

Definition hm_next (s : hint_mem) : Z * hint_mem :=
  match hm_rcs s with [] => (0, s) | rc :: rcs => (Z.min rc 0, MkHintMem (hm_kept s) rcs) end.

Definition hints_of (m : gmap Z Z) : mio_hint_map :=
  let l := map_to_list m in
  MkHintMap MIO_OBJ_HINT_NUM (Z.of_nat (length l)) (Arr (l.*1 ++ replicate (32 - length l) (-1)))
    (Arr (l.*2 ++ replicate (32 - length l) 0)).

Lemma hints_of_ok m : (size m <= 32)%nat → hint_map_wf (hints_of m) ∧ hint_abs (hints_of m) = m.
Proof.
  intros Hm. rewrite <- length_map_to_list in Hm. assert (Hn : nr_set_nat (hints_of m) = length (map_to_list m)) by (unfold nr_set_nat; cbn; lia).
  split.
  - eexists _, _. split; [reflexivity|reflexivity| | |cbn; unfold MIO_OBJ_HINT_NUM; lia|done|].
    + rewrite length_app, length_fmap, length_replicate. cbn. unfold MIO_OBJ_HINT_NUM. lia.
    + by rewrite !length_app, !length_fmap, !length_replicate.
    + rewrite Hn, take_app_length'; [apply NoDup_fst_map_to_list|by rewrite length_fmap].
  - unfold hint_abs, hint_entries. cbn [hints_of mhm_keys mhm_values]. rewrite Hn.
    rewrite zip_with_app by (by rewrite !length_fmap). rewrite take_app_length'.
    + rewrite zip_fst_snd. apply list_to_map_to_list.
    + by rewrite zip_fst_snd.
Qed.

Definition hm_open (oid : mio_obj_id) (s : hint_mem) : Z * mio_obj * hint_mem :=
  let '(rc, s) := hm_next s in
  if (rc =? 0) && (size (hm_kept s oid) <=? 32)%nat
  then (0, MkObj oid 0 (hints_of (hm_kept s oid)) false attrs_zero None, s)
  else (- EIO, MkObj oid 0 hint_map_zero false attrs_zero None, s).

Definition hm_load (o : mio_obj) (s : hint_mem) : Z * mio_obj * hint_mem := let '(rc, s) := hm_next s in (rc, o, s).

Definition hm_store (o : mio_obj) (s : hint_mem) : Z * mio_obj * hint_mem :=
  let '(rc, s) := hm_next s in
  if rc =? 0 then
    (0, o, MkHintMem (λ id, if decide (id = mo_id o) then hint_abs (moa_phints (mo_attrs o)) else hm_kept s id) (hm_rcs s))
  else (rc, o, s).

Lemma hm_next_ok s rc s' : hm_next s = (rc, s') → rc <= 0 ∧ hm_kept s' = hm_kept s.
Proof. unfold hm_next. destruct (hm_rcs s); intros [= <- <-]; split; try done; lia. Qed.

#[refine] Instance hint_mem_driver : HintDriver hint_mem := {
  hd_kept := hm_kept; hd_open := hm_open; hd_load := hm_load; hd_store := hm_store; hd_close := λ _ s, Done s
}.
Proof.
  - intros oid s rc o s'. unfold hm_open. destruct (hm_next s) as [r s1] eqn:E. apply hm_next_ok in E as [Hr Hk].
    destruct (_ && _) eqn:Eb; intros [= <- <- <-]; rewrite Hk in *; (split; [unfold EIO; lia|]; split; [done|]); [|unfold EIO; lia].
    intros _. apply andb_true_iff in Eb as [_ Hs%Nat.leb_le]. destruct (hints_of_ok _ Hs) as [Hwf Habs].
    split; [done|]. split; [exact Hwf|]. split; [done|]. split; [by left|exact Habs].
  - intros o s rc o' s'. unfold hm_load. destruct (hm_next s) as [r s1] eqn:E. apply hm_next_ok in E as [Hr Hk].
    intros [= <- <- <-]. rewrite Hk. by split_and!.
  - intros o s rc o' s'. unfold hm_store. destruct (hm_next s) as [r s1] eqn:E. apply hm_next_ok in E as [Hr Hk].
    destruct (Z.eqb_spec r 0) as [->|Hne]; intros [= <- <- <-]; cbn [hm_kept]; rewrite Hk.
    + split; [done|]. split; [done|]. split; [intros id Hid; by rewrite decide_False|]. intros _. by rewrite decide_True.
    + split; [done|]. split; [done|]. by split.
  - intros o s. by eexists.
Defined.

Definition hset_oid : mio_obj_id := MkObjId (replicate 15 0 ++ [7]).

Lemma hint_set_stat_correct_witness :
  ∃ rc w', obj_hint_set hset_oid (MkHintMem (λ _, {[2 := 9]}) []) [] = Done (rc, w', []) ∧ rc <= 0.
Proof.
  destruct (hint_set_stat_correct hset_oid (MkHintMem (λ _, {[2 := 9]}) [])) as (rc & w' & Hset & Hrc & _).
  - intros k [v Hk]. cbn in Hk. apply lookup_singleton_Some in Hk as [<- _]. reflexivity.
  - exists rc, w'. split; [exact Hset|exact Hrc].
Defined.

(** Setting and listing, with the results of both. *)
Definition set_and_list (rcs : list Z) (p : mplan) : outcome (Z * Z * list Z) :=
  '(rc, s, _) ← obj_hint_set hset_oid (MkHintMem (λ _, {[2 := 9]}) rcs) p;
  '(rc2, text, _, _) ← obj_hint_stat hset_oid s [];
  Done (rc, rc2, text.*2).

Example set_and_list_ok : set_and_list [] [] = Done (0, 0, [0; 2]).
Proof. vm_compute. reflexivity. Qed.

(** Storing fails, nothing tells, the old hint is listed. *)
Example set_and_list_store_fails : set_and_list [0; - EIO] [] = Done (0, 0, [9]).
Proof. vm_compute. reflexivity. Qed.

(** Without memory for the hints the memory that was allocated is freed twice. *)
Example set_and_list_no_memory : set_and_list [] [false] = Fault DoubleFree.
Proof. vm_compute. reflexivity. Qed.
End Witnesses.
