(* ===== verification/HintProg.v ===== *)
(** * The examples of hints (src/examples/mio_obj_hints.c, mio_hint_set.c and
    mio_hint_stat.c)

    The first program writes an object many times and creates two others whose pool is
    chosen by hints; it runs over the interface of the library.  The other two set and
    list the hints of an object; they run over an interface of what the driver keeps of
    hints. *)

From Stdlib Require Import String.
From S2P Require Import Prelude Bytes ObjId HintMap Types Hints CStr Conf CmdHelpers ObjService ObjCmd ObjCopy ObjFile Hsm HsmMove Pools.
Open Scope Z_scope.

(** ** Objects with hints *)
Section ObjHints.
Context `{HostOrder} `{HsmService}.
(** The file and the parameters; a handle before it is initialised. *)
Context (src_fname : option fopen_result) (cop_oid : mio_obj_id) (cop_block_size cop_block_count : Z).
Context (stack_obj : mio_obj) (fuel : nat).

(** [obj_id_set]. *)
Definition obj_id_set (orig_oid : mio_obj_id) (idx : Z) : mio_obj_id := mio_cmd_obj_id_clone orig_oid idx 0.

(** [obj_hint_stat]. *)
Definition obj_hint_stat (oid : mio_obj_id) (hkey : Z) (w : cmd_world) : outcome (Z * cmd_world) :=
  let '(rc, o, w) := obj_open oid obj_zero w in
  if rc <? 0 then Done (rc, w) else
  let '(rc, _, o, s) := hs_hint_get o hkey (cw_sv w) in
  w ← cmd_close o (set_cw_sv s w);
  Done (rc, w).

(** [obj_create_by_hint]: neither the object nor the hints are given back. *)
Definition obj_create_by_hint (oid : mio_obj_id) (hkey hvalue : Z) (w : cmd_world) : outcome (Z * cmd_world) :=
  let '(rc, o, w) := obj_open oid stack_obj w in
  if rc =? 0 then Done (- EEXIST, w) else
  if negb (rc =? - ENOENT) then Done (rc, w) else
  '(_, hints, p) ← mio_hints_init (Some hint_map_zero) (cw_plan w);
  '(rc, hints) ← mio_hint_add hints hkey hvalue;
  let w := set_cw_plan p w in
  if rc <? 0 then Done (rc, w) else
  let c := CallCreate oid None hints in
  let '(rc, o, w) := cmd_start c o w in
  if negb (rc =? 0) then Done (rc, w) else
  let '(rc, _, _, w) := mio_cmd_wait_on_op c o w in
  Done (rc, w).

Definition obj_pool_select_by_perf (oid : mio_obj_id) (w : cmd_world) : outcome (Z * cmd_world) :=
  obj_create_by_hint oid MIO_HINT_OBJ_WHERE MIO_POOL_GOLD w.
Definition obj_pool_select_by_hotness (oid : mio_obj_id) (w : cmd_world) : outcome (Z * cmd_world) :=
  obj_create_by_hint oid MIO_HINT_OBJ_HOT_INDEX 128 w.

Definition hot_write (oid : mio_obj_id) (w : cmd_world) : outcome (Z * cmd_world) :=
  mio_cmd_obj_write fuel stack_obj src_fname None oid cop_block_size cop_block_count w.

(** The loop of [obj_hotness]. *)
Fixpoint hot_writes (n : nat) (rc : Z) (w : cmd_world) : outcome (Z * cmd_world) :=
  match n with
  | O => Done (rc, w)
  | S n => '(rc, w) ← hot_write cop_oid w; if rc <? 0 then Done (rc, w) else hot_writes n rc w
  end.

(** [obj_hotness]. *)
Definition obj_hotness (oid : mio_obj_id) (w : cmd_world) : outcome (Z * cmd_world) :=
  '(rc, w) ← hot_write oid w; if rc <? 0 then Done (rc, w) else
  '(rc, w) ← obj_hint_stat cop_oid MIO_HINT_OBJ_HOT_INDEX w; if rc <? 0 then Done (rc, w) else
  '(rc, w) ← hot_writes 16 rc w; if rc <? 0 then Done (rc, w) else
  '(rc, w) ← obj_hint_stat cop_oid MIO_HINT_OBJ_HOT_INDEX w; if rc <? 0 then Done (rc, w) else
  Done (0, w).

(** The steps of main() between mio_init() and mio_fini(). *)
Definition obj_hints_main (w : cmd_world) : outcome (Z * cmd_world) :=
  '(rc, w) ← obj_hotness cop_oid w; if rc <? 0 then Done (rc, w) else
  '(rc, w) ← obj_pool_select_by_perf (obj_id_set cop_oid 1) w; if rc <? 0 then Done (rc, w) else
  obj_pool_select_by_hotness (obj_id_set cop_oid 2) w.

(** ** What they do *)
Abbreviation objs w := (sv_objects (cw_sv w)).

(** It is [obj_create] of the object commands with the hint. *)
Lemma obj_create_by_hint_eq oid k v w :
  obj_create_by_hint oid k v w = '(rc, _, w) ← obj_create None oid stack_obj (Some (MkCmdHint k v)) w; Done (rc, w).
Proof.
  unfold obj_create_by_hint, obj_create, obj_do_create. destruct (obj_open oid stack_obj w) as [[rc o] w1].
  destruct (rc =? 0); [done|]. destruct (rc =? - ENOENT); cbn [negb]; [|done]. cbn [co_hkey co_hvalue].
  destruct (mio_hints_init (Some hint_map_zero) (cw_plan w1)) as [[[? hints] p]|]; [|done]. cbn [mbind outcome_bind].
  destruct (mio_hint_add hints k v) as [[rc2 hints2]|]; [|done]. cbn [mbind outcome_bind].
  destruct (rc2 <? 0); [done|]. destruct (cmd_start _ o _) as [[rc3 o3] w3]. destruct (negb (rc3 =? 0)); [done|].
  by destruct (mio_cmd_wait_on_op _ o3 w3) as [[[rc4 d] o4] w4].
Qed.

Definition hinted_pool (k v : Z) : option mio_pool_id := sv_create_pool None (cmd_hints (Some (MkCmdHint k v))).

Lemma obj_create_by_hint_spec oid k v w : ∃ rc w', obj_create_by_hint oid k v w = Done (rc, w') ∧ rc <= 0 ∧
  (∀ id, id ≠ oid → objs w' id = objs w id) ∧
  (rc = 0 → objs w oid = None ∧ ∃ x, objs w' oid = Some x ∧ ov_size x = 0 ∧ ov_pool x = hinted_pool k v).
Proof.
  rewrite obj_create_by_hint_eq.
  destruct (cmd_create_spec None oid stack_obj (Some (MkCmdHint k v)) w) as (rc & o' & w' & -> & Hrc & Hfr & Hok).
  by eexists _, _.
Qed.

Lemma obj_hint_stat_spec oid k w : ∃ rc w', obj_hint_stat oid k w = Done (rc, w') ∧ rc <= 0 ∧ ∀ id, objs w' id = objs w id.
Proof.
  assert (obj_hint_stat oid k w = '(rc, _, w) ← hsm_obj_hint_stat oid k 0 w; Done (rc, w)) as ->.
  { unfold obj_hint_stat, hsm_obj_hint_stat. destruct (obj_open oid obj_zero w) as [[rc o] w1]. destruct (rc <? 0); [done|].
    destruct (hs_hint_get o k (cw_sv w1)) as [[[rc2 x] o2] s]. by destruct (cmd_close o2 _). }
  destruct (hsm_obj_hint_stat_spec oid k 0 w) as (rc & x & w' & -> & Hrc & Hobj). by eexists _, _.
Qed.

(** Writing the file. *)
Section Write.
Context (bytes : list Z) (Hsrc : src_fname = Some (FopenOk bytes 0)).
Let size := Z.of_nat (length bytes).
Context (Hbs : 0 < cop_block_size) (Hsize : 0 < size) (Hfit : size + 121 * cop_block_size < 2 ^ 64).
Context (Hcount : 0 < cop_block_count) (Hfuel : (blocks_fuel size cop_block_size < fuel)%nat).

(** What the object holds after a write. *)
Definition file_written (w : cmd_world) : Prop := ∃ v, objs w cop_oid = Some v ∧
  ∀ z, 0 <= z < Z.min (cop_block_count * cop_block_size) size → ov_bytes v z = file_fun bytes z.

(** The state after a step: only the object has changed, and it holds the file if the
    step has succeeded. *)
Definition wrote (w : cmd_world) (rc : Z) (w' : cmd_world) : Prop :=
  rc <= 0 ∧ (∀ id, id ≠ cop_oid → objs w' id = objs w id) ∧ (rc = 0 → file_written w').

Lemma hot_write_spec w : ∃ rc w', hot_write cop_oid w = Done (rc, w') ∧ wrote w rc w'.
Proof.
  unfold hot_write. rewrite Hsrc.
  destruct (mio_cmd_obj_write_correct fuel stack_obj bytes None cop_oid cop_block_size cop_block_count w)
    as (rc & w' & -> & Hrc & Hfr & Hok); try done.
  eexists _, _. split; [done|]. split; [done|]. split; [done|]. intros Hz. destruct (Hok Hz) as (v & Hv & Hb & _). by exists v.
Qed.

Lemma wrote_stat w0 k w : wrote w0 0 w → ∃ rc w', obj_hint_stat cop_oid k w = Done (rc, w') ∧ wrote w0 rc w'.
Proof.
  intros (_ & Hfr & Hf). destruct (obj_hint_stat_spec cop_oid k w) as (rc & w' & -> & Hrc & Hobj).
  eexists _, _. split; [done|]. split; [done|]. split; [intros; by rewrite Hobj, Hfr|].
  intros _. destruct (Hf eq_refl) as (v & Hv & Hb). exists v. by rewrite Hobj.
Qed.

Lemma hot_writes_spec n w0 w : wrote w0 0 w → ∃ rc w', hot_writes n 0 w = Done (rc, w') ∧ wrote w0 rc w'.
Proof.
  revert w. induction n as [|n IH]; intros w Hw; [by eexists _, _|]. cbn [hot_writes].
  destruct (hot_write_spec w) as (rc & w' & -> & Hrc & Hfr & Hf). cbn [mbind outcome_bind].
  assert (Hw' : wrote w0 rc w').
  { split; [done|]. split; [|done]. intros id Hid. rewrite Hfr by done. by apply Hw. }
  destruct (Z.ltb_spec rc 0) as [Hneg|Hge]; [by eexists _, _|]. assert (rc = 0) as -> by lia. by apply IH.
Qed.

Lemma obj_hotness_spec w : ∃ rc w', obj_hotness cop_oid w = Done (rc, w') ∧ wrote w rc w'.
Proof.
  unfold obj_hotness.
  destruct (hot_write_spec w) as (rc1 & w1 & -> & Hst1). cbn [mbind outcome_bind].
  destruct (Z.ltb_spec rc1 0) as [Hneg|Hge1]; [by eexists _, _|]. assert (rc1 = 0) as -> by (destruct Hst1; lia).
  destruct (wrote_stat w MIO_HINT_OBJ_HOT_INDEX w1 Hst1) as (rc2 & w2 & -> & Hst2). cbn [mbind outcome_bind].
  destruct (Z.ltb_spec rc2 0) as [Hneg|Hge2]; [by eexists _, _|]. assert (rc2 = 0) as -> by (destruct Hst2; lia).
  destruct (hot_writes_spec 16 w w2 Hst2) as (rc3 & w3 & -> & Hst3). cbn [mbind outcome_bind].
  destruct (Z.ltb_spec rc3 0) as [Hneg|Hge3]; [by eexists _, _|]. assert (rc3 = 0) as -> by (destruct Hst3; lia).
  destruct (wrote_stat w MIO_HINT_OBJ_HOT_INDEX w3 Hst3) as (rc4 & w4 & -> & Hst4). cbn [mbind outcome_bind].
  destruct (Z.ltb_spec rc4 0) as [Hneg|Hge4]; [by eexists _, _|]. assert (rc4 = 0) as -> by (destruct Hst4; lia).
  by eexists _, _.
Qed.
End Write.
End ObjHints.

(** The example of hints, for a file that can be read, whatever else fails: it returns,
    and only its three objects change.  If the result is 0, the first object holds as
    much of the file as the blocks say, and the other two did not exist, exist now, are
    empty, and are in the pools that the library chooses for the hint of the golden pool
    and for a hotness of 128. *)
Theorem obj_hints_main_correct `{HostOrder} `{HsmService} (bytes : list Z) (oid : mio_obj_id) (bs count : Z)
    (stack_obj : mio_obj) (fuel : nat) (w : cmd_world) (size := Z.of_nat (length bytes))
  (Hoid : obj_id_ok oid) (Hbs : 0 < bs) (Hsize : 0 < size) (Hfit : size + 121 * bs < 2 ^ 64) (Hcount : 0 < count)
  (Hfuel : (blocks_fuel size bs < fuel)%nat) :
  let objs w := sv_objects (cw_sv w) in
  let oid1 := obj_id_set oid 1 in
  let oid2 := obj_id_set oid 2 in
  ∃ rc w', obj_hints_main (Some (FopenOk bytes 0)) oid bs count stack_obj fuel w = Done (rc, w') ∧ rc <= 0 ∧
    (∀ id, id ∉ [oid; oid1; oid2] → objs w' id = objs w id) ∧
    (rc = 0 → objs w oid1 = None ∧ objs w oid2 = None ∧
       ∃ v v1 v2, objs w' oid = Some v ∧ objs w' oid1 = Some v1 ∧ objs w' oid2 = Some v2 ∧
         (∀ z, 0 <= z < Z.min (count * bs) size → ov_bytes v z = file_fun bytes z) ∧
         ov_size v1 = 0 ∧ ov_pool v1 = hinted_pool MIO_HINT_OBJ_WHERE MIO_POOL_GOLD ∧
         ov_size v2 = 0 ∧ ov_pool v2 = hinted_pool MIO_HINT_OBJ_HOT_INDEX 128).
Proof.
  intros objs oid1 oid2. unfold objs.
  assert (oid ≠ oid1 ∧ oid ≠ oid2 ∧ oid1 ≠ oid2) as (Hne1 & Hne2 & Hne12).
  { rewrite <- (clone_self oid Hoid). unfold oid1, oid2, obj_id_set. rewrite !(clone_self oid Hoid). rewrite <- (clone_self oid Hoid) at 1 3.
    split_and!; intros Heq; apply clone_inj in Heq; lia. }
  unfold obj_hints_main.
  destruct (obj_hotness_spec (Some (FopenOk bytes 0)) oid bs count stack_obj fuel bytes eq_refl Hbs Hsize Hfit Hcount Hfuel w)
    as (rc & w1 & -> & Hrc1 & Hfr1 & Hf1). cbn [mbind outcome_bind].
  assert (Hfr : ∀ id, id ∉ [oid; oid1; oid2] → id ≠ oid ∧ id ≠ oid1 ∧ id ≠ oid2) by (intros id; rewrite !not_elem_of_cons; tauto).
  destruct (Z.ltb_spec rc 0) as [Hneg|Hge1].
  { eexists _, _. split; [done|]. split; [done|]. split; [|lia]. intros id Hid. apply Hfr1. by apply Hfr. }
  destruct Hf1 as (v & Hv & Hb); [lia|]. unfold obj_pool_select_by_perf, obj_pool_select_by_hotness.
  fold oid1 oid2.
  destruct (obj_create_by_hint_spec stack_obj oid1 MIO_HINT_OBJ_WHERE MIO_POOL_GOLD w1) as (rc2 & w2 & -> & Hrc2 & Hfr2 & Hok2).
  cbn [mbind outcome_bind]. destruct (Z.ltb_spec rc2 0) as [Hneg|Hge2].
  { eexists _, _. split; [done|]. split; [done|]. split; [|lia]. intros id Hid. destruct (Hfr id Hid) as (? & ? & ?). by rewrite Hfr2, Hfr1. }
  destruct Hok2 as (Hno1 & v1 & Hv1 & Hs1 & Hp1); [lia|].
  destruct (obj_create_by_hint_spec stack_obj oid2 MIO_HINT_OBJ_HOT_INDEX 128 w2) as (rc3 & w3 & -> & Hrc3 & Hfr3 & Hok3).
  eexists _, _. split; [done|]. split; [done|]. split.
  { intros id Hid. destruct (Hfr id Hid) as (? & ? & ?). by rewrite Hfr3, Hfr2, Hfr1. }
  intros Hz. destruct (Hok3 Hz) as (Hno2 & v2 & Hv2 & Hs2 & Hp2).
  rewrite Hfr1 in Hno1 by done. rewrite Hfr2, Hfr1 in Hno2 by done. split; [done|]. split; [done|].
  exists v, v1, v2. rewrite Hfr3, Hfr2, Hv by done. rewrite Hfr3, Hv1 by done. by split_and!.
Qed.

(** ** Witness and boundary cases *)
Section Witnesses.
#[local] Instance hint_host : HostOrder := false.
#[local] Instance hint_objects : ObjService := mem_service true.
#[local] Instance hint_hsm : HsmService := mem_hsm true.

Definition hint_oid : mio_obj_id := mio__uint128_to_obj_id (MkU128 1 0).

Definition hint_start : cmd_world := @ex_world (mem_service true) (MkMemSv (λ _, None) [] []).

Lemma obj_hints_main_correct_witness :
  ∃ rc w', obj_hints_main (Some (FopenOk [1; 2; 3; 4; 5] 0)) hint_oid 2 10 obj_zero 400 hint_start = Done (rc, w') ∧ rc <= 0.
Proof.
  destruct (obj_hints_main_correct [1; 2; 3; 4; 5] hint_oid 2 10 obj_zero 400 hint_start)
    as (rc & w' & Hmain & Hrc & _).
  - split; [reflexivity|repeat constructor; discriminate].
  - reflexivity.
  - reflexivity.
  - reflexivity.
  - reflexivity.
  - apply (bool_decide_unpack _). vm_compute. exact I.
  - exists rc, w'. split; [exact Hmain|exact Hrc].
Defined.

(** The result and the sizes of the three objects; [n] runs. *)
Fixpoint hint_runs (n : nat) (w : cmd_world) : outcome (list (Z * list (option Z))) :=
  match n with
  | O => Done []
  | S n =>
      '(rc, w) ← obj_hints_main (Some (FopenOk [1; 2; 3; 4; 5] 0)) hint_oid 2 10 obj_zero 20 w;
      l ← hint_runs n w;
      Done ((rc, (λ id, ov_size <$> sv_objects (cw_sv w) id) <$>
                   [hint_oid; obj_id_set hint_oid 1; obj_id_set hint_oid 2]) :: l)
  end.

(** The program works once: the objects it creates are not deleted. *)
Example hint_runs_twice :
  hint_runs 2 hint_start =
  Done [(0, [Some 5; Some 0; Some 0]); (- EEXIST, [Some 5; Some 0; Some 0])].
Proof. vm_compute. reflexivity. Qed.

End Witnesses.
