(* ===== verification/Telem.v ===== *)
(** * Telemetry records (src/mio_telemetry.h, src/mio_telemetry.c lines 71-110)

    The record {prefix, topic, type, value} that the two telemetry stores encode
    and decode, and the interface [TelemetryStore] between them and the telemetry
    functions of the library. *)

From S2P Require Import Prelude Bytes HintMap.
Open Scope Z_scope.

(** ** Types of values *)
Definition MIO_TM_TYPE_INVALID : Z := 0.
Definition MIO_TM_TYPE_NONE : Z := 1.
Definition MIO_TM_TYPE_UINT16 : Z := 2.
Definition MIO_TM_TYPE_UINT32 : Z := 3.
Definition MIO_TM_TYPE_UINT64 : Z := 4.
Definition MIO_TM_TYPE_TIMESPAN : Z := 5.
Definition MIO_TM_TYPE_TIMEPOINT : Z := 6.
Definition MIO_TM_TYPE_STRING : Z := 7.
Definition MIO_TM_TYPE_ARRAY_UINT16 : Z := 8.
Definition MIO_TM_TYPE_ARRAY_UINT32 : Z := 9.
Definition MIO_TM_TYPE_ARRAY_UINT64 : Z := 10.
Definition MIO_TM_TYPE_NR : Z := 11.

(** The memory behind a value pointer: NULL, one integer, or a struct
    mio_telemetry_array with its count and its elements (NULL or the list). *)
Inductive tm_value :=
| TvNull
| TvScalar (x : Z)
| TvArray (mta_nr_elms : Z) (mta_elms : option (list Z)).

Record mio_telemetry_rec := MkRec {
  mtr_time_str : option (list Z);
  mtr_prefix : option (list Z);
  mtr_topic : option (list Z);
  mtr_type : Z;
  mtr_value : tm_value
}.

(** Reading a value pointer as a pointer to an integer, or to an array. *)
Definition value_scalar (v : tm_value) : outcome Z :=
  match v with TvScalar x => Done x | TvNull => Fault NullDeref | TvArray _ _ => Fault OutOfBounds end.

Definition value_array (v : tm_value) : outcome (Z * option (list Z)) :=
  match v with
  | TvArray nr elms => Done (nr, elms)
  | TvNull => Fault NullDeref
  | TvScalar _ => Fault OutOfBounds
  end.

(** Element [i] of an array. *)
Definition elm_get (elms : option (list Z)) (i : nat) : outcome Z :=
  match elms with
  | None => Fault NullDeref
  | Some l => match l !! i with Some x => Done x | None => Fault OutOfBounds end
  end.

(** The width in bytes of the integers of a type, when it has a value. *)
Definition scalar_width (type : Z) : option nat :=
  if type =? MIO_TM_TYPE_UINT16 then Some 2%nat
  else if type =? MIO_TM_TYPE_UINT32 then Some 4%nat
  else if (type =? MIO_TM_TYPE_UINT64) || (type =? MIO_TM_TYPE_TIMESPAN) || (type =? MIO_TM_TYPE_TIMEPOINT)
  then Some 8%nat else None.

Definition array_width (type : Z) : option nat :=
  if type =? MIO_TM_TYPE_ARRAY_UINT16 then Some 2%nat
  else if type =? MIO_TM_TYPE_ARRAY_UINT32 then Some 4%nat
  else if type =? MIO_TM_TYPE_ARRAY_UINT64 then Some 8%nat else None.

(** [mio_telemetry_alloc_value]: the result is the return code and *value, in
    zeroed memory. *)
Definition mio_telemetry_alloc_value (type : Z) (p : mplan) : Z * tm_value * mplan :=
  if type =? MIO_TM_TYPE_NONE then (0, TvNull, p) else
  match scalar_width type, array_width type with
  | Some _, _ => let '(ok, p) := plan_next p in
                 if ok then (0, TvScalar 0, p) else (- ENOMEM, TvNull, p)
  | None, Some _ => let '(ok, p) := plan_next p in
                    if ok then (0, TvArray 0 None, p) else (- ENOMEM, TvNull, p)
  | None, None => (- EINVAL, TvNull, p)
  end.

(** ** Values of the C types *)
Definition fits (w : nat) (x : Z) : Prop := 0 <= x < 256 ^ Z.of_nat w.

(** A value of type [type] that a store can hold, with at most [max w] - 1
    elements of width [w] in an array. *)
Definition value_ok (max : nat → Z) (type : Z) (v : tm_value) : Prop :=
  (∃ w x, scalar_width type = Some w ∧ v = TvScalar x ∧ fits w x) ∨
  (∃ w l, array_width type = Some w ∧ v = TvArray (Z.of_nat (length l)) (Some l) ∧
     Forall (fits w) l ∧ 0 < Z.of_nat (length l) < max w).

Lemma scalar_width_cases type w :
  scalar_width type = Some w →
  (w = 2%nat ∧ type = MIO_TM_TYPE_UINT16) ∨ (w = 4%nat ∧ type = MIO_TM_TYPE_UINT32) ∨
  (w = 8%nat ∧ (type = MIO_TM_TYPE_UINT64 ∨ type = MIO_TM_TYPE_TIMESPAN ∨ type = MIO_TM_TYPE_TIMEPOINT)).
Proof.
  unfold scalar_width. repeat case_match; intros; simplify_eq; rewrite ?orb_true_iff, ?Z.eqb_eq in *;
    naive_solver.
Qed.

Lemma array_width_cases type w :
  array_width type = Some w →
  (w = 2%nat ∧ type = MIO_TM_TYPE_ARRAY_UINT16) ∨ (w = 4%nat ∧ type = MIO_TM_TYPE_ARRAY_UINT32) ∨
  (w = 8%nat ∧ type = MIO_TM_TYPE_ARRAY_UINT64).
Proof.
  unfold array_width. repeat case_match; intros; simplify_eq; rewrite ?Z.eqb_eq in *; naive_solver.
Qed.

Lemma scalar_width_in type w : scalar_width type = Some w → w ∈ [2; 4; 8]%nat.
Proof. intros Hw. apply scalar_width_cases in Hw. set_solver. Qed.

Lemma array_width_in type w : array_width type = Some w → w ∈ [2; 4; 8]%nat.
Proof. intros Hw. apply array_width_cases in Hw. set_solver. Qed.

Lemma array_not_scalar type w : array_width type = Some w → scalar_width type = None.
Proof. intros Hw. apply array_width_cases in Hw as [[_ ->]|[[_ ->]|[_ ->]]]; done. Qed.

Lemma type_range max type v : value_ok max type v → MIO_TM_TYPE_INVALID < type < MIO_TM_TYPE_NR.
Proof.
  unfold MIO_TM_TYPE_INVALID, MIO_TM_TYPE_NR.
  intros [(w & x & Hw & _)|(w & l & Hw & _)].
  - apply scalar_width_cases in Hw as [[_ ->]|[[_ ->]|[_ [->|[->| ->]]]]]; done.
  - apply array_width_cases in Hw as [[_ ->]|[[_ ->]|[_ ->]]]; done.
Qed.

(** ** The interface of a store

    [encode] gives the return code and *buf with its length; [decode] the return
    code and *rec, of which the argument is the old contents.  The law is the
    contract the telemetry functions rely on: a record the store accepts is
    encoded without an error and decoded to itself. *)
Class TelemetryStore := {
  ts_encode : mio_telemetry_rec → mplan → outcome (Z * option (list Z) * mplan);
  ts_decode : list Z → list Z → mio_telemetry_rec → mplan → outcome (Z * mio_telemetry_rec * mplan);
  ts_accepts : mio_telemetry_rec → Prop;
  ts_roundtrip : ∀ rec head old,
    ts_accepts rec → (length head <= 63)%nat →
    ∃ buf, ts_encode rec [] = Done (0, Some buf, []) ∧
      ts_decode buf head old [] =
        Done (0, MkRec (Some head) (mtr_prefix rec) (mtr_topic rec) (mtr_type rec) (mtr_value rec), [])
}.

(** ** Writing a record

    A writer is the buffer with the position of the cursor in it. *)
Definition rec_add (bytes : list Z) (rec : list Z * nat) : outcome (list Z * nat) :=
  buf ← buf_put rec.1 rec.2 bytes; Done (buf, (rec.2 + length bytes)%nat).

(** A writer with [out] written and [k] bytes left. *)
Definition writer (out : list Z) (k : nat) : list Z * nat := (out ++ replicate k 0, length out).

Lemma rec_add_writer out k bytes :
  rec_add bytes (writer out k) =
    if decide (length bytes <= k)%nat then Done (writer (out ++ bytes) (k - length bytes))
    else Fault OutOfBounds.
Proof.
  unfold rec_add, writer. simpl. rewrite buf_put_end. case_decide; simpl; [|done].
  by rewrite length_app.
Qed.

(** [f] appends [bytes], or runs out of room. *)
Definition appends (f : list Z * nat → outcome (list Z * nat)) (bytes : list Z) : Prop :=
  ∀ out k, f (writer out k) = rec_add bytes (writer out k).

Lemma appends_nil : appends (λ rec, Done rec) [].
Proof.
  intros out k. rewrite rec_add_writer, decide_True by (simpl; lia).
  by rewrite app_nil_r, Nat.sub_0_r.
Qed.

Lemma appends_seq f g b1 b2 :
  appends f b1 → appends g b2 → appends (λ rec, rec ← f rec; g rec) (b1 ++ b2).
Proof.
  intros Hf Hg out k. rewrite Hf, !rec_add_writer, length_app.
  repeat case_decide; simpl; try (done || lia).
  - rewrite Hg, rec_add_writer, decide_True by lia. by rewrite app_assoc, Nat.sub_add_distr.
  - rewrite Hg, rec_add_writer, decide_False by lia. done.
Qed.

(** The first of several writes, followed by the rest of the function. *)
Lemma appends_chain {A} f b1 b2 (g : list Z * nat → outcome A) (h : list Z * nat → outcome A) out k :
  appends f b1 →
  (∀ out k, g (writer out k) = rec_add b2 (writer out k) ≫= h) →
  f (writer out k) ≫= g = rec_add (b1 ++ b2) (writer out k) ≫= h.
Proof.
  intros Hf Hg. rewrite Hf, !rec_add_writer, length_app.
  repeat case_decide; simpl; try (done || lia).
  - rewrite Hg, rec_add_writer, decide_True by lia. simpl. by rewrite app_assoc, Nat.sub_add_distr.
  - rewrite Hg, rec_add_writer, decide_False by lia. done.
Qed.
