(* ===== verification/TelemAddb.v ===== *)
(** * The ADDB telemetry store (src/driver_motr_addb.c)

    A record is encoded as little-endian bytes: a magic number, the prefix, the
    topic, the type and the value, padded to 64-bit words that are handed to
    Motr's ADDB.  Parsing starts from the text lines of Motr's dump tool. *)

From S2P Require Import Prelude Bytes HintMap CStr Telem.
Open Scope Z_scope.

Definition motr_addb_magic : Z := 8238.  (* 0x202e *)
Definition MOTR_ADDB_NO_PREFIX_SIGN : Z := 0.
Definition MOTR_ADDB_PREFIX_SIGN : Z := 1.
Definition MIO_MOTR_ADDB_MAX_PAYLOAD : Z := 120.

(** [motr_addb_rec_value_len]. *)
Definition motr_addb_rec_value_len (type : Z) (value : tm_value) : outcome Z :=
  match scalar_width type with
  | Some w => Done (Z.of_nat w)
  | None =>
      match array_width type with
      | Some w => '(nr, _) ← value_array value; Done (s32 (nr * Z.of_nat w))
      | None => Done (- EINVAL)
      end
  end.

(** [motr_addb_rec_len]; a NULL topic fails the assertion. *)
Definition motr_addb_rec_len (prefix topic : option (list Z)) (type : Z) (value : tm_value)
  : outcome Z :=
  let prefix_len :=
    match prefix with Some s => strnlen s MIO_MOTR_ADDB_MAX_PAYLOAD | None => 0 end in
  match topic with
  | None => Fault AssertFail
  | Some topic =>
      let topic_len := strnlen topic MIO_MOTR_ADDB_MAX_PAYLOAD in
      val_len ← motr_addb_rec_value_len type value;
      if val_len <? 0 then Done val_len
      else Done (2 + prefix_len + 2 + topic_len + 1 + val_len + 1)
  end.

(** The most elements of an array of width [w], plus one. *)
Definition addb_max_elms (w : nat) : Z := MIO_MOTR_ADDB_MAX_PAYLOAD / Z.of_nat w.

Section Addb.
Context `{HostOrder}.

(** ** Writing *)
Definition motr_addb_rec_add_u8 (rec : list Z * nat) (val : Z) : outcome (list Z * nat) :=
  rec_add (native 1 (u8 val)) rec.
Definition motr_addb_rec_add_u16 (rec : list Z * nat) (val : Z) : outcome (list Z * nat) :=
  rec_add (native 2 (mio_byteorder_cpu_to_le16 val)) rec.
Definition motr_addb_rec_add_u32 (rec : list Z * nat) (val : Z) : outcome (list Z * nat) :=
  rec_add (native 4 (mio_byteorder_cpu_to_le32 val)) rec.
Definition motr_addb_rec_add_u64 (rec : list Z * nat) (val : Z) : outcome (list Z * nat) :=
  rec_add (native 8 (mio_byteorder_cpu_to_le64 val)) rec.

(** An integer of [w] bytes by one of the three functions. *)
Definition rec_add_int (w : nat) (rec : list Z * nat) (val : Z) : outcome (list Z * nat) :=
  match w with
  | 2%nat => motr_addb_rec_add_u16 rec val
  | 4%nat => motr_addb_rec_add_u32 rec val
  | _ => motr_addb_rec_add_u64 rec val
  end.

Fixpoint add_array_loop (w : nat) (elms : option (list Z)) (i n : nat) (rec : list Z * nat)
  : outcome (list Z * nat) :=
  match n with
  | O => Done rec
  | S n' =>
      x ← elm_get elms i;
      rec ← rec_add_int w rec x;
      add_array_loop w elms (S i) n' rec
  end.

Definition motr_addb_rec_add_array (rec : list Z * nat) (type : Z) (value : tm_value)
  : outcome (Z * (list Z * nat)) :=
  '(nr_elms, elms) ← value_array value;
  match array_width type with
  | None => Done (- EINVAL, rec)
  | Some w =>
      let max_nr_elms := addb_max_elms w in
      if (nr_elms <=? 0) || (max_nr_elms <=? nr_elms) then Done (- EINVAL, rec) else
      rec ← motr_addb_rec_add_u8 rec nr_elms;
      rec ← add_array_loop w elms 0 (Z.to_nat nr_elms) rec;
      Done (0, rec)
  end.

Definition motr_addb_rec_add_string (rec : list Z * nat) (string : list Z) : outcome (list Z * nat) :=
  let str_len := u8 (strnlen string MIO_MOTR_ADDB_MAX_PAYLOAD) in
  rec ← motr_addb_rec_add_u8 rec str_len;
  rec_add (take (Z.to_nat str_len) string) rec.

Definition motr_addb_rec_add_value (rec : list Z * nat) (type : Z) (value : tm_value)
  : outcome (Z * (list Z * nat)) :=
  _ ← c_assert ((MIO_TM_TYPE_INVALID <? type) && (type <? MIO_TM_TYPE_NR));
  match scalar_width type with
  | Some w => x ← value_scalar value; rec ← rec_add_int w rec x; Done (0, rec)
  | None =>
      match array_width type with
      | Some _ => motr_addb_rec_add_array rec type value
      | None =>
          if type =? MIO_TM_TYPE_NONE then Done (0, rec)
          else x ← value_scalar value; rec ← motr_addb_rec_add_u64 rec x; Done (0, rec)
      end
  end.

(** [mio_motr_addb_encode]: the return code and *buf. *)
Definition mio_motr_addb_encode (r : mio_telemetry_rec) (p : mplan)
  : outcome (Z * option (list Z) * mplan) :=
  let type := mtr_type r in
  if (type <=? MIO_TM_TYPE_INVALID) || (MIO_TM_TYPE_NR <=? type) then Done (- EINVAL, None, p) else
  rec_len ← motr_addb_rec_len (mtr_prefix r) (mtr_topic r) type (mtr_value r);
  if rec_len <? 0 then Done (rec_len, None, p) else
  let rec_len := (rec_len + 7) / 8 * 8 in
  let '(ok, p) := plan_next p in
  if negb ok then Done (- ENOMEM, None, p) else
  let cursor := (replicate (Z.to_nat rec_len) 0, O) in
  cursor ← motr_addb_rec_add_u16 cursor motr_addb_magic;
  cursor ← match mtr_prefix r with
           | Some prefix =>
               cursor ← motr_addb_rec_add_u8 cursor MOTR_ADDB_PREFIX_SIGN;
               motr_addb_rec_add_string cursor prefix
           | None => motr_addb_rec_add_u8 cursor MOTR_ADDB_NO_PREFIX_SIGN
           end;
  cursor ← match mtr_topic r with
           | Some topic => motr_addb_rec_add_string cursor topic
           | None => Fault NullDeref
           end;
  cursor ← motr_addb_rec_add_u8 cursor type;
  '(rc, cursor) ← motr_addb_rec_add_value cursor type (mtr_value r);
  if rc <? 0 then Done (rc, None, p) else
  (* the padding: the rest of the buffer is set to zero *)
  buf ← buf_put cursor.1 cursor.2 (replicate (Z.to_nat (rec_len - Z.of_nat cursor.2)) 0);
  Done (rc, Some buf, p).

(** ** Reading *)
Definition rec_get (n : nat) (buf : list Z) (rec : nat) : outcome (list Z * nat) :=
  bytes ← buf_get buf rec n; Done (bytes, (rec + n)%nat).

Definition motr_addb_rec_get_u8 (buf : list Z) (rec : nat) : outcome (Z * nat) :=
  '(l, rec) ← rec_get 1 buf rec; Done (of_native l, rec).
Definition motr_addb_rec_get_u16 (buf : list Z) (rec : nat) : outcome (Z * nat) :=
  '(l, rec) ← rec_get 2 buf rec; Done (mio_byteorder_le16_to_cpu (of_native l), rec).
Definition motr_addb_rec_get_u32 (buf : list Z) (rec : nat) : outcome (Z * nat) :=
  '(l, rec) ← rec_get 4 buf rec; Done (mio_byteorder_le32_to_cpu (of_native l), rec).
Definition motr_addb_rec_get_u64 (buf : list Z) (rec : nat) : outcome (Z * nat) :=
  '(l, rec) ← rec_get 8 buf rec; Done (mio_byteorder_le64_to_cpu (of_native l), rec).

Definition rec_get_int (w : nat) (buf : list Z) (rec : nat) : outcome (Z * nat) :=
  match w with
  | 2%nat => motr_addb_rec_get_u16 buf rec
  | 4%nat => motr_addb_rec_get_u32 buf rec
  | _ => motr_addb_rec_get_u64 buf rec
  end.

(** The loop that fills the new array; the elements read so far are kept in
    order. *)
Fixpoint get_array_loop (w : nat) (buf : list Z) (rec : nat) (n : nat) (acc : list Z)
  : outcome (list Z * nat) :=
  match n with
  | O => Done (acc, rec)
  | S n' => '(x, rec) ← rec_get_int w buf rec; get_array_loop w buf rec n' (acc ++ [x])
  end.

(** [motr_addb_rec_get_array]; [old] is the old contents of *array. *)
Definition motr_addb_rec_get_array (buf : list Z) (rec : nat) (type : Z) (old : tm_value) (p : mplan)
  : outcome (Z * tm_value * nat * mplan) :=
  '(nr_elms, rec) ← motr_addb_rec_get_u8 buf rec;
  match array_width type with
  | None => Done (- EINVAL, old, rec, p)
  | Some w =>
      if addb_max_elms w <=? nr_elms then Done (- EINVAL, old, rec, p) else
      let '(ok, p) := plan_next p in
      if negb ok then Done (- ENOMEM, old, rec, p) else
      if u8 (nr_elms * Z.of_nat w) <? nr_elms * Z.of_nat w then Fault OutOfBounds else
      '(l, rec) ← get_array_loop w buf rec (Z.to_nat nr_elms) [];
      Done (0, TvArray nr_elms (Some l), rec, p)
  end.

(** [motr_addb_rec_get_string]. *)
Definition motr_addb_rec_get_string (buf : list Z) (rec : nat) (p : mplan)
  : outcome (option (list Z) * nat * mplan) :=
  '(len, rec) ← motr_addb_rec_get_u8 buf rec;
  if (len =? 0) || (MIO_MOTR_ADDB_MAX_PAYLOAD <=? len) then Done (None, rec, p) else
  let '(ok, p) := plan_next p in
  if negb ok then Done (None, rec, p) else
  '(l, rec) ← rec_get (Z.to_nat len) buf rec;
  Done (Some l, rec, p).

(** [motr_addb_rec_get_value]; the result of [motr_addb_rec_get_array] is ignored. *)
Definition motr_addb_rec_get_value (buf : list Z) (rec : nat) (type : Z) (p : mplan)
  : outcome (Z * tm_value * nat * mplan) :=
  if type =? MIO_TM_TYPE_NONE then Done (0, TvNull, rec, p) else
  let '(rc, value, p) := mio_telemetry_alloc_value type p in
  if rc <? 0 then Done (rc, value, rec, p) else
  match scalar_width type with
  | Some w => '(x, rec) ← rec_get_int w buf rec; Done (0, TvScalar x, rec, p)
  | None =>
      match array_width type with
      | Some _ =>
          '(_, value, rec, p) ← motr_addb_rec_get_array buf rec type value p;
          Done (0, value, rec, p)
      | None => Done (- EINVAL, value, rec, p)
      end
  end.

(** [mio_motr_addb_decode] for arguments that are not NULL; [rec] is the old
    contents of *rec. *)
Definition mio_motr_addb_decode (buf head : list Z) (rec : mio_telemetry_rec) (p : mplan)
  : outcome (Z * mio_telemetry_rec * mplan) :=
  let '(ok, p) := plan_next p in
  let set_time t := MkRec t (mtr_prefix rec) (mtr_topic rec) (mtr_type rec) (mtr_value rec) in
  if negb ok then Done (- ENOMEM, set_time None, p) else
  let time_str := take (Z.to_nat (strnlen head MIO_MOTR_ADDB_MAX_PAYLOAD)) head in
  '(magic, cursor) ← motr_addb_rec_get_u16 buf 0;
  if negb (magic =? motr_addb_magic) then Done (- EINVAL, set_time (Some time_str), p) else
  '(has_prefix, cursor) ← motr_addb_rec_get_u8 buf cursor;
  '(prefix, cursor, p) ←
    (if has_prefix =? MOTR_ADDB_PREFIX_SIGN then motr_addb_rec_get_string buf cursor p
     else Done (None, cursor, p));
  '(topic, cursor, p) ← motr_addb_rec_get_string buf cursor p;
  '(type, cursor) ← motr_addb_rec_get_u8 buf cursor;
  '(rc, value, cursor, p) ← motr_addb_rec_get_value buf cursor type p;
  if rc <? 0 then Done (rc, set_time (Some time_str), p)
  else Done (rc, MkRec (Some time_str) prefix topic type value, p).
End Addb.

(** ** The encoded record as one list of bytes *)
Definition string_bytes (s : list Z) : list Z := Z.of_nat (length s) :: s.

Definition value_bytes (type : Z) (v : tm_value) : list Z :=
  match v with
  | TvScalar x => le_bytes (default 8%nat (scalar_width type)) x
  | TvArray nr (Some l) => nr :: (l ≫= le_bytes (default 8%nat (array_width type)))
  | _ => []
  end.

Definition prefix_bytes (prefix : option (list Z)) : list Z :=
  match prefix with
  | Some p => MOTR_ADDB_PREFIX_SIGN :: string_bytes p
  | None => [MOTR_ADDB_NO_PREFIX_SIGN]
  end.

Definition addb_bytes (prefix : option (list Z)) (topic : list Z) (type : Z) (v : tm_value) : list Z :=
  le_bytes 2 motr_addb_magic ++ prefix_bytes prefix ++ string_bytes topic ++ [type] ++ value_bytes type v.

Section AddbLemmas.
Context `{HostOrder}.

Lemma length_le_concat w l : length (l ≫= le_bytes w) = (w * length l)%nat.
Proof.
  induction l as [|x l IH]; [simpl; lia|]. rewrite bind_cons, length_app, length_le_bytes, IH.
  simpl. lia.
Qed.

Lemma native_1 x : 0 <= x < 256 → native 1 x = [x].
Proof.
  intros Hx. unfold native. simpl. rewrite Z.mod_small by lia. by destruct host_big.
Qed.

Lemma appends_u8 x : 0 <= x < 256 → appends (λ rec, motr_addb_rec_add_u8 rec x) [x].
Proof.
  intros Hx out k. unfold motr_addb_rec_add_u8. by rewrite u8_small, native_1 by lia.
Qed.

Lemma appends_int w x : w ∈ [2; 4; 8]%nat → appends (λ rec, rec_add_int w rec x) (le_bytes w x).
Proof.
  intros Hw out k. unfold rec_add_int, motr_addb_rec_add_u16, motr_addb_rec_add_u32, motr_addb_rec_add_u64,
    mio_byteorder_cpu_to_le16, mio_byteorder_cpu_to_le32, mio_byteorder_cpu_to_le64.
  rewrite !native_cpu_to_le.
  apply elem_of_cons in Hw as [->|Hw]; [done|]. apply elem_of_cons in Hw as [->|Hw]; [done|].
  by apply list_elem_of_singleton in Hw as ->.
Qed.

Lemma appends_string s :
  Z.of_nat (length s) <= MIO_MOTR_ADDB_MAX_PAYLOAD →
  appends (λ rec, motr_addb_rec_add_string rec s) (string_bytes s).
Proof.
  unfold MIO_MOTR_ADDB_MAX_PAYLOAD. intros Hs.
  unfold motr_addb_rec_add_string, strnlen, MIO_MOTR_ADDB_MAX_PAYLOAD.
  rewrite Z.min_l, u8_small by lia. rewrite Nat2Z.id, take_ge by lia.
  change (string_bytes s) with ([Z.of_nat (length s)] ++ s).
  apply (appends_seq (λ rec, motr_addb_rec_add_u8 rec (Z.of_nat (length s))) (rec_add s));
    [apply appends_u8; lia|by intros out k].
Qed.

Lemma appends_array_loop w l i n :
  w ∈ [2; 4; 8]%nat → (i + n = length l)%nat →
  appends (add_array_loop w (Some l) i n) (drop i l ≫= le_bytes w).
Proof.
  intros Hw. revert i; induction n as [|n IH]; intros i Hi.
  - rewrite drop_ge by lia. apply appends_nil.
  - destruct (lookup_lt_is_Some_2 l i) as [x Hx]; [lia|]. rewrite (drop_S _ _ _ Hx), bind_cons.
    intros out k. cbn [add_array_loop elm_get]. rewrite Hx. cbn [mbind outcome_bind].
    apply (appends_seq (λ rec, rec_add_int w rec x) (add_array_loop w (Some l) (S i) n));
      [by apply appends_int|apply IH; lia].
Qed.

Lemma addb_max_elms_lt w : w ∈ [2; 4; 8]%nat → addb_max_elms w * Z.of_nat w <= 120 ∧ addb_max_elms w <= 60.
Proof.
  intros Hw. apply elem_of_cons in Hw as [->|Hw]; [vm_compute; intuition congruence|].
  apply elem_of_cons in Hw as [->|Hw]; [vm_compute; intuition congruence|].
  apply list_elem_of_singleton in Hw as ->. vm_compute; intuition congruence.
Qed.

(** Adding a value: the return code is 0. *)
Lemma add_value_spec type v out k :
  value_ok addb_max_elms type v →
  motr_addb_rec_add_value (writer out k) type v =
    rec ← rec_add (value_bytes type v) (writer out k); Done (0, rec).
Proof.
  intros Hok. pose proof (type_range _ _ _ Hok) as Hr. unfold motr_addb_rec_add_value.
  replace (_ && _) with true by lia. cbn [c_assert mbind outcome_bind].
  destruct Hok as [(w & x & Hw & -> & Hx)|(w & l & Hw & -> & Hl & Hn)].
  - rewrite Hw. simpl. rewrite Hw. simpl.
    by rewrite (appends_int w x (scalar_width_in _ _ Hw) out k).
  - rewrite (array_not_scalar _ _ Hw), Hw. unfold motr_addb_rec_add_array. simpl. rewrite Hw. simpl.
    pose proof (addb_max_elms_lt w (array_width_in _ _ Hw)) as [_ Hmax].
    rewrite (proj2 (Z.leb_gt _ _)), (proj2 (Z.leb_gt _ _)) by lia. cbn [orb].
    rewrite Nat2Z.id.
    pose proof (appends_seq _ _ _ _ (appends_u8 (Z.of_nat (length l)) ltac:(lia))
      (appends_array_loop w l 0 (length l) (array_width_in _ _ Hw) eq_refl) out k) as Ha.
    simpl in Ha. rewrite drop_0 in Ha. rewrite <- Ha.
    destruct (motr_addb_rec_add_u8 _ _) as [rec|]; simpl; [|done].
    by destruct (add_array_loop _ _ _ _ rec).
Qed.

(** ** Encoding *)

(** A prefix and a topic that can be read back. *)
Definition addb_string_ok (s : list Z) : Prop :=
  0 < Z.of_nat (length s) < MIO_MOTR_ADDB_MAX_PAYLOAD.

Definition addb_rec_ok (r : mio_telemetry_rec) : Prop :=
  (∃ topic, mtr_topic r = Some topic ∧ addb_string_ok topic) ∧
  (∀ prefix, mtr_prefix r = Some prefix → addb_string_ok prefix) ∧
  value_ok addb_max_elms (mtr_type r) (mtr_value r).

(** The size of the buffer, and whether the record is one byte longer. *)
Definition addb_len (r : mio_telemetry_rec) : Z :=
  6 + Z.of_nat (length (default [] (mtr_prefix r))) + Z.of_nat (length (default [] (mtr_topic r))) +
  match mtr_value r with
  | TvArray nr _ => nr * Z.of_nat (default 8%nat (array_width (mtr_type r)))
  | _ => Z.of_nat (default 8%nat (scalar_width (mtr_type r)))
  end.

Definition addb_overruns (r : mio_telemetry_rec) : bool :=
  match mtr_prefix r, mtr_value r with
  | Some _, TvArray _ _ => addb_len r mod 8 =? 0
  | _, _ => false
  end.

Lemma addb_rec_len_spec r :
  addb_rec_ok r →
  motr_addb_rec_len (mtr_prefix r) (mtr_topic r) (mtr_type r) (mtr_value r) = Done (addb_len r) ∧
  0 <= addb_len r.
Proof.
  intros ((topic & Ht & Htok) & Hp & Hv). unfold motr_addb_rec_len, addb_len, strnlen.
  unfold addb_string_ok, MIO_MOTR_ADDB_MAX_PAYLOAD in *. rewrite Ht. simpl default.
  assert (Hpl : match mtr_prefix r with Some s => Z.min (Z.of_nat (length s)) 120 | None => 0 end =
    Z.of_nat (length (default [] (mtr_prefix r)))).
  { destruct (mtr_prefix r) as [p|]; [|done]. simpl. specialize (Hp p eq_refl). lia. }
  rewrite Hpl. rewrite Z.min_l by lia. unfold motr_addb_rec_value_len.
  destruct Hv as [(w & x & Hw & Hx & _)|(w & l & Hw & Hx & _ & Hn)].
  - rewrite Hw, Hx. simpl. rewrite (proj2 (Z.ltb_ge _ _)) by lia. split; [f_equal|]; lia.
  - rewrite (array_not_scalar _ _ Hw), Hw, Hx. simpl.
    pose proof (addb_max_elms_lt w (array_width_in _ _ Hw)) as [Hmax _].
    rewrite s32_small by nia. rewrite (proj2 (Z.ltb_ge _ _)) by lia. split; [f_equal|]; lia.
Qed.

Lemma length_addb_bytes r topic :
  addb_rec_ok r → mtr_topic r = Some topic →
  Z.of_nat (length (addb_bytes (mtr_prefix r) topic (mtr_type r) (mtr_value r))) =
    match mtr_prefix r, mtr_value r with
    | Some _, TvArray _ _ => addb_len r + 1
    | None, TvArray _ _ | Some _, _ => addb_len r
    | None, _ => addb_len r - 1
    end.
Proof.
  intros (_ & _ & Hv) Ht. unfold addb_bytes, addb_len. rewrite Ht. simpl default.
  rewrite !length_app, length_le_bytes. unfold prefix_bytes, string_bytes.
  destruct Hv as [(w & x & Hw & -> & _)|(w & l & Hw & -> & _)]; unfold value_bytes; rewrite Hw; simpl default.
  - rewrite length_le_bytes. destruct (mtr_prefix r); simpl; lia.
  - simpl length. rewrite length_le_concat. destruct (mtr_prefix r); simpl; lia.
Qed.

(** What encoding a record does: its bytes with padding, or an overrun. *)
Lemma addb_encode_spec r topic p p' :
  addb_rec_ok r → mtr_topic r = Some topic → plan_next p = (true, p') →
  let bytes := addb_bytes (mtr_prefix r) topic (mtr_type r) (mtr_value r) in
  let len := Z.to_nat ((addb_len r + 7) / 8 * 8) in
  mio_motr_addb_encode r p =
    if addb_overruns r then Fault OutOfBounds
    else Done (0, Some (bytes ++ replicate (len - length bytes) 0), p').
Proof.
  intros Hok Ht Hplan bytes len. destruct (addb_rec_len_spec r Hok) as [Hlen Hpos].
  pose proof (length_addb_bytes r topic Hok Ht) as Hbl. fold bytes in Hbl.
  destruct Hok as (Htok & Hpok & Hv). pose proof (type_range _ _ _ Hv) as Hr.
  unfold mio_motr_addb_encode. replace (_ || _) with false by lia.
  rewrite Hlen. cbn [mbind outcome_bind]. rewrite (proj2 (Z.ltb_ge _ _)) by lia.
  rewrite Hplan. cbn [negb]. fold len.
  change (replicate len 0, 0%nat) with (writer [] len).
  assert (Hhead : ∀ f, (
    cursor ← motr_addb_rec_add_u16 (writer [] len) motr_addb_magic;
    cursor ← match mtr_prefix r with
             | Some prefix =>
                 cursor ← motr_addb_rec_add_u8 cursor MOTR_ADDB_PREFIX_SIGN;
                 motr_addb_rec_add_string cursor prefix
             | None => motr_addb_rec_add_u8 cursor MOTR_ADDB_NO_PREFIX_SIGN
             end;
    cursor ← match mtr_topic r with
             | Some topic => motr_addb_rec_add_string cursor topic
             | None => Fault NullDeref
             end;
    cursor ← motr_addb_rec_add_u8 cursor (mtr_type r);
    '(rc, cursor) ← motr_addb_rec_add_value cursor (mtr_type r) (mtr_value r); f rc cursor) =
    (rec ← rec_add bytes (writer [] len); f 0 rec : outcome (Z * option (list Z) * mplan))).
  { intros f. unfold bytes, addb_bytes. rewrite Ht.
    destruct Htok as (topic' & Ht' & Htok). rewrite Ht in Ht'. injection Ht' as <-.
    apply (appends_chain (λ rec, motr_addb_rec_add_u16 rec motr_addb_magic));
      [apply (appends_int 2); set_solver|]. intros out1 k1.
    apply (appends_chain (λ cursor, match mtr_prefix r with
             | Some prefix => cursor ← motr_addb_rec_add_u8 cursor MOTR_ADDB_PREFIX_SIGN;
                 motr_addb_rec_add_string cursor prefix
             | None => motr_addb_rec_add_u8 cursor MOTR_ADDB_NO_PREFIX_SIGN
             end)).
    { unfold prefix_bytes. destruct (mtr_prefix r) as [pr|]; [|by apply appends_u8].
      change (MOTR_ADDB_PREFIX_SIGN :: string_bytes pr) with ([MOTR_ADDB_PREFIX_SIGN] ++ string_bytes pr).
      apply (appends_seq (λ rec, motr_addb_rec_add_u8 rec MOTR_ADDB_PREFIX_SIGN)
        (λ rec, motr_addb_rec_add_string rec pr)); [by apply appends_u8|].
      apply appends_string. specialize (Hpok pr eq_refl). unfold addb_string_ok in Hpok. lia. }
    intros out2 k2.
    apply (appends_chain (λ cursor, motr_addb_rec_add_string cursor topic)).
    { apply appends_string. unfold addb_string_ok in Htok. lia. }
    intros out3 k3.
    apply (appends_chain (λ cursor, motr_addb_rec_add_u8 cursor (mtr_type r))).
    { apply appends_u8. unfold MIO_TM_TYPE_INVALID, MIO_TM_TYPE_NR in Hr. lia. }
    intros out4 k4. rewrite add_value_spec by done. by destruct (rec_add _ (writer out4 k4)). }
  rewrite Hhead. clear Hhead. rewrite rec_add_writer.
  assert (Hround : addb_len r <= (addb_len r + 7) / 8 * 8 < addb_len r + 8).
  { pose proof (div_mod_eq (addb_len r + 7) 8). pose proof (mod_bound (addb_len r + 7) 8). lia. }
  assert (Hfit : addb_overruns r = true ↔ (len < length bytes)%nat).
  { unfold addb_overruns, len.
    pose proof (div_mod_eq (addb_len r + 7) 8). pose proof (mod_bound (addb_len r + 7) 8).
    pose proof (div_mod_eq (addb_len r) 8). pose proof (mod_bound (addb_len r) 8).
    destruct (mtr_prefix r), (mtr_value r); try (split; [done|lia]).
    rewrite Z.eqb_eq. split; lia. }
  destruct (addb_overruns r).
  - rewrite decide_False by (assert (len < length bytes)%nat by (by apply Hfit); lia). done.
  - assert (Hle : (length bytes <= len)%nat).
    { destruct (decide (length bytes <= len)%nat); [done|]. assert (false = true) by (apply Hfit; lia). done. }
    rewrite decide_True by done. cbn [mbind outcome_bind Z.ltb Z.compare app]. unfold writer.
    cbn [fst snd app]. replace (Z.to_nat _) with (len - length bytes)%nat.
    2:{ unfold len. lia. }
    rewrite buf_put_end, length_replicate, decide_True by lia. simpl.
    by rewrite Nat.sub_diag, app_nil_r.
Qed.

(** ** Decoding *)

Lemma rec_get_app pre bytes post n pos :
  pos = length pre → n = length bytes →
  rec_get n (pre ++ bytes ++ post) pos = Done (bytes, length (pre ++ bytes)).
Proof.
  intros -> ->. unfold rec_get. rewrite buf_get_app. simpl. by rewrite length_app.
Qed.

Lemma of_native_le_bytes w x : fits w x → cpu_to_le w (of_native (le_bytes w x)) = x.
Proof.
  intros Hx. rewrite of_native_le by (apply length_le_bytes || apply le_bytes_byte).
  by apply le_bytes_small.
Qed.

Lemma get_int_app w x pre post pos :
  w ∈ [2; 4; 8]%nat → fits w x → pos = length pre →
  rec_get_int w (pre ++ le_bytes w x ++ post) pos = Done (x, length (pre ++ le_bytes w x)).
Proof.
  intros Hw Hx ->.
  unfold rec_get_int, motr_addb_rec_get_u16, motr_addb_rec_get_u32, motr_addb_rec_get_u64,
    mio_byteorder_le16_to_cpu, mio_byteorder_le32_to_cpu, mio_byteorder_le64_to_cpu.
  apply elem_of_cons in Hw as [->|Hw]; [|apply elem_of_cons in Hw as [->|Hw];
    [|apply list_elem_of_singleton in Hw as ->]];
    (rewrite rec_get_app by (done || by rewrite length_le_bytes)); cbn [mbind outcome_bind];
    by rewrite of_native_le_bytes.
Qed.

Lemma get_u8_app x pre post pos :
  pos = length pre → motr_addb_rec_get_u8 (pre ++ x :: post) pos = Done (x, length (pre ++ [x])).
Proof.
  intros ->. unfold motr_addb_rec_get_u8.
  change (x :: post) with ([x] ++ post). rewrite rec_get_app by done. simpl.
  do 2 f_equal. unfold of_native. simpl. destruct host_big; lia.
Qed.

Lemma get_string_app s pre post pos :
  addb_string_ok s → pos = length pre →
  motr_addb_rec_get_string (pre ++ string_bytes s ++ post) pos [] =
    Done (Some s, length (pre ++ string_bytes s), []).
Proof.
  unfold addb_string_ok, MIO_MOTR_ADDB_MAX_PAYLOAD. intros Hs Hpos.
  unfold motr_addb_rec_get_string, string_bytes. cbn [app].
  rewrite get_u8_app by done. cbn [mbind outcome_bind]. unfold MIO_MOTR_ADDB_MAX_PAYLOAD.
  rewrite (proj2 (Z.eqb_neq _ _)), (proj2 (Z.leb_gt _ _)) by lia. cbn [orb plan_next negb].
  rewrite Nat2Z.id.
  change (Z.of_nat (length s) :: s ++ post) with ([Z.of_nat (length s)] ++ s ++ post).
  rewrite app_assoc, rec_get_app by done. cbn [mbind outcome_bind].
  do 3 f_equal. rewrite <- app_assoc. done.
Qed.

Lemma get_array_loop_app w l pre post acc pos n :
  w ∈ [2; 4; 8]%nat → Forall (fits w) l → pos = length pre → n = length l →
  get_array_loop w (pre ++ (l ≫= le_bytes w) ++ post) pos n acc =
    Done (acc ++ l, length (pre ++ (l ≫= le_bytes w))).
Proof.
  intros Hw Hl -> ->. revert pre acc. induction Hl as [|x l Hx Hl IH]; intros pre acc.
  - cbn [get_array_loop length]. cbn. by rewrite !app_nil_r.
  - cbn [get_array_loop length]. rewrite bind_cons, <- app_assoc, get_int_app by done.
    cbn [mbind outcome_bind]. rewrite app_assoc, IH, <- !app_assoc. done.
Qed.

Lemma get_value_app type v pre post pos :
  value_ok addb_max_elms type v → pos = length pre →
  motr_addb_rec_get_value (pre ++ value_bytes type v ++ post) pos type [] =
    Done (0, v, length (pre ++ value_bytes type v), []).
Proof.
  intros Hv Hpos. unfold motr_addb_rec_get_value, mio_telemetry_alloc_value.
  destruct Hv as [(w & x & Hw & -> & Hx)|(w & l & Hw & -> & Hl & Hn)].
  - assert (Hne : (type =? MIO_TM_TYPE_NONE) = false /\ array_width type = None).
    { apply scalar_width_cases in Hw as [[_ ->]|[[_ ->]|[_ [->|[->| ->]]]]]; done. }
    destruct Hne as [-> _]. rewrite Hw. cbn [plan_next Z.ltb Z.compare].
    unfold value_bytes. rewrite Hw. simpl default.
    by rewrite get_int_app by (done || by eapply scalar_width_in).
  - assert (Hne : (type =? MIO_TM_TYPE_NONE) = false).
    { apply array_width_cases in Hw as [[_ ->]|[[_ ->]|[_ ->]]]; done. }
    rewrite Hne, (array_not_scalar _ _ Hw), Hw. cbn [plan_next Z.ltb Z.compare].
    unfold motr_addb_rec_get_array, value_bytes. rewrite Hw. simpl default. cbn [app].
    pose proof (addb_max_elms_lt w (array_width_in _ _ Hw)) as [Hm1 Hm2].
    rewrite get_u8_app by done. cbn [mbind outcome_bind].
    rewrite (proj2 (Z.leb_gt _ _)) by lia. cbn [plan_next negb].
    rewrite u8_small by nia. rewrite Z.ltb_irrefl, Nat2Z.id.
    change (Z.of_nat (length l) :: (l ≫= le_bytes w) ++ post) with
      ([Z.of_nat (length l)] ++ (l ≫= le_bytes w) ++ post).
    rewrite app_assoc, get_array_loop_app by (done || by eapply array_width_in).
    cbn [mbind outcome_bind]. rewrite <- app_assoc. done.
Qed.

(** The result of decoding when malloc() does not fail. *)
Lemma addb_decode_spec r topic head old post :
  addb_rec_ok r → mtr_topic r = Some topic → Z.of_nat (length head) <= MIO_MOTR_ADDB_MAX_PAYLOAD →
  mio_motr_addb_decode (addb_bytes (mtr_prefix r) topic (mtr_type r) (mtr_value r) ++ post) head old
    [] =
    Done (0, MkRec (Some head) (mtr_prefix r) (mtr_topic r) (mtr_type r) (mtr_value r), []).
Proof.
  intros ((topic' & Ht' & Htok) & Hpok & Hv) Ht Hhead. rewrite Ht in Ht'. injection Ht' as <-.
  unfold mio_motr_addb_decode, addb_bytes. cbn [plan_next replicate negb].
  unfold strnlen. rewrite Z.min_l, Nat2Z.id, take_ge by lia.
  assert (Hmagic : motr_addb_rec_get_u16 ((le_bytes 2 motr_addb_magic ++
      prefix_bytes (mtr_prefix r) ++ string_bytes topic ++ [mtr_type r] ++
      value_bytes (mtr_type r) (mtr_value r)) ++ post) 0 = Done (motr_addb_magic, 2%nat)).
  { rewrite <- !app_assoc. refine (get_int_app 2 motr_addb_magic [] _ 0 _ _ _); [set_solver|done|done]. }
  rewrite Hmagic. cbn [mbind outcome_bind]. rewrite Z.eqb_refl. cbn [negb].
  pose proof (type_range _ _ _ Hv) as Hr.
  destruct (mtr_prefix r) as [pr|]; unfold prefix_bytes.
  - rewrite <- !app_assoc. cbn [app]. rewrite <- ?app_assoc. cbn [app].
    rewrite get_u8_app by done. cbn [mbind outcome_bind]. rewrite Z.eqb_refl.
    rewrite (app_cons_assoc (le_bytes 2 motr_addb_magic)).
    rewrite get_string_app by (done || by apply Hpok). cbn [mbind outcome_bind].
    rewrite app_assoc, get_string_app by done. cbn [mbind outcome_bind].
    rewrite app_assoc, get_u8_app by done. cbn [mbind outcome_bind].
    rewrite (app_cons_assoc _ (mtr_type r)), get_value_app by done. cbn [mbind outcome_bind Z.ltb Z.compare].
    by rewrite Ht.
  - rewrite <- !app_assoc. cbn [app]. rewrite <- ?app_assoc. cbn [app].
    rewrite get_u8_app by done. cbn [mbind outcome_bind].
    change (MOTR_ADDB_NO_PREFIX_SIGN =? MOTR_ADDB_PREFIX_SIGN) with false. cbn [mbind outcome_bind].
    rewrite (app_cons_assoc (le_bytes 2 motr_addb_magic)).
    rewrite get_string_app by done. cbn [mbind outcome_bind].
    rewrite app_assoc, get_u8_app by done. cbn [mbind outcome_bind].
    rewrite (app_cons_assoc _ (mtr_type r)), get_value_app by done. cbn [mbind outcome_bind Z.ltb Z.compare].
    by rewrite Ht.
Qed.

Lemma addb_roundtrip r head old :
  addb_rec_ok r → addb_overruns r = false → Z.of_nat (length head) <= MIO_MOTR_ADDB_MAX_PAYLOAD →
  ∃ buf, mio_motr_addb_encode r [] = Done (0, Some buf, []) ∧
    Z.of_nat (length buf) = (addb_len r + 7) / 8 * 8 ∧
    mio_motr_addb_decode buf head old [] =
      Done (0, MkRec (Some head) (mtr_prefix r) (mtr_topic r) (mtr_type r) (mtr_value r), []).
Proof.
  intros Hok Hov Hhead. pose proof Hok as ((topic & Ht & _) & _).
  eexists. rewrite (addb_encode_spec r topic [] []), Hov by done. split; [done|].
  split; [|by apply addb_decode_spec].
  pose proof (length_addb_bytes r topic Hok Ht) as Hbl. destruct (addb_rec_len_spec r Hok) as [_ Hpos].
  rewrite length_app, length_replicate.
  pose proof (div_mod_eq (addb_len r + 7) 8). pose proof (mod_bound (addb_len r + 7) 8).
  pose proof (div_mod_eq (addb_len r) 8). pose proof (mod_bound (addb_len r) 8).
  unfold addb_overruns in Hov.
  destruct (mtr_prefix r), (mtr_value r); try lia.
Qed.
End AddbLemmas.

(** The ADDB store keeps the contract of a telemetry store. *)
#[export, refine] Instance addb_telemetry_store `{HostOrder} : TelemetryStore := {
  ts_encode := mio_motr_addb_encode;
  ts_decode := mio_motr_addb_decode;
  ts_accepts r := addb_rec_ok r ∧ addb_overruns r = false
}.
Proof.
  intros r head old [Hok Hov] Hhead.
  destruct (addb_roundtrip r head old Hok Hov) as (buf & ? & _ & ?);
    [unfold MIO_MOTR_ADDB_MAX_PAYLOAD; lia|]. by exists buf.
Defined.

(** Encoding and decoding of ADDB records.  A record with non-empty texts
    shorter than the payload limit and a value of the C type (an array: at
    least one element and fewer than 120 bytes allow) is encoded into whole
    64-bit words, and decoding those words gives the record back with the time
    string of the dump.  The one exception is a record with a prefix and an
    array whose computed length is already a multiple of eight: the length is
    computed one byte short, and the encoder writes behind its buffer. *)
Theorem mio_motr_addb_roundtrip (host : HostOrder) (r : mio_telemetry_rec) (head : list Z)
    (old : mio_telemetry_rec)
  (Hok : addb_rec_ok r) (Hhead : Z.of_nat (length head) <= MIO_MOTR_ADDB_MAX_PAYLOAD) :
  if addb_overruns r then mio_motr_addb_encode r [] = Fault OutOfBounds
  else ∃ buf, mio_motr_addb_encode r [] = Done (0, Some buf, []) ∧
    Z.of_nat (length buf) mod 8 = 0 ∧
    mio_motr_addb_decode buf head old [] =
      Done (0, MkRec (Some head) (mtr_prefix r) (mtr_topic r) (mtr_type r) (mtr_value r), []).
Proof.
  destruct (addb_overruns r) eqn:Hov.
  - pose proof Hok as ((topic & Ht & _) & _). by rewrite (addb_encode_spec r topic [] []), Hov by done.
  - destruct (addb_roundtrip r head old Hok Hov Hhead) as (buf & He & Hl & Hd).
    exists buf. split; [exact He|]. split; [|exact Hd]. rewrite Hl. by apply Z.mod_mul.
Qed.

(** A record with a prefix and an array of two 32-bit integers: 22 bytes fit
    into three words; with a longer topic the 25th byte does not. *)
Definition ex_addb_rec (topic : list Z) : mio_telemetry_rec :=
  MkRec None (Some [112; 114]) (Some topic) MIO_TM_TYPE_ARRAY_UINT32 (TvArray 2 (Some [7; 70000])).
Definition ex_old_rec : mio_telemetry_rec := MkRec None None None 0 TvNull.

Lemma ex_addb_rec_ok topic : addb_string_ok topic → addb_rec_ok (ex_addb_rec topic).
Proof.
  intros Ht. split; [by exists topic|]. split.
  - intros pr [= <-]. split; reflexivity.
  - right. exists 4%nat, [7; 70000]. split_and!; try reflexivity.
    + repeat constructor; vm_compute; congruence.
Defined.

Lemma mio_motr_addb_roundtrip_witness :
  let host : HostOrder := false in
  mio_motr_addb_encode (ex_addb_rec [97; 98; 99; 100; 101; 102; 103; 104]) [] = Fault OutOfBounds ∧
  ∃ buf, mio_motr_addb_encode (ex_addb_rec [97; 98]) [] = Done (0, Some buf, []) ∧
    mio_motr_addb_decode buf [49] ex_old_rec [] =
      Done (0, MkRec (Some [49]) (Some [112; 114]) (Some [97; 98]) MIO_TM_TYPE_ARRAY_UINT32
        (TvArray 2 (Some [7; 70000])), []).
Proof.
  intros host. split.
  - refine (mio_motr_addb_roundtrip host (ex_addb_rec [97; 98; 99; 100; 101; 102; 103; 104]) []
      ex_old_rec _ _); [apply ex_addb_rec_ok; split; reflexivity|vm_compute; congruence].
  - destruct (mio_motr_addb_roundtrip host (ex_addb_rec [97; 98]) [49] ex_old_rec)
      as (buf & H1 & _ & H2); [apply ex_addb_rec_ok; split; reflexivity|vm_compute; congruence|].
    exists buf. split; [exact H1|exact H2].
Defined.
