(* ===== verification/TelemLog.v ===== *)
(** * The log telemetry store (src/telemetry_log.c)

    A record is encoded as words of text separated by blanks: a sign for the
    prefix, the prefix, the topic, the name of the type and the numbers of the
    value.  Numbers are read through an array on the stack that is filled
    without a terminating NUL; its old contents are the parameter [stack]. *)

From Stdlib Require Import String.
From S2P Require Import Prelude Bytes HintMap CStr Logger Telem.
Open Scope Z_scope.

Definition TELEM_LOG_NO_PREFIX_SIGN : Z := 0.
Definition TELEM_LOG_PREFIX_SIGN : Z := 1.

(** telem_data_type_names[type]; the entries without an initialiser are NULL. *)
Definition telem_data_type_names (type : Z) : option (list Z) :=
  if type =? MIO_TM_TYPE_UINT16 then Some (str "UINT16")
  else if type =? MIO_TM_TYPE_UINT32 then Some (str "UINT32")
  else if type =? MIO_TM_TYPE_UINT64 then Some (str "UINT64")
  else if type =? MIO_TM_TYPE_TIMESPAN then Some (str "TIMESPAN")
  else if type =? MIO_TM_TYPE_TIMEPOINT then Some (str "TIMEPOINT")
  else if type =? MIO_TM_TYPE_STRING then Some (str "STRING")
  else if type =? MIO_TM_TYPE_ARRAY_UINT16 then Some (str "ARRAY_UINT16")
  else if type =? MIO_TM_TYPE_ARRAY_UINT32 then Some (str "ARRAY_UINT32")
  else if type =? MIO_TM_TYPE_ARRAY_UINT64 then Some (str "ARRAY_UINT64")
  else None.

(** ** Writing *)

(** [telem_log_rec_add_string]; the length is kept in 8 bits. *)
Definition telem_log_rec_add_string (rec : list Z * nat) (string : option (list Z))
  : outcome (list Z * nat) :=
  match string with
  | None => Fault AssertFail
  | Some string =>
      let str_len := u8 (strnlen string MIO_LOG_MAX_REC_LEN) in
      rec ← rec_add (take (Z.to_nat str_len) string) rec;
      rec_add [32] rec
  end.

Definition telem_log_rec_add_u16 (rec : list Z * nat) (val : Z) : outcome (list Z * nat) :=
  telem_log_rec_add_string rec (Some (sprintf_u (u16 val))).
Definition telem_log_rec_add_u32 (rec : list Z * nat) (val : Z) : outcome (list Z * nat) :=
  telem_log_rec_add_string rec (Some (sprintf_u (u32 val))).
Definition telem_log_rec_add_u64 (rec : list Z * nat) (val : Z) : outcome (list Z * nat) :=
  telem_log_rec_add_string rec (Some (sprintf_u (u64 val))).

Definition log_add_int (w : nat) (rec : list Z * nat) (val : Z) : outcome (list Z * nat) :=
  match w with
  | 2%nat => telem_log_rec_add_u16 rec val
  | 4%nat => telem_log_rec_add_u32 rec val
  | _ => telem_log_rec_add_u64 rec val
  end.

Fixpoint log_add_array_loop (w : option nat) (elms : option (list Z)) (i n : nat)
    (rec : list Z * nat) : outcome (list Z * nat) :=
  match n with
  | O => Done rec
  | S n' =>
      rec ← match w with
            | Some w => x ← elm_get elms i; log_add_int w rec x
            | None => Done rec
            end;
      log_add_array_loop w elms (S i) n' rec
  end.

Definition telem_log_rec_add_array (rec : list Z * nat) (type : Z) (value : tm_value)
  : outcome (list Z * nat) :=
  '(nr_elms, elms) ← value_array value;
  rec ← telem_log_rec_add_u16 rec nr_elms;
  log_add_array_loop (array_width type) elms 0 (Z.to_nat nr_elms) rec.

Definition telem_log_rec_add_value (rec : list Z * nat) (type : Z) (value : tm_value)
  : outcome (list Z * nat) :=
  _ ← c_assert ((MIO_TM_TYPE_INVALID <? type) && (type <? MIO_TM_TYPE_NR));
  match scalar_width type, array_width type with
  | Some w, _ => x ← value_scalar value; log_add_int w rec x
  | None, Some _ => telem_log_rec_add_array rec type value
  | None, None =>
      if type =? MIO_TM_TYPE_NONE then Done rec
      else x ← value_scalar value; telem_log_rec_add_u64 rec x
  end.

(** [mio_telem_log_encode]: the text is cut at its first NUL, which is kept. *)
Definition mio_telem_log_encode (r : mio_telemetry_rec) (p : mplan)
  : outcome (Z * option (list Z) * mplan) :=
  let type := mtr_type r in
  if (type <=? MIO_TM_TYPE_INVALID) || (MIO_TM_TYPE_NR <=? type) then Done (- EINVAL, None, p) else
  let '(ok, p) := plan_next p in
  if negb ok then Done (- ENOMEM, None, p) else
  let cursor := (replicate (Z.to_nat MIO_LOG_MAX_REC_LEN) 0, O) in
  cursor ← match mtr_prefix r with
           | Some prefix =>
               cursor ← telem_log_rec_add_u16 cursor TELEM_LOG_PREFIX_SIGN;
               telem_log_rec_add_string cursor (Some prefix)
           | None => telem_log_rec_add_u16 cursor TELEM_LOG_NO_PREFIX_SIGN
           end;
  cursor ← telem_log_rec_add_string cursor (mtr_topic r);
  cursor ← telem_log_rec_add_string cursor (telem_data_type_names type);
  cursor ← telem_log_rec_add_value cursor type (mtr_value r);
  text ← cstr_read cursor.1;
  Done (0, Some (text ++ [0]), p).

(** ** Reading

    The cursor is the rest of the text up to the NUL, or [None] behind it. *)
Abbreviation log_cursor := (option (list Z)).

Definition log_text (c : log_cursor) : outcome (list Z) :=
  match c with Some s => Done s | None => Fault OutOfBounds end.

(** The loop of [telem_log_skip_delimiter] with at most [n] steps. *)
Fixpoint skip_loop (n : nat) (s : list Z) : list Z :=
  match n, s with
  | S n', c :: s' => if is_space c then skip_loop n' s' else s
  | _, _ => s
  end.

Definition telem_log_skip_delimiter (s : list Z) : list Z :=
  skip_loop (Z.to_nat (strnlen s MIO_LOG_MAX_REC_LEN)) s.

(** The loop of [telem_log_jump_to_delimiter]: the characters passed and the
    rest.  At the end of the text one step is made even so, behind the NUL. *)
Fixpoint jump_loop (n : nat) (s : list Z) : list Z * list Z :=
  match n, s with
  | S n', c :: s' =>
      if is_space c then ([], s) else let '(l, r) := jump_loop n' s' in (c :: l, r)
  | _, _ => ([], s)
  end.

Definition telem_log_jump_to_delimiter (s : list Z) : list Z * log_cursor :=
  match s with
  | [] => ([0], None)
  | _ => let '(l, r) := jump_loop (Z.to_nat (strnlen s MIO_LOG_MAX_REC_LEN)) s in (l, Some r)
  end.

(** [telem_log_rec_get_string]; the cursor advances by the 8-bit length. *)
Definition telem_log_rec_get_string (rec : log_cursor) (p : mplan)
  : outcome (option (list Z) * log_cursor * mplan) :=
  s ← log_text rec;
  let s := telem_log_skip_delimiter s in
  let '(word, rest) := telem_log_jump_to_delimiter s in
  let len := Z.to_nat (u8 (Z.of_nat (length word))) in
  let '(ok, p) := plan_next p in
  if negb ok then Done (None, Some s, p) else
  let rest := if (len =? length word)%nat then rest else Some (drop len s) in
  Done (Some (until_nul (take len word)), rest, p).

Section Reading.

(** The 32 bytes of val_str before it is filled. *)
Context (stack : list Z).

(** A number at the start of the array: reading on to its end is an error. *)
Definition scan_number (a : list Z) : outcome (Z * nat) :=
  let '(neg, s) := scan_sign (skip_spaces a) in
  let '(v, n, rest) := scan_digits 10 s 0 0 in
  match rest with
  | [] => Fault OutOfBounds
  | _ => Done (if neg then - v else v, n)
  end.

(** atoi() of an array. *)
Definition atoi_arr (a : list Z) : outcome Z :=
  '(v, _) ← scan_number a; Done (s32 (Z.max (- 2 ^ 63) (Z.min v (2 ^ 63 - 1)))).

(** [telem_log_rec_get_scalar]; [old] is the old value of *val. *)
Definition telem_log_rec_get_scalar (rec : log_cursor) (type old : Z) : outcome (Z * log_cursor) :=
  s ← log_text rec;
  let after := telem_log_skip_delimiter s in
  let '(word, rest) := telem_log_jump_to_delimiter after in
  let text := take (length s - length after) s ++ word in
  let val_len := Z.of_nat (length text) in
  if (val_len <=? 0) || (32 <? val_len) then Done (old, rest) else
  let val_str := arr_memcpy stack text in
  if type =? MIO_TM_TYPE_UINT16 then v ← atoi_arr val_str; Done (u16 v, rest)
  else if type =? MIO_TM_TYPE_UINT32 then v ← atoi_arr val_str; Done (u32 v, rest)
  else if (type =? MIO_TM_TYPE_UINT64) || (type =? MIO_TM_TYPE_TIMESPAN) || (type =? MIO_TM_TYPE_TIMEPOINT)
  then '(v, n) ← scan_number val_str;
       (* sscanf() stores nothing when there is no digit, and clamps *)
       Done (if (n =? 0)%nat then old else u64 (Z.min v (2 ^ 64 - 1)), rest)
  else Done (old, rest).

Definition telem_log_rec_get_u16 rec old := telem_log_rec_get_scalar rec MIO_TM_TYPE_UINT16 old.
Definition telem_log_rec_get_u32 rec old := telem_log_rec_get_scalar rec MIO_TM_TYPE_UINT32 old.
Definition telem_log_rec_get_u64 rec old := telem_log_rec_get_scalar rec MIO_TM_TYPE_UINT64 old.

Definition log_get_int (w : nat) (rec : log_cursor) (old : Z) : outcome (Z * log_cursor) :=
  match w with
  | 2%nat => telem_log_rec_get_u16 rec old
  | 4%nat => telem_log_rec_get_u32 rec old
  | _ => telem_log_rec_get_u64 rec old
  end.

Fixpoint log_get_array_loop (w : nat) (rec : log_cursor) (n : nat) (acc : list Z)
  : outcome (list Z * log_cursor) :=
  match n with
  | O => Done (acc, rec)
  | S n' => '(x, rec) ← log_get_int w rec 0; log_get_array_loop w rec n' (acc ++ [x])
  end.

(** [telem_log_rec_get_array]; nr_bytes is kept in 16 bits.  nr_elms is not
    initialised, which matters when the count cannot be read. *)
Definition telem_log_rec_get_array (rec : log_cursor) (type : Z) (old : tm_value) (p : mplan)
  : outcome (Z * tm_value * log_cursor * mplan) :=
  '(nr_elms, rec) ← telem_log_rec_get_u16 rec (-1);
  if nr_elms <? 0 then Fault UninitRead else
  match array_width type with
  | None => Done (- EINVAL, old, rec, p)
  | Some w =>
      let nr_bytes := u16 (nr_elms * Z.of_nat w) in
      let '(ok, p) := plan_next p in
      if negb ok then Done (- ENOMEM, old, rec, p) else
      if nr_bytes <? nr_elms * Z.of_nat w then Fault OutOfBounds else
      '(l, rec) ← log_get_array_loop w rec (Z.to_nat nr_elms) [];
      Done (0, TvArray nr_elms (Some l), rec, p)
  end.

(** [telem_log_rec_get_value]. *)
Definition telem_log_rec_get_value (rec : log_cursor) (type : Z) (p : mplan)
  : outcome (Z * tm_value * log_cursor * mplan) :=
  if type =? MIO_TM_TYPE_NONE then Done (0, TvNull, rec, p) else
  let '(rc, value, p) := mio_telemetry_alloc_value type p in
  if rc <? 0 then Done (rc, value, rec, p) else
  match scalar_width type, array_width type with
  | Some w, _ => '(x, rec) ← log_get_int w rec 0; Done (0, TvScalar x, rec, p)
  | None, Some _ =>
      '(_, value, rec, p) ← telem_log_rec_get_array rec type value p;
      Done (0, value, rec, p)
  | None, None => Done (- EINVAL, value, rec, p)
  end.

(** The search of [telem_log_rec_get_value_type] over [n] types from [i] on. *)
Fixpoint find_type (type_str : list Z) (i : Z) (n : nat) : Z :=
  match n with
  | O => i
  | S n' =>
      if bool_decide (telem_data_type_names i = Some type_str) then i
      else find_type type_str (i + 1) n'
  end.

Definition telem_log_rec_get_value_type (rec : log_cursor) (type : Z) (p : mplan)
  : outcome (Z * Z * log_cursor * mplan) :=
  '(type_str, rec, p) ← telem_log_rec_get_string rec p;
  match type_str with
  | None => Done (- ENOMEM, type, rec, p)
  | Some type_str =>
      let i := find_type type_str MIO_TM_TYPE_UINT16 (Z.to_nat (MIO_TM_TYPE_NR - MIO_TM_TYPE_UINT16)) in
      if i =? MIO_TM_TYPE_NR then Done (- EINVAL, type, rec, p) else Done (0, i, rec, p)
  end.

(** [mio_telem_log_decode] for arguments that are not NULL; the result of
    [telem_log_rec_get_value_type] is ignored.  has_prefix is not initialised. *)
Definition mio_telem_log_decode (buf head : list Z) (rec : mio_telemetry_rec) (p : mplan)
  : outcome (Z * mio_telemetry_rec * mplan) :=
  let '(ok, p) := plan_next p in
  let set_time t := MkRec t (mtr_prefix rec) (mtr_topic rec) (mtr_type rec) (mtr_value rec) in
  if negb ok then Done (- ENOMEM, set_time None, p) else
  let time_str := take (Z.to_nat (strnlen head MIO_LOG_MAX_REC_LEN)) head in
  text ← cstr_read buf;
  '(has_prefix, cursor) ← telem_log_rec_get_u16 (Some text) (-1);
  if has_prefix <? 0 then Fault UninitRead else
  '(prefix, cursor, p) ←
    (if has_prefix =? TELEM_LOG_PREFIX_SIGN then telem_log_rec_get_string cursor p
     else Done (None, cursor, p));
  '(topic, cursor, p) ← telem_log_rec_get_string cursor p;
  '(_, type, cursor, p) ← telem_log_rec_get_value_type cursor MIO_TM_TYPE_INVALID p;
  '(rc, value, cursor, p) ← telem_log_rec_get_value cursor type p;
  if rc <? 0 then Done (rc, set_time (Some time_str), p)
  else Done (rc, MkRec (Some time_str) prefix topic type value, p).
End Reading.

(** ** Words *)

(** A word of a record: not empty, without blanks and NUL, its length in 8 bits. *)
Definition log_word (w : list Z) : Prop :=
  0 < Z.of_nat (length w) <= 255 ∧ Forall (λ c, c ≠ 0 ∧ is_space c = false) w.

(** What the encoder writes for a list of words. *)
Definition log_line (ws : list (list Z)) : list Z := ws ≫= (λ w, w ++ [32]).

Lemma log_line_cons w ws : log_line (w :: ws) = w ++ [32] ++ log_line ws.
Proof. unfold log_line. rewrite bind_cons. by rewrite <- app_assoc. Qed.

Lemma log_line_app ws ws' : log_line (ws ++ ws') = log_line ws ++ log_line ws'.
Proof. unfold log_line. by rewrite bind_app. Qed.

Lemma log_line_no_nul ws : Forall log_word ws → no_nul (log_line ws).
Proof.
  induction 1 as [|w ws [_ Hw] Hws IH]; [constructor|]. rewrite log_line_cons.
  apply Forall_app; split; [by eapply Forall_impl; [exact Hw|intros c []]|].
  by apply Forall_cons.
Qed.

Lemma appends_word w :
  log_word w → appends (λ rec, telem_log_rec_add_string rec (Some w)) (w ++ [32]).
Proof.
  intros [Hl _]. unfold telem_log_rec_add_string, strnlen, MIO_LOG_MAX_REC_LEN.
  rewrite Z.min_l, u8_small, Nat2Z.id, take_ge by lia.
  apply (appends_seq (rec_add w) (rec_add [32])); by intros out k.
Qed.

(** ** Numbers *)

Lemma sprintf_u_word x : 0 <= x < 2 ^ 64 → log_word (sprintf_u x) ∧ (length (sprintf_u x) <= 20)%nat.
Proof.
  intros Hx. pose proof (dec_digits_length 20 x) as Hl. fold (sprintf_u x) in Hl.
  split; [|done]. split.
  - unfold sprintf_u in *. cbn [dec_digits] in *. rewrite length_app in *. cbn [length] in *. lia.
  - eapply Forall_impl; [apply dec_digits_digits; lia|]. cbn beta. intros c Hc. split; [lia|].
    unfold is_space. rewrite (proj2 (Z.eqb_neq _ _)), (proj2 (Z.leb_gt _ 13)) by lia.
    by rewrite andb_false_r.
Qed.

(** ** Reading words *)

Lemma skip_loop_word n w rest c :
  log_word w → skip_loop n (w ++ rest) = w ++ rest ∧ skip_loop (S n) (c :: w ++ rest) =
    if is_space c then w ++ rest else c :: w ++ rest.
Proof.
  intros [Hl Hw]. assert (H : ∀ n, skip_loop n (w ++ rest) = w ++ rest).
  { intros m. destruct w as [|x w]; [simpl in Hl; lia|]. apply Forall_cons in Hw as [[_ Hx] _].
    destruct m; [done|]. cbn [app skip_loop]. by rewrite Hx. }
  split; [done|]. cbn [skip_loop]. destruct (is_space c); by rewrite ?H.
Qed.

Lemma jump_loop_word n w rest :
  log_word w → (length w < n)%nat → jump_loop n (w ++ 32 :: rest) = (w, 32 :: rest).
Proof.
  intros [_ Hw]. revert n; induction Hw as [|c w [_ Hc] Hw IH]; intros n Hn.
  - destruct n; [simpl in Hn; lia|done].
  - destruct n; [lia|]. cbn [app jump_loop length] in *. rewrite Hc, IH by lia. done.
Qed.

(** The text from the cursor on: a word, perhaps with a blank before it, and [tl]. *)
Definition at_word (sp w tl : list Z) : list Z := sp ++ w ++ 32 :: tl.

Definition one_blank (sp : list Z) : Prop := sp = [] ∨ sp = [32].

Lemma skip_at_word sp w tl :
  one_blank sp → log_word w → telem_log_skip_delimiter (at_word sp w tl) = at_word [] w tl.
Proof.
  intros Hsp Hw. unfold telem_log_skip_delimiter, at_word. destruct Hsp as [-> | ->].
  - by apply (skip_loop_word _ w _ 0).
  - cbn [app]. unfold strnlen, MIO_LOG_MAX_REC_LEN.
    destruct (Z.to_nat _) as [|n] eqn:E; [cbn [length] in E; lia|].
    by apply (skip_loop_word n w _ 32).
Qed.

Lemma jump_at_word w tl :
  log_word w → telem_log_jump_to_delimiter (at_word [] w tl) = (w, Some (32 :: tl)).
Proof.
  intros Hw. unfold telem_log_jump_to_delimiter, at_word. cbn [app].
  rewrite jump_loop_word; [|done|].
  - destruct w; [|done]. destruct Hw as [Hl _]. simpl in Hl. lia.
  - destruct Hw as [Hl _]. unfold strnlen, MIO_LOG_MAX_REC_LEN. rewrite length_app. cbn [length]. lia.
Qed.

Lemma until_nul_id s : Forall (λ c, c ≠ 0 ∧ is_space c = false) s → until_nul s = s.
Proof.
  induction 1 as [|c s [Hc _] Hs IH]; [done|]. simpl. by rewrite (proj2 (Z.eqb_neq _ _) Hc), IH.
Qed.

Lemma get_string_word sp w tl :
  one_blank sp → log_word w →
  telem_log_rec_get_string (Some (at_word sp w tl)) [] = Done (Some w, Some (32 :: tl), []).
Proof.
  intros Hsp Hw. unfold telem_log_rec_get_string. cbn [log_text mbind outcome_bind].
  rewrite skip_at_word, jump_at_word by done. destruct Hw as [Hl Hw].
  rewrite u8_small, Nat2Z.id by lia. cbn [plan_next negb].
  by rewrite Nat.eqb_refl, firstn_all, until_nul_id.
Qed.

(** ** Reading numbers *)

(** The old contents of the array: no decimal digit among its 32 bytes. *)
Definition stack_clean (stack : list Z) : Prop :=
  length stack = 32%nat ∧ Forall (λ c, ¬ (48 <= c <= 57)) stack.

Lemma scan_digits_stop c rest acc n :
  ¬ (48 <= c <= 57) → scan_digits 10 (c :: rest) acc n = (acc, n, c :: rest).
Proof.
  intros Hc. cbn [scan_digits]. destruct (digit_val c) as [d|] eqn:Hd; [|done].
  rewrite (proj2 (Z.ltb_ge _ _)); [done|]. unfold digit_val in Hd.
  repeat case_match; simplify_eq; rewrite ?andb_true_iff, ?Z.leb_le in *; lia.
Qed.

Lemma skip_spaces_digits sp x rest :
  one_blank sp → 0 <= x < 2 ^ 64 →
  scan_sign (skip_spaces (sp ++ sprintf_u x ++ rest)) = (false, sprintf_u x ++ rest).
Proof.
  intros Hsp Hx. destruct (sprintf_u_word x Hx) as [[Hl Hw] _].
  pose proof (dec_digits_digits 20 x) as Hd. fold (sprintf_u x) in Hd.
  destruct (sprintf_u x) as [|c s]; [simpl in Hl; lia|].
  apply Forall_cons in Hw as [[_ Hc] _]. assert (48 <= c <= 57).
  { specialize (Hd ltac:(lia)). by apply Forall_cons in Hd as [? _]. }
  assert (Hs : skip_spaces (sp ++ c :: s ++ rest) = c :: s ++ rest).
  { destruct Hsp as [-> | ->]; cbn [app skip_spaces]; [by rewrite Hc|].
    change (is_space 32) with true. cbn [skip_spaces]. by rewrite Hc. }
  cbn [app]. rewrite Hs. unfold scan_sign.
  by rewrite (proj2 (Z.eqb_neq c 45)), (proj2 (Z.eqb_neq c 43)) by lia.
Qed.

Lemma scan_number_clean stack sp x :
  stack_clean stack → one_blank sp → 0 <= x < 2 ^ 64 →
  scan_number (arr_memcpy stack (sp ++ sprintf_u x)) = Done (x, length (sprintf_u x)).
Proof.
  intros [Hlen Hst] Hsp Hx. destruct (sprintf_u_word x Hx) as [_ Hl].
  unfold scan_number, arr_memcpy. rewrite <- app_assoc, skip_spaces_digits by done.
  unfold sprintf_u at 1. rewrite scan_dec_digits by lia.
  fold (sprintf_u x). rewrite Z.mul_0_l, Z.add_0_l, Nat.add_0_l.
  assert (Hs : (length (sp ++ sprintf_u x) < 32)%nat).
  { rewrite length_app. destruct Hsp as [-> | ->]; simpl; lia. }
  destruct (drop (length (sp ++ sprintf_u x)) stack) as [|c rest] eqn:E.
  - apply (f_equal length) in E. rewrite length_drop in E. simpl in E. lia.
  - assert (¬ (48 <= c <= 57)) as Hc.
    { apply (Forall_drop _ (length (sp ++ sprintf_u x))) in Hst. rewrite E in Hst.
      by apply Forall_cons in Hst as [? _]. }
    by rewrite scan_digits_stop.
Qed.

Lemma log_get_int_word stack w x sp tl old :
  stack_clean stack → w ∈ [2; 4; 8]%nat → fits w x → one_blank sp →
  log_get_int stack w (Some (at_word sp (sprintf_u x) tl)) old = Done (x, Some (32 :: tl)).
Proof.
  intros Hst Hw Hx Hsp.
  assert (Hx64 : 0 <= x < 2 ^ 64).
  { unfold fits in Hx. split; [lia|].
    apply elem_of_cons in Hw as [->|Hw]; [lia|]. apply elem_of_cons in Hw as [->|Hw]; [lia|].
    apply list_elem_of_singleton in Hw as ->. lia. }
  destruct (sprintf_u_word x Hx64) as [Hword Hl].
  assert (Hgen : ∀ type, telem_log_rec_get_scalar stack (Some (at_word sp (sprintf_u x) tl)) type old =
    if type =? MIO_TM_TYPE_UINT16 then v ← Done (s32 (Z.min x (2 ^ 63 - 1))); Done (u16 v, Some (32 :: tl))
    else if type =? MIO_TM_TYPE_UINT32 then v ← Done (s32 (Z.min x (2 ^ 63 - 1))); Done (u32 v, Some (32 :: tl))
    else if (type =? MIO_TM_TYPE_UINT64) || (type =? MIO_TM_TYPE_TIMESPAN) || (type =? MIO_TM_TYPE_TIMEPOINT)
    then Done (x, Some (32 :: tl)) else Done (old, Some (32 :: tl))).
  { intros type. unfold telem_log_rec_get_scalar. cbn [log_text mbind outcome_bind].
    rewrite skip_at_word, jump_at_word by done.
    replace (take _ (at_word sp (sprintf_u x) tl)) with sp.
    2:{ unfold at_word. rewrite length_app. cbn [app]. rewrite Nat.add_sub, take_app_length. done. }
    assert (Hsl : (length (sp ++ sprintf_u x) <= 21)%nat).
    { rewrite length_app. destruct Hsp as [-> | ->]; simpl; lia. }
    destruct Hword as [Hpos _].
    rewrite (proj2 (Z.leb_gt _ 0)) by (rewrite length_app; lia).
    rewrite (proj2 (Z.ltb_ge 32 _)) by lia. cbn [orb].
    unfold atoi_arr. rewrite scan_number_clean by done. cbn [mbind outcome_bind].
    rewrite Z.max_r by lia. repeat case_match; try done.
    - destruct (sprintf_u x); [simpl in Hpos; lia|done].
    - rewrite Z.min_l, u64_small by lia. done. }
  unfold log_get_int, telem_log_rec_get_u16, telem_log_rec_get_u32, telem_log_rec_get_u64.
  unfold fits in Hx.
  apply elem_of_cons in Hw as [->|Hw]; [|apply elem_of_cons in Hw as [->|Hw];
    [|apply list_elem_of_singleton in Hw as ->]]; rewrite Hgen; cbn [Z.eqb Pos.eqb mbind outcome_bind].
  - rewrite Z.min_l, s32_small, u16_small by lia. done.
  - rewrite Z.min_l by lia.
    assert (u32 (s32 x) = x) as ->; [|done]. unfold u32, s32.
    rewrite <- Zminus_mod_idemp_l, Z.mod_mod, Zminus_mod_idemp_l by lia.
    rewrite Z.add_simpl_r. apply Z.mod_small. lia.
  - done.
Qed.

(** ** Records *)

Definition value_words (v : tm_value) : list (list Z) :=
  match v with
  | TvScalar x => [sprintf_u x]
  | TvArray nr (Some l) => sprintf_u nr :: (sprintf_u <$> l)
  | _ => []
  end.

(** The words of a record. *)
Definition log_words (r : mio_telemetry_rec) : list (list Z) :=
  match mtr_prefix r with
  | Some prefix => [sprintf_u TELEM_LOG_PREFIX_SIGN; prefix]
  | None => [sprintf_u TELEM_LOG_NO_PREFIX_SIGN]
  end ++
  [default [] (mtr_topic r); default [] (telem_data_type_names (mtr_type r))] ++ value_words (mtr_value r).

(** A record that fits into one entry: its texts are words, its value is one of
    its C type, and all words fit into the buffer. *)
Definition log_rec_ok (r : mio_telemetry_rec) : Prop :=
  (∃ topic, mtr_topic r = Some topic ∧ log_word topic) ∧
  (∀ prefix, mtr_prefix r = Some prefix → log_word prefix) ∧
  value_ok (λ _, 512) (mtr_type r) (mtr_value r) ∧
  Z.of_nat (length (log_line (log_words r))) < MIO_LOG_MAX_REC_LEN.

Lemma fits_64 w x : w ∈ [2; 4; 8]%nat → fits w x → 0 <= x < 2 ^ 64.
Proof.
  unfold fits. intros Hw Hx.
  apply elem_of_cons in Hw as [->|Hw]; [lia|]. apply elem_of_cons in Hw as [->|Hw]; [lia|].
  apply list_elem_of_singleton in Hw as ->. lia.
Qed.

Lemma type_name_word max type v :
  value_ok max type v →
  ∃ name, telem_data_type_names type = Some name ∧ log_word name ∧
    find_type name MIO_TM_TYPE_UINT16 (Z.to_nat (MIO_TM_TYPE_NR - MIO_TM_TYPE_UINT16)) = type ∧
    (type =? MIO_TM_TYPE_NR) = false ∧ (type =? MIO_TM_TYPE_NONE) = false.
Proof.
  intros [(w & x & Hw & _)|(w & l & Hw & _)].
  - apply scalar_width_cases in Hw as [[_ ->]|[[_ ->]|[_ [->|[->| ->]]]]];
      (eexists; split_and!; [reflexivity| |reflexivity..]; split;
        [split; vm_compute; congruence|by repeat constructor]).
  - apply array_width_cases in Hw as [[_ ->]|[[_ ->]|[_ ->]]];
      (eexists; split_and!; [reflexivity| |reflexivity..]; split;
        [split; vm_compute; congruence|by repeat constructor]).
Qed.

Lemma value_words_ok max type v : value_ok max type v → max 2%nat <= 65536 → max 4%nat <= 65536 →
  max 8%nat <= 65536 → Forall log_word (value_words v).
Proof.
  intros [(w & x & Hw & -> & Hx)|(w & l & Hw & -> & Hl & Hn)] H2 H4 H8; simpl.
  - constructor; [|constructor]. apply sprintf_u_word. eapply fits_64; [by eapply scalar_width_in|done].
  - pose proof (array_width_in _ _ Hw) as Hin. constructor.
    + apply sprintf_u_word. apply elem_of_cons in Hin as [->|Hin]; [lia|].
      apply elem_of_cons in Hin as [->|Hin]; [lia|]. apply list_elem_of_singleton in Hin as ->. lia.
    + apply Forall_fmap. eapply Forall_impl; [exact Hl|]. intros x Hx. simpl.
      apply sprintf_u_word. by eapply fits_64.
Qed.

(** ** Encoding *)

Lemma appends_log_int w x :
  w ∈ [2; 4; 8]%nat → fits w x → appends (λ rec, log_add_int w rec x) (sprintf_u x ++ [32]).
Proof.
  intros Hw Hx out k. pose proof (fits_64 w x Hw Hx) as H64. unfold fits in Hx.
  unfold log_add_int, telem_log_rec_add_u16, telem_log_rec_add_u32, telem_log_rec_add_u64.
  apply elem_of_cons in Hw as [->|Hw]; [rewrite u16_small by lia; by apply appends_word, sprintf_u_word|].
  apply elem_of_cons in Hw as [->|Hw]; [rewrite u32_small by lia; by apply appends_word, sprintf_u_word|].
  apply list_elem_of_singleton in Hw as ->. rewrite u64_small by lia. by apply appends_word, sprintf_u_word.
Qed.

Lemma appends_log_array w l i n :
  w ∈ [2; 4; 8]%nat → Forall (fits w) l → (i + n = length l)%nat →
  appends (log_add_array_loop (Some w) (Some l) i n) (log_line (sprintf_u <$> drop i l)).
Proof.
  intros Hw Hl. revert i; induction n as [|n IH]; intros i Hi.
  - rewrite drop_ge by lia. apply appends_nil.
  - destruct (lookup_lt_is_Some_2 l i) as [x Hx]; [lia|]. rewrite (drop_S _ _ _ Hx), fmap_cons, log_line_cons.
    pose proof (proj1 (Forall_lookup _ _) Hl _ _ Hx) as Hfit.
    intros out k. cbn [log_add_array_loop elm_get]. rewrite Hx. cbn [mbind outcome_bind].
    rewrite app_assoc.
    apply (appends_seq (λ rec, log_add_int w rec x) (log_add_array_loop (Some w) (Some l) (S i) n));
      [by apply appends_log_int|apply IH; lia].
Qed.

Lemma appends_value type v :
  value_ok (λ _, 512) type v →
  appends (λ rec, telem_log_rec_add_value rec type v) (log_line (value_words v)).
Proof.
  intros Hok. pose proof (type_range _ _ _ Hok) as Hr. unfold telem_log_rec_add_value.
  replace (_ && _) with true by lia. intros out k. cbn [c_assert mbind outcome_bind].
  destruct Hok as [(w & x & Hw & -> & Hx)|(w & l & Hw & -> & Hl & Hn)].
  - rewrite Hw. cbn [value_scalar mbind outcome_bind value_words]. rewrite log_line_cons.
    by apply (appends_log_int w x (scalar_width_in _ _ Hw) Hx out k).
  - rewrite (array_not_scalar _ _ Hw), Hw. unfold telem_log_rec_add_array.
    cbn [value_array mbind outcome_bind value_words]. rewrite Hw, Nat2Z.id, log_line_cons, app_assoc.
    pose proof (appends_log_array w l 0 (length l) (array_width_in _ _ Hw) Hl eq_refl) as Ha.
    rewrite drop_0 in Ha.
    apply (appends_seq (λ rec, telem_log_rec_add_u16 rec (Z.of_nat (length l))) _ _ _
      (appends_log_int 2 (Z.of_nat (length l)) ltac:(set_solver) ltac:(unfold fits; lia)) Ha out k).
Qed.

Lemma log_words_ok r : log_rec_ok r → Forall log_word (log_words r).
Proof.
  intros ((topic & Ht & Htok) & Hpok & Hv & _).
  destruct (type_name_word _ _ _ Hv) as (name & Hname & Hnok & _).
  unfold log_words. rewrite Ht, Hname. cbn [default]. apply Forall_app; split.
  - destruct (mtr_prefix r) as [pr|]; repeat apply Forall_cons_2; try apply Forall_nil_2;
      try (apply sprintf_u_word; done). by apply Hpok.
  - repeat apply Forall_cons_2; try done. by eapply value_words_ok.
Qed.

(** What encoding a record gives when malloc() does not fail. *)
Lemma log_encode_spec r :
  log_rec_ok r → mio_telem_log_encode r [] = Done (0, Some (log_line (log_words r) ++ [0]), []).
Proof.
  intros Hok. pose proof Hok as ((topic & Ht & Htok) & Hpok & Hv & Hlen). unfold mio_telem_log_encode.
  pose proof (type_range _ _ _ Hv) as Hr. replace (_ || _) with false by lia. cbn [plan_next negb].
  destruct (type_name_word _ _ _ Hv) as (name & Hname & Hnok & _).
  pose proof (log_words_ok r Hok) as Hwords.
  set (k := Z.to_nat MIO_LOG_MAX_REC_LEN). change (replicate k 0, 0%nat) with (writer [] k).
  set (G := λ cursor : list Z * nat, text ← cstr_read cursor.1; Done (0, Some (text ++ [0]), @nil bool)).
  transitivity (rec_add (log_line (log_words r)) (writer [] k) ≫= G).
  2:{ rewrite rec_add_writer, decide_True by (unfold k; lia). unfold G. cbn [mbind outcome_bind].
      unfold writer. cbn [fst app].
      destruct (k - length (log_line (log_words r)))%nat as [|j] eqn:E; [unfold k in E; lia|].
      cbn [replicate]. by rewrite cstr_read_term by (by apply log_line_no_nul). }
  unfold log_words. rewrite log_line_app. rewrite Ht, Hname. cbn [default].
  apply (appends_chain (λ cursor, match mtr_prefix r with
           | Some prefix =>
               cursor ← telem_log_rec_add_u16 cursor TELEM_LOG_PREFIX_SIGN;
               telem_log_rec_add_string cursor (Some prefix)
           | None => telem_log_rec_add_u16 cursor TELEM_LOG_NO_PREFIX_SIGN
           end)).
  { assert (Hsign : ∀ x, 0 <= x < 2 → appends (λ rec, telem_log_rec_add_u16 rec x) (sprintf_u x ++ [32])).
    { intros x Hx. apply (appends_log_int 2); [set_solver|unfold fits; lia]. }
    destruct (mtr_prefix r) as [pr|].
    - rewrite log_line_cons, app_assoc.
      apply (appends_seq (λ rec, telem_log_rec_add_u16 rec TELEM_LOG_PREFIX_SIGN)
        (λ rec, telem_log_rec_add_string rec (Some pr))); [by apply Hsign|].
      change (log_line [pr]) with ((pr ++ [32]) ++ []). rewrite app_nil_r.
      apply appends_word. by apply Hpok.
    - change (log_line [?x]) with ((x ++ [32]) ++ []). rewrite app_nil_r. by apply Hsign. }
  intros out1 k1. cbn [app]. rewrite log_line_cons, app_assoc.
  apply (appends_chain (λ cursor, telem_log_rec_add_string cursor (Some topic))); [by apply appends_word|].
  intros out2 k2. rewrite log_line_cons, app_assoc.
  apply (appends_chain (λ cursor, telem_log_rec_add_string cursor (Some name))); [by apply appends_word|].
  intros out3 k3. rewrite (appends_value _ _ Hv out3 k3). done.
Qed.

(** ** Decoding *)

Lemma log_get_array_words stack w l tl acc :
  stack_clean stack → w ∈ [2; 4; 8]%nat → Forall (fits w) l →
  log_get_array_loop stack w (Some (32 :: log_line (sprintf_u <$> l) ++ tl)) (length l) acc =
    Done (acc ++ l, Some (32 :: tl)).
Proof.
  intros Hst Hw Hl. revert acc. induction Hl as [|x l Hx Hl IH]; intros acc.
  - cbn [log_get_array_loop length fmap list_fmap app]. by rewrite app_nil_r.
  - cbn [log_get_array_loop length]. rewrite fmap_cons, log_line_cons, <- !app_assoc. cbn [app].
    change (32 :: sprintf_u x ++ 32 :: log_line (sprintf_u <$> l) ++ tl) with
      (at_word [32] (sprintf_u x) (log_line (sprintf_u <$> l) ++ tl)).
    rewrite log_get_int_word by (done || by right). cbn [mbind outcome_bind].
    by rewrite IH, <- app_assoc.
Qed.

Lemma log_get_value_words stack max type v tl :
  stack_clean stack → value_ok max type v → max 2%nat <= 8192 → max 4%nat <= 8192 → max 8%nat <= 8192 →
  telem_log_rec_get_value stack (Some (32 :: log_line (value_words v) ++ tl)) type [] =
    Done (0, v, Some (32 :: tl), []).
Proof.
  intros Hst Hv H2 H4 H8. destruct (type_name_word _ _ _ Hv) as (_ & _ & _ & _ & _ & Hnone).
  unfold telem_log_rec_get_value, mio_telemetry_alloc_value. rewrite Hnone.
  destruct Hv as [(w & x & Hw & -> & Hx)|(w & l & Hw & -> & Hl & Hn)]; cbn [value_words app].
  - rewrite Hw. cbn [plan_next Z.ltb Z.compare]. rewrite log_line_cons, <- !app_assoc. cbn [app].
    change (32 :: sprintf_u x ++ 32 :: log_line [] ++ tl) with (at_word [32] (sprintf_u x) tl).
    rewrite (log_get_int_word stack w x [32] tl 0 Hst (scalar_width_in _ _ Hw) Hx) by (by right). done.
  - rewrite (array_not_scalar _ _ Hw), Hw. cbn [plan_next Z.ltb Z.compare]. rewrite log_line_cons, <- !app_assoc. cbn [app].
    pose proof (array_width_in _ _ Hw) as Hin.
    assert (Hlen : Z.of_nat (length l) * Z.of_nat w < 65536 /\ Z.of_nat (length l) < 8192).
    { apply elem_of_cons in Hin as [->|Hin]; [lia|]. apply elem_of_cons in Hin as [->|Hin]; [lia|].
      apply list_elem_of_singleton in Hin as ->. lia. }
    unfold telem_log_rec_get_array.
    change (32 :: sprintf_u (Z.of_nat (length l)) ++ 32 :: log_line (sprintf_u <$> l) ++ tl) with
      (at_word [32] (sprintf_u (Z.of_nat (length l))) (log_line (sprintf_u <$> l) ++ tl)).
    pose proof (log_get_int_word stack 2 (Z.of_nat (length l)) [32] (log_line (sprintf_u <$> l) ++ tl) (-1) Hst
      ltac:(set_solver) ltac:(unfold fits; lia) ltac:(by right)) as Hn'.
    unfold log_get_int in Hn'. rewrite Hn'. cbn [mbind outcome_bind].
    rewrite (proj2 (Z.ltb_ge _ 0)) by lia. rewrite Hw. cbn [plan_next negb].
    rewrite u16_small by lia. rewrite Z.ltb_irrefl, Nat2Z.id, log_get_array_words by done. done.
Qed.

(** The text may start with a blank and go on behind the words. *)
Lemma log_decode_spec stack r head old sp tl junk :
  stack_clean stack → log_rec_ok r → Z.of_nat (length head) <= MIO_LOG_MAX_REC_LEN →
  one_blank sp → no_nul tl →
  mio_telem_log_decode stack (sp ++ log_line (log_words r) ++ tl ++ 0 :: junk) head old [] =
    Done (0, MkRec (Some head) (mtr_prefix r) (mtr_topic r) (mtr_type r) (mtr_value r), []).
Proof.
  intros Hst Hok Hhead Hsp Htl. pose proof Hok as ((topic & Ht & Htok) & Hpok & Hv & Hlen).
  destruct (type_name_word _ _ _ Hv) as (name & Hname & Hnok & Hfind & Hnr & Hnone).
  unfold mio_telem_log_decode. cbn [plan_next negb]. unfold strnlen.
  rewrite Z.min_l, Nat2Z.id, take_ge by lia.
  assert (Hread : cstr_read (sp ++ log_line (log_words r) ++ tl ++ 0 :: junk) =
    Done (sp ++ log_line (log_words r) ++ tl)).
  { rewrite !app_assoc. apply cstr_read_term. rewrite <- app_assoc.
    apply Forall_app; split; [destruct Hsp as [-> | ->]; by repeat constructor|].
    apply Forall_app; split; [|done]. by apply log_line_no_nul, log_words_ok. }
  rewrite Hread. cbn [mbind outcome_bind].
  assert (Hsign : ∀ x ws, 0 <= x < 2 →
    telem_log_rec_get_u16 stack (Some (sp ++ log_line (sprintf_u x :: ws) ++ tl)) (-1) =
      Done (x, Some (32 :: log_line ws ++ tl))).
  { intros x ws Hx. rewrite log_line_cons, <- !app_assoc. cbn [app].
    apply (log_get_int_word stack 2 x sp (log_line ws ++ tl) (-1) Hst);
      [set_solver|unfold fits; lia|done]. }
  assert (Hstr : ∀ w ws, log_word w →
    telem_log_rec_get_string (Some (32 :: log_line (w :: ws) ++ tl)) [] =
      Done (Some w, Some (32 :: log_line ws ++ tl), [])).
  { intros w ws Hw. rewrite log_line_cons, <- !app_assoc. cbn [app].
    apply (get_string_word [32]); [by right|done]. }
  assert (Hrest : ∀ pr,
    ('(topic, cursor, p) ← telem_log_rec_get_string
       (Some (32 :: log_line (topic :: name :: value_words (mtr_value r)) ++ tl)) [];
     '(_, type, cursor, p) ← telem_log_rec_get_value_type cursor MIO_TM_TYPE_INVALID p;
     '(rc, value, cursor, p) ← telem_log_rec_get_value stack cursor type p;
     if rc <? 0 then Done (rc, MkRec (Some head) (mtr_prefix old) (mtr_topic old) (mtr_type old) (mtr_value old), p)
     else Done (rc, MkRec (Some head) pr topic type value, p)) =
    Done (0, MkRec (Some head) pr (Some topic) (mtr_type r) (mtr_value r), [])).
  { intros pr. rewrite Hstr by done. cbn [mbind outcome_bind]. unfold telem_log_rec_get_value_type.
    rewrite Hstr by done. cbn [mbind outcome_bind]. rewrite Hfind, Hnr. cbn [mbind outcome_bind].
    by rewrite (log_get_value_words stack _ _ _ tl Hst Hv) by lia. }
  unfold log_words. rewrite Ht, Hname. cbn [default].
  destruct (mtr_prefix r) as [pr|]; cbn [app]; rewrite Hsign by done; cbn [mbind outcome_bind].
  - change (TELEM_LOG_PREFIX_SIGN <? 0) with false. rewrite Z.eqb_refl, Hstr by (by apply Hpok).
    cbn [mbind outcome_bind]. apply Hrest.
  - change (TELEM_LOG_NO_PREFIX_SIGN <? 0) with false.
    change (TELEM_LOG_NO_PREFIX_SIGN =? TELEM_LOG_PREFIX_SIGN) with false. apply Hrest.
Qed.

(** The log store keeps the contract of a telemetry store as long as there is no
    digit in the stack memory the numbers are read through. *)
#[export, refine] Instance log_telemetry_store (stack : list Z) : TelemetryStore := {
  ts_encode := mio_telem_log_encode;
  ts_decode := mio_telem_log_decode stack;
  ts_accepts r := log_rec_ok r ∧ stack_clean stack
}.
Proof.
  intros r head old [Hok Hst] Hhead. exists (log_line (log_words r) ++ [0]).
  split; [by apply log_encode_spec|]. apply (log_decode_spec stack r head old [] [] []); [done..| |by left|constructor].
  unfold MIO_LOG_MAX_REC_LEN. lia.
Defined.

(** (C30) Encoding and decoding of text records.  A record whose texts are single
    words and whose words fit into the buffer of 1024 bytes is encoded as its
    words, each followed by a blank, and decoding that line gives the record
    back with the time string of the log, numbers of every width included,
    provided the stack memory that numbers are read through holds no digits. *)
Theorem mio_telem_log_roundtrip (stack : list Z) (r : mio_telemetry_rec) (head : list Z)
    (old : mio_telemetry_rec)
  (Hstack : stack_clean stack) (Hok : log_rec_ok r)
  (Hhead : Z.of_nat (length head) <= MIO_LOG_MAX_REC_LEN) :
  ∃ buf, mio_telem_log_encode r [] = Done (0, Some buf, []) ∧
    buf = log_line (log_words r) ++ [0] ∧
    mio_telem_log_decode stack buf head old [] =
      Done (0, MkRec (Some head) (mtr_prefix r) (mtr_topic r) (mtr_type r) (mtr_value r), []).
Proof.
  exists (log_line (log_words r) ++ [0]).
  split; [by apply log_encode_spec|]. split; [done|].
  apply (log_decode_spec stack r head old [] [] []); [done..|by left|constructor].
Qed.

(** The record "1 mio obj-write ARRAY_UINT64 2 18446744073709551615 7". *)
Definition ex_log_rec : mio_telemetry_rec :=
  MkRec None (Some (str "mio")) (Some (str "obj-write")) MIO_TM_TYPE_ARRAY_UINT64
    (TvArray 2 (Some [18446744073709551615; 7])).

Lemma ex_log_rec_ok : log_rec_ok ex_log_rec.
Proof.
  assert (Hw : ∀ w, (0 <? Z.of_nat (length w)) && (Z.of_nat (length w) <=? 255) &&
    forallb (λ c, negb (c =? 0) && negb (is_space c)) w = true → log_word w).
  { intros w Hb. apply andb_true_iff in Hb as [Hl Hb]. split; [lia|].
    apply Forall_forall. intros c Hc. apply list_elem_of_In in Hc.
    pose proof (proj1 (forallb_forall _ _) Hb c Hc) as Hd. cbv beta in Hd.
    apply andb_true_iff in Hd as [H1 H2]. apply negb_true_iff in H1, H2. split; [lia|done]. }
  split; [exists (str "obj-write"); split; [reflexivity|by apply Hw]|]. split.
  - intros pr [= <-]. by apply Hw.
  - split; [|reflexivity]. right. exists 8%nat, [18446744073709551615; 7].
    split_and!; try reflexivity. repeat constructor; vm_compute; congruence.
Qed.

Lemma mio_telem_log_roundtrip_witness :
  stack_clean (replicate 32 255) ∧
  ∃ buf, mio_telem_log_encode ex_log_rec [] = Done (0, Some buf, []) ∧
    buf = str "1 mio obj-write ARRAY_UINT64 2 18446744073709551615 7 " ++ [0] ∧
    mio_telem_log_decode (replicate 32 255) buf (str "10:00") ex_log_rec [] =
      Done (0, MkRec (Some (str "10:00")) (Some (str "mio")) (Some (str "obj-write"))
        MIO_TM_TYPE_ARRAY_UINT64 (TvArray 2 (Some [18446744073709551615; 7])), []).
Proof.
  assert (Hst : stack_clean (replicate 32 255)).
  { split; [reflexivity|]. apply Forall_replicate. lia. }
  split; [exact Hst|].
  destruct (mio_telem_log_roundtrip (replicate 32 255) ex_log_rec (str "10:00") ex_log_rec Hst
    ex_log_rec_ok ltac:(vm_compute; congruence)) as (buf & H1 & H2 & H3).
  exists buf. split; [exact H1|]. split; [|exact H3]. rewrite H2. vm_compute. reflexivity.
Defined.

(** The array a number is read through is not terminated.  When the stack
    memory behind the digits holds digits, decoding a record does not give it
    back: with digits up to the end of the array the very first number, the
    sign of the prefix, is read beyond the array. *)
Theorem mio_telem_log_unterminated (r : mio_telemetry_rec) (head : list Z) (old : mio_telemetry_rec)
    (stack : list Z)
  (Hok : log_rec_ok r) (Hstack : length stack = 32%nat) (Hdigits : Forall (λ c, 48 <= c <= 57) stack) :
  ∃ buf, mio_telem_log_encode r [] = Done (0, Some buf, []) ∧
    mio_telem_log_decode stack buf head old [] = Fault OutOfBounds.
Proof.
  exists (log_line (log_words r) ++ [0]). split; [by apply log_encode_spec|].
  pose proof (log_words_ok r Hok) as Hwords.
  assert (Hd : ∀ s acc n, Forall (λ c, 48 <= c <= 57) s → ∃ v m, scan_digits 10 s acc n = (v, m, [])).
  { induction s as [|c s IH]; intros acc n Hs; [by exists acc, n|]. apply Forall_cons in Hs as [Hc Hs].
    cbn [scan_digits]. replace c with (48 + (c - 48)) by lia. rewrite digit_val_digit by lia.
    rewrite (proj2 (Z.ltb_lt _ _)) by lia. by apply IH. }
  assert (Hsign : ∀ x ws, 0 <= x < 2 → 
    telem_log_rec_get_u16 stack (Some (log_line (sprintf_u x :: ws))) (-1) = Fault OutOfBounds).
  { intros x ws Hx. rewrite log_line_cons. change (sprintf_u x ++ [32] ++ log_line ws) with
      (at_word [] (sprintf_u x) (log_line ws)).
    destruct (sprintf_u_word x) as [Hw Hl]; [lia|].
    unfold telem_log_rec_get_u16, telem_log_rec_get_scalar. cbn [log_text mbind outcome_bind].
    rewrite skip_at_word, jump_at_word, Nat.sub_diag by (done || by left). rewrite take_0. cbn [app].
    destruct Hw as [Hpos Hw].
    rewrite (proj2 (Z.leb_gt _ 0)), (proj2 (Z.ltb_ge 32 _)) by lia. cbn [orb].
    rewrite Z.eqb_refl. unfold atoi_arr, scan_number, arr_memcpy.
    pose proof (skip_spaces_digits [] x (drop (length (sprintf_u x)) stack) ltac:(by left) ltac:(lia)) as Hs.
    cbn [app] in Hs. rewrite Hs.
    destruct (Hd (sprintf_u x ++ drop (length (sprintf_u x)) stack) 0 0%nat) as (v & m & ->); [|done].
    apply Forall_app; split; [apply dec_digits_digits; lia|by apply Forall_drop]. }
  unfold mio_telem_log_decode. cbn [plan_next negb].
  rewrite cstr_read_term by (by apply log_line_no_nul). cbn [mbind outcome_bind].
  unfold log_words. destruct (mtr_prefix r); cbn [app]; by rewrite Hsign.
Qed.

Lemma mio_telem_log_unterminated_witness :
  length (replicate 32 55) = 32%nat ∧
  ∃ buf, mio_telem_log_encode ex_log_rec [] = Done (0, Some buf, []) ∧
    mio_telem_log_decode (replicate 32 55) buf (str "10:00") ex_log_rec [] = Fault OutOfBounds.
Proof.
  split; [reflexivity|].
  refine (mio_telem_log_unterminated ex_log_rec (str "10:00") ex_log_rec (replicate 32 55)
    ex_log_rec_ok _ _); [reflexivity|]. apply Forall_replicate. lia.
Defined.
