(* ===== verification/Telemetry.v ===== *)
(** * Telemetry (src/mio_telemetry.c)

    Records are encoded and stored by the operations of the selected store, and
    loaded and decoded by the parser.  The outside world the store writes to and
    reads from is the type [W].  The contract of a store and the medium it uses
    is the class [TelemetryChannel]; the theorem on the telemetry functions is
    proved against it. *)

From S2P Require Import Prelude Bytes HintMap CStr Logger Conf Telem.
Open Scope Z_scope.

Definition MIO_TM_ARRAY_MAX_NR_ELMS : Z := 32.
Definition MIO_LOG_DIR_PATH_MAX : Z := 4096.

(** struct mio_telemetry_rec_ops; an operation may be NULL.  The buffer and the
    time string a load gives, and a decode takes, may be NULL too. *)
Record rec_ops (W : Type) := MkRecOps {
  mtro_encode : option (mio_telemetry_rec → mplan → outcome (Z * option (list Z) * mplan));
  mtro_decode : option (option (list Z) → option (list Z) → mio_telemetry_rec → mplan →
                        outcome (Z * mio_telemetry_rec * mplan));
  mtro_store : option (option (list Z) → W → outcome (Z * W));
  mtro_load : option (W → mplan → outcome (Z * option (list Z) * option (list Z) * W * mplan))
}.
Arguments MkRecOps {W}.
Arguments mtro_encode {W}.
Arguments mtro_decode {W}.
Arguments mtro_store {W}.
Arguments mtro_load {W}.

(** The decoders return -EINVAL when the buffer or the time string is NULL. *)
Definition null_checked (decode : list Z → list Z → mio_telemetry_rec → mplan →
    outcome (Z * mio_telemetry_rec * mplan))
    (buf head : option (list Z)) (rec : mio_telemetry_rec) (p : mplan)
  : outcome (Z * mio_telemetry_rec * mplan) :=
  match buf, head with
  | Some buf, Some head => decode buf head rec p
  | _, _ => Done (- EINVAL, rec, p)
  end.

(** A pointer to a string: NULL, a live string, or freed. *)
Inductive sptr := SNull | SLive (s : list Z) | SFreed.

Definition sptr_read (s : sptr) : outcome (option (list Z)) :=
  match s with
  | SNull => Done None
  | SLive s => Done (Some s)
  | SFreed => Fault UseAfterFree
  end.

(** free() of a field; the field keeps its value. *)
Definition sptr_free (s : sptr) : outcome sptr :=
  match s with SNull => Done SNull | SLive _ => Done SFreed | SFreed => Fault DoubleFree end.

(** struct mio_telemetry_conf as the caller gives it. *)
Record mio_telemetry_conf := MkTmConf {
  mtc_type : Z;
  mtc_prefix : option (list Z);
  mtc_is_parser : bool;
  mtc_store_conf : option (list Z)
}.

(** The saved configuration, mio_telem_rec_ops and the world. *)
Record telem (W : Type) := MkTelem {
  te_prefix : sptr;
  te_store_conf : sptr;
  te_ops : option (rec_ops W);
  te_world : W
}.
Arguments MkTelem {W}.
Arguments te_prefix {W}.
Arguments te_store_conf {W}.
Arguments te_ops {W}.
Arguments te_world {W}.

Section Telemetry.
Context {W : Type}.

Definition set_world (w : W) (t : telem W) : telem W :=
  MkTelem (te_prefix t) (te_store_conf t) (te_ops t) w.

(** [telemetry_array_alloc]: whether elements could be allocated; a negative
    size is too much for malloc(). *)
Definition telemetry_array_alloc (type nr_elms : Z) (p : mplan) : Z * mplan :=
  match array_width type with
  | None => (- EINVAL, p)
  | Some w =>
      if s32 (Z.of_nat w * nr_elms) <? 0 then (- ENOMEM, p) else
      let '(ok, p) := plan_next p in
      if ok then (0, p) else (- ENOMEM, p)
  end.

(** [telemetry_do_advertise]. *)
Definition telemetry_do_advertise (prefix : bool) (topic : list Z) (type : Z) (value : tm_value)
    (t : telem W) (p : mplan) : outcome (Z * telem W * mplan) :=
  match te_ops t with
  | None => Done (0, t, p)
  | Some ops =>
      match mtro_encode ops, mtro_store ops with
      | Some encode, Some store =>
          prefix ← (if prefix : bool then sptr_read (te_prefix t) else Done None);
          '(rc, buf, p) ← encode (MkRec None prefix (Some topic) type value) p;
          if rc <? 0 then Done (rc, t, p) else
          '(rc, w) ← store buf (te_world t);
          Done (rc, set_world w t, p)
      | _, _ => Done (- EOPNOTSUPP, t, p)
      end
  end.

Definition mio_telemetry_advertise := telemetry_do_advertise true.
Definition mio_telemetry_advertise_noprefix := telemetry_do_advertise false.

(** The loop over the arguments: each is cut to the width of the elements. *)
Fixpoint advertise_elms (w : nat) (valist : list Z) (n : nat) : outcome (list Z) :=
  match n with
  | O => Done []
  | S n' =>
      match valist with
      | [] => Fault OutOfBounds
      | x :: valist => l ← advertise_elms w valist n'; Done (x mod 256 ^ Z.of_nat w :: l)
      end
  end.

(** [telemetry_do_array_advertise]; the result of [telemetry_do_advertise] is
    ignored. *)
Definition telemetry_do_array_advertise (prefix : bool) (topic : list Z) (type nr_elms : Z)
    (valist : list Z) (t : telem W) (p : mplan) : outcome (Z * telem W * mplan) :=
  match te_ops t with
  | None => Done (0, t, p)
  | Some ops =>
      match mtro_encode ops, mtro_store ops with
      | Some _, Some _ =>
          if MIO_TM_ARRAY_MAX_NR_ELMS <? nr_elms then Done (- EINVAL, t, p) else
          let '(rc, p) := telemetry_array_alloc type nr_elms p in
          if rc <? 0 then Done (rc, t, p) else
          match array_width type with
          | None => Done (- EINVAL, t, p)
          | Some w =>
              elms ← advertise_elms w valist (Z.to_nat nr_elms);
              '(_, t, p) ← telemetry_do_advertise prefix topic type (TvArray nr_elms (Some elms)) t p;
              Done (0, t, p)
          end
      | _, _ => Done (- EOPNOTSUPP, t, p)
      end
  end.

Definition mio_telemetry_array_advertise := telemetry_do_array_advertise true.
Definition mio_telemetry_array_advertise_noprefix := telemetry_do_array_advertise false.

(** [mio_telemetry_parse] for a store that is not NULL. *)
Definition mio_telemetry_parse (rec : mio_telemetry_rec) (t : telem W) (p : mplan)
  : outcome (Z * mio_telemetry_rec * telem W * mplan) :=
  match te_ops t with
  | None => Done (- EOPNOTSUPP, rec, t, p)
  | Some ops =>
      match mtro_load ops, mtro_decode ops with
      | Some load, Some decode =>
          '(rc, rec_buf, head, w, p) ← load (te_world t) p;
          let t := set_world w t in
          if rc <? 0 then Done (rc, rec, t, p) else
          '(rc, rec, p) ← decode rec_buf head rec p;
          Done (rc, rec, t, p)
      | _, _ => Done (- EOPNOTSUPP, rec, t, p)
      end
  end.

(** ** Configuration *)

Definition telemetry_conf_free (t : telem W) : outcome (telem W) :=
  prefix ← sptr_free (te_prefix t);
  store_conf ← sptr_free (te_store_conf t);
  Done (MkTelem prefix store_conf (te_ops t) (te_world t)).

Section Init.
(** Whether MIO_MOTR_ADDB is defined, the operations of the two stores,
    mio_instance_check() with the driver id, and the log file of the world. *)
Context (motr_addb : bool) (addb_ops log_ops : rec_ops W).
Context (instance_rc driver_id : Z).
Context (log_file_null : W → bool) (log_init : option (list Z) → W → outcome (Z * W)).

Definition telemetry_conf_save (conf : mio_telemetry_conf) (t : telem W) (p : mplan)
  : outcome (Z * telem W * mplan) :=
  let t := MkTelem SNull SNull (te_ops t) (te_world t) in
  '(ok, t, p) ← match mtc_prefix conf with
     | None => Done (true, t, p)
     | Some s => let '(ok, p) := plan_next p in
                 Done (ok, MkTelem (if ok then SLive s else SNull) SNull (te_ops t) (te_world t), p)
     end;
  if negb ok then Done (- ENOMEM, t, p) else
  let type := mtc_type conf in
  let '(rc, t, p) :=
    if type =? MIO_TM_ST_NONE then (0, t, p)
    else if motr_addb && (type =? MIO_TM_ST_ADDB) then (0, t, p)
    else if type =? MIO_TM_ST_LOG then
      match mtc_store_conf conf with
      | None => (0, t, p)
      | Some dir =>
          let '(ok, p) := plan_next p in
          if ok then
            (0, MkTelem (te_prefix t) (SLive (take (Z.to_nat MIO_LOG_DIR_PATH_MAX) dir)) (te_ops t)
                  (te_world t), p)
          else (- ENOMEM, t, p)
      end
    else (- EOPNOTSUPP, t, p) in
  if negb (rc =? 0) then t ← telemetry_conf_free t; Done (rc, t, p) else Done (rc, t, p).

Definition mio_telemetry_init (conf : mio_telemetry_conf) (t : telem W) (p : mplan)
  : outcome (Z * telem W * mplan) :=
  '(rc, t, p) ← telemetry_conf_save conf t p;
  if rc <? 0 then Done (rc, t, p) else
  let set_ops ops := MkTelem (te_prefix t) (te_store_conf t) ops (te_world t) in
  let type := mtc_type conf in
  if type =? MIO_TM_ST_NONE then Done (0, set_ops None, p)
  else if motr_addb && (type =? MIO_TM_ST_ADDB) then
    if negb (mtc_is_parser conf) && (instance_rc <? 0) then Done (instance_rc, t, p)
    else if negb (mtc_is_parser conf) && negb (driver_id =? MIO_MOTR) then Done (- EINVAL, t, p)
    else Done (0, set_ops (Some addb_ops), p)
  else if type =? MIO_TM_ST_LOG then
    if negb (mtc_is_parser conf) && log_file_null (te_world t) then
      '(rc, w) ← log_init (mtc_store_conf conf) (te_world t);
      if rc <? 0 then Done (rc, set_world w t, p)
      else Done (rc, MkTelem (te_prefix t) (te_store_conf t) (Some log_ops) w, p)
    else Done (0, set_ops (Some log_ops), p)
  else Done (- EOPNOTSUPP, t, p).
End Init.

Definition mio_telemetry_fini (t : telem W) : outcome (telem W) :=
  t ← telemetry_conf_free t;
  Done (MkTelem (te_prefix t) (te_store_conf t) None (te_world t)).
End Telemetry.

(** ** The interface of a store and its medium

    [tc_holds w rs]: the records [rs] are stored in [w] and not yet loaded, the
    oldest first.  Storing an encoded record that fits adds it at the end;
    loading takes the oldest and gives a buffer that decodes to it. *)
Class TelemetryChannel (W : Type) := {
  tc_encode : mio_telemetry_rec → mplan → outcome (Z * option (list Z) * mplan);
  tc_decode : list Z → list Z → mio_telemetry_rec → mplan → outcome (Z * mio_telemetry_rec * mplan);
  tc_store : option (list Z) → W → outcome (Z * W);
  tc_load : W → mplan → outcome (Z * option (list Z) * option (list Z) * W * mplan);
  tc_accepts : mio_telemetry_rec → Prop;
  tc_holds : W → list mio_telemetry_rec → Prop;
  tc_put : ∀ w rs r, tc_holds w rs → tc_accepts r →
    ∃ buf w', tc_encode r [] = Done (0, Some buf, []) ∧
      tc_store (Some buf) w = Done (0, w') ∧ tc_holds w' (rs ++ [r]);
  tc_get : ∀ w r rs, tc_holds w (r :: rs) →
    ∃ buf head w', tc_load w [] = Done (0, Some buf, Some head, w', []) ∧ tc_holds w' rs ∧
      ∀ old, tc_decode buf head old [] =
        Done (0, MkRec (Some head) (mtr_prefix r) (mtr_topic r) (mtr_type r) (mtr_value r), [])
}.

Definition channel_ops {W} `{TelemetryChannel W} : rec_ops W :=
  MkRecOps (Some tc_encode) (Some (null_checked tc_decode)) (Some tc_store) (Some tc_load).

(** Several records one after the other. *)
Record datum := MkDatum { d_topic : list Z; d_type : Z; d_value : tm_value }.

Definition datum_rec (prefix : option (list Z)) (d : datum) : mio_telemetry_rec :=
  MkRec None prefix (Some (d_topic d)) (d_type d) (d_value d).

Fixpoint advertise_all {W} (l : list datum) (t : telem W) (p : mplan) : outcome (list Z * telem W * mplan) :=
  match l with
  | [] => Done ([], t, p)
  | d :: l =>
      '(rc, t, p) ← mio_telemetry_advertise (d_topic d) (d_type d) (d_value d) t p;
      '(rcs, t, p) ← advertise_all l t p;
      Done (rc :: rcs, t, p)
  end.

Fixpoint parse_all {W} (n : nat) (rec : mio_telemetry_rec) (t : telem W) (p : mplan)
  : outcome (list (Z * mio_telemetry_rec) * telem W * mplan) :=
  match n with
  | O => Done ([], t, p)
  | S n' =>
      '(rc, rec, t, p) ← mio_telemetry_parse rec t p;
      '(recs, t, p) ← parse_all n' rec t p;
      Done ((rc, rec) :: recs, t, p)
  end.

Section Client.
Context {W : Type} `{TelemetryChannel W}.

Lemma advertise_spec prefix d (t : telem W) rs :
  te_ops t = Some channel_ops → sptr_read (te_prefix t) = Done prefix →
  tc_holds (te_world t) rs → tc_accepts (datum_rec prefix d) →
  ∃ w', mio_telemetry_advertise (d_topic d) (d_type d) (d_value d) t [] = Done (0, set_world w' t, []) ∧
    tc_holds w' (rs ++ [datum_rec prefix d]).
Proof.
  intros Hops Hpre Hholds Hacc.
  destruct (tc_put _ _ _ Hholds Hacc) as (buf & w' & Henc & Hst & Hw').
  exists w'. split; [|done]. unfold mio_telemetry_advertise, telemetry_do_advertise.
  rewrite Hops. cbn [channel_ops mtro_encode mtro_store]. rewrite Hpre. cbn [mbind outcome_bind].
  unfold datum_rec in Henc. rewrite Henc. cbn [mbind outcome_bind Z.ltb Z.compare]. by rewrite Hst.
Qed.

Lemma advertise_all_spec prefix l (t : telem W) rs :
  te_ops t = Some channel_ops → sptr_read (te_prefix t) = Done prefix →
  tc_holds (te_world t) rs → Forall (λ d, tc_accepts (datum_rec prefix d)) l →
  ∃ w', advertise_all l t [] = Done (replicate (length l) 0, set_world w' t, []) ∧
    tc_holds w' (rs ++ (datum_rec prefix <$> l)).
Proof.
  intros Hops Hpre Hholds Hl. revert t rs Hops Hpre Hholds.
  induction Hl as [|d l Hd Hl IH]; intros t rs Hops Hpre Hholds.
  - exists (te_world t). rewrite app_nil_r. split; [by destruct t|done].
  - destruct (advertise_spec prefix d t rs Hops Hpre Hholds Hd) as (w1 & H1 & Hw1).
    destruct (IH (set_world w1 t) _ Hops Hpre Hw1) as (w2 & H2 & Hw2).
    exists w2. split.
    + cbn [advertise_all length replicate]. rewrite H1. cbn [mbind outcome_bind]. by rewrite H2.
    + by rewrite fmap_cons, app_cons_assoc.
Qed.

Lemma parse_spec r rs old (t : telem W) :
  te_ops t = Some channel_ops → tc_holds (te_world t) (r :: rs) →
  ∃ rec w', mio_telemetry_parse old t [] = Done (0, rec, set_world w' t, []) ∧ tc_holds w' rs ∧
    mtr_prefix rec = mtr_prefix r ∧ mtr_topic rec = mtr_topic r ∧
    mtr_type rec = mtr_type r ∧ mtr_value rec = mtr_value r ∧ is_Some (mtr_time_str rec).
Proof.
  intros Hops Hholds. destruct (tc_get _ _ _ Hholds) as (buf & head & w' & Hld & Hw' & Hdec).
  eexists _, w'. split.
  - unfold mio_telemetry_parse. rewrite Hops. cbn [channel_ops mtro_load mtro_decode].
    rewrite Hld. cbn [mbind outcome_bind Z.ltb Z.compare null_checked]. rewrite Hdec.
    cbn [mbind outcome_bind]. reflexivity.
  - by eauto 10.
Qed.

(** What a parser finds for a datum that was advertised. *)
Definition parsed (prefix : option (list Z)) (d : datum) (res : Z * mio_telemetry_rec) : Prop :=
  res.1 = 0 ∧ mtr_prefix res.2 = prefix ∧ mtr_topic res.2 = Some (d_topic d) ∧
  mtr_type res.2 = d_type d ∧ mtr_value res.2 = d_value d ∧ is_Some (mtr_time_str res.2).

Lemma parse_all_spec prefix l rs old (t : telem W) :
  te_ops t = Some channel_ops → tc_holds (te_world t) ((datum_rec prefix <$> l) ++ rs) →
  ∃ res w', parse_all (length l) old t [] = Done (res, set_world w' t, []) ∧
    tc_holds w' rs ∧ Forall2 (parsed prefix) l res.
Proof.
  revert t old. induction l as [|d l IH]; intros t old Hops Hholds.
  - exists [], (te_world t). split; [by destruct t|by split].
  - rewrite fmap_cons in Hholds.
    destruct (parse_spec _ _ old t Hops Hholds) as (rec & w1 & H1 & Hw1 & Hrec).
    destruct (IH (set_world w1 t) rec Hops Hw1) as (res & w2 & H2 & Hw2 & Hres).
    exists ((0, rec) :: res), w2. split_and!; [|done|].
    + cbn [parse_all length]. rewrite H1. cbn [mbind outcome_bind]. by rewrite H2.
    + constructor; [|done]. destruct Hrec as (? & ? & ? & ? & ?). unfold parsed, datum_rec in *. simpl in *.
      by split_and!.
Qed.
End Client.

(** (C9) Telemetry is a queue of records.  Over every store that keeps the
    contract, advertising any number of acceptable values returns 0 each time,
    and parsing as many records gives them back in the order they were
    advertised, each with the configured prefix, its topic, type and value and a
    time string, and leaves the store empty. *)
Theorem mio_telemetry_fifo {W} (C : TelemetryChannel W) (l : list datum) (prefix : option (list Z))
    (old : mio_telemetry_rec) (t : telem W)
  (Hops : te_ops t = Some channel_ops) (Hpre : sptr_read (te_prefix t) = Done prefix)
  (Hempty : tc_holds (te_world t) []) (Hok : Forall (λ d, tc_accepts (datum_rec prefix d)) l) :
  ∃ t' t'' res, advertise_all l t [] = Done (replicate (length l) 0, t', []) ∧
    parse_all (length l) old t' [] = Done (res, t'', []) ∧
    Forall2 (parsed prefix) l res ∧ tc_holds (te_world t'') [].
Proof.
  destruct (advertise_all_spec prefix l t [] Hops Hpre Hempty Hok) as (w1 & H1 & Hw1).
  cbn [app] in Hw1. rewrite <- (app_nil_r (datum_rec prefix <$> l)) in Hw1.
  destruct (parse_all_spec prefix l [] old (set_world w1 t) Hops Hw1) as (res & w2 & H2 & Hw2 & Hres).
  exists (set_world w1 t), (set_world w2 (set_world w1 t)), res. by split_and!.
Qed.

(** ** A medium that keeps the buffers as they are

    Any store whose encoder and decoder keep their contract makes a channel over
    a medium that hands out the buffers it was given, oldest first. *)
Class TelemetryMedium (W : Type) := {
  tm_store : option (list Z) → W → outcome (Z * W);
  tm_load : W → mplan → outcome (Z * option (list Z) * option (list Z) * W * mplan);
  tm_holds : W → list (list Z) → Prop;
  tm_put : ∀ w bs b, tm_holds w bs → ∃ w', tm_store (Some b) w = Done (0, w') ∧ tm_holds w' (bs ++ [b]);
  tm_get : ∀ w b bs, tm_holds w (b :: bs) →
    ∃ head w', tm_load w [] = Done (0, Some b, Some head, w', []) ∧ (length head <= 63)%nat ∧ tm_holds w' bs
}.

(** The medium holds the encodings of acceptable records. *)
Definition holds_encoded {W} `{TelemetryStore} `{TelemetryMedium W} (w : W)
    (rs : list mio_telemetry_rec) : Prop :=
  ∃ bs, tm_holds w bs ∧ Forall2 (λ r b, ts_accepts r ∧ ts_encode r [] = Done (0, Some b, [])) rs bs.

#[export, refine] Instance store_channel {W} (S : TelemetryStore) (M : TelemetryMedium W)
  : TelemetryChannel W := {
  tc_encode := ts_encode;
  tc_decode := ts_decode;
  tc_store := tm_store;
  tc_load := tm_load;
  tc_accepts := ts_accepts;
  tc_holds := holds_encoded
}.
Proof.
  - intros w rs r (bs & Hbs & Hrs) Hacc. destruct (ts_roundtrip r [] r Hacc) as (b & Henc & _); [simpl; lia|].
    destruct (tm_put w bs b Hbs) as (w' & Hst & Hw'). exists b, w'. split_and!; [done..|].
    exists (bs ++ [b]). split; [done|]. apply Forall2_app; [done|]. by constructor.
  - intros w r rs (bs & Hbs & Hrs). apply Forall2_cons_inv_l in Hrs as (b & bs' & [Hacc Henc] & Hrs & ->).
    destruct (tm_get w b bs' Hbs) as (head & w' & Hld & Hhead & Hw').
    exists b, head, w'. split_and!; [done|by exists bs'|]. intros old.
    destruct (ts_roundtrip r head old Hacc Hhead) as (b' & Henc' & Hdec).
    rewrite Henc in Henc'. injection Henc' as <-. done.
Defined.

(** A queue of buffers in memory. *)
#[export, refine] Instance queue_medium : TelemetryMedium (list (list Z)) := {
  tm_store b w := match b with Some b => Done (0, w ++ [b]) | None => Done (0, w) end;
  tm_load w p := match w with b :: w => Done (0, Some b, Some [49], w, p) | [] => Done (-1, None, None, [], p) end;
  tm_holds w bs := w = bs
}.
Proof.
  - intros w bs b ->. by eexists.
  - intros w b bs ->. exists [49], bs. split_and!; [done|simpl; lia|done].
Defined.

(** ** Errors and configuration *)

(** Advertising an array reports success even when nothing is stored: for
    an array of up to 32 elements whose copy can be allocated the result is 0
    whatever the encoder and the store return, and the state is the one that
    the single advertisement leaves. *)
Theorem mio_telemetry_array_advertise_ignores {W} (t t' : telem W) (ops : rec_ops W) (prefix : bool)
    (topic : list Z) (type nr_elms : Z) (w : nat) (valist : list Z) (p p' : mplan) (rc : Z)
  (Hops : te_ops t = Some ops) (Henc : is_Some (mtro_encode ops)) (Hst : is_Some (mtro_store ops))
  (Htype : array_width type = Some w) (Hnr : 0 <= nr_elms <= MIO_TM_ARRAY_MAX_NR_ELMS)
  (Hargs : Z.of_nat (length valist) = nr_elms)
  (Hone : telemetry_do_advertise prefix topic type
     (TvArray nr_elms (Some ((λ x, x mod 256 ^ Z.of_nat w) <$> valist))) t p = Done (rc, t', p')) :
  telemetry_do_array_advertise prefix topic type nr_elms valist t (true :: p) = Done (0, t', p').
Proof.
  assert (Helms : ∀ l, advertise_elms w l (length l) = Done ((λ x, x mod 256 ^ Z.of_nat w) <$> l)).
  { induction l as [|x l IH]; [done|]. cbn [advertise_elms length]. by rewrite IH. }
  unfold telemetry_do_array_advertise. rewrite Hops.
  destruct Henc as [encode Henc], Hst as [store Hst]. rewrite Henc, Hst.
  unfold MIO_TM_ARRAY_MAX_NR_ELMS in *. rewrite (proj2 (Z.ltb_ge _ _)) by lia.
  unfold telemetry_array_alloc. rewrite Htype. pose proof (array_width_in _ _ Htype) as Hw.
  assert (Z.of_nat w <= 8).
  { apply elem_of_cons in Hw as [->|Hw]; [lia|]. apply elem_of_cons in Hw as [->|Hw]; [lia|].
    apply list_elem_of_singleton in Hw as ->. lia. }
  rewrite s32_small by nia. rewrite (proj2 (Z.ltb_ge _ 0)) by nia. cbn [plan_next Z.ltb Z.compare].
  rewrite <- Hargs, Nat2Z.id, Helms. cbn [mbind outcome_bind]. rewrite Hargs, Hone. done.
Qed.

(** A store that refuses every record. *)
Definition ex_failing_ops : rec_ops unit :=
  MkRecOps (Some (λ _ p, Done (- EINVAL, None, p))) None (Some (λ _ w, Done (- EIO, w))) None.

Lemma mio_telemetry_array_advertise_ignores_witness :
  let t := MkTelem SNull SNull (Some ex_failing_ops) tt in
  telemetry_do_advertise true [97] MIO_TM_TYPE_ARRAY_UINT16 (TvArray 2 (Some [1; 2])) t [] =
    Done (- EINVAL, t, []) ∧
  telemetry_do_array_advertise true [97] MIO_TM_TYPE_ARRAY_UINT16 2 [1; 65538] t [true] = Done (0, t, []).
Proof.
  split; [reflexivity|].
  refine (mio_telemetry_array_advertise_ignores (MkTelem SNull SNull (Some ex_failing_ops) tt) _
    ex_failing_ops true [97] MIO_TM_TYPE_ARRAY_UINT16 2 2 [1; 65538] [] [] (- EINVAL)
    _ _ _ _ _ _ _); [reflexivity|by eexists|by eexists|reflexivity| |reflexivity|reflexivity].
  split; vm_compute; congruence.
Defined.

(** Initialisation and finalisation.  When mio_telemetry_init() does not
    fail, mio_telemetry_fini() releases the saved configuration once and
    deselects the store, so that advertising does nothing afterwards.  But the
    freed fields keep their values: after an initialisation with a prefix that
    fails because the type of store is not supported, and after a first
    mio_telemetry_fini(), the next one frees them again. *)
Theorem mio_telemetry_init_fini {W} (motr_addb : bool) (addb_ops log_ops : rec_ops W)
    (instance_rc driver_id : Z) (log_file_null : W → bool)
    (log_init : option (list Z) → W → outcome (Z * W)) (conf : mio_telemetry_conf)
    (t t' : telem W) (s : list Z) (p p' : mplan) (rc : Z)
  (Hprefix : mtc_prefix conf = Some s)
  (Hinit : mio_telemetry_init motr_addb addb_ops log_ops instance_rc driver_id log_file_null log_init
     conf t p = Done (rc, t', p')) :
  (0 <= rc → ∃ t'', mio_telemetry_fini t' = Done t'' ∧
     mio_telemetry_fini t'' = Fault DoubleFree ∧
     ∀ topic type value q, mio_telemetry_advertise topic type value t'' q = Done (0, t'', q)) ∧
  (mtc_type conf ∉ [MIO_TM_ST_NONE; MIO_TM_ST_LOG; MIO_TM_ST_ADDB] → hd true p = true →
     rc = - EOPNOTSUPP ∧ mio_telemetry_fini t' = Fault DoubleFree).
Proof.
  unfold mio_telemetry_init in Hinit. apply outcome_bind_Done in Hinit as ([[rc1 t1] p1] & Hsave & Hinit).
  assert (Hs : (rc1 < 0 ∧ (te_prefix t1 = SNull ∨ te_prefix t1 = SFreed)) ∨
    (rc1 = 0 ∧ te_prefix t1 = SLive s ∧ te_store_conf t1 ≠ SFreed)).
  { unfold telemetry_conf_save in Hsave. rewrite Hprefix in Hsave. destruct (plan_next p) as [[] p2].
    - cbn [mbind outcome_bind negb] in Hsave.
      destruct (mtc_type conf =? MIO_TM_ST_NONE); [cbn in Hsave; simplify_eq; by right|].
      destruct (motr_addb && _); [cbn in Hsave; simplify_eq; by right|].
      destruct (mtc_type conf =? MIO_TM_ST_LOG);
        [|cbn in Hsave; change (negb (- EOPNOTSUPP =? 0)) with true in Hsave; cbv iota in Hsave; simplify_eq; left; split; [reflexivity|by right]].
      destruct (mtc_store_conf conf); [|cbn in Hsave; simplify_eq; right; by split_and!].
      destruct (plan_next p2) as [[] p3]; cbn in Hsave; change (negb (- ENOMEM =? 0)) with true in Hsave; cbv iota in Hsave;
        simplify_eq; [right; by split_and!|left; split; [reflexivity|by right]].
    - cbn [mbind outcome_bind negb] in Hsave. injection Hsave as <- <- <-. left. split; [reflexivity|by left]. }
  split.
  - intros Hrc. destruct Hs as [[Hneg _]|(-> & Hlive & Hsc)].
    { rewrite (proj2 (Z.ltb_lt _ _)) in Hinit by done. injection Hinit as -> _ _. lia. }
    cbn [Z.ltb Z.compare] in Hinit.
    assert (Hsame : te_prefix t' = SLive s ∧ te_store_conf t' = te_store_conf t1).
    { repeat (case_match; simplify_eq; try done). apply outcome_bind_Done in Hinit as ([rc2 w2] & _ & Hinit).
      case_match; by simplify_eq. }
    destruct Hsame as [Hp' Hc']. unfold mio_telemetry_fini, telemetry_conf_free. rewrite Hp', Hc'.
    cbn [sptr_free mbind outcome_bind]. destruct (te_store_conf t1); [..|done];
      (eexists; split; [reflexivity|]; split; [reflexivity|]; reflexivity).
  - intros Hty Hp. rewrite !not_elem_of_cons in Hty. destruct Hty as (Hn & Hl & Ha & _).
    unfold telemetry_conf_save in Hsave. rewrite Hprefix in Hsave.
    assert (∃ p2, plan_next p = (true, p2)) as [p2 Hplan].
    { destruct p as [|b p]; [by eexists|]. simpl in Hp. subst b. by eexists. }
    rewrite Hplan in Hsave. cbn [mbind outcome_bind negb] in Hsave.
    rewrite !(proj2 (Z.eqb_neq _ _)) in Hsave by done. rewrite andb_false_r in Hsave.
    cbn in Hsave. change (negb (- EOPNOTSUPP =? 0)) with true in Hsave. cbv iota in Hsave. injection Hsave as <- <- <-. cbn in Hinit. injection Hinit as <- <- <-. done.
Qed.

Lemma mio_telemetry_init_fini_witness :
  (∃ t'', mio_telemetry_fini (MkTelem (SLive [97]) SNull None tt) = Done t'' ∧
     mio_telemetry_fini t'' = Fault DoubleFree) ∧
  mio_telemetry_fini (MkTelem SFreed SNull None tt) = Fault DoubleFree.
Proof.
  split.
  - destruct (mio_telemetry_init_fini true ex_failing_ops ex_failing_ops 0 0 (λ _, false) (λ _ w, Done (0, w))
      (MkTmConf MIO_TM_ST_NONE (Some [97]) false None) (MkTelem SNull SNull None tt)
      (MkTelem (SLive [97]) SNull None tt) [97] [] [] 0 eq_refl eq_refl) as [H _].
    destruct H as (t'' & H1 & H2 & _); [lia|]. exists t''. split; [exact H1|exact H2].
  - destruct (mio_telemetry_init_fini true ex_failing_ops ex_failing_ops 0 0 (λ _, false) (λ _ w, Done (0, w))
      (MkTmConf 7 (Some [97]) false None) (MkTelem SNull SNull None tt)
      (MkTelem SFreed SNull None tt) [97] [] [] (- EOPNOTSUPP) eq_refl eq_refl) as [_ H].
    destruct H as [_ H]; [set_solver by done|reflexivity|]. exact H.
Defined.
