(* ===== verification/TelemLogFile.v ===== *)
(** * Telemetry in the log file (src/telemetry_log.c: store and load)

    Records are written with mio_log() and found again by reading the log file
    line by line.  The file is its unread bytes.  The last theorem joins the
    encoder, the log, the loader and the decoder: the log file is a queue of
    records, as mio_telemetry_fifo needs. *)

From Stdlib Require Import String.
From S2P Require Import Prelude Bytes HintMap CStr Clock Logger Conf Telem TelemLog Telemetry.
Open Scope Z_scope.

(** getline(): the next line with its end, and what is left. *)
Fixpoint getline (s : list Z) : list Z * list Z :=
  match s with
  | [] => ([], [])
  | c :: s' => if c =? 10 then ([c], s') else let '(l, r) := getline s' in (c :: l, r)
  end.

(** The lines that come before the first one with the name of the level are
    skipped; the result is that line and the rest, or [None] at the end. *)
Fixpoint load_find (fuel : nat) (name file : list Z) : option (list Z * list Z) :=
  match fuel with
  | O => None
  | S fuel' =>
      let '(line, rest) := getline file in
      match line with
      | [] => None
      | _ => match strstr (until_nul line) name with
             | None => load_find fuel' name rest
             | Some _ => Some (line, rest)
             end
      end
  end.

(** The part of [mio_telem_log_load] behind the loop.  [tail] are the bytes of
    getline()'s buffer behind the NUL of the line. *)
Definition load_line (name line tail : list Z) (p : mplan)
  : outcome (Z * option (list Z) * option (list Z) * mplan) :=
  let a := line ++ 0 :: tail in
  let skip := Z.to_nat (strnlen name MIO_LOG_MAX_REC_LEN + 2) in
  text ← cstr_read (drop skip a);
  let clock := telem_log_skip_delimiter text in
  let clock_pos := (skip + (length text - length clock))%nat in
  let '(word, _) := telem_log_jump_to_delimiter clock in
  let '(ok, p) := plan_next p in
  if negb ok then Done (- ENOMEM, None, None, p) else
  if (length line <? length word)%nat then Done (0, None, None, p) else
  let '(ok, p) := plan_next p in
  if negb ok then Done (0, None, None, p) else
  rec ← buf_get a (clock_pos + length word) (length line - length word);
  Done (0, Some rec, Some (until_nul word), p).

Section LogFile.

Context (clock : nat → list Z) (stack : nat → list Z) (fwrite_ok : nat → bool).
Context (tail : list Z).

(** [mio_telem_log_store]. *)
Definition mio_telem_log_store (buf : option (list Z)) (w : log_state) : outcome (Z * log_state) :=
  match buf with
  | None => Fault NullDeref
  | Some buf =>
      text ← cstr_read buf;
      w ← mio_log clock stack fwrite_ok MIO_TELEMETRY (text ++ [10]) w;
      Done (0, w)
  end.

(** [mio_telem_log_load]; EOF is -1. *)
Definition mio_telem_log_load (w : log_state) (p : mplan)
  : outcome (Z * option (list Z) * option (list Z) * log_state * mplan) :=
  match mio_log_file w with
  | LogOpen file =>
      name ← mio_log_levels MIO_TELEMETRY;
      match load_find (S (length file)) name file with
      | None =>
          Done (-1, None, None, MkLog (mio_log_level w) (LogOpen []) (bytes_since_flush w) (log_calls w), p)
      | Some (line, rest) =>
          '(rc, buf, head, p) ← load_line name line tail p;
          Done (rc, buf, head, MkLog (mio_log_level w) (LogOpen rest) (bytes_since_flush w) (log_calls w), p)
      end
  | _ => Fault AssertFail
  end.
End LogFile.

(** ** Lines *)

Lemma getline_line s rest :
  Forall (λ c, c ≠ 10) s → getline (s ++ 10 :: rest) = (s ++ [10], rest).
Proof.
  induction 1 as [|c s Hc Hs IH]; [done|]. cbn [app getline].
  by rewrite (proj2 (Z.eqb_neq _ _) Hc), IH.
Qed.

Lemma is_prefix_app t s : is_prefix t (t ++ s) = true.
Proof. apply is_prefix_spec. by exists s. Qed.

Lemma strstr_prefix t s : strstr (t ++ s) t = Some (t ++ s).
Proof. pose proof (is_prefix_app t s) as Hp. destruct (t ++ s); cbn [strstr]; by rewrite Hp. Qed.

Lemma strstr_found pre t post : is_Some (strstr (pre ++ t ++ post) t).
Proof.
  induction pre as [|c pre IH].
  - cbn [app]. rewrite strstr_prefix. by eexists.
  - cbn [app strstr]. destruct (is_prefix _ _); [by eexists|done].
Qed.

(** Every line is a piece of the file, so the fuel of [load_find] is enough. *)
Lemma getline_app s : (getline s).1 ++ (getline s).2 = s.
Proof.
  induction s as [|c s IH]; [done|]. cbn [getline]. destruct (c =? 10); [done|].
  destruct (getline s) as [l r]. simpl in *. by rewrite IH.
Qed.

Lemma load_find_fuel name file fuel :
  (length file < fuel)%nat → load_find fuel name file = load_find (S (length file)) name file.
Proof.
  remember (S (length file)) as n eqn:Hn. assert (length file < n)%nat as Hlt by lia. clear Hn.
  revert file fuel Hlt. induction n as [|n IH]; intros file fuel Hlt Hf; [lia|].
  destruct fuel as [|fuel]; [lia|]. cbn [load_find].
  pose proof (getline_app file) as Happ. destruct (getline file) as [line rest]. simpl in Happ.
  destruct line as [|c line]; [done|]. apply (f_equal length) in Happ. rewrite length_app in Happ.
  simpl in Happ. destruct (strstr _ _); [done|]. apply IH; lia.
Qed.

(** The line of a record at a time. *)
Definition record_line (time : list Z) (r : mio_telemetry_rec) : list Z :=
  log_head (str "telem") ++ time ++ [32] ++ log_line (log_words r) ++ [10].

(** A time: one word that fits into the time stamp. *)
Definition time_ok (time : list Z) : Prop := log_word time ∧ (length time <= 63)%nat.

(** The times that [log_time] prints are such words. *)
Lemma log_time_text_time_ok localtime now :
  tm_ok (localtime (mio_time_seconds now)) → time_ok (log_time_text localtime false now).
Proof.
  intros Ht. destruct (log_time_text_ok localtime false now Ht) as [Hl Hf]. split; [split|]; [lia| |lia].
  eapply Forall_impl; [exact Hf|]. unfold time_char. intros c Hc. split; [lia|]. unfold is_space.
  rewrite (proj2 (Z.eqb_neq _ _)), (proj2 (Z.leb_gt _ 13)) by lia. by rewrite andb_false_r.
Qed.

(** A record whose line fits into the buffer of mio_log(). *)
Definition line_ok (r : mio_telemetry_rec) : Prop :=
  log_rec_ok r ∧ (length (log_line (log_words r)) <= 950)%nat.

Definition plain (c : Z) : Prop := c ≠ 0 ∧ c ≠ 10.

Lemma log_word_plain w : log_word w → Forall plain w.
Proof.
  intros [_ Hw]. eapply Forall_impl; [exact Hw|]. intros c [H0 Hs]. split; [done|].
  intros ->. done.
Qed.

Lemma log_line_plain ws : Forall log_word ws → Forall plain (log_line ws).
Proof.
  induction 1 as [|w ws Hw Hws IH]; [constructor|]. rewrite log_line_cons.
  apply Forall_app; split; [by apply log_word_plain|]. by constructor.
Qed.

(** All of the line but its end. *)
Lemma record_line_plain time r :
  time_ok time → log_rec_ok r →
  ∃ s, record_line time r = s ++ [10] ∧ Forall plain s.
Proof.
  intros [Ht _] Hr. exists (log_head (str "telem") ++ time ++ [32] ++ log_line (log_words r)).
  split; [unfold record_line; by rewrite <- !app_assoc|].
  apply Forall_app; split; [by repeat constructor|].
  apply Forall_app; split; [by apply log_word_plain|]. apply Forall_app; split; [by repeat constructor|].
  by apply log_line_plain, log_words_ok.
Qed.

Lemma load_find_line time r rest fuel :
  time_ok time → log_rec_ok r → (0 < fuel)%nat →
  load_find fuel (str "telem") (record_line time r ++ rest) = Some (record_line time r, rest).
Proof.
  intros Ht Hr Hf. destruct fuel as [|fuel]; [lia|]. cbn [load_find].
  destruct (record_line_plain time r Ht Hr) as (s & Hs & Hplain).
  assert (Hg : getline (record_line time r ++ rest) = (record_line time r, rest)).
  { rewrite Hs, <- app_assoc. apply getline_line. eapply Forall_impl; [exact Hplain|by intros c []]. }
  rewrite Hg. assert (Hn : until_nul (record_line time r) = record_line time r).
  { rewrite <- (app_nil_r (record_line time r)), until_nul_app; [done|]. rewrite Hs.
    apply Forall_app; split; [eapply Forall_impl; [exact Hplain|by intros c []]|by repeat constructor]. }
  rewrite Hn.
  destruct (strstr_found [91] (str "telem") ([93; 32] ++ time ++ [32] ++ log_line (log_words r) ++ [10]))
    as [x Hx].
  change (record_line time r) with
    ([91] ++ str "telem" ++ [93; 32] ++ time ++ [32] ++ log_line (log_words r) ++ [10]) at 2.
  by rewrite Hx.
Qed.

(** Reading the line of a record back, with enough bytes behind it. *)
Lemma load_line_record time r tail :
  time_ok time → log_rec_ok r →
  load_line (str "telem") (record_line time r) tail [] =
    if decide (7 <= length tail)%nat then
      Done (0, Some ([32] ++ log_line (log_words r) ++ [10] ++ 0 :: take 7 tail), Some time, [])
    else Fault OutOfBounds.
Proof.
  intros [Ht Hlen] Hr. unfold load_line. change (Z.to_nat (strnlen (str "telem") MIO_LOG_MAX_REC_LEN + 2)) with 7%nat.
  set (text := log_line (log_words r)).
  assert (Hline : record_line time r = str "[telem]" ++ at_word [32] time (text ++ [10])) by done.
  assert (Hread : cstr_read (drop 7 (record_line time r ++ 0 :: tail)) = Done (at_word [32] time (text ++ [10]))).
  { rewrite Hline, <- app_assoc. change (drop 7 (str "[telem]" ++ ?l)) with l. apply cstr_read_term.
    destruct (record_line_plain time r (conj Ht Hlen) Hr) as (s & Hs & Hplain).
    assert (Hnn : no_nul (record_line time r)).
    { rewrite Hs. apply Forall_app; split; [eapply Forall_impl; [exact Hplain|by intros c []]|by repeat constructor]. }
    rewrite Hline in Hnn. by apply Forall_app in Hnn as [_ Hnn]. }
  rewrite Hread. cbn [mbind outcome_bind].
  rewrite skip_at_word, jump_at_word by (done || by right). cbn [plan_next negb].
  replace (length (at_word [32%Z] time (text ++ [10%Z])) - length (at_word [] time (text ++ [10%Z])))%nat with 1%nat.
  2:{ unfold at_word. cbn [app length]. lia. }
  assert (Hll : length (record_line time r) = (length time + (length text + 10))%nat).
  { rewrite Hline. unfold at_word. rewrite !length_app. simpl length. rewrite length_app. simpl. lia. }
  rewrite (proj2 (Nat.ltb_ge _ _)) by lia. rewrite Hll.
  replace (length time + (length text + 10) - length time)%nat with (length text + 10)%nat by lia.
  rewrite until_nul_id by (by destruct Ht).
  assert (Hsplit : record_line time r ++ 0 :: tail =
    (log_head (str "telem") ++ time) ++ ([32] ++ text ++ [10] ++ 0 :: tail)).
  { unfold record_line. rewrite <- !app_assoc. done. }
  rewrite Hsplit. unfold buf_get. rewrite length_app. 
  replace (7 + 1 + length time)%nat with (length (log_head (str "telem") ++ time)) by (rewrite length_app; done).
  rewrite drop_app_length, !length_app. cbn [length].
  case_decide as H7.
  - rewrite decide_True by lia. cbn [mbind outcome_bind]. do 3 f_equal.
    rewrite (app_assoc [32]), (app_assoc ([32] ++ text)), take_app_ge by (rewrite !length_app; simpl; lia).
    rewrite <- !app_assoc. do 3 f_equal. rewrite !length_app. simpl length.
    replace (length text + 10 - (1 + (length text + 1)))%nat with 8%nat by lia. done.
  - rewrite decide_False by lia. done.
Qed.

(** Loading the first record of the file. *)
Lemma mio_telem_log_load_record tail w time r rest :
  time_ok time → log_rec_ok r → mio_log_file w = LogOpen (record_line time r ++ rest) →
  mio_telem_log_load tail w [] =
    if decide (7 <= length tail)%nat then
      Done (0, Some ([32] ++ log_line (log_words r) ++ [10] ++ 0 :: take 7 tail), Some time,
            MkLog (mio_log_level w) (LogOpen rest) (bytes_since_flush w) (log_calls w), [])
    else Fault OutOfBounds.
Proof.
  intros Ht Hr Hfile. unfold mio_telem_log_load. rewrite Hfile.
  change (mio_log_levels MIO_TELEMETRY) with (Done (str "telem")). cbn [mbind outcome_bind].
  rewrite load_find_line by (done || lia). rewrite load_line_record by done. by case_decide.
Qed.

(** ** The log file as a channel *)

(** What the program relies on outside itself: every write succeeds, the clock
    gives a text without blanks, the memory of the uninitialised array holds a
    text of the same length, there is no digit in the memory numbers are read
    through, and getline()'s buffer has room behind the line. *)
Record log_env_ok (clock stack : nat → list Z) (fwrite_ok : nat → bool) (nstack tail : list Z) : Prop := {
  le_write : ∀ i, fwrite_ok i = true;
  le_clock : ∀ i, time_ok (clock i);
  le_stack : ∀ i, length (stack i) = 64%nat ∧ length (until_nul (stack i)) = length (clock i);
  le_numbers : stack_clean nstack;
  le_tail : (7 <= length tail)%nat
}.

Definition holds_lines (w : log_state) (rs : list mio_telemetry_rec) : Prop :=
  ∃ ts, Forall2 (λ t r, time_ok t ∧ line_ok r) ts rs ∧
    mio_log_file w = LogOpen (concat (zip_with record_line ts rs)).

Lemma length_record_line time r :
  length (record_line time r) = (length time + (length (log_line (log_words r)) + 10))%nat.
Proof. unfold record_line, log_head. rewrite !length_app. simpl length. lia. Qed.

(** Storing the encoding of a record appends its line. *)
Lemma store_record clock stack fwrite_ok nstack tail r w file :
  log_env_ok clock stack fwrite_ok nstack tail → line_ok r → mio_log_file w = LogOpen file →
  ∃ w', mio_telem_log_store clock stack fwrite_ok (Some (log_line (log_words r) ++ [0])) w = Done (0, w') ∧
    mio_log_file w' = LogOpen (file ++ record_line (clock (log_calls w)) r).
Proof.
  intros [Hw Hc Hs _ _] [Hr Hlen] Hfile. unfold mio_telem_log_store.
  pose proof (log_line_no_nul _ (log_words_ok r Hr)) as Hnn.
  rewrite cstr_read_term by done. cbn [mbind outcome_bind].
  destruct (Hc (log_calls w)) as [[Hpos Hword] Hc63], (Hs (log_calls w)) as [Hs64 Hsn].
  rewrite (mio_log_spec clock stack fwrite_ok MIO_TELEMETRY (str "telem")
    (log_line (log_words r) ++ [10]) w file eq_refl Hfile (Hw _) Hs64).
  2:{ eapply Forall_impl; [exact Hword|by intros c []]. }
  2:{ done. }
  2:{ apply Forall_app; split; [done|by repeat constructor]. }
  cbn [mbind outcome_bind]. eexists. split; [done|]. cbn [mio_log_file]. do 2 f_equal.
  unfold log_entry. rewrite Hsn, decide_True, firstn_all by done.
  rewrite take_ge.
  - unfold record_line. by rewrite <- !app_assoc.
  - rewrite !length_app. unfold log_head. rewrite !length_app. simpl length. lia.
Qed.

#[export, refine] Instance log_file_channel clock stack fwrite_ok nstack tail
    (Henv : log_env_ok clock stack fwrite_ok nstack tail) : TelemetryChannel log_state := {
  tc_encode := mio_telem_log_encode;
  tc_decode := mio_telem_log_decode nstack;
  tc_store := mio_telem_log_store clock stack fwrite_ok;
  tc_load := mio_telem_log_load tail;
  tc_accepts := line_ok;
  tc_holds := holds_lines
}.
Proof.
  - intros w rs r (ts & Hts & Hfile) Hr. destruct (store_record _ _ _ _ _ r w _ Henv Hr Hfile) as (w' & Hst & Hf').
    exists (log_line (log_words r) ++ [0]), w'. split_and!; [apply log_encode_spec; by destruct Hr|done|].
    exists (ts ++ [clock (log_calls w)]). split.
    + apply Forall2_app; [done|]. constructor; [|constructor]. split; [apply Henv|done].
    + rewrite Hf'. f_equal. rewrite zip_with_app by (by eapply Forall2_length).
      rewrite concat_app. simpl. by rewrite app_nil_r.
  - intros w r rs (ts & Hts & Hfile). apply Forall2_cons_inv_r in Hts as (t & ts' & [Ht Hr] & Hts & ->).
    cbn [zip_with concat] in Hfile. pose proof Hr as [Hrok _].
    eexists _, t, _. split_and!.
    + rewrite (mio_telem_log_load_record _ _ _ _ _ Ht Hrok Hfile).
      rewrite decide_True by apply Henv. reflexivity.
    + exists ts'. by split.
    + intros old. apply (log_decode_spec nstack r t old [32] [10] (take 7 tail)); try done.
      * apply Henv.
      * destruct Ht as [_ Ht]. unfold MIO_LOG_MAX_REC_LEN. lia.
      * by right.
      * by repeat constructor.
Defined.

(** ** Theorems *)

(** The loader copies too much.  For a file that starts with the line of a
    record the loader copies as many bytes as the line has without the time,
    but starting behind the time; it reads seven bytes behind the NUL of the
    line.  With that room it gives the words and the time; when getline() has
    returned a smaller buffer it reads out of its bounds. *)
Theorem mio_telem_log_load_overreads (time rest tail : list Z) (r : mio_telemetry_rec) (w : log_state)
  (Htime : time_ok time) (Hr : log_rec_ok r)
  (Hfile : mio_log_file w = LogOpen (record_line time r ++ rest)) :
  (7 <= Z.of_nat (length tail) →
     ∃ buf w', mio_telem_log_load tail w [] = Done (0, Some buf, Some time, w', []) ∧
       until_nul buf = [32] ++ log_line (log_words r) ++ [10] ∧ mio_log_file w' = LogOpen rest) ∧
  (Z.of_nat (length tail) < 7 → mio_telem_log_load tail w [] = Fault OutOfBounds).
Proof.
  rewrite (mio_telem_log_load_record _ _ _ _ _ Htime Hr Hfile). split; intros H7.
  - rewrite decide_True by lia. eexists _, _. split; [reflexivity|].
    split; [|reflexivity].
    rewrite (app_assoc _ [10]), app_assoc, until_nul_app.
    + cbn [until_nul Z.eqb]. by rewrite app_nil_r.
    + apply Forall_app; split; [by repeat constructor|]. apply Forall_app; split; [|by repeat constructor].
      by apply log_line_no_nul, log_words_ok.
  - by rewrite decide_False by lia.
Qed.

Definition ex_time : list Z := str "2021-01-01-10:00:00.000000000".

Lemma ex_time_ok : time_ok ex_time.
Proof. split; [|vm_compute; lia]. split; [split; vm_compute; congruence|by repeat constructor]. Qed.

Lemma mio_telem_log_load_overreads_witness :
  (∃ buf w', mio_telem_log_load (replicate 7 0)
     (MkLog 0 (LogOpen (record_line ex_time ex_log_rec ++ str "[info] x")) 0 0) [] =
       Done (0, Some buf, Some ex_time, w', []) ∧ mio_log_file w' = LogOpen (str "[info] x")) ∧
  mio_telem_log_load [] (MkLog 0 (LogOpen (record_line ex_time ex_log_rec ++ str "[info] x")) 0 0) [] =
    Fault OutOfBounds.
Proof.
  split.
  - destruct (mio_telem_log_load_overreads ex_time (str "[info] x") (replicate 7 0) ex_log_rec
      (MkLog 0 (LogOpen (record_line ex_time ex_log_rec ++ str "[info] x")) 0 0) ex_time_ok ex_log_rec_ok
      eq_refl) as [H _].
    destruct H as (buf & w' & H1 & _ & H2); [vm_compute; congruence|]. exists buf, w'. by split.
  - refine (proj2 (mio_telem_log_load_overreads ex_time (str "[info] x") [] ex_log_rec
      (MkLog 0 (LogOpen (record_line ex_time ex_log_rec ++ str "[info] x")) 0 0) ex_time_ok ex_log_rec_ok
      eq_refl) _). vm_compute. reflexivity.
Defined.

(** Two records advertised with the prefix "mio" to the log file and parsed from
    it. *)
Definition ex_stack : list Z := replicate 29 97 ++ replicate 35 0.

Lemma ex_env : log_env_ok (λ _, ex_time) (λ _, ex_stack) (λ _, true) (replicate 32 255) (replicate 80 0).
Proof.
  split; [done|intros; apply ex_time_ok|done| |vm_compute; lia].
  split; [done|]. apply Forall_replicate. lia.
Qed.

Definition ex_datum (x : Z) : datum := MkDatum (str "obj-write") MIO_TM_TYPE_ARRAY_UINT64 (TvArray 2 (Some [x; 7])).

Lemma ex_datum_ok x : 0 <= x < 2 ^ 64 → line_ok (datum_rec (Some (str "mio")) (ex_datum x)).
Proof.
  intros Hx. destruct ex_log_rec_ok as ((topic & Ht & Htok) & Hp & _).
  assert (Hlen : (length (log_line (log_words (datum_rec (Some (str "mio")) (ex_datum x)))) <= 100)%nat).
  { unfold log_words. cbn [datum_rec mtr_prefix mtr_topic mtr_type mtr_value default ex_datum d_topic d_type
      d_value value_words fmap list_fmap app].
    rewrite !log_line_cons, !length_app. destruct (sprintf_u_word x Hx) as [_ Hl].
    change (length (sprintf_u 2)) with 1%nat. change (length (sprintf_u 7)) with 1%nat.
    change (length (sprintf_u TELEM_LOG_PREFIX_SIGN)) with 1%nat.
    change (length (default [] (telem_data_type_names MIO_TM_TYPE_ARRAY_UINT64))) with 12%nat.
    simpl. lia. }
  split; [|lia]. split; [by exists topic|]. split; [done|]. split; [|unfold MIO_LOG_MAX_REC_LEN; lia].
  right. exists 8%nat, [x; 7]. split_and!; try reflexivity. repeat constructor; unfold fits; lia.
Qed.

Lemma mio_telemetry_fifo_witness :
  let C := log_file_channel _ _ _ _ _ ex_env in
  let t := MkTelem (SLive (str "mio")) SNull (Some channel_ops) (MkLog 0 (LogOpen []) 0 0) in
  ∃ t' t'' res, advertise_all [ex_datum 1; ex_datum 18446744073709551615] t [] = Done ([0; 0], t', []) ∧
    parse_all 2 ex_log_rec t' [] = Done (res, t'', []) ∧
    Forall2 (parsed (Some (str "mio"))) [ex_datum 1; ex_datum 18446744073709551615] res.
Proof.
  intros C t.
  destruct (mio_telemetry_fifo C [ex_datum 1; ex_datum 18446744073709551615] (Some (str "mio")) ex_log_rec t)
    as (t' & t'' & res & H1 & H2 & H3 & _).
  - reflexivity.
  - reflexivity.
  - exists []. split; [constructor|reflexivity].
  - constructor; [apply ex_datum_ok; lia|]. constructor; [apply ex_datum_ok; lia|constructor].
  - exists t', t'', res. split; [exact H1|]. split; [exact H2|exact H3].
Defined.
