(* ===== verification/TelemTest.v ===== *)
(** * The test of telemetry (src/examples/mio_telemetry_test.c)

    A program that advertises numbers and arrays into the log without starting the
    library.  What it stores is stated against the interface of a store; the log file is
    an instance of it. *)

From Stdlib Require Import String.
From S2P Require Import Prelude Bytes HintMap CStr Logger Conf Telem TelemLog Telemetry TelemLogFile.
Open Scope Z_scope.

Section TelemTest.
Context {W : Type}.

(** A loop of [telem_tests]: the topic ends with the number of the round; the result of
    advertising is dropped. *)
Fixpoint telem_loop (topic : list Z) (type : Z) (value : Z → tm_value) (n : nat) (i : Z) (t : telem W) (p : mplan)
  : outcome (telem W * mplan) :=
  match n with
  | O => Done (t, p)
  | S n =>
      '(_, t, p) ← mio_telemetry_advertise (topic ++ sprintf_d i) type (value i) t p;
      telem_loop topic type value n (i + 1) t p
  end.

Definition test_elms : list Z := (λ j, u64 (s32 ((j + 1) * 1024 * 1024))) <$> seqZ 0 8.

(** [telem_tests]: the number of blocks of memory that are lost, the telemetry.  Topics
    fit into their 128 bytes. *)
Definition telem_tests (t : telem W) (p : mplan) : outcome (Z * telem W * mplan) :=
  let '(ok, p) := plan_next p in
  if negb ok then Done (0, t, p) else
  '(t, p) ← telem_loop (str "mio_telemetry_uint64_") MIO_TM_TYPE_UINT64
              (λ i, TvScalar (u64 (s32 ((i + 1) * 1024 * 1024)))) 1 0 t p;
  '(t, p) ← telem_loop (str "mio_telemetry_uint16_") MIO_TM_TYPE_UINT16
              (λ i, TvScalar (u16 (s32 ((i + 1) * 1024)))) 1 0 t p;
  '(t, p) ← telem_loop (str "mio_telemetry_uint32_") MIO_TM_TYPE_UINT32
              (λ i, TvScalar (u32 (s32 ((i + 1) * 1024 * 128)))) 1 0 t p;
  let '(ok, p) := plan_next p in
  if negb ok then Done (1, t, p) else
  '(t, p) ← telem_loop (str "mio_telemetry_array_uint64_") MIO_TM_TYPE_ARRAY_UINT64
              (λ _, TvArray 8 (Some test_elms)) 1 0 t p;
  '(_, t, p) ← mio_telemetry_array_advertise (str "mio_telemetry_array_uint64_" ++ sprintf_d 0)
                 MIO_TM_TYPE_ARRAY_UINT64 3 (take 3 test_elms) t p;
  Done (1, t, p).

Definition telem_test_conf : mio_telemetry_conf := MkTmConf MIO_TM_ST_LOG (Some (str "mio_telemetry_test")) false None.

(** [main]: the result, the lost blocks, the telemetry. *)
Definition telem_test_main (motr_addb : bool) (addb_ops log_ops : rec_ops W) (instance_rc driver_id : Z)
    (log_file_null : W → bool) (log_init : option (list Z) → W → outcome (Z * W)) (t : telem W) (p : mplan)
  : outcome (Z * Z * telem W * mplan) :=
  '(rc, t, p) ← mio_telemetry_init motr_addb addb_ops log_ops instance_rc driver_id log_file_null log_init
                  telem_test_conf t p;
  if rc <? 0 then Done (1, 0, t, p) else
  '(lost, t, p) ← telem_tests t p;
  t ← mio_telemetry_fini t;
  Done (rc, lost, t, p).
End TelemTest.

(** ** What it stores *)
Definition test_array_topic : list Z := str "mio_telemetry_array_uint64_0".

Definition test_data : list datum :=
  [MkDatum (str "mio_telemetry_uint64_0") MIO_TM_TYPE_UINT64 (TvScalar 1048576);
   MkDatum (str "mio_telemetry_uint16_0") MIO_TM_TYPE_UINT16 (TvScalar 1024);
   MkDatum (str "mio_telemetry_uint32_0") MIO_TM_TYPE_UINT32 (TvScalar 131072);
   MkDatum test_array_topic MIO_TM_TYPE_ARRAY_UINT64
     (TvArray 8 (Some [1048576; 2097152; 3145728; 4194304; 5242880; 6291456; 7340032; 8388608]));
   MkDatum test_array_topic MIO_TM_TYPE_ARRAY_UINT64 (TvArray 3 (Some [1048576; 2097152; 3145728]))].

Section Stored.
Context {W : Type} `{TelemetryChannel W} (prefix : option (list Z)).

Lemma telem_loop_one topic type value (t : telem W) rs d :
  te_ops t = Some channel_ops → sptr_read (te_prefix t) = Done prefix → tc_holds (te_world t) rs →
  d = MkDatum (topic ++ sprintf_d 0) type (value 0) → tc_accepts (datum_rec prefix d) →
  ∃ w', telem_loop topic type value 1 0 t [] = Done (set_world w' t, []) ∧ tc_holds w' (rs ++ [datum_rec prefix d]).
Proof.
  intros Hops Hpre Hh -> Hacc. destruct (advertise_spec prefix _ t rs Hops Hpre Hh Hacc) as (w' & Hadv & Hw').
  exists w'. split; [|done]. cbn [d_topic d_type d_value] in Hadv. cbn [telem_loop]. by rewrite Hadv.
Qed.

Lemma telem_tests_spec (t : telem W) rs :
  te_ops t = Some channel_ops → sptr_read (te_prefix t) = Done prefix → tc_holds (te_world t) rs →
  Forall (λ d, tc_accepts (datum_rec prefix d)) test_data →
  ∃ w', telem_tests t [] = Done (1, set_world w' t, []) ∧ tc_holds w' (rs ++ (datum_rec prefix <$> test_data)).
Proof.
  intros Hops Hpre Hh Hacc. unfold telem_tests. cbn [plan_next negb].
  apply Forall_cons in Hacc as [H1 Hacc]. apply Forall_cons in Hacc as [H2 Hacc].
  apply Forall_cons in Hacc as [H3 Hacc]. apply Forall_cons in Hacc as [H4 Hacc]. apply Forall_cons in Hacc as [H5 _].
  destruct (telem_loop_one (str "mio_telemetry_uint64_") _ (λ i, TvScalar (u64 (s32 ((i + 1) * 1024 * 1024)))) t rs _ Hops Hpre Hh eq_refl H1) as (w1 & -> & Hw1).
  cbn [mbind outcome_bind].
  destruct (telem_loop_one (str "mio_telemetry_uint16_") _ (λ i, TvScalar (u16 (s32 ((i + 1) * 1024)))) (set_world w1 t) _ _ Hops Hpre Hw1 eq_refl H2) as (w2 & -> & Hw2).
  cbn [mbind outcome_bind]. change (set_world w2 (set_world w1 t)) with (set_world w2 t).
  destruct (telem_loop_one (str "mio_telemetry_uint32_") _ (λ i, TvScalar (u32 (s32 ((i + 1) * 1024 * 128)))) (set_world w2 t) _ _ Hops Hpre Hw2 eq_refl H3) as (w3 & -> & Hw3).
  cbn [mbind outcome_bind plan_next negb]. change (set_world w3 (set_world w2 t)) with (set_world w3 t).
  destruct (telem_loop_one (str "mio_telemetry_array_uint64_") _ (λ _, TvArray 8 (Some test_elms)) (set_world w3 t) _ _ Hops Hpre Hw3 eq_refl H4) as (w4 & -> & Hw4).
  cbn [mbind outcome_bind]. change (set_world w4 (set_world w3 t)) with (set_world w4 t).
  destruct (advertise_spec prefix _ (set_world w4 t) _ Hops Hpre Hw4 H5) as (w5 & Hadv & Hw5).
  exists w5. split; [|by rewrite <- !app_assoc in Hw5].
  unfold mio_telemetry_array_advertise, telemetry_do_array_advertise. cbn [te_ops set_world]. rewrite Hops.
  cbn [channel_ops mtro_encode mtro_store]. change (telemetry_array_alloc _ 3 []) with (0, @nil bool).
  change (MIO_TM_ARRAY_MAX_NR_ELMS <? 3) with false.
  change (array_width MIO_TM_TYPE_ARRAY_UINT64) with (Some 8%nat).
  cbv iota beta. change (0 <? 0) with false. cbv iota.
  change (advertise_elms 8 _ _) with (Done [1048576; 2097152; 3145728]). cbn [mbind outcome_bind].
  change (str "mio_telemetry_array_uint64_" ++ sprintf_d 0) with test_array_topic.
  unfold mio_telemetry_advertise in Hadv. cbn [d_topic d_type d_value] in Hadv.
  by rewrite Hadv.
Qed.
End Stored.

(** The test of telemetry, with any store that accepts its data in the place of the log,
    whatever the telemetry held before: it returns 0, with the store it has opened or
    found open, loses the array, frees the configuration, and a parser that reads the
    store afterwards finds the five data in order, with the prefix of the program. *)
Theorem telem_test_main_correct {W} (C : TelemetryChannel W) (motr_addb : bool) (addb_ops : rec_ops W)
    (instance_rc driver_id : Z) (log_file_null : W → bool) (log_init : option (list Z) → W → outcome (Z * W))
    (t : telem W) (w0 : W) (old : mio_telemetry_rec) :
  (if log_file_null (te_world t) then log_init None (te_world t) else Done (0, te_world t)) = Done (0, w0) →
  tc_holds w0 [] → Forall (λ d, tc_accepts (datum_rec (mtc_prefix telem_test_conf) d)) test_data →
  ∃ t', telem_test_main motr_addb addb_ops channel_ops instance_rc driver_id log_file_null log_init t [] =
          Done (0, 1, t', []) ∧
    te_ops t' = None ∧ te_prefix t' = SFreed ∧
    ∀ p, te_ops p = Some channel_ops → te_world p = te_world t' →
      ∃ res p', parse_all (length test_data) old p [] = Done (res, p', []) ∧
        Forall2 (parsed (mtc_prefix telem_test_conf)) test_data res ∧ tc_holds (te_world p') [].
Proof.
  intros Hopen Hh Hacc. unfold telem_test_main.
  set (t1 := MkTelem (SLive (str "mio_telemetry_test")) SNull (Some channel_ops) w0).
  assert (Hinit : mio_telemetry_init motr_addb addb_ops channel_ops instance_rc driver_id log_file_null log_init
    telem_test_conf t [] = Done (0, t1, [])).
  { assert (Hsave : telemetry_conf_save motr_addb telem_test_conf t [] =
      Done (0, MkTelem (SLive (str "mio_telemetry_test")) SNull (te_ops t) (te_world t), [])) by by destruct motr_addb.
    unfold mio_telemetry_init. rewrite Hsave. cbn [mbind outcome_bind mtc_type mtc_is_parser mtc_store_conf telem_test_conf negb te_world].
    change (0 <? 0) with false. change (MIO_TM_ST_LOG =? MIO_TM_ST_NONE) with false. change (MIO_TM_ST_LOG =? MIO_TM_ST_ADDB) with false.
    rewrite andb_false_r. change (MIO_TM_ST_LOG =? MIO_TM_ST_LOG) with true. cbn [andb].
    destruct (log_file_null (te_world t)); [rewrite Hopen|injection Hopen as ->]; done. }
  rewrite Hinit. cbn [mbind outcome_bind]. change (0 <? 0) with false. cbv iota.
  destruct (telem_tests_spec (mtc_prefix telem_test_conf) t1 [] eq_refl eq_refl Hh Hacc) as (w' & -> & Hw').
  cbn [mbind outcome_bind]. eexists. split; [reflexivity|]. split; [done|]. split; [done|].
  intros p Hops Hworld. cbn [te_world set_world] in Hworld. cbn [app] in Hw'.
  rewrite <- (app_nil_r (datum_rec _ <$> _)) in Hw'.
  destruct (parse_all_spec (mtc_prefix telem_test_conf) test_data [] old p Hops) as (res & w2 & Hp & Hw2 & Hres);
    [by rewrite Hworld|]. eexists _, _. by split_and!.
Qed.

(** ** The log file *)

(** The data fit into the log. *)
Definition log_wordb (w : list Z) : bool :=
  (0 <? Z.of_nat (length w)) && (Z.of_nat (length w) <=? 255) && forallb (λ c, negb (c =? 0) && negb (is_space c)) w.

Lemma log_wordb_ok w : log_wordb w = true → log_word w.
Proof.
  unfold log_wordb. rewrite !andb_true_iff. intros [[Hpos Hmax] Hw]. split; [lia|].
  apply Forall_forall. intros c Hc. apply list_elem_of_In in Hc.
  pose proof (proj1 (forallb_forall _ _) Hw c Hc) as Hd. cbv beta in Hd. rewrite andb_true_iff, !negb_true_iff in Hd.
  split; [lia|by destruct Hd].
Qed.

Lemma test_data_line_ok : Forall (λ d, line_ok (datum_rec (mtc_prefix telem_test_conf) d)) test_data.
Proof.
  assert (Hgen : ∀ d, log_wordb (d_topic d) = true → value_ok (λ _, 512) (d_type d) (d_value d) →
    (length (log_line (log_words (datum_rec (mtc_prefix telem_test_conf) d))) <=? 950)%nat = true →
    line_ok (datum_rec (mtc_prefix telem_test_conf) d)).
  { intros d Ht Hv Hl. apply Nat.leb_le in Hl. split; [|done]. split_and!; [|intros ? [= <-]|done|unfold MIO_LOG_MAX_REC_LEN; lia].
    - exists (d_topic d). split; [done|by apply log_wordb_ok].
    - by apply log_wordb_ok. }
  assert (Hfits : ∀ w l, forallb (λ x, (0 <=? x) && (x <? 256 ^ Z.of_nat w)) l = true → Forall (fits w) l).
  { intros w l Hl. apply Forall_forall. intros x Hx. apply list_elem_of_In in Hx.
    pose proof (proj1 (forallb_forall _ _) Hl x Hx) as Hb. cbv beta in Hb.
    by rewrite andb_true_iff, Z.leb_le, Z.ltb_lt in Hb. }
  assert (Hscalar : ∀ topic type w x, log_wordb topic = true → scalar_width type = Some w →
    forallb (λ x, (0 <=? x) && (x <? 256 ^ Z.of_nat w)) [x] = true →
    (length (log_line (log_words (datum_rec (mtc_prefix telem_test_conf) (MkDatum topic type (TvScalar x))))) <=? 950)%nat = true →
    line_ok (datum_rec (mtc_prefix telem_test_conf) (MkDatum topic type (TvScalar x)))).
  { intros topic type w x Ht Hw Hx Hl. apply Hgen; [done| |done]. left. exists w, x. split_and!; [done..|].
    specialize (Hfits w [x] Hx). by apply Forall_cons in Hfits as [? _]. }
  assert (Harray : ∀ topic type w l, log_wordb topic = true → array_width type = Some w →
    forallb (λ x, (0 <=? x) && (x <? 256 ^ Z.of_nat w)) l = true → (0 <? length l)%nat && (length l <? 512)%nat = true →
    (length (log_line (log_words (datum_rec (mtc_prefix telem_test_conf)
       (MkDatum topic type (TvArray (Z.of_nat (length l)) (Some l)))))) <=? 950)%nat = true →
    line_ok (datum_rec (mtc_prefix telem_test_conf) (MkDatum topic type (TvArray (Z.of_nat (length l)) (Some l))))).
  { intros topic type w l Ht Hw Hx Hn Hl. apply Hgen; [done| |done]. apply andb_true_iff in Hn as [H1%Nat.ltb_lt H2%Nat.ltb_lt].
    right. exists w, l. split_and!; [done..|by apply Hfits| |]; cbv beta; lia. }
  unfold test_data. rewrite !Forall_cons. split_and!; [..|constructor].
  - by apply (Hscalar _ _ 8%nat); vm_compute.
  - by apply (Hscalar _ _ 2%nat); vm_compute.
  - by apply (Hscalar _ _ 4%nat); vm_compute.
  - by apply (Harray _ _ 8%nat [_; _; _; _; _; _; _; _]); vm_compute.
  - by apply (Harray _ _ 8%nat [_; _; _]); vm_compute.
Qed.

(** The test started without a log, and a parser after it. *)
Lemma telem_test_main_correct_witness :
  let C := log_file_channel _ _ _ _ _ ex_env in
  let log_init := λ dir w, mio_log_init 0 ex_time (replicate 64 0) dir (inr (str "/tmp")) (str "test") (str "12") 0 w in
  ∃ t', telem_test_main false (MkRecOps None None None None) channel_ops (- EINVAL) 0 (λ w, match mio_log_file w with LogNull => true | _ => false end)
      log_init (MkTelem SNull SNull None (MkLog 0 LogNull 0 0)) [] = Done (0, 1, t', []) ∧
    te_ops t' = None ∧ te_prefix t' = SFreed ∧
    ∃ res p', parse_all 5 ex_log_rec (MkTelem SNull SNull (Some channel_ops) (te_world t')) [] = Done (res, p', []) ∧
      Forall2 (parsed (Some (str "mio_telemetry_test"))) test_data res.
Proof.
  intros C log_init.
  destruct (telem_test_main_correct C false (MkRecOps None None None None) (- EINVAL) 0 (λ w, match mio_log_file w with LogNull => true | _ => false end)
    log_init (MkTelem SNull SNull None (MkLog 0 LogNull 0 0)) (MkLog 0 (LogOpen []) 0 0) ex_log_rec)
    as (t' & Hm & Ho & Hp & Hparse).
  - reflexivity.
  - exists []. split; [constructor|reflexivity].
  - exact test_data_line_ok.
  - exists t'. split; [exact Hm|]. split; [exact Ho|]. split; [exact Hp|].
    destruct (Hparse (MkTelem SNull SNull (Some channel_ops) (te_world t')) eq_refl eq_refl) as (res & p' & H1 & H2 & _).
    exists res, p'. split; [exact H1|exact H2].
Defined.

(** Nothing is told when the store refuses everything, or when memory is missing. *)
Example telem_test_refused :
  ∃ t', telem_test_main false ex_failing_ops ex_failing_ops 0 0 (λ _, false) (λ _ w, Done (0, w))
    (MkTelem SNull SNull None tt) [] = Done (0, 1, t', []).
Proof. by eexists. Qed.

Example telem_test_no_memory :
  ∃ t', telem_test_main false ex_failing_ops ex_failing_ops 0 0 (λ _, false) (λ _ w, Done (0, w))
    (MkTelem SNull SNull None tt) [true; false] = Done (0, 0, t', []).
Proof. by eexists. Qed.
