(* ===== verification/TelemParser.v ===== *)
(** * The telemetry parser (src/telemetry/mio_telemetry_parser.c)

    A program that loads the records of a telemetry store one after the other and
    prints each as one line of text.  The theorem is proved against the interface
    of a store and its medium, extended by what happens at the end of the medium;
    the log file is an instance. *)

From Stdlib Require Import String.
From S2P Require Import Prelude Bytes HintMap CStr Clock Logger Conf Telem TelemLog Telemetry TelemLogFile.
Open Scope Z_scope.

Definition PARSER_MAX_REC_LEN : Z := 256.
Definition EOF : Z := -1.

(** ** Printing a record *)

(** sprintf() to the end of the string in the buffer of PARSER_MAX_REC_LEN bytes. *)
Definition buf_append (buf text : list Z) : outcome (list Z) :=
  if Z.of_nat (length buf + length text) <? PARSER_MAX_REC_LEN then Done (buf ++ text) else Fault OutOfBounds.

(** A string argument of "%s". *)
Definition text_arg (s : option (list Z)) : outcome (list Z) :=
  match s with Some s => Done s | None => Fault NullDeref end.

(** [print_u16], [print_u32], [print_u64]: the conversions print the same digits. *)
Definition print_u16 (buf : list Z) (value : Z) : outcome (list Z) := buf_append buf (str " " ++ sprintf_u value).
Definition print_u32 (buf : list Z) (value : Z) : outcome (list Z) := buf_append buf (str " " ++ sprintf_u value).
Definition print_u64 (buf : list Z) (value : Z) : outcome (list Z) := buf_append buf (str " " ++ sprintf_u value).

(** The loop of [print_telemetry_rec_array], [n] elements before the end. *)
Fixpoint print_elms (type : Z) (elms : option (list Z)) (i n : nat) (buf : list Z) : outcome (Z * list Z) :=
  match n with
  | O => Done (0, buf)
  | S n' =>
      let next print := x ← elm_get elms i; buf ← print buf x; print_elms type elms (S i) n' buf in
      if type =? MIO_TM_TYPE_ARRAY_UINT16 then next print_u16
      else if type =? MIO_TM_TYPE_ARRAY_UINT32 then next print_u32
      else if type =? MIO_TM_TYPE_ARRAY_UINT64 then next print_u64
      else Done (- EINVAL, buf)
  end.

Definition print_telemetry_rec_array (buf : list Z) (rec : mio_telemetry_rec) : outcome (Z * list Z) :=
  '(nr_elms, elms) ← value_array (mtr_value rec);
  print_elms (mtr_type rec) elms 0 (Z.to_nat nr_elms) buf.

(** [print_telemetry_rec]: the return code and what is printed.  Nobody releases
    the buffer. *)
Definition print_telemetry_rec (rec : mio_telemetry_rec) (p : mplan) : outcome (Z * list Z * mplan) :=
  let '(ok, p) := plan_next p in
  if negb ok then Done (- ENOMEM, [], p) else
  time ← text_arg (mtr_time_str rec);
  topic ← text_arg (mtr_topic rec);
  buf ← buf_append [] (match mtr_prefix rec with
                       | Some prefix => time ++ str " " ++ prefix ++ str " " ++ topic
                       | None => time ++ str " " ++ topic
                       end);
  let type := mtr_type rec in
  '(rc, buf) ←
    (if type =? MIO_TM_TYPE_UINT16 then x ← value_scalar (mtr_value rec); buf ← print_u16 buf x; Done (0, buf)
     else if type =? MIO_TM_TYPE_UINT32 then x ← value_scalar (mtr_value rec); buf ← print_u32 buf x; Done (0, buf)
     else if (type =? MIO_TM_TYPE_UINT64) || (type =? MIO_TM_TYPE_TIMESPAN) || (type =? MIO_TM_TYPE_TIMEPOINT)
     then x ← value_scalar (mtr_value rec); buf ← print_u64 buf x; Done (0, buf)
     else if (type =? MIO_TM_TYPE_ARRAY_UINT16) || (type =? MIO_TM_TYPE_ARRAY_UINT32) ||
             (type =? MIO_TM_TYPE_ARRAY_UINT64) then print_telemetry_rec_array buf rec
     else if type =? MIO_TM_TYPE_NONE then Done (0, buf)
     else Done (- EINVAL, buf));
  Done (rc, (if rc =? 0 then str "* " ++ buf ++ [10] else []), p).

(** ** The program *)

Section Parser.
Context {W : Type}.

(** [parse]: its result and what it prints; every error but EOF is skipped, and
    the result of [print_telemetry_rec] is ignored. *)
Fixpoint parse (fuel : nat) (rec : mio_telemetry_rec) (t : telem W) (p : mplan)
  : outcome (Z * list Z * telem W * mplan) :=
  match fuel with
  | O => Fault NoTermination
  | S fuel' =>
      '(rc, rec, t, p) ← mio_telemetry_parse rec t p;
      if rc =? EOF then Done (0, [], t, p)
      else if rc <? 0 then parse fuel' rec t p
      else
        '(_, line, p) ← print_telemetry_rec rec p;
        '(rc, lines, t, p) ← parse fuel' rec t p;
        Done (rc, line ++ lines, t, p)
  end.

Section Main.
(** Whether MIO_MOTR_ADDB is defined, the operations of the two stores, and what
    the uninitialised pointers of the configuration happen to hold. *)
Context (motr_addb : bool) (addb_ops log_ops : rec_ops W).
Context (instance_rc driver_id : Z) (log_file_null : W → bool)
        (log_init : option (list Z) → W → outcome (Z * W)).
Context (junk_prefix junk_store_conf : option (list Z)) (rec : mio_telemetry_rec).

Inductive exit_code := EXIT_SUCCESS | EXIT_FAILURE.

(** [main], from the arguments on; [open_file] is the stream of a file, when it
    can be opened.  The result of mio_telemetry_init() is ignored. *)
Definition parser_main (fuel : nat) (argv : list (list Z)) (open_file : list Z → option W)
    (telem0 : W → telem W) (p : mplan) : outcome (exit_code * list Z) :=
  match argv with
  | _ :: fname :: store :: _ =>
      match open_file fname with
      | None => Done (EXIT_FAILURE, [])
      | Some fp =>
          let run type :=
            '(_, t, p) ← mio_telemetry_init motr_addb addb_ops log_ops instance_rc driver_id log_file_null
                           log_init (MkTmConf type junk_prefix true junk_store_conf) (telem0 fp) p;
            '(_, lines, t, _) ← parse fuel rec t p;
            _ ← mio_telemetry_fini t;
            Done (EXIT_SUCCESS, lines) in
          if motr_addb && bool_decide (store = str "addb") then run MIO_TM_ST_ADDB
          else if bool_decide (store = str "log") then run MIO_TM_ST_LOG
          else Done (EXIT_FAILURE, [])
      end
  | _ => Done (EXIT_FAILURE, [])
  end.
End Main.
End Parser.

(** ** What is printed *)

(** The numbers of a value. *)
Definition value_numbers (v : tm_value) : list Z :=
  match v with
  | TvNull => []
  | TvScalar x => [x]
  | TvArray nr elms => take (Z.to_nat nr) (default [] elms)
  end.

Definition numbers_text (l : list Z) : list Z := l ≫= (λ x, str " " ++ sprintf_u x).

(** The line of a record without its end. *)
Definition rec_text (time : list Z) (prefix : option (list Z)) (d : datum) : list Z :=
  time ++ str " " ++ from_option (λ s, s ++ str " ") [] prefix ++ d_topic d ++ numbers_text (value_numbers (d_value d)).

(** Values whose memory agrees with their type. *)
Definition value_typed (type : Z) (v : tm_value) : Prop :=
  match v with
  | TvNull => type = MIO_TM_TYPE_NONE
  | TvScalar _ => is_Some (scalar_width type)
  | TvArray nr elms => is_Some (array_width type) ∧ ∃ l, elms = Some l ∧ nr = Z.of_nat (length l)
  end.

Lemma print_elms_spec type l i buf w :
  array_width type = Some w → (i <= length l)%nat →
  Z.of_nat (length (buf ++ numbers_text (drop i l))) < PARSER_MAX_REC_LEN →
  print_elms type (Some l) i (length l - i) buf = Done (0, buf ++ numbers_text (drop i l)).
Proof.
  intros Hw. remember (length l - i)%nat as n eqn:Hn. revert i buf Hn.
  induction n as [|n IH]; intros i buf Hn Hi Hlen; cbn [print_elms].
  - rewrite drop_ge by lia. by rewrite app_nil_r.
  - destruct (lookup_lt_is_Some_2 l i) as [x Hx]; [lia|].
    rewrite (drop_S _ _ _ Hx) in Hlen |- *. unfold numbers_text in *. rewrite bind_cons in Hlen |- *.
    unfold elm_get. rewrite Hx. cbn [mbind outcome_bind]. unfold print_u16, print_u32, print_u64, buf_append.
    assert (Hfit : (Z.of_nat (length buf + length (str " " ++ sprintf_u x)) <? PARSER_MAX_REC_LEN) = true).
    { apply Z.ltb_lt. rewrite !length_app in Hlen. rewrite length_app. lia. }
    rewrite Hfit. cbn [mbind outcome_bind].
    rewrite (app_assoc buf (str " " ++ sprintf_u x)) in Hlen |- *.
    specialize (IH (S i) _ ltac:(lia) ltac:(lia) Hlen).
    unfold array_width in Hw. repeat case_match; done.
Qed.

(** A record that fits into the buffer is printed on one line. *)
Lemma print_telemetry_rec_spec time prefix d p p' :
  plan_next p = (true, p') →
  value_typed (d_type d) (d_value d) →
  Z.of_nat (length (rec_text time prefix d)) < PARSER_MAX_REC_LEN →
  print_telemetry_rec (MkRec (Some time) prefix (Some (d_topic d)) (d_type d) (d_value d)) p =
    Done (0, str "* " ++ rec_text time prefix d ++ [10], p').
Proof.
  intros Hp Hty Hlen. unfold print_telemetry_rec. rewrite Hp.
  cbn [negb mtr_time_str mtr_topic mtr_prefix mtr_type mtr_value text_arg mbind outcome_bind].
  set (head := time ++ str " " ++ from_option (λ s, s ++ str " ") [] prefix ++ d_topic d).
  assert (Hrec : rec_text time prefix d = head ++ numbers_text (value_numbers (d_value d))).
  { unfold rec_text, head. by rewrite <- !app_assoc. }
  assert (Hhead : match prefix with Some prefix => time ++ str " " ++ prefix ++ str " " ++ d_topic d
    | None => time ++ str " " ++ d_topic d end = head).
  { unfold head. destruct prefix; simpl; by rewrite <- ?app_assoc. }
  rewrite Hhead. rewrite Hrec in Hlen |- *. clear Hhead Hrec. clearbody head.
  assert (Hfit : ∀ a b, Z.of_nat (length (a ++ b)) < PARSER_MAX_REC_LEN → buf_append a b = Done (a ++ b)).
  { intros a b H. unfold buf_append. rewrite <- length_app. by rewrite (proj2 (Z.ltb_lt _ _)). }
  rewrite Hfit by (rewrite length_app in *; simpl; lia). cbn [mbind outcome_bind app].
  destruct (d_value d) as [|x|nr elms]; cbn [value_typed value_numbers value_scalar] in *.
  - rewrite Hty. simpl. by rewrite app_nil_r.
  - unfold numbers_text in *. cbn [mbind list_bind] in *. rewrite app_nil_r in *.
    unfold scalar_width, print_u16, print_u32, print_u64 in *. cbn [mbind outcome_bind].
    rewrite Hfit by done.
    destruct Hty as [w Hw]. repeat (case_match; [done|]). done.
  - destruct Hty as [[w Hw] (l & -> & ->)]. cbn [default] in *. rewrite Nat2Z.id, firstn_all in *.
    assert (Hs : (d_type d =? MIO_TM_TYPE_UINT16) = false ∧ (d_type d =? MIO_TM_TYPE_UINT32) = false ∧
      ((d_type d =? MIO_TM_TYPE_UINT64) || (d_type d =? MIO_TM_TYPE_TIMESPAN) || (d_type d =? MIO_TM_TYPE_TIMEPOINT)) = false ∧
      ((d_type d =? MIO_TM_TYPE_ARRAY_UINT16) || (d_type d =? MIO_TM_TYPE_ARRAY_UINT32) ||
        (d_type d =? MIO_TM_TYPE_ARRAY_UINT64)) = true).
    { unfold array_width in Hw.
      destruct (Z.eqb_spec (d_type d) MIO_TM_TYPE_ARRAY_UINT16) as [->|]; [done|].
      destruct (Z.eqb_spec (d_type d) MIO_TM_TYPE_ARRAY_UINT32) as [->|]; [done|].
      destruct (Z.eqb_spec (d_type d) MIO_TM_TYPE_ARRAY_UINT64) as [->|]; done. }
    destruct Hs as (-> & -> & -> & ->). unfold print_telemetry_rec_array.
    cbn [mtr_value mtr_type value_array mbind outcome_bind]. rewrite Nat2Z.id.
    pose proof (print_elms_spec (d_type d) l 0 head w Hw ltac:(lia)) as He.
    rewrite Nat.sub_0_r, drop_0 in He. rewrite He by done. done.
Qed.

(** ** The interface

    What the parser needs of a channel beyond [TelemetryChannel]: at the end the
    loader says so, and the time strings are as short as those of the log. *)
Class ParserChannel (W : Type) {C : TelemetryChannel W} := {
  pc_end : ∀ w, tc_holds w [] → ∃ w', tc_load w [] = Done (EOF, None, None, w', []) ∧ tc_holds w' [];
  pc_time : ∀ w r rs buf head w', tc_holds w (r :: rs) →
    tc_load w [] = Done (0, Some buf, Some head, w', []) → (length head <= 63)%nat
}.

(** A datum whose line fits into the buffer whatever its time is. *)
Definition printable (prefix : option (list Z)) (d : datum) : Prop :=
  value_typed (d_type d) (d_value d) ∧
  Z.of_nat (length (rec_text [] prefix d)) + 63 < PARSER_MAX_REC_LEN.

(** The lines for data at some times. *)
Definition printed_lines (prefix : option (list Z)) (times : list (list Z)) (l : list datum) : list Z :=
  concat (zip_with (λ time d, str "* " ++ rec_text time prefix d ++ [10]) times l).

Lemma rec_text_length time prefix d :
  length (rec_text time prefix d) = (length time + length (rec_text [] prefix d))%nat.
Proof. unfold rec_text. by rewrite length_app. Qed.

Lemma parse_at_end {W} {C : TelemetryChannel W} {P : ParserChannel W} (t : telem W) :
  te_ops t = Some channel_ops → tc_holds (te_world t) [] →
  ∃ w', tc_holds w' [] ∧ ∀ fuel rec, parse (S fuel) rec t [] = Done (0, [], set_world w' t, []).
Proof.
  intros Hops Hholds. destruct (pc_end _ Hholds) as (w' & Hld & Hw'). exists w'. split; [done|].
  intros fuel rec. cbn [parse]. unfold mio_telemetry_parse. rewrite Hops.
  cbn [channel_ops mtro_load mtro_decode]. by rewrite Hld.
Qed.

Lemma parse_spec_lines {W} {C : TelemetryChannel W} {P : ParserChannel W} prefix l (t : telem W) :
  te_ops t = Some channel_ops → tc_holds (te_world t) (datum_rec prefix <$> l) → Forall (printable prefix) l →
  ∃ times t', length times = length l ∧ te_prefix t' = te_prefix t ∧ te_store_conf t' = te_store_conf t ∧
    tc_holds (te_world t') [] ∧ ∀ fuel rec, (length l < fuel)%nat →
    parse fuel rec t [] = Done (0, printed_lines prefix times l, t', []).
Proof.
  intros Hops Hholds Hl. revert t Hops Hholds. induction Hl as [|d l [Hty Hfit] Hl IH]; intros t Hops Hholds.
  - destruct (parse_at_end t Hops Hholds) as (w' & H2 & H1). exists [], (set_world w' t). split_and!; try done.
    intros [|fuel] rec Hf; [simpl in Hf; lia|apply H1].
  - rewrite fmap_cons in Hholds.
    destruct (tc_get _ _ _ Hholds) as (buf & head & w' & Hld & Hw' & Hdec).
    pose proof (pc_time _ _ _ _ _ _ Hholds Hld) as Htime.
    set (r := MkRec (Some head) prefix (Some (d_topic d)) (d_type d) (d_value d)).
    destruct (IH (set_world w' t) Hops Hw') as (times & t' & Hlen & H2 & H3 & H4 & H1).
    exists (head :: times), t'. split_and!; [by simpl; lia|done|done|done|].
    intros [|fuel] rec Hf; cbn [length] in Hf; [lia|].
    cbn [parse]. unfold mio_telemetry_parse. rewrite Hops. cbn [channel_ops mtro_load mtro_decode].
    rewrite Hld. cbn [mbind outcome_bind Z.ltb Z.compare null_checked]. rewrite Hdec.
    cbn [mbind outcome_bind mtr_prefix mtr_topic mtr_type mtr_value datum_rec Z.eqb EOF Z.ltb Z.compare].
    rewrite (print_telemetry_rec_spec head prefix d [] []); [|done|done|rewrite rec_text_length; lia].
    cbn [mbind outcome_bind]. fold r. rewrite H1 by lia. reflexivity.
Qed.

(** ** Theorems *)


(** The log file is such a channel. *)
#[export, refine] Instance log_file_parser clock stack fwrite_ok nstack tail
    (Henv : log_env_ok clock stack fwrite_ok nstack tail) :
  @ParserChannel log_state (log_file_channel clock stack fwrite_ok nstack tail Henv) := {}.
Proof.
  - intros w (ts & Hts & Hfile). apply Forall2_nil_inv_r in Hts as ->. cbn [zip_with concat] in Hfile.
    eexists. split; [cbn [tc_load log_file_channel]; unfold mio_telem_log_load; rewrite Hfile; reflexivity|].
    exists []. by split.
  - intros w r rs buf head w' (ts & Hts & Hfile) Hld.
    apply Forall2_cons_inv_r in Hts as (time & ts' & [Ht [Hr _]] & Hts & ->).
    cbn [zip_with concat] in Hfile. cbn [tc_load log_file_channel] in Hld.
    rewrite (mio_telem_log_load_record _ _ _ _ _ Ht Hr Hfile) in Hld. case_decide; [|done].
    injection Hld as _ <- _. apply Ht.
Defined.

(** When saving the configuration fails the parser selects no store and loops
    for ever. *)
Lemma parse_without_store_loops {W} fuel rec (t : telem W) p :
  te_ops t = None → parse fuel rec t p = Fault NoTermination.
Proof.
  intros Hops. induction fuel as [|fuel IH]; [done|]. cbn [parse]. unfold mio_telemetry_parse. by rewrite Hops.
Qed.


Example print_telemetry_rec_example :
  print_telemetry_rec (MkRec (Some (str "12:00")) (Some (str "mio")) (Some (str "write")) MIO_TM_TYPE_ARRAY_UINT16
    (TvArray 2 (Some [1; 20]))) [] = Done (0, str "* 12:00 mio write 1 20" ++ [10], []).
Proof. reflexivity. Qed.
