(* ===== verification/TelemAddbFile.v ===== *)
(** * Telemetry in Motr's ADDB (src/driver_motr_addb.c: store and load)

    Encoded records are handed to m0_addb2_add() as 64-bit words and found again
    in the text that Motr's dump utility prints, one line per record.  The dump
    is its unread bytes.  The last theorem joins the encoder, ADDB, the loader
    and the decoder. *)

From Stdlib Require Import String.
From S2P Require Import Prelude Bytes HintMap CStr Telem TelemAddb Telemetry TelemLogFile.
Open Scope Z_scope.

(** The characters between the fields of a line. *)
Definition is_delim (c : Z) : bool := is_space c || (c =? 63) || (c =? 44).

(** strnlen() of a character array. *)
Fixpoint arr_strnlen (s : list Z) (max : nat) : outcome nat :=
  match max with
  | O => Done O
  | S max =>
      match s with
      | [] => Fault OutOfBounds
      | c :: s => if c =? 0 then Done O else n ← arr_strnlen s max; Done (S n)
      end
  end.

(** The loops that move a cursor: it has come [n] of [len] characters. *)
Fixpoint cursor_loop (stop : Z → bool) (s : list Z) (n len : nat) : outcome (list Z) :=
  match s with
  | [] => Fault OutOfBounds
  | c :: s' => if stop c then Done s else if (len <=? S n)%nat then Done s' else cursor_loop stop s' (S n) len
  end.

Definition ADDB_MAX : nat := Z.to_nat MIO_MOTR_ADDB_MAX_PAYLOAD.

Definition motr_addb_skip_delimiter (s : list Z) : outcome (list Z) :=
  len ← arr_strnlen s ADDB_MAX; cursor_loop (λ c, negb (is_delim c)) s 0 len.

Definition motr_addb_jump_to_delimiter (s : list Z) : outcome (list Z) :=
  len ← arr_strnlen s ADDB_MAX; cursor_loop is_delim s 0 len.

(** How far a cursor has moved. *)
Definition moved (from to : list Z) : Z := Z.of_nat (length from) - Z.of_nat (length to).

Section AddbFile.
Context `{HostOrder}.
Context (MIO_MOTR_ADDB_ID : Z).   (* M0_ADDB2__EXT_RANGE_3 *)

(** [mio_motr_addb_store]: the words for m0_addb2_add(). *)
Fixpoint words_of (nr_u64 : nat) (buf : list Z) : list Z :=
  match nr_u64 with
  | O => []
  | S n => of_native (take 8 buf) :: words_of n (drop 8 buf)
  end.

Definition mio_motr_addb_store {W} (m0_addb2_add : list Z → W → W) (buf : list Z) (w : W) : Z * W :=
  let nr_u64 := (length buf / 8)%nat in
  (0, m0_addb2_add (words_of nr_u64 buf) w).

(** The loop of [motr_addb_clean_rec]: [left] characters are before the end of
    the record, and the array for the values has [rec_len] bytes. *)
Fixpoint clean_loop (fuel : nat) (rc : Z) (s : list Z) (left rec_len : Z) (out : list Z)
  : outcome (Z * list Z) :=
  match fuel with
  | O => Fault NoTermination
  | S fuel =>
      if left =? 0 then Done (rc, out) else
      cursor ← motr_addb_skip_delimiter s;
      text ← cstr_read cursor;
      match scan_lx text with
      | ScanEof => Done (-1, out)
      | ScanNone => Done (0, out)
      | ScanVal value _ =>
          end_of_value ← motr_addb_jump_to_delimiter cursor;
          if rec_len <? Z.of_nat (length out) + 8 then Fault OutOfBounds else
          clean_loop fuel 1 end_of_value (left - moved s end_of_value) rec_len (out ++ native 8 value)
      end
  end.

(** [motr_addb_clean_rec]; a negative length is too much for malloc(), and
    realloc() to nothing gives NULL. *)
Definition motr_addb_clean_rec (rec_buf : list Z) (rec_len : Z) (p : mplan)
  : outcome (Z * option (list Z) * mplan) :=
  let '(ok, p) := plan_next p in
  if negb ok || (rec_len <? 0) then Done (- ENOMEM, None, p) else
  '(rc, out) ← clean_loop (S (length rec_buf)) 0 rec_buf rec_len rec_len [];
  match out with
  | [] => Done (rc, None, p)
  | _ => let '(ok, p) := plan_next p in Done (rc, if ok then Some out else None, p)
  end.

(** The loop of [mio_motr_addb_load] over the lines; [tail] are the bytes of
    getline()'s buffer behind the NUL of a line. *)
Inductive addb_found :=
| FoundEof
| FoundNoMem
| FoundRec (time_str line st_of_rec : list Z).

Fixpoint addb_find (fuel : nat) (tail dump : list Z) (p : mplan) : outcome (addb_found * list Z * mplan) :=
  match fuel with
  | O => Fault NoTermination
  | S fuel =>
      let '(line, rest) := getline dump in
      match line with
      | [] => Done (FoundEof, rest, p)
      | c :: text =>
          if negb (c =? 42) then addb_find fuel tail rest p else
          clock ← motr_addb_skip_delimiter (text ++ 0 :: tail);
          addb_id ← motr_addb_jump_to_delimiter clock;
          let time_str_len := moved clock addb_id in
          addb_id ← motr_addb_skip_delimiter addb_id;
          id_text ← cstr_read addb_id;
          match scan_lx id_text with
          | ScanVal id _ =>
              if id =? MIO_MOTR_ADDB_ID then
                let '(ok, p) := plan_next p in
                if negb ok then Done (FoundNoMem, rest, p) else
                st_of_rec ← motr_addb_jump_to_delimiter addb_id;
                Done (FoundRec (take (Z.to_nat time_str_len) clock) (line ++ 0 :: tail) st_of_rec, rest, p)
              else addb_find fuel tail rest p
          | _ => addb_find fuel tail rest p
          end
      end
  end.

(** strchr(): the number of characters before the first [c]. *)
Fixpoint strchr_pos (c : Z) (s : list Z) : option nat :=
  match s with
  | [] => None
  | x :: s => if x =? c then Some O else S <$> strchr_pos c s
  end.

(** [mio_motr_addb_load]: the return code, *rec_buf, *head and what is left of
    the dump. *)
Definition mio_motr_addb_load (tail dump : list Z) (p : mplan)
  : outcome (Z * option (list Z) * option (list Z) * list Z * mplan) :=
  '(found, rest, p) ← addb_find (S (length dump)) tail dump p;
  match found with
  | FoundEof => Done (-1, None, None, rest, p)
  | FoundNoMem => Done (- ENOMEM, None, None, rest, p)
  | FoundRec time_str line st_of_rec =>
      text ← cstr_read st_of_rec;
      rec_len ← match strchr_pos 124 text with
                | Some n => Done (Z.of_nat n)
                | None => n ← arr_strnlen line ADDB_MAX; Done (Z.of_nat n - moved line st_of_rec)
                end;
      '(_, cleaned_rec, p) ← motr_addb_clean_rec st_of_rec rec_len p;
      match cleaned_rec with
      | None => Done (- EIO, None, None, rest, p)
      | Some cleaned_rec => Done (0, Some cleaned_rec, Some time_str, rest, p)
      end
  end.
End AddbFile.

(** ** What the dump utility prints

    "*", the time, the ADDB id and the words of the record as hexadecimal
    numbers with delimiters around them, and behind "|" the labels.  A number
    takes at least eight characters with the delimiters before it - Motr prints
    18 or more. *)
Definition delims (d : list Z) : Prop := Forall (λ c, is_delim c = true) d ∧ (length d < ADDB_MAX)%nat.

Definition hex_of (s : list Z) (v : Z) : Prop :=
  s ≠ [] ∧ (length s < ADDB_MAX)%nat ∧ 0 <= v < 2 ^ 64 ∧
  ∃ ds, Forall2 (λ c d, digit_val c = Some d) s ds ∧ v = foldl (λ a d, a * 16 + d) 0 ds.

Definition dump_field (w : Z) (f : list Z * list Z) : Prop :=
  f.1 ≠ [] ∧ delims f.1 ∧ hex_of f.2 w ∧ (8 <= length f.1 + length f.2)%nat.

Definition flat_fields (fs : list (list Z * list Z)) : list Z := fs ≫= λ f, f.1 ++ f.2.

Definition addb_time (time : list Z) : Prop :=
  time ≠ [] ∧ (length time <= 63)%nat ∧ Forall (λ c, is_delim c = false ∧ c ≠ 0) time.

Definition dump_line (id : Z) (words time line : list Z) : Prop :=
  ∃ d0 d1 h fs dn labels, delims d0 ∧ delims d1 ∧ d1 ≠ [] ∧ hex_of h id ∧ Forall2 dump_field words fs ∧
    delims dn ∧ dn ≠ [] ∧ addb_time time ∧ Forall (λ c, c ≠ 0) labels ∧
    line = 42 :: d0 ++ time ++ d1 ++ h ++ flat_fields fs ++ dn ++ [124] ++ labels ∧ Forall (λ c, c ≠ 10) line.

(** A line that is not a measurement, or a measurement of another id. *)
Definition other_line (id : Z) (line : list Z) : Prop :=
  line ≠ [] ∧ Forall (λ c, c ≠ 10) line ∧
  (hd 0 line ≠ 42 ∨
   ∃ d0 time d1 c r, line = 42 :: d0 ++ time ++ d1 ++ c :: r ∧ delims d0 ∧ addb_time time ∧ delims d1 ∧ d1 ≠ [] ∧
     is_delim c = false ∧ no_nul (c :: r) ∧ ∀ v rest, scan_lx (c :: r ++ [10]) = ScanVal v rest → v ≠ id).

(** ** Cursors *)

Lemma arr_strnlen_term u l max : no_nul u → arr_strnlen (u ++ 0 :: l) max = Done (Nat.min (length u) max).
Proof.
  intros Hu. revert max. induction Hu as [|c u Hc Hu IH]; intros [|max]; try done.
  cbn [app arr_strnlen]. rewrite (proj2 (Z.eqb_neq _ _) Hc), IH. done.
Qed.

Lemma cursor_loop_app stop u c r n len :
  Forall (λ c, stop c = false) u → stop c = true → (n + length u < len)%nat →
  cursor_loop stop (u ++ c :: r) n len = Done (c :: r).
Proof.
  intros Hu Hc. revert n. induction Hu as [|x u Hx Hu IH]; intros n Hn; cbn [app cursor_loop].
  - by rewrite Hc.
  - rewrite Hx. simpl in Hn. rewrite (proj2 (Nat.leb_gt _ _)) by lia. apply IH. lia.
Qed.

(** A cursor in a text that a NUL ends. *)
Lemma cursor_app stop u c r l :
  Forall (λ c, stop c = false) u → stop c = true → no_nul (u ++ c :: r) → (length u < ADDB_MAX)%nat →
  (len ← arr_strnlen (u ++ c :: r ++ 0 :: l) ADDB_MAX; cursor_loop stop (u ++ c :: r ++ 0 :: l) 0 len) =
    Done (c :: r ++ 0 :: l).
Proof.
  intros Hu Hc Hn Hlen. replace (u ++ c :: r ++ 0 :: l) with ((u ++ c :: r) ++ 0 :: l) at 1 by by rewrite <- app_assoc.
  rewrite arr_strnlen_term by done. cbn [mbind outcome_bind]. apply cursor_loop_app; [done..|].
  rewrite length_app. simpl. lia.
Qed.

Lemma skip_app d c r l :
  delims d → is_delim c = false → no_nul (d ++ c :: r) →
  motr_addb_skip_delimiter (d ++ c :: r ++ 0 :: l) = Done (c :: r ++ 0 :: l).
Proof.
  intros [Hd Hl] Hc Hn. apply (cursor_app (λ c, negb (is_delim c))); try done; [|by rewrite Hc].
  eapply Forall_impl; [exact Hd|]. by intros x ->.
Qed.

Lemma jump_app u c r l :
  Forall (λ c, is_delim c = false) u → is_delim c = true → no_nul (u ++ c :: r) → (length u < ADDB_MAX)%nat →
  motr_addb_jump_to_delimiter (u ++ c :: r ++ 0 :: l) = Done (c :: r ++ 0 :: l).
Proof. apply cursor_app. Qed.

Lemma moved_app u s : moved (u ++ s) s = Z.of_nat (length u).
Proof. unfold moved. rewrite length_app. lia. Qed.

Lemma delims_no_nul d : Forall (λ c, is_delim c = true) d → no_nul d.
Proof. intros Hd. eapply Forall_impl; [exact Hd|]. by intros c Hc ->. Qed.

(** ** Numbers *)

Lemma digit_not_delim c d : digit_val c = Some d → is_delim c = false ∧ c ≠ 0 ∧ is_space c = false.
Proof.
  intros [Hc _]%digit_val_cases. unfold is_delim, is_space. split_and!; lia.
Qed.

Lemma hex_chars s v : hex_of s v → Forall (λ c, is_delim c = false ∧ c ≠ 0 ∧ is_space c = false) s.
Proof.
  intros (_ & _ & _ & ds & Hs & _). induction Hs as [|c d s ds Hc Hs IH]; constructor; [|done].
  by eapply digit_not_delim.
Qed.

(** Reading a number that a delimiter ends. *)
Lemma scan_lx_hex s v c r : hex_of s v → is_delim c = true → scan_lx (s ++ c :: r) = ScanVal v (c :: r).
Proof.
  intros Hs Hc. pose proof (hex_chars _ _ Hs) as Hchars. destruct Hs as (Hne & _ & Hv & ds & Hs & ->).
  destruct s as [|x s]; [done|]. apply Forall_cons in Hchars as [(_ & _ & Hx) _].
  assert (Hend : ∀ c', hd_error (c :: r) = Some c' → digit_val c' = None).
  { intros c' [= <-]. destruct (digit_val c) as [d|] eqn:E; [|done]. apply digit_not_delim in E as [E _]. congruence. }
  pose proof (scan_digits_app _ _ (c :: r) 0 0 Hs Hend) as Hscan.
  unfold scan_lx. cbn [app skip_spaces]. rewrite Hx.
  inversion Hs as [|? d ? ds' Hxd Hs' Heq]; subst. pose proof (digit_val_cases _ _ Hxd) as [Hxr _].
  unfold scan_sign. rewrite (proj2 (Z.eqb_neq x 45)), (proj2 (Z.eqb_neq x 43)) by lia.
  assert (H0x : ∀ c1 s'', s ++ c :: r = c1 :: s'' → (c1 =? 120) || (c1 =? 88) = false).
  { intros c1 s'' Heq. destruct s as [|y s]; simpl in Heq; injection Heq as <- _.
    - unfold is_delim, is_space in Hc. lia.
    - inversion Hs' as [|? d2 ? ds2 Hy]; subst. apply digit_val_cases in Hy. lia. }
  cbn [app] in Hscan. destruct (s ++ c :: r) as [|c1 s''] eqn:E; [by destruct s|].
  rewrite (H0x c1 s'' eq_refl), andb_false_r, Hscan. cbn [Nat.add length Nat.eqb].
  by rewrite Z.min_l by lia.
Qed.

(** ** A record of the dump *)

(** What follows a number starts with a delimiter. *)
Lemma fields_start ws fs dn x :
  Forall2 dump_field ws fs → delims dn → dn ≠ [] →
  ∃ c r, flat_fields fs ++ dn ++ x = c :: r ∧ is_delim c = true.
Proof.
  intros Hfs [Hdn _] Hne. destruct Hfs as [|w [d h] ws fs (Hd & [Hdd _] & _) Hfs].
  - destruct dn as [|c dn]; [done|]. apply Forall_cons in Hdn as [Hc _]. by exists c, (dn ++ x).
  - destruct d as [|c d]; [done|]. apply Forall_cons in Hdd as [Hc _]. by eexists c, _.
Qed.

Lemma flat_fields_no_nul ws fs : Forall2 dump_field ws fs → no_nul (flat_fields fs).
Proof.
  induction 1 as [|w [d h] ws fs (Hd & [Hdd _] & Hh & _) Hfs IH]; [constructor|].
  unfold flat_fields. rewrite bind_cons. cbn [fst snd] in *. apply Forall_app; split; [|exact IH].
  apply Forall_app; split; [by apply delims_no_nul|].
  eapply Forall_impl; [by eapply hex_chars|]. by intros c (_ & ? & _).
Qed.

(** The cursors over one field. *)
Lemma field_cursors d h w c r tail :
  dump_field w (d, h) → is_delim c = true → no_nul (c :: r) →
  motr_addb_skip_delimiter (d ++ h ++ c :: r ++ 0 :: tail) = Done (h ++ c :: r ++ 0 :: tail) ∧
  cstr_read (h ++ c :: r ++ 0 :: tail) = Done (h ++ c :: r) ∧ scan_lx (h ++ c :: r) = ScanVal w (c :: r) ∧
  motr_addb_jump_to_delimiter (h ++ c :: r ++ 0 :: tail) = Done (c :: r ++ 0 :: tail).
Proof.
  intros (_ & Hdd & Hh & _) Hc Hn. cbn [fst snd] in *. pose proof (hex_chars _ _ Hh) as Hch.
  pose proof Hh as (Hnh & Hhl & _).
  assert (Hnn : no_nul (h ++ c :: r)).
  { apply Forall_app; split; [eapply Forall_impl; [exact Hch|]; by intros ? (_ & ? & _)|done]. }
  split_and!.
  - destruct h as [|x h]; [done|]. apply Forall_cons in Hch as [(Hx & _) _].
    pose proof (skip_app d x (h ++ c :: r) tail Hdd Hx) as Hsk. rewrite <- !app_assoc in Hsk. cbn [app] in Hsk |- *.
    apply Hsk. apply Forall_app; split; [by apply delims_no_nul, Hdd|done].
  - replace (h ++ c :: r ++ 0 :: tail) with ((h ++ c :: r) ++ 0 :: tail) by by rewrite <- app_assoc.
    by apply cstr_read_term.
  - by apply scan_lx_hex.
  - apply jump_app; [eapply Forall_impl; [exact Hch|]; by intros ? (? & _)|done..].
Qed.

Section Clean.
Context `{HostOrder}.

Lemma scan_lx_bar labels : scan_lx (124 :: labels) = ScanNone.
Proof. unfold scan_lx. cbn. by destruct labels. Qed.

Lemma clean_loop_fields ws fs dn labels tail fuel rc rec_len out :
  Forall2 dump_field ws fs → delims dn → dn ≠ [] → no_nul labels → (length fs < fuel)%nat →
  Z.of_nat (length out) + 8 * Z.of_nat (length fs) <= rec_len →
  clean_loop fuel rc (flat_fields fs ++ dn ++ 124 :: labels ++ 0 :: tail)
    (Z.of_nat (length (flat_fields fs)) + Z.of_nat (length dn)) rec_len out =
    Done (0, out ++ (ws ≫= native 8)).
Proof.
  intros Hfs Hdn Hne Hlab. revert fuel rc out.
  induction Hfs as [|w [d h] ws fs Hf Hfs IH]; intros fuel rc out Hfuel Hlen; (destruct fuel as [|fuel]; [simpl in Hfuel; lia|]);
    cbn [clean_loop].
  - change (flat_fields []) with (@nil Z). cbn [app length].
    rewrite (proj2 (Z.eqb_neq _ _)) by (destruct dn; [done|simpl; lia]).
    rewrite skip_app; [|done|done|].
    2:{ apply Forall_app; split; [by apply delims_no_nul, Hdn|]. by constructor. }
    cbn [mbind outcome_bind].
    change (124 :: labels ++ 0 :: tail) with ((124 :: labels) ++ 0 :: tail).
    rewrite cstr_read_term by by constructor. cbn [mbind outcome_bind]. by rewrite scan_lx_bar, app_nil_r.
  - destruct (fields_start ws fs dn (124 :: labels) Hfs Hdn Hne) as (c & r & Hr & Hc).
    assert (Hn : no_nul (c :: r)).
    { rewrite <- Hr. apply Forall_app; split; [by eapply flat_fields_no_nul|].
      apply Forall_app; split; [by apply delims_no_nul, Hdn|]. by constructor. }
    set (X := flat_fields fs ++ dn ++ 124 :: labels ++ 0 :: tail).
    assert (Htail : X = c :: r ++ 0 :: tail).
    { unfold X. change (124 :: labels ++ 0 :: tail) with ((124 :: labels) ++ 0 :: tail).
      rewrite !app_assoc, <- (app_assoc (flat_fields fs)), Hr. done. }
    assert (Hs : flat_fields ((d, h) :: fs) ++ dn ++ 124 :: labels ++ 0 :: tail = d ++ h ++ X).
    { unfold flat_fields at 1. rewrite bind_cons, <- !app_assoc. done. }
    rewrite Hs, Htail. rewrite (proj2 (Z.eqb_neq _ _)) by (destruct dn; [done|simpl; lia]).
    destruct (field_cursors d h w c r tail Hf Hc Hn) as (-> & Hread & Hscan & Hjump). cbn [mbind outcome_bind].
    rewrite Hread. cbn [mbind outcome_bind]. rewrite Hscan, Hjump. cbn [mbind outcome_bind].
    cbn [length] in Hlen. rewrite (proj2 (Z.ltb_ge _ _)) by lia. rewrite <- Htail.
    replace (moved (d ++ h ++ X) X) with (Z.of_nat (length d + length h)) by (by rewrite app_assoc, moved_app, length_app).
    replace (_ - _) with (Z.of_nat (length (flat_fields fs)) + Z.of_nat (length dn)).
    2:{ unfold flat_fields at 2. rewrite bind_cons, !length_app. cbn [fst snd]. unfold flat_fields. lia. }
    unfold X. rewrite IH; [by rewrite bind_cons, <- app_assoc|simpl in Hfuel; lia|rewrite length_app, length_native; lia].
Qed.
End Clean.

Lemma flat_fields_len ws fs : Forall2 dump_field ws fs → (8 * length fs <= length (flat_fields fs))%nat.
Proof.
  induction 1 as [|w [d h] ws fs (_ & _ & _ & Hl) Hfs IH]; [simpl; lia|].
  unfold flat_fields in *. rewrite bind_cons, !length_app. cbn [fst snd length] in *. lia.
Qed.

Lemma not_bar c : is_delim c = true ∨ (∃ d, digit_val c = Some d) → c ≠ 124.
Proof.
  intros [Hc|[d Hd%digit_val_cases]]; [|lia]. intros ->. done.
Qed.

Lemma strchr_pos_app u c r : Forall (λ x, x ≠ c) u → strchr_pos c (u ++ c :: r) = Some (length u).
Proof.
  induction 1 as [|x u Hx Hu IH]; cbn [app strchr_pos]; [by rewrite Z.eqb_refl|].
  by rewrite (proj2 (Z.eqb_neq _ _) Hx), IH.
Qed.

Lemma flat_fields_no_bar ws fs : Forall2 dump_field ws fs → Forall (λ c, c ≠ 124) (flat_fields fs).
Proof.
  induction 1 as [|w [d h] ws fs (_ & [Hdd _] & (_ & _ & _ & ds & Hs & _) & _) Hfs IH]; [constructor|].
  unfold flat_fields. rewrite bind_cons. apply Forall_app; split; [|exact IH]. cbn [fst snd] in *.
  apply Forall_app; split.
  - eapply Forall_impl; [exact Hdd|]. intros c Hc. apply not_bar. by left.
  - clear -Hs. induction Hs as [|c e s es Hc Hs IH]; constructor; [apply not_bar; by right; eexists|done].
Qed.

(** The cursors over the time and up to the id. *)
Lemma addb_cursors d0 time d1 c r tail :
  delims d0 → addb_time time → delims d1 → d1 ≠ [] → is_delim c = false → no_nul (c :: r) →
  let x := c :: r in
  motr_addb_skip_delimiter ((d0 ++ time ++ d1 ++ x) ++ 0 :: tail) = Done ((time ++ d1 ++ x) ++ 0 :: tail) ∧
  motr_addb_jump_to_delimiter ((time ++ d1 ++ x) ++ 0 :: tail) = Done ((d1 ++ x) ++ 0 :: tail) ∧
  motr_addb_skip_delimiter ((d1 ++ x) ++ 0 :: tail) = Done (x ++ 0 :: tail).
Proof.
  intros Hd0 (Htn & Htl & Htc) Hd1 Hn1 Hc Hn x.
  assert (Hn1x : no_nul (d1 ++ x)) by (apply Forall_app; split; [by apply delims_no_nul, Hd1|done]).
  assert (Hntx : no_nul (time ++ d1 ++ x)).
  { apply Forall_app; split; [|done]. eapply Forall_impl; [exact Htc|]. by intros ? [_ ?]. }
  split; [|split].
  - destruct time as [|t time]; [done|]. apply Forall_cons in Htc as [[Hti _] _]. rewrite <- app_assoc.
    apply (skip_app d0 t (time ++ d1 ++ x) tail Hd0 Hti).
    apply Forall_app; split; [by apply delims_no_nul, Hd0|done].
  - destruct d1 as [|y d1]; [done|]. destruct Hd1 as [[Hy _]%Forall_cons _]. rewrite <- app_assoc.
    apply (jump_app time y (d1 ++ x) tail); try done; [|unfold ADDB_MAX, MIO_MOTR_ADDB_MAX_PAYLOAD; lia].
    eapply Forall_impl; [exact Htc|]. by intros ? [? _].
  - rewrite <- app_assoc. by apply (skip_app d1 c r tail Hd1 Hc).
Qed.

Section Load.
Context `{HostOrder} (id : Z).

(** The line of a record is found. *)
Lemma addb_find_line fuel tail ws time line rest p :
  dump_line id ws time line → hd true p = true → (0 < fuel)%nat →
  ∃ fs dn labels, Forall2 dump_field ws fs ∧ delims dn ∧ dn ≠ [] ∧ no_nul labels ∧
    addb_find id fuel tail (line ++ 10 :: rest) p =
      Done (FoundRec time ((line ++ [10]) ++ 0 :: tail) (flat_fields fs ++ dn ++ 124 :: labels ++ 0 :: tail), rest, List.tl p).
Proof.
  intros (d0 & d1 & h & fs & dn & labels & Hd0 & Hd1 & Hn1 & Hh & Hfs & Hdn & Hne & Ht & Hlab & -> & Hnl) Hp Hf.
  exists fs, dn, (labels ++ [10]). split; [done|]. split; [done|]. split; [done|].
  assert (Hlab' : no_nul (labels ++ [10])) by (apply Forall_app; split; [done|by repeat constructor]).
  split; [done|]. destruct fuel as [|fuel]; [lia|]. cbn [addb_find].
  rewrite getline_line by done. rewrite <- app_comm_cons. change (42 =? 42) with true. cbn [negb].
  set (R := flat_fields fs ++ dn ++ 124 :: labels ++ [10]).
  assert (Htext : (d0 ++ time ++ d1 ++ h ++ flat_fields fs ++ dn ++ [124] ++ labels) ++ [10] =
    d0 ++ time ++ d1 ++ h ++ R).
  { unfold R. rewrite <- !app_assoc. done. }
  rewrite Htext.
  destruct (fields_start ws fs dn (124 :: labels ++ [10]) Hfs Hdn Hne) as (c & r & Hr & Hc). fold R in Hr.
  assert (HnR : no_nul R).
  { apply Forall_app; split; [by eapply flat_fields_no_nul|]. apply Forall_app; split; [by apply delims_no_nul, Hdn|].
    by constructor. }
  pose proof (hex_chars _ _ Hh) as Hch. pose proof Hh as (Hnh & Hhl & _).
  assert (HnhR : no_nul (h ++ R)).
  { apply Forall_app; split; [|done]. eapply Forall_impl; [exact Hch|]. by intros ? (_ & ? & _). }
  assert (Hx : ∃ x h', h = x :: h' ∧ is_delim x = false).
  { destruct h as [|x h']; [done|]. apply Forall_cons in Hch as [(? & _) _]. by exists x, h'. }
  destruct Hx as (x & h' & -> & Hxd).
  destruct (addb_cursors d0 time d1 x (h' ++ R) tail Hd0 Ht Hd1 Hn1 Hxd HnhR) as (Hskip0 & Hjump & Hskip1).
  set (h := x :: h') in *. change (x :: h' ++ R) with (h ++ R) in Hskip0, Hjump, Hskip1.
  rewrite Hskip0. cbn [mbind outcome_bind]. rewrite Hjump. cbn [mbind outcome_bind].
  rewrite Hskip1. cbn [mbind outcome_bind]. rewrite cstr_read_term by done. cbn [mbind outcome_bind].
  rewrite Hr, (scan_lx_hex h id c r Hh Hc), <- Hr, Z.eqb_refl.
  assert (Hplan : plan_next p = (true, List.tl p)) by (destruct p as [|[] p]; simpl in Hp; done). rewrite Hplan. cbn [negb].
  assert (Hjump2 : motr_addb_jump_to_delimiter ((h ++ R) ++ 0 :: tail) = Done (R ++ 0 :: tail)).
  { rewrite Hr in HnhR |- *. rewrite <- app_assoc. apply (jump_app h c r tail); try done.
    eapply Forall_impl; [exact Hch|]. by intros ? (? & _). }
  rewrite Hjump2. cbn [mbind outcome_bind]. do 3 f_equal. f_equal.
  - rewrite <- !app_assoc, moved_app, Nat2Z.id. by rewrite take_app_length.
  - unfold R. rewrite <- !app_assoc. cbn [app]. by rewrite <- !app_assoc.
Qed.

Lemma addb_find_other fuel tail line rest p :
  other_line id line → addb_find id (S fuel) tail (line ++ 10 :: rest) p = addb_find id fuel tail rest p.
Proof.
  intros (Hne & Hnl & Hkind). cbn [addb_find]. rewrite getline_line by done.
  destruct Hkind as [Hhd|(d0 & time & d1 & c & r & -> & Hd0 & Ht & Hd1 & Hn1 & Hc & Hn & Hscan)].
  { destruct line as [|c line]; [done|]. cbn [app]. simpl in Hhd. by rewrite (proj2 (Z.eqb_neq _ _) Hhd). }
  rewrite <- app_comm_cons. change (42 =? 42) with true. cbn [negb].
  replace ((d0 ++ time ++ d1 ++ c :: r) ++ [10]) with (d0 ++ time ++ d1 ++ c :: (r ++ [10]))
    by (rewrite <- !app_assoc; done).
  assert (Hn' : no_nul (c :: r ++ [10])).
  { apply Forall_cons in Hn as [? ?]. constructor; [done|]. apply Forall_app; split; [done|by repeat constructor]. }
  destruct (addb_cursors d0 time d1 c (r ++ [10]) tail Hd0 Ht Hd1 Hn1 Hc Hn') as (-> & Hjump & Hskip).
  cbn [mbind outcome_bind]. rewrite Hjump. cbn [mbind outcome_bind]. rewrite Hskip. cbn [mbind outcome_bind].
  rewrite cstr_read_term by done. cbn [mbind outcome_bind].
  destruct (scan_lx (c :: r ++ [10])) as [| |v rest'] eqn:E; [done..|].
  by rewrite (proj2 (Z.eqb_neq _ _) (Hscan v rest' eq_refl)).
Qed.

(** Behind any number of other lines. *)
Definition dump_lines (ls : list (list Z)) : list Z := ls ≫= λ l, l ++ [10].

Lemma addb_find_others fuel tail ls rest p :
  Forall (other_line id) ls →
  addb_find id (length ls + fuel) tail (dump_lines ls ++ rest) p = addb_find id fuel tail rest p.
Proof.
  induction 1 as [|l ls Hl Hls IH]; [done|]. unfold dump_lines. rewrite bind_cons, <- !app_assoc. cbn [app length Nat.add].
  rewrite addb_find_other by done. exact IH.
Qed.

(** Loading the record behind them. *)
Lemma addb_load_record tail ls ws time line rest :
  Forall (other_line id) ls → dump_line id ws time line → ws ≠ [] →
  mio_motr_addb_load id tail (dump_lines ls ++ line ++ 10 :: rest) [] =
    Done (0, Some (ws ≫= native 8), Some time, rest, []).
Proof.
  intros Hls Hline Hws. unfold mio_motr_addb_load.
  assert (Hfuel : ∃ n, S (length (dump_lines ls ++ line ++ 10 :: rest)) = (length ls + S n)%nat).
  { assert ((length ls <= length (dump_lines ls))%nat).
    { clear. induction ls as [|l ls IH]; [simpl; lia|]. unfold dump_lines in *. rewrite bind_cons, !length_app. simpl. lia. }
    set (l := line ++ 10 :: rest). exists (length (dump_lines ls ++ l) - length ls)%nat. rewrite !length_app. lia. }
  destruct Hfuel as [n ->]. rewrite addb_find_others by done.
  destruct (addb_find_line (S n) tail ws time line rest [] Hline eq_refl ltac:(lia)) as
    (fs & dn & labels & Hfs & Hdn & Hne & Hlab & ->). cbn [mbind outcome_bind].
  assert (Hst : flat_fields fs ++ dn ++ 124 :: labels ++ 0 :: tail = (flat_fields fs ++ dn ++ 124 :: labels) ++ 0 :: tail)
    by (rewrite <- !app_assoc; done).
  rewrite Hst at 1. rewrite cstr_read_term.
  2:{ apply Forall_app; split; [by eapply flat_fields_no_nul|]. apply Forall_app; split; [by apply delims_no_nul, Hdn|].
      by constructor. }
  cbn [mbind outcome_bind]. rewrite (app_assoc (flat_fields fs) dn (124 :: labels)), strchr_pos_app, length_app.
  2:{ apply Forall_app; split; [by eapply flat_fields_no_bar|]. eapply Forall_impl; [apply Hdn|]. intros c Hc. apply not_bar. by left. }
  cbn [mbind outcome_bind]. unfold motr_addb_clean_rec. cbn [plan_next negb orb].
  rewrite (proj2 (Z.ltb_ge _ _)) by lia.
  pose proof (flat_fields_len _ _ Hfs) as Hfl.
  rewrite Nat2Z.inj_add, (clean_loop_fields ws fs dn labels tail); try done; [|rewrite !length_app; lia|simpl; lia].
  cbn [mbind outcome_bind app]. destruct (ws ≫= native 8) as [|b bs] eqn:E; [|done].
  destruct ws as [|w ws]; [done|]. rewrite bind_cons in E. apply (f_equal length) in E.
  rewrite length_app, length_native in E. simpl in E. lia.
Qed.
End Load.

(** ** The words of a record *)

Section Words.
Context `{HostOrder}.

Lemma words_of_native n buf :
  length buf = (8 * n)%nat → Forall is_byte buf → words_of n buf ≫= native 8 = buf.
Proof.
  revert buf. induction n as [|n IH]; intros buf Hl Hb; cbn [words_of].
  - by destruct buf; [|simpl in Hl; lia].
  - rewrite bind_cons, IH; [|rewrite length_drop; lia|by apply Forall_drop].
    assert (H8 : length (take 8 buf) = 8%nat) by (rewrite length_take; lia).
    rewrite <- H8 at 1. rewrite native_of_native by by apply Forall_take. apply take_drop.
Qed.

Lemma words_of_range n buf :
  length buf = (8 * n)%nat → Forall is_byte buf → Forall (λ w, 0 <= w < 2 ^ 64) (words_of n buf).
Proof.
  revert buf. induction n as [|n IH]; intros buf Hl Hb; cbn [words_of]; constructor.
  - assert (H8 : length (take 8 buf) = 8%nat) by (rewrite length_take; lia).
    pose proof (of_native_range (take 8 buf) (Forall_take _ _ _ Hb)) as Hr. rewrite H8 in Hr. exact Hr.
  - apply IH; [rewrite length_drop; lia|by apply Forall_drop].
Qed.

(** A record that can be encoded, with texts of bytes. *)
Definition addb_accepts (r : mio_telemetry_rec) : Prop :=
  addb_rec_ok r ∧ addb_overruns r = false ∧
  (∀ s, mtr_topic r = Some s ∨ mtr_prefix r = Some s → Forall is_byte s).

Lemma le_concat_bytes w l : Forall is_byte (l ≫= le_bytes w).
Proof. induction l as [|x l IH]; [constructor|]. rewrite bind_cons. apply Forall_app; split; [apply le_bytes_byte|done]. Qed.

Lemma string_bytes_byte s : addb_string_ok s → Forall is_byte s → Forall is_byte (string_bytes s).
Proof. intros [H1 H2] Hs. constructor; [|done]. unfold is_byte, MIO_MOTR_ADDB_MAX_PAYLOAD in *. lia. Qed.

Lemma addb_bytes_byte r topic :
  addb_accepts r → mtr_topic r = Some topic →
  Forall is_byte (addb_bytes (mtr_prefix r) topic (mtr_type r) (mtr_value r)).
Proof.
  intros (((topic' & Ht' & Htok) & Hpok & Hv) & _ & Hb) Ht. rewrite Ht in Ht'. injection Ht' as <-.
  unfold addb_bytes. apply Forall_app; split; [apply le_bytes_byte|].
  apply Forall_app; split.
  { destruct (mtr_prefix r) as [pr|] eqn:E; [|by repeat constructor]. constructor; [done|].
    apply string_bytes_byte; [by apply Hpok|]. apply Hb. by right. }
  apply Forall_app; split; [apply string_bytes_byte; [done|]; apply Hb; by left|].
  pose proof (type_range _ _ _ Hv) as Hr. apply Forall_app; split.
  { repeat constructor; unfold MIO_TM_TYPE_INVALID, MIO_TM_TYPE_NR in Hr; lia. }
  destruct Hv as [(w & x & Hw & -> & Hx)|(w & l & Hw & -> & Hl & Hn)]; unfold value_bytes; rewrite Hw; cbn [default].
  - apply le_bytes_byte.
  - pose proof (addb_max_elms_lt w (array_width_in _ _ Hw)) as [_ Hm].
    constructor; [unfold is_byte; lia|apply le_concat_bytes].
Qed.

(** The encoding of a record as words that give it back. *)
Lemma addb_encode_words r :
  addb_accepts r → ∃ ws, mio_motr_addb_encode r [] = Done (0, Some (ws ≫= native 8), []) ∧ ws ≠ [] ∧
    Forall (λ w, 0 <= w < 2 ^ 64) ws ∧ words_of (length (ws ≫= native 8) / 8) (ws ≫= native 8) = ws ∧
    ∀ head old, Z.of_nat (length head) <= MIO_MOTR_ADDB_MAX_PAYLOAD →
      mio_motr_addb_decode (ws ≫= native 8) head old [] =
        Done (0, MkRec (Some head) (mtr_prefix r) (mtr_topic r) (mtr_type r) (mtr_value r), []).
Proof.
  intros Hacc. pose proof Hacc as (Hok & Hov & _). pose proof Hok as ((topic & Ht & _) & _).
  destruct (addb_roundtrip r [] r Hok Hov) as (buf & Henc & Hlen & _); [done|].
  assert (Hpos : 0 < addb_len r).
  { destruct Hok as (_ & _ & [(w & x & _ & Hv & _)|(w & l & _ & Hv & _)]); unfold addb_len; rewrite Hv; lia. }
  assert (Hb : Forall is_byte buf).
  { pose proof (addb_encode_spec r topic [] [] Hok Ht eq_refl) as He. cbv zeta in He. rewrite Henc, Hov in He.
    apply (f_equal (λ x, match x with Done (_, Some b, _) => b | _ => [] end)) in He. cbn beta iota in He. rewrite He.
    apply Forall_app; split; [by apply addb_bytes_byte|]. apply Forall_replicate. unfold is_byte. lia. }
  set (n := Z.to_nat ((addb_len r + 7) / 8)).
  assert (Hn : 0 < (addb_len r + 7) / 8) by (apply Z.div_str_pos; lia).
  assert (Hl : length buf = (8 * n)%nat) by (unfold n; lia).
  pose proof (words_of_native n buf Hl Hb) as Hw. exists (words_of n buf). rewrite Hw.
  split; [done|]. split; [by destruct n as [|n'] eqn:E; [lia|]|]. split; [by apply words_of_range|].
  split; [by rewrite Hl, Nat.mul_comm, Nat.div_mul|].
  intros head old Hhead. destruct (addb_roundtrip r head old Hok Hov Hhead) as (buf' & Henc' & _ & Hdec).
  rewrite Henc in Henc'. by injection Henc' as <-.
Qed.
End Words.

(** ** ADDB as a channel *)

(** Motr's ADDB and its dump: adding words makes the utility print, perhaps
    behind other lines, the line of a record; reading takes lines off. *)
Class AddbDump (W : Type) (id : Z) := {
  m0_addb2_add : list Z → W → W;
  addb_dump : W → list Z;
  set_dump : list Z → W → W;
  m0_addb2_add_law : ∀ ws w, Forall (λ x, 0 <= x < 2 ^ 64) ws →
    ∃ ls time line, Forall (other_line id) ls ∧ dump_line id ws time line ∧
      addb_dump (m0_addb2_add ws w) = addb_dump w ++ dump_lines ls ++ line ++ [10];
  set_dump_law : ∀ d w, addb_dump (set_dump d w) = d
}.

(** The part of the dump that holds a record. *)
Definition dump_part `{HostOrder} (id : Z) (r : mio_telemetry_rec) (part : list Z) : Prop :=
  addb_accepts r ∧ ∃ ls ws time line, Forall (other_line id) ls ∧ dump_line id ws time line ∧ ws ≠ [] ∧
    mio_motr_addb_encode r [] = Done (0, Some (ws ≫= native 8), []) ∧ part = dump_lines ls ++ line ++ [10].

Definition addb_load {W id} `{HostOrder} `{AddbDump W id} (tail : list Z) (w : W) (p : mplan)
  : outcome (Z * option (list Z) * option (list Z) * W * mplan) :=
  '(rc, buf, head, rest, p) ← mio_motr_addb_load id tail (addb_dump w) p; Done (rc, buf, head, set_dump rest w, p).

Definition addb_store {W id} `{HostOrder} `{AddbDump W id} (buf : option (list Z)) (w : W) : outcome (Z * W) :=
  match buf with Some buf => Done (mio_motr_addb_store m0_addb2_add buf w) | None => Fault NullDeref end.

Definition dump_holds {W id} `{HostOrder} `{AddbDump W id} (w : W) (rs : list mio_telemetry_rec) : Prop :=
  ∃ parts, Forall2 (dump_part id) rs parts ∧ addb_dump w = mjoin parts.

Section Channel.
Context {W : Type} {id : Z} `{HostOrder} `{AddbDump W id} (tail : list Z).

Lemma addb_put w rs r :
  dump_holds w rs → addb_accepts r →
  ∃ buf w', mio_motr_addb_encode r [] = Done (0, Some buf, []) ∧ addb_store (Some buf) w = Done (0, w') ∧
    dump_holds w' (rs ++ [r]).
Proof.
  intros (parts & Hparts & Hw) Hacc. destruct (addb_encode_words r Hacc) as (ws & Henc & Hne & Hr & Hws & _).
  destruct (m0_addb2_add_law ws w Hr) as (ls & time & line & Hls & Hline & Hdump).
  exists (ws ≫= native 8), (m0_addb2_add ws w). split; [done|].
  split; [unfold addb_store, mio_motr_addb_store; by rewrite Hws|].
  exists (parts ++ [dump_lines ls ++ line ++ [10]]). split.
  - apply Forall2_app; [done|]. constructor; [|done]. split; [done|]. by exists ls, ws, time, line.
  - rewrite Hdump, Hw, join_app. cbn. by rewrite app_nil_r.
Qed.

Lemma addb_get w r rs :
  dump_holds w (r :: rs) →
  ∃ buf head w', addb_load tail w [] = Done (0, Some buf, Some head, w', []) ∧ dump_holds w' rs ∧
    ∀ old, mio_motr_addb_decode buf head old [] =
      Done (0, MkRec (Some head) (mtr_prefix r) (mtr_topic r) (mtr_type r) (mtr_value r), []).
Proof.
  intros (parts & Hparts & Hw).
  apply Forall2_cons_inv_l in Hparts as (part & parts' & (Hacc & ls & ws & time & line & Hls & Hline & Hne & Henc & ->) & Hparts & ->).
  exists (ws ≫= native 8), time, (set_dump (mjoin parts') w). split_and!.
  - unfold addb_load. rewrite Hw. cbn [mjoin list_join]. rewrite <- !app_assoc. cbn [app].
    by rewrite (addb_load_record id tail ls ws time line (mjoin parts') Hls Hline Hne).
  - exists parts'. by rewrite set_dump_law.
  - intros old. destruct (addb_encode_words r Hacc) as (ws' & Henc' & _ & _ & _ & Hdec).
    rewrite Henc in Henc'. injection Henc' as Heq. rewrite Heq. apply Hdec.
    destruct Hline as (? & ? & ? & ? & ? & ? & _ & _ & _ & _ & _ & _ & _ & (_ & Ht & _) & _).
    unfold MIO_MOTR_ADDB_MAX_PAYLOAD. lia.
Qed.

#[export] Instance addb_channel : TelemetryChannel W := {|
  tc_encode := mio_motr_addb_encode; tc_decode := mio_motr_addb_decode;
  tc_store := addb_store; tc_load := addb_load tail;
  tc_accepts := addb_accepts; tc_holds := dump_holds;
  tc_put := addb_put; tc_get := addb_get
|}.
End Channel.

(** ** Storing and loading several records *)

Section Fifo.
Context {W : Type} {id : Z} `{HostOrder} `{AddbDump W id} (tail : list Z).

Fixpoint addb_store_all (rs : list mio_telemetry_rec) (w : W) : outcome W :=
  match rs with
  | [] => Done w
  | r :: rs =>
      '(_, buf, _) ← mio_motr_addb_encode r [];
      '(_, w) ← addb_store buf w;
      addb_store_all rs w
  end.

Fixpoint addb_load_all (n : nat) (old : mio_telemetry_rec) (w : W) : outcome (list (Z * mio_telemetry_rec) * W) :=
  match n with
  | O => Done ([], w)
  | S n =>
      '(rc, buf, head, w, _) ← addb_load tail w [];
      match buf, head with
      | Some buf, Some head =>
          '(rc, r, _) ← mio_motr_addb_decode buf head old [];
          '(rs, w) ← addb_load_all n r w;
          Done ((rc, r) :: rs, w)
      | _, _ => Done ([(rc, old)], w)
      end
  end.

(** The same record, but for the time. *)
Definition loaded (r : mio_telemetry_rec) (x : Z * mio_telemetry_rec) : Prop :=
  x.1 = 0 ∧ mtr_prefix x.2 = mtr_prefix r ∧ mtr_topic x.2 = mtr_topic r ∧ mtr_type x.2 = mtr_type r ∧
  mtr_value x.2 = mtr_value r ∧ is_Some (mtr_time_str x.2).

Lemma addb_store_all_spec rs1 rs w :
  dump_holds w rs1 → Forall addb_accepts rs → ∃ w', addb_store_all rs w = Done w' ∧ dump_holds w' (rs1 ++ rs).
Proof.
  intros Hw Hrs. revert rs1 w Hw. induction Hrs as [|r rs Hr Hrs IH]; intros rs1 w Hw; cbn [addb_store_all].
  - exists w. by rewrite app_nil_r.
  - destruct (addb_put w rs1 r Hw Hr) as (buf & w' & -> & Hst & Hw'). cbn [mbind outcome_bind]. rewrite Hst.
    cbn [mbind outcome_bind]. rewrite app_cons_assoc. by apply IH.
Qed.

Lemma addb_load_all_spec rs old w :
  dump_holds w rs →
  ∃ res w', addb_load_all (length rs) old w = Done (res, w') ∧ Forall2 loaded rs res ∧ dump_holds w' [].
Proof.
  revert old w. induction rs as [|r rs IH]; intros old w Hw; cbn [addb_load_all length].
  - exists [], w. by split_and!.
  - destruct (addb_get tail w r rs Hw) as (buf & head & w1 & -> & Hw1 & Hdec). cbn [mbind outcome_bind].
    rewrite Hdec. cbn [mbind outcome_bind]. destruct (IH (MkRec (Some head) (mtr_prefix r) (mtr_topic r) (mtr_type r) (mtr_value r)) w1 Hw1)
      as (res & w2 & -> & Hres & Hw2). cbn [mbind outcome_bind].
    eexists _, w2. split; [done|]. split; [|done]. constructor; [|done]. by split_and!.
Qed.
End Fifo.


(** ** A concrete dump

    Sixteen hexadecimal digits between question marks, separated by commas. *)

Fixpoint hex_fixed (n : nat) (v : Z) : list Z :=
  match n with O => [] | S n => hex_fixed n (v / 16) ++ [hex_digit (v mod 16)] end.

Lemma hex_fixed_spec n v :
  0 <= v < 16 ^ Z.of_nat n →
  length (hex_fixed n v) = n ∧
  ∃ ds, Forall2 (λ c d, digit_val c = Some d) (hex_fixed n v) ds ∧ v = foldl (λ a d, a * 16 + d) 0 ds.
Proof.
  revert v. induction n as [|n IH]; intros v Hv; cbn [hex_fixed].
  - split; [done|]. exists []. split; [done|]. simpl in Hv |- *. lia.
  - rewrite Nat2Z.inj_succ, Z.pow_succ_r in Hv by lia.
    pose proof (div_mod_eq v 16 ltac:(lia)). pose proof (mod_bound v 16 ltac:(lia)).
    assert (Hq : 0 <= v / 16 < 16 ^ Z.of_nat n).
    { split; [apply Z.div_pos; lia|]. apply Z.div_lt_upper_bound; lia. }
    destruct (IH _ Hq) as (Hl & ds & Hds & Heq). split; [rewrite length_app, Hl; simpl; lia|].
    exists (ds ++ [v mod 16]). split.
    + apply Forall2_app; [done|]. constructor; [|done]. unfold hex_digit, digit_val.
      destruct (Z.ltb_spec (v mod 16) 10).
      * replace ((48 <=? 48 + v mod 16) && (48 + v mod 16 <=? 57)) with true by lia. f_equal. lia.
      * replace ((48 <=? 87 + v mod 16) && (87 + v mod 16 <=? 57)) with false by lia.
        replace ((97 <=? 87 + v mod 16) && (87 + v mod 16 <=? 102)) with true by lia. f_equal. lia.
    + rewrite foldl_app. cbn [foldl]. rewrite <- Heq. lia.
Qed.

Lemma hex_fixed_of v : 0 <= v < 2 ^ 64 → hex_of (hex_fixed 16 v) v.
Proof.
  intros Hv. destruct (hex_fixed_spec 16 v Hv) as (Hl & Hds). split_and!; [|rewrite Hl; by vm_compute; lia|lia..|done].
  intros Heq. by rewrite Heq in Hl.
Qed.

Definition ex_addb_id : Z := 3145728.
Definition ex_addb_time : list Z := str "2021-03-01-12:00:00.123456789".

Definition ex_field (w : Z) : list Z * list Z := (str " ?", hex_fixed 16 w).

Definition ex_dump_line (ws : list Z) : list Z :=
  42 :: str " " ++ ex_addb_time ++ str " " ++ hex_fixed 16 ex_addb_id ++ flat_fields (ex_field <$> ws) ++ str "?" ++ [124] ++
    str " labels".

Lemma ex_dump_line_ok ws : Forall (λ x, 0 <= x < 2 ^ 64) ws → dump_line ex_addb_id ws ex_addb_time (ex_dump_line ws).
Proof.
  intros Hws. assert (Hfs : Forall2 dump_field ws (ex_field <$> ws)).
  { apply Forall2_fmap_r, Forall_Forall2_diag. eapply Forall_impl; [exact Hws|]. intros w Hw. cbv beta.
    destruct (hex_fixed_spec 16 w Hw) as [Hl _].
    split; [done|]. split; [split; [by repeat constructor|vm_compute; lia]|]. split; [by apply hex_fixed_of|].
    cbn [ex_field snd fst]. rewrite Hl. simpl. lia. }
  exists (str " "), (str " "), (hex_fixed 16 ex_addb_id), (ex_field <$> ws), (str "?"), (str " labels").
  assert (Hd : ∀ c, is_delim c = true → delims [c]) by (intros c Hc; split; [by repeat constructor|vm_compute; lia]).
  split; [by apply Hd|]. split; [by apply Hd|]. split; [done|]. split; [by apply hex_fixed_of|]. split; [done|].
  split; [by apply Hd|]. split; [done|].
  split; [split_and!; [done|vm_compute; lia|by repeat constructor]|]. split; [by repeat constructor|]. split; [done|].
  unfold ex_dump_line. rewrite Forall_cons, !Forall_app.
  split_and!; try (apply (bool_decide_unpack _); by vm_compute). clear Hfs.
  induction Hws as [|w ws Hw Hws IH]; [constructor|]. cbn [fmap list_fmap]. unfold flat_fields. rewrite bind_cons.
  apply Forall_app; split; [|exact IH]. cbn [ex_field fst snd].
  apply Forall_app; split; [by repeat constructor|].
  eapply Forall_impl; [exact (hex_chars _ _ (hex_fixed_of w Hw))|]. intros c (Hc & _) ->. done.
Qed.

Definition ex_other_line : list Z := str "* 2021-03-01-12:00:00.1 2f other |".

Lemma ex_other_line_ok : other_line ex_addb_id ex_other_line.
Proof.
  split; [done|]. split; [by repeat constructor|]. right.
  exists (str " "), (str "2021-03-01-12:00:00.1"), (str " "), 50, (str "f other |").
  split; [done|]. split; [split; [by repeat constructor|vm_compute; lia]|].
  split; [split_and!; [done|vm_compute; lia|by repeat constructor]|].
  split; [split; [by repeat constructor|vm_compute; lia]|]. split; [done|]. split; [done|].
  split; [by repeat constructor|]. intros v rest Hv. vm_compute in Hv. injection Hv as <- _. done.
Qed.

#[export, refine] Instance ex_addb_dump : AddbDump (list Z) ex_addb_id := {
  m0_addb2_add ws w := w ++ ex_other_line ++ [10] ++ str "| label" ++ [10] ++ ex_dump_line ws ++ [10];
  addb_dump w := w; set_dump d _ := d
}.
Proof.
  - intros ws w Hws. exists [ex_other_line; str "| label"], ex_addb_time, (ex_dump_line ws).
    split; [constructor; [exact ex_other_line_ok|]; constructor; [|constructor]|].
    { split; [done|]. split; [by repeat constructor|by left]. }
    split; [by apply ex_dump_line_ok|]. unfold dump_lines. cbn [mbind list_bind]. by rewrite <- !app_assoc.
  - done.
Defined.

Lemma ex_addb_accepts topic :
  addb_string_ok topic → Forall is_byte topic → addb_overruns (ex_addb_rec topic) = false → addb_accepts (ex_addb_rec topic).
Proof.
  intros Ht Hb Ho. split; [by apply ex_addb_rec_ok|]. split; [done|].
  intros s [[= <-]|[= <-]]; [done|]. repeat constructor; unfold is_byte; lia.
Qed.

