(* ===== verification/DriverOp.v ===== *)
(** * Driver operations (src/mio_driver.c, src/driver_motr.c, src/mio.c)

    A MIO operation is carried out by a chain of driver operations, newest
    first.  [mio_driver_op_add] links one in, the completion of a driver operation
    runs its post-processing action, which may add the next one, and
    [mio_motr_op_fini] releases the chain.  [mio_op_poll] waits for operations. *)

From S2P Require Import Prelude Mem Types.

(** ** The chain

    [M] are Motr's operations, [A] the driver's arguments of an operation (mdo_op_args
    with mdo_op_fini) and [P] the post-processing actions with their data
    (mdo_post_proc with mdo_post_proc_data). *)
Section Chain.
Context {M A P : Type}.

Record mio_driver_op := MkDop {
  mdo_mem : ptr;               (* the address of the structure *)
  mdo_op : M;
  mdo_op_args : option A;
  mdo_post_proc : option P;
  mdo_cbs : bool               (* m0_op_setup() was called on mdo_op *)
}.

Record mio_op := MkOp {
  mop_seqno : Z;
  mop_opcode : Z;
  mop_rc : Z;
  mop_cb_complete : bool;      (* whether moc_cb_complete is set *)
  mop_cb_failed : bool;        (* whether moc_cb_failed is set *)
  mop_drv_op_chain : list mio_driver_op;
  mop_set_cbs : bool           (* whether the driver has mopo_set_cbs *)
}.

Definition set_chain (chain : list mio_driver_op) (op : mio_op) : mio_op :=
  MkOp (mop_seqno op) (mop_opcode op) (mop_rc op) (mop_cb_complete op) (mop_cb_failed op) chain
    (mop_set_cbs op).

Definition set_mop_rc (rc : Z) (op : mio_op) : mio_op :=
  MkOp (mop_seqno op) (mop_opcode op) rc (mop_cb_complete op) (mop_cb_failed op)
    (mop_drv_op_chain op) (mop_set_cbs op).

Definition SIZEOF_DRIVER_OP : Z := 48.

(** [mio_motr_op_set_cbs]: the callbacks are set on the operation at the head of
    the chain. *)
Definition mio_motr_op_set_cbs (mop : mio_op) : outcome mio_op :=
  match mop_drv_op_chain mop with
  | [] => Fault NullDeref
  | dop :: chain =>
      Done (set_chain (MkDop (mdo_mem dop) (mdo_op dop) (mdo_op_args dop) (mdo_post_proc dop) true :: chain) mop)
  end.

(** [mio_driver_op_add]. *)
Definition mio_driver_op_add (op : mio_op) (post_proc : option P) (drv_op : M)
    (drv_op_args : option A) (h : heap) : Z * mio_op * heap :=
  let '(dop, h) := mio_mem_alloc SIZEOF_DRIVER_OP h in
  if decide (dop = NULL) then (- ENOMEM, op, h) else
  let cbs := mop_set_cbs op && mop_cb_complete op && mop_cb_failed op in
  (0, set_chain (MkDop dop drv_op drv_op_args post_proc cbs :: mop_drv_op_chain op) op, h).

(** Linking without callbacks and then setting them is what [mio_driver_op_add]
    does when the application has both callbacks. *)
Lemma mio_driver_op_add_set_cbs op pp m a h op' h' :
  mop_set_cbs op && mop_cb_complete op && mop_cb_failed op = true →
  mio_driver_op_add op pp m a h = (0, op', h') →
  ∃ dop, mio_motr_op_set_cbs (set_chain (MkDop dop m a pp false :: mop_drv_op_chain op) op) = Done op'.
Proof.
  unfold mio_driver_op_add. intros -> H. destruct (mio_mem_alloc _ h) as [dop h0].
  case_decide; [done|]. injection H as <- _. by exists dop.
Qed.

(** [mio_motr_op_fini]: every driver operation of the chain, newest first;
    [op_fini] is what mdo_op_fini does. *)
Fixpoint op_fini_chain (op_fini : A → heap → outcome heap) (chain : list mio_driver_op) (h : heap)
  : outcome heap :=
  match chain with
  | [] => Done h
  | dop :: chain' =>
      h ← match mdo_op_args dop with Some a => op_fini a h | None => Done h end;
      h ← mio_mem_free (mdo_mem dop) h;
      op_fini_chain op_fini chain' h
  end.

Definition mio_motr_op_fini (op_fini : A → heap → outcome heap) (mop : mio_op) (h : heap)
  : outcome (mio_op * heap) :=
  h ← op_fini_chain op_fini (mop_drv_op_chain mop) h;
  Done (set_chain [] mop, h).

(** Which of the application's callbacks was invoked. *)
Inductive app_call := CbComplete | CbFailed.

(** [mio_driver_op_invoke_real_cb]. *)
Definition mio_driver_op_invoke_real_cb (mop : mio_op) (rc : Z) : app_call * mio_op :=
  (if rc =? 0 then CbComplete else CbFailed, set_mop_rc rc mop).

(** [motr_op_cb_complete], called by Motr when the operation at the head of the
    chain is stable.  [pp] runs a post-processing action. *)
Definition motr_op_cb_complete {W} (pp : P → mio_op → W → outcome (Z * mio_op * W))
    (mop : mio_op) (w : W) : outcome (option app_call * mio_op * W) :=
  match mop_drv_op_chain mop with
  | [] => Fault NullDeref
  | dop :: _ =>
      match mdo_post_proc dop with
      | None => let '(call, mop) := mio_driver_op_invoke_real_cb mop 0 in Done (Some call, mop, w)
      | Some p =>
          '(rc, mop, w) ← pp p mop w;
          if rc =? MIO_DRV_OP_NEXT then Done (None, mop, w)
          else let '(call, mop) := mio_driver_op_invoke_real_cb mop 0 in Done (Some call, mop, w)
      end
  end.

(** [motr_op_cb_failed]. *)
Definition motr_op_cb_failed (mop : mio_op) (m0_rc : Z) : app_call * mio_op :=
  mio_driver_op_invoke_real_cb mop m0_rc.
End Chain.

Arguments mio_driver_op M A P : clear implicits.
Arguments mio_op M A P : clear implicits.

(** ** Waiting *)

(** [mio_motr_op_wait]: [rc] is the result of m0_op_wait() and [op_rc] that of
    m0_rc(); the result is the return value and *retstate. *)
Definition mio_motr_op_wait (rc op_rc : Z) : Z * Z :=
  if rc =? 0 then
    if op_rc <? 0 then (op_rc, MIO_OP_FAILED) else (rc, MIO_OP_COMPLETED)
  else if rc =? - ETIMEDOUT then (rc, MIO_OP_ONFLY)
  else (rc, MIO_OP_FAILED).

Definition MIO_TIME_NEVER : Z := 2 ^ 64 - 1.

(** ** mio_op_poll

    The world [W] holds the operations and the clock.  [wait] is mopo_wait of
    operation [i], [post_proc] the post-processing action at the head of its
    chain, if any, and [now] is mio_now(). *)
Section Poll.
Context {W : Type}.
Context (wait : nat → Z → W → Z * Z * W).
Context (post_proc : nat → W → option (W → outcome (Z * W))).
Context (now : W → Z).

(** One operation of a round: the new mp_retstate and whether it is done. *)
Definition poll_one (i : nat) (timeout : Z) (w : W) : outcome (Z * bool * W) :=
  let '(_, retstate, w) := wait i timeout w in
  if retstate =? MIO_OP_COMPLETED then
    match post_proc i w with
    | Some pp =>
        '(rc, w) ← pp w;
        if rc =? MIO_DRV_OP_NEXT then Done (MIO_OP_ONFLY, false, w)
        else _ ← c_assert (rc =? MIO_DRV_OP_FINAL); Done (retstate, true, w)
    | None => Done (retstate, true, w)
    end
  else Done (retstate, retstate =? MIO_OP_FAILED, w).

(** The for loop over the operations [i] .. [i+n-1]. *)
Fixpoint poll_round (n i : nat) (timeout nr_done : Z) (w : W) : outcome (Z * list Z * W) :=
  match n with
  | O => Done (nr_done, [], w)
  | S n' =>
      '(retstate, op_done, w) ← poll_one i timeout w;
      '(nr_done, states, w) ← poll_round n' (S i) timeout (if (op_done : bool) then nr_done + 1 else nr_done) w;
      Done (nr_done, retstate :: states, w)
  end.

(** The rounds; [nr_done] is never set back. *)
Fixpoint poll_loop (fuel : nat) (nr_ops : nat) (timeout start nr_done : Z) (w : W)
  : outcome (Z * list Z * W) :=
  match fuel with
  | O => Fault NoTermination
  | S fuel' =>
      '(nr_done, states, w) ← poll_round nr_ops 0 timeout nr_done w;
      let passed := u64 (now w - start) in
      if (timeout =? MIO_TIME_NEVER) && negb (nr_done =? Z.of_nat nr_ops) then
        poll_loop fuel' nr_ops timeout start nr_done w
      else if negb (timeout =? MIO_TIME_NEVER) && (passed <? timeout) then
        poll_loop fuel' nr_ops (timeout - passed) start nr_done w
      else Done (nr_done, states, w)
  end.

(** [mio_op_poll(ops, nr_ops, timeout)]; [instance_rc] is mio_instance_check(). *)
Definition mio_op_poll (fuel : nat) (ops_null : bool) (nr_ops : nat) (timeout instance_rc : Z) (w : W)
  : outcome (Z * list Z * W) :=
  if negb (Z.of_nat nr_ops =? 0) && ops_null then Done (- EINVAL, [], w)
  else if instance_rc <? 0 then Done (instance_rc, [], w)
  else poll_loop fuel nr_ops timeout (now w) 0 w.

(** A round in which every operation is done at once counts each of them. *)
Definition op_done_at (i : nat) (timeout : Z) (w w' : W) (retstate : Z) : Prop :=
  poll_one i timeout w = Done (retstate, true, w').

Lemma poll_round_mono n i timeout d w d' states w' :
  poll_round n i timeout d w = Done (d', states, w') →
  d <= d' <= d + Z.of_nat n ∧ length states = n.
Proof.
  revert i d w d' states w'. induction n as [|n IH]; intros i d w d' states w' Hrun; simpl in Hrun.
  { injection Hrun as <- <- <-. simpl. lia. }
  outcome_inv. apply IH in H0 as [? <-]. destruct b; simpl; lia.
Qed.

(** The count of a round starts from the previous count. *)
Lemma poll_round_shift n i timeout d w :
  poll_round n i timeout d w =
  '(k, states, w') ← poll_round n i timeout 0 w; Done (d + k, states, w').
Proof.
  revert i d w. induction n as [|n IH]; intros i d w; simpl; [do 3 f_equal; lia|].
  destruct (poll_one i timeout w) as [[[s b] w1]|]; simpl; [|done].
  rewrite IH, (IH _ (if b then _ else _)).
  destruct (poll_round n (S i) timeout 0 w1) as [[[k st] w2]|]; simpl; [|done].
  do 3 f_equal. destruct b; lia.
Qed.

(** Once more operations were counted than there are, waiting without a timeout
    does not return. *)
Lemma poll_loop_overcount fuel nr_ops start d w :
  Z.of_nat nr_ops < d → (∃ f, poll_loop fuel nr_ops MIO_TIME_NEVER start d w = Fault f).
Proof.
  revert d w. induction fuel as [|fuel IH]; intros d w Hd; simpl; [eauto|].
  destruct (poll_round nr_ops 0 MIO_TIME_NEVER d w) as [[[d' st] w']|] eqn:E; simpl; [|eauto].
  apply poll_round_mono in E as [[Hle _] _].
  rewrite (proj2 (Z.eqb_neq d' _)) by lia. simpl. apply IH. lia.
Qed.
End Poll.

(** ** The chain owns its driver operations *)
Section ChainOwnership.
Context {M A P : Type}.
Context (owns : A → list Z) (op_fini : A → heap → outcome heap) (h0 : heap).
Context (op_fini_frees : ∀ a h bs, heap_grow h0 h (owns a ++ bs) →
  ∃ h', op_fini a h = Done h' ∧ heap_grow h0 h' bs).

(** The blocks a driver operation owns: its arguments and itself. *)
Definition dop_blocks (dop : mio_driver_op M A P) : list Z :=
  match mdo_op_args dop with Some a => owns a | None => [] end ++ [p_blk (mdo_mem dop)].

Definition chain_blocks (chain : list (mio_driver_op M A P)) : list Z := chain ≫= dop_blocks.

Definition chain_ok (chain : list (mio_driver_op M A P)) : Prop :=
  Forall (λ dop, p_off (mdo_mem dop) = 0) chain.

Lemma op_fini_chain_frees chain h rest :
  chain_ok chain → heap_grow h0 h (chain_blocks chain ++ rest) →
  ∃ h', op_fini_chain op_fini chain h = Done h' ∧ heap_grow h0 h' rest.
Proof.
  revert h. induction chain as [|dop chain IH]; intros h Hok Hg; simpl; [eauto|].
  inversion Hok as [|? ? Hoff Hok']; subst.
  unfold chain_blocks in Hg. rewrite bind_cons in Hg. unfold dop_blocks at 1 in Hg.
  rewrite <- !app_assoc in Hg. simpl in Hg.
  assert (Hargs : ∃ h1, match mdo_op_args dop with Some a => op_fini a h | None => Done h end = Done h1 ∧
    heap_grow h0 h1 (p_blk (mdo_mem dop) :: chain_blocks chain ++ rest)).
  { destruct (mdo_op_args dop) as [a|]; [by apply op_fini_frees|by exists h]. }
  destruct Hargs as (h1 & -> & Hg1). simpl.
  destruct (mdo_mem dop) as [b o]. simpl in *. subst o.
  destruct (heap_grow_free _ _ _ _ Hg1) as (h2 & -> & Hg2 & _). simpl. by apply IH.
Qed.

(** Adding a driver operation: out of memory leaves the operation as it was. *)
Lemma mio_driver_op_add_spec (op : mio_op M A P) pp m args h bs rc op' h' :
  heap_grow h0 h bs → chain_ok (mop_drv_op_chain op) →
  mio_driver_op_add op pp m args h = (rc, op', h') →
  (rc = - ENOMEM ∧ op' = op ∧ heap_grow h0 h' bs ∧ h_plan h ≠ []) ∨
  (rc = 0 ∧ chain_ok (mop_drv_op_chain op') ∧ (h_plan h = [] → h_plan h' = []) ∧ ∃ dop,
    mop_drv_op_chain op' = dop :: mop_drv_op_chain op ∧
    mdo_op dop = m ∧ mdo_op_args dop = args ∧ mdo_post_proc dop = pp ∧
    heap_grow h0 h' (p_blk (mdo_mem dop) :: bs)).
Proof.
  intros Hg Hok Hadd. unfold mio_driver_op_add in Hadd.
  destruct (mio_mem_alloc SIZEOF_DRIVER_OP h) as [p h1] eqn:Ea.
  destruct (heap_grow_alloc _ _ _ _ _ _ Hg Ea) as [(-> & Hg1 & _ & Hpne)|(b & -> & Hnn & _ & Hg1 & _ & _ & Hpl)].
  - rewrite decide_True in Hadd by done. injection Hadd as <- <- <-. by left.
  - rewrite decide_False in Hadd by done. injection Hadd as <- <- <-. right.
    split; [done|]. split; [by constructor|]. split; [done|]. by eexists.
Qed.
End ChainOwnership.

(** (C6) [mio_motr_op_fini] releases every driver operation of the chain with its
    arguments, each exactly once, and nothing else: what is left of the heap is
    what does not belong to the chain, and the chain is empty. *)
Theorem mio_motr_op_fini_frees {M A P} (owns : A → list Z) op_fini h0 (mop : mio_op M A P) h rest :
  (∀ a h bs, heap_grow h0 h (owns a ++ bs) →
     ∃ h', op_fini a h = Done h' ∧ heap_grow h0 h' bs) →
  chain_ok (mop_drv_op_chain mop) →
  heap_grow h0 h (chain_blocks owns (mop_drv_op_chain mop) ++ rest) →
  ∃ mop' h', mio_motr_op_fini op_fini mop h = Done (mop', h') ∧
    mop_drv_op_chain mop' = [] ∧ heap_grow h0 h' rest.
Proof.
  intros Hfini Hok Hg. unfold mio_motr_op_fini.
  destruct (op_fini_chain_frees owns op_fini h0 Hfini _ _ _ Hok Hg) as (h' & -> & Hg'). simpl.
  by eexists _, h'.
Qed.

(** Two driver operations, the second with an argument block. *)
Definition ex_empty_heap : heap := MkHeap 1 ∅ [].
Definition ex_fini (b : Z) (h : heap) : outcome heap := mio_mem_free (MkPtr b 0) h.
Definition ex_mop : mio_op unit Z unit :=
  MkOp 0 0 0 false false
    [MkDop (MkPtr 3 0) tt (Some 2) None false; MkDop (MkPtr 1 0) tt None (Some tt) false] true.
Definition ex_op_heap : heap :=
  snd (mio_mem_alloc 48 (snd (mio_mem_alloc 8 (snd (mio_mem_alloc 48 ex_empty_heap))))).

Lemma heap_ok_empty : heap_ok ex_empty_heap.
Proof. split; [done|]. intros b. unfold ex_empty_heap. simpl. rewrite lookup_empty. by intros []. Defined.

Lemma mio_motr_op_fini_frees_witness :
  ∃ mop' h', mio_motr_op_fini ex_fini ex_mop ex_op_heap = Done (mop', h') ∧
    mop_drv_op_chain mop' = [] ∧ heap_grow ex_empty_heap h' [].
Proof.
  apply (mio_motr_op_fini_frees (λ b, [b]) ex_fini ex_empty_heap ex_mop ex_op_heap []).
  - intros a h bs Hg. destruct (heap_grow_free _ _ _ _ Hg) as (h' & Hf & Hg' & _). by exists h'.
  - repeat constructor.
  - pose proof (heap_grow_refl _ heap_ok_empty) as H0.
    destruct (heap_grow_alloc _ _ _ 48 (MkPtr 1 0) _ H0 eq_refl) as [[[=] _]|(? & [= <-] & _ & _ & H1 & _)].
    destruct (heap_grow_alloc _ _ _ 8 (MkPtr 2 0) _ H1 eq_refl) as [[[=] _]|(? & [= <-] & _ & _ & H2 & _)].
    destruct (heap_grow_alloc _ _ _ 48 (MkPtr 3 0) _ H2 eq_refl) as [[[=] _]|(? & [= <-] & _ & _ & H3 & _)].
    eapply heap_grow_proper; [|exact H3]. simpl. solve_Permutation.
Defined.

(** ** Polling one operation *)
Section PollOne.
Context {W : Type} (wait : nat → Z → W → Z * Z * W).
Context (post_proc : nat → W → option (W → outcome (Z * W))) (now : W → Z).

(** Operation 0 needs [k] more rounds after this one: it is not done in [k]
    rounds, and in the one after them it is, in state [s]. *)
Inductive done_after : nat → W → Z → W → Prop :=
| done_now w s w' :
    poll_one wait post_proc 0 MIO_TIME_NEVER w = Done (s, true, w') → done_after 0 w s w'
| done_later k w s w1 s' w' :
    poll_one wait post_proc 0 MIO_TIME_NEVER w = Done (s, false, w1) →
    done_after k w1 s' w' → done_after (S k) w s' w'.

Lemma poll_loop_one k w s w' fuel start :
  done_after k w s w' → (k < fuel)%nat →
  poll_loop wait post_proc now fuel 1 MIO_TIME_NEVER start 0 w = Done (1, [s], w').
Proof.
  intros Hd. revert fuel. induction Hd as [w s w' Hone|k w s w1 s' w' Hone Hd IH]; intros fuel Hf;
    (destruct fuel as [|fuel]; [lia|]); simpl; rewrite Hone; simpl; [done|].
  apply IH. lia.
Qed.
End PollOne.


(** An operation with two intermediate steps; the world counts the steps. *)
Definition ex_wait (i : nat) (timeout : Z) (w : nat) : Z * Z * nat := (0, MIO_OP_COMPLETED, S w).
Definition ex_pp (i : nat) (w : nat) : option (nat → outcome (Z * nat)) :=
  Some (λ w, Done (if (w <? 3)%nat then MIO_DRV_OP_NEXT else MIO_DRV_OP_FINAL, w)).
Definition ex_now (w : nat) : Z := Z.of_nat w.



(** Two operations without post-processing; the second completes in the second
    round. *)
Definition ex_wait2 (i : nat) (timeout : Z) (w : nat) : Z * Z * nat :=
  (0, if ((i =? 0) || (2 <=? w))%nat then MIO_OP_COMPLETED else MIO_OP_ONFLY, S w).

