(* ===== verification/KvsDriver.v ===== *)
(** * Key-value sets over Motr indices (src/driver_motr_kvs.c, src/driver_motr.c)

    A key-value operation allocates a Motr index, the vectors of keys and values
    and, for queries that return something, the arguments of the post-processing
    action; it builds and launches one Motr operation, whose completion runs the
    action.  Motr's indices are the class [MotrIndex]. *)

From stdpp Require Import sorting.
From S2P Require Import Prelude Bytes ObjId Mem Types DriverOp.
Open Scope Z_scope.

Inductive m0_idx_opcode := M0_IC_GET | M0_IC_PUT | M0_IC_DEL | M0_IC_NEXT.
#[global] Instance m0_idx_opcode_eq_dec : EqDecision m0_idx_opcode.
Proof. solve_decision. Defined.

#[global] Instance m0_uint128_eq_dec : EqDecision m0_uint128.
Proof. solve_decision. Defined.

(** ** Motr's side *)

(** An element of a buffer vector: the count and the buffer, NULL or its bytes. *)
Definition bufent : Type := Z * option (list Z).

(** The operations that m0_idx_op(), m0_entity_create() and m0_entity_delete()
    build, and what the completed operation has returned: whether it is stable,
    the results per key, and the buffers Motr has filled in. *)
Inductive m0_req :=
| IdxOp (opcode : m0_idx_opcode) (id : m0_uint128) (keys vals : list bufent) (flag : Z)
| EntityCreate (id : m0_uint128)
| EntityDelete (id : m0_uint128).

Record m0_reply := MkReply {
  rep_stable : bool;
  rep_rcs : list Z;
  rep_keys : list bufent;
  rep_vals : list bufent
}.

(** A buffer with its length: a key or a value of an index. *)
Definition ent (b : list Z) : bufent := (Z.of_nat (length b), Some b).

(** struct m0_bufvec with the addresses of its three blocks. *)
Record m0_bufvec := MkBufvec {
  bv_self : ptr;
  bv_count : ptr;              (* ov_vec.v_count *)
  bv_buf : ptr;                (* ov_buf *)
  bv_ents : list bufent        (* the elements of both arrays; v_nr is their number *)
}.

Definition EEXIST : Z := 17.

(** A put without M0_OIF_OVERWRITE keeps the value of a key that exists. *)
Definition put_new (m : gmap (list Z) (list Z)) (kvs : list (list Z * list Z)) : gmap (list Z) (list Z) :=
  m ∪ list_to_map kvs.

(** Motr: its indices, the operations on them and m0_bufvec_free().  The laws are
    what the Motr documentation says about operations on an existing index with
    different keys. *)
Class MotrIndex := {
  mindex : Type;
  index_at : mindex → m0_uint128 → option (gmap (list Z) (list Z));
  m0_req_rc : m0_req → mindex → Z;
  m0_req_exec : m0_req → mindex → mindex * m0_reply;
  m0_bufvec_free : m0_bufvec → heap → outcome heap;
  M0_OIF_EXCLUDE_START_KEY : Z;
  sizeof_m0_idx : Z;
  m0_put_law : ∀ s id m kvs, index_at s id = Some m → NoDup kvs.*1 →
    let '(s', r) := m0_req_exec (IdxOp M0_IC_PUT id (ent <$> kvs.*1) (ent <$> kvs.*2) 0) s in
    rep_stable r = true ∧
    rep_rcs r = ((λ k, if decide (is_Some (m !! k)) then - EEXIST else 0) <$> kvs.*1) ∧
    index_at s' id = Some (put_new m kvs) ∧ ∀ id', id' ≠ id → index_at s' id' = index_at s id';
  m0_get_law : ∀ s id m ks vals, index_at s id = Some m →
    let '(s', r) := m0_req_exec (IdxOp M0_IC_GET id (ent <$> ks) vals 0) s in
    rep_stable r = true ∧
    rep_rcs r = ((λ k, if decide (is_Some (m !! k)) then 0 else - ENOENT) <$> ks) ∧
    rep_vals r = ((λ k, match m !! k with Some v => ent v | None => (0, None) end) <$> ks) ∧
    ∀ id', index_at s' id' = index_at s id';
  m0_del_law : ∀ s id m ks, index_at s id = Some m → NoDup ks →
    let '(s', r) := m0_req_exec (IdxOp M0_IC_DEL id (ent <$> ks) [] 0) s in
    rep_stable r = true ∧
    rep_rcs r = ((λ k, if decide (is_Some (m !! k)) then 0 else - ENOENT) <$> ks) ∧
    index_at s' id = Some (foldr delete m ks) ∧ ∀ id', id' ≠ id → index_at s' id' = index_at s id';
  m0_create_law : ∀ s id, index_at s id = None →
    let '(s', r) := m0_req_exec (EntityCreate id) s in
    rep_stable r = true ∧ index_at s' id = Some ∅ ∧ ∀ id', id' ≠ id → index_at s' id' = index_at s id';
  m0_delete_law : ∀ s id m, index_at s id = Some m →
    let '(s', r) := m0_req_exec (EntityDelete id) s in
    rep_stable r = true ∧ index_at s' id = None ∧ ∀ id', id' ≠ id → index_at s' id' = index_at s id';
  m0_bufvec_free_law : ∀ bv h, (∀ e, e ∈ bv_ents bv → e.2 = None) →
    m0_bufvec_free bv h = (h ← mio_mem_free (bv_buf bv) h; mio_mem_free (bv_count bv) h)
}.

(** struct m0_idx: its address and its id. *)
Record m0_idx := MkIdx { idx_self : ptr; idx_id : m0_uint128 }.

(** struct mio_kv_pair; a pointer is NULL or the bytes it points to. *)
Record mio_kv_pair := MkPair {
  mkp_key : option (list Z);
  mkp_klen : Z;
  mkp_val : option (list Z);
  mkp_vlen : Z
}.

(** struct motr_kvs_get_args and motr_kvs_next_args, without the pointer to the
    application's pairs; a GET has no kna_rks. *)
Record kvs_args := MkKvsArgs {
  ka_self : ptr;
  kna_rks : option m0_bufvec;
  kna_rvs : m0_bufvec;
  kna_idx : m0_idx
}.

Definition SIZEOF_KVS_GET_ARGS : Z := 24.
Definition SIZEOF_KVS_NEXT_ARGS : Z := 32.
Definition SIZEOF_M0_BUFVEC : Z := 24.

(** The post-processing actions with their data. *)
Inductive kvs_pp := PpGet (args : kvs_args) | PpNext (args : kvs_args) | PpGeneric (idx : m0_idx).

Abbreviation kvs_mop := (mio_op m0_req Empty_set kvs_pp).

Section Driver.
Context `{HostOrder} `{MotrIndex} (fid_tinit : Z → Z → Z → m0_fid).

(** Memory, the indices and what the last operation launched has returned. *)
Record kvs_world := MkKvsWorld {
  kw_heap : heap;
  kw_index : mindex;
  kw_reply : m0_reply
}.

Definition set_kw_heap (h : heap) (w : kvs_world) : kvs_world := MkKvsWorld h (kw_index w) (kw_reply w).

(** m0_op_launch(). *)
Definition m0_op_launch (req : m0_req) (w : kvs_world) : kvs_world :=
  let '(s, r) := m0_req_exec req (kw_index w) in MkKvsWorld (kw_heap w) s r.

(** [mio__motr_bufvec_free]. *)
Definition mio__motr_bufvec_free (bv : option m0_bufvec) (h : heap) : outcome heap :=
  match bv with
  | None => Done h
  | Some bv =>
      h ← mio_mem_free (bv_buf bv) h;
      h ← mio_mem_free (bv_count bv) h;
      mio_mem_free (bv_self bv) h
  end.

(** [mio__motr_bufvec_alloc]; m0_alloc() gives zeroed memory. *)
Definition mio__motr_bufvec_alloc (nr : Z) (h : heap) : outcome (option m0_bufvec * heap) :=
  let ents := replicate (Z.to_nat nr) (0, None) in
  let '(self, h) := mio_mem_alloc SIZEOF_M0_BUFVEC h in
  if decide (self = NULL) then Done (None, h) else
  let '(count, h) := mio_mem_alloc (8 * nr) h in
  if decide (count = NULL) then
    h ← m0_bufvec_free (MkBufvec self NULL NULL ents) h; Done (None, h) else
  let '(buf, h) := mio_mem_alloc (8 * nr) h in
  if decide (buf = NULL) then
    h ← m0_bufvec_free (MkBufvec self count NULL ents) h; Done (None, h) else
  Done (Some (MkBufvec self count buf ents), h).

(** [motr_kvs_idx_alloc_init]. *)
Definition motr_kvs_idx_alloc_init (kid : mio_obj_id) (h : heap) : Z * option m0_idx * heap :=
  let '(idx, h) := mio_mem_alloc sizeof_m0_idx h in
  if decide (idx = NULL) then (- ENOMEM, None, h)
  else (0, Some (MkIdx idx (kvs_id_to_uint128 fid_tinit kid)), h).

(** [motr_kvs_idx_fini_free]. *)
Definition motr_kvs_idx_fini_free (idx : m0_idx) (h : heap) : outcome heap := mio_mem_free (idx_self idx) h.

(** [motr_kvs_keys_vals_alloc]. *)
Definition motr_kvs_keys_vals_alloc (opcode : m0_idx_opcode) (nr_kvps : Z) (h : heap)
  : outcome (Z * (option m0_bufvec * option m0_bufvec) * heap) :=
  '(keys, h) ← mio__motr_bufvec_alloc nr_kvps h;
  match keys with
  | None => Done (- ENOMEM, (None, None), h)
  | Some _ =>
      if decide (opcode = M0_IC_DEL) then Done (0, (keys, None), h) else
      '(vals, h) ← mio__motr_bufvec_alloc nr_kvps h;
      match vals with
      | None => h ← mio__motr_bufvec_free keys h; Done (- ENOMEM, (None, None), h)
      | Some _ => Done (0, (keys, vals), h)
      end
  end.

(** The loop of [motr_kvs_query]: the elements of the keys and, for a put, of
    the values.  More pairs than elements do not fit. *)
Definition fill_keys (kvps : list mio_kv_pair) : list bufent := (λ p, (mkp_klen p, mkp_key p)) <$> kvps.
Definition fill_vals (kvps : list mio_kv_pair) : list bufent := (λ p, (mkp_vlen p, mkp_val p)) <$> kvps.

Definition set_ents (ents : list bufent) (bv : m0_bufvec) : m0_bufvec :=
  MkBufvec (bv_self bv) (bv_count bv) (bv_buf bv) ents.

(** [motr_kvs_query]. *)
Definition motr_kvs_query (idx : m0_idx) (opcode : m0_idx_opcode) (kvps : list mio_kv_pair)
    (keys vals : option m0_bufvec) (flag : Z) (query_pp : kvs_pp) (op : kvs_mop) (w : kvs_world)
  : outcome (Z * kvs_mop * kvs_world) :=
  let set_vals := bool_decide (opcode = M0_IC_PUT) in
  let key_ents := fill_keys kvps in
  val_ents ← match vals with
             | Some v => Done (if set_vals then fill_vals kvps else bv_ents v)
             | None => if set_vals then Fault AssertFail else Done []
             end;
  let error rc w :=
    h ← mio__motr_bufvec_free keys (kw_heap w);
    h ← mio__motr_bufvec_free vals h;
    Done (rc, op, set_kw_heap h w) in
  let req := IdxOp opcode (idx_id idx) key_ents val_ents flag in
  let rc := m0_req_rc req (kw_index w) in
  if rc <? 0 then error rc w else
  let '(rc, op', h) := mio_driver_op_add op (Some query_pp) req None (kw_heap w) in
  if rc <? 0 then error rc (set_kw_heap h w) else
  Done (0, op', m0_op_launch req (set_kw_heap h w)).

(** [mio_motr_kvs_get] and [mio_motr_kvs_next] have the same steps.  The pointer
    [args] is not initialised when the label error is reached before its
    allocation. *)
Definition kvs_get_next (opcode : m0_idx_opcode) (flag : Z) (args_size : Z) (kid : mio_obj_id)
    (kvps : list mio_kv_pair) (op : kvs_mop) (w : kvs_world) : outcome (Z * kvs_mop * kvs_world) :=
  let '(rc, idx, h) := motr_kvs_idx_alloc_init kid (kw_heap w) in
  match idx with
  | None => Done (rc, op, set_kw_heap h w)
  | Some idx =>
      '(rc, kv, h) ← motr_kvs_keys_vals_alloc opcode (Z.of_nat (length kvps)) h;
      match kv with
      | (Some keys, Some vals) =>
          let '(args, h) := mio_mem_alloc args_size h in
          if decide (args = NULL) then
            h ← motr_kvs_idx_fini_free idx h;
            h ← mio__motr_bufvec_free (Some keys) h;
            h ← mio__motr_bufvec_free (Some vals) h;
            Done (- ENOMEM, op, set_kw_heap h w)
          else
            let a := MkKvsArgs args (if decide (opcode = M0_IC_NEXT) then Some keys else None) vals idx in
            let pp := if decide (opcode = M0_IC_NEXT) then PpNext a else PpGet a in
            '(rc, op, w) ← motr_kvs_query idx opcode kvps (Some keys) (Some vals) flag pp op (set_kw_heap h w);
            if rc <? 0 then
              h ← motr_kvs_idx_fini_free idx (kw_heap w);
              h ← mio_mem_free args h;
              Done (rc, op, set_kw_heap h w)
            else Done (rc, op, w)
      | _ =>
          _ ← motr_kvs_idx_fini_free idx h;
          Fault UninitRead      (* mio_mem_free(args) *)
      end
  end.

Definition mio_motr_kvs_get := kvs_get_next M0_IC_GET 0 SIZEOF_KVS_GET_ARGS.
Definition mio_motr_kvs_next (kid : mio_obj_id) (kvps : list mio_kv_pair) (exclude_start_key : bool) :=
  kvs_get_next M0_IC_NEXT (if exclude_start_key then M0_OIF_EXCLUDE_START_KEY else 0) SIZEOF_KVS_NEXT_ARGS
    kid kvps.

(** The loops of [motr_kvs_get_pp] and [motr_kvs_next_pp].  The vectors hold what
    Motr has returned. *)
Fixpoint get_pp_loop (kvps : list mio_kv_pair) (vals : list bufent) : list mio_kv_pair :=
  match kvps, vals with
  | p :: kvps', v :: vals' => MkPair (mkp_key p) (mkp_klen p) v.2 v.1 :: get_pp_loop kvps' vals'
  | _, _ => kvps
  end.

Fixpoint next_pp_loop (kvps : list mio_kv_pair) (keys vals : list bufent) : list mio_kv_pair :=
  match kvps, keys, vals with
  | p :: kvps', k :: keys', v :: vals' => MkPair k.2 k.1 v.2 v.1 :: next_pp_loop kvps' keys' vals'
  | _, _, _ => kvps
  end.

(** The pairs with the post-processing action at the head of the chain: the
    return code, the pairs and memory. *)
Definition kvs_pp_run (pp : kvs_pp) (kvps : list mio_kv_pair) (w : kvs_world)
  : outcome (Z * list mio_kv_pair * kvs_world) :=
  let r := kw_reply w in
  let finish args kvps :=
    h ← motr_kvs_idx_fini_free (kna_idx args) (kw_heap w);
    h ← mio_mem_free (ka_self args) h;
    Done (MIO_DRV_OP_FINAL, kvps, set_kw_heap h w) in
  match pp with
  | PpGet args =>
      if negb (rep_stable r) then Done (- EIO, kvps, w)
      else finish args (get_pp_loop kvps (rep_vals r))
  | PpNext args =>
      if negb (rep_stable r) then Done (- EIO, kvps, w)
      else finish args (next_pp_loop kvps (rep_keys r) (rep_vals r))
  | PpGeneric idx =>
      h ← motr_kvs_idx_fini_free idx (kw_heap w);
      Done (MIO_DRV_OP_FINAL, kvps, set_kw_heap h w)
  end.

(** [mio_motr_kvs_put] and [mio_motr_kvs_del]: nobody releases the index when the
    query fails. *)
Definition kvs_put_del (opcode : m0_idx_opcode) (kid : mio_obj_id) (kvps : list mio_kv_pair)
    (op : kvs_mop) (w : kvs_world) : outcome (Z * kvs_mop * kvs_world) :=
  let '(rc, idx, h) := motr_kvs_idx_alloc_init kid (kw_heap w) in
  match idx with
  | None => Done (rc, op, set_kw_heap h w)
  | Some idx =>
      '(rc, kv, h) ← motr_kvs_keys_vals_alloc opcode (Z.of_nat (length kvps)) h;
      if rc <? 0 then
        h ← motr_kvs_idx_fini_free idx h; Done (rc, op, set_kw_heap h w)
      else motr_kvs_query idx opcode kvps kv.1 kv.2 0 (PpGeneric idx) op (set_kw_heap h w)
  end.

Definition mio_motr_kvs_put := kvs_put_del M0_IC_PUT.
Definition mio_motr_kvs_del := kvs_put_del M0_IC_DEL.

(** [mio_motr_kvs_create_set]: an early return keeps the index. *)
Definition mio_motr_kvs_create_set (kid : mio_obj_id) (op : kvs_mop) (w : kvs_world)
  : outcome (Z * kvs_mop * kvs_world) :=
  let '(rc, idx, h) := motr_kvs_idx_alloc_init kid (kw_heap w) in
  match idx with
  | None => Done (rc, op, set_kw_heap h w)
  | Some idx =>
      let w := set_kw_heap h w in
      let req := EntityCreate (idx_id idx) in
      let rc := m0_req_rc req (kw_index w) in
      if rc <? 0 then Done (rc, op, w) else
      let '(rc, op', h) := mio_driver_op_add op (Some (PpGeneric idx)) req None (kw_heap w) in
      if rc <? 0 then h ← motr_kvs_idx_fini_free idx h; Done (rc, op, set_kw_heap h w)
      else Done (0, op', m0_op_launch req (set_kw_heap h w))
  end.

(** [mio_motr_kvs_del_set]; m0_entity_open() of an index changes nothing. *)
Definition mio_motr_kvs_del_set (kid : mio_obj_id) (op : kvs_mop) (w : kvs_world)
  : outcome (Z * kvs_mop * kvs_world) :=
  let '(rc, idx, h) := motr_kvs_idx_alloc_init kid (kw_heap w) in
  match idx with
  | None => Done (rc, op, set_kw_heap h w)
  | Some idx =>
      let w := set_kw_heap h w in
      let req := EntityDelete (idx_id idx) in
      let rc := m0_req_rc req (kw_index w) in
      if rc <? 0 then h ← motr_kvs_idx_fini_free idx (kw_heap w); Done (rc, op, set_kw_heap h w) else
      let '(rc, op', h) := mio_driver_op_add op (Some (PpGeneric idx)) req None (kw_heap w) in
      if rc <? 0 then h ← motr_kvs_idx_fini_free idx h; Done (rc, op, set_kw_heap h w)
      else Done (0, op', m0_op_launch req (set_kw_heap h w))
  end.
End Driver.

(** ** Ownership of buffer vectors *)

(** The three blocks of a vector. *)
Definition bufvec_blocks (bv : m0_bufvec) : list Z := [p_blk (bv_buf bv); p_blk (bv_count bv); p_blk (bv_self bv)].

Definition bufvec_at (bv : m0_bufvec) : Prop :=
  p_off (bv_self bv) = 0 ∧ p_off (bv_count bv) = 0 ∧ p_off (bv_buf bv) = 0.

Lemma ptr_eta p : p_off p = 0 → p = MkPtr (p_blk p) 0.
Proof. destruct p; simpl; congruence. Qed.

Section DriverLemmas.
Context `{HostOrder} `{MotrIndex} (fid_tinit : Z → Z → Z → m0_fid).

(** Allocating a vector: three new blocks, or none but perhaps the structure
    itself, which m0_bufvec_free() does not release. *)
Lemma bufvec_alloc_spec h0 h bs nr :
  heap_grow h0 h bs →
  ∃ r h', mio__motr_bufvec_alloc nr h = Done (r, h') ∧
    match r with
    | Some bv => bufvec_at bv ∧ bv_ents bv = replicate (Z.to_nat nr) (0, None) ∧
        heap_grow h0 h' (bufvec_blocks bv ++ bs) ∧ (h_plan h = [] → h_plan h' = [])
    | None => h_plan h ≠ [] ∧ (heap_grow h0 h' bs ∨ ∃ b, heap_grow h0 h' (b :: bs))
    end.
Proof.
  intros Hg. unfold mio__motr_bufvec_alloc.
  destruct (mio_mem_alloc SIZEOF_M0_BUFVEC h) as [self h1] eqn:E1.
  destruct (heap_grow_alloc _ _ _ _ _ _ Hg E1) as [(-> & Hg1 & _ & Hp1)|(b1 & -> & Hn1 & _ & Hg1 & _ & _ & Hp1)].
  { rewrite decide_True by done. eexists None, h1. split; [done|]. split; [done|by left]. }
  rewrite decide_False by done.
  assert (Hfree : ∀ e, e ∈ replicate (Z.to_nat nr) (0, @None (list Z)) → e.2 = None).
  { intros e [-> _]%elem_of_replicate. done. }
  destruct (mio_mem_alloc (8 * nr) h1) as [count h2] eqn:E2.
  destruct (heap_grow_alloc _ _ _ _ _ _ Hg1 E2) as [(-> & Hg2 & _ & Hp2)|(b2 & -> & Hn2 & _ & Hg2 & _ & _ & Hp2)].
  { rewrite decide_True by done. rewrite m0_bufvec_free_law by done. simpl.
    eexists None, h2. split; [done|]. split; [intros Hp; by rewrite Hp1 in Hp2|right; by exists b1]. }
  rewrite decide_False by done.
  destruct (mio_mem_alloc (8 * nr) h2) as [buf h3] eqn:E3.
  destruct (heap_grow_alloc _ _ _ _ _ _ Hg2 E3) as [(-> & Hg3 & _ & Hp3)|(b3 & -> & Hn3 & _ & Hg3 & _ & _ & Hp3)].
  { rewrite decide_True by done. rewrite m0_bufvec_free_law by done. simpl.
    destruct (heap_grow_free _ _ _ _ Hg3) as (h4 & Hf & Hg4 & _). rewrite Hf. simpl.
    eexists None, h4. split; [done|]. split; [intros Hp; by rewrite Hp2 in Hp3; auto|right; by exists b1]. }
  rewrite decide_False by done. eexists (Some _), h3. split; [done|]. split_and!; try done. auto.
Qed.

Lemma bufvec_free_spec h0 h bs bv :
  bufvec_at bv → heap_grow h0 h (bufvec_blocks bv ++ bs) →
  ∃ h', mio__motr_bufvec_free (Some bv) h = Done h' ∧ heap_grow h0 h' bs ∧ h_plan h' = h_plan h.
Proof.
  intros (H1 & H2 & H3) Hg. unfold mio__motr_bufvec_free.
  rewrite (ptr_eta _ H1), (ptr_eta _ H2), (ptr_eta _ H3).
  destruct (heap_grow_free _ _ _ _ Hg) as (h1 & -> & Hg1 & Hp1 & _). simpl.
  destruct (heap_grow_free _ _ _ _ Hg1) as (h2 & -> & Hg2 & Hp2 & _). simpl.
  destruct (heap_grow_free _ _ _ _ Hg2) as (h3 & -> & Hg3 & Hp3 & _).
  exists h3. split_and!; [done|done|congruence].
Qed.

(** The blocks of an optional vector. *)
Definition opt_blocks (bv : option m0_bufvec) : list Z := from_option bufvec_blocks [] bv.
Definition opt_at (bv : option m0_bufvec) : Prop := from_option bufvec_at True bv.

Lemma opt_bufvec_free_spec h0 h bs bv :
  opt_at bv → heap_grow h0 h (opt_blocks bv ++ bs) →
  ∃ h', mio__motr_bufvec_free bv h = Done h' ∧ heap_grow h0 h' bs ∧ h_plan h' = h_plan h.
Proof. destruct bv; simpl; [by apply bufvec_free_spec|]. intros _ Hg. by exists h. Qed.

(** Allocating the keys and values. *)
Lemma keys_vals_alloc_spec h0 h bs opcode nr :
  heap_grow h0 h bs →
  ∃ rc keys vals h', motr_kvs_keys_vals_alloc opcode nr h = Done (rc, (keys, vals), h') ∧
    ((rc = 0 ∧ is_Some keys ∧ (vals = None ↔ opcode = M0_IC_DEL) ∧ opt_at keys ∧ opt_at vals ∧
      (∀ v, vals = Some v → bv_ents v = replicate (Z.to_nat nr) (0, None)) ∧
      heap_grow h0 h' (opt_blocks vals ++ opt_blocks keys ++ bs) ∧ (h_plan h = [] → h_plan h' = [])) ∨
     (rc = - ENOMEM ∧ keys = None ∧ vals = None ∧ h_plan h ≠ [] ∧
      (heap_grow h0 h' bs ∨ ∃ b, heap_grow h0 h' (b :: bs)))).
Proof.
  intros Hg. unfold motr_kvs_keys_vals_alloc.
  destruct (bufvec_alloc_spec h0 h bs nr Hg) as ([keys|] & h1 & Ha & Hk); rewrite Ha; cbn [mbind outcome_bind].
  2:{ destruct Hk as [Hp Hl]. exists (- ENOMEM), None, None, h1. split; [done|]. right. by split_and!. }
  destruct Hk as (Hkat & _ & Hg1 & Hp1). case_decide as Hop.
  { exists 0, (Some keys), None, h1. split; [done|]. left. split_and!; try done; by eexists. }
  destruct (bufvec_alloc_spec h0 h1 _ nr Hg1) as ([vals|] & h2 & Ha2 & Hv); rewrite Ha2; cbn [mbind outcome_bind].
  - destruct Hv as (Hvat & Hents & Hg2 & Hp2). exists 0, (Some keys), (Some vals), h2. split; [done|].
    left. split_and!; try done; try by eexists.
    + by intros v [= <-].
    + auto.
  - destruct Hv as [Hp Hl]. assert (Hne : h_plan h ≠ []) by (intros Hp'; by apply Hp, Hp1).
    destruct Hl as [Hg2|[b Hg2]].
    + destruct (bufvec_free_spec h0 h2 bs keys Hkat Hg2) as (h3 & -> & Hg3 & _). simpl.
      exists (- ENOMEM), None, None, h3. split; [done|]. right. split_and!; try done. by left.
    + assert (Hg2' : heap_grow h0 h2 (bufvec_blocks keys ++ b :: bs)).
      { eapply heap_grow_proper; [|exact Hg2]. symmetry. apply Permutation_middle. }
      destruct (bufvec_free_spec h0 h2 _ keys Hkat Hg2') as (h3 & -> & Hg3 & _). simpl.
      exists (- ENOMEM), None, None, h3. split; [done|]. right. split_and!; try done. right. by exists b.
Qed.

(** Whether m0_op_setup() gives Motr the callbacks of an operation. *)
Definition op_has_cbs (op : kvs_mop) : bool := mop_set_cbs op && mop_cb_complete op && mop_cb_failed op.

(** Linking a driver operation in. *)
Lemma driver_op_add_spec h0 h bs (op : kvs_mop) pp req :
  heap_grow h0 h bs →
  ∃ rc op' h', mio_driver_op_add op (Some pp) req None h = (rc, op', h') ∧
    ((rc = 0 ∧ ∃ b, op' = set_chain (MkDop (MkPtr b 0) req None (Some pp) (op_has_cbs op) :: mop_drv_op_chain op) op ∧
        heap_grow h0 h' (b :: bs) ∧ (h_plan h = [] → h_plan h' = [])) ∨
     (rc = - ENOMEM ∧ op' = op ∧ heap_grow h0 h' bs ∧ h_plan h ≠ [])).
Proof.
  intros Hg. unfold mio_driver_op_add. destruct (mio_mem_alloc SIZEOF_DRIVER_OP h) as [dop h1] eqn:E.
  destruct (heap_grow_alloc _ _ _ _ _ _ Hg E) as [(-> & Hg1 & _ & Hp)|(b & -> & Hn & _ & Hg1 & _ & _ & Hp)].
  - rewrite decide_True by done. do 3 eexists. split; [done|]. right. by split_and!.
  - rewrite decide_False by done. do 3 eexists. split; [done|]. left. split; [done|].
    exists b. by split_and!.
Qed.

(** The request a query makes. *)
Definition query_req (idx : m0_idx) (opcode : m0_idx_opcode) (kvps : list mio_kv_pair)
    (vals : option m0_bufvec) (flag : Z) : m0_req :=
  IdxOp opcode (idx_id idx) (fill_keys kvps)
    (match vals with
     | Some v => if bool_decide (opcode = M0_IC_PUT) then fill_vals kvps else bv_ents v
     | None => []
     end) flag.

Lemma kvs_query_spec h0 bs idx opcode kvps keys vals flag pp op w :
  opt_at keys → opt_at vals → (vals = None → opcode ≠ M0_IC_PUT) →
  heap_grow h0 (kw_heap w) (opt_blocks vals ++ opt_blocks keys ++ bs) →
  let req := query_req idx opcode kvps vals flag in
  ∃ rc op' w', motr_kvs_query idx opcode kvps keys vals flag pp op w = Done (rc, op', w') ∧
    ((rc = 0 ∧ ∃ b, op' = set_chain (MkDop (MkPtr b 0) req None (Some pp) (op_has_cbs op) :: mop_drv_op_chain op) op ∧
        heap_grow h0 (kw_heap w') (b :: opt_blocks vals ++ opt_blocks keys ++ bs) ∧
        m0_req_exec req (kw_index w) = (kw_index w', kw_reply w') ∧
        (h_plan (kw_heap w) = [] → h_plan (kw_heap w') = [])) ∨
     (rc < 0 ∧ op' = op ∧ kw_index w' = kw_index w ∧ heap_grow h0 (kw_heap w') bs ∧
      (0 <= m0_req_rc req (kw_index w) → h_plan (kw_heap w) ≠ []))).
Proof.
  intros Hk Hv Hput Hg req. unfold motr_kvs_query.
  set (e := match vals with Some v => _ | None => _ end).
  assert (He : e = Done (match vals with
     | Some v => if bool_decide (opcode = M0_IC_PUT) then fill_vals kvps else bv_ents v | None => [] end)).
  { unfold e. destruct vals; [done|]. by rewrite bool_decide_false by auto. }
  rewrite He. cbn [mbind outcome_bind]. fold (query_req idx opcode kvps vals flag). fold req.
  assert (Herr : ∀ rc w1, heap_grow h0 (kw_heap w1) (opt_blocks vals ++ opt_blocks keys ++ bs) →
    ∃ w2, (h ← mio__motr_bufvec_free keys (kw_heap w1); h ← mio__motr_bufvec_free vals h;
           Done (rc, op, set_kw_heap h w1) : outcome (Z * kvs_mop * kvs_world)) = Done (rc, op, w2) ∧
      kw_index w2 = kw_index w1 ∧ heap_grow h0 (kw_heap w2) bs).
  { intros rc w1 Hg1. assert (Hg1' : heap_grow h0 (kw_heap w1) (opt_blocks keys ++ opt_blocks vals ++ bs)).
    { eapply heap_grow_proper; [|exact Hg1]. rewrite !app_assoc. apply Permutation_app_tail, Permutation_app_comm. }
    destruct (opt_bufvec_free_spec _ _ _ _ Hk Hg1') as (h1 & -> & Hg2 & _). cbn [mbind outcome_bind].
    destruct (opt_bufvec_free_spec _ _ _ _ Hv Hg2) as (h2 & -> & Hg3 & _). cbn [mbind outcome_bind].
    by eexists. }
  destruct (Z.ltb_spec (m0_req_rc req (kw_index w)) 0) as [Hneg|Hpos].
  { destruct (Herr (m0_req_rc req (kw_index w)) w Hg) as (w2 & -> & Hi & Hg2).
    do 3 eexists. split; [done|]. right. split_and!; [done..|lia]. }
  destruct (driver_op_add_spec _ _ _ op pp req Hg) as
    (rc & op' & h' & -> & [(-> & b & -> & Hg' & Hp)|(-> & -> & Hg' & Hp)]).
  - cbn [Z.ltb Z.compare]. unfold m0_op_launch. destruct (m0_req_exec req _) as [s' r] eqn:Hex.
    do 3 eexists. split; [done|]. left. split; [done|]. exists b. by split_and!.
  - change (- ENOMEM <? 0) with true. cbn iota.
    destruct (Herr (- ENOMEM) (set_kw_heap h' w) Hg') as (w2 & -> & Hi & Hg2).
    do 3 eexists. split; [done|]. right. by split_and!.
Qed.

(** What malloc()'s plan decides. *)
Lemma mio_mem_alloc_plan size h p h' :
  heap_ok h → mio_mem_alloc size h = (p, h') →
  heap_ok h' ∧ h_plan h' = tail (h_plan h) ∧ (p = NULL ↔ hd true (h_plan h) = false).
Proof.
  intros Hok Ha. destruct (mio_mem_alloc_spec _ _ _ _ Hok Ha) as (Hok' & Hpl & Hcase).
  split; [done|]. split; [done|]. unfold mio_mem_alloc in Ha. destruct (h_plan h) as [|[] q] eqn:E; simpl.
  - destruct Hcase as [(_ & _ & _ & ?)|(_ & _ & _ & _ & Hn)]; [done|]. by split.
  - destruct Hcase as [(-> & _)|(_ & _ & _ & _ & Hn)]; [|by split].
    injection Ha as [=]. destruct Hok. lia.
  - injection Ha as <- _. done.
Qed.

Lemma bufvec_alloc_plan nr h r h' :
  heap_ok h → mio__motr_bufvec_alloc nr h = Done (r, h') →
  (r = None ↔ false ∈ take 3 (h_plan h)) ∧ (is_Some r → heap_ok h' ∧ h_plan h' = drop 3 (h_plan h)).
Proof.
  intros Hok Ha. unfold mio__motr_bufvec_alloc in Ha.
  assert (Hstep : ∀ size h p h', heap_ok h → mio_mem_alloc size h = (p, h') →
    heap_ok h' ∧ ((p = NULL ∧ ∃ q, h_plan h = false :: q) ∨
      (p ≠ NULL ∧ ∀ n, (false ∈ take (S n) (h_plan h) ↔ false ∈ take n (h_plan h')) ∧
         drop (S n) (h_plan h) = drop n (h_plan h')))).
  { clear. intros size h p h' Hok E. destruct (mio_mem_alloc_plan _ _ _ _ Hok E) as (Hok' & Hpl & Hn).
    split; [done|]. rewrite Hpl. destruct (h_plan h) as [|[] q]; simpl in *.
    - right. split; [intros Hp; by apply Hn in Hp|]. intros n. rewrite !take_nil, !drop_nil. done.
    - right. split; [intros Hp; by apply Hn in Hp|]. intros n. split; [|done]. set_solver.
    - left. split; [by apply Hn|]. by exists q. }
  destruct (mio_mem_alloc SIZEOF_M0_BUFVEC h) as [p1 h1] eqn:E1.
  destruct (Hstep _ _ _ _ Hok E1) as (Hok1 & [[-> [q Hq]]|[Hn1 Hp1]]).
  { rewrite decide_True in Ha by done. injection Ha as <- <-. rewrite Hq. split; [|by intros []].
    split; [intros _; left|done]. }
  rewrite decide_False in Ha by done.
  destruct (mio_mem_alloc (8 * nr) h1) as [p2 h2] eqn:E2.
  destruct (Hstep _ _ _ _ Hok1 E2) as (Hok2 & [[-> [q Hq]]|[Hn2 Hp2]]).
  { rewrite decide_True in Ha by done. outcome_inv. split; [|by intros []].
    split; [intros _|done]. apply (Hp1 2%nat). rewrite Hq. left. }
  rewrite decide_False in Ha by done.
  destruct (mio_mem_alloc (8 * nr) h2) as [p3 h3] eqn:E3.
  destruct (Hstep _ _ _ _ Hok2 E3) as (Hok3 & [[-> [q Hq]]|[Hn3 Hp3]]).
  { rewrite decide_True in Ha by done. outcome_inv. split; [|by intros []].
    split; [intros _|done]. apply (Hp1 2%nat), (Hp2 1%nat). rewrite Hq. left. }
  rewrite decide_False in Ha by done. injection Ha as <- <-. split.
  - split; [done|]. intros Hin. apply (Hp1 2%nat), (Hp2 1%nat), (Hp3 0%nat) in Hin.
    by apply not_elem_of_nil in Hin.
  - intros _. split; [done|]. by rewrite (proj2 (Hp1 2%nat)), (proj2 (Hp2 1%nat)), (proj2 (Hp3 0%nat)).
Qed.
Lemma keys_vals_alloc_plan opcode nr h rc kv h' :
  heap_ok h → opcode ≠ M0_IC_DEL → motr_kvs_keys_vals_alloc opcode nr h = Done (rc, kv, h') →
  kv.1 = None ↔ false ∈ take 6 (h_plan h).
Proof.
  intros Hok Hop Ha. unfold motr_kvs_keys_vals_alloc in Ha.
  apply outcome_bind_Done in Ha as ([keys h1] & Ha1 & Ha).
  destruct (bufvec_alloc_plan _ _ _ _ Hok Ha1) as [Hn1 Hs1].
  assert (Hsplit : false ∈ take 6 (h_plan h) ↔ false ∈ take 3 (h_plan h) ∨ false ∈ take 3 (drop 3 (h_plan h))).
  { rewrite <- elem_of_app, take_take_drop. done. }
  rewrite Hsplit. destruct keys as [keys|].
  2:{ injection Ha as <- <- <-. split; [intros _; left; by apply Hn1|done]. }
  rewrite decide_False in Ha by done. destruct Hs1 as [Hok1 Hp1]; [by eexists|].
  apply outcome_bind_Done in Ha as ([vals h2] & Ha2 & Ha).
  destruct (bufvec_alloc_plan _ _ _ _ Hok1 Ha2) as [Hn2 _]. rewrite <- Hp1.
  assert (Hno : false ∉ take 3 (h_plan h)) by (intros Hin; by apply Hn1 in Hin).
  destruct vals as [vals|].
  - injection Ha as <- <- <-. split; [done|]. intros [?|Hin]; [done|]. by apply Hn2 in Hin.
  - outcome_inv. split; [|done]. intros _. right. by apply Hn2.
Qed.

Lemma idx_alloc_plan kid h rc r h' :
  heap_ok h → motr_kvs_idx_alloc_init fid_tinit kid h = (rc, r, h') →
  heap_ok h' ∧ h_plan h' = tail (h_plan h) ∧ (r = None ↔ hd true (h_plan h) = false).
Proof.
  intros Hok Ha. unfold motr_kvs_idx_alloc_init in Ha.
  destruct (mio_mem_alloc sizeof_m0_idx h) as [q h1] eqn:E.
  destruct (mio_mem_alloc_plan _ _ _ _ Hok E) as (Hok1 & Hp1 & Hn1).
  case_decide as Hq; injection Ha as <- <- <-; split_and!; try done.
  - split; [intros _; by apply Hn1|done].
  - split; [done|]. intros Hb. by apply Hn1 in Hb.
Qed.

Lemma idx_alloc_spec h0 h bs kid :
  heap_grow h0 h bs →
  ∃ rc r h', motr_kvs_idx_alloc_init fid_tinit kid h = (rc, r, h') ∧
    ((rc = 0 ∧ ∃ b, r = Some (MkIdx (MkPtr b 0) (kvs_id_to_uint128 fid_tinit kid)) ∧ heap_grow h0 h' (b :: bs) ∧
        (h_plan h = [] → h_plan h' = [])) ∨
     (rc = - ENOMEM ∧ r = None ∧ heap_grow h0 h' bs ∧ h_plan h ≠ [])).
Proof.
  intros Hg. unfold motr_kvs_idx_alloc_init. destruct (mio_mem_alloc sizeof_m0_idx h) as [q h1] eqn:E.
  destruct (heap_grow_alloc _ _ _ _ _ _ Hg E) as [(-> & Hg1 & _ & Hp)|(b & -> & Hn & _ & Hg1 & _ & _ & Hp)].
  - rewrite decide_True by done. do 3 eexists. split; [done|]. right. by split_and!.
  - rewrite decide_False by done. do 3 eexists. split; [done|]. left. split; [done|]. exists b. by split_and!.
Qed.

(** The state of an operation that was launched: one driver operation [b] with
    the action [pp], and what Motr has made of the request. *)
Definition launched (h0 : heap) (op op' : kvs_mop) (w w' : kvs_world) (req : m0_req) (pp : kvs_pp)
    (bs : list Z) : Prop :=
  ∃ b, op' = set_chain (MkDop (MkPtr b 0) req None (Some pp) (op_has_cbs op) :: mop_drv_op_chain op) op ∧
    heap_grow h0 (kw_heap w') (b :: bs) ∧
    m0_req_exec req (kw_index w) = (kw_index w', kw_reply w') ∧
    (h_plan (kw_heap w) = [] → h_plan (kw_heap w') = []).

(** An operation that was refused: nothing happened to Motr and at most one
    block is lost. *)
Definition refused (h0 : heap) (op op' : kvs_mop) (w w' : kvs_world) (req : m0_req) (bs : list Z) : Prop :=
  op' = op ∧ kw_index w' = kw_index w ∧
  (heap_grow h0 (kw_heap w') bs ∨ ∃ b, heap_grow h0 (kw_heap w') (b :: bs)) ∧
  (0 <= m0_req_rc req (kw_index w) → h_plan (kw_heap w) ≠ []).

Definition put_del_req (opcode : m0_idx_opcode) (kid : mio_obj_id) (kvps : list mio_kv_pair) : m0_req :=
  IdxOp opcode (kvs_id_to_uint128 fid_tinit kid) (fill_keys kvps)
    (if bool_decide (opcode = M0_IC_PUT) then fill_vals kvps else []) 0.

Lemma kvs_put_del_spec h0 bs opcode kid kvps op w :
  opcode = M0_IC_PUT ∨ opcode = M0_IC_DEL → heap_grow h0 (kw_heap w) bs →
  let req := put_del_req opcode kid kvps in
  ∃ rc op' w', kvs_put_del fid_tinit opcode kid kvps op w = Done (rc, op', w') ∧
    ((rc = 0 ∧ ∃ i vs, launched h0 op op' w w' req
          (PpGeneric (MkIdx (MkPtr i 0) (kvs_id_to_uint128 fid_tinit kid))) (vs ++ i :: bs) ∧
        length vs = if bool_decide (opcode = M0_IC_PUT) then 6%nat else 3%nat) ∨
     (rc < 0 ∧ refused h0 op op' w w' req bs)).
Proof.
  intros Hop Hg req. unfold kvs_put_del.
  destruct (idx_alloc_spec h0 _ bs kid Hg) as
    (rc & r & h1 & -> & [(-> & i & -> & Hg1 & Hp1)|(-> & -> & Hg1 & Hp1)]).
  2:{ do 3 eexists. split; [done|]. right. split; [done|]. split_and!; try done. by left. }
  destruct (keys_vals_alloc_spec h0 h1 _ opcode (Z.of_nat (length kvps)) Hg1) as
    (rc & keys & vals & h2 & -> & [(-> & Hk & Hvn & Hka & Hva & Hents & Hg2 & Hp2)|(-> & -> & -> & Hp2 & Hl)]);
    cbn [mbind outcome_bind].
  - cbn [Z.ltb Z.compare fst snd].
    assert (Hput : vals = None → opcode ≠ M0_IC_PUT) by (intros Hn; apply Hvn in Hn; congruence).
    destruct (kvs_query_spec h0 (i :: bs) (MkIdx (MkPtr i 0) (kvs_id_to_uint128 fid_tinit kid)) opcode kvps
      keys vals 0 (PpGeneric (MkIdx (MkPtr i 0) (kvs_id_to_uint128 fid_tinit kid))) op (set_kw_heap h2 w)
      Hka Hva Hput Hg2) as (rc & op' & w' & Hq & Hcase).
    assert (Hreq : query_req (MkIdx (MkPtr i 0) (kvs_id_to_uint128 fid_tinit kid)) opcode kvps vals 0 = req).
    { unfold query_req, req, put_del_req. f_equal. destruct vals as [v|]; destruct Hop as [-> | ->]; simpl; try done.
      all: first [discriminate (proj2 Hvn eq_refl) | discriminate (proj1 Hvn eq_refl)]. }
    rewrite Hreq in Hcase. exists rc, op', w'. split; [exact Hq|].
    destruct Hcase as [(-> & b & -> & Hg3 & Hex & Hp3)|(Hneg & -> & Hi & Hg3 & Hp3)].
    + left. split; [done|]. exists i, (opt_blocks vals ++ opt_blocks keys). split.
      * exists b. split_and!; [done|by rewrite <- app_assoc|exact Hex|]. intros Hp. auto.
      * destruct Hk as [k ->]. destruct Hop as [-> | ->].
        -- destruct vals; [done|]. discriminate (proj1 Hvn eq_refl).
        -- by rewrite (proj2 Hvn eq_refl).
    + right. split; [done|]. split_and!; [done|done|right; by exists i|]. intros Hrc Hp. apply (Hp3 Hrc). auto.
  - change (- ENOMEM <? 0) with true. cbn iota. unfold motr_kvs_idx_fini_free. cbn [idx_self].
    assert (Hne : h_plan (kw_heap w) ≠ []) by (intros Hp; by apply Hp2, Hp1).
    destruct Hl as [Hg2|[b Hg2]].
    + destruct (heap_grow_free _ _ _ _ Hg2) as (h3 & -> & Hg3 & _). cbn [mbind outcome_bind].
      do 3 eexists. split; [done|]. right. split; [done|]. split_and!; try done. by left.
    + assert (Hg2' : heap_grow h0 h2 (i :: b :: bs)) by (eapply heap_grow_proper; [apply Permutation_swap|done]).
      destruct (heap_grow_free _ _ _ _ Hg2') as (h3 & -> & Hg3 & _). cbn [mbind outcome_bind].
      do 3 eexists. split; [done|]. right. split; [done|]. split_and!; try done. right. by exists b.
Qed.

Definition get_next_req (opcode : m0_idx_opcode) (flag : Z) (kid : mio_obj_id) (kvps : list mio_kv_pair) : m0_req :=
  IdxOp opcode (kvs_id_to_uint128 fid_tinit kid) (fill_keys kvps) (replicate (length kvps) (0, None)) flag.

Definition get_next_pp (opcode : m0_idx_opcode) (args : kvs_args) : kvs_pp :=
  if decide (opcode = M0_IC_NEXT) then PpNext args else PpGet args.

Lemma kvs_get_next_spec h0 bs opcode flag size kid kvps op w :
  opcode = M0_IC_GET ∨ opcode = M0_IC_NEXT → heap_grow h0 (kw_heap w) bs →
  let req := get_next_req opcode flag kid kvps in
  (kvs_get_next fid_tinit opcode flag size kid kvps op w = Fault UninitRead ∧
     hd true (h_plan (kw_heap w)) = true ∧ false ∈ take 6 (tail (h_plan (kw_heap w)))) ∨
  ∃ rc op' w', kvs_get_next fid_tinit opcode flag size kid kvps op w = Done (rc, op', w') ∧
    ((rc = 0 ∧ ∃ a i vs args, kna_idx args = MkIdx (MkPtr i 0) (kvs_id_to_uint128 fid_tinit kid) ∧
        ka_self args = MkPtr a 0 ∧ length vs = 6%nat ∧
        launched h0 op op' w w' req (get_next_pp opcode args) (a :: i :: vs ++ bs)) ∨
     (rc < 0 ∧ op' = op ∧ kw_index w' = kw_index w ∧ heap_grow h0 (kw_heap w') bs ∧
      (0 <= m0_req_rc req (kw_index w) → h_plan (kw_heap w) ≠ []))).
Proof.
  intros Hop Hg req. unfold kvs_get_next.
  destruct (idx_alloc_spec h0 _ bs kid Hg) as
    (rc & r & h1 & Hidx & [(-> & i & -> & Hg1 & Hp1)|(-> & -> & Hg1 & Hp1)]); rewrite Hidx.
  2:{ right. do 3 eexists. split; [done|]. right. by split_and!. }
  destruct (keys_vals_alloc_spec h0 h1 _ opcode (Z.of_nat (length kvps)) Hg1) as
    (rc & keys & vals & h2 & Hkv & [(-> & Hk & Hvn & Hka & Hva & Hents & Hg2 & Hp2)|(-> & -> & -> & Hp2 & Hl)]).
  2:{ left. rewrite Hkv. cbn [mbind outcome_bind]. unfold motr_kvs_idx_fini_free. cbn [idx_self].
      assert (Hfree : ∃ h3, mio_mem_free (MkPtr i 0) h2 = Done h3).
      { destruct Hl as [Hg2|[b Hg2]].
        - destruct (heap_grow_free _ _ _ _ Hg2) as (h3 & ? & _). by exists h3.
        - assert (Hg2' : heap_grow h0 h2 (i :: b :: bs)) by (eapply heap_grow_proper; [apply Permutation_swap|done]).
          destruct (heap_grow_free _ _ _ _ Hg2') as (h3 & ? & _). by exists h3. }
      destruct Hfree as [h3 ->]. split; [done|].
      destruct (idx_alloc_plan _ _ _ _ _ (heap_grow_ok _ _ _ Hg) Hidx) as (Hok1 & Hpl & Hnone).
      split; [destruct (hd true (h_plan (kw_heap w))); [done|discriminate (proj2 Hnone eq_refl)]|].
      rewrite <- Hpl. apply (keys_vals_alloc_plan opcode _ _ _ _ _ Hok1 ltac:(by destruct Hop as [-> | ->]) Hkv). done. }
  rewrite Hkv. cbn [mbind outcome_bind]. destruct Hk as [k ->].
  destruct vals as [v|].
  2:{ pose proof (proj1 Hvn eq_refl) as Hd. destruct Hop as [-> | ->]; discriminate. }
  destruct (mio_mem_alloc size h2) as [q h3] eqn:E.
  assert (Hlen6 : length (opt_blocks (Some v) ++ opt_blocks (Some k)) = 6%nat) by done.
  destruct (heap_grow_alloc _ _ _ _ _ _ Hg2 E) as [(-> & Hg3 & _ & Hp3)|(a & -> & Hn & _ & Hg3 & _ & _ & Hp3)].
  - rewrite decide_True by done. right. unfold motr_kvs_idx_fini_free. cbn [idx_self].
    assert (Hg3' : heap_grow h0 h3 (i :: opt_blocks (Some k) ++ opt_blocks (Some v) ++ bs)).
    { eapply heap_grow_proper; [|exact Hg3]. solve_Permutation. }
    destruct (heap_grow_free _ _ _ _ Hg3') as (h4 & -> & Hg4 & _). cbn [mbind outcome_bind].
    destruct (opt_bufvec_free_spec _ _ _ _ Hka Hg4) as (h5 & -> & Hg5 & _). cbn [mbind outcome_bind].
    destruct (opt_bufvec_free_spec _ _ _ _ Hva Hg5) as (h6 & -> & Hg6 & _). cbn [mbind outcome_bind].
    do 3 eexists. split; [done|]. right. split_and!; try done. intros _ Hp. apply Hp3. auto.
  - rewrite decide_False by done. right.
    set (args := MkKvsArgs (MkPtr a 0) (if decide (opcode = M0_IC_NEXT) then Some k else None) v
                   (MkIdx (MkPtr i 0) (kvs_id_to_uint128 fid_tinit kid))).
    change (if decide (opcode = M0_IC_NEXT) then PpNext args else PpGet args) with (get_next_pp opcode args).
    assert (Hg3' : heap_grow h0 (kw_heap (set_kw_heap h3 w)) (opt_blocks (Some v) ++ opt_blocks (Some k) ++ a :: i :: bs)).
    { eapply heap_grow_proper; [|exact Hg3]. solve_Permutation. }
    destruct (kvs_query_spec h0 (a :: i :: bs) (MkIdx (MkPtr i 0) (kvs_id_to_uint128 fid_tinit kid)) opcode kvps
      (Some k) (Some v) flag (get_next_pp opcode args) op (set_kw_heap h3 w) Hka Hva ltac:(done) Hg3')
      as (rc & op' & w' & Hq & Hcase).
    assert (Hreq : query_req (MkIdx (MkPtr i 0) (kvs_id_to_uint128 fid_tinit kid)) opcode kvps (Some v) flag = req).
    { unfold query_req, req, get_next_req. f_equal. rewrite bool_decide_false by (destruct Hop as [-> | ->]; done).
      by rewrite (Hents v eq_refl), Nat2Z.id. }
    rewrite Hreq in Hcase. rewrite Hq. cbn [mbind outcome_bind].
    destruct Hcase as [(-> & b & -> & Hg4 & Hex & Hp4)|(Hneg & -> & Hi & Hg4 & Hp4)].
    + cbn [Z.ltb Z.compare]. do 3 eexists. split; [done|]. left. split; [done|].
      exists a, i, (opt_blocks (Some v) ++ opt_blocks (Some k)), args. split_and!; try done.
      exists b. split_and!; [done| |exact Hex|intros Hp; auto].
      eapply heap_grow_proper; [|exact Hg4]. solve_Permutation.
    + rewrite (proj2 (Z.ltb_lt _ _)) by done. unfold motr_kvs_idx_fini_free. cbn [idx_self].
      assert (Hg4' : heap_grow h0 (kw_heap w') (i :: a :: bs)) by (eapply heap_grow_proper; [apply Permutation_swap|done]).
      destruct (heap_grow_free _ _ _ _ Hg4') as (h5 & -> & Hg5 & _). cbn [mbind outcome_bind].
      destruct (heap_grow_free _ _ _ _ Hg5) as (h6 & -> & Hg6 & _). cbn [mbind outcome_bind].
      do 3 eexists. split; [done|]. right. split_and!; try done. intros Hrc Hp. apply (Hp4 Hrc). auto.
Qed.

(** ** A whole operation

    The driver's function launches it, Motr completes it and calls back, and the
    application finalises it.  Without callbacks the operation is left for
    mio_op_poll(). *)
Definition kvs_cb_pp (pp : kvs_pp) (mop : kvs_mop) (s : list mio_kv_pair * kvs_world)
  : outcome (Z * kvs_mop * (list mio_kv_pair * kvs_world)) :=
  '(rc, kvps, w) ← kvs_pp_run pp s.1 s.2; Done (rc, mop, (kvps, w)).

Definition no_op_args (a : Empty_set) (h : heap) : outcome heap := match a with end.

Definition kvs_exec (start : kvs_mop → kvs_world → outcome (Z * kvs_mop * kvs_world))
    (kvps : list mio_kv_pair) (op : kvs_mop) (w : kvs_world)
  : outcome (Z * option app_call * list mio_kv_pair * kvs_world) :=
  '(rc, op, w) ← start op w;
  if rc <? 0 then Done (rc, None, kvps, w) else
  if negb (existsb mdo_cbs (take 1 (mop_drv_op_chain op))) then Done (rc, None, kvps, w) else
  '(call, op, s) ← motr_op_cb_complete kvs_cb_pp op (kvps, w);
  '(op, h) ← mio_motr_op_fini no_op_args op (kw_heap s.2);
  Done (rc, call, s.1, set_kw_heap h s.2).

(** The action [pp] finishes with the pairs [kvps'] and releases the blocks [own]:
    in any memory in which a driver operation [b] has been added. *)
Definition pp_finishes (h0 : heap) (pp : kvs_pp) (kvps kvps' : list mio_kv_pair) (w : kvs_world)
    (own bs : list Z) : Prop :=
  ∀ b h, heap_grow h0 h (b :: own ++ bs) → ∃ h',
    kvs_pp_run pp kvps (MkKvsWorld h (kw_index w) (kw_reply w)) =
      Done (MIO_DRV_OP_FINAL, kvps', MkKvsWorld h' (kw_index w) (kw_reply w)) ∧
    heap_grow h0 h' (b :: bs) ∧ (h_plan h = [] → h_plan h' = []).

Lemma pp_generic_finishes h0 i id kvps w bs :
  pp_finishes h0 (PpGeneric (MkIdx (MkPtr i 0) id)) kvps kvps w [i] bs.
Proof.
  intros b h Hgb. cbn [kvs_pp_run kw_heap]. unfold motr_kvs_idx_fini_free. cbn [idx_self].
  assert (Hgb' : heap_grow h0 h (i :: b :: bs)) by (eapply heap_grow_proper; [apply Permutation_swap|done]).
  destruct (heap_grow_free _ _ _ _ Hgb') as (h' & -> & Hg' & Hp' & _).
  exists h'. split_and!; [done|done|congruence].
Qed.

Lemma pp_get_finishes h0 a i args id kvps w bs :
  kna_idx args = MkIdx (MkPtr i 0) id → ka_self args = MkPtr a 0 → rep_stable (kw_reply w) = true →
  pp_finishes h0 (PpGet args) kvps (get_pp_loop kvps (rep_vals (kw_reply w))) w [a; i] bs.
Proof.
  intros Hi Ha Hst b h Hgb. cbn [kvs_pp_run kw_heap kw_reply]. rewrite Hst. cbn [negb].
  unfold motr_kvs_idx_fini_free. rewrite Hi, Ha. cbn [idx_self].
  assert (Hgb' : heap_grow h0 h (i :: a :: b :: bs)) by (eapply heap_grow_proper; [|exact Hgb]; solve_Permutation).
  destruct (heap_grow_free _ _ _ _ Hgb') as (h1 & -> & Hg' & Hp' & _). cbn [mbind outcome_bind].
  destruct (heap_grow_free _ _ _ _ Hg') as (h2 & -> & Hg'' & Hp'' & _). cbn [mbind outcome_bind].
  exists h2. split_and!; [done|done|congruence].
Qed.

(** From the launch on: the action finishes, the callback is called, and the
    driver operation and the blocks of the action are released. *)
Lemma kvs_exec_launched h0 start kvps kvps' op op' w w' req pp own bs :
  mop_drv_op_chain op = [] → op_has_cbs op = true →
  start op w = Done (0, op', w') → launched h0 op op' w w' req pp (own ++ bs) →
  pp_finishes h0 pp kvps kvps' w' own bs →
  ∃ w'', kvs_exec start kvps op w = Done (0, Some CbComplete, kvps', w'') ∧
    heap_grow h0 (kw_heap w'') bs ∧ kw_index w'' = kw_index w' ∧ kw_reply w'' = kw_reply w' ∧
    (h_plan (kw_heap w) = [] → h_plan (kw_heap w'') = []).
Proof.
  intros Hch Hcb Hstart (b & -> & Hg & Hex & Hp) Hpp. unfold kvs_exec. rewrite Hstart.
  cbn [mbind outcome_bind Z.ltb Z.compare]. rewrite Hch, Hcb.
  cbn [set_chain mop_drv_op_chain take existsb mdo_cbs orb negb]. unfold motr_op_cb_complete. cbn [set_chain mop_drv_op_chain].
  cbn [mdo_post_proc]. unfold kvs_cb_pp. cbn [fst snd].
  destruct (Hpp b (kw_heap w') Hg) as (h' & Hrun & Hg' & Hp').
  destruct w' as [hw iw rw]. cbn [kw_heap kw_index kw_reply] in *. rewrite Hrun. cbn [mbind outcome_bind].
  change (MIO_DRV_OP_FINAL =? MIO_DRV_OP_NEXT) with false. cbn [mio_driver_op_invoke_real_cb].
  cbn [Z.eqb mbind outcome_bind snd kw_heap]. unfold mio_motr_op_fini. cbn [mop_drv_op_chain set_mop_rc set_chain op_fini_chain mdo_op_args mdo_mem].
  cbn [mbind outcome_bind].
  destruct (heap_grow_free _ _ _ _ Hg') as (h2 & -> & Hg2 & Hp2 & _). cbn [mbind outcome_bind fst snd].
  eexists. split; [done|]. split_and!; [done..|]. intros Hpl. cbn. rewrite Hp2. auto.
Qed.

(** The application's calls on one key-value set, and the pairs they pass. *)
Inductive kvs_call := KPut (kvs : list (list Z * list Z)) | KGet (ks : list (list Z)) | KDel (ks : list (list Z)).

Definition key_pair (k : list Z) : mio_kv_pair := MkPair (Some k) (Z.of_nat (length k)) None 0.
Definition full_pair (kv : list Z * list Z) : mio_kv_pair :=
  MkPair (Some kv.1) (Z.of_nat (length kv.1)) (Some kv.2) (Z.of_nat (length kv.2)).

Definition call_pairs (c : kvs_call) : list mio_kv_pair :=
  match c with KPut kvs => full_pair <$> kvs | KGet ks | KDel ks => key_pair <$> ks end.

(** The result of a call: the return code, the callback, the pairs and rcs. *)
Record kvs_result := MkResult {
  kr_rc : Z; kr_call : option app_call; kr_pairs : list mio_kv_pair; kr_rcs : list Z
}.

(** The function of the driver behind a call. *)
Definition call_fun (kid : mio_obj_id) (c : kvs_call) : kvs_mop → kvs_world → outcome (Z * kvs_mop * kvs_world) :=
  match c with
  | KPut _ => mio_motr_kvs_put fid_tinit kid (call_pairs c)
  | KGet _ => mio_motr_kvs_get fid_tinit kid (call_pairs c)
  | KDel _ => mio_motr_kvs_del fid_tinit kid (call_pairs c)
  end.

Definition run_call (kid : mio_obj_id) (op : kvs_mop) (c : kvs_call) (w : kvs_world)
  : outcome (kvs_result * kvs_world) :=
  '(rc, call, kvps, w) ← kvs_exec (call_fun kid c) (call_pairs c) op w;
  Done (MkResult rc call kvps (rep_rcs (kw_reply w)), w).

Fixpoint run_calls (kid : mio_obj_id) (op : kvs_mop) (cs : list kvs_call) (w : kvs_world)
  : outcome (list kvs_result * kvs_world) :=
  match cs with
  | [] => Done ([], w)
  | c :: cs =>
      '(r, w) ← run_call kid op c w;
      '(rs, w) ← run_calls kid op cs w;
      Done (r :: rs, w)
  end.

(** The specification: a finite map from keys to values. *)
Definition found_rc (m : gmap (list Z) (list Z)) (k : list Z) : Z := if decide (is_Some (m !! k)) then 0 else - ENOENT.

Definition spec_call (c : kvs_call) (m : gmap (list Z) (list Z)) : kvs_result * gmap (list Z) (list Z) :=
  let res pairs rcs := MkResult 0 (Some CbComplete) pairs rcs in
  match c with
  | KPut kvs =>
      (res (call_pairs c) ((λ k, if decide (is_Some (m !! k)) then - EEXIST else 0) <$> kvs.*1), put_new m kvs)
  | KGet ks =>
      (res ((λ k, match m !! k with Some v => full_pair (k, v) | None => key_pair k end) <$> ks)
         (found_rc m <$> ks), m)
  | KDel ks => (res (call_pairs c) (found_rc m <$> ks), foldr delete m ks)
  end.

Fixpoint spec_calls (cs : list kvs_call) (m : gmap (list Z) (list Z))
  : list kvs_result * gmap (list Z) (list Z) :=
  match cs with
  | [] => ([], m)
  | c :: cs => let '(r, m) := spec_call c m in let '(rs, m) := spec_calls cs m in (r :: rs, m)
  end.

(** The blocks of the vectors, which nobody releases. *)
Definition lost_blocks (c : kvs_call) : nat := match c with KPut _ | KGet _ => 6 | KDel _ => 3 end.

Definition call_ok (c : kvs_call) : Prop :=
  match c with KPut kvs => NoDup kvs.*1 | KGet ks => True | KDel ks => NoDup ks end.

Lemma fill_keys_key_pair ks : fill_keys (key_pair <$> ks) = ent <$> ks.
Proof. unfold fill_keys. rewrite <- list_fmap_compose. done. Qed.

Lemma fill_full_pair kvs :
  fill_keys (full_pair <$> kvs) = ent <$> kvs.*1 ∧ fill_vals (full_pair <$> kvs) = ent <$> kvs.*2.
Proof. unfold fill_keys, fill_vals. by rewrite <- !list_fmap_compose. Qed.

Lemma get_pp_loop_spec (m : gmap (list Z) (list Z)) ks :
  get_pp_loop (key_pair <$> ks) ((λ k, match m !! k with Some v => ent v | None => (0, None) end) <$> ks) =
  (λ k, match m !! k with Some v => full_pair (k, v) | None => key_pair k end) <$> ks.
Proof. induction ks as [|k ks IH]; [done|]. csimpl. rewrite IH. by destruct (m !! k). Qed.

Section Refinement.
Context (kid : mio_obj_id).
Let id := kvs_id_to_uint128 fid_tinit kid.

(** What the world has to do with the map [m]. *)
Definition kvs_rel (h0 : heap) (bs : list Z) (w : kvs_world) (m : gmap (list Z) (list Z)) : Prop :=
  heap_grow h0 (kw_heap w) bs ∧ h_plan (kw_heap w) = [] ∧ index_at (kw_index w) id = Some m.

(** The launch of a put or a delete, and of a get. *)
Lemma put_del_launched h0 bs opcode kvps op w :
  opcode = M0_IC_PUT ∨ opcode = M0_IC_DEL →
  (∀ req s, 0 <= m0_req_rc req s) → heap_grow h0 (kw_heap w) bs → h_plan (kw_heap w) = [] →
  ∃ op' w' i vs, kvs_put_del fid_tinit opcode kid kvps op w = Done (0, op', w') ∧
    launched h0 op op' w w' (put_del_req opcode kid kvps) (PpGeneric (MkIdx (MkPtr i 0) id)) ([i] ++ vs ++ bs) ∧
    length vs = if bool_decide (opcode = M0_IC_PUT) then 6%nat else 3%nat.
Proof.
  intros Hop Hrc Hg Hp.
  destruct (kvs_put_del_spec h0 bs opcode kid kvps op w Hop Hg) as
    (rc & op' & w1 & Hs & [(-> & i & vs & Hl & Hlen)|(Hneg & _ & _ & _ & Hne)]); [|by destruct Hne].
  exists op', w1, i, vs. split_and!; [done| |done]. destruct Hl as (b & ? & Hg1 & ? & ?). exists b. split_and!; try done.
  eapply heap_grow_proper; [|exact Hg1]. solve_Permutation.
Qed.

Lemma get_launched h0 bs kvps op w :
  (∀ req s, 0 <= m0_req_rc req s) → heap_grow h0 (kw_heap w) bs → h_plan (kw_heap w) = [] →
  ∃ op' w' a i vs args, mio_motr_kvs_get fid_tinit kid kvps op w = Done (0, op', w') ∧
    launched h0 op op' w w' (get_next_req M0_IC_GET 0 kid kvps) (PpGet args) ([a; i] ++ vs ++ bs) ∧
    kna_idx args = MkIdx (MkPtr i 0) id ∧ ka_self args = MkPtr a 0 ∧ length vs = 6%nat.
Proof.
  intros Hrc Hg Hp.
  destruct (kvs_get_next_spec h0 bs M0_IC_GET 0 SIZEOF_KVS_GET_ARGS kid kvps op w (or_introl eq_refl) Hg) as
    [(_ & _ & Hne)|(rc & op' & w1 & Hs & [(-> & a & i & vs & args & Hai & Haa & Hlen & Hl)|(Hneg & _ & _ & _ & Hne)])];
    [rewrite Hp in Hne; by apply not_elem_of_nil in Hne| |by destruct Hne].
  by exists op', w1, a, i, vs, args.
Qed.

(** A call is launched, and what is left to do finishes it: the codes, the pairs
    and the contents are those of the map. *)
Lemma call_launched h0 bs op c w m :
  (∀ req s, 0 <= m0_req_rc req s) → kvs_rel h0 bs w m → call_ok c →
  ∃ op' w' req pp own vs, call_fun kid c op w = Done (0, op', w') ∧
    launched h0 op op' w w' req pp (own ++ vs ++ bs) ∧ length vs = lost_blocks c ∧
    pp_finishes h0 pp (call_pairs c) (kr_pairs (spec_call c m).1) w' own (vs ++ bs) ∧
    rep_stable (kw_reply w') = true ∧ rep_rcs (kw_reply w') = kr_rcs (spec_call c m).1 ∧
    index_at (kw_index w') id = Some (spec_call c m).2 ∧
    ∀ id', id' ≠ id → index_at (kw_index w') id' = index_at (kw_index w) id'.
Proof.
  intros Hrc (Hg & Hp & Hm) Hc. destruct c as [kvs|ks|ks]; cbn [call_fun].
  - destruct (put_del_launched h0 bs M0_IC_PUT (call_pairs (KPut kvs)) op w (or_introl eq_refl) Hrc Hg Hp) as
      (op' & w' & i & vs & Hs & Hl & Hlen). pose proof Hl as (_ & _ & _ & Hreq & _).
    unfold put_del_req in Hreq. simpl call_pairs in Hreq. destruct (fill_full_pair kvs) as [Hk Hv].
    rewrite Hk, Hv in Hreq. pose proof (m0_put_law (kw_index w) id m kvs Hm Hc) as Hlaw.
    rewrite bool_decide_true in Hreq by done. fold id in Hreq. rewrite Hreq in Hlaw.
    destruct Hlaw as (Hst & Hrcs & Hidx & Hoth).
    exists op', w'. do 4 eexists. split_and!; [exact Hs|exact Hl|exact Hlen|apply pp_generic_finishes|done..].
  - destruct (get_launched h0 bs (call_pairs (KGet ks)) op w Hrc Hg Hp) as
      (op' & w' & a & i & vs & args & Hs & Hl & Hi & Ha & Hlen). pose proof Hl as (_ & _ & _ & Hreq & _).
    unfold get_next_req in Hreq. simpl call_pairs in Hreq. rewrite fill_keys_key_pair, length_fmap in Hreq. fold id in Hreq.
    pose proof (m0_get_law (kw_index w) id m ks (replicate (length ks) (0, None)) Hm) as Hlaw. rewrite Hreq in Hlaw.
    destruct Hlaw as (Hst & Hrcs & Hvals & Hoth).
    exists op', w'. do 4 eexists. split_and!; [exact Hs|exact Hl|exact Hlen| |done|done| |by intros id' _].
    + cbn [spec_call fst kr_pairs]. rewrite <- get_pp_loop_spec, <- Hvals. by eapply pp_get_finishes.
    + by rewrite Hoth.
  - destruct (put_del_launched h0 bs M0_IC_DEL (call_pairs (KDel ks)) op w (or_intror eq_refl) Hrc Hg Hp) as
      (op' & w' & i & vs & Hs & Hl & Hlen). pose proof Hl as (_ & _ & _ & Hreq & _).
    unfold put_del_req in Hreq. simpl call_pairs in Hreq. rewrite fill_keys_key_pair in Hreq.
    pose proof (m0_del_law (kw_index w) id m ks Hm Hc) as Hlaw.
    rewrite bool_decide_false in Hreq by done. fold id in Hreq. rewrite Hreq in Hlaw.
    destruct Hlaw as (Hst & Hrcs & Hidx & Hoth).
    exists op', w'. do 4 eexists. split_and!; [exact Hs|exact Hl|exact Hlen|apply pp_generic_finishes|done..].
Qed.

Lemma run_call_refines h0 bs op c w m :
  mop_drv_op_chain op = [] → op_has_cbs op = true → (∀ req s, 0 <= m0_req_rc req s) → kvs_rel h0 bs w m → call_ok c →
  ∃ w' vs, run_call kid op c w = Done ((spec_call c m).1, w') ∧ kvs_rel h0 (vs ++ bs) w' (spec_call c m).2 ∧
    length vs = lost_blocks c ∧ ∀ id', id' ≠ id → index_at (kw_index w') id' = index_at (kw_index w) id'.
Proof.
  intros Hch Hcb Hrc Hrel Hc.
  destruct (call_launched h0 bs op c w m Hrc Hrel Hc) as
    (op' & w1 & req & pp & own & vs & Hs & Hl & Hlen & Hpp & _ & Hrcs & Hidx & Hoth).
  destruct (kvs_exec_launched h0 _ _ _ op op' w w1 req pp own (vs ++ bs) Hch Hcb Hs Hl Hpp) as
    (w' & Hex & Hg & Hi & Hr & Hp).
  exists w', vs. unfold run_call. rewrite Hex. cbn [mbind outcome_bind]. rewrite Hr, Hrcs. unfold kvs_rel. rewrite Hi.
  destruct Hrel as (_ & Hp0 & _). split_and!; auto. by destruct c.
Qed.

Lemma run_calls_refines h0 op cs :
  mop_drv_op_chain op = [] → op_has_cbs op = true → (∀ req s, 0 <= m0_req_rc req s) → Forall call_ok cs →
  ∀ bs w m, kvs_rel h0 bs w m →
  ∃ w' vs, run_calls kid op cs w = Done ((spec_calls cs m).1, w') ∧ kvs_rel h0 (vs ++ bs) w' (spec_calls cs m).2 ∧
    length vs = sum_list (lost_blocks <$> cs) ∧
    ∀ id', id' ≠ id → index_at (kw_index w') id' = index_at (kw_index w) id'.
Proof.
  intros Hch Hcb Hrc Hcs. induction Hcs as [|c cs Hc Hcs' IH]; intros bs w m Hrel.
  - exists w, []. by split_and!.
  - destruct (run_call_refines _ bs op c w m Hch Hcb Hrc Hrel Hc) as (w2 & vs & H1 & H2 & H3 & H4).
    destruct (IH (vs ++ bs) w2 _ H2) as (w3 & vs' & H5 & H6 & H7 & H8).
    exists w3, (vs' ++ vs). cbn [run_calls spec_calls fmap list_fmap]. rewrite H1. cbn [mbind outcome_bind].
    rewrite H5. cbn [mbind outcome_bind]. destruct (spec_call c m) as [r m2]. simpl in *.
    destruct (spec_calls cs m2) as [rs m3]. simpl in *. split_and!; [done| |rewrite length_app; lia|].
    + by rewrite <- app_assoc.
    + intros id' Hid. by rewrite H8, H4.
Qed.

(** Creating and deleting a set: the launch and the whole operation. *)
Definition set_fun (create : bool) := if create then mio_motr_kvs_create_set fid_tinit kid
  else mio_motr_kvs_del_set fid_tinit kid.
Definition set_req (create : bool) : m0_req := if create then EntityCreate id else EntityDelete id.

Lemma kvs_set_spec h0 bs create op w :
  heap_grow h0 (kw_heap w) bs → let req := set_req create in
  ∃ rc op' w', set_fun create op w = Done (rc, op', w') ∧
    ((rc = 0 ∧ ∃ i, launched h0 op op' w w' req (PpGeneric (MkIdx (MkPtr i 0) id)) (i :: bs)) ∨
     (rc < 0 ∧ op' = op ∧ kw_index w' = kw_index w ∧
      (heap_grow h0 (kw_heap w') bs ∨ create = true ∧ m0_req_rc req (kw_index w) < 0 ∧
         ∃ i, heap_grow h0 (kw_heap w') (i :: bs)) ∧
      (0 <= m0_req_rc req (kw_index w) → h_plan (kw_heap w) ≠ []))).
Proof.
  intros Hg req.
  destruct (idx_alloc_spec h0 _ bs kid Hg) as
    (rc & r & h1 & Hidx & [(-> & i & -> & Hg1 & Hp1)|(-> & -> & Hg1 & Hp1)]).
  2:{ exists (- ENOMEM), op, (set_kw_heap h1 w). split.
      - destruct create; simpl; unfold mio_motr_kvs_create_set, mio_motr_kvs_del_set; by rewrite Hidx.
      - right. split_and!; try done. by left. }
  destruct (Z.ltb_spec (m0_req_rc req (kw_index w)) 0) as [Hneg|Hpos].
  { destruct (heap_grow_free _ _ _ _ Hg1) as (h2 & Hf & Hg2 & _).
    exists (m0_req_rc req (kw_index w)), op, (set_kw_heap (if create then h1 else h2) w). split.
    - destruct create; simpl in req |- *; unfold mio_motr_kvs_create_set, mio_motr_kvs_del_set; rewrite Hidx;
        cbn [idx_id set_kw_heap kw_index kw_heap]; fold id; fold req;
        rewrite (proj2 (Z.ltb_lt _ _)) by done; [done|].
      unfold motr_kvs_idx_fini_free. cbn [idx_self]. by rewrite Hf.
    - right. split_and!; try done; [|lia]. destruct create; [right|by left]. split_and!; [done..|by exists i]. }
  destruct (driver_op_add_spec _ _ _ op (PpGeneric (MkIdx (MkPtr i 0) id)) req Hg1) as
    (rc & op' & h2 & Hadd & [(-> & b & -> & Hg2 & Hp)|(-> & -> & Hg2 & Hp)]).
  - destruct (m0_req_exec req (kw_index w)) as [s' r] eqn:Hex.
    exists 0, (set_chain (MkDop (MkPtr b 0) req None (Some (PpGeneric (MkIdx (MkPtr i 0) id))) (op_has_cbs op)
      :: mop_drv_op_chain op) op), (MkKvsWorld h2 s' r). split.
    + destruct create; simpl in req |- *; unfold mio_motr_kvs_create_set, mio_motr_kvs_del_set; rewrite Hidx;
        cbn [idx_id set_kw_heap kw_index kw_heap]; fold id; fold req; rewrite (proj2 (Z.ltb_ge _ _)) by done;
        rewrite Hadd; cbn [Z.ltb Z.compare]; unfold m0_op_launch; cbn [set_kw_heap kw_index kw_heap]; by rewrite Hex.
    + left. split; [done|]. exists i, b. split_and!; auto.
  - destruct (heap_grow_free _ _ _ _ Hg2) as (h3 & Hf & Hg3 & _).
    exists (- ENOMEM), op, (set_kw_heap h3 w). split.
    + destruct create; simpl in req |- *; unfold mio_motr_kvs_create_set, mio_motr_kvs_del_set; rewrite Hidx;
        cbn [idx_id set_kw_heap kw_index kw_heap]; fold id; fold req; rewrite (proj2 (Z.ltb_ge _ _)) by done;
        rewrite Hadd; change (- ENOMEM <? 0) with true; cbn iota; unfold motr_kvs_idx_fini_free; cbn [idx_self];
        by rewrite Hf.
    + right. split_and!; try done; [by left|]. intros _ Hpl. apply Hp. auto.
Qed.

Lemma set_launched h0 bs create op w :
  (∀ req s, 0 <= m0_req_rc req s) → heap_grow h0 (kw_heap w) bs → h_plan (kw_heap w) = [] →
  ∃ op' w' i, set_fun create op w = Done (0, op', w') ∧
    launched h0 op op' w w' (set_req create) (PpGeneric (MkIdx (MkPtr i 0) id)) ([i] ++ bs).
Proof.
  intros Hrc Hg Hp. destruct (kvs_set_spec h0 bs create op w Hg) as
    (rc & op' & w1 & Hs & [(-> & i & Hl)|(Hneg & _ & _ & _ & Hne)]); [|by destruct Hne].
  by exists op', w1, i.
Qed.

Lemma exec_set h0 bs create kvps op w :
  mop_drv_op_chain op = [] → op_has_cbs op = true →
  (∀ req s, 0 <= m0_req_rc req s) → heap_grow h0 (kw_heap w) bs → h_plan (kw_heap w) = [] →
  ∃ w', kvs_exec (set_fun create) kvps op w = Done (0, Some CbComplete, kvps, w') ∧
    m0_req_exec (set_req create) (kw_index w) = (kw_index w', kw_reply w') ∧
    heap_grow h0 (kw_heap w') bs ∧ h_plan (kw_heap w') = [].
Proof.
  intros Hch Hcb Hrc Hg Hp.
  destruct (set_launched h0 bs create op w Hrc Hg Hp) as (op' & w1 & i & Hs & Hl).
  destruct (kvs_exec_launched h0 _ kvps kvps op op' w w1 _ _ [i] bs Hch Hcb Hs Hl (pp_generic_finishes _ _ _ _ _ _)) as
    (w2 & Hex & Hg2 & Hi & Hr & Hp2). destruct Hl as (_ & _ & _ & Hreq & _).
  exists w2. rewrite Hi, Hr. split_and!; auto.
Qed.
End Refinement.
End DriverLemmas.

(** (C15) Key-value sets are finite maps.  As long as malloc() and Motr accept the
    requests, any sequence of puts, gets and deletes on a set that exists, each
    launched, completed and finalised, gives exactly the results that the same
    sequence gives on a finite map - the values found, a code per pair, -ENOENT
    for a missing key and -EEXIST for one that is already there, whose value a
    put keeps - leaves the set with the contents of that map and all other sets
    alone.  Every call loses the blocks of its vectors of keys and values. *)
Theorem kvs_calls_refine_map (host : HostOrder) (motr : MotrIndex) (fid_tinit : Z → Z → Z → m0_fid)
    (kid : mio_obj_id) (op : kvs_mop) (cs : list kvs_call) (w : kvs_world) (m : gmap (list Z) (list Z))
  (Hop : mop_drv_op_chain op = []) (Hcb : op_has_cbs op = true) (Hmotr : ∀ req s, 0 <= m0_req_rc req s)
  (Hheap : heap_ok (kw_heap w)) (Hplan : h_plan (kw_heap w) = [])
  (Hidx : index_at (kw_index w) (kvs_id_to_uint128 fid_tinit kid) = Some m) (Hcs : Forall call_ok cs) :
  ∃ w' lost, run_calls fid_tinit kid op cs w = Done ((spec_calls cs m).1, w') ∧
    index_at (kw_index w') (kvs_id_to_uint128 fid_tinit kid) = Some (spec_calls cs m).2 ∧
    (∀ id', id' ≠ kvs_id_to_uint128 fid_tinit kid → index_at (kw_index w') id' = index_at (kw_index w) id') ∧
    heap_grow (kw_heap w) (kw_heap w') lost ∧ length lost = sum_list (lost_blocks <$> cs).
Proof.
  assert (Hrel : kvs_rel fid_tinit kid (kw_heap w) [] w m) by (split_and!; [by apply heap_grow_refl|done|done]).
  destruct (run_calls_refines fid_tinit kid (kw_heap w) op cs Hop Hcb Hmotr Hcs [] w m Hrel)
    as (w' & vs & H1 & (H2 & H3 & H4) & H5 & H6). rewrite app_nil_r in H2. exists w', vs. by split_and!.
Qed.

(** The life of a set: it is created, used and deleted. *)
Definition set_lifecycle `{HostOrder} `{MotrIndex} (fid_tinit : Z → Z → Z → m0_fid) (kid : mio_obj_id)
    (op : kvs_mop) (cs : list kvs_call) (w : kvs_world) : outcome (Z * list kvs_result * Z * kvs_world) :=
  '(rc1, _, _, w) ← kvs_exec (mio_motr_kvs_create_set fid_tinit kid) [] op w;
  '(rs, w) ← run_calls fid_tinit kid op cs w;
  '(rc2, _, _, w) ← kvs_exec (mio_motr_kvs_del_set fid_tinit kid) [] op w;
  Done (rc1, rs, rc2, w).

(** The life of a key-value set.  Creating a set whose id is free, calling
    any puts, gets and deletes and deleting the set works as on a finite map that
    starts out empty; in the end all sets are what they were before, the id is
    free again, and creating and deleting have released all their memory. *)
Theorem kvs_set_lifecycle (host : HostOrder) (motr : MotrIndex) (fid_tinit : Z → Z → Z → m0_fid)
    (kid : mio_obj_id) (op : kvs_mop) (cs : list kvs_call) (w : kvs_world)
  (Hop : mop_drv_op_chain op = []) (Hcb : op_has_cbs op = true) (Hmotr : ∀ req s, 0 <= m0_req_rc req s)
  (Hheap : heap_ok (kw_heap w)) (Hplan : h_plan (kw_heap w) = [])
  (Hidx : index_at (kw_index w) (kvs_id_to_uint128 fid_tinit kid) = None) (Hcs : Forall call_ok cs) :
  ∃ w' lost, set_lifecycle fid_tinit kid op cs w = Done (0, (spec_calls cs ∅).1, 0, w') ∧
    (∀ id, index_at (kw_index w') id = index_at (kw_index w) id) ∧
    heap_grow (kw_heap w) (kw_heap w') lost ∧ length lost = sum_list (lost_blocks <$> cs).
Proof.
  unfold set_lifecycle.
  destruct (exec_set fid_tinit kid (kw_heap w) [] true [] op w Hop Hcb Hmotr (heap_grow_refl _ Hheap) Hplan)
    as (w1 & Hx1 & Hr1 & Hg1 & Hp1).
  pose proof (m0_create_law _ _ Hidx) as Hlaw. simpl in Hr1. rewrite Hr1 in Hlaw. destruct Hlaw as (_ & Hi1 & Ho1).
  assert (Hrel : kvs_rel fid_tinit kid (kw_heap w) [] w1 ∅) by by split_and!.
  destruct (run_calls_refines fid_tinit kid (kw_heap w) op cs Hop Hcb Hmotr Hcs [] w1 ∅ Hrel)
    as (w2 & vs & H1 & (H2 & H3 & H4) & H5 & H6). rewrite app_nil_r in H2.
  destruct (exec_set fid_tinit kid (kw_heap w) vs false [] op w2 Hop Hcb Hmotr H2 H3)
    as (w3 & Hx3 & Hr3 & Hg3 & Hp3).
  pose proof (m0_delete_law _ _ _ H4) as Hlaw. simpl in Hr3. rewrite Hr3 in Hlaw. destruct Hlaw as (_ & Hi3 & Ho3).
  exists w3, vs. split.
  { simpl in Hx1, Hx3. rewrite Hx1. cbn [mbind outcome_bind]. rewrite H1. cbn [mbind outcome_bind].
    rewrite Hx3. done. }
  split_and!; [|done|done]. intros id'. destruct (decide (id' = kvs_id_to_uint128 fid_tinit kid)) as [->|Hne].
  - by rewrite Hi3, Hidx.
  - by rewrite (Ho3 _ Hne), (H6 _ Hne), (Ho1 _ Hne).
Qed.

(** ** When malloc() fails *)

(** The condition under which the index is allocated but a vector is not. *)
Definition vectors_fail (plan : list bool) : bool := bool_decide (hd true plan = true ∧ false ∈ take 6 (tail plan)).

Lemma kvs_get_next_fault `{HostOrder} `{MotrIndex} fid_tinit opcode flag size kid kvps op w x :
  opcode = M0_IC_GET ∨ opcode = M0_IC_NEXT → heap_ok (kw_heap w) → vectors_fail (h_plan (kw_heap w)) = true →
  kvs_get_next fid_tinit opcode flag size kid kvps op w ≠ Done x.
Proof.
  intros Hop Hok [Hhd Hin]%bool_decide_eq_true_1 Hx. unfold kvs_get_next in Hx.
  destruct (motr_kvs_idx_alloc_init fid_tinit kid (kw_heap w)) as [[rc r] h1] eqn:Hidx.
  destruct (idx_alloc_plan _ _ _ _ _ _ Hok Hidx) as (Hok1 & Hpl & Hnone).
  destruct r as [idx|]; [|by rewrite (proj1 Hnone eq_refl) in Hhd].
  apply outcome_bind_Done in Hx as ([[rc2 kv] h2] & Hkv & Hx). rewrite <- Hpl in Hin.
  apply (keys_vals_alloc_plan opcode _ _ _ _ _ Hok1 ltac:(by destruct Hop as [-> | ->]) Hkv) in Hin.
  destruct kv as [keys vals]. simpl in Hin. subst keys. outcome_inv.
Qed.

(** A read of a key-value set when malloc() fails, at whichever call.  If
    the index can be allocated but one of the six blocks of the two vectors
    cannot, the error path frees a pointer that was never set.  In every other
    case the call returns: with 0 and one driver operation added, or with an
    error, nothing asked of Motr and everything it allocated released. *)
Theorem mio_motr_kvs_get_malloc (host : HostOrder) (motr : MotrIndex) (fid_tinit : Z → Z → Z → m0_fid)
    (kid : mio_obj_id) (kvps : list mio_kv_pair) (op : kvs_mop) (w : kvs_world)
  (Hheap : heap_ok (kw_heap w)) :
  if vectors_fail (h_plan (kw_heap w)) then mio_motr_kvs_get fid_tinit kid kvps op w = Fault UninitRead
  else ∃ rc op' w', mio_motr_kvs_get fid_tinit kid kvps op w = Done (rc, op', w') ∧
    ((rc = 0 ∧ length (mop_drv_op_chain op') = S (length (mop_drv_op_chain op)) ∧
      ∃ own, heap_grow (kw_heap w) (kw_heap w') own ∧ length own = 9%nat) ∨
     (rc < 0 ∧ op' = op ∧ kw_index w' = kw_index w ∧ h_blocks (kw_heap w') = h_blocks (kw_heap w))).
Proof.
  destruct (kvs_get_next_spec fid_tinit (kw_heap w) [] M0_IC_GET 0 SIZEOF_KVS_GET_ARGS kid kvps op w
    (or_introl eq_refl) (heap_grow_refl _ Hheap)) as
    [(Hf & Hhd & Hin)|(rc & op' & w' & Hd & Hcase)].
  - unfold vectors_fail. by rewrite bool_decide_true by done.
  - destruct (vectors_fail _) eqn:Hv.
    { destruct (kvs_get_next_fault fid_tinit M0_IC_GET 0 SIZEOF_KVS_GET_ARGS kid kvps op w _
        (or_introl eq_refl) Hheap Hv Hd). }
    exists rc, op', w'. split; [exact Hd|].
    destruct Hcase as [(-> & a & i & vs & args & _ & _ & Hlen & b & -> & Hg & _)|(Hneg & -> & Hi & Hg & _)].
    + left. split_and!; [done|done|]. eexists. split; [exact Hg|]. simpl. rewrite length_app, Hlen. done.
    + right. split_and!; try done. by apply heap_grow_nil.
Qed.

(** ** A concrete Motr

    Indices as finite maps, with operations that never fail to be built. *)

Definition ent_bytes (e : bufent) : list Z := default [] e.2.

Definition map_indices : Type := m0_uint128 → option (gmap (list Z) (list Z)).

Definition upd_index (id : m0_uint128) (m : option (gmap (list Z) (list Z))) (s : map_indices) : map_indices :=
  λ id', if decide (id' = id) then m else s id'.

(** The order of keys, byte by byte, and the pairs from a key on. *)
Fixpoint bytes_le (a b : list Z) : bool :=
  match a, b with
  | [], _ => true
  | _, [] => false
  | x :: a, y :: b => (x <? y) || (x =? y) && bytes_le a b
  end.

Definition pair_le (x y : list Z * list Z) : Prop := bytes_le x.1 y.1 = true.
#[global] Instance pair_le_dec x y : Decision (pair_le x y).
Proof. unfold pair_le. apply _. Defined.

Definition pairs_from (start : list Z) (m : gmap (list Z) (list Z)) : list (list Z * list Z) :=
  merge_sort pair_le (filter (λ kv, bytes_le start kv.1 = true) (map_to_list m)).

Definition MAP_OVERWRITE : Z := 1.

Definition map_exec (req : m0_req) (s : map_indices) : map_indices * m0_reply :=
  let reply rcs vals := MkReply true rcs [] vals in
  match req with
  | EntityCreate id => (upd_index id (Some ∅) s, reply [] [])
  | EntityDelete id => (upd_index id None s, reply [] [])
  | IdxOp opcode id keys vals flag =>
      let ks := ent_bytes <$> keys in
      match s id with
      | None => (s, reply (const (- ENOENT) <$> ks) vals)
      | Some m =>
          match opcode with
          | M0_IC_PUT =>
              let kvs := zip ks (ent_bytes <$> vals) in
              if flag =? MAP_OVERWRITE then (upd_index id (Some (list_to_map kvs ∪ m)) s, reply (const 0 <$> ks) []) else
              (upd_index id (Some (put_new m kvs)) s,
              reply ((λ k, if decide (is_Some (m !! k)) then - EEXIST else 0) <$> ks) [])
          | M0_IC_DEL => (upd_index id (Some (foldr delete m ks)) s, reply (found_rc m <$> ks) [])
          | M0_IC_NEXT =>
              let l := take (length keys) (pairs_from (hd [] ks) m) in
              let pad := replicate (length keys - length l) ((0, None) : bufent) in
              (s, MkReply true ((const 0 <$> l) ++ replicate (length keys - length l) (- ENOENT))
                    ((ent <$> l.*1) ++ pad) ((ent <$> l.*2) ++ pad))
          | M0_IC_GET => (s, reply (found_rc m <$> ks) ((λ k, match m !! k with Some v => ent v | None => (0, None) end) <$> ks))
          end
      end
  end.

Lemma ent_bytes_ent (ks : list (list Z)) : ent_bytes <$> (ent <$> ks) = ks.
Proof. rewrite <- list_fmap_compose. apply list_fmap_id. Qed.

Lemma upd_index_spec id m s : upd_index id m s id = m ∧ ∀ id', id' ≠ id → upd_index id m s id' = s id'.
Proof. unfold upd_index. split; [by rewrite decide_True|]. intros id' ?. by rewrite decide_False. Qed.

Program Definition map_motr : MotrIndex := {|
  mindex := map_indices; index_at s id := s id; m0_req_rc _ _ := 0; m0_req_exec := map_exec;
  m0_bufvec_free bv h := h ← mio_mem_free (bv_buf bv) h; mio_mem_free (bv_count bv) h;
  M0_OIF_EXCLUDE_START_KEY := 2; sizeof_m0_idx := 128
|}.
Next Obligation.
  intros s id m kvs Hs _. simpl in Hs |- *. rewrite Hs, !ent_bytes_ent, zip_fst_snd. cbn.
  split_and!; [done|done|apply upd_index_spec..].
Qed.
Next Obligation. intros s id m ks vals Hs. simpl in Hs |- *. by rewrite Hs, !ent_bytes_ent. Qed.
Next Obligation.
  intros s id m ks Hs _. simpl in Hs |- *. rewrite Hs, !ent_bytes_ent. cbn.
  split_and!; [done|done|apply upd_index_spec..].
Qed.
Next Obligation. intros s id Hs. simpl. split; [done|apply upd_index_spec]. Qed.
Next Obligation. intros s id m Hs. simpl. split; [done|apply upd_index_spec]. Qed.
Next Obligation. done. Qed.

Definition ex_kvs_op : kvs_mop := MkOp 0 0 0 true true [] true.
Definition ex_kvs_id : mio_obj_id := MkObjId (replicate 15 0 ++ [9]).
Definition ex_kvs_heap (plan : list bool) : heap := MkHeap 1 ∅ plan.
Definition ex_fid_tinit (t c k : Z) : m0_fid := MkFid (t * 2 ^ 56 + c) k.

Lemma ex_kvs_heap_ok plan : heap_ok (ex_kvs_heap plan).
Proof. split; [done|]. intros b [x Hx]. discriminate Hx. Qed.

Lemma kvs_calls_refine_map_witness :
  let w := @MkKvsWorld map_motr (ex_kvs_heap []) (λ _, Some ∅) (MkReply true [] [] []) in
  ∃ w' lost, @run_calls false map_motr ex_fid_tinit ex_kvs_id ex_kvs_op
      [KPut [([1], [2; 3])]; KGet [[1]; [5]]; KPut [([1], [7])]; KDel [[1]]] w =
    Done ([MkResult 0 (Some CbComplete) [MkPair (Some [1]) 1 (Some [2; 3]) 2] [0];
           MkResult 0 (Some CbComplete) [MkPair (Some [1]) 1 (Some [2; 3]) 2; MkPair (Some [5]) 1 None 0] [0; - ENOENT];
           MkResult 0 (Some CbComplete) [MkPair (Some [1]) 1 (Some [7]) 1] [- EEXIST];
           MkResult 0 (Some CbComplete) [MkPair (Some [1]) 1 None 0] [0]], w') ∧
    heap_grow (kw_heap w) (kw_heap w') lost ∧ length lost = 21%nat.
Proof.
  intros w.
  destruct (@kvs_calls_refine_map false map_motr ex_fid_tinit ex_kvs_id ex_kvs_op
    [KPut [([1], [2; 3])]; KGet [[1]; [5]]; KPut [([1], [7])]; KDel [[1]]] w ∅) as (w' & lost & H1 & _ & _ & H2 & H3).
  - reflexivity.
  - reflexivity.
  - done.
  - apply ex_kvs_heap_ok.
  - reflexivity.
  - reflexivity.
  - repeat constructor; set_solver.
  - exists w', lost. split; [|by split]. rewrite H1. vm_compute. reflexivity.
Defined.

Lemma kvs_set_lifecycle_witness :
  let w := @MkKvsWorld map_motr (ex_kvs_heap []) (λ _, None) (MkReply true [] [] []) in
  ∃ w' lost, @set_lifecycle false map_motr ex_fid_tinit ex_kvs_id ex_kvs_op [KPut [([1], [2; 3])]; KDel [[4]]] w =
    Done (0, [MkResult 0 (Some CbComplete) [MkPair (Some [1]) 1 (Some [2; 3]) 2] [0];
              MkResult 0 (Some CbComplete) [MkPair (Some [4]) 1 None 0] [- ENOENT]], 0, w') ∧
    heap_grow (kw_heap w) (kw_heap w') lost ∧ length lost = 9%nat.
Proof.
  intros w.
  destruct (@kvs_set_lifecycle false map_motr ex_fid_tinit ex_kvs_id ex_kvs_op
    [KPut [([1], [2; 3])]; KDel [[4]]] w) as (w' & lost & H1 & _ & H2 & H3).
  - reflexivity.
  - reflexivity.
  - done.
  - apply ex_kvs_heap_ok.
  - reflexivity.
  - reflexivity.
  - repeat constructor; set_solver.
  - exists w', lost. split; [|by split]. rewrite H1. vm_compute. reflexivity.
Defined.

Lemma mio_motr_kvs_get_malloc_witness :
  let w := @MkKvsWorld map_motr (ex_kvs_heap [true; true; false]) (λ _, Some ∅) (MkReply true [] [] []) in
  heap_ok (kw_heap w) ∧
  @mio_motr_kvs_get false map_motr ex_fid_tinit ex_kvs_id [key_pair [1]] ex_kvs_op w = Fault UninitRead.
Proof.
  intros w. split; [apply ex_kvs_heap_ok|].
  pose proof (@mio_motr_kvs_get_malloc false map_motr ex_fid_tinit ex_kvs_id [key_pair [1]] ex_kvs_op w
    (ex_kvs_heap_ok _)) as Hw.
  assert (Hv : vectors_fail (h_plan (kw_heap w)) = true) by reflexivity. rewrite Hv in Hw. exact Hw.
Defined.
