(* ===== verification/Api.v ===== *)
(** * The API (src/mio.c, src/mio_internal.h)

    Every function of the API checks the MIO instance and its arguments, prepares
    the operation and calls the driver.  A driver is a table of functions over its
    own state [W]; a function of the API is an action on the state of the caller:
    the library's global variables, the object and the operation it passed.  The
    chain [a ? : b] of the code is the sequence [a ?: b] of actions. *)

From Stdlib Require Import String.
From stdpp Require Import sorting.
From S2P Require Import Prelude ObjId HintMap Mem Types DriverOp KvsDriver.
Open Scope Z_scope.

Section Api.
Context {M A P W : Type}.
Abbreviation mop := (mio_op M A P).

(** ** Drivers *)

(** What the functions of a driver do with an operation, and with an object too. *)
Definition op_fun : Type := mop → W → outcome (Z * mop * W).
Definition obj_fun : Type := mio_obj → mop → W → outcome (Z * mio_obj * mop * W).

(** struct mio_op_ops; a missing function is NULL. *)
Record mio_op_ops := MkOpOps {
  mopo_fini : option (mop → W → outcome (mop * W));
  mopo_set_cbs : bool
}.

(** struct mio_obj_ops. *)
Record mio_obj_ops := MkObjOps {
  moo_open : obj_fun;
  moo_close : option (mio_obj → W → outcome (mio_obj * W));
  moo_create : option mio_pool_id → obj_fun;
  moo_delete : option mio_obj_id → op_fun;
  moo_writev : list mio_iovec → obj_fun;
  moo_readv : list mio_iovec → obj_fun;
  moo_sync : obj_fun;
  moo_size : obj_fun;
  moo_pool_id : option (mio_obj → W → outcome (Z * mio_pool_id * W));
  moo_lock : option (mio_obj → W → outcome (Z * mio_obj * W));
  moo_unlock : option (mio_obj → W → outcome (Z * mio_obj * W))
}.

(** struct mio_kvs_ops. *)
Record mio_kvs_ops := MkKvsOps {
  mko_get : option (mio_obj_id → list mio_kv_pair → op_fun);
  mko_next : option (mio_obj_id → list mio_kv_pair → bool → op_fun);
  mko_put : option (mio_obj_id → list mio_kv_pair → op_fun);
  mko_del : option (option mio_obj_id → list mio_kv_pair → option mop → W → outcome (Z * option mop * W));
  mko_create_set : option (mio_obj_id → op_fun);
  mko_del_set : option (mio_obj_id → op_fun)
}.

(** Layers and extents of composite objects (src/mio.h). *)
Record mio_comp_obj_layer := MkLayer { mcol_priority : Z; mcol_oid : mio_obj_id }.
Record mio_obj_ext := MkExt { moe_off : Z; moe_size : Z }.

(** struct mio_comp_obj_ops.  The results of list_layers and get_extents are part
    of the driver's state. *)
Record mio_comp_obj_ops := MkCompOps {
  mcoo_create : obj_fun;
  mcoo_del : option (mio_obj_id → op_fun);
  mcoo_add_layers : list mio_comp_obj_layer → obj_fun;
  mcoo_del_layers : list mio_comp_obj_layer → obj_fun;
  mcoo_list_layers : obj_fun;
  mcoo_add_extents : option mio_obj_id → list mio_obj_ext → obj_fun;
  mcoo_del_extents : option mio_obj_id → list mio_obj_ext → obj_fun;
  mcoo_get_extents : option mio_obj_id → Z → Z → obj_fun
}.

(** struct mio_driver, without the operations on pools. *)
Record mio_driver := MkDriver {
  md_sys_ops : bool;                 (* not NULL *)
  md_op_ops : option mio_op_ops;
  md_obj_ops : option mio_obj_ops;
  md_kvs_ops : option mio_kvs_ops;
  md_comp_obj_ops : option mio_comp_obj_ops
}.

(** ** State *)

(** The pointer mio_instance, with the driver m_driver points to. *)
Inductive instance_ptr :=
| InstNull
| InstLive (m_driver : option mio_driver)
| InstFreed.

(** The global variables of mio.c, the clock, the coming results of malloc(), the
    records advertised (the newest first) and the state of the driver. *)
Record api := MkApi {
  mio_instance : instance_ptr;
  mio_obj_session_seqno : Z;
  mio_op_seqno : Z;
  ap_clock : Z;
  ap_plan : mplan;
  ap_telem : list (string * list Z);
  ap_drv : W
}.

(** An object and an operation as the application holds them: with the pointers
    mo_drv_obj_ops, mop_op_ops and mop_who. *)
Record app_obj := MkAppObj { ao_obj : mio_obj; mo_drv_obj_ops : option mio_obj_ops }.

Inductive op_who := WhoNone | WhoObj | WhoKvs (kid : mio_obj_id).
Record app_op := MkAppOp { ao_op : mop; mop_who : op_who; mop_op_ops : option mio_op_ops }.

(** The caller's state; a pointer that is NULL is [None]. *)
Record st := MkSt { st_api : api; st_obj : option app_obj; st_op : option app_op }.

Definition act : Type := st → outcome (Z * st).

Definition elvis (a b : act) : act := λ s, '(rc, s) ← a s; if rc =? 0 then b s else Done (rc, s).

Definition set_inst_ptr (i : instance_ptr) (a : api) : api :=
  MkApi i (mio_obj_session_seqno a) (mio_op_seqno a) (ap_clock a) (ap_plan a) (ap_telem a) (ap_drv a).
Definition set_drv (w : W) (a : api) : api :=
  MkApi (mio_instance a) (mio_obj_session_seqno a) (mio_op_seqno a) (ap_clock a) (ap_plan a) (ap_telem a) w.
Definition set_seqnos (obj_seqno op_seqno : Z) (a : api) : api :=
  MkApi (mio_instance a) obj_seqno op_seqno (ap_clock a) (ap_plan a) (ap_telem a) (ap_drv a).
Definition set_ap_plan (p : mplan) (a : api) : api :=
  MkApi (mio_instance a) (mio_obj_session_seqno a) (mio_op_seqno a) (ap_clock a) p (ap_telem a) (ap_drv a).

(** mio_telemetry_advertise_noprefix() and its variant for arrays. *)
Definition advertise (topic : string) (values : list Z) (a : api) : api :=
  MkApi (mio_instance a) (mio_obj_session_seqno a) (mio_op_seqno a) (ap_clock a) (ap_plan a)
    ((topic, values) :: ap_telem a) (ap_drv a).

(** ** The instance *)

Definition mio_instance_check (a : api) : outcome Z :=
  match mio_instance a with
  | InstNull => Done (- EINVAL)
  | InstFreed => Fault UseAfterFree
  | InstLive None => Done (- EINVAL)
  | InstLive (Some d) =>
      Done (if negb (md_sys_ops d) || bool_decide (md_op_ops d = None) then - EINVAL else 0)
  end.

(** The driver the live instance points to; the code dereferences
    mio_instance->m_driver without a check. *)
Definition the_driver (a : api) : outcome mio_driver :=
  match mio_instance a with
  | InstLive (Some d) => Done d
  | InstLive None | InstNull => Fault NullDeref
  | InstFreed => Fault UseAfterFree
  end.

(** A pointer that is dereferenced, and a function pointer that is called. *)
Definition deref {X} (p : option X) : outcome X :=
  match p with Some x => Done x | None => Fault NullDeref end.

(** ** Operations *)

(** An operation set to zero by mio_memset(). *)
Definition mop_zero : mop := MkOp 0 0 0 false false [] false.

Definition has_set_cbs (ops : option mio_op_ops) : bool :=
  match ops with Some o => mopo_set_cbs o | None => false end.

(** The fields of an operation that the API sets. *)
Definition mop_assign (seqno opcode : Z) (ops : option mio_op_ops) (op : mop) : mop :=
  MkOp seqno opcode (mop_rc op) (mop_cb_complete op) (mop_cb_failed op) (mop_drv_op_chain op) (has_set_cbs ops).

Definition set_op (op : option app_op) (s : st) : st := MkSt (st_api s) (st_obj s) op.
Definition set_obj (obj : option app_obj) (s : st) : st := MkSt (st_api s) obj (st_op s).
Definition set_api (a : api) (s : st) : st := MkSt a (st_obj s) (st_op s).

Definition mio_op_init : act := λ s,
  match st_op s with
  | None => Done (- EINVAL, s)
  | Some op =>
      rc ← mio_instance_check (st_api s);
      if negb (rc =? 0) then Done (- EIO, s) else
      d ← the_driver (st_api s);
      Done (0, set_op (Some (MkAppOp (mop_assign 0 0 (md_op_ops d) mop_zero) WhoNone (md_op_ops d))) s)
  end.

Definition mio_op_fini (s : st) : outcome st :=
  op ← match st_op s with Some op => Done op | None => Fault AssertFail end;
  ops ← match mop_op_ops op with Some ops => Done ops | None => Fault AssertFail end;
  '(m, w) ← match mopo_fini ops with
            | Some fini => fini (ao_op op) (ap_drv (st_api s))
            | None => Done (ao_op op, ap_drv (st_api s))
            end;
  Done (MkSt (advertise "mio-op-fini" [mop_seqno m] (set_drv w (st_api s))) (st_obj s)
          (Some (MkAppOp m (mop_who op) (mop_op_ops op)))).

(** [mio_op_alloc_init] returns the operation, or NULL; its memory is zeroed. *)
Definition mio_op_alloc_init (s : st) : outcome st :=
  rc ← mio_instance_check (st_api s);
  if negb (rc =? 0) then Done (set_op None s) else
  let '(ok, p) := plan_next (ap_plan (st_api s)) in
  let s := set_api (set_ap_plan p (st_api s)) s in
  if negb ok then Done (set_op None s) else
  '(_, s) ← mio_op_init (set_op (Some (MkAppOp mop_zero WhoNone None)) s);
  Done s.

Definition mio_op_callbacks_set (cb_complete cb_failed : bool) (s : st) : st :=
  match st_op s with
  | None => s
  | Some op =>
      let m := ao_op op in
      set_op (Some (MkAppOp (MkOp (mop_seqno m) (mop_opcode m) (mop_rc m) cb_complete cb_failed
                               (mop_drv_op_chain m) (mop_set_cbs m)) (mop_who op) (mop_op_ops op))) s
  end.

(** The assignments that mio_obj_op_init() and kvs_op_init() share: the opcode,
    the target, the driver's functions and the next sequence number. *)
Definition op_assign (opcode : Z) (who : op_who) (op : app_op) (s : st) : outcome (Z * st) :=
  d ← the_driver (st_api s);
  let seqno := mio_op_seqno (st_api s) in
  let m := mop_assign seqno opcode (md_op_ops d) (ao_op op) in
  Done (0, MkSt (set_seqnos (mio_obj_session_seqno (st_api s)) (u64 (seqno + 1)) (st_api s)) (st_obj s)
             (Some (MkAppOp m who (md_op_ops d)))).

(** [mio_obj_op_init]; [with_obj] is whether the object is passed or NULL. *)
Definition mio_obj_op_init (with_obj : bool) (opcode : Z) : act := λ s,
  match st_op s with
  | None => Done (- EINVAL, s)
  | Some op =>
      rc ← mio_instance_check (st_api s);
      if rc <? 0 then Done (rc, s) else
      let seqno := mio_op_seqno (st_api s) in
      '(_, s) ← op_assign opcode (if with_obj then WhoObj else WhoNone) op s;
      match st_obj s with
      | Some obj =>
          if with_obj then
            Done (0, set_api (advertise "mio-obj-op-init" [mo_sess_seqno (ao_obj obj); seqno; opcode] (st_api s)) s)
          else Done (0, s)
      | None => Done (0, s)
      end
  end.

(** ** Objects *)

Definition set_obj_id (id : mio_obj_id) (hints : mio_hint_map) (seqno : Z) (obj : mio_obj) : mio_obj :=
  MkObj id seqno hints (mo_attrs_updated obj) (mo_attrs obj) (mo_drv_obj obj).

Definition obj_init (oid : option mio_obj_id) : act := λ s,
  match oid, st_obj s with
  | Some oid, Some obj =>
      rc ← mio_instance_check (st_api s);
      if rc <? 0 then Done (rc, s) else
      d ← the_driver (st_api s);
      '(_, hints, p) ← mio_hint_map_init (mo_hints (ao_obj obj)) MIO_OBJ_HINT_NUM (ap_plan (st_api s));
      let seqno := mio_obj_session_seqno (st_api s) in
      let a := set_seqnos (u64 (seqno + 1)) (mio_op_seqno (st_api s)) (set_ap_plan p (st_api s)) in
      Done (0, MkSt (advertise "mio-obj-open" [seqno] a)
                 (Some (MkAppObj (set_obj_id oid hints seqno (ao_obj obj)) (md_obj_ops d))) (st_op s))
  | _, _ => Done (- EINVAL, s)
  end.

(** The call of a function of obj->mo_drv_obj_ops. *)
Definition drv_obj_call (f : mio_obj_ops → obj_fun) : act := λ s,
  obj ← deref (st_obj s);
  ops ← deref (mo_drv_obj_ops obj);
  op ← deref (st_op s);
  '(rc, o, m, w) ← f ops (ao_obj obj) (ao_op op) (ap_drv (st_api s));
  Done (rc, MkSt (set_drv w (st_api s)) (Some (MkAppObj o (mo_drv_obj_ops obj)))
              (Some (MkAppOp m (mop_who op) (mop_op_ops op)))).

(** The call of a function of a table of the instance's driver. *)
Definition drv_op_call (f : mio_driver → outcome op_fun) : act := λ s,
  d ← the_driver (st_api s);
  f ← f d;
  op ← deref (st_op s);
  '(rc, m, w) ← f (ao_op op) (ap_drv (st_api s));
  Done (rc, MkSt (set_drv w (st_api s)) (st_obj s) (Some (MkAppOp m (mop_who op) (mop_op_ops op)))).

Notation "a ?: b" := (elvis a b) (at level 60, right associativity).

Definition mio_obj_open (oid : option mio_obj_id) : act :=
  obj_init oid ?: mio_obj_op_init true MIO_OBJ_OPEN ?: drv_obj_call moo_open.

Definition mio_obj_close (s : st) : outcome st :=
  match st_obj s with
  | None => Done s
  | Some obj =>
      hints ← mio_hint_map_fini (mo_hints (ao_obj obj));
      let o := set_mo_hints hints (ao_obj obj) in
      ops ← deref (mo_drv_obj_ops obj);
      '(o, w) ← match moo_close ops with
                | Some close => close o (ap_drv (st_api s))
                | None => Done (o, ap_drv (st_api s))
                end;
      Done (MkSt (advertise "mio-obj-close" [mo_sess_seqno o] (set_drv w (st_api s)))
              (Some (MkAppObj o (mo_drv_obj_ops obj))) (st_op s))
  end.

(** [mio_obj_create] after the selection of the pool, [Pools.create_pool_id]. *)
Definition mio_obj_create (oid : option mio_obj_id) (selected_pool_id : option mio_pool_id) : act :=
  obj_init oid ?: mio_obj_op_init true MIO_OBJ_CREATE ?: drv_obj_call (λ ops, moo_create ops selected_pool_id).

Definition mio_obj_delete (oid : option mio_obj_id) : act :=
  mio_obj_op_init false MIO_OBJ_DELETE ?:
  drv_op_call (λ d, ops ← deref (md_obj_ops d); Done (moo_delete ops oid)).

(** One element of the vector. *)
Definition stats_add (is_write : bool) (now : Z) (st : mio_obj_stats) (iov : mio_iovec) : mio_obj_stats :=
  if is_write then
    MkStats (mos_rcount st) (mos_rbytes st) (mos_rtime st)
      (u64 (mos_wcount st + 1)) (u64 (mos_wbytes st + miov_len iov)) now
  else
    MkStats (u64 (mos_rcount st + 1)) (u64 (mos_rbytes st + miov_len iov)) now
      (mos_wcount st) (mos_wbytes st) (mos_wtime st).

(** [obj_stats_update]: [now] is mio_now(). *)
Definition obj_stats_update (is_write : bool) (now : Z) (iov : list mio_iovec) (obj : mio_obj) : mio_obj :=
  let attrs := mo_attrs obj in
  let stats := foldl (stats_add is_write now) (moa_stats attrs) iov in
  MkObj (mo_id obj) (mo_sess_seqno obj) (mo_hints obj) true
    (MkAttrs (moa_size attrs) stats (moa_phints attrs)) (mo_drv_obj obj).

(** The check of obj and op, the statistics where [f] updates them. *)
Definition with_obj_op (f : mio_obj → mio_obj) (a : act) : act := λ s,
  match st_obj s, st_op s with
  | Some obj, Some _ => a (set_obj (Some (MkAppObj (f (ao_obj obj)) (mo_drv_obj_ops obj))) s)
  | _, _ => Done (- EINVAL, s)
  end.

Definition mio_obj_writev (iov : list mio_iovec) : act := λ s,
  with_obj_op (obj_stats_update true (ap_clock (st_api s)) iov)
    (mio_obj_op_init true MIO_OBJ_WRITE ?: drv_obj_call (λ ops, moo_writev ops iov)) s.

Definition mio_obj_readv (iov : list mio_iovec) : act := λ s,
  with_obj_op (obj_stats_update false (ap_clock (st_api s)) iov)
    (mio_obj_op_init true MIO_OBJ_READ ?: drv_obj_call (λ ops, moo_readv ops iov)) s.

Definition mio_obj_sync : act :=
  with_obj_op id (mio_obj_op_init true MIO_OBJ_SYNC ?: drv_obj_call moo_sync).

Definition mio_obj_size : act :=
  with_obj_op id (mio_obj_op_init true MIO_OBJ_ATTRS_GET ?: drv_obj_call moo_size).

Definition obj_lock_check : act := λ s,
  rc ← mio_instance_check (st_api s);
  if rc <? 0 then Done (rc, s) else
  match st_obj s with
  | None => Done (- EINVAL, s)
  | Some obj =>
      ops ← deref (mo_drv_obj_ops obj);
      match moo_lock ops, moo_unlock ops with
      | Some _, Some _ => Done (0, s)
      | _, _ => Done (- EOPNOTSUPP, s)
      end
  end.

(** The call of a function that takes the object only. *)
Definition drv_lock_call (f : mio_obj_ops → option (mio_obj → W → outcome (Z * mio_obj * W))) : act := λ s,
  obj ← deref (st_obj s);
  ops ← deref (mo_drv_obj_ops obj);
  f ← deref (f ops);
  '(rc, o, w) ← f (ao_obj obj) (ap_drv (st_api s));
  Done (rc, MkSt (set_drv w (st_api s)) (Some (MkAppObj o (mo_drv_obj_ops obj))) (st_op s)).

Definition mio_obj_lock : act := obj_lock_check ?: drv_lock_call moo_lock.
Definition mio_obj_unlock : act := obj_lock_check ?: drv_lock_call moo_unlock.

(** [mio_obj_pool_id] checks nothing but the function. *)
Definition mio_obj_pool_id (s : st) : outcome (Z * option mio_pool_id * st) :=
  obj ← deref (st_obj s);
  ops ← deref (mo_drv_obj_ops obj);
  match moo_pool_id ops with
  | None => Done (- EOPNOTSUPP, None, s)
  | Some f =>
      '(rc, id, w) ← f (ao_obj obj) (ap_drv (st_api s));
      Done (rc, Some id, set_api (set_drv w (st_api s)) s)
  end.

(** ** Key-value sets *)

(** The functions of the table that kvs_driver_check() asks for: not mko_next. *)
Definition kvs_ops_complete (ops : mio_kvs_ops) : bool :=
  bool_decide (is_Some (mko_get ops)) && bool_decide (is_Some (mko_put ops)) &&
  bool_decide (is_Some (mko_del ops)) && bool_decide (is_Some (mko_create_set ops)) &&
  bool_decide (is_Some (mko_del_set ops)).

Definition kvs_driver_check (a : api) : outcome Z :=
  rc ← mio_instance_check a;
  if rc <? 0 then Done rc else
  d ← the_driver a;
  Done (match md_kvs_ops d with
        | Some ops => if kvs_ops_complete ops then 0 else - EOPNOTSUPP
        | None => - EOPNOTSUPP
        end).

Definition kvs_op_init (kid : option mio_obj_id) (opcode : Z) : act := λ s,
  rc ← kvs_driver_check (st_api s);
  if rc <? 0 then Done (rc, s) else
  match kid, st_op s with
  | Some kid, Some op =>
      rc ← mio_instance_check (st_api s);
      if rc <? 0 then Done (rc, s) else op_assign opcode (WhoKvs kid) op s
  | _, _ => Done (- EINVAL, s)
  end.

(** The call of a function of drv_kvs_ops. *)
Definition drv_kvs_call (kid : option mio_obj_id) (f : mio_kvs_ops → option (mio_obj_id → op_fun)) : act :=
  drv_op_call (λ d, ops ← deref (md_kvs_ops d); f ← deref (f ops); kid ← deref kid; Done (f kid)).

Definition mio_kvs_pair_get (kid : option mio_obj_id) (kvps : list mio_kv_pair) : act :=
  kvs_op_init kid MIO_KVS_GET ?:
  drv_kvs_call kid (λ ops, (λ f kid, f kid kvps) <$> mko_get ops).

Definition mio_kvs_pair_next (kid : option mio_obj_id) (kvps : list mio_kv_pair) (exclude_start_key : bool) : act :=
  kvs_op_init kid MIO_KVS_GET ?:
  drv_kvs_call kid (λ ops, (λ f kid, f kid kvps exclude_start_key) <$> mko_next ops).

Definition mio_kvs_pair_put (kid : option mio_obj_id) (kvps : list mio_kv_pair) : act :=
  kvs_op_init kid MIO_KVS_PUT ?:
  drv_kvs_call kid (λ ops, (λ f kid, f kid kvps) <$> mko_put ops).

(** The statement after kvs_op_init() is not part of the condition: the driver is
    called in any case, and its result is dropped. *)
Definition mio_kvs_pair_del (kid : option mio_obj_id) (kvps : list mio_kv_pair) : act := λ s,
  '(rc, s) ← kvs_op_init kid MIO_KVS_DEL s;
  d ← the_driver (st_api s);
  ops ← deref (md_kvs_ops d);
  f ← deref (mko_del ops);
  '(_, m, w) ← f kid kvps (ao_op <$> st_op s) (ap_drv (st_api s));
  Done (rc, MkSt (set_drv w (st_api s)) (st_obj s)
              (op ← st_op s; m ← m; Some (MkAppOp m (mop_who op) (mop_op_ops op)))).

Definition mio_kvs_create_set (kid : option mio_obj_id) : act :=
  kvs_op_init kid MIO_KVS_CREATE_SET ?: drv_kvs_call kid mko_create_set.

Definition mio_kvs_del_set (kid : option mio_obj_id) : act :=
  kvs_op_init kid MIO_KVS_DELETE_SET ?: drv_kvs_call kid mko_del_set.

(** ** Composite objects *)

(** The call of a function of drv_comp_obj_ops with the object. *)
Definition drv_comp_call (f : mio_comp_obj_ops → obj_fun) : act := λ s,
  d ← the_driver (st_api s);
  ops ← deref (md_comp_obj_ops d);
  obj ← deref (st_obj s);
  op ← deref (st_op s);
  '(rc, o, m, w) ← f ops (ao_obj obj) (ao_op op) (ap_drv (st_api s));
  Done (rc, MkSt (set_drv w (st_api s)) (Some (MkAppObj o (mo_drv_obj_ops obj)))
              (Some (MkAppOp m (mop_who op) (mop_op_ops op)))).

(** The functions on layers and extents: the object must not be NULL. *)
Definition comp_obj_op (opcode : Z) (f : mio_comp_obj_ops → obj_fun) : act := λ s,
  match st_obj s with
  | None => Done (- EINVAL, s)
  | Some _ => (mio_obj_op_init true opcode ?: drv_comp_call f) s
  end.

Definition mio_composite_obj_create (oid : option mio_obj_id) : act :=
  obj_init oid ?: mio_obj_op_init true MIO_COMP_OBJ_CREATE ?: drv_comp_call mcoo_create.

Definition mio_composite_obj_del (oid : option mio_obj_id) : act := λ s,
  match oid with
  | None => Done (- EINVAL, s)
  | Some oid =>
      (mio_obj_op_init false MIO_COMP_OBJ_DELETE ?:
       drv_op_call (λ d, ops ← deref (md_comp_obj_ops d); f ← deref (mcoo_del ops); Done (f oid))) s
  end.

Definition mio_composite_obj_add_layers (layers : list mio_comp_obj_layer) : act :=
  comp_obj_op MIO_COMP_OBJ_ADD_LAYERS (λ ops, mcoo_add_layers ops layers).
Definition mio_composite_obj_del_layers (layers_to_del : list mio_comp_obj_layer) : act :=
  comp_obj_op MIO_COMP_OBJ_DEL_LAYERS (λ ops, mcoo_del_layers ops layers_to_del).
Definition mio_composite_obj_list_layers : act :=
  comp_obj_op MIO_COMP_OBJ_LIST_LAYERS mcoo_list_layers.
Definition mio_composite_obj_add_extents (layer_id : option mio_obj_id) (exts : list mio_obj_ext) : act :=
  comp_obj_op MIO_COMP_OBJ_ADD_EXTENTS (λ ops, mcoo_add_extents ops layer_id exts).
Definition mio_composite_obj_del_extents (layer_id : option mio_obj_id) (exts : list mio_obj_ext) : act :=
  comp_obj_op MIO_COMP_OBJ_DEL_EXTENTS (λ ops, mcoo_del_extents ops layer_id exts).
Definition mio_composite_obj_get_extents (layer_id : option mio_obj_id) (offset nr_exts : Z) : act :=
  comp_obj_op MIO_COMP_OBJ_GET_EXTENTS (λ ops, mcoo_get_extents ops layer_id offset nr_exts).

(** ** All functions that start something *)

(** A call of the API with its arguments, the object and the operation aside. *)
Inductive api_call :=
| ObjOpen (oid : option mio_obj_id)
| ObjCreate (oid : option mio_obj_id) (pool : option mio_pool_id)
| ObjDelete (oid : option mio_obj_id)
| ObjWritev (iov : list mio_iovec)
| ObjReadv (iov : list mio_iovec)
| ObjSync
| ObjSize
| ObjLock
| ObjUnlock
| KvsPairGet (kid : option mio_obj_id) (kvps : list mio_kv_pair)
| KvsPairNext (kid : option mio_obj_id) (kvps : list mio_kv_pair) (exclude_start_key : bool)
| KvsPairPut (kid : option mio_obj_id) (kvps : list mio_kv_pair)
| KvsPairDel (kid : option mio_obj_id) (kvps : list mio_kv_pair)
| KvsCreateSet (kid : option mio_obj_id)
| KvsDelSet (kid : option mio_obj_id)
| CompCreate (oid : option mio_obj_id)
| CompDel (oid : option mio_obj_id)
| CompAddLayers (layers : list mio_comp_obj_layer)
| CompDelLayers (layers : list mio_comp_obj_layer)
| CompListLayers
| CompAddExtents (layer_id : option mio_obj_id) (exts : list mio_obj_ext)
| CompDelExtents (layer_id : option mio_obj_id) (exts : list mio_obj_ext)
| CompGetExtents (layer_id : option mio_obj_id) (offset nr_exts : Z).

Definition run_api (c : api_call) : act :=
  match c with
  | ObjOpen oid => mio_obj_open oid
  | ObjCreate oid pool => mio_obj_create oid pool
  | ObjDelete oid => mio_obj_delete oid
  | ObjWritev iov => mio_obj_writev iov
  | ObjReadv iov => mio_obj_readv iov
  | ObjSync => mio_obj_sync
  | ObjSize => mio_obj_size
  | ObjLock => mio_obj_lock
  | ObjUnlock => mio_obj_unlock
  | KvsPairGet kid kvps => mio_kvs_pair_get kid kvps
  | KvsPairNext kid kvps ex => mio_kvs_pair_next kid kvps ex
  | KvsPairPut kid kvps => mio_kvs_pair_put kid kvps
  | KvsPairDel kid kvps => mio_kvs_pair_del kid kvps
  | KvsCreateSet kid => mio_kvs_create_set kid
  | KvsDelSet kid => mio_kvs_del_set kid
  | CompCreate oid => mio_composite_obj_create oid
  | CompDel oid => mio_composite_obj_del oid
  | CompAddLayers layers => mio_composite_obj_add_layers layers
  | CompDelLayers layers => mio_composite_obj_del_layers layers
  | CompListLayers => mio_composite_obj_list_layers
  | CompAddExtents layer_id exts => mio_composite_obj_add_extents layer_id exts
  | CompDelExtents layer_id exts => mio_composite_obj_del_extents layer_id exts
  | CompGetExtents layer_id offset nr_exts => mio_composite_obj_get_extents layer_id offset nr_exts
  end.

(** ** Sequence numbers *)

(** The numbers of the records with a topic, at a position, the newest first. *)
Definition topic_seqnos (topic : string) (i : nat) (telem : list (string * list Z)) : list Z :=
  omap (λ e, if String.eqb e.1 topic then e.2 !! i else None) telem.

Definition op_seqnos (a : api) : list Z := topic_seqnos "mio-obj-op-init" 1 (ap_telem a).
Definition sess_seqnos (a : api) : list Z := topic_seqnos "mio-obj-open" 0 (ap_telem a).

(** The numbers are below [n] and get smaller with age: no two are the same. *)
Definition seqnos_below (n : Z) (l : list Z) : Prop := StronglySorted (λ x y, y < x) l ∧ Forall (λ x, 0 <= x < n) l.

Definition seqs_ok (a : api) : Prop :=
  0 <= mio_op_seqno a ∧ 0 <= mio_obj_session_seqno a ∧
  seqnos_below (mio_op_seqno a) (op_seqnos a) ∧ seqnos_below (mio_obj_session_seqno a) (sess_seqnos a).

(** At most [i] operations and [j] sessions later. *)
Definition seqs_adv (i j : Z) (a a' : api) : Prop :=
  mio_op_seqno a + i < 2 ^ 64 → mio_obj_session_seqno a + j < 2 ^ 64 → seqs_ok a →
  seqs_ok a' ∧ mio_op_seqno a <= mio_op_seqno a' <= mio_op_seqno a + i ∧
  mio_obj_session_seqno a <= mio_obj_session_seqno a' <= mio_obj_session_seqno a + j.

Definition act_adv (i j : Z) (f : act) : Prop :=
  ∀ s rc s', f s = Done (rc, s') → seqs_adv i j (st_api s) (st_api s').

Lemma seqnos_below_mono n n' l : n <= n' → seqnos_below n l → seqnos_below n' l.
Proof. intros Hle [Hs Hf]. split; [done|]. eapply Forall_impl; [exact Hf|]. simpl. lia. Qed.

Lemma seqnos_below_cons n l : 0 <= n → seqnos_below n l → seqnos_below (n + 1) (n :: l).
Proof.
  intros Hn [Hs Hf]. split.
  - constructor; [done|]. eapply Forall_impl; [exact Hf|]. simpl. lia.
  - constructor; [lia|]. eapply Forall_impl; [exact Hf|]. simpl. lia.
Qed.

Lemma seqs_adv_refl a a' :
  mio_op_seqno a' = mio_op_seqno a → mio_obj_session_seqno a' = mio_obj_session_seqno a →
  op_seqnos a' = op_seqnos a → sess_seqnos a' = sess_seqnos a → seqs_adv 0 0 a a'.
Proof.
  intros H1 H2 H3 H4 _ _ Hok. unfold seqs_ok. rewrite H1, H2, H3, H4. split; [exact Hok|lia].
Qed.

Lemma seqs_adv_weaken i j i' j' a a' : i <= i' → j <= j' → seqs_adv i j a a' → seqs_adv i' j' a a'.
Proof. intros Hi Hj Ha H1 H2 Hok. destruct (Ha ltac:(lia) ltac:(lia) Hok) as (? & ? & ?). split; [done|lia]. Qed.

Lemma act_adv_weaken i j i' j' f : act_adv i j f → i <= i' → j <= j' → act_adv i' j' f.
Proof. intros Hf Hi Hj s rc s' H. eapply seqs_adv_weaken; [..|by eapply Hf]; done. Qed.

Lemma seqs_adv_trans i j i' j' a a' a'' :
  0 <= i' → 0 <= j' → seqs_adv i j a a' → seqs_adv i' j' a' a'' → seqs_adv (i + i') (j + j') a a''.
Proof.
  intros Hi Hj H1 H2 Hb1 Hb2 Hok. destruct (H1 ltac:(lia) ltac:(lia) Hok) as (Hok' & ? & ?).
  destruct (H2 ltac:(lia) ltac:(lia) Hok') as (? & ? & ?). split; [done|lia].
Qed.

Lemma act_adv_elvis i j i' j' a b :
  0 <= i' → 0 <= j' → act_adv i j a → act_adv i' j' b → act_adv (i + i') (j + j') (a ?: b).
Proof.
  intros Hi Hj Ha Hb s rc s' H. unfold elvis in H.
  apply outcome_bind_Done in H as ([rc1 s1] & H1 & H). case_match.
  - eapply seqs_adv_trans; eauto.
  - injection H as <- <-. eapply seqs_adv_weaken; [..|eauto]; lia.
Qed.

Lemma mio_instance_check_Done a rc :
  mio_instance_check a = Done rc → rc = 0 ∧ (∃ d, the_driver a = Done d ∧ is_Some (md_op_ops d)) ∨ rc = - EINVAL.
Proof.
  unfold mio_instance_check, the_driver. destruct (mio_instance a) as [|[d|]|]; try done; intros [= <-]; [by right| |by right].
  destruct (md_sys_ops d); simpl; [|by right]. case_bool_decide as Hn; [by right|]. left. split; [done|].
  exists d. split; [done|]. destruct (md_op_ops d); [by eexists|done].
Qed.

(** An operation begins: the counter moves on and the number may be advertised. *)
Lemma seqs_adv_op a a' :
  mio_op_seqno a' = u64 (mio_op_seqno a + 1) → mio_obj_session_seqno a' = mio_obj_session_seqno a →
  sess_seqnos a' = sess_seqnos a → op_seqnos a' = op_seqnos a ∨ op_seqnos a' = mio_op_seqno a :: op_seqnos a →
  seqs_adv 1 0 a a'.
Proof.
  intros H1 H2 H3 H4 Hb _ (Hp & Hq & Ho & Hs). unfold seqs_ok. rewrite H1, H2, H3, u64_small by lia.
  split; [|lia]. split_and!; [lia|lia| |done].
  destruct H4 as [-> | ->]; [eapply seqnos_below_mono; [|exact Ho]; lia|by apply seqnos_below_cons].
Qed.

Lemma op_assign_Done opcode who op s rc s' :
  op_assign opcode who op s = Done (rc, s') →
  ∃ d, the_driver (st_api s) = Done d ∧ rc = 0 ∧
    s' = MkSt (set_seqnos (mio_obj_session_seqno (st_api s)) (u64 (mio_op_seqno (st_api s) + 1)) (st_api s)) (st_obj s)
           (Some (MkAppOp (mop_assign (mio_op_seqno (st_api s)) opcode (md_op_ops d) (ao_op op)) who (md_op_ops d))).
Proof.
  intros H. apply outcome_bind_Done in H as (d & Hd & H). exists d. by injection H as <- <-.
Qed.

Lemma act_adv_obj_op_init with_obj opcode : act_adv 1 0 (mio_obj_op_init with_obj opcode).
Proof.
  intros s rc s' H. unfold mio_obj_op_init in H. destruct (st_op s) as [op|].
  2:{ injection H as <- <-. eapply seqs_adv_weaken; [..|by apply seqs_adv_refl]; lia. }
  apply outcome_bind_Done in H as (rc1 & _ & H). destruct (rc1 <? 0).
  { injection H as <- <-. eapply seqs_adv_weaken; [..|by apply seqs_adv_refl]; lia. }
  apply outcome_bind_Done in H as ([rc2 s1] & (d & Hd & -> & ->)%op_assign_Done & H). cbn [st_obj st_api] in H.
  destruct (st_obj s); [destruct with_obj|]; injection H as <- <-; apply seqs_adv_op; try done; [by right|by left..].
Qed.

Lemma act_adv_kvs_op_init kid opcode : act_adv 1 0 (kvs_op_init kid opcode).
Proof.
  intros s rc s' H. unfold kvs_op_init in H.
  apply outcome_bind_Done in H as (rc1 & _ & H). destruct (rc1 <? 0).
  { injection H as <- <-. eapply seqs_adv_weaken; [..|by apply seqs_adv_refl]; lia. }
  assert (Hsame : Done (- EINVAL, s) = Done (rc, s') → seqs_adv 1 0 (st_api s) (st_api s')).
  { intros [= <- <-]. eapply seqs_adv_weaken; [..|by apply seqs_adv_refl]; lia. }
  destruct kid as [kid|], (st_op s) as [op|]; try by apply Hsame.
  apply outcome_bind_Done in H as (rc2 & _ & H). destruct (rc2 <? 0).
  { injection H as <- <-. eapply seqs_adv_weaken; [..|by apply seqs_adv_refl]; lia. }
  apply op_assign_Done in H as (d & Hd & -> & ->). apply seqs_adv_op; try done. by left.
Qed.

Lemma act_adv_obj_init oid : act_adv 0 1 (obj_init oid).
Proof.
  intros s rc s' H. unfold obj_init in H.
  assert (Hsame : ∀ x : Z, Done (x, s) = Done (rc, s') → seqs_adv 0 1 (st_api s) (st_api s')).
  { intros x [= <- <-]. eapply seqs_adv_weaken; [..|by apply seqs_adv_refl]; lia. }
  destruct oid as [oid|]; [|by eapply Hsame]. destruct (st_obj s) as [obj|]; [|by eapply Hsame].
  apply outcome_bind_Done in H as (rc1 & _ & H). destruct (rc1 <? 0); [by eapply Hsame|].
  apply outcome_bind_Done in H as (d & _ & H). apply outcome_bind_Done in H as ([[rc2 hints] p] & _ & H).
  injection H as <- <-. intros _ Hb (Hp & Hq & Ho & Hs). unfold seqs_ok, op_seqnos, sess_seqnos.
  cbn [st_api advertise set_seqnos set_ap_plan mio_op_seqno mio_obj_session_seqno ap_telem].
  rewrite u64_small by lia. split; [|lia]. split_and!; [lia|lia|done|]. by apply seqnos_below_cons.
Qed.

(** Actions that leave the counters and the records alone. *)
Lemma act_adv_drv_obj_call f : act_adv 0 0 (drv_obj_call f).
Proof. intros s rc s' H. unfold drv_obj_call in H. outcome_inv. by apply seqs_adv_refl. Qed.
Lemma act_adv_drv_op_call f : act_adv 0 0 (drv_op_call f).
Proof. intros s rc s' H. unfold drv_op_call in H. outcome_inv. by apply seqs_adv_refl. Qed.
Lemma act_adv_drv_kvs_call kid f : act_adv 0 0 (drv_kvs_call kid f).
Proof. apply act_adv_drv_op_call. Qed.
Lemma act_adv_drv_comp_call f : act_adv 0 0 (drv_comp_call f).
Proof. intros s rc s' H. unfold drv_comp_call in H. outcome_inv. by apply seqs_adv_refl. Qed.
Lemma act_adv_drv_lock_call f : act_adv 0 0 (drv_lock_call f).
Proof. intros s rc s' H. unfold drv_lock_call in H. outcome_inv. by apply seqs_adv_refl. Qed.
Lemma act_adv_lock_check : act_adv 0 0 obj_lock_check.
Proof.
  intros s rc s' H. unfold obj_lock_check in H. outcome_inv.
  repeat case_match; outcome_inv; repeat case_match; outcome_inv; by apply seqs_adv_refl.
Qed.

Lemma act_adv_with_obj_op i j f a : 0 <= i → 0 <= j → act_adv i j a → act_adv i j (with_obj_op f a).
Proof.
  intros Hi Hj Ha s rc s' H. unfold with_obj_op in H.
  assert (Hsame : Done (- EINVAL, s) = Done (rc, s') → seqs_adv i j (st_api s) (st_api s')).
  { intros [= <- <-]. eapply seqs_adv_weaken; [..|by apply seqs_adv_refl]; lia. }
  destruct (st_obj s), (st_op s); try by apply Hsame. by apply Ha in H.
Qed.

Lemma act_adv_comp_obj_op opcode f : act_adv 1 0 (comp_obj_op opcode f).
Proof.
  intros s rc s' H. unfold comp_obj_op in H. destruct (st_obj s).
  - eapply (act_adv_elvis 1 0 0 0); [done|done|apply act_adv_obj_op_init|apply act_adv_drv_comp_call|exact H].
  - injection H as <- <-. eapply seqs_adv_weaken; [..|by apply seqs_adv_refl]; lia.
Qed.

#[local] Hint Resolve act_adv_obj_op_init act_adv_kvs_op_init act_adv_obj_init act_adv_drv_obj_call
  act_adv_drv_op_call act_adv_drv_kvs_call act_adv_drv_comp_call act_adv_drv_lock_call act_adv_lock_check : core.

(** Every function of the API takes at most one number of each kind. *)
Lemma act_adv_run_api c : act_adv 1 1 (run_api c).
Proof.
  assert (H10 : ∀ f, act_adv 1 0 f → act_adv 1 1 f) by (intros f Hf; by eapply act_adv_weaken).
  assert (Hio : ∀ f opcode g, act_adv 1 1 (with_obj_op f (mio_obj_op_init true opcode ?: drv_obj_call g))).
  { intros f opcode g. apply act_adv_with_obj_op; [done..|]. apply H10. by apply (act_adv_elvis 1 0 0 0). }
  destruct c; simpl;
    try by (apply (act_adv_elvis 0 1 1 0); [done..|]; by apply (act_adv_elvis 1 0 0 0)).
  all: try by (apply H10; by apply (act_adv_elvis 1 0 0 0)).
  all: try by (apply H10, act_adv_comp_obj_op).
  - intros s rc s' H. by eapply Hio.
  - intros s rc s' H. by eapply Hio.
  - by eapply Hio.
  - by eapply Hio.
  - eapply act_adv_weaken; [by apply (act_adv_elvis 0 0 0 0)|done..].
  - eapply act_adv_weaken; [by apply (act_adv_elvis 0 0 0 0)|done..].
  - apply H10. intros s rc s' H. unfold mio_kvs_pair_del in H.
    apply outcome_bind_Done in H as ([rc1 s1] & H1 & H). apply act_adv_kvs_op_init in H1.
    apply outcome_bind_Done in H as (d & _ & H). apply outcome_bind_Done in H as (ops & _ & H).
    apply outcome_bind_Done in H as (f & _ & H). apply outcome_bind_Done in H as ([[rc2 m] w] & _ & H).
    injection H as <- <-. exact H1.
  - intros s rc s' H. unfold mio_composite_obj_del in H. destruct oid.
    + apply (H10 _ (act_adv_elvis 1 0 0 0 _ _ ltac:(done) ltac:(done) (act_adv_obj_op_init _ _) (act_adv_drv_op_call _)) _ _ _ H).
    + injection H as <- <-. eapply seqs_adv_weaken; [..|by apply seqs_adv_refl]; lia.
Qed.

(** One event: a call of the API by some thread with its object and operation, or
    anything that changes the clock, the driver or malloc()'s state. *)
Inductive api_step : api → api → Prop :=
| StepCall c s rc s' : run_api c s = Done (rc, s') → api_step (st_api s) (st_api s')
| StepOpInit s rc s' : mio_op_init s = Done (rc, s') → api_step (st_api s) (st_api s')
| StepOpAlloc s s' : mio_op_alloc_init s = Done s' → api_step (st_api s) (st_api s')
| StepOpFini s s' : mio_op_fini s = Done s' → api_step (st_api s) (st_api s')
| StepClose s s' : mio_obj_close s = Done s' → api_step (st_api s) (st_api s')
| StepPoolId s rc id s' : mio_obj_pool_id s = Done (rc, id, s') → api_step (st_api s) (st_api s')
| StepOther inst clock p w a :
    api_step a (MkApi inst (mio_obj_session_seqno a) (mio_op_seqno a) clock p (ap_telem a) w).

Lemma mio_op_init_api s rc s' : mio_op_init s = Done (rc, s') → st_api s' = st_api s.
Proof.
  unfold mio_op_init. destruct (st_op s); [|by intros [= <- <-]]. intros H.
  apply outcome_bind_Done in H as (rc1 & _ & H). destruct (rc1 =? 0); simpl in H; [|by injection H as <- <-].
  apply outcome_bind_Done in H as (d & _ & H). by injection H as <- <-.
Qed.

Lemma api_step_adv a a' : api_step a a' → seqs_adv 1 1 a a'.
Proof.
  assert (Hsame : ∀ a a', mio_op_seqno a' = mio_op_seqno a → mio_obj_session_seqno a' = mio_obj_session_seqno a →
    op_seqnos a' = op_seqnos a → sess_seqnos a' = sess_seqnos a → seqs_adv 1 1 a a').
  { intros. eapply seqs_adv_weaken; [..|by apply seqs_adv_refl]; lia. }
  destruct 1 as [c s rc s' H|s rc s' H|s s' H|s s' H|s s' H|s rc id s' H|].
  - by apply act_adv_run_api in H.
  - apply mio_op_init_api in H. apply Hsame; by rewrite H.
  - unfold mio_op_alloc_init in H. apply outcome_bind_Done in H as (rc & _ & H).
    destruct (rc =? 0); simpl in H; [|by injection H as <-; apply Hsame].
    destruct (plan_next _) as [[] p]; simpl in H; [|by injection H as <-; apply Hsame].
    apply outcome_bind_Done in H as ([rc1 s1] & H1 & H). injection H as <-. apply mio_op_init_api in H1.
    apply Hsame; by rewrite H1.
  - unfold mio_op_fini in H. apply outcome_bind_Done in H as (op & _ & H). apply outcome_bind_Done in H as (ops & _ & H).
    apply outcome_bind_Done in H as ([m w] & _ & H). injection H as <-. by apply Hsame.
  - unfold mio_obj_close in H. destruct (st_obj s); [|by injection H as <-; apply Hsame].
    apply outcome_bind_Done in H as (hints & _ & H). apply outcome_bind_Done in H as (ops & _ & H).
    apply outcome_bind_Done in H as ([o w] & _ & H). injection H as <-. by apply Hsame.
  - unfold mio_obj_pool_id in H. apply outcome_bind_Done in H as (obj & _ & H).
    apply outcome_bind_Done in H as (ops & _ & H). destruct (moo_pool_id ops).
    + apply outcome_bind_Done in H as ([[rc1 id1] w] & _ & H). injection H as <- <- <-. by apply Hsame.
    + injection H as <- <- <-. by apply Hsame.
  - by apply Hsame.
Qed.

Lemma api_nsteps_adv n a a' : nsteps api_step n a a' → seqs_adv (Z.of_nat n) (Z.of_nat n) a a'.
Proof.
  induction 1 as [a|n a a1 a' H1 _ IH]; [by apply seqs_adv_refl|].
  rewrite Nat2Z.inj_succ, <- Z.add_1_l. eapply seqs_adv_trans; [lia..| |exact IH]. by apply api_step_adv.
Qed.

Lemma seqnos_below_NoDup n l : seqnos_below n l → NoDup l.
Proof.
  intros [Hs _]. induction Hs as [|x l Hs IH Hf]; constructor; [|done].
  intros Hin. rewrite Forall_forall in Hf. apply Hf in Hin. lia.
Qed.


(** ** Without an instance *)

(** What a call does to the object before the operation is prepared. *)
Definition early_effect (c : api_call) (s : st) : st :=
  match c, st_obj s, st_op s with
  | ObjWritev iov, Some obj, Some _ =>
      set_obj (Some (MkAppObj (obj_stats_update true (ap_clock (st_api s)) iov (ao_obj obj)) (mo_drv_obj_ops obj))) s
  | ObjReadv iov, Some obj, Some _ =>
      set_obj (Some (MkAppObj (obj_stats_update false (ap_clock (st_api s)) iov (ao_obj obj)) (mo_drv_obj_ops obj))) s
  | _, _, _ => s
  end.

Lemma set_obj_same s obj : st_obj s = Some obj → set_obj (Some (MkAppObj (ao_obj obj) (mo_drv_obj_ops obj))) s = s.
Proof. destruct s as [a o op]. simpl. intros ->. by destruct obj. Qed.


(** ** Reads and writes *)

Definition fits64 (x : Z) : Prop := 0 <= x < 2 ^ 64.

Definition stats_in_range (x : mio_obj_stats) : Prop :=
  fits64 (mos_rcount x) ∧ fits64 (mos_rbytes x) ∧ fits64 (mos_wcount x) ∧ fits64 (mos_wbytes x).

(** The statistics after [n] elements with [len] bytes. *)
Definition stats_after (is_write : bool) (now n len : Z) (x : mio_obj_stats) : mio_obj_stats :=
  let time old := if n =? 0 then old else now in
  if is_write then
    MkStats (mos_rcount x) (mos_rbytes x) (mos_rtime x)
      (u64 (mos_wcount x + n)) (u64 (mos_wbytes x + len)) (time (mos_wtime x))
  else
    MkStats (u64 (mos_rcount x + n)) (u64 (mos_rbytes x + len)) (time (mos_rtime x))
      (mos_wcount x) (mos_wbytes x) (mos_wtime x).

Definition iov_total (iov : list mio_iovec) : Z := foldr (λ v n, miov_len v + n) 0 iov.

Lemma u64_add_l x y : u64 (u64 x + y) = u64 (x + y).
Proof. unfold u64. apply Zplus_mod_idemp_l. Qed.

Lemma stats_add_after is_write now iov x :
  stats_in_range x →
  foldl (stats_add is_write now) x iov = stats_after is_write now (Z.of_nat (length iov)) (iov_total iov) x.
Proof.
  revert x. induction iov as [|v iov IH]; intros x (H1 & H2 & H3 & H4).
  - unfold stats_after. simpl. rewrite !Z.add_0_r. destruct x; simpl in *.
    by destruct is_write; rewrite !u64_small by (unfold fits64 in *; lia).
  - simpl foldl. rewrite IH.
    + unfold stats_after, stats_add. rewrite !(proj2 (Z.eqb_neq (Z.of_nat (length (v :: iov))) 0)) by (simpl; lia).
      simpl iov_total. destruct is_write; cbn [mos_rcount mos_rbytes mos_rtime mos_wcount mos_wbytes mos_wtime];
        rewrite !u64_add_l; f_equal; first [done|by destruct (Z.of_nat (length iov) =? 0)|f_equal; simpl length; lia].
    + unfold stats_in_range, stats_add, fits64 in *. destruct is_write; split_and!; try apply u64_range; simpl; lia.
Qed.

Definition live (d : mio_driver) (ops : mio_op_ops) (a : api) : Prop :=
  mio_instance a = InstLive (Some d) ∧ md_sys_ops d = true ∧ md_op_ops d = Some ops.

Lemma live_check d ops a : live d ops a → mio_instance_check a = Done 0 ∧ the_driver a = Done d.
Proof.
  intros (H1 & H2 & H3). unfold mio_instance_check, the_driver. rewrite H1, H2, H3. by rewrite bool_decide_false.
Qed.

Lemma obj_op_init_live d oo s obj op opcode (k : act) :
  live d oo (st_api s) → st_obj s = Some obj → st_op s = Some op →
  (mio_obj_op_init true opcode ?: k) s =
    let seqno := mio_op_seqno (st_api s) in
    k (MkSt (advertise "mio-obj-op-init" [mo_sess_seqno (ao_obj obj); seqno; opcode]
               (set_seqnos (mio_obj_session_seqno (st_api s)) (u64 (seqno + 1)) (st_api s)))
         (Some obj) (Some (MkAppOp (mop_assign seqno opcode (Some oo) (ao_op op)) WhoObj (Some oo)))).
Proof.
  intros Hl Ho Hp. pose proof Hl as (_ & _ & Hoo). apply live_check in Hl as [Hc Hd].
  unfold elvis, mio_obj_op_init, op_assign. rewrite Hp, Hc. cbn [mbind outcome_bind Z.ltb Z.compare].
  rewrite Hd. cbn [mbind outcome_bind st_obj]. rewrite Ho. cbn [mbind outcome_bind Z.eqb]. by rewrite Hoo.
Qed.

(** (C21) Reading and writing.  With an instance, an open object and an operation
    the driver's function gets the caller's vector, the operation with the next
    sequence number, its opcode and the driver's functions, and the object with its
    statistics brought up to date: one access per element, the sum of the lengths,
    the time, all modulo 2^64; what the driver returns is returned.  When the
    object or the operation is missing, -EINVAL is returned and nothing changes. *)
Theorem mio_obj_io_correct (is_write : bool) (d : mio_driver) (oo : mio_op_ops) (ops : mio_obj_ops)
    (iov : list mio_iovec) (s : st)
  (Hlive : live d oo (st_api s))
  (Hobj : ∀ obj, st_obj s = Some obj →
     mo_drv_obj_ops obj = Some ops ∧ stats_in_range (moa_stats (mo_attrs (ao_obj obj)))) :
  (if is_write then mio_obj_writev iov else mio_obj_readv iov) s =
  match st_obj s, st_op s with
  | Some obj, Some op =>
      let a := st_api s in let o := ao_obj obj in
      let opcode := if is_write then MIO_OBJ_WRITE else MIO_OBJ_READ in
      let attrs := MkAttrs (moa_size (mo_attrs o))
        (stats_after is_write (ap_clock a) (Z.of_nat (length iov)) (iov_total iov) (moa_stats (mo_attrs o)))
        (moa_phints (mo_attrs o)) in
      '(rc, o', m, w) ← (if is_write then moo_writev ops iov else moo_readv ops iov)
        (MkObj (mo_id o) (mo_sess_seqno o) (mo_hints o) true attrs (mo_drv_obj o))
        (mop_assign (mio_op_seqno a) opcode (Some oo) (ao_op op)) (ap_drv a);
      Done (rc, MkSt (set_drv w (advertise "mio-obj-op-init" [mo_sess_seqno o; mio_op_seqno a; opcode]
                        (set_seqnos (mio_obj_session_seqno a) (u64 (mio_op_seqno a + 1)) a)))
                  (Some (MkAppObj o' (Some ops))) (Some (MkAppOp m WhoObj (Some oo))))
  | _, _ => Done (- EINVAL, s)
  end.
Proof.
  destruct is_write; unfold mio_obj_writev, mio_obj_readv, with_obj_op;
    (destruct (st_obj s) as [obj|] eqn:Eo; [|done]; destruct (st_op s) as [op|] eqn:Ep; [|done];
     destruct (Hobj obj eq_refl) as [Hops Hst];
     erewrite obj_op_init_live by (done || exact Hlive);
     unfold drv_obj_call; cbn [st_obj st_op st_api deref mbind outcome_bind ao_obj ao_op mo_drv_obj_ops];
     rewrite Hops; cbn [deref mbind outcome_bind];
     unfold obj_stats_update; rewrite stats_add_after by done; reflexivity).
Qed.

(** ** Deleting pairs *)

(** Deleting pairs through the API.  With a live instance and a driver that
    has all functions on key-value sets, mio_kvs_pair_del() calls the driver even
    when the set or the operation is NULL and it returns -EINVAL; with both it
    returns 0 whatever the driver returns.  All other functions on pairs return
    -EINVAL without calling the driver, and otherwise the driver's result. *)
Theorem mio_kvs_pair_del_ignores (d : mio_driver) (oo : mio_op_ops) (ops : mio_kvs_ops)
    (del : option mio_obj_id → list mio_kv_pair → option mop → W → outcome (Z * option mop * W))
    (kid : option mio_obj_id) (kvps : list mio_kv_pair) (s : st)
  (Hlive : live d oo (st_api s)) (Hops : md_kvs_ops d = Some ops) (Hall : kvs_ops_complete ops = true)
  (Hdel : mko_del ops = Some del) :
  let a := st_api s in
  match kid, st_op s with
  | Some id, Some op =>
      let begun opcode := mop_assign (mio_op_seqno a) opcode (Some oo) (ao_op op) in
      let a' := set_seqnos (mio_obj_session_seqno a) (u64 (mio_op_seqno a + 1)) a in
      let result rc m w := Done (rc, MkSt (set_drv w a') (st_obj s)
                                       ((λ m, MkAppOp m (WhoKvs id) (Some oo)) <$> m)) in
      mio_kvs_pair_del kid kvps s =
        ('(_, m, w) ← del kid kvps (Some (begun MIO_KVS_DEL)) (ap_drv a); result 0 m w) ∧
      ∀ put, mko_put ops = Some put →
        mio_kvs_pair_put kid kvps s =
          ('(rc, m, w) ← put id kvps (begun MIO_KVS_PUT) (ap_drv a); result rc (Some m) w)
  | _, _ =>
      mio_kvs_pair_del kid kvps s =
        ('(_, m, w) ← del kid kvps (ao_op <$> st_op s) (ap_drv a);
         Done (- EINVAL, MkSt (set_drv w a) (st_obj s)
                           (op ← st_op s; m ← m; Some (MkAppOp m (mop_who op) (mop_op_ops op))))) ∧
      mio_kvs_pair_put kid kvps s = Done (- EINVAL, s)
  end.
Proof.
  intros a. pose proof Hlive as (_ & _ & Hoo). apply live_check in Hlive as [Hc Hd]. fold a in Hc, Hd.
  assert (Hinit : ∀ opcode, kvs_op_init kid opcode s =
    match kid, st_op s with
    | Some id, Some op =>
        Done (0, MkSt (set_seqnos (mio_obj_session_seqno a) (u64 (mio_op_seqno a + 1)) a) (st_obj s)
          (Some (MkAppOp (mop_assign (mio_op_seqno a) opcode (Some oo) (ao_op op)) (WhoKvs id) (Some oo))))
    | _, _ => Done (- EINVAL, s)
    end).
  { intros opcode. unfold kvs_op_init, kvs_driver_check. fold a. rewrite Hc. cbn [mbind outcome_bind Z.ltb Z.compare].
    rewrite Hd. cbn [mbind outcome_bind]. rewrite Hops, Hall. cbn [mbind outcome_bind Z.ltb Z.compare].
    destruct kid, (st_op s); try done. unfold op_assign. fold a. rewrite Hd. cbn [mbind outcome_bind]. by rewrite Hoo. }
  assert (Hd' : ∀ x y, the_driver (set_seqnos x y a) = Done d) by done.
  unfold mio_kvs_pair_del, mio_kvs_pair_put, elvis. rewrite !Hinit.
  destruct kid as [id|], (st_op s) as [op|] eqn:Ep; cbn [mbind outcome_bind].
  - split.
    + cbn [st_api]. rewrite Hd'. cbn [mbind outcome_bind]. rewrite Hops. cbn [deref mbind outcome_bind].
      rewrite Hdel. cbn [deref mbind outcome_bind st_op fmap option_fmap option_map ao_op st_api].
      destruct (del _ _ _ _) as [[[rc m] w]|]; [|done]. cbn [mbind outcome_bind]. by destruct m.
    + intros put Hput. cbn [Z.eqb]. unfold drv_kvs_call, drv_op_call. cbn [st_api]. rewrite Hd'.
      cbn [mbind outcome_bind]. rewrite Hops. cbn [deref mbind outcome_bind]. rewrite Hput. done.
  - split; [|done]. fold a. rewrite Hd. cbn [mbind outcome_bind]. rewrite Hops. cbn [deref mbind outcome_bind].
    rewrite Hdel. cbn [deref mbind outcome_bind]. by rewrite Ep.
  - split; [|done]. fold a. rewrite Hd. cbn [mbind outcome_bind]. rewrite Hops. cbn [deref mbind outcome_bind].
    rewrite Hdel. cbn [deref mbind outcome_bind]. by rewrite Ep.
  - split; [|done]. fold a. rewrite Hd. cbn [mbind outcome_bind]. rewrite Hops. cbn [deref mbind outcome_bind].
    rewrite Hdel. cbn [deref mbind outcome_bind]. by rewrite Ep.
Qed.

End Api.

(** ** Witnesses: a driver that counts its calls *)
Definition ex_obj_fun : @obj_fun Empty_set Empty_set Empty_set Z := λ o m w, Done (7, o, m, w + 1).
Definition ex_op_fun : @op_fun Empty_set Empty_set Empty_set Z := λ m w, Done (7, m, w + 1).
Definition ex_obj_ops : @mio_obj_ops Empty_set Empty_set Empty_set Z :=
  MkObjOps ex_obj_fun None (λ _, ex_obj_fun) (λ _, ex_op_fun) (λ _, ex_obj_fun) (λ _, ex_obj_fun)
    ex_obj_fun ex_obj_fun None None None.
Definition ex_kvs_ops : @mio_kvs_ops Empty_set Empty_set Empty_set Z :=
  MkKvsOps (Some (λ _ _, ex_op_fun)) None (Some (λ _ _, ex_op_fun)) (Some (λ _ _ m w, Done (-5, m, w + 1)))
    (Some (λ _, ex_op_fun)) (Some (λ _, ex_op_fun)).
Definition ex_op_ops : @mio_op_ops Empty_set Empty_set Empty_set Z := MkOpOps None true.
Definition ex_driver : @mio_driver Empty_set Empty_set Empty_set Z :=
  MkDriver true (Some ex_op_ops) (Some ex_obj_ops) (Some ex_kvs_ops) None.
Definition ex_api : @api Empty_set Empty_set Empty_set Z := MkApi (InstLive (Some ex_driver)) 0 0 1000 [] [] 0.
Definition ex_app_obj : @app_obj Empty_set Empty_set Empty_set Z :=
  MkAppObj (MkObj (MkObjId []) 4 hint_map_zero false attrs_zero None) (Some ex_obj_ops).
Definition ex_app_op : @app_op Empty_set Empty_set Empty_set Z := MkAppOp mop_zero WhoNone None.
Definition ex_kid : mio_obj_id := MkObjId (replicate 16 0).



Lemma mio_obj_io_correct_witness :
  live ex_driver ex_op_ops ex_api ∧
  ∃ s', mio_obj_writev [MkIov NULL 0 100; MkIov NULL 100 28] (MkSt ex_api (Some ex_app_obj) (Some ex_app_op)) = Done (7, s') ∧
    ap_drv (st_api s') = 1 ∧
    (λ o, moa_stats (mo_attrs (ao_obj o))) <$> st_obj s' = Some (MkStats 0 0 0 2 128 1000).
Proof.
  split; [by split|].
  pose proof (mio_obj_io_correct true ex_driver ex_op_ops ex_obj_ops [MkIov NULL 0 100; MkIov NULL 100 28]
    (MkSt ex_api (Some ex_app_obj) (Some ex_app_op))) as H.
  eexists. split; [|split].
  - rewrite H; [reflexivity|by split|]. intros obj [= <-]. by split.
  - reflexivity.
  - reflexivity.
Defined.

Lemma mio_kvs_pair_del_ignores_witness :
  (∃ s', mio_kvs_pair_del (Some ex_kid) [] (MkSt ex_api None (Some ex_app_op)) = Done (0, s') ∧ ap_drv (st_api s') = 1) ∧
  ∃ s', mio_kvs_pair_del None [] (MkSt ex_api None (Some ex_app_op)) = Done (- EINVAL, s') ∧ ap_drv (st_api s') = 1.
Proof.
  split.
  - destruct (mio_kvs_pair_del_ignores ex_driver ex_op_ops ex_kvs_ops _ (Some ex_kid) []
      (MkSt ex_api None (Some ex_app_op)) ltac:(by split) eq_refl eq_refl eq_refl) as [H _].
    eexists. split; [rewrite H; reflexivity|reflexivity].
  - destruct (mio_kvs_pair_del_ignores ex_driver ex_op_ops ex_kvs_ops _ None []
      (MkSt ex_api None (Some ex_app_op)) ltac:(by split) eq_refl eq_refl eq_refl) as [H _].
    eexists. split; [rewrite H; reflexivity|reflexivity].
Defined.
