(* ===== verification/KvsApi.v ===== *)
(** * Key-value sets through the API (src/mio.c over src/driver_motr_kvs.c)

    The API of [Api] with the functions of the Motr driver of [KvsDriver] as its
    driver: an application prepares an operation, sets its callbacks and calls
    the API; Motr completes the operation and calls back; the application
    finalises it. *)

From Stdlib Require Import String.
From S2P Require Import Prelude Bytes ObjId Mem Types DriverOp KvsDriver Api.
Open Scope Z_scope.

(** ** The driver *)
Section Stack.
Context `{HostOrder} `{MotrIndex} (fid_tinit : Z → Z → Z → m0_fid).

Abbreviation kvs_state := (@st m0_req Empty_set kvs_pp kvs_world).
Abbreviation kvs_act := (@act m0_req Empty_set kvs_pp kvs_world).
Abbreviation kvs_op_table := (@mio_op_ops m0_req Empty_set kvs_pp kvs_world).
Abbreviation kvs_driver := (@mio_driver m0_req Empty_set kvs_pp kvs_world).
Abbreviation kvs_table := (@mio_kvs_ops m0_req Empty_set kvs_pp kvs_world).

(** [mio_motr_kvs_del] as the API calls it, with a set or an operation that may be
    NULL: the id is read, and mio_driver_op_add() asserts that there is an
    operation. *)
Definition motr_kvs_del_ptr (kid : option mio_obj_id) (kvps : list mio_kv_pair) (op : option kvs_mop)
    (w : kvs_world) : outcome (Z * option kvs_mop * kvs_world) :=
  kid ← deref kid;
  op ← match op with Some op => Done op | None => Fault AssertFail end;
  '(rc, op, w) ← mio_motr_kvs_del fid_tinit kid kvps op w;
  Done (rc, Some op, w).

(** The table mio_motr_kvs_ops, and the functions on operations that key-value
    sets need. *)
Definition mio_motr_kvs_ops : kvs_table := {|
  mko_get := Some (mio_motr_kvs_get fid_tinit);
  mko_next := Some (mio_motr_kvs_next fid_tinit);
  mko_put := Some (mio_motr_kvs_put fid_tinit);
  mko_del := Some motr_kvs_del_ptr;
  mko_create_set := Some (mio_motr_kvs_create_set fid_tinit);
  mko_del_set := Some (mio_motr_kvs_del_set fid_tinit)
|}.

Definition motr_kvs_op_ops : kvs_op_table := {|
  mopo_fini := Some (λ op w, '(op, h) ← mio_motr_op_fini no_op_args op (kw_heap w); Done (op, set_kw_heap h w));
  mopo_set_cbs := true
|}.

Definition motr_kvs_driver : kvs_driver := MkDriver true (Some motr_kvs_op_ops) None (Some mio_motr_kvs_ops) None.

(** ** The application *)

(** The operation after it has completed. *)
Definition set_done (m : kvs_mop) (w : kvs_world) (op : app_op) (s : kvs_state) : kvs_state :=
  MkSt (set_drv w (st_api s)) (st_obj s) (Some (MkAppOp m (mop_who op) (mop_op_ops op))).

(** A call of the API with everything around it: the return code, the callback
    that was called, the pairs, and the state. *)
Definition api_kvs_exec (call : kvs_act) (kvps : list mio_kv_pair) (s : kvs_state)
  : outcome (Z * option app_call * list mio_kv_pair * kvs_state) :=
  '(rc, s) ← mio_op_init s;
  if negb (rc =? 0) then Done (rc, None, kvps, s) else
  '(rc, s) ← call (mio_op_callbacks_set true true s);
  if rc <? 0 then Done (rc, None, kvps, s) else
  op ← deref (st_op s);
  if negb (existsb mdo_cbs (take 1 (mop_drv_op_chain (ao_op op)))) then Done (rc, None, kvps, s) else
  '(call, m, (kvps, w)) ← motr_op_cb_complete kvs_cb_pp (ao_op op) (kvps, ap_drv (st_api s));
  s ← mio_op_fini (set_done m w op s);
  Done (rc, call, kvps, s).

(** The API's function for a call. *)
Definition api_kvs_call (kid : mio_obj_id) (c : kvs_call) : kvs_act :=
  match c with
  | KPut _ => mio_kvs_pair_put (Some kid) (call_pairs c)
  | KGet _ => mio_kvs_pair_get (Some kid) (call_pairs c)
  | KDel _ => mio_kvs_pair_del (Some kid) (call_pairs c)
  end.

Fixpoint api_kvs_calls (kid : mio_obj_id) (cs : list kvs_call) (s : kvs_state)
  : outcome (list kvs_result * kvs_state) :=
  match cs with
  | [] => Done ([], s)
  | c :: cs =>
      '(rc, call, kvps, s) ← api_kvs_exec (api_kvs_call kid c) (call_pairs c) s;
      let r := MkResult rc call kvps (rep_rcs (kw_reply (ap_drv (st_api s)))) in
      '(rs, s) ← api_kvs_calls kid cs s;
      Done (r :: rs, s)
  end.

(** ** One call *)

(** The library is started with this driver, the number of the next operation is
    [n], and the driver is in the state [w]. *)
Definition api_ready (n : Z) (w : kvs_world) (s : kvs_state) : Prop :=
  live motr_kvs_driver motr_kvs_op_ops (st_api s) ∧ mio_op_seqno (st_api s) = n ∧ ap_drv (st_api s) = w ∧
  is_Some (st_op s).

(** The operation that the driver is given. *)
Definition prepared (n opcode : Z) : kvs_mop := MkOp n opcode 0 true true [] true.

(** The call of a driver's function through the API. *)
Definition calls_driver (call : kvs_act) (kid : mio_obj_id) (opcode : Z)
    (f : kvs_mop → kvs_world → outcome (Z * kvs_mop * kvs_world)) : Prop :=
  ∀ s op op' w', live motr_kvs_driver motr_kvs_op_ops (st_api s) → st_op s = Some op →
    let n := mio_op_seqno (st_api s) in
    f (mop_assign n opcode (Some motr_kvs_op_ops) (ao_op op)) (ap_drv (st_api s)) = Done (0, op', w') →
    call s = Done (0, MkSt (set_drv w' (set_seqnos (mio_obj_session_seqno (st_api s)) (u64 (n + 1)) (st_api s)))
      (st_obj s) (Some (MkAppOp op' (WhoKvs kid) (Some motr_kvs_op_ops)))).

Lemma kvs_op_init_live kid opcode (s : kvs_state) op :
  live motr_kvs_driver motr_kvs_op_ops (st_api s) → st_op s = Some op →
  kvs_op_init (Some kid) opcode s =
    let n := mio_op_seqno (st_api s) in
    Done (0, MkSt (set_seqnos (mio_obj_session_seqno (st_api s)) (u64 (n + 1)) (st_api s)) (st_obj s)
      (Some (MkAppOp (mop_assign n opcode (Some motr_kvs_op_ops) (ao_op op)) (WhoKvs kid) (Some motr_kvs_op_ops)))).
Proof.
  intros Hl Hop. apply live_check in Hl as [Hc Hd]. unfold kvs_op_init, kvs_driver_check, op_assign.
  rewrite Hc. cbn [mbind outcome_bind Z.ltb Z.compare]. rewrite Hd. cbn [mbind outcome_bind motr_kvs_driver md_kvs_ops].
  change (kvs_ops_complete mio_motr_kvs_ops) with true. cbn iota. cbn [Z.ltb Z.compare]. by rewrite Hop.
Qed.

(** The opcode of a call. *)
Definition call_opcode (c : kvs_call) : Z :=
  match c with KPut _ => MIO_KVS_PUT | KGet _ => MIO_KVS_GET | KDel _ => MIO_KVS_DEL end.

Lemma api_kvs_call_driver kid c : calls_driver (api_kvs_call kid c) kid (call_opcode c) (call_fun fid_tinit kid c).
Proof.
  intros s op op' w' Hl Hop n Hf. pose proof (live_check _ _ _ Hl) as [Hc Hd]. destruct c as [kvs|ks|ks].
  1,2: unfold api_kvs_call, mio_kvs_pair_put, mio_kvs_pair_get, elvis;
    rewrite (kvs_op_init_live kid _ s op Hl Hop); cbn [mbind outcome_bind Z.eqb];
    unfold drv_kvs_call, drv_op_call; cbn [st_api]; unfold the_driver in *; cbn [mio_instance set_seqnos];
    rewrite Hd; cbn [mbind outcome_bind deref md_kvs_ops motr_kvs_driver mio_motr_kvs_ops mko_put mko_get fmap option_fmap option_map st_op ao_op ap_drv set_seqnos mop_who mop_op_ops st_obj];
    cbn [call_opcode call_fun] in Hf; fold n; rewrite Hf; reflexivity.
  unfold api_kvs_call, mio_kvs_pair_del. rewrite (kvs_op_init_live kid _ s op Hl Hop). cbn [mbind outcome_bind].
  unfold the_driver in *. cbn [st_api mio_instance set_seqnos]. rewrite Hd.
  cbn [mbind outcome_bind deref md_kvs_ops motr_kvs_driver mio_motr_kvs_ops mko_del fmap option_fmap option_map st_op ao_op ap_drv set_seqnos].
  unfold motr_kvs_del_ptr. cbn [deref mbind outcome_bind]. cbn [call_opcode call_fun] in Hf. fold n. rewrite Hf. reflexivity.
Qed.

(** The driver's functions leave the number of the operation alone. *)
Definition keeps_seqno (f : kvs_mop → kvs_world → outcome (Z * kvs_mop * kvs_world)) : Prop :=
  ∀ op w rc op' w', f op w = Done (rc, op', w') → mop_seqno op' = mop_seqno op.

Lemma op_add_seqno (op op' : kvs_mop) pp req a h rc h' :
  mio_driver_op_add op pp req a h = (rc, op', h') → mop_seqno op' = mop_seqno op.
Proof. unfold mio_driver_op_add. intros H1. repeat case_match; by simplify_eq. Qed.

Lemma kvs_query_seqno idx opcode kvps keys vals flag pp :
  keeps_seqno (motr_kvs_query idx opcode kvps keys vals flag pp).
Proof.
  intros op w rc op' w' H1. unfold motr_kvs_query in H1. apply outcome_bind_Done in H1 as (e & _ & H1).
  destruct (_ <? 0); [outcome_inv; done|]. destruct (mio_driver_op_add _ _ _ _ _) as [[rc1 op1] h1] eqn:Hadd.
  apply op_add_seqno in Hadd. destruct (rc1 <? 0); outcome_inv; done.
Qed.

Lemma call_fun_seqno kid c : keeps_seqno (call_fun fid_tinit kid c).
Proof.
  assert (Hpd : ∀ opcode kvps, keeps_seqno (kvs_put_del fid_tinit opcode kid kvps)).
  { intros opcode kvps op w rc op' w' H1. unfold kvs_put_del in H1.
    destruct (motr_kvs_idx_alloc_init _ _ _) as [[rc1 [idx|]] h1]; [|by simplify_eq].
    apply outcome_bind_Done in H1 as ([[rc2 kv] h2] & _ & H1). destruct (rc2 <? 0); [outcome_inv; done|].
    by eapply kvs_query_seqno. }
  intros op w rc op' w'. destruct c as [kvs|ks|ks]; simpl; [apply Hpd| |apply Hpd].
  unfold mio_motr_kvs_get, kvs_get_next. intros H1.
  destruct (motr_kvs_idx_alloc_init _ _ _) as [[rc1 [idx|]] h1]; [|by simplify_eq].
  apply outcome_bind_Done in H1 as ([[rc2 [[keys|] [vals|]]] h2] & _ & H1); try by outcome_inv.
  destruct (mio_mem_alloc _ h2) as [args h3]. case_decide; [outcome_inv; done|].
  apply outcome_bind_Done in H1 as ([[rc3 op3] w3] & Hq & H1). apply kvs_query_seqno in Hq.
  destruct (rc3 <? 0); outcome_inv; done.
Qed.

Lemma cb_complete_seqno (op op' : kvs_mop) x call y :
  motr_op_cb_complete kvs_cb_pp op x = Done (call, op', y) → mop_seqno op' = mop_seqno op.
Proof.
  unfold motr_op_cb_complete, kvs_cb_pp. destruct (mop_drv_op_chain op) as [|dop l]; [done|].
  destruct (mdo_post_proc dop); [|intros H1; by outcome_inv]. intros H1.
  apply outcome_bind_Done in H1 as ([[rc m] [kvps w]] & H1 & H2).
  apply outcome_bind_Done in H1 as ([[rc1 kvps1] w1] & _ & H1). outcome_inv.
  destruct (_ =? _); by outcome_inv.
Qed.

(** A whole operation of the driver gives a whole call of the API: the callback,
    the pairs and the driver's state are the same, the next operation has the
    next number, and the API has recorded the end of this one. *)
Lemma api_kvs_exec_bridge call kid opcode f kvps kvps' cb n w w' s :
  calls_driver call kid opcode f → keeps_seqno f → api_ready n w s →
  kvs_exec f kvps (prepared n opcode) w = Done (0, Some cb, kvps', w') →
  ∃ s', api_kvs_exec call kvps s = Done (0, Some cb, kvps', s') ∧ api_ready (u64 (n + 1)) w' s' ∧
    ap_telem (st_api s') = ("mio-op-fini"%string, [n]) :: ap_telem (st_api s).
Proof.
  intros Hcall Hseq (Hl & Hn & Hw & [op Hop]) Hex. pose proof (live_check _ _ _ Hl) as [Hc Hd].
  unfold kvs_exec in Hex. apply outcome_bind_Done in Hex as ([[rc op1] w1] & Hf & Hex).
  destruct (rc <? 0) eqn:Hrc; [by simplify_eq|].
  destruct (negb (existsb _ _)) eqn:Hcbs; [by simplify_eq|].
  apply outcome_bind_Done in Hex as ([[cb1 op2] [kvps2 w2]] & Hcomp & Hex).
  apply outcome_bind_Done in Hex as ([op3 h3] & Hfini & Hex). cbn [fst snd] in Hex, Hfini.
  injection Hex as -> -> <- <-.
  unfold api_kvs_exec, mio_op_init. rewrite Hop, Hc. cbn [mbind outcome_bind Z.eqb negb]. rewrite Hd.
  cbn [mbind outcome_bind Z.eqb negb mio_op_callbacks_set set_op st_op ao_op st_api st_obj].
  erewrite Hcall; [|exact Hl|reflexivity|].
  2:{ cbn [st_api set_op ao_op mop_who mop_op_ops mop_assign mop_zero mop_seqno mop_opcode mop_rc mop_drv_op_chain mop_set_cbs
        mop_cb_complete mop_cb_failed has_set_cbs motr_kvs_op_ops mopo_set_cbs]. rewrite Hn, Hw. exact Hf. }
  cbn [mbind outcome_bind Z.ltb Z.compare deref st_op ao_op]. rewrite Hcbs. cbn [st_api ap_drv set_drv set_seqnos].
  rewrite Hcomp. cbn [mbind outcome_bind]. unfold mio_op_fini, set_done.
  cbn [st_op mop_op_ops mbind outcome_bind motr_kvs_op_ops mopo_fini ao_op st_api ap_drv set_drv mop_who st_obj].
  rewrite Hfini. cbn [mbind outcome_bind]. eexists. split; [reflexivity|].
  apply Hseq in Hf. apply cb_complete_seqno in Hcomp. unfold mio_motr_op_fini in Hfini.
  apply outcome_bind_Done in Hfini as (h4 & _ & Hfini). injection Hfini as <- _. cbn [set_chain mop_seqno].
  rewrite Hcomp, Hf. split; [|reflexivity]. split_and!; [exact Hl|by rewrite <- Hn|reflexivity|by eexists].
Qed.

(** ** Any number of calls *)

(** One call: the result and the contents are those of the map. *)
Lemma api_kvs_call_refines kid h0 bs c n w m s :
  (∀ req s, 0 <= m0_req_rc req s) → kvs_rel fid_tinit kid h0 bs w m → call_ok c → api_ready n w s →
  ∃ s' w' vs kvps', api_kvs_exec (api_kvs_call kid c) (call_pairs c) s = Done (0, Some CbComplete, kvps', s') ∧
    MkResult 0 (Some CbComplete) kvps' (rep_rcs (kw_reply w')) = (spec_call c m).1 ∧
    api_ready (u64 (n + 1)) w' s' ∧ ap_telem (st_api s') = ("mio-op-fini"%string, [n]) :: ap_telem (st_api s) ∧
    kvs_rel fid_tinit kid h0 (vs ++ bs) w' (spec_call c m).2 ∧ length vs = lost_blocks c ∧
    ∀ id', id' ≠ kvs_id_to_uint128 fid_tinit kid → index_at (kw_index w') id' = index_at (kw_index w) id'.
Proof.
  intros Hmotr Hrel Hc Hready.
  destruct (run_call_refines fid_tinit kid h0 bs (prepared n (call_opcode c)) c w m eq_refl eq_refl Hmotr Hrel Hc)
    as (w' & vs & Hrun & Hrel' & Hlen & Hoth).
  unfold run_call in Hrun. apply outcome_bind_Done in Hrun as ([[[rc cb] kvps'] w1] & Hex & Hrun).
  injection Hrun as Hres <-.
  assert (Hrc : rc = 0 ∧ cb = Some CbComplete) by (destruct c; by injection Hres).
  destruct Hrc as [-> ->].
  destruct (api_kvs_exec_bridge _ kid _ _ _ _ _ n w w1 s (api_kvs_call_driver kid c) (call_fun_seqno kid c) Hready Hex)
    as (s' & H1 & H2 & H3).
  exists s', w1, vs, kvps'. by split_and!.
Qed.

(** The numbers of operations that have been finalised, the last one first. *)
Definition fini_records (n : Z) (k : nat) : list (string * list Z) :=
  (λ i, ("mio-op-fini"%string, [u64 (n + Z.of_nat i)])) <$> reverse (seq 0 k).

Lemma fini_records_S n k :
  0 <= n < 2 ^ 64 → fini_records n (S k) = fini_records (u64 (n + 1)) k ++ [("mio-op-fini"%string, [n])].
Proof.
  intros Hn. unfold fini_records. change (seq 0 (S k)) with (0%nat :: seq 1 k). rewrite reverse_cons, fmap_app.
  f_equal; [|cbn; rewrite Z.add_0_r; by rewrite u64_small]. rewrite <- fmap_S_seq, <- fmap_reverse, <- list_fmap_compose.
  apply list_fmap_ext. intros i j _. unfold compose. rewrite u64_add_l. do 3 f_equal. lia.
Qed.

Lemma fini_records_snoc n k :
  fini_records n (k + 1) = ("mio-op-fini"%string, [u64 (n + Z.of_nat k)]) :: fini_records n k.
Proof. unfold fini_records. by rewrite seq_app, reverse_app. Qed.

Lemma api_kvs_calls_spec kid h0 cs :
  (∀ req s, 0 <= m0_req_rc req s) → Forall call_ok cs → ∀ bs n w m s,
  0 <= n < 2 ^ 64 → kvs_rel fid_tinit kid h0 bs w m → api_ready n w s →
  ∃ s' w' vs, api_kvs_calls kid cs s = Done ((spec_calls cs m).1, s') ∧
    api_ready (u64 (n + Z.of_nat (length cs))) w' s' ∧
    ap_telem (st_api s') = fini_records n (length cs) ++ ap_telem (st_api s) ∧
    kvs_rel fid_tinit kid h0 (vs ++ bs) w' (spec_calls cs m).2 ∧ length vs = sum_list (lost_blocks <$> cs) ∧
    ∀ id', id' ≠ kvs_id_to_uint128 fid_tinit kid → index_at (kw_index w') id' = index_at (kw_index w) id'.
Proof.
  intros Hmotr Hcs. induction Hcs as [|c cs Hc Hcs IH]; intros bs n w m s Hn Hrel Hready.
  - exists s, w, []. rewrite Z.add_0_r, u64_small by done. by split_and!.
  - destruct (api_kvs_call_refines kid h0 bs c n w m s Hmotr Hrel Hc Hready)
      as (s1 & w1 & vs & kvps' & H1 & H2 & H3 & H4 & H5 & H6 & H7).
    destruct (IH (vs ++ bs) (u64 (n + 1)) w1 _ s1 (u64_range _) H5 H3) as (s2 & w2 & vs2 & G1 & G2 & G3 & G4 & G5 & G6).
    exists s2, w2, (vs2 ++ vs). cbn [api_kvs_calls spec_calls fmap list_fmap]. rewrite H1. cbn [mbind outcome_bind].
    rewrite G1. cbn [mbind outcome_bind]. assert (Hdrv : ap_drv (st_api s1) = w1) by apply H3. rewrite Hdrv, H2.
    destruct (spec_call c m) as [r m2]. simpl in *. destruct (spec_calls cs m2) as [rs m3]. simpl in *.
    split_and!; [done| | | |rewrite length_app; lia|].
    + rewrite u64_add_l in G2. by replace (n + Z.of_nat (S (length cs))) with (n + 1 + Z.of_nat (length cs)) by lia.
    + rewrite G3, H4. by rewrite (fini_records_S n _ Hn), <- app_assoc.
    + by rewrite <- app_assoc.
    + intros id' Hid. by rewrite G6, H7.
Qed.

(** ** The life of a set *)

Definition api_set_fun (kid : mio_obj_id) (create : bool) : kvs_act :=
  if create then mio_kvs_create_set (Some kid) else mio_kvs_del_set (Some kid).

(** Creating a set, calls on it, and deleting it. *)
Definition api_set_lifecycle (kid : mio_obj_id) (cs : list kvs_call) (s : kvs_state)
  : outcome (Z * list kvs_result * Z * kvs_state) :=
  '(rc1, _, _, s) ← api_kvs_exec (api_set_fun kid true) [] s;
  '(rs, s) ← api_kvs_calls kid cs s;
  '(rc2, _, _, s) ← api_kvs_exec (api_set_fun kid false) [] s;
  Done (rc1, rs, rc2, s).

Definition set_opcode (create : bool) : Z := if create then MIO_KVS_CREATE_SET else MIO_KVS_DELETE_SET.

Lemma api_set_fun_driver kid create :
  calls_driver (api_set_fun kid create) kid (set_opcode create) (set_fun fid_tinit kid create).
Proof.
  intros s op op' w' Hl Hop n Hf. pose proof (live_check _ _ _ Hl) as [Hc Hd].
  destruct create; unfold api_set_fun, mio_kvs_create_set, mio_kvs_del_set, elvis;
    rewrite (kvs_op_init_live kid _ s op Hl Hop); cbn [mbind outcome_bind Z.eqb];
    unfold drv_kvs_call, drv_op_call; cbn [st_api]; unfold the_driver in *; cbn [mio_instance set_seqnos];
    rewrite Hd; cbn [mbind outcome_bind deref md_kvs_ops motr_kvs_driver mio_motr_kvs_ops mko_create_set mko_del_set st_op ao_op ap_drv set_seqnos mop_who mop_op_ops st_obj];
    cbn [set_opcode set_fun] in Hf; fold n; rewrite Hf; reflexivity.
Qed.

Lemma set_fun_seqno kid create : keeps_seqno (set_fun fid_tinit kid create).
Proof.
  intros op w rc op' w' H1. destruct create; unfold set_fun, mio_motr_kvs_create_set, mio_motr_kvs_del_set in H1;
    (destruct (motr_kvs_idx_alloc_init _ _ _) as [[rc1 [idx|]] h1]; [|by simplify_eq];
     destruct (_ <? 0); [outcome_inv; done|];
     destruct (mio_driver_op_add _ _ _ _ _) as [[rc2 op2] h2] eqn:Hadd; apply op_add_seqno in Hadd;
     destruct (rc2 <? 0); outcome_inv; done).
Qed.

Lemma api_set_exec kid h0 bs create n w s :
  (∀ req s, 0 <= m0_req_rc req s) → heap_grow h0 (kw_heap w) bs → h_plan (kw_heap w) = [] → api_ready n w s →
  ∃ s' w', api_kvs_exec (api_set_fun kid create) [] s = Done (0, Some CbComplete, [], s') ∧
    m0_req_exec (set_req fid_tinit kid create) (kw_index w) = (kw_index w', kw_reply w') ∧
    heap_grow h0 (kw_heap w') bs ∧ h_plan (kw_heap w') = [] ∧ api_ready (u64 (n + 1)) w' s' ∧
    ap_telem (st_api s') = ("mio-op-fini"%string, [n]) :: ap_telem (st_api s).
Proof.
  intros Hmotr Hg Hp Hready.
  destruct (exec_set fid_tinit kid h0 bs create [] (prepared n (set_opcode create)) w eq_refl eq_refl Hmotr Hg Hp)
    as (w' & Hex & Hreq & Hg' & Hp').
  destruct (api_kvs_exec_bridge _ kid _ _ _ _ _ n w w' s (api_set_fun_driver kid create) (set_fun_seqno kid create)
    Hready Hex) as (s' & H1 & H2 & H3).
  exists s', w'. by split_and!.
Qed.
End Stack.

(** (C16) Key-value sets from the API down to Motr.  An application creates a set
    whose id is free, calls any puts, gets and deletes on it and deletes it; every
    operation is prepared, given callbacks, launched through the API and the Motr
    driver, completed by Motr and finalised.  As long as malloc() and Motr accept
    the requests, all results are those of a finite map that starts out empty;
    the operations have had the numbers from the next one on, without gaps, and
    their ends are recorded in this order; in the end all sets are what they were
    and the memory that is lost is that of the vectors of the calls. *)
Theorem api_kvs_lifecycle_refines (host : HostOrder) (motr : MotrIndex) (fid_tinit : Z → Z → Z → m0_fid)
    (kid : mio_obj_id) (cs : list kvs_call) (n : Z) (w : kvs_world) (s : st)
  (Hready : api_ready fid_tinit n w s) (Hn : 0 <= n < 2 ^ 64) (Hmotr : ∀ req s, 0 <= m0_req_rc req s)
  (Hheap : heap_ok (kw_heap w)) (Hplan : h_plan (kw_heap w) = [])
  (Hidx : index_at (kw_index w) (kvs_id_to_uint128 fid_tinit kid) = None) (Hcs : Forall call_ok cs) :
  ∃ s' w' lost, api_set_lifecycle kid cs s = Done (0, (spec_calls cs ∅).1, 0, s') ∧
    api_ready fid_tinit (u64 (n + Z.of_nat (length cs) + 2)) w' s' ∧
    ap_telem (st_api s') = fini_records n (length cs + 2) ++ ap_telem (st_api s) ∧
    (∀ id, index_at (kw_index w') id = index_at (kw_index w) id) ∧
    heap_grow (kw_heap w) (kw_heap w') lost ∧ length lost = sum_list (lost_blocks <$> cs).
Proof.
  destruct (api_set_exec fid_tinit kid (kw_heap w) [] true n w s Hmotr (heap_grow_refl _ Hheap) Hplan Hready)
    as (s1 & w1 & Hx1 & Hr1 & Hg1 & Hp1 & Hready1 & Ht1).
  pose proof (m0_create_law _ _ Hidx) as Hlaw. simpl in Hr1. rewrite Hr1 in Hlaw. destruct Hlaw as (_ & Hi1 & Ho1).
  destruct (api_kvs_calls_spec fid_tinit kid (kw_heap w) cs Hmotr Hcs [] (u64 (n + 1)) w1 ∅ s1 (u64_range _)
    ltac:(by split_and!) Hready1) as (s2 & w2 & vs & H1 & Hready2 & Ht2 & (H2 & H3 & H4) & H5 & H6).
  rewrite app_nil_r in H2.
  destruct (api_set_exec fid_tinit kid (kw_heap w) vs false _ w2 s2 Hmotr H2 H3 Hready2)
    as (s3 & w3 & Hx3 & Hr3 & Hg3 & Hp3 & Hready3 & Ht3).
  pose proof (m0_delete_law _ _ _ H4) as Hlaw. simpl in Hr3. rewrite Hr3 in Hlaw. destruct Hlaw as (_ & Hi3 & Ho3).
  exists s3, w3, vs. unfold api_set_lifecycle. rewrite Hx1. cbn [mbind outcome_bind]. rewrite H1.
  cbn [mbind outcome_bind]. rewrite Hx3. split; [done|]. split; [|split; [|split; [|by split]]].
  - rewrite u64_add_l, <- Z.add_assoc, u64_add_l in Hready3.
    by replace (n + Z.of_nat (length cs) + 2) with (n + 1 + (Z.of_nat (length cs) + 1)) by lia.
  - rewrite Ht3, Ht2, Ht1. replace (length cs + 2)%nat with (S (length cs + 1)) by lia.
    rewrite (fini_records_S n _ Hn), fini_records_snoc. rewrite u64_add_l, <- !app_assoc. do 4 f_equal.
  - intros id'. destruct (decide (id' = kvs_id_to_uint128 fid_tinit kid)) as [->|Hne].
    + by rewrite Hi3, Hidx.
    + by rewrite (Ho3 _ Hne), (H6 _ Hne), (Ho1 _ Hne).
Qed.

(** A set with a put, a get and a delete over the concrete Motr; the library is
    started and the next operation has the number 7. *)
Definition ex_api_state (w : @kvs_world map_motr) : st :=
  MkSt (MkApi (InstLive (Some (@motr_kvs_driver false map_motr ex_fid_tinit))) 0 7 0 [] [] w) None
    (Some (MkAppOp (MkOp 0 0 0 false false [] false) WhoNone None)).

Lemma api_kvs_lifecycle_refines_witness :
  let w := @MkKvsWorld map_motr (ex_kvs_heap []) (λ _, None) (MkReply true [] [] []) in
  ∃ s', api_set_lifecycle ex_kvs_id [KPut [([1], [2; 3])]; KGet [[1]]; KDel [[4]]] (ex_api_state w) =
    Done (0, [MkResult 0 (Some CbComplete) [MkPair (Some [1]) 1 (Some [2; 3]) 2] [0];
              MkResult 0 (Some CbComplete) [MkPair (Some [1]) 1 (Some [2; 3]) 2] [0];
              MkResult 0 (Some CbComplete) [MkPair (Some [4]) 1 None 0] [- ENOENT]], 0, s') ∧
    ap_telem (st_api s') = (λ i, ("mio-op-fini"%string, [i])) <$> [11; 10; 9; 8; 7].
Proof.
  intros w.
  destruct (@api_kvs_lifecycle_refines false map_motr ex_fid_tinit ex_kvs_id
    [KPut [([1], [2; 3])]; KGet [[1]]; KDel [[4]]] 7 w (ex_api_state w)) as (s' & w' & lost & H1 & _ & H2 & _).
  - split; [by split_and!|]. split; [reflexivity|]. split; [reflexivity|by eexists].
  - lia.
  - done.
  - apply ex_kvs_heap_ok.
  - reflexivity.
  - reflexivity.
  - repeat constructor; set_solver.
  - exists s'. split; [rewrite H1; vm_compute; reflexivity|rewrite H2; vm_compute; reflexivity].
Defined.
