(* ===== verification/KvsCmd.v ===== *)
(** * The key-value commands (src/examples/kvs.c)

    Numbered pairs are inserted, retrieved, listed and deleted in batches, through
    the API, the Motr driver and Motr as in [KvsApi]; the commands wait for their
    operations with mio_op_poll(). *)

From Stdlib Require Import String.
From S2P Require Import Prelude Bytes ObjId HintMap Mem Types DriverOp KvsDriver Api KvsApi CStr Conf CmdHelpers.
Open Scope Z_scope.

(** ** Text *)

(** The conversion %d of scanf(). *)
Definition scan_d (s : list Z) : option (Z * list Z) :=
  let '(neg, s) := scan_sign (skip_spaces s) in
  let '(v, n, rest) := scan_digits 10 s 0 0 in
  if (n =? 0)%nat then None else Some (s32 (if neg then - v else v), rest).

(** sscanf(key, "%lx:%lx:%d", &u1, &u2, last_kno): the result and *last_kno. *)
Definition sscanf_kvs_key (key : list Z) (last_kno : Z) : Z * Z :=
  match scan_lx key with
  | ScanEof => (-1, last_kno)
  | ScanNone => (0, last_kno)
  | ScanVal _ (58 :: s) =>
      match scan_lx s with
      | ScanVal _ (58 :: s) => match scan_d s with Some (v, _) => (3, v) | None => (2, last_kno) end
      | ScanVal _ _ => (2, last_kno)
      | _ => (1, last_kno)
      end
  | ScanVal _ _ => (1, last_kno)
  end.

Definition KVS_MAX_NR_PAIRS_PER_OP : Z := 1024.
Definition KVS_VAL_STRING : list Z := str "MIO KVS demo".

Section KvsCmd.
Context `{HostOrder} `{MotrIndex} (fid_tinit : Z → Z → Z → m0_fid).
(** The results of m0_op_wait() and m0_rc() for the operation that Motr runs, and
    the rounds of mio_op_poll(). *)
Context (m0_wait : kvs_world → Z * Z) (poll_fuel : nat).

Abbreviation kvs_state := (@st m0_req Empty_set kvs_pp kvs_world).
Abbreviation kvs_act := (@act m0_req Empty_set kvs_pp kvs_world).

(** The library; the coming results of malloc() and random(); what has been
    printed, if there is a log. *)
Record kvs_prog := MkKvsProg { kp_st : kvs_state; kp_plan : mplan; kp_random : list Z; kp_log : option (list Z) }.

Definition set_kp_st (s : kvs_state) (x : kvs_prog) : kvs_prog := MkKvsProg s (kp_plan x) (kp_random x) (kp_log x).

(** ** Pairs *)

(** The key of a number, with its NUL. *)
Definition kvs_key (kid : mio_obj_id) (kno : Z) : list Z :=
  let '(k_hi, k_lo) := id_words kid in
  sprintf_lx k_hi ++ [58] ++ sprintf_lx k_lo ++ [58] ++ sprintf_d kno ++ [0].

Definition kvs_val (random : Z) : list Z := KVS_VAL_STRING ++ [32] ++ sprintf_d random ++ [0].

(** The loop of [kvs_fill_pairs].  Without values mkp_val is not set.  When malloc()
    fails the error path releases blocks that the pairs release again, or pointers
    of pairs that have not been set. *)
Fixpoint fill_loop (kid : mio_obj_id) (start_kno nr_pairs : Z) (set_vals : bool) (n : nat) (i : Z)
    (p : mplan) (random : list Z) : outcome (list mio_kv_pair * mplan * list Z) :=
  match n with
  | O => Done ([], p, random)
  | S n =>
      let key := kvs_key kid (s32 (start_kno + i)) in
      let '(ok, p) := plan_next p in
      if negb ok then Fault (if set_vals && (0 <? i) then DoubleFree else UninitRead) else
      if set_vals then
        '(r, random) ← mio_cmd_random (u32 nr_pairs) random;
        let '(ok, p) := plan_next p in
        if negb ok then Fault DoubleFree else
        '(l, p, random) ← fill_loop kid start_kno nr_pairs set_vals n (i + 1) p random;
        Done (full_pair (key, kvs_val r) :: l, p, random)
      else
        '(l, p, random) ← fill_loop kid start_kno nr_pairs set_vals n (i + 1) p random;
        Done (key_pair key :: l, p, random)
  end.

(** [kvs_fill_pairs] for at least one pair: its error path reads the first pair
    before it is set. *)
Definition kvs_fill_pairs (kid : mio_obj_id) (start_kno nr_pairs : Z) (set_vals : bool) (p : mplan)
    (random : list Z) : outcome (list mio_kv_pair * mplan * list Z) :=
  let '(ok, p) := plan_next p in
  if negb ok then Fault UninitRead else fill_loop kid start_kno nr_pairs set_vals (Z.to_nat nr_pairs) 0 p random.

(** [kvs_print_pairs]: a string that is NULL is printed as (null). *)
Definition print_str (s : option (list Z)) : list Z := match s with Some s => until_nul s | None => str "(null)" end.

Definition pair_line (p : mio_kv_pair) : list Z := print_str (mkp_key p) ++ [9; 9] ++ print_str (mkp_val p) ++ [10].

Definition kvs_print_pairs (pairs : list mio_kv_pair) (x : kvs_prog) : kvs_prog :=
  match kp_log x with
  | None => x
  | Some log => MkKvsProg (kp_st x) (kp_plan x) (kp_random x) (Some (log ++ (pairs ≫= pair_line)))
  end.

(** ** Operations *)

(** The operation on the stack, before it is initialised. *)
Definition stack_op : @app_op m0_req Empty_set kvs_pp kvs_world := MkAppOp mop_zero WhoNone None.

Definition cmd_op_init (s : kvs_state) : outcome kvs_state :=
  '(_, s) ← mio_op_init (set_op (Some stack_op) s); Done s.

(** The world of mio_op_poll(): the operation, the pairs and the driver. *)
Definition poll_world : Type := kvs_mop * list mio_kv_pair * kvs_world.

Definition kvs_wait (i : nat) (timeout : Z) (w : poll_world) : Z * Z * poll_world :=
  let '(m, kvps, w) := w in
  let '(rc, retstate) := mio_motr_op_wait (m0_wait w).1 (m0_wait w).2 in
  (rc, retstate, (set_mop_rc rc m, kvps, w)).

Definition kvs_post_proc (i : nat) (w : poll_world) : option (poll_world → outcome (Z * poll_world)) :=
  match mop_drv_op_chain w.1.1 with
  | dop :: _ =>
      (λ pp w, '(rc, m, (kvps, w)) ← kvs_cb_pp pp w.1.1 (w.1.2, w.2); Done (rc, (m, kvps, w))) <$> mdo_post_proc dop
  | [] => None
  end.

(** [mio_cmd_wait_on_op]. *)
Definition kvs_wait_on_op (kvps : list mio_kv_pair) (s : kvs_state) : outcome (Z * list mio_kv_pair * kvs_state) :=
  op ← deref (st_op s);
  rc ← mio_instance_check (st_api s);
  '(_, _, (m, kvps, w)) ←
    mio_op_poll kvs_wait kvs_post_proc (λ _, ap_clock (st_api s)) poll_fuel false 1 MIO_TIME_NEVER rc
      (ao_op op, kvps, ap_drv (st_api s));
  Done (mop_rc m, kvps, set_done m w op s).

(** A call of the API and waiting for it: the result, whether it was waited for,
    and the pairs. *)
Definition kvs_cmd_exec (call : kvs_act) (kvps : list mio_kv_pair) (s : kvs_state)
  : outcome (Z * bool * list mio_kv_pair * kvs_state) :=
  '(rc, s) ← call s;
  if negb (rc =? 0) then Done (rc, false, kvps, s) else
  '(rc, kvps, s) ← kvs_wait_on_op kvps s;
  Done (rc, true, kvps, s).

(** ** Sets *)

(** [kvs_create_set] and [kvs_delete_set]. *)
Definition kvs_cmd_set (create : bool) (kid : mio_obj_id) (x : kvs_prog) : outcome (Z * kvs_prog) :=
  s ← cmd_op_init (kp_st x);
  '(rc, waited, _, s) ← kvs_cmd_exec (if create then mio_kvs_create_set (Some kid) else mio_kvs_del_set (Some kid)) [] s;
  s ← (if waited : bool then mio_op_fini s else Done s);
  Done (rc, set_kp_st s x).

Definition mio_cmd_kvs_create_set (kid : mio_obj_id) (x : kvs_prog) : outcome (Z * kvs_prog) := kvs_cmd_set true kid x.
Definition mio_cmd_kvs_delete_set (kid : mio_obj_id) (x : kvs_prog) : outcome (Z * kvs_prog) := kvs_cmd_set false kid x.

(** ** Queries *)

(** [kvs_query_init]: an array for the codes, the pairs, and the operation. *)
Definition kvs_query_init (kid : mio_obj_id) (start_kno nr_kvp : Z) (set_vals : bool) (x : kvs_prog)
  : outcome (Z * list mio_kv_pair * kvs_prog) :=
  let '(ok, p) := plan_next (kp_plan x) in
  if negb ok then Done (- ENOMEM, [], MkKvsProg (kp_st x) p (kp_random x) (kp_log x)) else
  let '(ok, p) := plan_next p in
  if negb ok then Done (- ENOMEM, [], MkKvsProg (kp_st x) p (kp_random x) (kp_log x)) else
  '(pairs, p, random) ← kvs_fill_pairs kid start_kno nr_kvp set_vals p (kp_random x);
  s ← cmd_op_init (kp_st x);
  Done (0, pairs, MkKvsProg s p random (kp_log x)).

(** [kvs_query_fini] initialises the operation instead of finalising it. *)
Definition kvs_query_fini (x : kvs_prog) : outcome kvs_prog :=
  '(_, s) ← mio_op_init (kp_st x); Done (set_kp_st s x).

(** What the four queries share: [before] and [after] are what they print. *)
Definition kvs_query (kid : mio_obj_id) (start_kno nr_kvp : Z) (set_vals : bool)
    (call : list mio_kv_pair → kvs_act) (before : list mio_kv_pair → kvs_prog → outcome kvs_prog)
    (after : list mio_kv_pair → kvs_prog → kvs_prog) (x : kvs_prog)
  : outcome (Z * kvs_prog) :=
  '(rc, pairs, x) ← kvs_query_init kid start_kno nr_kvp set_vals x;
  if rc <? 0 then Done (rc, x) else
  x ← before pairs x;
  '(rc, waited, pairs, s) ← kvs_cmd_exec (call pairs) pairs (kp_st x);
  let x := set_kp_st s x in
  if negb waited then Done (rc, x) else
  let x := if rc =? 0 then after pairs x else x in
  x ← kvs_query_fini x;
  Done (rc, x).

(** [kvs_query_put]. *)
Definition kvs_query_put (kid : mio_obj_id) (start_kno nr_kvp : Z) : kvs_prog → outcome (Z * kvs_prog) :=
  kvs_query kid start_kno nr_kvp true (mio_kvs_pair_put (Some kid)) (λ pairs x, Done (kvs_print_pairs pairs x)) (λ _ x, x).

(** [kvs_query_get]: the codes of the keys are not looked at. *)
Definition kvs_query_get (kid : mio_obj_id) (start_kno nr_kvp : Z) : kvs_prog → outcome (Z * kvs_prog) :=
  kvs_query kid start_kno nr_kvp false (mio_kvs_pair_get (Some kid)) (λ _ x, Done x) kvs_print_pairs.

(** [kvs_query_del]: the operation is initialised a second time, and printing reads
    mkp_val, which is not set. *)
Definition kvs_query_del (kid : mio_obj_id) (start_kno nr_kvp : Z) : kvs_prog → outcome (Z * kvs_prog) :=
  kvs_query kid start_kno nr_kvp false
    (λ pairs s, s ← cmd_op_init s; mio_kvs_pair_del (Some kid) pairs s)
    (λ _ x, match kp_log x with Some _ => Fault UninitRead | None => Done x end) (λ _ x, x).

(** [kvs_query_next]: one pair and one code are allocated, and [nr_kvp] of them are
    passed. *)
Definition kvs_query_next (kid : mio_obj_id) (last_kno : Z) (exclude_start_kno : bool) (nr_kvp : Z) (x : kvs_prog)
  : outcome (Z * Z * kvs_prog) :=
  '(rc, pairs, x) ← kvs_query_init kid last_kno 1 false x;
  if rc <? 0 then Done (rc, last_kno, x) else
  if 1 <? nr_kvp then Fault OutOfBounds else
  '(rc, waited, pairs, s) ← kvs_cmd_exec (mio_kvs_pair_next (Some kid) pairs exclude_start_kno) pairs (kp_st x);
  let x := set_kp_st s x in
  if negb waited then Done (rc, last_kno, x) else
  let x := if rc =? 0 then kvs_print_pairs pairs x else x in
  rc0 ← match rep_rcs (kw_reply (ap_drv (st_api s))) with c :: _ => Done c | [] => Fault UninitRead end;
  '(rc, last_kno) ←
    (if rc0 <? 0 then Done (rc0, last_kno) else
     match pairs with
     | MkPair (Some key) _ _ _ :: _ =>
         let '(rc, last_kno) := sscanf_kvs_key (until_nul key) last_kno in
         Done (if rc <? 0 then rc else 0, last_kno)
     | _ => Fault NullDeref
     end);
  x ← kvs_query_fini x;
  Done (rc, last_kno, x).

(** ** Commands *)

(** The loop over batches that inserting, retrieving and deleting share. *)
Fixpoint kvs_batches (query : Z → Z → kvs_prog → outcome (Z * kvs_prog)) (fuel : nat) (rc start_kno nr_pairs : Z)
    (x : kvs_prog) : outcome (Z * kvs_prog) :=
  match fuel with
  | O => Fault NoTermination
  | S fuel =>
      if negb (0 <? nr_pairs) then Done (rc, x) else
      let nr_pairs_op := if KVS_MAX_NR_PAIRS_PER_OP <? nr_pairs then KVS_MAX_NR_PAIRS_PER_OP else nr_pairs in
      '(rc, x) ← query start_kno nr_pairs_op x;
      if negb (rc =? 0) then Done (rc, x) else
      kvs_batches query fuel rc (s32 (start_kno + nr_pairs_op)) (nr_pairs - nr_pairs_op) x
  end.

Definition mio_cmd_kvs_insert_pairs (fuel : nat) (kid : mio_obj_id) (start_kno nr_pairs : Z) (x : kvs_prog) :=
  kvs_batches (kvs_query_put kid) fuel 0 start_kno nr_pairs x.
Definition mio_cmd_kvs_retrieve_pairs (fuel : nat) (kid : mio_obj_id) (start_kno nr_pairs : Z) (x : kvs_prog) :=
  kvs_batches (kvs_query_get kid) fuel 0 start_kno nr_pairs x.
Definition mio_cmd_kvs_del_pairs (fuel : nat) (kid : mio_obj_id) (start_kno nr_pairs : Z) (x : kvs_prog) :=
  kvs_batches (kvs_query_del kid) fuel 0 start_kno nr_pairs x.

Definition EOF : Z := -1.

(** The loop of [mio_cmd_kvs_list_pairs]. *)
Fixpoint list_loop (fuel : nat) (kid : mio_obj_id) (rc last_kno nr_pairs : Z) (first_round : bool) (x : kvs_prog)
  : outcome (Z * kvs_prog) :=
  match fuel with
  | O => Fault NoTermination
  | S fuel =>
      if negb (0 <? nr_pairs) then Done (rc, x) else
      let nr_pairs_op := if KVS_MAX_NR_PAIRS_PER_OP <? nr_pairs then KVS_MAX_NR_PAIRS_PER_OP else nr_pairs in
      '(rc, last_kno, x) ← kvs_query_next kid last_kno (negb first_round) nr_pairs_op x;
      if rc <? 0 then Done (rc, x) else list_loop fuel kid rc last_kno (nr_pairs - nr_pairs_op) false x
  end.

Definition mio_cmd_kvs_list_pairs (fuel : nat) (kid : mio_obj_id) (start_kno nr_pairs : Z) (x : kvs_prog)
  : outcome (Z * kvs_prog) :=
  '(rc, x) ← list_loop fuel kid 0 start_kno nr_pairs true x;
  Done (if rc =? EOF then 0 else rc, x).

(** ** Keys *)

Lemma sprintf_u_inj a b : 0 <= a < 10 ^ 20 → 0 <= b < 10 ^ 20 → sprintf_u a = sprintf_u b → a = b.
Proof.
  intros Ha Hb Heq. unfold sprintf_u in Heq.
  pose proof (scan_dec_digits 20 a 0 0 [] Ha ltac:(lia)) as E1.
  pose proof (scan_dec_digits 20 b 0 0 [] Hb ltac:(lia)) as E2.
  rewrite Heq in E1. rewrite E1 in E2. cbn [scan_digits] in E2. rewrite !Z.mul_0_l, !Z.add_0_l in E2.
  apply (f_equal (λ p, p.1.1)) in E2. exact E2.
Qed.

Lemma kvs_key_inj kid a b : 0 <= a < 2 ^ 31 → 0 <= b < 2 ^ 31 → kvs_key kid a = kvs_key kid b → a = b.
Proof.
  intros Ha Hb Heq. unfold kvs_key in Heq. destruct (id_words kid) as [hi lo].
  apply app_inv_head in Heq. injection Heq as Heq. apply app_inv_head in Heq. injection Heq as Heq.
  apply app_inj_tail in Heq as [Heq _]. unfold sprintf_d in Heq.
  rewrite !(proj2 (Z.ltb_ge _ 0)) in Heq by lia. apply sprintf_u_inj in Heq; lia.
Qed.

(** The keys of [n] numbers. *)
Definition kvs_keys (kid : mio_obj_id) (start n : Z) : list (list Z) := kvs_key kid <$> seqZ start n.

Lemma kvs_keys_NoDup kid start n : 0 <= start → start + n <= 2 ^ 31 → NoDup (kvs_keys kid start n).
Proof.
  intros Hs Hn. unfold kvs_keys. apply NoDup_fmap_2_strong; [|apply NoDup_seqZ].
  intros a b Ha Hb. apply elem_of_seqZ in Ha, Hb. apply kvs_key_inj; lia.
Qed.

Lemma kvs_keys_cons kid start n : 0 < n → kvs_keys kid start n = kvs_key kid start :: kvs_keys kid (start + 1) (n - 1).
Proof. intros Hn. unfold kvs_keys. by rewrite seqZ_cons. Qed.

Lemma kvs_keys_app kid start a b :
  0 <= a → 0 <= b → kvs_keys kid start (a + b) = kvs_keys kid start a ++ kvs_keys kid (start + a) b.
Proof. intros Ha Hb. unfold kvs_keys. by rewrite seqZ_app, fmap_app. Qed.

Definition numbered (start nr : Z) : Prop := 0 <= start ∧ 0 <= nr ∧ start + nr < 2 ^ 31.

(** The pairs of a query without values, and with them. *)
Lemma fill_loop_keys kid start nr k i random :
  0 <= start + i → start + i + Z.of_nat k <= 2 ^ 31 →
  fill_loop kid start nr false k i [] random = Done (key_pair <$> kvs_keys kid (start + i) (Z.of_nat k), [], random).
Proof.
  revert i. induction k as [|k IH]; intros i H1 H2; [done|]. cbn [fill_loop plan_next negb].
  rewrite IH by lia. cbn [mbind outcome_bind]. rewrite (kvs_keys_cons _ _ (Z.of_nat (S k))), fmap_cons by lia.
  rewrite s32_small by lia. replace (start + (i + 1)) with (start + i + 1) by lia.
  by replace (Z.of_nat (S k) - 1) with (Z.of_nat k) by lia.
Qed.

Lemma fill_pairs_keys kid start nr random :
  numbered start nr →
  kvs_fill_pairs kid start nr false [] random = Done (key_pair <$> kvs_keys kid start nr, [], random).
Proof.
  intros (H1 & H2 & H3). unfold kvs_fill_pairs. cbn [plan_next negb]. rewrite fill_loop_keys by lia.
  by rewrite Z.add_0_r, Z2Nat.id.
Qed.

Definition demo_val (v : list Z) : Prop := ∃ r, 0 <= r < KVS_MAX_NR_PAIRS_PER_OP ∧ v = kvs_val r.

Lemma mio_cmd_random_range max random :
  0 < max → ∃ r random', mio_cmd_random max random = Done (r, random') ∧ 0 <= r < max.
Proof.
  intros Hmax. unfold mio_cmd_random. rewrite (proj2 (Z.eqb_neq _ _)) by lia.
  destruct random as [|r random]; [by exists 0, []; split; [done|lia]|].
  do 2 eexists. split; [done|]. apply Z.mod_pos_bound. lia.
Qed.

Lemma fill_loop_vals kid start nr k i random :
  0 < nr <= KVS_MAX_NR_PAIRS_PER_OP → 0 <= start + i → start + i + Z.of_nat k <= 2 ^ 31 →
  ∃ kvs random', fill_loop kid start nr true k i [] random = Done (full_pair <$> kvs, [], random') ∧
    kvs.*1 = kvs_keys kid (start + i) (Z.of_nat k) ∧ Forall demo_val kvs.*2.
Proof.
  intros Hnr. revert i random. induction k as [|k IH]; intros i random H1 H2; [by exists [], random|].
  cbn [fill_loop plan_next negb]. unfold KVS_MAX_NR_PAIRS_PER_OP in Hnr.
  destruct (mio_cmd_random_range (u32 nr) random) as (r & random' & -> & Hr); [rewrite u32_small; lia|].
  cbn [mbind outcome_bind plan_next negb].
  destruct (IH (i + 1) random') as (kvs & random'' & -> & Hk & Hv); [lia..|]. cbn [mbind outcome_bind].
  exists ((kvs_key kid (start + i), kvs_val r) :: kvs), random''. rewrite s32_small by lia. split_and!; [done| |].
  - rewrite kvs_keys_cons by lia. cbn [fmap list_fmap fst]. rewrite Hk.
    replace (start + (i + 1)) with (start + i + 1) by lia. by replace (Z.of_nat (S k) - 1) with (Z.of_nat k) by lia.
  - constructor; [|done]. exists r. split; [|done]. rewrite u32_small in Hr by lia. unfold KVS_MAX_NR_PAIRS_PER_OP. lia.
Qed.

(** ** Launching and waiting *)

(** An operation that mio_op_init() has prepared. *)
Definition fresh_op : @app_op m0_req Empty_set kvs_pp kvs_world :=
  MkAppOp (mop_assign 0 0 (Some motr_kvs_op_ops) mop_zero) WhoNone (Some motr_kvs_op_ops).

Lemma mio_op_init_ready n w s :
  api_ready fid_tinit n w s →
  mio_op_init s = Done (0, set_op (Some fresh_op) s) ∧ api_ready fid_tinit n w (set_op (Some fresh_op) s).
Proof.
  intros (Hl & Hn & Hw & op & Hop). pose proof (live_check _ _ _ Hl) as [Hc Hd].
  unfold mio_op_init. rewrite Hop, Hc. cbn [mbind outcome_bind Z.eqb negb]. rewrite Hd.
  split; [done|]. split_and!; [exact Hl|done|done|by eexists].
Qed.

Lemma cmd_op_init_ready n w s :
  api_ready fid_tinit n w s →
  cmd_op_init s = Done (set_op (Some fresh_op) s) ∧ api_ready fid_tinit n w (set_op (Some fresh_op) s).
Proof.
  intros (Hl & Hn & Hw & _). unfold cmd_op_init.
  destruct (mio_op_init_ready n w (set_op (Some stack_op) s)) as [-> Hr]; [by split_and!|]. done.
Qed.

(** Motr's operations complete: m0_op_wait() returns 0, and m0_rc() that of an
    operation that is stable. *)
Definition waits : Prop := ∀ w, rep_stable (kw_reply w) = true → m0_wait w = (0, 0).

Context (Hwaits : waits) (Hfuel : (0 < poll_fuel)%nat).

(** Waiting for an operation with one driver operation, whose action finishes. *)
Lemma wait_on_op_done n w w' s op dop pp kvps kvps' :
  api_ready fid_tinit n w s → st_op s = Some op → mop_drv_op_chain (ao_op op) = [dop] → mdo_post_proc dop = Some pp →
  rep_stable (kw_reply w) = true → kvs_pp_run pp kvps w = Done (MIO_DRV_OP_FINAL, kvps', w') →
  kvs_wait_on_op kvps s = Done (0, kvps', set_done (set_mop_rc 0 (ao_op op)) w' op s).
Proof.
  intros (Hl & _ & Hw & _) Hop Hch Hdop Hst Hrun. pose proof (live_check _ _ _ Hl) as [Hc _].
  unfold kvs_wait_on_op. rewrite Hop. cbn [deref mbind outcome_bind]. rewrite Hc. cbn [mbind outcome_bind].
  assert (Hone : poll_one kvs_wait kvs_post_proc 0 MIO_TIME_NEVER (ao_op op, kvps, ap_drv (st_api s)) =
    Done (MIO_OP_COMPLETED, true, (set_mop_rc 0 (ao_op op), kvps', w'))).
  { unfold poll_one, kvs_wait. rewrite Hw, (Hwaits w Hst). cbn [fst snd mio_motr_op_wait Z.eqb Z.ltb Z.compare].
    change (MIO_OP_COMPLETED =? MIO_OP_COMPLETED) with true. cbn iota. unfold kvs_post_proc. cbn [fst snd set_mop_rc mop_drv_op_chain].
    rewrite Hch, Hdop. cbn [fmap option_fmap option_map]. unfold kvs_cb_pp. cbn [fst snd]. rewrite Hrun.
    cbn [mbind outcome_bind]. reflexivity. }
  unfold mio_op_poll. cbn [Z.of_nat Pos.of_succ_nat Z.eqb negb andb Z.ltb Z.compare].
  rewrite (poll_loop_one kvs_wait kvs_post_proc _ 0 _ _ _ poll_fuel _ (done_now _ _ _ _ _ Hone)) by lia.
  reflexivity.
Qed.

(** The driver operation [b] is left in the operation on the stack. *)
Definition left_op (b : Z) (s : kvs_state) : Prop :=
  ∃ op dop, st_op s = Some op ∧ mop_op_ops op = Some motr_kvs_op_ops ∧
    mop_drv_op_chain (ao_op op) = [dop] ∧ mdo_mem dop = MkPtr b 0 ∧ mdo_op_args dop = None.

(** A call of the API that launches an operation, and waiting for it. *)
Lemma cmd_exec_launched h0 call kid opcode f kvps kvps' n w w1 s op' req pp own bs :
  calls_driver fid_tinit call kid opcode f → api_ready fid_tinit n w s → st_op s = Some fresh_op →
  let op := mop_assign n opcode (Some motr_kvs_op_ops) (ao_op fresh_op) in
  f op w = Done (0, op', w1) → launched h0 op op' w w1 req pp (own ++ bs) →
  rep_stable (kw_reply w1) = true → pp_finishes h0 pp kvps kvps' w1 own bs →
  ∃ s' w2 b, kvs_cmd_exec call kvps s = Done (0, true, kvps', s') ∧ api_ready fid_tinit (u64 (n + 1)) w2 s' ∧
    left_op b s' ∧ heap_grow h0 (kw_heap w2) (b :: bs) ∧ kw_index w2 = kw_index w1 ∧ kw_reply w2 = kw_reply w1 ∧
    (h_plan (kw_heap w) = [] → h_plan (kw_heap w2) = []).
Proof.
  intros Hcall Hready Hop op Hf (b & Hop' & Hg & Hex & Hp) Hst Hpp. pose proof Hready as (Hl & Hn & Hw & _).
  destruct (Hpp b (kw_heap w1) Hg) as (h' & Hrun & Hg' & Hp'). unfold kvs_cmd_exec.
  erewrite Hcall; [|exact Hl|exact Hop|rewrite Hn, Hw; exact Hf]. cbn [mbind outcome_bind Z.eqb negb].
  erewrite wait_on_op_done; [|by split_and!; [exact Hl|..|by eexists]|reflexivity|by rewrite Hop'|reflexivity|exact Hst|].
  2:{ destruct w1 as [hw iw rw]. exact Hrun. }
  cbn [mbind outcome_bind]. do 3 eexists. split; [reflexivity|]. split.
  { split_and!; [exact Hl|by rewrite <- Hn|reflexivity|by eexists]. }
  split; [do 2 eexists; split_and!; [reflexivity|reflexivity|by rewrite Hop'|done|done]|]. by split_and!; auto.
Qed.

(** A put, get or delete on a set that exists. *)
Lemma cmd_call_refines kid h0 bs c n w m s :
  (∀ req s, 0 <= m0_req_rc req s) → kvs_rel fid_tinit kid h0 bs w m → call_ok c →
  api_ready fid_tinit n w s → st_op s = Some fresh_op →
  ∃ s' w' vs, kvs_cmd_exec (api_kvs_call kid c) (call_pairs c) s = Done (0, true, kr_pairs (spec_call c m).1, s') ∧
    api_ready fid_tinit (u64 (n + 1)) w' s' ∧ rep_rcs (kw_reply w') = kr_rcs (spec_call c m).1 ∧
    kvs_rel fid_tinit kid h0 (vs ++ bs) w' (spec_call c m).2 ∧ length vs = S (lost_blocks c) ∧
    ∀ id', id' ≠ kvs_id_to_uint128 fid_tinit kid → index_at (kw_index w') id' = index_at (kw_index w) id'.
Proof.
  intros Hmotr Hrel Hc Hready Hop. pose proof Hrel as (_ & Hp0 & _).
  destruct (call_launched fid_tinit kid h0 bs (mop_assign n (call_opcode c) (Some motr_kvs_op_ops) (ao_op fresh_op))
    c w m Hmotr Hrel Hc) as (op' & w1 & req & pp & own & vs & Hs & Hl & Hlen & Hpp & Hst & Hrcs & Hidx & Hoth).
  destruct (cmd_exec_launched h0 _ kid _ _ _ _ n w w1 s op' req pp own (vs ++ bs)
    (api_kvs_call_driver fid_tinit kid c) Hready Hop Hs Hl Hst Hpp) as (s' & w' & b & Hex & Hr' & _ & Hg & Hi & Hr & Hp).
  exists s', w', (b :: vs). unfold kvs_rel. rewrite Hi, Hr. split_and!; auto. simpl. by rewrite Hlen.
Qed.

(** Creating and deleting a set release all their memory. *)
Lemma kvs_cmd_set_correct kid h0 bs create n w x :
  (∀ req s, 0 <= m0_req_rc req s) → heap_grow h0 (kw_heap w) bs → h_plan (kw_heap w) = [] →
  api_ready fid_tinit n w (kp_st x) → rep_stable (m0_req_exec (set_req fid_tinit kid create) (kw_index w)).2 = true →
  ∃ s' w', kvs_cmd_set create kid x = Done (0, set_kp_st s' x) ∧ api_ready fid_tinit (u64 (n + 1)) w' s' ∧
    m0_req_exec (set_req fid_tinit kid create) (kw_index w) = (kw_index w', kw_reply w') ∧
    heap_grow h0 (kw_heap w') bs ∧ h_plan (kw_heap w') = [].
Proof.
  intros Hmotr Hg Hp Hready Hst. unfold kvs_cmd_set.
  destruct (cmd_op_init_ready _ _ _ Hready) as [-> Hready1]. cbn [mbind outcome_bind].
  destruct (set_launched fid_tinit kid h0 bs create (mop_assign n (set_opcode create) (Some motr_kvs_op_ops)
    (ao_op fresh_op)) w Hmotr Hg Hp) as (op' & w1 & i & Hs & Hl). pose proof Hl as (_ & _ & _ & Hreq & _).
  rewrite Hreq in Hst.
  destruct (cmd_exec_launched h0 _ kid _ _ [] [] n w w1 _ op' _ _ [i] bs (api_set_fun_driver fid_tinit kid create)
    Hready1 eq_refl Hs Hl Hst (pp_generic_finishes _ _ _ _ _ _)) as
    (s' & w' & b & Hex & (Hli & Hn & Hw & _) & (op & dop & Hop & Hops & Hch & Hmem & Hargs) & Hg2 & Hi & Hr & Hp2).
  unfold api_set_fun in Hex. rewrite Hex. cbn [mbind outcome_bind]. unfold mio_op_fini. rewrite Hop. cbn [mbind outcome_bind].
  rewrite Hops. cbn [mbind outcome_bind motr_kvs_op_ops mopo_fini]. unfold mio_motr_op_fini. rewrite Hch.
  cbn [op_fini_chain]. rewrite Hargs, Hmem, Hw. cbn [mbind outcome_bind].
  destruct (heap_grow_free _ _ _ _ Hg2) as (h2 & -> & Hg3 & Hp3 & _). cbn [mbind outcome_bind].
  eexists _, (set_kw_heap h2 w'). split; [reflexivity|]. split; [split_and!; [exact Hli|exact Hn|reflexivity|by eexists]|].
  cbn [kw_heap kw_index kw_reply set_kw_heap]. rewrite Hi, Hr. split_and!; [done|done|]. rewrite Hp3. auto.
Qed.

(** ** Queries on a map *)

(** The program between two commands: the library is ready, the set of [kid] has
    the contents [m], the other sets are those of [i0], and [lost] blocks of the
    library have been lost. *)
Definition prog_state (kid : mio_obj_id) (h0 : heap) (i0 : mindex) (lost : nat) (m : gmap (list Z) (list Z))
    (x : kvs_prog) : Prop :=
  ∃ n w bs, api_ready fid_tinit n w (kp_st x) ∧ kp_plan x = [] ∧ kvs_rel fid_tinit kid h0 bs w m ∧
    length bs = lost ∧
    ∀ id', id' ≠ kvs_id_to_uint128 fid_tinit kid → index_at (kw_index w) id' = index_at i0 id'.

(** What a command writes to the log. *)
Definition logs (text : list Z) (x x' : kvs_prog) : Prop := kp_log x' = (λ log, log ++ text) <$> kp_log x.

Lemma logs_nil x x' : kp_log x' = kp_log x → logs [] x x'.
Proof. unfold logs. intros ->. destruct (kp_log x); [|done]. simpl. by rewrite app_nil_r. Qed.

Lemma logs_trans s t x y z : logs s x y → logs t y z → logs (s ++ t) x z.
Proof. unfold logs. intros -> ->. destruct (kp_log x); [|done]. simpl. by rewrite <- app_assoc. Qed.

(** Printing changes the log only. *)
Definition prints (text : list Z) (x x' : kvs_prog) : Prop :=
  logs text x x' ∧ kp_st x' = kp_st x ∧ kp_plan x' = kp_plan x.

Lemma prints_nil x : prints [] x x.
Proof. by split; [apply logs_nil|]. Qed.

Lemma kvs_print_pairs_spec pairs x : prints (pairs ≫= pair_line) x (kvs_print_pairs pairs x).
Proof. unfold prints, logs, kvs_print_pairs. by destruct (kp_log x) as [log|] eqn:E. Qed.

Context (Hmotr : ∀ req s, 0 <= m0_req_rc req s).

Section Query.
Context (kid : mio_obj_id) (h0 : heap) (i0 : mindex).
Local Abbreviation rel := (prog_state kid h0 i0).

Lemma prog_state_fresh lost m x x' :
  rel lost m x → kp_st x' = set_op (Some fresh_op) (kp_st x) → kp_plan x' = [] → rel lost m x'.
Proof.
  intros (n & w & bs & Hr & _ & Hrest) Hst Hp. apply mio_op_init_ready in Hr as [_ Hr].
  exists n, w, bs. rewrite Hst. by destruct Hrest as (?&?&?).
Qed.

Lemma kvs_query_fini_spec lost m x :
  rel lost m x → ∃ x', kvs_query_fini x = Done x' ∧ rel lost m x' ∧ kp_log x' = kp_log x.
Proof.
  intros Hrel. pose proof Hrel as (n & w & bs & Hr & Hp & _). apply mio_op_init_ready in Hr as [Hi _].
  exists (set_kp_st (set_op (Some fresh_op) (kp_st x)) x). unfold kvs_query_fini. rewrite Hi. cbn [mbind outcome_bind].
  split_and!; [done| |done]. by eapply prog_state_fresh.
Qed.

Lemma kvs_query_init_spec lost m start nr set_vals pairs random' x :
  rel lost m x → kvs_fill_pairs kid start nr set_vals [] (kp_random x) = Done (pairs, [], random') →
  ∃ x', kvs_query_init kid start nr set_vals x = Done (0, pairs, x') ∧ rel lost m x' ∧ kp_log x' = kp_log x ∧
    st_op (kp_st x') = Some fresh_op.
Proof.
  intros Hrel Hfill. pose proof Hrel as (n & w & bs & Hr & Hp & _). apply cmd_op_init_ready in Hr as [Hi _].
  exists (MkKvsProg (set_op (Some fresh_op) (kp_st x)) [] random' (kp_log x)).
  unfold kvs_query_init. rewrite Hp. cbn [plan_next negb]. rewrite Hfill. cbn [mbind outcome_bind]. rewrite Hi.
  split_and!; try done. by eapply prog_state_fresh.
Qed.

(** The call of the API in a query. *)
Lemma query_call lost m c x :
  rel lost m x → call_ok c → st_op (kp_st x) = Some fresh_op →
  ∃ s', kvs_cmd_exec (api_kvs_call kid c) (call_pairs c) (kp_st x) = Done (0, true, kr_pairs (spec_call c m).1, s') ∧
    rel (lost + S (lost_blocks c)) (spec_call c m).2 (set_kp_st s' x).
Proof.
  intros (n & w & bs & Hr & Hp & Hk & Hlen & Hoth) Hc Hop.
  destruct (cmd_call_refines kid h0 bs c n w m _ Hmotr Hk Hc Hr Hop) as (s' & w' & vs & Hex & Hr' & _ & Hk' & Hlen' & Hoth').
  exists s'. split; [done|]. exists (u64 (n + 1)), w', (vs ++ bs). split_and!; [done..| |].
  - rewrite length_app. lia.
  - intros id' Hid. by rewrite Hoth', Hoth.
Qed.

(** A query: the pairs of a call, and what is printed around it. *)
Lemma kvs_cmd_query_spec lost m c start nr set_vals call before after text1 text2 random' x :
  rel lost m x → call_ok c →
  kvs_fill_pairs kid start nr set_vals [] (kp_random x) = Done (call_pairs c, [], random') →
  (∀ y, kp_log y = kp_log x → ∃ y', before (call_pairs c) y = Done y' ∧ prints text1 y y') →
  (∀ n w s, api_ready fid_tinit n w s → st_op s = Some fresh_op → call (call_pairs c) s = api_kvs_call kid c s) →
  (∀ y, prints text2 y (after (kr_pairs (spec_call c m).1) y)) →
  ∃ x', kvs_query kid start nr set_vals call before after x = Done (0, x') ∧
    rel (lost + S (lost_blocks c)) (spec_call c m).2 x' ∧ logs (text1 ++ text2) x x'.
Proof.
  intros Hrel Hc Hfill Hbefore Hcall Hafter. unfold kvs_query.
  destruct (kvs_query_init_spec _ _ _ _ _ _ _ _ Hrel Hfill) as (x1 & -> & Hrel1 & Hlog1 & Hop1).
  cbn [mbind outcome_bind Z.ltb Z.compare].
  destruct (Hbefore x1 Hlog1) as (x2 & -> & Hlog2 & Hst2 & Hpl2). cbn [mbind outcome_bind].
  rewrite <- Hst2 in Hop1.
  assert (Hrel2 : rel lost m x2).
  { destruct Hrel1 as (n & w & bs & Hr & Hp & Hrest). exists n, w, bs. by rewrite Hst2, Hpl2. }
  destruct (query_call lost m c x2 Hrel2 Hc Hop1) as (s' & Hex & Hrel3).
  destruct Hrel2 as (n & w & bs & Hr & _). unfold kvs_cmd_exec in Hex |- *. rewrite (Hcall _ _ _ Hr Hop1), Hex.
  cbn [mbind outcome_bind negb Z.eqb]. destruct (Hafter (set_kp_st s' x2)) as (Hlog4 & Hst4 & Hpl4).
  assert (Hrel4 : rel (lost + S (lost_blocks c)) (spec_call c m).2
    (after (kr_pairs (spec_call c m).1) (set_kp_st s' x2))).
  { destruct Hrel3 as (n' & w' & bs' & Hr' & Hp' & Hrest'). exists n', w', bs'. by rewrite Hst4, Hpl4. }
  destruct (kvs_query_fini_spec _ _ _ Hrel4) as (x5 & -> & Hrel5 & Hlog5). cbn [mbind outcome_bind].
  exists x5. split_and!; [done..|]. unfold logs in *. rewrite Hlog5, Hlog4. cbn [set_kp_st kp_log].
  rewrite Hlog2, Hlog1. destruct (kp_log x); [|done]. simpl. by rewrite <- app_assoc.
Qed.

(** ** The queries of one batch *)

Definition batch_range (start nr : Z) : Prop := numbered start nr ∧ 0 < nr <= KVS_MAX_NR_PAIRS_PER_OP.

(** The pairs of a put. *)
Definition demo_pairs (start nr : Z) (kvs : list (list Z * list Z)) : Prop :=
  kvs.*1 = kvs_keys kid start nr ∧ Forall demo_val kvs.*2.

Lemma kvs_query_put_spec lost m start nr x :
  rel lost m x → batch_range start nr →
  ∃ kvs x', kvs_query_put kid start nr x = Done (0, x') ∧ demo_pairs start nr kvs ∧
    rel (lost + 7) (put_new m kvs) x' ∧ logs ((full_pair <$> kvs) ≫= pair_line) x x'.
Proof.
  intros Hrel [Hn Hnr]. pose proof Hn as (H1 & H2 & H3).
  destruct (fill_loop_vals kid start nr (Z.to_nat nr) 0 (kp_random x)) as (kvs & random' & Hfill & Hk & Hv); [lia..|].
  rewrite Z.add_0_r, Z2Nat.id in Hk by lia.
  destruct (kvs_cmd_query_spec lost m (KPut kvs) start nr true (mio_kvs_pair_put (Some kid))
    (λ pairs x, Done (kvs_print_pairs pairs x)) (λ _ x, x) ((full_pair <$> kvs) ≫= pair_line) [] random' x)
    as (x' & Hq & Hrel' & Hlog); [done| |done| |done| |].
  - simpl. rewrite Hk. apply kvs_keys_NoDup; lia.
  - intros y _. eexists. split; [done|]. apply kvs_print_pairs_spec.
  - intros y. apply prints_nil.
  - rewrite app_nil_r in Hlog. by exists kvs, x'.
Qed.

(** What a get finds. *)
Definition found_pairs (m : gmap (list Z) (list Z)) (ks : list (list Z)) : list mio_kv_pair :=
  (λ k, match m !! k with Some v => full_pair (k, v) | None => key_pair k end) <$> ks.

Lemma kvs_query_get_spec lost m start nr x :
  rel lost m x → batch_range start nr →
  ∃ x', kvs_query_get kid start nr x = Done (0, x') ∧ rel (lost + 7) m x' ∧
    logs (found_pairs m (kvs_keys kid start nr) ≫= pair_line) x x'.
Proof.
  intros Hrel [Hn Hnr].
  destruct (kvs_cmd_query_spec lost m (KGet (kvs_keys kid start nr)) start nr false (mio_kvs_pair_get (Some kid))
    (λ _ x, Done x) kvs_print_pairs [] (found_pairs m (kvs_keys kid start nr) ≫= pair_line) (kp_random x) x)
    as (x' & Hq & Hrel' & Hlog); [done|done|by apply fill_pairs_keys| |done| |].
  - intros y _. eexists. split; [done|apply prints_nil].
  - intros y. apply kvs_print_pairs_spec.
  - by exists x'.
Qed.

Lemma kvs_query_del_spec lost m start nr x :
  rel lost m x → batch_range start nr → kp_log x = None →
  ∃ x', kvs_query_del kid start nr x = Done (0, x') ∧ rel (lost + 4) (foldr delete m (kvs_keys kid start nr)) x' ∧
    kp_log x' = None.
Proof.
  intros Hrel [Hn Hnr] Hnone. pose proof Hn as (H1 & H2 & H3). unfold kvs_query_del.
  edestruct (kvs_cmd_query_spec lost m (KDel (kvs_keys kid start nr)) start nr false) as (x' & Hq & Hrel' & Hlog);
    [exact Hrel|apply kvs_keys_NoDup; lia|by apply fill_pairs_keys| | | |exists x'; split; [exact Hq|]].
  - intros y Hy. exists y. cbn beta. rewrite Hy, Hnone. split; [done|apply prints_nil].
  - intros n w s Hr Hop. cbn beta. apply cmd_op_init_ready in Hr as [-> _]. cbn [mbind outcome_bind].
    replace (set_op (Some fresh_op) s) with s; [done|]. destruct s as [a o p]. cbn in Hop |- *. by rewrite Hop.
  - intros y. apply prints_nil.
  - split; [done|]. unfold logs in Hlog. by rewrite Hnone in Hlog.
Qed.

(** ** Batches *)

Definition kvs_rounds (nr : Z) : nat := Z.to_nat ((nr + KVS_MAX_NR_PAIRS_PER_OP - 1) / KVS_MAX_NR_PAIRS_PER_OP).

Lemma kvs_rounds_step nr :
  0 < nr → kvs_rounds nr = S (kvs_rounds (nr - Z.min KVS_MAX_NR_PAIRS_PER_OP nr)).
Proof.
  intros Hnr. unfold kvs_rounds, KVS_MAX_NR_PAIRS_PER_OP.
  rewrite <- Z2Nat.inj_succ by (apply Z.div_pos; lia). f_equal.
  destruct (Z.le_gt_cases 1024 nr).
  - rewrite Z.min_l by done. replace (nr + 1024 - 1) with (nr - 1024 + 1024 - 1 + 1 * 1024) by lia.
    rewrite Z.div_add by done. lia.
  - rewrite Z.min_r by lia. rewrite Z.sub_diag. change ((0 + 1024 - 1) / 1024) with 0.
    symmetry. apply (Z.div_unique _ _ _ (nr - 1)); lia.
Qed.

(** The loop: [P] holds of the number of batches and of pairs that are done. *)
Lemma kvs_batches_spec query (P : nat → Z → kvs_prog → Prop) start total :
  numbered start total →
  (∀ k i nr x, P k i x → 0 <= i → i + nr <= total → batch_range (start + i) nr →
     ∃ x', query (start + i) nr x = Done (0, x') ∧ P (S k) (i + nr) x') →
  ∀ fuel k i x, P k i x → 0 <= i <= total → (kvs_rounds (total - i) < fuel)%nat →
  ∃ x', kvs_batches query fuel 0 (start + i) (total - i) x = Done (0, x') ∧ P (k + kvs_rounds (total - i))%nat total x'.
Proof.
  intros (H1 & H2 & H3) Hq fuel. induction fuel as [|fuel IH]; intros k i x HP Hi Hf; [lia|]. cbn [kvs_batches].
  destruct (Z.ltb_spec 0 (total - i)) as [Hlt|Hge]; cbn [negb].
  - pose proof (kvs_rounds_step _ Hlt) as Hr.
    replace (if KVS_MAX_NR_PAIRS_PER_OP <? total - i then KVS_MAX_NR_PAIRS_PER_OP else total - i)
      with (Z.min KVS_MAX_NR_PAIRS_PER_OP (total - i)) by (destruct (Z.ltb_spec KVS_MAX_NR_PAIRS_PER_OP (total - i)); lia).
    revert Hr. unfold batch_range, numbered, KVS_MAX_NR_PAIRS_PER_OP in *. set (nr := Z.min 1024 (total - i)). intros Hr.
    destruct (Hq k i nr x HP) as (x1 & -> & HP1); [lia..|]. cbn [mbind outcome_bind Z.eqb negb].
    rewrite s32_small by lia. replace (start + i + nr) with (start + (i + nr)) by lia.
    replace (total - i - nr) with (total - (i + nr)) by lia.
    replace (total - i - nr) with (total - (i + nr)) in Hr by lia.
    destruct (IH (S k) (i + nr) x1 HP1) as (x' & -> & HP'); [lia..|]. exists x'. split; [done|].
    rewrite Hr. by replace (k + S (kvs_rounds (total - (i + nr))))%nat with (S k + kvs_rounds (total - (i + nr)))%nat by lia.
  - exists x. split; [done|]. replace (total - i) with 0 by lia. change (kvs_rounds 0) with O.
    rewrite Nat.add_0_r. by replace total with i by lia.
Qed.

(** ** The commands on a map *)

Lemma put_new_app (m : gmap (list Z) (list Z)) l1 l2 : put_new (put_new m l1) l2 = put_new m (l1 ++ l2).
Proof. unfold put_new. by rewrite list_to_map_app, map_union_assoc. Qed.

Lemma lookup_foldr_delete_spec (m : gmap (list Z) (list Z)) l k :
  foldr delete m l !! k = if decide (k ∈ l) then None else m !! k.
Proof.
  case_decide; [by apply lookup_foldr_delete|by apply lookup_foldr_delete_not_elem_of].
Qed.

Lemma foldr_delete_then (m : gmap (list Z) (list Z)) l1 l2 :
  foldr delete (foldr delete m l1) l2 = foldr delete m (l1 ++ l2).
Proof.
  apply map_eq. intros k. rewrite !lookup_foldr_delete_spec. repeat case_decide; set_solver.
Qed.

Lemma demo_pairs_app start a b l1 l2 :
  0 <= a → 0 <= b → demo_pairs start a l1 → demo_pairs (start + a) b l2 → demo_pairs start (a + b) (l1 ++ l2).
Proof.
  intros Ha Hb [Hk1 Hv1] [Hk2 Hv2]. split; rewrite fmap_app; [by rewrite Hk1, Hk2, kvs_keys_app|by apply Forall_app].
Qed.

Lemma insert_pairs_spec lost m start nr fuel x :
  rel lost m x → numbered start nr → (kvs_rounds nr < fuel)%nat →
  ∃ kvs x', mio_cmd_kvs_insert_pairs fuel kid start nr x = Done (0, x') ∧ demo_pairs start nr kvs ∧
    rel (lost + 7 * kvs_rounds nr) (put_new m kvs) x' ∧ logs ((full_pair <$> kvs) ≫= pair_line) x x'.
Proof.
  intros Hrel Hn Hf. pose proof Hn as (_ & Hnr & _).
  destruct (kvs_batches_spec (kvs_query_put kid) (λ k i y, ∃ kvs, demo_pairs start i kvs ∧
      rel (lost + 7 * k) (put_new m kvs) y ∧ logs ((full_pair <$> kvs) ≫= pair_line) x y) start nr Hn)
    with (fuel := fuel) (k := O) (i := 0) (x := x) as (x' & Hb & kvs & Hd & Hr & Hl).
  - intros k i n y (kvs & Hd & Hr & Hl) Hi Hle Hbatch.
    destruct (kvs_query_put_spec _ _ _ _ _ Hr Hbatch) as (kvs' & y' & Hq & Hd' & Hr' & Hl').
    exists y'. split; [done|]. exists (kvs ++ kvs'). destruct Hbatch as [_ Hn'].
    split; [apply demo_pairs_app; [lia|lia|done..]|]. split.
    + rewrite <- put_new_app. by replace (lost + 7 * S k)%nat with (lost + 7 * k + 7)%nat by lia.
    + rewrite fmap_app, bind_app. by eapply logs_trans.
  - exists []. split; [by split|]. split; [|by apply logs_nil].
    rewrite Nat.mul_0_r, Nat.add_0_r. by replace (put_new m []) with m by (symmetry; apply map_union_empty).
  - lia.
  - by rewrite Z.sub_0_r.
  - rewrite Z.sub_0_r, Z.add_0_r in *. by exists kvs, x'.
Qed.

Lemma retrieve_pairs_spec lost m start nr fuel x :
  rel lost m x → numbered start nr → (kvs_rounds nr < fuel)%nat →
  ∃ x', mio_cmd_kvs_retrieve_pairs fuel kid start nr x = Done (0, x') ∧ rel (lost + 7 * kvs_rounds nr) m x' ∧
    logs (found_pairs m (kvs_keys kid start nr) ≫= pair_line) x x'.
Proof.
  intros Hrel Hn Hf. pose proof Hn as (_ & Hnr & _).
  destruct (kvs_batches_spec (kvs_query_get kid) (λ k i y, rel (lost + 7 * k) m y ∧
      logs (found_pairs m (kvs_keys kid start i) ≫= pair_line) x y) start nr Hn)
    with (fuel := fuel) (k := O) (i := 0) (x := x) as (x' & Hb & Hr & Hl).
  - intros k i n y (Hr & Hl) Hi Hle Hbatch.
    destruct (kvs_query_get_spec _ _ _ _ _ Hr Hbatch) as (y' & Hq & Hr' & Hl').
    exists y'. split; [done|]. destruct Hbatch as [_ Hn']. split.
    + by replace (lost + 7 * S k)%nat with (lost + 7 * k + 7)%nat by lia.
    + rewrite kvs_keys_app by lia. unfold found_pairs. rewrite fmap_app, bind_app. by eapply logs_trans.
  - rewrite Nat.mul_0_r, Nat.add_0_r. split; [done|by apply logs_nil].
  - lia.
  - by rewrite Z.sub_0_r.
  - rewrite Z.sub_0_r, Z.add_0_r in *. by exists x'.
Qed.

Lemma del_pairs_spec lost m start nr fuel x :
  rel lost m x → numbered start nr → kp_log x = None → (kvs_rounds nr < fuel)%nat →
  ∃ x', mio_cmd_kvs_del_pairs fuel kid start nr x = Done (0, x') ∧
    rel (lost + 4 * kvs_rounds nr) (foldr delete m (kvs_keys kid start nr)) x' ∧ kp_log x' = None.
Proof.
  intros Hrel Hn Hlog Hf. pose proof Hn as (_ & Hnr & _).
  destruct (kvs_batches_spec (kvs_query_del kid) (λ k i y,
      rel (lost + 4 * k) (foldr delete m (kvs_keys kid start i)) y ∧ kp_log y = None) start nr Hn)
    with (fuel := fuel) (k := O) (i := 0) (x := x) as (x' & Hb & Hr & Hl).
  - intros k i n y (Hr & Hl) Hi Hle Hbatch.
    destruct (kvs_query_del_spec _ _ _ _ _ Hr Hbatch Hl) as (y' & Hq & Hr' & Hl').
    exists y'. split; [done|]. destruct Hbatch as [_ Hn']. split; [|done].
    rewrite kvs_keys_app, <- foldr_delete_then by lia.
    by replace (lost + 4 * S k)%nat with (lost + 4 * k + 4)%nat by lia.
  - by rewrite Nat.mul_0_r, Nat.add_0_r.
  - lia.
  - by rewrite Z.sub_0_r.
  - rewrite Z.sub_0_r, Z.add_0_r in *. by exists x'.
Qed.
End Query.
End KvsCmd.

(** The pairs that were inserted, with keys that were not in the set. *)
Lemma found_pairs_inserted `{HostOrder} (kid : mio_obj_id) (start nr : Z) (kvs : list (list Z * list Z)) (m : gmap (list Z) (list Z)) :
  numbered start nr → demo_pairs kid start nr kvs → Forall (λ k, m !! k = None) (kvs_keys kid start nr) →
  found_pairs (put_new m kvs) (kvs_keys kid start nr) = full_pair <$> kvs ∧
  foldr delete (put_new m kvs) (kvs_keys kid start nr) = m.
Proof.
  intros (H1 & H2 & H3) [Hk _] Hnew. rewrite <- Hk in Hnew |- *.
  assert (Hnd : NoDup kvs.*1) by (rewrite Hk; apply kvs_keys_NoDup; lia). unfold put_new, found_pairs. split.
  - rewrite <- list_fmap_compose. apply list_fmap_ext. intros i [k v] Hi. unfold compose. cbn [fst].
    rewrite Forall_forall in Hnew. apply list_elem_of_lookup_2 in Hi.
    rewrite lookup_union_r by (apply Hnew, list_elem_of_fmap; by exists (k, v)).
    by assert ((list_to_map kvs : gmap (list Z) (list Z)) !! k = Some v) as -> by (by apply elem_of_list_to_map_1).
  - apply map_eq. intros k. rewrite lookup_foldr_delete_spec. case_decide as Hin.
    + symmetry. by eapply Forall_forall in Hnew.
    + rewrite lookup_union_l; [done|]. by apply not_elem_of_list_to_map_1.
Qed.

(** The program writes to no log. *)
Definition without_log `{MotrIndex} (x : kvs_prog) : kvs_prog :=
  MkKvsProg (kp_st x) (kp_plan x) (kp_random x) None.

(** (C17) Numbered pairs from the command line down to Motr.  As long as malloc()
    and Motr accept the requests, inserting [nr_pairs] new pairs in batches
    returns 0 and leaves the set with exactly these pairs added; retrieving them
    returns 0 and prints the very lines that inserting them has printed; deleting
    them, without a log, returns 0 and leaves the set with what it held before.
    The sets of other ids are never touched, and every batch loses the driver
    operations and the vectors of its three operations, 18 blocks. *)
Theorem mio_cmd_kvs_roundtrip (host : HostOrder) (motr : MotrIndex) (fid_tinit : Z → Z → Z → m0_fid)
    (m0_wait : kvs_world → Z * Z) (poll_fuel fuel : nat) (kid : mio_obj_id) (start nr : Z) (h0 : heap) (i0 : mindex)
    (lost : nat) (m : gmap (list Z) (list Z)) (log : list Z) (x : kvs_prog)
  (Hwaits : waits m0_wait) (Hmotr : ∀ req s, 0 <= m0_req_rc req s) (Hpoll : (0 < poll_fuel)%nat)
  (Hfuel : (kvs_rounds nr < fuel)%nat) (Hx : prog_state fid_tinit kid h0 i0 lost m x) (Hlog : kp_log x = Some log)
  (Hn : numbered start nr) (Hnew : Forall (λ k, m !! k = None) (kvs_keys kid start nr)) :
  ∃ kvs x1 x2 x3, let text := (full_pair <$> kvs) ≫= pair_line in
    demo_pairs kid start nr kvs ∧
    mio_cmd_kvs_insert_pairs m0_wait poll_fuel fuel kid start nr x = Done (0, x1) ∧
    kp_log x1 = Some (log ++ text) ∧
    prog_state fid_tinit kid h0 i0 (lost + 7 * kvs_rounds nr) (m ∪ list_to_map kvs) x1 ∧
    mio_cmd_kvs_retrieve_pairs m0_wait poll_fuel fuel kid start nr x1 = Done (0, x2) ∧
    kp_log x2 = Some (log ++ text ++ text) ∧
    mio_cmd_kvs_del_pairs m0_wait poll_fuel fuel kid start nr (without_log x2) = Done (0, x3) ∧
    prog_state fid_tinit kid h0 i0 (lost + 18 * kvs_rounds nr) m x3.
Proof.
  destruct (insert_pairs_spec fid_tinit m0_wait poll_fuel Hwaits Hpoll Hmotr kid h0 i0 lost m start nr fuel x Hx Hn Hfuel)
    as (kvs & x1 & Hi & Hd & Hx1 & Hl1).
  destruct (found_pairs_inserted kid start nr kvs m Hn Hd Hnew) as [Hfound Hdel].
  destruct (retrieve_pairs_spec fid_tinit m0_wait poll_fuel Hwaits Hpoll Hmotr kid h0 i0 _ _ start nr fuel x1 Hx1 Hn Hfuel)
    as (x2 & Hg & Hx2 & Hl2). rewrite Hfound in Hl2.
  assert (Hx2' : prog_state fid_tinit kid h0 i0 (lost + 7 * kvs_rounds nr + 7 * kvs_rounds nr) (put_new m kvs) (without_log x2))
    by exact Hx2.
  destruct (del_pairs_spec fid_tinit m0_wait poll_fuel Hwaits Hpoll Hmotr kid h0 i0 _ _ start nr fuel _ Hx2' Hn eq_refl Hfuel)
    as (x3 & Hr & Hx3 & _). rewrite Hdel in Hx3.
  exists kvs, x1, x2, x3. unfold logs in Hl1, Hl2. rewrite Hlog in Hl1. rewrite Hl1 in Hl2.
  split_and!; try done; [by rewrite Hl2, app_assoc|].
  by replace (lost + 18 * kvs_rounds nr)%nat with (lost + 7 * kvs_rounds nr + 7 * kvs_rounds nr + 4 * kvs_rounds nr)%nat
    by lia.
Qed.

(** ** Concrete runs *)

Definition ex_kvs_prog (m : gmap (list Z) (list Z)) (log : option (list Z)) : kvs_prog :=
  MkKvsProg (ex_api_state (@MkKvsWorld map_motr (ex_kvs_heap []) (λ _, Some m) (MkReply true [] [] []))) [] [7; 8; 1] log.

Definition ex_insert := @mio_cmd_kvs_insert_pairs false map_motr (λ _, (0, 0)) 1 3 ex_kvs_id.
Definition ex_retrieve := @mio_cmd_kvs_retrieve_pairs false map_motr (λ _, (0, 0)) 1 3 ex_kvs_id.
Definition ex_del := @mio_cmd_kvs_del_pairs false map_motr (λ _, (0, 0)) 1 3 ex_kvs_id.
Definition ex_list := @mio_cmd_kvs_list_pairs false map_motr (λ _, (0, 0)) 1 3 ex_kvs_id.

(** What a command returns and has printed. *)
Definition ran `{MotrIndex} (r : outcome (Z * kvs_prog)) : outcome (Z * option (list Z)) := '(rc, x) ← r; Done (rc, kp_log x).

Lemma mio_cmd_kvs_roundtrip_witness :
  let x := ex_kvs_prog ∅ (Some []) in
  let line k v := str k ++ [9; 9] ++ str v ++ [10] in
  let text := line "0:9:4"%string "MIO KVS demo 1"%string ++ line "0:9:5"%string "MIO KVS demo 0"%string in
  ∃ x1 x2 x3, ex_insert 4 2 x = Done (0, x1) ∧ kp_log x1 = Some text ∧
    ex_retrieve 4 2 x1 = Done (0, x2) ∧ kp_log x2 = Some (text ++ text) ∧ ex_del 4 2 (without_log x2) = Done (0, x3).
Proof.
  intros x line text.
  destruct (@mio_cmd_kvs_roundtrip false map_motr ex_fid_tinit (λ _, (0, 0)) 1 3 ex_kvs_id 4 2 (ex_kvs_heap [])
    (λ _, Some ∅) 0 ∅ [] x) as (kvs & x1 & x2 & x3 & _ & H1 & H2 & _ & H3 & H4 & H5 & _).
  - done.
  - done.
  - lia.
  - vm_compute. lia.
  - eexists 7, _, []. split_and!; [split; [by split_and!|split_and!; [reflexivity|reflexivity|by eexists]]|reflexivity| |done|done].
    split_and!; [apply heap_grow_refl, ex_kvs_heap_ok|reflexivity|reflexivity].
  - done.
  - split_and!; lia.
  - repeat constructor; apply lookup_empty.
  - exists x1, x2, x3. unfold ex_insert, ex_retrieve, ex_del.
    assert (E1 : ran (ex_insert 4 2 x) = Done (0, Some text)) by (vm_compute; reflexivity).
    unfold ex_insert in E1. rewrite H1 in E1. cbn in E1. injection E1 as E1.
    cbn zeta in H2, H4. rewrite E1 in H2. injection H2 as H2. rewrite <- H2 in H4.
    split_and!; [exact H1|exact E1|exact H3|exact H4|exact H5].
Defined.

(** Listing more than one pair uses an array of one pair as if it were longer. *)
Theorem mio_cmd_kvs_list_pairs_overrun (host : HostOrder) (motr : MotrIndex) (fid_tinit : Z → Z → Z → m0_fid)
    (m0_wait : kvs_world → Z * Z) (poll_fuel fuel : nat) (kid : mio_obj_id) (start nr : Z) (h0 : heap) (i0 : mindex)
    (lost : nat) (m : gmap (list Z) (list Z)) (x : kvs_prog) :
  prog_state fid_tinit kid h0 i0 lost m x → numbered start 1 → 1 < nr → (0 < fuel)%nat →
  mio_cmd_kvs_list_pairs m0_wait poll_fuel fuel kid start nr x = Fault OutOfBounds.
Proof.
  intros Hx Hn Hnr Hf. destruct fuel as [|fuel]; [lia|]. unfold mio_cmd_kvs_list_pairs. cbn [list_loop].
  rewrite (proj2 (Z.ltb_lt 0 nr)) by lia. cbn [negb]. unfold kvs_query_next.
  destruct (kvs_query_init_spec fid_tinit kid h0 i0 lost m start 1 false _ _ x Hx (fill_pairs_keys kid start 1 _ Hn))
    as (x1 & -> & _). cbn [mbind outcome_bind Z.ltb Z.compare].
  rewrite (proj2 (Z.ltb_lt 1 (if _ : bool then _ else _))); [done|].
  unfold KVS_MAX_NR_PAIRS_PER_OP. destruct (1024 <? nr); lia.
Qed.

(** A key that is there keeps its value; a key that is not there is printed with
    (null); a log does not go with deleting; one pair can be listed. *)
Definition old_key : gmap (list Z) (list Z) := {[ str "0:9:4"%string ++ [0] := str "old"%string ++ [0] ]}.

Example insert_existing :
  ran ('(_, x) ← ex_insert 4 1 (ex_kvs_prog old_key None);
       ex_retrieve 4 2 (MkKvsProg (kp_st x) [] [] (Some []))) =
  Done (0, Some (str "0:9:4"%string ++ [9; 9] ++ str "old"%string ++ [10] ++
                 str "0:9:5"%string ++ [9; 9] ++ str "(null)"%string ++ [10])).
Proof. vm_compute. reflexivity. Qed.

Example delete_with_log : ran (ex_del 4 1 (ex_kvs_prog old_key (Some []))) = Fault UninitRead.
Proof. vm_compute. reflexivity. Qed.

Example list_one :
  ran (ex_list 1 1 (ex_kvs_prog old_key (Some []))) =
  Done (0, Some (str "0:9:4"%string ++ [9; 9] ++ str "old"%string ++ [10])).
Proof. vm_compute. reflexivity. Qed.

Example list_two : ran (ex_list 4 2 (ex_kvs_prog old_key (Some []))) = Fault OutOfBounds.
Proof. vm_compute. reflexivity. Qed.

(** Malloc() failing for the temporary string: pairs that were never set are released. *)
Example insert_out_of_memory :
  let x := ex_kvs_prog ∅ None in
  ran (ex_insert 4 1 (MkKvsProg (kp_st x) [true; true; false] [] None)) = Fault UninitRead ∧
  ran (ex_insert 4 1 (MkKvsProg (kp_st x) [true; false] [] None)) = Done (- ENOMEM, None).
Proof. split; vm_compute; reflexivity. Qed.
