(* ===== verification/CompObj.v ===== *)
(** * Composite objects (src/driver_motr_comp_obj.c)

    A composite object is a list of layers, kept by Motr as the layout of the
    object, and every layer has an index of extents.  The driver keeps a copy of
    the layout, to which the Motr object points.  Motr's layouts and the encoding
    of extents are the class [MotrLayout]; indices are those of [KvsDriver]. *)

From S2P Require Import Prelude Bytes ObjId HintMap Mem Types DriverOp KvsDriver Api.
Open Scope Z_scope.

(** ** Motr's side *)

(** A layer as Motr keeps it. *)
Record m0_layer := MkM0Layer { ccr_subobj : m0_uint128; ccr_priority : Z }.

#[global] Instance m0_layer_eq_dec : EqDecision m0_layer.
Proof. solve_decision. Defined.

(** Layouts: allocation, the list of layers, the layouts of the objects that
    exist, and setting and getting them; the encoding of extents. *)
Class MotrLayout := {
  mlayouts : Type;
  obj_layout : mlayouts → m0_uint128 → option (list m0_layer);
  sizeof_m0_layout : Z;
  sizeof_m0_obj : Z;
  m0_client_layout_alloc : heap → ptr * heap;
  m0_client_layout_free : ptr → heap → outcome heap;
  m0_op_fini_null : outcome unit;
  m0_composite_layer_add : list m0_layer → m0_uint128 → Z → Z * list m0_layer;
  m0_composite_layer_del : list m0_layer → m0_uint128 → list m0_layer;
  m0_layout_set : m0_uint128 → list m0_layer → mlayouts → mlayouts * bool;
  m0_layout_get : m0_uint128 → mlayouts → mlayouts * bool * list m0_layer;
  m0_layout_alloc_law : ∀ h, m0_client_layout_alloc h = mio_mem_alloc sizeof_m0_layout h;
  m0_layout_free_law : ∀ p h, m0_client_layout_free p h = mio_mem_free p h;
  m0_layer_add_law : ∀ l id prio, let '(rc, l') := m0_composite_layer_add l id prio in
    rc = 0 ∧ l' ≡ₚ MkM0Layer id prio :: l ∨ rc < 0 ∧ l' = l;
  m0_layer_del_law : ∀ l id, m0_composite_layer_del l id = filter (λ x, ccr_subobj x ≠ id) l;
  m0_layout_set_law : ∀ s id l l0, obj_layout s id = Some l0 →
    let '(s', ok) := m0_layout_set id l s in
    ok = true ∧ obj_layout s' id = Some l ∧ ∀ id', id' ≠ id → obj_layout s' id' = obj_layout s id';
  m0_layout_get_law : ∀ s id l, obj_layout s id = Some l →
    let '(s', ok, l') := m0_layout_get id s in
    ok = true ∧ l' = l ∧ ∀ id', obj_layout s' id' = obj_layout s id';
  layer_idx_id : m0_uint128 → m0_uint128;
  m0_ext_key_to_buf : m0_uint128 → Z → Z * bufent;
  m0_ext_val_to_buf : Z → Z * bufent;
  m0_ext_key_from_buf : option (list Z) → outcome Z;
  m0_ext_val_from_buf : list Z → Z;
  m0_ext_bufvec_free : option m0_bufvec → heap → outcome heap;
  m0_ext_bufvec_free_law : ∀ bv h, m0_ext_bufvec_free bv h =
    match bv with
    | None => Done h
    | Some bv => h ← mio_mem_free (bv_buf bv) h; mio_mem_free (bv_count bv) h
    end
}.

(** The requests of the driver: the layout of an object from or into the copy at
    an address, and queries on the index of a layer. *)
Inductive comp_req :=
| LayoutSet (obj : m0_uint128) (layout : ptr)
| LayoutGet (obj : m0_uint128) (layout : ptr)
| ExtQuery (req : m0_req).

(** ** Arguments of the post-processing actions *)

(** struct motr_comp_obj_add_layer_pp_args. *)
Record add_layers_args := MkAddLayers {
  alpa_self : ptr;
  alpa_nr_layers_to_add : Z;
  alpa_layer_objs : ptr;
  alpa_layout : ptr
}.

(** struct motr_comp_obj_get_layers_args; gla_data is, for deleting, struct
    motr_comp_obj_del_layers_args, and the layout of the application otherwise. *)
Inductive layers_query :=
| DelQuery (self : ptr) (layers_to_del : list mio_comp_obj_layer)
| ListQuery.

Record get_layers_args := MkGetLayers { gla_self : ptr; gla_clayout : ptr; gla_data : layers_query }.

(** struct motr_comp_obj_exts_pp_args. *)
Record exts_args := MkExtsArgs {
  epa_self : ptr;
  epa_idx : ptr;
  epa_keys : m0_bufvec;
  epa_vals : option m0_bufvec;
  epa_rcs : ptr;
  epa_ret_exts : list mio_obj_ext
}.

Inductive comp_pp :=
| PpAddLayers (args : add_layers_args)
| PpDelLayers (args : get_layers_args)
| PpListLayers (args : get_layers_args)
| PpExtsRelease (args : exts_args)
| PpExtsGet (args : exts_args).

Abbreviation comp_mop := (mio_op comp_req Empty_set comp_pp).

Definition SIZEOF_ADD_LAYERS_ARGS : Z := 24.
Definition SIZEOF_GET_LAYERS_ARGS : Z := 16.
Definition SIZEOF_DEL_LAYERS_ARGS : Z := 16.
Definition SIZEOF_EXTS_ARGS : Z := 48.
Definition SIZEOF_COMP_OBJ_LAYER : Z := 20.

(** struct mio_comp_obj_layout. *)
Record mio_comp_obj_layout := MkLayout { mlo_nr_layers : Z; mlo_layers : option (list mio_comp_obj_layer) }.

Section CompObj.
Context `{HostOrder} `{MotrIndex} `{MotrLayout}.

(** Memory, the copies of layouts by block, the pointer ob_layout of the Motr
    object, Motr's layouts and indices, what the last request returned, and what
    the application has got. *)
Record comp_world := MkCompWorld {
  cw_heap : heap;
  cw_copies : gmap Z (list m0_layer);
  ob_layout : ptr;
  cw_layouts : mlayouts;
  cw_index : mindex;
  cw_stable : bool;
  cw_reply : m0_reply;
  cw_ret_layout : mio_comp_obj_layout;
  cw_ret_exts : list mio_obj_ext;
  cw_nr_ret_exts : Z
}.

Definition set_cheap (h : heap) (w : comp_world) : comp_world :=
  MkCompWorld h (cw_copies w) (ob_layout w) (cw_layouts w) (cw_index w) (cw_stable w) (cw_reply w)
    (cw_ret_layout w) (cw_ret_exts w) (cw_nr_ret_exts w).
Definition set_copies (c : gmap Z (list m0_layer)) (w : comp_world) : comp_world :=
  MkCompWorld (cw_heap w) c (ob_layout w) (cw_layouts w) (cw_index w) (cw_stable w) (cw_reply w)
    (cw_ret_layout w) (cw_ret_exts w) (cw_nr_ret_exts w).
Definition set_ob_layout (p : ptr) (w : comp_world) : comp_world :=
  MkCompWorld (cw_heap w) (cw_copies w) p (cw_layouts w) (cw_index w) (cw_stable w) (cw_reply w)
    (cw_ret_layout w) (cw_ret_exts w) (cw_nr_ret_exts w).
Definition set_ret_layout (l : mio_comp_obj_layout) (w : comp_world) : comp_world :=
  MkCompWorld (cw_heap w) (cw_copies w) (ob_layout w) (cw_layouts w) (cw_index w) (cw_stable w) (cw_reply w)
    l (cw_ret_exts w) (cw_nr_ret_exts w).
Definition set_ret_exts (l : list mio_obj_ext) (n : Z) (w : comp_world) : comp_world :=
  MkCompWorld (cw_heap w) (cw_copies w) (ob_layout w) (cw_layouts w) (cw_index w) (cw_stable w) (cw_reply w)
    (cw_ret_layout w) l n.

(** The layers of the copy at [p]. *)
Definition copy_at (p : ptr) (w : comp_world) : list m0_layer := default [] (cw_copies w !! p_blk p).

(** A new copy without layers, and releasing one. *)
Definition layout_alloc (w : comp_world) : ptr * comp_world :=
  let '(p, h) := m0_client_layout_alloc (cw_heap w) in
  (p, set_copies (if decide (p = NULL) then cw_copies w else <[p_blk p := []]> (cw_copies w)) (set_cheap h w)).

Definition layout_free (p : ptr) (w : comp_world) : outcome comp_world :=
  h ← m0_client_layout_free p (cw_heap w); Done (set_cheap h w).

(** m0_op_launch(): Motr carries the request out. *)
Definition comp_launch (req : comp_req) (w : comp_world) : comp_world :=
  match req with
  | LayoutSet obj p =>
      let '(s, ok) := m0_layout_set obj (copy_at p w) (cw_layouts w) in
      MkCompWorld (cw_heap w) (cw_copies w) (ob_layout w) s (cw_index w) ok (cw_reply w)
        (cw_ret_layout w) (cw_ret_exts w) (cw_nr_ret_exts w)
  | LayoutGet obj p =>
      let '(s, ok, l) := m0_layout_get obj (cw_layouts w) in
      MkCompWorld (cw_heap w) (<[p_blk p := l]> (cw_copies w)) (ob_layout w) s (cw_index w) ok (cw_reply w)
        (cw_ret_layout w) (cw_ret_exts w) (cw_nr_ret_exts w)
  | ExtQuery req =>
      let '(s, r) := m0_req_exec req (cw_index w) in
      MkCompWorld (cw_heap w) (cw_copies w) (ob_layout w) (cw_layouts w) s (rep_stable r) r
        (cw_ret_layout w) (cw_ret_exts w) (cw_nr_ret_exts w)
  end.

(** mo_drv_obj of the object. *)
Definition drv_obj (obj : mio_obj) : outcome m0_obj :=
  match mo_drv_obj obj with Some o => Done o | None => Fault NullDeref end.

(** mio_driver_op_add() in this world. *)
Definition comp_op_add (pp : option comp_pp) (req : comp_req) (op : comp_mop) (w : comp_world)
  : Z * comp_mop * comp_world :=
  let '(rc, op, h) := mio_driver_op_add op pp req None (cw_heap w) in (rc, op, set_cheap h w).

(** ** Layers *)

(** [mio_motr_comp_obj_create]: the copy becomes the object's when it has none. *)
Definition mio_motr_comp_obj_create (obj : mio_obj) (op : comp_mop) (w : comp_world)
  : outcome (Z * comp_mop * comp_world) :=
  let '(layout, w) := layout_alloc w in
  if decide (layout = NULL) then Done (- ENOMEM, op, w) else
  cobj ← drv_obj obj;
  let w := if decide (ob_layout w = NULL) then set_ob_layout layout w else w in
  let req := LayoutSet (ob_id cobj) layout in
  let '(rc, op, w) := comp_op_add None req op w in
  if rc <? 0 then w ← layout_free layout w; Done (rc, op, w)
  else Done (0, op, comp_launch req w).

(** The loop over the layers: the result, and how many were added. *)
Fixpoint add_layers_loop (l : list m0_layer) (layers : list mio_comp_obj_layer) : Z * list m0_layer :=
  match layers with
  | [] => (0, l)
  | x :: layers =>
      let '(rc, l) := m0_composite_layer_add l (mio__obj_id_to_uint128 (mcol_oid x)) (mcol_priority x) in
      if rc <? 0 then (rc, l) else add_layers_loop l layers
  end.

(** [mio_motr_comp_obj_add_layers]: the object gets a new copy that holds the new
    layers only.  (The copy that is released after a refused layer is not emptied
    first, as the code does.) *)
Definition mio_motr_comp_obj_add_layers (obj : mio_obj) (layers : list mio_comp_obj_layer)
    (op : comp_mop) (w : comp_world) : outcome (Z * comp_mop * comp_world) :=
  let nr_layers := Z.of_nat (length layers) in
  let '(pp_args, h) := mio_mem_alloc SIZEOF_ADD_LAYERS_ARGS (cw_heap w) in
  let '(layer_objs, h) := mio_mem_alloc (nr_layers * sizeof_m0_obj) h in
  let w := set_cheap h w in
  let error rc layout w :=
    w ← (if decide (layout = NULL) then Done w else layout_free layout w);
    h ← mio_mem_free layer_objs (cw_heap w);
    h ← mio_mem_free pp_args h;
    Done (rc, op, set_cheap h w) in
  if decide (pp_args = NULL ∨ layer_objs = NULL) then error (- ENOMEM) NULL w else
  cobj ← drv_obj obj;
  w ← (if decide (ob_layout w = NULL) then Done w else layout_free (ob_layout w) w);
  let '(layout, w) := layout_alloc w in
  if decide (layout = NULL) then error (- ENOMEM) NULL w else
  let w := set_ob_layout layout w in
  let '(rc, l) := add_layers_loop (copy_at layout w) layers in
  let w := set_copies (<[p_blk layout := l]> (cw_copies w)) w in
  if negb (rc =? 0) then error rc layout w else
  let req := LayoutSet (ob_id cobj) layout in
  let '(rc, op', w) := comp_op_add (Some (PpAddLayers (MkAddLayers pp_args nr_layers layer_objs layout))) req op w in
  if rc <? 0 then error rc layout w else
  Done (0, op', comp_launch req w).

(** [motr_comp_obj_get_layers].  The error path does not release [args], and
    reaches m0_op_fini() with NULL when the copy could not be allocated. *)
Definition motr_comp_obj_get_layers (obj : mio_obj) (query_data : layers_query) (pp : get_layers_args → comp_pp)
    (op : comp_mop) (w : comp_world) : outcome (Z * comp_mop * comp_world) :=
  let '(args, h) := mio_mem_alloc SIZEOF_GET_LAYERS_ARGS (cw_heap w) in
  let w := set_cheap h w in
  if decide (args = NULL) then Done (- ENOMEM, op, w) else
  cobj ← drv_obj obj;
  w ← (if decide (ob_layout w = NULL) then Done w else layout_free (ob_layout w) w);
  let '(clayout, w) := layout_alloc w in
  if decide (clayout = NULL) then
    _ ← m0_op_fini_null; w ← layout_free NULL w; Done (- ENOMEM, op, w) else
  let w := set_ob_layout clayout w in
  let req := LayoutGet (ob_id cobj) clayout in
  let '(rc, op', w) := comp_op_add (Some (pp (MkGetLayers args clayout query_data))) req op w in
  if rc <? 0 then w ← layout_free clayout w; Done (rc, op, w)
  else Done (0, op', comp_launch req w).

(** [mio_motr_comp_obj_del_layers]. *)
Definition mio_motr_comp_obj_del_layers (obj : mio_obj) (layers_to_del : list mio_comp_obj_layer)
    (op : comp_mop) (w : comp_world) : outcome (Z * comp_mop * comp_world) :=
  let '(args, h) := mio_mem_alloc SIZEOF_DEL_LAYERS_ARGS (cw_heap w) in
  let w := set_cheap h w in
  if decide (args = NULL) then Done (- ENOMEM, op, w) else
  motr_comp_obj_get_layers obj (DelQuery args layers_to_del) PpDelLayers op w.

(** [mio_motr_comp_obj_list_layers]. *)
Definition mio_motr_comp_obj_list_layers (obj : mio_obj) (op : comp_mop) (w : comp_world)
  : outcome (Z * comp_mop * comp_world) :=
  motr_comp_obj_get_layers obj ListQuery PpListLayers op w.

(** [motr_comp_obj_add_layers_pp]; m0_obj_fini() of the layers is Motr's. *)
Definition motr_comp_obj_add_layers_pp (args : add_layers_args) (op : comp_mop) (w : comp_world)
  : outcome (Z * comp_mop * comp_world) :=
  h ← mio_mem_free (alpa_layer_objs args) (cw_heap w);
  h ← mio_mem_free (alpa_self args) h;
  Done (MIO_DRV_OP_FINAL, op, set_cheap h w).

(** The loop of [motr_comp_obj_del_layers_pp]. *)
Definition del_layers_loop (l : list m0_layer) (layers : list mio_comp_obj_layer) : list m0_layer :=
  foldl (λ l x, m0_composite_layer_del l (mio__obj_id_to_uint128 (mcol_oid x))) l layers.

(** [motr_comp_obj_del_layers_pp]: the second step, which sets the layout. *)
Definition motr_comp_obj_del_layers_pp (obj : mio_obj) (args : get_layers_args) (op : comp_mop) (w : comp_world)
  : outcome (Z * comp_mop * comp_world) :=
  match gla_data args with
  | ListQuery => Fault OutOfBounds       (* never: the data is that of the deletion *)
  | DelQuery del_args layers_to_del =>
      let clayout := gla_clayout args in
      let l := del_layers_loop (copy_at clayout w) layers_to_del in
      let w := set_copies (<[p_blk clayout := l]> (cw_copies w)) w in
      cobj ← drv_obj obj;
      let req := LayoutSet (ob_id cobj) clayout in
      let '(rc, op, w) := comp_op_add None req op w in
      let '(rc, w) := if rc <? 0 then (rc, w) else (MIO_DRV_OP_NEXT, comp_launch req w) in
      h ← mio_mem_free del_args (cw_heap w);
      h ← mio_mem_free (gla_self args) h;
      Done (rc, op, set_cheap h w)
  end.

(** [motr_comp_obj_list_layers_pp]: the priorities stay those of zeroed memory. *)
Definition motr_comp_obj_list_layers_pp (args : get_layers_args) (op : comp_mop) (w : comp_world)
  : outcome (Z * comp_mop * comp_world) :=
  if negb (cw_stable w) then Done (- EIO, op, w) else
  let layers := copy_at (gla_clayout args) w in
  let nr_layers := Z.of_nat (length layers) in
  let '(p, h) := mio_mem_alloc (nr_layers * SIZEOF_COMP_OBJ_LAYER) (cw_heap w) in
  let w := set_cheap h w in
  if decide (p = NULL) then Done (- ENOMEM, op, set_ret_layout (MkLayout nr_layers None) w) else
  let ids := (λ x, MkLayer 0 (mio__uint128_to_obj_id (ccr_subobj x))) <$> layers in
  Done (MIO_DRV_OP_FINAL, op, set_ret_layout (MkLayout nr_layers (Some ids)) w).

(** ** Extents *)

(** The loop that fills the keys and, for a put, the values: the result and the
    elements; the elements it did not reach stay empty. *)
Fixpoint fill_exts (opcode : m0_idx_opcode) (layer : m0_uint128) (first : bool) (rc : Z)
    (exts : list mio_obj_ext) : Z * list bufent * list bufent :=
  match exts with
  | [] => (rc, [], [])
  | x :: exts' =>
      let none : list bufent := (0, None) :: replicate (length exts') (0, None) in
      if bool_decide (opcode = M0_IC_NEXT) && negb first then (rc, none, none) else
      let '(rc, key) := m0_ext_key_to_buf layer (moe_off x) in
      if rc <? 0 then (rc, none, none) else
      let '(rc, val) := if bool_decide (opcode = M0_IC_PUT) then m0_ext_val_to_buf (moe_size x) else (rc, (0, None)) in
      if rc <? 0 then (rc, key :: tail none, none) else
      let '(rc, keys, vals) := fill_exts opcode layer false rc exts' in
      (rc, key :: keys, val :: vals)
  end.

(** [motr_comp_obj_extent_query]. *)
Definition motr_comp_obj_extent_query (layer_id : mio_obj_id) (exts : list mio_obj_ext) (opcode : m0_idx_opcode)
    (pp : exts_args → comp_pp) (pp_args : ptr) (op : comp_mop) (w : comp_world)
  : outcome (Z * comp_mop * comp_world) :=
  let nr_exts := Z.of_nat (length exts) in
  let '(idx, h) := mio_mem_alloc sizeof_m0_idx (cw_heap w) in
  '(keys, h) ← mio__motr_bufvec_alloc nr_exts h;
  let '(rcs, h) := mio_mem_alloc (4 * nr_exts) h in
  let err_exit rc keys vals w :=
    h ← m0_ext_bufvec_free keys (cw_heap w);
    h ← m0_ext_bufvec_free vals h;
    h ← mio_mem_free rcs h;
    h ← mio_mem_free idx h;
    Done (rc, op, set_cheap h w) in
  match keys with
  | Some kv =>
      if decide (idx = NULL ∨ rcs = NULL) then err_exit (- ENOMEM) keys None (set_cheap h w) else
      '(vals, h) ← (if decide (opcode = M0_IC_DEL) then Done (None, h) else mio__motr_bufvec_alloc nr_exts h);
      let w := set_cheap h w in
      if decide (opcode ≠ M0_IC_DEL ∧ vals = None) then err_exit (- ENOMEM) keys None w else
      let layer_id128 := mio__obj_id_to_uint128 layer_id in
      let '(rc, key_ents, val_ents) := fill_exts opcode layer_id128 true 0 exts in
      let keys := Some (set_ents key_ents kv) in
      let vals := set_ents val_ents <$> vals in
      if negb (rc =? 0) then err_exit rc keys vals w else
      let req := ExtQuery (IdxOp opcode (layer_idx_id layer_id128) key_ents (from_option bv_ents [] vals) 0) in
      let args := MkExtsArgs pp_args idx (set_ents key_ents kv) vals rcs exts in
      let '(rc, op', w) := comp_op_add (Some (pp args)) req op w in
      if rc <? 0 then err_exit rc keys vals w else Done (0, op', comp_launch req w)
  | None => err_exit (- ENOMEM) None None (set_cheap h w)
  end.

(** [motr_comp_obj_exts_release_pp]. *)
Definition motr_comp_obj_exts_release_pp (args : exts_args) (op : comp_mop) (w : comp_world)
  : outcome (Z * comp_mop * comp_world) :=
  h ← mio_mem_free (epa_idx args) (cw_heap w);
  h ← m0_ext_bufvec_free (Some (epa_keys args)) h;
  h ← m0_ext_bufvec_free (epa_vals args) h;
  h ← mio_mem_free (epa_rcs args) h;
  h ← mio_mem_free (epa_self args) h;
  Done (MIO_DRV_OP_FINAL, op, set_cheap h w).

(** [mio_motr_comp_obj_add_extents] and [mio_motr_comp_obj_del_extents]. *)
Definition comp_obj_put_del_extents (opcode : m0_idx_opcode) (layer_id : mio_obj_id) (exts : list mio_obj_ext)
    (op : comp_mop) (w : comp_world) : outcome (Z * comp_mop * comp_world) :=
  let '(pp_args, h) := mio_mem_alloc SIZEOF_EXTS_ARGS (cw_heap w) in
  let w := set_cheap h w in
  if decide (pp_args = NULL) then Done (- ENOMEM, op, w) else
  '(rc, op, w) ← motr_comp_obj_extent_query layer_id exts opcode PpExtsRelease pp_args op w;
  if rc <? 0 then h ← mio_mem_free pp_args (cw_heap w); Done (rc, op, set_cheap h w)
  else Done (rc, op, w).

Definition mio_motr_comp_obj_add_extents := comp_obj_put_del_extents M0_IC_PUT.
Definition mio_motr_comp_obj_del_extents := comp_obj_put_del_extents M0_IC_DEL.

(** The loop of [motr_comp_obj_exts_get_pp] over what Motr has returned. *)
Fixpoint get_exts_loop (exts : list mio_obj_ext) (keys vals : list bufent) : outcome (list mio_obj_ext) :=
  match exts, keys, vals with
  | x :: exts, k :: keys, v :: vals =>
      off ← m0_ext_key_from_buf k.2;
      let size := match v.2 with Some b => m0_ext_val_from_buf b | None => moe_size x end in
      l ← get_exts_loop exts keys vals;
      Done (MkExt off size :: l)
  | _, _, _ => Done exts
  end.

(** [motr_comp_obj_exts_get_pp]: the number returned is that of the elements. *)
Definition motr_comp_obj_exts_get_pp (args : exts_args) (op : comp_mop) (w : comp_world)
  : outcome (Z * comp_mop * comp_world) :=
  if negb (cw_stable w) then Done (- EIO, op, w) else
  exts ← get_exts_loop (epa_ret_exts args) (rep_keys (cw_reply w)) (rep_vals (cw_reply w));
  motr_comp_obj_exts_release_pp args op (set_ret_exts exts (Z.of_nat (length (bv_ents (epa_keys args)))) w).

(** [mio_motr_comp_obj_get_extents]: the array is cleared and its first element
    holds the offset. *)
Definition mio_motr_comp_obj_get_extents (layer_id : mio_obj_id) (offset : Z) (nr_exts : nat)
    (op : comp_mop) (w : comp_world) : outcome (Z * comp_mop * comp_world) :=
  let '(pp_args, h) := mio_mem_alloc SIZEOF_EXTS_ARGS (cw_heap w) in
  let w := set_cheap h w in
  if decide (pp_args = NULL) then Done (- ENOMEM, op, w) else
  match replicate nr_exts (MkExt 0 0) with
  | [] => Fault OutOfBounds              (* exts[0] *)
  | x :: exts =>
      '(rc, op, w) ← motr_comp_obj_extent_query layer_id (MkExt offset (moe_size x) :: exts) M0_IC_NEXT
        PpExtsGet pp_args op w;
      if rc <? 0 then h ← mio_mem_free pp_args (cw_heap w); Done (rc, op, set_cheap h w)
      else Done (0, op, w)
  end.

(** ** A whole operation *)

(** The post-processing action at the head of the chain. *)
Definition comp_pp_run (obj : mio_obj) (pp : comp_pp) (op : comp_mop) (w : comp_world)
  : outcome (Z * comp_mop * comp_world) :=
  match pp with
  | PpAddLayers args => motr_comp_obj_add_layers_pp args op w
  | PpDelLayers args => motr_comp_obj_del_layers_pp obj args op w
  | PpListLayers args => motr_comp_obj_list_layers_pp args op w
  | PpExtsRelease args => motr_comp_obj_exts_release_pp args op w
  | PpExtsGet args => motr_comp_obj_exts_get_pp args op w
  end.

(** Motr calls back until the application is called; an operation has at most
    [n] steps. *)
Fixpoint comp_complete (n : nat) (obj : mio_obj) (op : comp_mop) (w : comp_world)
  : outcome (option app_call * comp_mop * comp_world) :=
  '(call, op, w) ← motr_op_cb_complete (comp_pp_run obj) op w;
  match call, n with
  | None, S n => comp_complete n obj op w
  | _, _ => Done (call, op, w)
  end.

(** Launched by [start], completed, and finalised by the application. *)
Definition comp_exec (obj : mio_obj) (start : comp_mop → comp_world → outcome (Z * comp_mop * comp_world))
    (op : comp_mop) (w : comp_world) : outcome (Z * option app_call * comp_world) :=
  '(rc, op, w) ← start op w;
  if rc <? 0 then Done (rc, None, w) else
  '(call, op, w) ← comp_complete 2 obj op w;
  '(op, h) ← mio_motr_op_fini no_op_args op (cw_heap w);
  Done (rc, call, set_cheap h w).

(** ** Copies of layouts *)

(** The pointer ob_layout with the block it owns. *)
Definition owns_copy (p : ptr) (cur : list Z) : Prop :=
  p = NULL ∧ cur = [] ∨ ∃ b, p = MkPtr b 0 ∧ p ≠ NULL ∧ cur = [b].

Lemma owns_copy_intro p c : p = MkPtr c 0 → MkPtr c 0 ≠ NULL → owns_copy p [c].
Proof. intros -> Hc. right. by exists c. Qed.

Lemma set_cheap_same w : set_cheap (cw_heap w) w = w.
Proof. by destruct w. Qed.

Lemma free_copy h0 w own cur lost :
  owns_copy (ob_layout w) cur → heap_grow h0 (cw_heap w) (own ++ cur ++ lost) → h_plan (cw_heap w) = [] →
  ∃ h', (if decide (ob_layout w = NULL) then Done w else layout_free (ob_layout w) w) = Done (set_cheap h' w) ∧
    heap_grow h0 h' (own ++ lost) ∧ h_plan h' = [].
Proof.
  intros [[-> ->]|(b & -> & Hn & ->)] Hg Hp.
  - rewrite decide_True by done. exists (cw_heap w). by rewrite set_cheap_same.
  - rewrite decide_False by done. unfold layout_free. rewrite m0_layout_free_law.
    assert (Hg' : heap_grow h0 (cw_heap w) (b :: own ++ lost)).
    { eapply heap_grow_proper; [|exact Hg]. solve_Permutation. }
    destruct (heap_grow_free _ _ _ _ Hg') as (h' & -> & Hg2 & Hp2 & _). exists h'. split_and!; [done|done|congruence].
Qed.

Lemma alloc_copy h0 w bs :
  heap_grow h0 (cw_heap w) bs → h_plan (cw_heap w) = [] →
  ∃ c h', layout_alloc w = (MkPtr c 0, set_copies (<[c := []]> (cw_copies w)) (set_cheap h' w)) ∧
    MkPtr c 0 ≠ NULL ∧ heap_grow h0 h' (c :: bs) ∧ h_plan h' = [].
Proof.
  intros Hg Hp. unfold layout_alloc. rewrite m0_layout_alloc_law.
  destruct (heap_grow_alloc_ok _ _ _ sizeof_m0_layout Hg Hp) as (c & h' & -> & Hn & _ & Hg' & Hp').
  rewrite decide_False by done. by exists c, h'.
Qed.

(** The operation after a driver operation was added at address [b]. *)
Definition with_dop (b : Z) (req : comp_req) (pp : option comp_pp) (op : comp_mop) : comp_mop :=
  set_chain (MkDop (MkPtr b 0) req None pp (mop_set_cbs op && mop_cb_complete op && mop_cb_failed op)
               :: mop_drv_op_chain op) op.

Lemma comp_op_add_ok h0 w bs pp req op :
  heap_grow h0 (cw_heap w) bs → h_plan (cw_heap w) = [] →
  ∃ b h', comp_op_add pp req op w = (0, with_dop b req pp op, set_cheap h' w) ∧
    heap_grow h0 h' (b :: bs) ∧ h_plan h' = [].
Proof.
  intros Hg Hp. unfold comp_op_add, mio_driver_op_add.
  destruct (heap_grow_alloc_ok _ _ _ SIZEOF_DRIVER_OP Hg Hp) as (b & h' & -> & Hn & _ & Hg' & Hp').
  rewrite decide_False by done. by exists b, h'.
Qed.

(** Completion of an operation whose action is the last. *)
Lemma comp_complete_final n obj b req pp op w w' :
  comp_pp_run obj pp (with_dop b req (Some pp) op) w = Done (MIO_DRV_OP_FINAL, with_dop b req (Some pp) op, w') →
  comp_complete n obj (with_dop b req (Some pp) op) w =
    Done (Some CbComplete, set_mop_rc 0 (with_dop b req (Some pp) op), w').
Proof.
  intros Hpp.
  assert (Hcb : motr_op_cb_complete (comp_pp_run obj) (with_dop b req (Some pp) op) w =
    Done (Some CbComplete, set_mop_rc 0 (with_dop b req (Some pp) op), w')).
  { unfold motr_op_cb_complete.
    change (mop_drv_op_chain (with_dop b req (Some pp) op)) with
      (MkDop (MkPtr b 0) req None (Some pp) (mop_set_cbs op && mop_cb_complete op && mop_cb_failed op)
         :: mop_drv_op_chain op : list (mio_driver_op comp_req Empty_set comp_pp)).
    cbn [mdo_post_proc]. rewrite Hpp. done. }
  destruct n; cbn [comp_complete]; by rewrite Hcb.
Qed.

(** Finalising an operation with one or two driver operations. *)
Lemma op_fini_one h0 h bs b req pp op rc :
  mop_drv_op_chain op = [] → heap_grow h0 h (b :: bs) → h_plan h = [] →
  ∃ h', mio_motr_op_fini no_op_args (set_mop_rc rc (with_dop b req pp op)) h =
      Done (set_chain [] (set_mop_rc rc (with_dop b req pp op)), h') ∧
    heap_grow h0 h' bs ∧ h_plan h' = [].
Proof.
  intros Hch Hg Hp. unfold mio_motr_op_fini. cbn [with_dop set_mop_rc set_chain mop_drv_op_chain]. rewrite Hch.
  cbn [op_fini_chain mdo_op_args mdo_mem mbind outcome_bind].
  destruct (heap_grow_free _ _ _ _ Hg) as (h' & -> & Hg' & Hp' & _). cbn [mbind outcome_bind].
  exists h'. split_and!; [done|done|congruence].
Qed.

Lemma op_fini_two h0 h bs b b' req req' pp pp' op rc :
  mop_drv_op_chain op = [] → heap_grow h0 h (b' :: b :: bs) → h_plan h = [] →
  ∃ op' h', mio_motr_op_fini no_op_args (set_mop_rc rc (with_dop b' req' pp' (with_dop b req pp op))) h =
      Done (op', h') ∧ heap_grow h0 h' bs ∧ h_plan h' = [].
Proof.
  intros Hch Hg Hp. unfold mio_motr_op_fini. cbn [with_dop set_mop_rc set_chain mop_drv_op_chain]. rewrite Hch.
  cbn [op_fini_chain mdo_op_args mdo_mem mbind outcome_bind].
  destruct (heap_grow_free _ _ _ _ Hg) as (h' & -> & Hg' & Hp' & _). cbn [mbind outcome_bind].
  destruct (heap_grow_free _ _ _ _ Hg') as (h'' & -> & Hg'' & Hp'' & _). cbn [mbind outcome_bind].
  eexists _, h''. split_and!; [done|done|congruence].
Qed.

(** ** Layers: whole operations *)

(** The state of an object with the layers [l]; [lost] are blocks nobody will
    release. *)
Definition comp_inv (h0 : heap) (id : m0_uint128) (lost : list Z) (l : list m0_layer) (w : comp_world) : Prop :=
  ∃ cur, owns_copy (ob_layout w) cur ∧ heap_grow h0 (cw_heap w) (cur ++ lost) ∧ h_plan (cw_heap w) = [] ∧
    obj_layout (cw_layouts w) id = Some l.

(** Only the object [id] has changed. *)
Definition others_same (id : m0_uint128) (w w' : comp_world) : Prop :=
  ∀ id', id' ≠ id → obj_layout (cw_layouts w') id' = obj_layout (cw_layouts w) id'.

Lemma launch_set w obj p l0 :
  obj_layout (cw_layouts w) obj = Some l0 →
  ∃ s, comp_launch (LayoutSet obj p) w =
    MkCompWorld (cw_heap w) (cw_copies w) (ob_layout w) s (cw_index w) true (cw_reply w)
      (cw_ret_layout w) (cw_ret_exts w) (cw_nr_ret_exts w) ∧
    obj_layout s obj = Some (copy_at p w) ∧
    ∀ id', id' ≠ obj → obj_layout s id' = obj_layout (cw_layouts w) id'.
Proof.
  intros Hl. unfold comp_launch. pose proof (m0_layout_set_law (cw_layouts w) obj (copy_at p w) l0 Hl) as Hlaw.
  destruct (m0_layout_set obj (copy_at p w) (cw_layouts w)) as [s ok]. destruct Hlaw as (-> & Ha & Hb).
  by exists s.
Qed.

Lemma launch_get w obj p l :
  obj_layout (cw_layouts w) obj = Some l →
  ∃ s, comp_launch (LayoutGet obj p) w =
    MkCompWorld (cw_heap w) (<[p_blk p := l]> (cw_copies w)) (ob_layout w) s (cw_index w) true (cw_reply w)
      (cw_ret_layout w) (cw_ret_exts w) (cw_nr_ret_exts w) ∧
    ∀ id', obj_layout s id' = obj_layout (cw_layouts w) id'.
Proof.
  intros Hl. unfold comp_launch. pose proof (m0_layout_get_law (cw_layouts w) obj l Hl) as Hlaw.
  destruct (m0_layout_get obj (cw_layouts w)) as [[s ok] l']. destruct Hlaw as (-> & -> & Ha). by exists s.
Qed.

(** Deleting, adding and listing; the results of the application. *)
Inductive layers_call :=
| CallAdd (layers : list mio_comp_obj_layer)
| CallDel (layers_to_del : list mio_comp_obj_layer)
| CallList.

Definition start_layers (obj : mio_obj) (c : layers_call) : comp_mop → comp_world → outcome (Z * comp_mop * comp_world) :=
  match c with
  | CallAdd layers => mio_motr_comp_obj_add_layers obj layers
  | CallDel layers => mio_motr_comp_obj_del_layers obj layers
  | CallList => mio_motr_comp_obj_list_layers obj
  end.

Definition run_layers (obj : mio_obj) (op : comp_mop) (c : layers_call) (w : comp_world)
  : outcome (Z * option app_call * option mio_comp_obj_layout * comp_world) :=
  '(rc, call, w) ← comp_exec obj (start_layers obj c) op w;
  Done (rc, call, match c with CallList => Some (cw_ret_layout w) | _ => None end, w).

(** What the calls do to the layers of the object and what they return. *)
Definition spec_layers (c : layers_call) (l : list m0_layer) : list m0_layer * option mio_comp_obj_layout :=
  match c with
  | CallAdd layers => ((add_layers_loop [] layers).2, None)
  | CallDel layers => (filter (λ x, ccr_subobj x ∉ (λ y, mio__obj_id_to_uint128 (mcol_oid y)) <$> layers) l, None)
  | CallList =>
      (l, Some (MkLayout (Z.of_nat (length l))
                  (Some ((λ x, MkLayer 0 (mio__uint128_to_obj_id (ccr_subobj x))) <$> l))))
  end.

Definition lost_layers (c : layers_call) : nat := match c with CallList => 2 | _ => 0 end.

Lemma add_layers_loop_ok l layers :
  (∀ l id prio, (m0_composite_layer_add l id prio).1 = 0) →
  (add_layers_loop l layers).1 = 0 ∧
  (add_layers_loop l layers).2 ≡ₚ
    ((λ y, MkM0Layer (mio__obj_id_to_uint128 (mcol_oid y)) (mcol_priority y)) <$> layers) ++ l.
Proof.
  intros Hok. revert l. induction layers as [|x layers IH]; intros l; [done|]. cbn [add_layers_loop].
  pose proof (Hok l (mio__obj_id_to_uint128 (mcol_oid x)) (mcol_priority x)) as Hrc.
  pose proof (m0_layer_add_law l (mio__obj_id_to_uint128 (mcol_oid x)) (mcol_priority x)) as Hlaw.
  destruct (m0_composite_layer_add _ _ _) as [rc l']. simpl in Hrc. subst rc. cbn [Z.ltb Z.compare].
  destruct Hlaw as [[_ Hperm]|[? _]]; [|lia]. destruct (IH l') as [Ha Hb]. split; [done|].
  rewrite Hb, Hperm. cbn [fmap list_fmap]. solve_Permutation.
Qed.

Lemma del_layers_loop_eq l layers :
  del_layers_loop l layers =
  filter (λ x, ccr_subobj x ∉ (λ y, mio__obj_id_to_uint128 (mcol_oid y)) <$> layers) l.
Proof.
  unfold del_layers_loop. revert l. induction layers as [|y layers IH]; intros l; simpl.
  - induction l as [|x l IHl]; [done|]. rewrite filter_cons_True; [by f_equal|set_solver].
  - rewrite IH, m0_layer_del_law, list_filter_filter. apply list_filter_iff. intros x. set_solver.
Qed.

Ltac copy_at := unfold copy_at; simpl; by rewrite lookup_insert_eq.

Section Object.
Context (obj : mio_obj) (o : m0_obj) (Hobj : mo_drv_obj obj = Some o).

Lemma exec_add h0 lost l layers op w :
  (∀ l id prio, (m0_composite_layer_add l id prio).1 = 0) → mop_drv_op_chain op = [] →
  comp_inv h0 (ob_id o) lost l w →
  ∃ w', comp_exec obj (mio_motr_comp_obj_add_layers obj layers) op w = Done (0, Some CbComplete, w') ∧
    comp_inv h0 (ob_id o) lost (add_layers_loop [] layers).2 w' ∧ others_same (ob_id o) w w'.
Proof.
  intros Hok Hch (cur & Hcur & Hg & Hp & Hl). unfold comp_exec, mio_motr_comp_obj_add_layers.
  destruct (heap_grow_alloc_ok _ _ _ SIZEOF_ADD_LAYERS_ARGS Hg Hp) as (a & h1 & -> & Ha & _ & Hg1 & Hp1).
  destruct (heap_grow_alloc_ok _ _ _ (Z.of_nat (length layers) * sizeof_m0_obj) Hg1 Hp1)
    as (b & h2 & -> & Hb & _ & Hg2 & Hp2).
  rewrite decide_False by (intros [?|?]; done). unfold drv_obj. rewrite Hobj. cbn [mbind outcome_bind].
  destruct (free_copy h0 (set_cheap h2 w) [b; a] cur lost Hcur Hg2 Hp2) as (h3 & -> & Hg3 & Hp3).
  cbn [mbind outcome_bind].
  destruct (alloc_copy h0 (set_cheap h3 (set_cheap h2 w)) _ Hg3 Hp3) as (c & h4 & -> & Hc & Hg4 & Hp4).
  rewrite decide_False by done.
  set (w1 := set_ob_layout (MkPtr c 0) _).
  assert (Hcopy : copy_at (MkPtr c 0) w1 = []) by copy_at.
  rewrite Hcopy. destruct (add_layers_loop_ok [] layers Hok) as [Hrc _].
  destruct (add_layers_loop [] layers) as [rc l'] eqn:El. simpl in Hrc. subst rc. cbn [Z.eqb negb].
  set (w2 := set_copies _ w1).
  destruct (comp_op_add_ok h0 w2 (c :: b :: a :: lost)
    (Some (PpAddLayers (MkAddLayers (MkPtr a 0) (Z.of_nat (length layers)) (MkPtr b 0) (MkPtr c 0))))
    (LayoutSet (ob_id o) (MkPtr c 0)) op Hg4 Hp4) as (d & h5 & -> & Hg5 & Hp5).
  cbn [Z.ltb Z.compare].
  destruct (launch_set (set_cheap h5 w2) (ob_id o) (MkPtr c 0) l Hl) as (s & -> & Hs & Hoth).
  cbn [mbind outcome_bind Z.ltb Z.compare].
  assert (Hg5' : heap_grow h0 h5 (b :: a :: d :: c :: lost)) by (eapply heap_grow_proper; [|exact Hg5]; solve_Permutation).
  destruct (heap_grow_free _ _ _ _ Hg5') as (h6 & Hf1 & Hg6 & Hp6 & _).
  destruct (heap_grow_free _ _ _ _ Hg6) as (h7 & Hf2 & Hg7 & Hp7 & _).
  erewrite comp_complete_final.
  2:{ cbn [comp_pp_run]. unfold motr_comp_obj_add_layers_pp. cbn [alpa_layer_objs alpa_self cw_heap].
      cbn [set_cheap cw_heap]. rewrite Hf1. cbn [mbind outcome_bind]. rewrite Hf2. reflexivity. }
  cbn [mbind outcome_bind]. assert (Hp7' : h_plan h7 = []) by congruence.
  destruct (op_fini_one h0 h7 _ d (LayoutSet (ob_id o) (MkPtr c 0))
    (Some (PpAddLayers (MkAddLayers (MkPtr a 0) (Z.of_nat (length layers)) (MkPtr b 0) (MkPtr c 0)))) op 0 Hch Hg7 Hp7')
    as (h8 & Hfini & Hg8 & Hp8).
  cbn [set_cheap cw_heap]. rewrite Hfini. cbn [mbind outcome_bind]. eexists. split; [reflexivity|]. split.
  - exists [c]. split_and!; [right; by exists c|exact Hg8|exact Hp8|].
    cbn [cw_layouts set_cheap]. rewrite Hs. f_equal. copy_at.
  - exact Hoth.
Qed.

(** The query of the layout, which both deletion and listing start with. *)
Lemma get_layers_ok h0 own cur lost l q pp op w :
  owns_copy (ob_layout w) cur → heap_grow h0 (cw_heap w) (own ++ cur ++ lost) → h_plan (cw_heap w) = [] →
  obj_layout (cw_layouts w) (ob_id o) = Some l →
  ∃ a c b w', motr_comp_obj_get_layers obj q pp op w =
      Done (0, with_dop b (LayoutGet (ob_id o) (MkPtr c 0)) (Some (pp (MkGetLayers (MkPtr a 0) (MkPtr c 0) q))) op, w') ∧
    heap_grow h0 (cw_heap w') (b :: c :: a :: own ++ lost) ∧ h_plan (cw_heap w') = [] ∧
    ob_layout w' = MkPtr c 0 ∧ MkPtr c 0 ≠ NULL ∧ copy_at (MkPtr c 0) w' = l ∧ cw_stable w' = true ∧
    ∀ id', obj_layout (cw_layouts w') id' = obj_layout (cw_layouts w) id'.
Proof.
  intros Hcur Hg Hp Hl. unfold motr_comp_obj_get_layers.
  destruct (heap_grow_alloc_ok _ _ _ SIZEOF_GET_LAYERS_ARGS Hg Hp) as (a & h1 & -> & Ha & _ & Hg1 & Hp1).
  rewrite decide_False by done. unfold drv_obj. rewrite Hobj. cbn [mbind outcome_bind].
  destruct (free_copy h0 (set_cheap h1 w) (a :: own) cur lost Hcur Hg1 Hp1) as (h2 & -> & Hg2 & Hp2).
  cbn [mbind outcome_bind].
  destruct (alloc_copy h0 (set_cheap h2 (set_cheap h1 w)) _ Hg2 Hp2) as (c & h3 & -> & Hc & Hg3 & Hp3).
  rewrite decide_False by done. set (w1 := set_ob_layout (MkPtr c 0) _).
  destruct (comp_op_add_ok h0 w1 _ (Some (pp (MkGetLayers (MkPtr a 0) (MkPtr c 0) q)))
    (LayoutGet (ob_id o) (MkPtr c 0)) op Hg3 Hp3) as (b & h4 & -> & Hg4 & Hp4).
  cbn [Z.ltb Z.compare].
  destruct (launch_get (set_cheap h4 w1) (ob_id o) (MkPtr c 0) l Hl) as (s & -> & Hs).
  do 4 eexists. split; [reflexivity|]. split_and!; try done. copy_at.
Qed.

Lemma exec_list h0 lost l op w :
  mop_drv_op_chain op = [] → comp_inv h0 (ob_id o) lost l w →
  ∃ w' more, comp_exec obj (mio_motr_comp_obj_list_layers obj) op w = Done (0, Some CbComplete, w') ∧
    cw_ret_layout w' = MkLayout (Z.of_nat (length l))
      (Some ((λ x, MkLayer 0 (mio__uint128_to_obj_id (ccr_subobj x))) <$> l)) ∧
    comp_inv h0 (ob_id o) (more ++ lost) l w' ∧ length more = 2%nat ∧ others_same (ob_id o) w w'.
Proof.
  intros Hch (cur & Hcur & Hg & Hp & Hl). unfold comp_exec, mio_motr_comp_obj_list_layers.
  destruct (get_layers_ok h0 [] cur lost l ListQuery PpListLayers op w Hcur Hg Hp Hl)
    as (a & c & b & w1 & -> & Hg1 & Hp1 & Hob & Hc & Hcopy & Hst & Hoth).
  cbn [mbind outcome_bind Z.ltb Z.compare].
  destruct (heap_grow_alloc_ok _ _ _ (Z.of_nat (length l) * SIZEOF_COMP_OBJ_LAYER) Hg1 Hp1)
    as (d & h2 & Hal & Hd & _ & Hg2 & Hp2).
  erewrite comp_complete_final.
  2:{ cbn [comp_pp_run]. unfold motr_comp_obj_list_layers_pp. rewrite Hst. cbn [negb gla_clayout]. rewrite Hcopy, Hal.
      rewrite decide_False by done. reflexivity. }
  cbn [mbind outcome_bind].
  assert (Hg2' : heap_grow h0 h2 (b :: c :: d :: a :: lost)) by (eapply heap_grow_proper; [|exact Hg2]; solve_Permutation).
  destruct (op_fini_one h0 h2 _ b (LayoutGet (ob_id o) (MkPtr c 0))
    (Some (PpListLayers (MkGetLayers (MkPtr a 0) (MkPtr c 0) ListQuery))) op 0 Hch Hg2' Hp2) as (h3 & Hfini & Hg3 & Hp3).
  cbn [set_ret_layout set_cheap cw_heap]. rewrite Hfini. cbn [mbind outcome_bind].
  eexists _, [d; a]. split; [reflexivity|]. split; [reflexivity|]. split_and!; [|done|].
  - exists [c]. split_and!; [by apply owns_copy_intro|exact Hg3|exact Hp3|].
    cbn [set_cheap set_ret_layout cw_layouts]. by rewrite Hoth.
  - intros id' _. apply Hoth.
Qed.

Lemma exec_del h0 lost l layers op w :
  mop_drv_op_chain op = [] → comp_inv h0 (ob_id o) lost l w →
  ∃ w', comp_exec obj (mio_motr_comp_obj_del_layers obj layers) op w = Done (0, Some CbComplete, w') ∧
    comp_inv h0 (ob_id o) lost (del_layers_loop l layers) w' ∧ others_same (ob_id o) w w'.
Proof.
  intros Hch (cur & Hcur & Hg & Hp & Hl). unfold comp_exec, mio_motr_comp_obj_del_layers.
  destruct (heap_grow_alloc_ok _ _ _ SIZEOF_DEL_LAYERS_ARGS Hg Hp) as (e & h1 & -> & He & _ & Hg1 & Hp1).
  rewrite decide_False by done.
  destruct (get_layers_ok h0 [e] cur lost l (DelQuery (MkPtr e 0) layers) PpDelLayers op (set_cheap h1 w) Hcur Hg1 Hp1 Hl)
    as (a & c & b & w1 & -> & Hg2 & Hp2 & Hob & Hc & Hcopy & Hst & Hoth).
  cbn [mbind outcome_bind Z.ltb Z.compare].
  set (args := MkGetLayers (MkPtr a 0) (MkPtr c 0) (DelQuery (MkPtr e 0) layers)).
  set (req := LayoutGet (ob_id o) (MkPtr c 0)). set (op1 := with_dop b req (Some (PpDelLayers args)) op).
  set (w2 := set_copies (<[c := del_layers_loop l layers]> (cw_copies w1)) w1).
  destruct (comp_op_add_ok h0 w2 _ None (LayoutSet (ob_id o) (MkPtr c 0)) op1 Hg2 Hp2) as (d & h3 & Hadd & Hg3 & Hp3).
  destruct (launch_set (set_cheap h3 w2) (ob_id o) (MkPtr c 0) l) as (s & Hlaunch & Hs & Hoth2).
  { cbn [set_cheap set_copies cw_layouts w2]. by rewrite Hoth. }
  assert (Hg3' : heap_grow h0 h3 (e :: a :: d :: b :: c :: lost)).
  { eapply heap_grow_proper; [|exact Hg3]. simpl. solve_Permutation. }
  destruct (heap_grow_free _ _ _ _ Hg3') as (h4 & Hf1 & Hg4 & Hp4 & _).
  destruct (heap_grow_free _ _ _ _ Hg4) as (h5 & Hf2 & Hg5 & Hp5 & _).
  set (w3 := set_cheap h5 (comp_launch (LayoutSet (ob_id o) (MkPtr c 0)) (set_cheap h3 w2))).
  set (op2 := with_dop d (LayoutSet (ob_id o) (MkPtr c 0)) None op1).
  assert (Hpp : motr_op_cb_complete (comp_pp_run obj) op1 w1 = Done (None, op2, w3)).
  { unfold motr_op_cb_complete.
    change (mop_drv_op_chain op1) with (MkDop (MkPtr b 0) req None (Some (PpDelLayers args))
       (mop_set_cbs op && mop_cb_complete op && mop_cb_failed op) :: mop_drv_op_chain op
         : list (mio_driver_op comp_req Empty_set comp_pp)).
    cbn [mdo_post_proc comp_pp_run]. unfold motr_comp_obj_del_layers_pp. cbn [args gla_data gla_clayout].
    rewrite Hcopy. unfold drv_obj. rewrite Hobj. cbn [mbind outcome_bind]. cbn [p_blk]. fold w2. rewrite Hadd.
    cbn [Z.ltb Z.compare]. rewrite Hlaunch. cbn [cw_heap set_cheap]. rewrite Hf1. cbn [mbind outcome_bind gla_self args].
    rewrite Hf2. cbn [mbind outcome_bind]. change (MIO_DRV_OP_NEXT =? MIO_DRV_OP_NEXT) with true. cbn iota.
    unfold w3. by rewrite Hlaunch. }
  assert (Hpp2 : motr_op_cb_complete (comp_pp_run obj) op2 w3 = Done (Some CbComplete, set_mop_rc 0 op2, w3)) by done.
  cbn [comp_complete]. fold args req op1. rewrite Hpp. cbn [mbind outcome_bind]. rewrite Hpp2. cbn [mbind outcome_bind].
  assert (Hp5' : h_plan h5 = []) by congruence.
  destruct (op_fini_two h0 h5 (c :: lost) b d req (LayoutSet (ob_id o) (MkPtr c 0)) (Some (PpDelLayers args)) None op 0
    Hch Hg5 Hp5') as (op' & h6 & Hfini & Hg6 & Hp6).
  assert (Hw3 : cw_heap w3 = h5) by done. rewrite Hw3. fold op1 in Hfini. fold op2 in Hfini. rewrite Hfini.
  cbn [mbind outcome_bind]. exists (set_cheap h6 w3). split; [reflexivity|].
  assert (Hlay : cw_layouts (set_cheap h6 w3) = s) by (unfold w3; rewrite Hlaunch; done). split.
  - exists [c]. split_and!; [|exact Hg6|exact Hp6|].
    + apply owns_copy_intro; [|exact Hc]. unfold w3. rewrite Hlaunch. exact Hob.
    + rewrite Hlay, Hs. f_equal. copy_at.
  - intros id' Hid. rewrite Hlay, (Hoth2 _ Hid). cbn [set_cheap set_copies cw_layouts w2]. apply Hoth.
Qed.

Lemma heap_grow_dead h0 h b bs h' :
  heap_grow h0 h (b :: bs) → heap_grow h0 h' bs → h_blocks h' !! b = None.
Proof.
  intros (Hok0 & _ & _ & Hnd & Hin & _) (_ & _ & _ & _ & _ & Hout).
  destruct (Hin b ltac:(left)) as [Hb _]. apply NoDup_cons in Hnd as [Hnb _]. rewrite Hout by done.
  destruct (h_blocks h0 !! b) as [x|] eqn:E; [|done]. destruct Hok0 as [_ Hok0].
  specialize (Hok0 b ltac:(by eexists)). lia.
Qed.

Lemma run_layers_refines h0 lost l c op w :
  (∀ l id prio, (m0_composite_layer_add l id prio).1 = 0) → mop_drv_op_chain op = [] →
  comp_inv h0 (ob_id o) lost l w →
  ∃ w' more, run_layers obj op c w = Done (0, Some CbComplete, (spec_layers c l).2, w') ∧
    comp_inv h0 (ob_id o) (more ++ lost) (spec_layers c l).1 w' ∧ length more = lost_layers c ∧
    others_same (ob_id o) w w'.
Proof.
  intros Hok Hch Hinv. unfold run_layers. destruct c as [layers|layers|]; simpl start_layers.
  - destruct (exec_add h0 lost l layers op w Hok Hch Hinv) as (w' & -> & Hinv' & Hoth). by exists w', [].
  - destruct (exec_del h0 lost l layers op w Hch Hinv) as (w' & -> & Hinv' & Hoth). exists w', [].
    rewrite del_layers_loop_eq in Hinv'. by split_and!.
  - destruct (exec_list h0 lost l op w Hch Hinv) as (w' & more & -> & Hret & Hinv' & Hlen & Hoth). exists w', more.
    cbn [mbind outcome_bind]. rewrite Hret. by split_and!.
Qed.

(** A layer is refused: the copy is released and stays the object's. *)
Lemma add_layers_refused h0 lost l layers op w rc l' :
  comp_inv h0 (ob_id o) lost l w → add_layers_loop [] layers = (rc, l') → rc < 0 →
  ∃ w' c, mio_motr_comp_obj_add_layers obj layers op w = Done (rc, op, w') ∧
    ob_layout w' = MkPtr c 0 ∧ MkPtr c 0 ≠ NULL ∧ h_blocks (cw_heap w') !! c = None ∧
    cw_layouts w' = cw_layouts w ∧ heap_grow h0 (cw_heap w') lost ∧ h_plan (cw_heap w') = [] ∧
    c < h_next (cw_heap w').
Proof.
  intros (cur & Hcur & Hg & Hp & Hl) El Hneg. unfold mio_motr_comp_obj_add_layers.
  destruct (heap_grow_alloc_ok _ _ _ SIZEOF_ADD_LAYERS_ARGS Hg Hp) as (a & h1 & -> & Ha & _ & Hg1 & Hp1).
  destruct (heap_grow_alloc_ok _ _ _ (Z.of_nat (length layers) * sizeof_m0_obj) Hg1 Hp1)
    as (b & h2 & -> & Hb & _ & Hg2 & Hp2).
  rewrite decide_False by (intros [?|?]; done). unfold drv_obj. rewrite Hobj. cbn [mbind outcome_bind].
  destruct (free_copy h0 (set_cheap h2 w) [b; a] cur lost Hcur Hg2 Hp2) as (h3 & -> & Hg3 & Hp3).
  cbn [mbind outcome_bind].
  destruct (alloc_copy h0 (set_cheap h3 (set_cheap h2 w)) _ Hg3 Hp3) as (c & h4 & -> & Hc & Hg4 & Hp4).
  rewrite decide_False by done. set (w1 := set_ob_layout (MkPtr c 0) _).
  assert (Hcopy : copy_at (MkPtr c 0) w1 = []) by copy_at. rewrite Hcopy, El.
  rewrite (proj2 (Z.eqb_neq rc 0)) by lia. cbn [negb]. rewrite decide_False by done.
  unfold layout_free. rewrite m0_layout_free_law.
  destruct (heap_grow_free _ _ _ _ Hg4) as (h5 & Hf1 & Hg5 & Hp5 & _).
  destruct (heap_grow_free _ _ _ _ Hg5) as (h6 & Hf2 & Hg6 & Hp6 & _).
  destruct (heap_grow_free _ _ _ _ Hg6) as (h7 & Hf3 & Hg7 & Hp7 & _).
  cbn [set_copies cw_heap]. cbn [set_ob_layout w1 cw_heap set_copies set_cheap]. rewrite Hf1. cbn [mbind outcome_bind set_cheap cw_heap].
  rewrite Hf2. cbn [mbind outcome_bind]. rewrite Hf3. cbn [mbind outcome_bind].
  assert (Hg4' : heap_grow h0 h4 (b :: a :: c :: lost)) by (eapply heap_grow_proper; [|exact Hg4]; solve_Permutation).
  eexists _, c. split; [reflexivity|]. split_and!; try done.
  - destruct (heap_grow_free _ _ _ _ Hg4') as (h5' & _ & Hg5' & _).
    destruct (heap_grow_free _ _ _ _ Hg5') as (h6' & _ & Hg6' & _). by eapply heap_grow_dead.
  - cbn [set_cheap cw_heap]. congruence.
  - assert (Hn : h_next h7 = h_next h4).
    { clear - Hf1 Hf2 Hf3. unfold mio_mem_free in *. repeat case_decide; repeat case_match; simplify_eq; done. }
    cbn [set_cheap cw_heap]. rewrite Hn. destruct Hg4 as (_ & _ & _ & _ & Hin & _). apply (Hin c). left.
Qed.

(** A pointer to a released copy is released again by the next call. *)
Lemma start_layers_dangling c op w b :
  ob_layout w = MkPtr b 0 → MkPtr b 0 ≠ NULL → heap_ok (cw_heap w) → h_plan (cw_heap w) = [] →
  b < h_next (cw_heap w) → h_blocks (cw_heap w) !! b = None →
  start_layers obj c op w = Fault DoubleFree.
Proof.
  intros Hob Hb Hok Hp Hlt Hdead.
  assert (Halloc : ∀ size h p h', heap_ok h → h_plan h = [] → b < h_next h → h_blocks h !! b = None →
    mio_mem_alloc size h = (p, h') → p ≠ NULL ∧ heap_ok h' ∧ h_plan h' = [] ∧ b < h_next h' ∧ h_blocks h' !! b = None).
  { intros size h p h' Hok1 Hp1 Hlt1 Hd1 E. pose proof (heap_grow_refl h Hok1) as Hg1.
    destruct (heap_grow_alloc_ok _ _ _ size Hg1 Hp1) as (x & h2 & E' & Hx & _ & Hg2 & Hp2).
    rewrite E in E'. injection E' as -> ->. unfold mio_mem_alloc in E. rewrite Hp1 in E. injection E as <- <-.
    split_and!; [done|by eapply heap_grow_ok|done|simpl; lia|]. simpl. rewrite lookup_insert_ne by lia. done. }
  assert (Hfree : ∀ h w0, ob_layout w0 = MkPtr b 0 → h_blocks h !! b = None →
    (if decide (ob_layout w0 = NULL) then Done (set_cheap h w0) else layout_free (ob_layout w0) (set_cheap h w0)) =
    Fault DoubleFree).
  { intros h w0 Hob0 Hd. rewrite Hob0, decide_False by done. unfold layout_free. rewrite m0_layout_free_law.
    unfold mio_mem_free. rewrite decide_False by done. unfold blk_live. cbn [set_cheap cw_heap p_blk]. by rewrite Hd. }
  assert (Hget : ∀ q pp w0, ob_layout w0 = MkPtr b 0 → heap_ok (cw_heap w0) → h_plan (cw_heap w0) = [] →
    b < h_next (cw_heap w0) → h_blocks (cw_heap w0) !! b = None →
    motr_comp_obj_get_layers obj q pp op w0 = Fault DoubleFree).
  { intros q pp w0 Hob0 Hok0 Hp0 Hlt0 Hd0. unfold motr_comp_obj_get_layers.
    destruct (mio_mem_alloc SIZEOF_GET_LAYERS_ARGS (cw_heap w0)) as [p1 h1] eqn:E1.
    destruct (Halloc _ _ _ _ Hok0 Hp0 Hlt0 Hd0 E1) as (Hn1 & _ & _ & _ & Hd1). rewrite decide_False by done.
    unfold drv_obj. rewrite Hobj. cbn [mbind outcome_bind]. cbn [set_cheap ob_layout].
    rewrite (Hfree h1 w0 Hob0 Hd1). done. }
  destruct c as [layers|layers|]; simpl start_layers.
  - unfold mio_motr_comp_obj_add_layers.
    destruct (mio_mem_alloc SIZEOF_ADD_LAYERS_ARGS (cw_heap w)) as [p1 h1] eqn:E1.
    destruct (Halloc _ _ _ _ Hok Hp Hlt Hdead E1) as (Hn1 & Hok1 & Hp1 & Hlt1 & Hd1).
    destruct (mio_mem_alloc _ h1) as [p2 h2] eqn:E2.
    destruct (Halloc _ _ _ _ Hok1 Hp1 Hlt1 Hd1 E2) as (Hn2 & _ & _ & _ & Hd2).
    rewrite decide_False by (intros [?|?]; done). unfold drv_obj. rewrite Hobj. cbn [mbind outcome_bind].
    cbn [set_cheap ob_layout]. rewrite (Hfree h2 w Hob Hd2). done.
  - unfold mio_motr_comp_obj_del_layers.
    destruct (mio_mem_alloc SIZEOF_DEL_LAYERS_ARGS (cw_heap w)) as [p1 h1] eqn:E1.
    destruct (Halloc _ _ _ _ Hok Hp Hlt Hdead E1) as (Hn1 & Hok1 & Hp1 & Hlt1 & Hd1).
    rewrite decide_False by done. by apply Hget.
  - by apply Hget.
Qed.

End Object.

(** ** Extents: whole operations *)

(** The blocks of the arguments: those released with them, and the structures of
    the vectors, which are not. *)
Definition self_block (bv : m0_bufvec) : Z := p_blk (bv_self bv).
Definition array_blocks (bv : m0_bufvec) : list Z := [p_blk (bv_buf bv); p_blk (bv_count bv)].
Definition exts_lost (args : exts_args) : list Z :=
  from_option (λ v, [self_block v]) [] (epa_vals args) ++ [self_block (epa_keys args)].
Definition exts_own (args : exts_args) : list Z :=
  [p_blk (epa_idx args); p_blk (epa_rcs args); p_blk (epa_self args)] ++
  array_blocks (epa_keys args) ++ from_option array_blocks [] (epa_vals args).
Definition exts_at (args : exts_args) : Prop :=
  p_off (epa_idx args) = 0 ∧ p_off (epa_rcs args) = 0 ∧ p_off (epa_self args) = 0 ∧
  bufvec_at (epa_keys args) ∧ opt_at (epa_vals args).

Lemma ext_bufvec_free_ok h0 h bv bs :
  opt_at bv → heap_grow h0 h (from_option array_blocks [] bv ++ bs) → h_plan h = [] →
  ∃ h', m0_ext_bufvec_free bv h = Done h' ∧ heap_grow h0 h' bs ∧ h_plan h' = [].
Proof.
  intros Hat Hg Hp. rewrite m0_ext_bufvec_free_law. destruct bv as [bv|]; [|by exists h].
  destruct Hat as (_ & H2 & H3). rewrite (ptr_eta _ H2), (ptr_eta _ H3).
  destruct (heap_grow_free _ _ _ _ Hg) as (h1 & -> & Hg1 & Hp1 & _). cbn [mbind outcome_bind].
  destruct (heap_grow_free _ _ _ _ Hg1) as (h2 & -> & Hg2 & Hp2 & _). exists h2. split_and!; [done|done|congruence].
Qed.

Lemma exts_release_ok h0 args op w bs :
  exts_at args → heap_grow h0 (cw_heap w) (exts_own args ++ bs) → h_plan (cw_heap w) = [] →
  ∃ h', motr_comp_obj_exts_release_pp args op w = Done (MIO_DRV_OP_FINAL, op, set_cheap h' w) ∧
    heap_grow h0 h' bs ∧ h_plan h' = [].
Proof.
  intros (Hi & Hr & Hs & Hk & Hv) Hg Hp. unfold motr_comp_obj_exts_release_pp.
  rewrite (ptr_eta _ Hi), (ptr_eta _ Hr), (ptr_eta _ Hs).
  destruct (heap_grow_free _ _ _ _ Hg) as (h1 & -> & Hg1 & Hp1 & _). cbn [mbind outcome_bind].
  assert (Hg1' : heap_grow h0 h1 (array_blocks (epa_keys args) ++ from_option array_blocks [] (epa_vals args) ++
    p_blk (epa_rcs args) :: p_blk (epa_self args) :: bs)).
  { eapply heap_grow_proper; [|exact Hg1]. solve_Permutation. }
  assert (Hp1' : h_plan h1 = []) by congruence.
  destruct (ext_bufvec_free_ok h0 h1 (Some (epa_keys args)) _ Hk Hg1' Hp1') as (h2 & -> & Hg2 & Hp2).
  cbn [mbind outcome_bind].
  destruct (ext_bufvec_free_ok h0 h2 (epa_vals args) _ Hv Hg2 Hp2) as (h3 & -> & Hg3 & Hp3). cbn [mbind outcome_bind].
  destruct (heap_grow_free _ _ _ _ Hg3) as (h4 & -> & Hg4 & Hp4 & _). cbn [mbind outcome_bind].
  destruct (heap_grow_free _ _ _ _ Hg4) as (h5 & -> & Hg5 & Hp5 & _). cbn [mbind outcome_bind].
  exists h5. split_and!; [done|done|congruence].
Qed.

Lemma bufvec_alloc_ok h0 h bs nr :
  heap_grow h0 h bs → h_plan h = [] →
  ∃ bv h', mio__motr_bufvec_alloc nr h = Done (Some bv, h') ∧ bufvec_at bv ∧
    heap_grow h0 h' (self_block bv :: array_blocks bv ++ bs) ∧ h_plan h' = [].
Proof.
  intros Hg Hp. destruct (bufvec_alloc_spec h0 h bs nr Hg) as ([bv|] & h' & -> & Hr).
  - destruct Hr as (Hat & _ & Hg' & Hp'). exists bv, h'. split_and!; [done|done| |auto].
    eapply heap_grow_proper; [|exact Hg']. unfold bufvec_blocks, self_block, array_blocks. simpl. solve_Permutation.
  - by destruct Hr.
Qed.

Lemma extent_query_ok h0 layer exts opcode pp a op w bs kents vents :
  fill_exts opcode (mio__obj_id_to_uint128 layer) true 0 exts = (0, kents, vents) →
  heap_grow h0 (cw_heap w) (a :: bs) → h_plan (cw_heap w) = [] →
  let req := IdxOp opcode (layer_idx_id (mio__obj_id_to_uint128 layer)) kents
               (if decide (opcode = M0_IC_DEL) then [] else vents) 0 in
  ∃ args b w', motr_comp_obj_extent_query layer exts opcode pp (MkPtr a 0) op w =
      Done (0, with_dop b (ExtQuery req) (Some (pp args)) op, w') ∧
    exts_at args ∧ epa_ret_exts args = exts ∧ bv_ents (epa_keys args) = kents ∧
    heap_grow h0 (cw_heap w') (b :: exts_own args ++ exts_lost args ++ bs) ∧ h_plan (cw_heap w') = [] ∧
    length (exts_lost args) = (if decide (opcode = M0_IC_DEL) then 1%nat else 2%nat) ∧
    m0_req_exec req (cw_index w) = (cw_index w', cw_reply w') ∧ cw_stable w' = rep_stable (cw_reply w') ∧
    cw_layouts w' = cw_layouts w ∧ ob_layout w' = ob_layout w.
Proof.
  intros Hfill Hg Hp req. unfold motr_comp_obj_extent_query.
  destruct (heap_grow_alloc_ok _ _ _ sizeof_m0_idx Hg Hp) as (i & h1 & -> & Hi & _ & Hg1 & Hp1).
  destruct (bufvec_alloc_ok _ _ _ (Z.of_nat (length exts)) Hg1 Hp1) as (kv & h2 & -> & Hkv & Hg2 & Hp2).
  cbn [mbind outcome_bind].
  destruct (heap_grow_alloc_ok _ _ _ (4 * Z.of_nat (length exts)) Hg2 Hp2) as (r & h3 & -> & Hr & _ & Hg3 & Hp3).
  rewrite decide_False by (intros [?|?]; done).
  assert (Hvals : ∃ vals h4, (if decide (opcode = M0_IC_DEL) then Done (None, h3)
      else mio__motr_bufvec_alloc (Z.of_nat (length exts)) h3) = Done (vals, h4) ∧
    (vals = None ↔ opcode = M0_IC_DEL) ∧ opt_at vals ∧ h_plan h4 = [] ∧
    heap_grow h0 h4 (from_option (λ v, [self_block v]) [] vals ++ from_option array_blocks [] vals ++
      r :: self_block kv :: array_blocks kv ++ i :: a :: bs)).
  { destruct (decide (opcode = M0_IC_DEL)) as [Hd|Hd].
    - exists None, h3. by split_and!.
    - destruct (bufvec_alloc_ok _ _ _ (Z.of_nat (length exts)) Hg3 Hp3) as (v & h4 & -> & Hv & Hg4 & Hp4).
      exists (Some v), h4. by split_and!. }
  destruct Hvals as (vals & h4 & -> & Hnone & Hvat & Hp4 & Hg4). cbn [mbind outcome_bind].
  rewrite decide_False by (intros [Ha Hb]; by apply Ha, Hnone). rewrite Hfill. cbn [Z.eqb negb].
  set (args := MkExtsArgs (MkPtr a 0) (MkPtr i 0) (set_ents kents kv) (set_ents vents <$> vals) (MkPtr r 0) exts).
  assert (Hreq : from_option bv_ents [] (set_ents vents <$> vals) = if decide (opcode = M0_IC_DEL) then [] else vents).
  { destruct vals; simpl; [by rewrite decide_False by (intros Hd; by apply Hnone in Hd)|by rewrite decide_True by by apply Hnone]. }
  rewrite Hreq. fold req.
  destruct (comp_op_add_ok h0 (set_cheap h4 w) _ (Some (pp args)) (ExtQuery req) op Hg4 Hp4) as (b & h5 & -> & Hg5 & Hp5).
  cbn [Z.ltb Z.compare comp_launch]. destruct (m0_req_exec req (cw_index (set_cheap h5 (set_cheap h4 w)))) as [s' rep] eqn:Hex.
  exists args, b. eexists. split; [reflexivity|]. split_and!; try done.
  - by destruct vals.
  - cbn [cw_heap set_cheap]. eapply heap_grow_proper; [|exact Hg5].
    unfold exts_own, exts_lost, self_block, array_blocks. destruct vals; simpl; solve_Permutation.
  - destruct vals; simpl; [by rewrite decide_False by (intros Hd; by apply Hnone in Hd)|by rewrite decide_True by by apply Hnone].
Qed.

(** Motr's encoding of keys and values, as long as it finds memory. *)
Section Encoding.
Context (ekey : m0_uint128 → Z → list Z) (eval : Z → list Z).
Context (Hkey : ∀ layer off, m0_ext_key_to_buf layer off = (0, ent (ekey layer off)))
        (Hval : ∀ size, m0_ext_val_to_buf size = (0, ent (eval size)))
        (Hfromkey : ∀ layer off, m0_ext_key_from_buf (Some (ekey layer off)) = Done off)
        (Hfromval : ∀ size, m0_ext_val_from_buf (eval size) = size).

Lemma fill_exts_put layer first exts :
  fill_exts M0_IC_PUT layer first 0 exts =
  (0, (λ x, ent (ekey layer (moe_off x))) <$> exts, (λ x, ent (eval (moe_size x))) <$> exts).
Proof.
  revert first. induction exts as [|x exts IH]; intros first; [done|]. cbn [fill_exts].
  rewrite bool_decide_false by done. cbn [andb]. rewrite Hkey. cbn [Z.ltb Z.compare].
  rewrite bool_decide_true by done. rewrite Hval. cbn [Z.ltb Z.compare]. by rewrite IH.
Qed.

Lemma fill_exts_del layer first exts :
  fill_exts M0_IC_DEL layer first 0 exts =
  (0, (λ x, ent (ekey layer (moe_off x))) <$> exts, (λ x, (0, None)) <$> exts).
Proof.
  revert first. induction exts as [|x exts IH]; intros first; [done|]. cbn [fill_exts].
  rewrite bool_decide_false by done. cbn [andb]. rewrite Hkey. cbn [Z.ltb Z.compare].
  rewrite bool_decide_false by done. cbn [Z.ltb Z.compare]. by rewrite IH.
Qed.

Lemma fill_exts_next layer x exts :
  fill_exts M0_IC_NEXT layer true 0 (x :: exts) =
  (0, ent (ekey layer (moe_off x)) :: replicate (length exts) (0, None),
   (0, None) :: replicate (length exts) (0, None)).
Proof.
  cbn [fill_exts]. rewrite bool_decide_true by done. cbn [andb negb]. rewrite Hkey. cbn [Z.ltb Z.compare].
  rewrite bool_decide_false by done. cbn [Z.ltb Z.compare]. destruct exts as [|y exts]; [done|].
  cbn [fill_exts]. by rewrite bool_decide_true by done.
Qed.

Lemma ekey_inj layer off off' : ekey layer off = ekey layer off' → off = off'.
Proof. intros He. pose proof (Hfromkey layer off) as Hf. rewrite He, Hfromkey in Hf. congruence. Qed.

(** The index [m] holds the extents [e] of the layer. *)
Definition exts_rel (layer : m0_uint128) (m : gmap (list Z) (list Z)) (e : gmap Z Z) : Prop :=
  ∀ off, m !! ekey layer off = eval <$> e !! off.

Definition ext_pairs (exts : list mio_obj_ext) : list (Z * Z) := (λ x, (moe_off x, moe_size x)) <$> exts.

Lemma exts_rel_put layer m e exts :
  exts_rel layer m e →
  exts_rel layer (put_new m ((λ x, (ekey layer (moe_off x), eval (moe_size x))) <$> exts))
    (e ∪ list_to_map (ext_pairs exts)).
Proof.
  intros Hrel off. unfold put_new. rewrite !lookup_union, Hrel.
  assert (Hl : (list_to_map ((λ x, (ekey layer (moe_off x), eval (moe_size x))) <$> exts) : gmap _ _) !! ekey layer off =
    eval <$> (list_to_map (ext_pairs exts) : gmap Z Z) !! off).
  { induction exts as [|x exts IH]; [done|]. unfold ext_pairs. cbn [fmap list_fmap list_to_map foldr uncurry].
    destruct (decide (moe_off x = off)) as [<-|Hne].
    - by rewrite !lookup_insert_eq.
    - rewrite !lookup_insert_ne by (try done; intros He; by apply ekey_inj in He). exact IH. }
  rewrite Hl. by destruct (e !! off), (list_to_map (ext_pairs exts) !! off).
Qed.

Lemma exts_rel_del layer m e (exts : list mio_obj_ext) :
  exts_rel layer m e →
  exts_rel layer (foldr delete m ((λ x, ekey layer (moe_off x)) <$> exts)) (foldr delete e (moe_off <$> exts)).
Proof.
  intros Hrel. induction exts as [|x exts IH]; [done|]. intros off. cbn [fmap list_fmap foldr].
  destruct (decide (moe_off x = off)) as [<-|Hne]; [by rewrite !lookup_delete_eq|].
  rewrite !lookup_delete_ne by (try done; intros He; by apply ekey_inj in He). apply IH.
Qed.

(** Adding and deleting extents, from the launch to the end. *)
Lemma exec_put_del_exts obj h0 lost layer exts opcode op w m :
  opcode = M0_IC_PUT ∨ opcode = M0_IC_DEL → NoDup (moe_off <$> exts) → mop_drv_op_chain op = [] →
  heap_grow h0 (cw_heap w) lost → h_plan (cw_heap w) = [] →
  let id := mio__obj_id_to_uint128 layer in
  index_at (cw_index w) (layer_idx_id id) = Some m →
  ∃ w' more, comp_exec obj (comp_obj_put_del_extents opcode layer exts) op w = Done (0, Some CbComplete, w') ∧
    index_at (cw_index w') (layer_idx_id id) = Some (if decide (opcode = M0_IC_PUT)
      then put_new m ((λ x, (ekey id (moe_off x), eval (moe_size x))) <$> exts)
      else foldr delete m ((λ x, ekey id (moe_off x)) <$> exts)) ∧
    (∀ i, i ≠ layer_idx_id id → index_at (cw_index w') i = index_at (cw_index w) i) ∧
    heap_grow h0 (cw_heap w') (more ++ lost) ∧ h_plan (cw_heap w') = [] ∧
    length more = (if decide (opcode = M0_IC_PUT) then 2%nat else 1%nat).
Proof.
  intros Hop Hnd Hch Hg Hp id Hm. unfold comp_exec, comp_obj_put_del_extents.
  destruct (heap_grow_alloc_ok _ _ _ SIZEOF_EXTS_ARGS Hg Hp) as (a & h1 & -> & Ha & _ & Hg1 & Hp1).
  rewrite decide_False by done.
  set (kents := (λ x, ent (ekey id (moe_off x))) <$> exts).
  assert (Hfill : ∃ vents, fill_exts opcode id true 0 exts = (0, kents, vents) ∧
    (opcode = M0_IC_PUT → vents = (λ x, ent (eval (moe_size x))) <$> exts)).
  { destruct Hop as [-> | ->]; [rewrite fill_exts_put|rewrite fill_exts_del]; by eexists. }
  destruct Hfill as (vents & Hfill & Hv).
  destruct (extent_query_ok h0 layer exts opcode PpExtsRelease a op (set_cheap h1 w) lost kents vents Hfill Hg1 Hp1)
    as (args & b & w1 & -> & Hat & _ & _ & Hg2 & Hp2 & Hlen & Hex & _ & _).
  cbn [mbind outcome_bind Z.ltb Z.compare].
  assert (Hg2' : heap_grow h0 (cw_heap w1) (exts_own args ++ b :: exts_lost args ++ lost)).
  { eapply heap_grow_proper; [|exact Hg2]. symmetry. apply Permutation_middle. }
  destruct (exts_release_ok h0 args (with_dop b (ExtQuery (IdxOp opcode (layer_idx_id id) kents
    (if decide (opcode = M0_IC_DEL) then [] else vents) 0)) (Some (PpExtsRelease args)) op) w1 _ Hat Hg2' Hp2)
    as (h2 & Hrel & Hg3 & Hp3).
  erewrite comp_complete_final by exact Hrel. cbn [mbind outcome_bind].
  destruct (op_fini_one h0 h2 _ b (ExtQuery (IdxOp opcode (layer_idx_id id) kents
    (if decide (opcode = M0_IC_DEL) then [] else vents) 0)) (Some (PpExtsRelease args)) op 0 Hch Hg3 Hp3) as (h3 & Hfini & Hg4 & Hp4).
  cbn [set_cheap cw_heap]. fold id. rewrite Hfini. cbn [mbind outcome_bind].
  eexists _, (exts_lost args). split; [reflexivity|]. cbn [set_cheap cw_index cw_heap].
  assert (Hkeys : kents = ent <$> ((λ x, ekey id (moe_off x)) <$> exts)) by by rewrite <- list_fmap_compose.
  assert (Hndk : NoDup ((λ x, ekey id (moe_off x)) <$> exts)).
  { rewrite (list_fmap_compose moe_off (ekey id)). apply NoDup_fmap_2_strong; [|done].
    intros x y _ _. apply ekey_inj. }
  change (cw_index (set_cheap h1 w)) with (cw_index w) in Hex.
  destruct Hop as [-> | ->].
  - destruct (decide (M0_IC_PUT = M0_IC_DEL)) as [Hd|_]; [discriminate Hd|].
    destruct (decide (M0_IC_PUT = M0_IC_PUT)) as [_|Hd]; [|by destruct Hd].
    rewrite (Hv eq_refl), Hkeys in Hex.
    pose proof (m0_put_law (cw_index w) (layer_idx_id id) m
      ((λ x, (ekey id (moe_off x), eval (moe_size x))) <$> exts) Hm) as Hlaw.
    rewrite <- !list_fmap_compose in Hlaw. specialize (Hlaw Hndk). unfold compose in Hlaw. simpl in Hlaw.
    rewrite <- list_fmap_compose in Hex. unfold compose in Hex. fold id in Hex. rewrite Hex in Hlaw.
    destruct Hlaw as (_ & _ & Hi & Hoth). by split_and!.
  - destruct (decide (M0_IC_DEL = M0_IC_DEL)) as [_|Hd]; [|by destruct Hd].
    destruct (decide (M0_IC_DEL = M0_IC_PUT)) as [Hd|_]; [discriminate Hd|].
    rewrite Hkeys in Hex.
    pose proof (m0_del_law (cw_index w) (layer_idx_id id) m ((λ x, ekey id (moe_off x)) <$> exts) Hm Hndk) as Hlaw.
    fold id in Hex. rewrite Hex in Hlaw. destruct Hlaw as (_ & _ & Hi & Hoth). by split_and!.
Qed.

(** The array that the query for extents starts with, and what Motr returns for
    it when it finds [found]: the elements behind them are empty. *)
Definition next_keys (id : m0_uint128) (offset : Z) (n : nat) : list bufent :=
  ent (ekey id offset) :: replicate n (0, None).
Definition returned (f : mio_obj_ext → list Z) (found : list mio_obj_ext) (n : nat) : list bufent :=
  (ent ∘ f <$> found) ++ replicate (n - length found) (0, None).

Lemma get_exts_loop_empty exts :
  Forall (λ x, moe_size x = 0) exts → exts ≠ [] →
  get_exts_loop exts (replicate (length exts) (0, None)) (replicate (length exts) (0, None)) =
  (off ← m0_ext_key_from_buf None; Done ((λ _, MkExt off 0) <$> exts) : outcome (list mio_obj_ext)).
Proof.
  induction 1 as [|x exts Hx Hf IH]; [done|]. intros _. cbn [length replicate get_exts_loop snd].
  destruct (m0_ext_key_from_buf None) as [off|f] eqn:E; [|done]. cbn [mbind outcome_bind]. rewrite Hx.
  destruct exts as [|y exts]; [done|]. rewrite IH by done. by cbn [mbind outcome_bind fmap list_fmap].
Qed.

Lemma get_exts_loop_spec id exts found :
  Forall (λ x, moe_size x = 0) exts → (length found <= length exts)%nat →
  get_exts_loop exts (returned (ekey id ∘ moe_off) found (length exts)) (returned (eval ∘ moe_size) found (length exts)) =
  if decide (length found = length exts) then Done found
  else (off ← m0_ext_key_from_buf None; Done (found ++ replicate (length exts - length found) (MkExt off 0))
          : outcome (list mio_obj_ext)).
Proof.
  revert found. induction exts as [|x exts IH]; intros found Hf Hle.
  { simpl in Hle. destruct found; [by rewrite decide_True|simpl in Hle; lia]. }
  destruct found as [|y found].
  - rewrite decide_False by done. unfold returned. cbn [fmap list_fmap app length Nat.sub].
    pose proof (get_exts_loop_empty (x :: exts) Hf ltac:(done)) as He. cbn [length] in He. rewrite He.
    destruct (m0_ext_key_from_buf None) as [off|]; [|done]. cbn [mbind outcome_bind]. do 2 f_equal.
    clear. induction exts as [|z exts IH]; [done|]. cbn [fmap list_fmap length replicate]. f_equal. exact IH.
  - apply Forall_cons in Hf as [_ Hf]. unfold returned in *. cbn [fmap list_fmap app length Nat.sub get_exts_loop compose ent snd].
    rewrite Hfromkey. cbn [mbind outcome_bind]. rewrite Hfromval. rewrite IH by (done || (simpl in Hle; lia)).
    repeat case_decide; try (simpl in *; lia); cbn [mbind outcome_bind]; [by destruct y|].
    destruct (m0_ext_key_from_buf None); [|done]. cbn [mbind outcome_bind]. by destruct y.
Qed.

Lemma exec_get_exts obj h0 lost layer offset n op w found s' r :
  mop_drv_op_chain op = [] → heap_grow h0 (cw_heap w) lost → h_plan (cw_heap w) = [] →
  let id := mio__obj_id_to_uint128 layer in
  m0_req_exec (IdxOp M0_IC_NEXT (layer_idx_id id) (next_keys id offset n) (replicate (S n) (0, None)) 0) (cw_index w) =
    (s', r) → rep_stable r = true → (length found <= S n)%nat →
  rep_keys r = returned (ekey id ∘ moe_off) found (S n) → rep_vals r = returned (eval ∘ moe_size) found (S n) →
  let result := if decide (length found = S n) then Done found
    else (off ← m0_ext_key_from_buf None; Done (found ++ replicate (S n - length found) (MkExt off 0))
            : outcome (list mio_obj_ext)) in
  match result with
  | Fault f => comp_exec obj (mio_motr_comp_obj_get_extents layer offset (S n)) op w = Fault f
  | Done l => ∃ w' more, comp_exec obj (mio_motr_comp_obj_get_extents layer offset (S n)) op w = Done (0, Some CbComplete, w') ∧
      cw_ret_exts w' = l ∧ cw_nr_ret_exts w' = Z.of_nat (S n) ∧ heap_grow h0 (cw_heap w') (more ++ lost) ∧ length more = 2%nat
  end.
Proof.
  intros Hch Hg Hp id Hex Hst Hle Hks Hvs result. unfold comp_exec, mio_motr_comp_obj_get_extents.
  destruct (heap_grow_alloc_ok _ _ _ SIZEOF_EXTS_ARGS Hg Hp) as (a & h1 & -> & Ha & _ & Hg1 & Hp1).
  rewrite decide_False by done. cbn [replicate moe_size].
  pose proof (fill_exts_next id (MkExt offset 0) (replicate n (MkExt 0 0))) as Hfill. rewrite length_replicate in Hfill.
  destruct (extent_query_ok h0 layer (MkExt offset 0 :: replicate n (MkExt 0 0)) M0_IC_NEXT PpExtsGet a op (set_cheap h1 w)
    lost _ _ Hfill Hg1 Hp1) as (args & b & w1 & -> & Hat & Hret & Hents & Hg2 & Hp2 & Hlen & Hex1 & Hst1 & _).
  cbn [mbind outcome_bind Z.ltb Z.compare].
  destruct (decide (M0_IC_NEXT = M0_IC_DEL)) as [Hd|_]; [discriminate Hd|].
  change (cw_index (set_cheap h1 w)) with (cw_index w) in Hex1. fold id in Hex1. unfold next_keys in Hex. cbn [replicate] in Hex.
  cbn [moe_off] in Hex1. rewrite Hex in Hex1. injection Hex1 as Hi Hr. rewrite <- Hr in Hst1.
  set (req := IdxOp M0_IC_NEXT _ _ _ _) in *. set (op1 := with_dop b (ExtQuery req) (Some (PpExtsGet args)) op).
  assert (Hloop : get_exts_loop (epa_ret_exts args) (rep_keys (cw_reply w1)) (rep_vals (cw_reply w1)) = result).
  { rewrite <- Hr, Hret, Hks, Hvs.
    pose proof (get_exts_loop_spec id (MkExt offset 0 :: replicate n (MkExt 0 0)) found) as Hl.
    cbn [length] in Hl. rewrite length_replicate in Hl. apply Hl; [|exact Hle].
    constructor; [done|]. by apply Forall_replicate. }
  assert (Hpp : comp_pp_run obj (PpExtsGet args) op1 w1 =
    (exts ← result; motr_comp_obj_exts_release_pp args op1 (set_ret_exts exts (Z.of_nat (S n)) w1))).
  { cbn [comp_pp_run]. unfold motr_comp_obj_exts_get_pp. rewrite Hst1, Hst. cbn [negb]. rewrite Hloop, Hents.
    cbn [length]. by rewrite length_replicate. }
  destruct result as [l|f].
  - cbn [mbind outcome_bind] in Hpp.
    assert (Hg2' : heap_grow h0 (cw_heap (set_ret_exts l (Z.of_nat (S n)) w1)) (exts_own args ++ b :: exts_lost args ++ lost)).
    { eapply heap_grow_proper; [|exact Hg2]. symmetry. apply Permutation_middle. }
    destruct (exts_release_ok h0 args op1 (set_ret_exts l (Z.of_nat (S n)) w1) _ Hat Hg2' Hp2) as (h2 & Hrel & Hg3 & Hp3).
    rewrite Hrel in Hpp. unfold op1. erewrite comp_complete_final by exact Hpp. cbn [mbind outcome_bind].
    destruct (op_fini_one h0 h2 _ b (ExtQuery req) (Some (PpExtsGet args)) op 0 Hch Hg3 Hp3) as (h3 & Hfini & Hg4 & Hp4).
    cbn [set_cheap cw_heap]. rewrite Hfini. cbn [mbind outcome_bind].
    eexists _, (exts_lost args). split; [reflexivity|]. by split_and!.
  - cbn [mbind outcome_bind] in Hpp. cbn [comp_complete]. unfold motr_op_cb_complete.
    change (mop_drv_op_chain op1) with (MkDop (MkPtr b 0) (ExtQuery req) None (Some (PpExtsGet args))
       (mop_set_cbs op && mop_cb_complete op && mop_cb_failed op) :: mop_drv_op_chain op
         : list (mio_driver_op comp_req Empty_set comp_pp)).
    cbn [mdo_post_proc]. by rewrite Hpp.
Qed.

End Encoding.
End CompObj.

(** ** The operations of the driver as the API calls them *)

(** The table mio_motr_comp_obj_ops; mcoo_del is not set.  The functions on
    extents dereference the layer's id. *)
Section Table.
Context `{HostOrder} `{MotrIndex} `{MotrLayout}.

Definition lift_comp (f : mio_obj → comp_mop → comp_world → outcome (Z * comp_mop * comp_world))
  : @obj_fun comp_req Empty_set comp_pp comp_world :=
  λ obj op w, '(rc, op, w) ← f obj op w; Done (rc, obj, op, w).

Definition with_layer (layer_id : option mio_obj_id)
    (f : mio_obj_id → comp_mop → comp_world → outcome (Z * comp_mop * comp_world))
  : mio_obj → comp_mop → comp_world → outcome (Z * comp_mop * comp_world) :=
  λ _ op w, match layer_id with Some id => f id op w | None => Fault NullDeref end.

Definition mio_motr_comp_obj_ops : mio_comp_obj_ops := MkCompOps
  (lift_comp mio_motr_comp_obj_create)
  None
  (λ layers, lift_comp (λ obj, mio_motr_comp_obj_add_layers obj layers))
  (λ layers, lift_comp (λ obj, mio_motr_comp_obj_del_layers obj layers))
  (lift_comp mio_motr_comp_obj_list_layers)
  (λ id exts, lift_comp (with_layer id (λ id, mio_motr_comp_obj_add_extents id exts)))
  (λ id exts, lift_comp (with_layer id (λ id, mio_motr_comp_obj_del_extents id exts)))
  (λ id offset nr_exts, lift_comp (with_layer id (λ id, mio_motr_comp_obj_get_extents id offset (Z.to_nat nr_exts)))).

(** Sequences of calls. *)
Fixpoint run_layers_calls (obj : mio_obj) (op : comp_mop) (cs : list layers_call) (w : comp_world)
  : outcome (list (Z * option app_call * option mio_comp_obj_layout) * comp_world) :=
  match cs with
  | [] => Done ([], w)
  | c :: cs =>
      '(rc, call, ret, w) ← run_layers obj op c w;
      '(rs, w) ← run_layers_calls obj op cs w;
      Done ((rc, call, ret) :: rs, w)
  end.

Fixpoint spec_layers_calls (cs : list layers_call) (l : list m0_layer)
  : list (Z * option app_call * option mio_comp_obj_layout) * list m0_layer :=
  match cs with
  | [] => ([], l)
  | c :: cs =>
      let '(l, ret) := spec_layers c l in
      let '(rs, l) := spec_layers_calls cs l in
      ((0, Some CbComplete, ret) :: rs, l)
  end.

(** Adding (true) and deleting extents of a layer. *)
Fixpoint run_exts_calls (obj : mio_obj) (layer : mio_obj_id) (op : comp_mop) (cs : list (bool * list mio_obj_ext))
    (w : comp_world) : outcome (list (Z * option app_call) * comp_world) :=
  match cs with
  | [] => Done ([], w)
  | (add, exts) :: cs =>
      '(rc, call, w) ← comp_exec obj ((if add : bool then mio_motr_comp_obj_add_extents
                                         else mio_motr_comp_obj_del_extents) layer exts) op w;
      '(rs, w) ← run_exts_calls obj layer op cs w;
      Done ((rc, call) :: rs, w)
  end.

(** A finite map from offsets to sizes: adding keeps the extents that exist. *)
Definition spec_exts (c : bool * list mio_obj_ext) (e : gmap Z Z) : gmap Z Z :=
  if c.1 then e ∪ list_to_map (ext_pairs c.2) else foldr delete e (moe_off <$> c.2).

Definition spec_exts_calls (cs : list (bool * list mio_obj_ext)) (e : gmap Z Z) : gmap Z Z :=
  foldl (λ e c, spec_exts c e) e cs.
End Table.

(** (C22) The layers of a composite object.  While malloc() and Motr accept what
    they are asked, any sequence of additions, deletions and listings gives the
    results and the layers of the specification on a list, and changes no other
    object: deleting takes out the named layers, listing gives the ids in Motr's
    order with priority 0, and adding leaves the new layers only - those the
    object had are gone.  Listing loses the query's arguments, the array it
    returns belongs to the application, and nothing else is lost. *)
Theorem comp_layers_refine (host : HostOrder) (motr : MotrIndex) (layouts : MotrLayout)
    (obj : mio_obj) (o : m0_obj) (op : comp_mop) (cs : list layers_call) (w : comp_world) (l : list m0_layer)
    (cur : list Z)
  (Hobj : mo_drv_obj obj = Some o) (Hop : mop_drv_op_chain op = [])
  (Hadd : ∀ l id prio, (m0_composite_layer_add l id prio).1 = 0)
  (Hheap : heap_ok (cw_heap w)) (Hplan : h_plan (cw_heap w) = []) (Hnull : ob_layout w = NULL)
  (Hl : obj_layout (cw_layouts w) (ob_id o) = Some l) :
  (∃ w' cur lost, run_layers_calls obj op cs w = Done ((spec_layers_calls cs l).1, w') ∧
     obj_layout (cw_layouts w') (ob_id o) = Some (spec_layers_calls cs l).2 ∧
     (∀ id, id ≠ ob_id o → obj_layout (cw_layouts w') id = obj_layout (cw_layouts w) id) ∧
     owns_copy (ob_layout w') cur ∧ heap_grow (cw_heap w) (cw_heap w') (cur ++ lost) ∧
     length lost = sum_list (lost_layers <$> cs)) ∧
  ∀ layers l', (spec_layers (CallAdd layers) l').1 ≡ₚ
    (λ y, MkM0Layer (mio__obj_id_to_uint128 (mcol_oid y)) (mcol_priority y)) <$> layers.
Proof.
  split.
  2:{ intros layers l'. simpl. destruct (add_layers_loop_ok [] layers Hadd) as [_ H]. by rewrite app_nil_r in H. }
  assert (Hinv : comp_inv (cw_heap w) (ob_id o) [] l w).
  { exists []. split_and!; [left; by rewrite Hnull|by apply heap_grow_refl|done|done]. }
  assert (Hgen : ∀ lost w1 l1, comp_inv (cw_heap w) (ob_id o) lost l1 w1 →
    ∃ w' more, run_layers_calls obj op cs w1 = Done ((spec_layers_calls cs l1).1, w') ∧
      comp_inv (cw_heap w) (ob_id o) (more ++ lost) (spec_layers_calls cs l1).2 w' ∧
      length more = sum_list (lost_layers <$> cs) ∧ others_same (ob_id o) w1 w').
  { clear Hinv. induction cs as [|c cs IH]; intros lost w1 l1 Hinv; [by exists w1, []|].
    destruct (run_layers_refines obj o Hobj (cw_heap w) lost l1 c op w1 Hadd Hop Hinv) as (w2 & more & H1 & H2 & H3 & H4).
    destruct (IH _ _ _ H2) as (w3 & more' & H5 & H6 & H7 & H8). exists w3, (more' ++ more).
    cbn [run_layers_calls spec_layers_calls fmap list_fmap]. rewrite H1. cbn [mbind outcome_bind]. rewrite H5.
    cbn [mbind outcome_bind]. destruct (spec_layers c l1) as [l2 ret]. simpl in *.
    destruct (spec_layers_calls cs l2) as [rs l3]. simpl in *. split_and!; [done| |rewrite length_app; lia|].
    - by rewrite <- app_assoc.
    - intros id Hid. by rewrite H8, H4. }
  destruct (Hgen [] w l Hinv) as (w' & more & H1 & (cur' & H2 & H3 & H4 & H5) & H6 & H7).
  rewrite app_nil_r in H3. exists w', cur', more. by split_and!.
Qed.

(** A refused layer.  When Motr refuses one of the layers to add, its error
    is returned, the object's layers are what they were and all memory is
    released, but the object keeps a pointer to the released copy of its layout:
    the next addition, deletion or listing of layers releases it again. *)
Theorem comp_add_layers_refused_dangling (host : HostOrder) (motr : MotrIndex) (layouts : MotrLayout)
    (obj : mio_obj) (o : m0_obj) (op : comp_mop) (layers : list mio_comp_obj_layer) (next : layers_call)
    (w : comp_world) (l : list m0_layer)
  (Hobj : mo_drv_obj obj = Some o)
  (Hheap : heap_ok (cw_heap w)) (Hplan : h_plan (cw_heap w) = []) (Hnull : ob_layout w = NULL)
  (Hl : obj_layout (cw_layouts w) (ob_id o) = Some l) (Hrefused : (add_layers_loop [] layers).1 < 0) :
  ∃ w', mio_motr_comp_obj_add_layers obj layers op w = Done ((add_layers_loop [] layers).1, op, w') ∧
    cw_layouts w' = cw_layouts w ∧ h_blocks (cw_heap w') = h_blocks (cw_heap w) ∧ ob_layout w' ≠ NULL ∧
    start_layers obj next op w' = Fault DoubleFree.
Proof.
  assert (Hinv : comp_inv (cw_heap w) (ob_id o) [] l w).
  { exists []. split_and!; [left; by rewrite Hnull|by apply heap_grow_refl|done|done]. }
  destruct (add_layers_loop [] layers) as [rc l'] eqn:El.
  destruct (add_layers_refused obj o Hobj (cw_heap w) [] l layers op w rc l' Hinv El Hrefused)
    as (w' & c & H1 & H2 & H3 & H4 & H5 & H6 & H7 & H8).
  exists w'. split_and!; [done|done|by apply heap_grow_nil|by rewrite H2|].
  eapply start_layers_dangling; try done. by eapply heap_grow_ok.
Qed.

(** (C23) Extents.  While malloc() and Motr accept what they are asked, adding and
    deleting extents of a layer, with different offsets per call, is insertion
    into and deletion from a finite map from offsets to sizes; an extent that
    exists keeps its size when it is added again, and every call returns 0 and
    completes.  The indices of other layers do not change.  A call loses the
    structures of its vectors. *)
Theorem comp_exts_refine_map (host : HostOrder) (motr : MotrIndex) (layouts : MotrLayout)
    (ekey : m0_uint128 → Z → list Z) (eval : Z → list Z) (obj : mio_obj) (layer : mio_obj_id) (op : comp_mop)
    (cs : list (bool * list mio_obj_ext)) (w : comp_world) (m : gmap (list Z) (list Z)) (e : gmap Z Z)
  (Hkey : ∀ layer off, m0_ext_key_to_buf layer off = (0, ent (ekey layer off)))
  (Hval : ∀ size, m0_ext_val_to_buf size = (0, ent (eval size)))
  (Hfromkey : ∀ layer off, m0_ext_key_from_buf (Some (ekey layer off)) = Done off)
  (Hop : mop_drv_op_chain op = []) (Hheap : heap_ok (cw_heap w)) (Hplan : h_plan (cw_heap w) = [])
  (Hidx : index_at (cw_index w) (layer_idx_id (mio__obj_id_to_uint128 layer)) = Some m)
  (Hrel : exts_rel ekey eval (mio__obj_id_to_uint128 layer) m e)
  (Hcs : Forall (λ c, NoDup (moe_off <$> c.2)) cs) :
  ∃ w' m' lost, run_exts_calls obj layer op cs w = Done (const (0, Some CbComplete) <$> cs, w') ∧
    index_at (cw_index w') (layer_idx_id (mio__obj_id_to_uint128 layer)) = Some m' ∧
    exts_rel ekey eval (mio__obj_id_to_uint128 layer) m' (spec_exts_calls cs e) ∧
    (∀ i, i ≠ layer_idx_id (mio__obj_id_to_uint128 layer) → index_at (cw_index w') i = index_at (cw_index w) i) ∧
    heap_grow (cw_heap w) (cw_heap w') lost ∧
    length lost = sum_list ((λ c, if c.1 : bool then 2%nat else 1%nat) <$> cs).
Proof.
  assert (Hgen : ∀ lost w1 m1 e1, heap_grow (cw_heap w) (cw_heap w1) lost → h_plan (cw_heap w1) = [] →
    index_at (cw_index w1) (layer_idx_id (mio__obj_id_to_uint128 layer)) = Some m1 →
    exts_rel ekey eval (mio__obj_id_to_uint128 layer) m1 e1 →
    ∃ w' m' more, run_exts_calls obj layer op cs w1 = Done (const (0, Some CbComplete) <$> cs, w') ∧
      index_at (cw_index w') (layer_idx_id (mio__obj_id_to_uint128 layer)) = Some m' ∧
      exts_rel ekey eval (mio__obj_id_to_uint128 layer) m' (spec_exts_calls cs e1) ∧
      (∀ i, i ≠ layer_idx_id (mio__obj_id_to_uint128 layer) → index_at (cw_index w') i = index_at (cw_index w1) i) ∧
      heap_grow (cw_heap w) (cw_heap w') (more ++ lost) ∧
      length more = sum_list ((λ c, if c.1 : bool then 2%nat else 1%nat) <$> cs)).
  { clear Hheap Hplan Hidx Hrel. induction Hcs as [|[add exts] cs Hnd Hcs' IH]; intros lost w1 m1 e1 Hg Hp Hi Hr.
    { exists w1, m1, []. by split_and!. }
    destruct (exec_put_del_exts ekey eval Hkey Hval Hfromkey obj (cw_heap w) lost layer exts
      (if add then M0_IC_PUT else M0_IC_DEL) op w1 m1 ltac:(destruct add; auto) Hnd Hop Hg Hp Hi)
      as (w2 & more & Hx & Hi2 & Ho2 & Hg2 & Hp2 & Hl2).
    destruct (IH (more ++ lost) w2 _ (spec_exts (add, exts) e1) Hg2 Hp2 Hi2) as (w3 & m3 & more' & H1 & H2 & H3 & H4 & H5 & H6).
    { destruct add; unfold spec_exts; cbn [fst snd]; case_decide; try done; [by apply exts_rel_put|by apply exts_rel_del]. }
    exists w3, m3, (more' ++ more). cbn [run_exts_calls fmap list_fmap sum_list].
    assert (Hf : (if add then mio_motr_comp_obj_add_extents else mio_motr_comp_obj_del_extents) =
      comp_obj_put_del_extents (if add then M0_IC_PUT else M0_IC_DEL)) by by destruct add.
    rewrite Hf, Hx. cbn [mbind outcome_bind]. rewrite H1. cbn [mbind outcome_bind].
    split_and!; [done|done|done| |by rewrite <- app_assoc|].
    - intros i Hne. by rewrite H4, Ho2.
    - rewrite length_app, H6, Hl2. destruct add; case_decide; try done; simpl; lia. }
  destruct (Hgen [] w m e (heap_grow_refl _ Hheap) Hplan Hidx Hrel) as (w' & m' & more & H1 & H2 & H3 & H4 & H5 & H6).
  rewrite app_nil_r in H5. exists w', m', more. by split_and!.
Qed.

(** Listing extents.  The number returned is that of the array the caller
    passed, however many extents Motr has found: all are correct when the array
    is full; otherwise the rest are what Motr's decoder makes of a NULL buffer,
    and if it faults the call does.  An empty array is written to. *)
Theorem comp_get_extents_count (host : HostOrder) (motr : MotrIndex) (layouts : MotrLayout)
    (ekey : m0_uint128 → Z → list Z) (eval : Z → list Z) (obj : mio_obj) (layer : mio_obj_id) (offset : Z) (n : nat)
    (op : comp_mop) (w : comp_world) (found : list mio_obj_ext) (s' : mindex) (r : m0_reply)
  (Hkey : ∀ layer off, m0_ext_key_to_buf layer off = (0, ent (ekey layer off)))
  (Hfromkey : ∀ layer off, m0_ext_key_from_buf (Some (ekey layer off)) = Done off)
  (Hfromval : ∀ size, m0_ext_val_from_buf (eval size) = size)
  (Hop : mop_drv_op_chain op = []) (Hheap : heap_ok (cw_heap w)) (Hplan : h_plan (cw_heap w) = [])
  (Hmotr : let id := mio__obj_id_to_uint128 layer in
     m0_req_exec (IdxOp M0_IC_NEXT (layer_idx_id id) (next_keys ekey id offset n) (replicate (S n) (0, None)) 0)
       (cw_index w) = (s', r) ∧ rep_stable r = true ∧
     rep_keys r = returned (ekey id ∘ moe_off) found (S n) ∧ rep_vals r = returned (eval ∘ moe_size) found (S n))
  (Hfound : (length found <= S n)%nat) :
  let run k := comp_exec obj (mio_motr_comp_obj_get_extents layer offset k) op w in
  (length found = S n → ∃ w', run (S n) = Done (0, Some CbComplete, w') ∧
     cw_ret_exts w' = found ∧ cw_nr_ret_exts w' = Z.of_nat (S n)) ∧
  ((length found < S n)%nat →
     match m0_ext_key_from_buf None with
     | Fault f => run (S n) = Fault f
     | Done off => ∃ w', run (S n) = Done (0, Some CbComplete, w') ∧ cw_nr_ret_exts w' = Z.of_nat (S n) ∧
         cw_ret_exts w' = found ++ replicate (S n - length found) (MkExt off 0)
     end) ∧
  run O = Fault OutOfBounds.
Proof.
  destruct Hmotr as (Hex & Hst & Hks & Hvs). intros run.
  pose proof (exec_get_exts ekey eval Hkey Hfromkey Hfromval obj (cw_heap w) [] layer offset n op w found s' r
    Hop (heap_grow_refl _ Hheap) Hplan Hex Hst Hfound Hks Hvs) as H. split_and!.
  - intros Hlen. rewrite decide_True in H by done. destruct H as (w' & more & H1 & H2 & H3 & _). by exists w'.
  - intros Hlen. rewrite decide_False in H by lia. destruct (m0_ext_key_from_buf None) as [off|f]; simpl in H; [|done].
    destruct H as (w' & more & H1 & H2 & H3 & _). by exists w'.
  - unfold run, comp_exec, mio_motr_comp_obj_get_extents.
    destruct (heap_grow_alloc_ok _ _ _ SIZEOF_EXTS_ARGS (heap_grow_refl _ Hheap) Hplan) as (a & h1 & -> & Ha & _).
    rewrite decide_False by done. done.
Qed.

(** Deleting a composite object.  The Motr driver has no function for it:
    with a live instance, an id and an operation mio_composite_obj_del() calls
    through a NULL pointer. *)
Theorem mio_composite_obj_del_null (host : HostOrder) (motr : MotrIndex) (layouts : MotrLayout)
    (d : @mio_driver comp_req Empty_set comp_pp comp_world) (oo : mio_op_ops) (oid : mio_obj_id) (s : st) (op : app_op)
  (Hlive : live d oo (st_api s)) (Hops : md_comp_obj_ops d = Some mio_motr_comp_obj_ops) (Hop : st_op s = Some op) :
  mio_composite_obj_del (Some oid) s = Fault NullDeref.
Proof.
  apply live_check in Hlive as [Hc Hd]. unfold mio_composite_obj_del, elvis, mio_obj_op_init. rewrite Hop, Hc.
  cbn [mbind outcome_bind Z.ltb Z.compare]. unfold op_assign. rewrite Hd. cbn [mbind outcome_bind].
  assert (Hcall : ∀ s1, the_driver (st_api s1) = Done d →
    drv_op_call (λ d, ops ← deref (md_comp_obj_ops d); f ← deref (mcoo_del ops); Done (f oid)) s1 = Fault NullDeref).
  { intros s1 Hd1. unfold drv_op_call. rewrite Hd1. cbn [mbind outcome_bind]. by rewrite Hops. }
  destruct (st_obj s) eqn:Eo; cbn [st_obj]; rewrite ?Eo; cbn [mbind outcome_bind Z.eqb]; by apply Hcall.
Qed.

(** ** Witnesses: layouts as a finite map *)
Definition map_layouts : Type := m0_uint128 → option (list m0_layer).

Definition upd_layout (id : m0_uint128) (l : option (list m0_layer)) (s : map_layouts) : map_layouts :=
  λ id', if decide (id' = id) then l else s id'.

Definition ex_ekey (layer : m0_uint128) (off : Z) : list Z := [u_hi layer; u_lo layer; off].
Definition ex_eval (size : Z) : list Z := [size].

Definition ex_key_from_buf (b : option (list Z)) : outcome Z :=
  match b with Some [_; _; off] => Done off | _ => Fault NullDeref end.
Definition ex_bufvec_free (bv : option m0_bufvec) (h : heap) : outcome heap :=
  match bv with
  | None => Done h
  | Some bv => h ← mio_mem_free (bv_buf bv) h; mio_mem_free (bv_count bv) h
  end.

(** [refuse]: no layer can be added. *)
Program Definition map_layout (refuse : bool) : MotrLayout := {|
  mlayouts := map_layouts; obj_layout s id := s id; sizeof_m0_layout := 64; sizeof_m0_obj := 128;
  m0_client_layout_alloc := mio_mem_alloc 64; m0_client_layout_free := mio_mem_free;
  m0_op_fini_null := Fault AssertFail;
  m0_composite_layer_add l id prio := if refuse then (- ENOMEM, l) else (0, MkM0Layer id prio :: l);
  m0_composite_layer_del l id := filter (λ x, ccr_subobj x ≠ id) l;
  m0_layout_set id l s := (upd_layout id (Some l) s, true);
  m0_layout_get id s := (s, true, default [] (s id));
  layer_idx_id id := id;
  m0_ext_key_to_buf layer off := (0, ent (ex_ekey layer off));
  m0_ext_val_to_buf size := (0, ent (ex_eval size));
  m0_ext_key_from_buf := ex_key_from_buf;
  m0_ext_val_from_buf b := hd 0 b;
  m0_ext_bufvec_free := ex_bufvec_free
|}.
Next Obligation. done. Qed.
Next Obligation. done. Qed.
Next Obligation. intros [] l id prio; simpl; [right; split; [reflexivity|done]|by left]. Qed.
Next Obligation. done. Qed.
Next Obligation.
  intros refuse s id l l0 _. simpl. unfold upd_layout. split; [done|]. split; [by rewrite decide_True|].
  intros id' ?. by rewrite decide_False.
Qed.
Next Obligation. intros refuse s id l Hs. simpl in *. by rewrite Hs. Qed.
Next Obligation. done. Qed.

Definition ex_comp_op : comp_mop := MkOp 0 0 0 true true [] true.
Definition ex_comp_obj : mio_obj :=
  MkObj (MkObjId []) 4 hint_map_zero false attrs_zero (Some (MkM0Obj (MkU128 1 2) 12 (MkFid 0 0))).
Definition ex_oid (x : Z) : mio_obj_id := @mio__uint128_to_obj_id false (MkU128 0 x).

Section Witnesses.
#[local] Instance little_endian : HostOrder := false.
#[local] Existing Instance map_motr.

Definition ex_comp_world (refuse : bool) (m : gmap (list Z) (list Z)) : @comp_world map_motr (map_layout refuse) :=
  @MkCompWorld map_motr (map_layout refuse) (ex_kvs_heap []) ∅ NULL
    (λ _, Some [MkM0Layer (MkU128 0 5) 1]) (λ _, Some m) true
    (MkReply true [] [] []) (MkLayout 0 None) [] 0.

Lemma comp_layers_refine_witness :
  ∃ w', @run_layers_calls false map_motr (map_layout false) ex_comp_obj ex_comp_op
    [CallList; CallAdd [MkLayer 3 (ex_oid 7); MkLayer 4 (ex_oid 8)]; CallDel [MkLayer 0 (ex_oid 7)]; CallList]
    (ex_comp_world false ∅) =
  Done ([(0, Some CbComplete, Some (MkLayout 1 (Some [MkLayer 0 (ex_oid 5)])));
         (0, Some CbComplete, None); (0, Some CbComplete, None);
         (0, Some CbComplete, Some (MkLayout 1 (Some [MkLayer 0 (ex_oid 8)])))], w').
Proof.
  destruct (comp_layers_refine false map_motr (map_layout false) ex_comp_obj (MkM0Obj (MkU128 1 2) 12 (MkFid 0 0))
    ex_comp_op [CallList; CallAdd [MkLayer 3 (ex_oid 7); MkLayer 4 (ex_oid 8)]; CallDel [MkLayer 0 (ex_oid 7)]; CallList]
    (ex_comp_world false ∅) [MkM0Layer (MkU128 0 5) 1] []) as [(w' & cur & lost & H & _) _].
  - reflexivity.
  - reflexivity.
  - done.
  - apply ex_kvs_heap_ok.
  - reflexivity.
  - reflexivity.
  - reflexivity.
  - exists w'. rewrite H. vm_compute. reflexivity.
Defined.

Lemma comp_add_layers_refused_dangling_witness :
  ∃ w', @mio_motr_comp_obj_add_layers false map_motr (map_layout true) ex_comp_obj [MkLayer 3 (ex_oid 7)] ex_comp_op
      (ex_comp_world true ∅) = Done (- ENOMEM, ex_comp_op, w') ∧
    @start_layers false map_motr (map_layout true) ex_comp_obj CallList ex_comp_op w' = Fault DoubleFree.
Proof.
  destruct (comp_add_layers_refused_dangling false map_motr (map_layout true) ex_comp_obj (MkM0Obj (MkU128 1 2) 12 (MkFid 0 0))
    ex_comp_op [MkLayer 3 (ex_oid 7)] CallList (ex_comp_world true ∅) [MkM0Layer (MkU128 0 5) 1])
    as (w' & H1 & _ & _ & _ & H2).
  - reflexivity.
  - apply ex_kvs_heap_ok.
  - reflexivity.
  - reflexivity.
  - reflexivity.
  - reflexivity.
  - exists w'. by split.
Defined.

Lemma comp_exts_refine_map_witness :
  ∃ w' m', @run_exts_calls false map_motr (map_layout false) ex_comp_obj (ex_oid 7) ex_comp_op
      [(true, [MkExt 0 10; MkExt 4096 20]); (true, [MkExt 0 99]); (false, [MkExt 4096 0])] (ex_comp_world false ∅) =
    Done ([(0, Some CbComplete); (0, Some CbComplete); (0, Some CbComplete)], w') ∧
    exts_rel ex_ekey ex_eval (MkU128 0 7) m' {[ 0 := 10 ]}.
Proof.
  destruct (comp_exts_refine_map false map_motr (map_layout false) ex_ekey ex_eval ex_comp_obj (ex_oid 7) ex_comp_op
    [(true, [MkExt 0 10; MkExt 4096 20]); (true, [MkExt 0 99]); (false, [MkExt 4096 0])] (ex_comp_world false ∅) ∅ ∅)
    as (w' & m' & lost & H1 & _ & H2 & _).
  - reflexivity.
  - reflexivity.
  - reflexivity.
  - reflexivity.
  - apply ex_kvs_heap_ok.
  - reflexivity.
  - reflexivity.
  - intros off. rewrite !lookup_empty. reflexivity.
  - repeat constructor; set_solver.
  - exists w', m'. split; [exact H1|]. exact H2.
Defined.

Lemma comp_get_extents_count_witness :
  ∃ w', @comp_exec false map_motr (map_layout false) ex_comp_obj (mio_motr_comp_obj_get_extents (ex_oid 7) 0 1) ex_comp_op
      (ex_comp_world false {[ [0; 7; 4096] := [20] ]}) = Done (0, Some CbComplete, w') ∧
    cw_ret_exts w' = [MkExt 4096 20] ∧ cw_nr_ret_exts w' = 1.
Proof.
  destruct (comp_get_extents_count false map_motr (map_layout false) ex_ekey ex_eval ex_comp_obj (ex_oid 7) 0 0 ex_comp_op
    (ex_comp_world false {[ [0; 7; 4096] := [20] ]}) [MkExt 4096 20] (λ _, Some {[ [0; 7; 4096] := [20] ]})
    (MkReply true [0] [(3, Some [0; 7; 4096])] [(1, Some [20])])) as [H _].
  - reflexivity.
  - reflexivity.
  - reflexivity.
  - reflexivity.
  - apply ex_kvs_heap_ok.
  - reflexivity.
  - vm_compute. by split_and!.
  - simpl. lia.
  - destruct (H eq_refl) as (w' & H1 & H2 & H3). exists w'. by split_and!.
Defined.

Lemma mio_composite_obj_del_null_witness :
  let d : @mio_driver comp_req Empty_set comp_pp (@comp_world map_motr (map_layout false)) :=
    MkDriver true (Some (MkOpOps None true)) None None (Some (@mio_motr_comp_obj_ops false map_motr (map_layout false))) in
  mio_composite_obj_del (Some (ex_oid 7))
    (MkSt (MkApi (InstLive (Some d)) 0 0 0 [] [] (ex_comp_world false ∅)) None
       (Some (MkAppOp ex_comp_op WhoNone None))) = Fault NullDeref.
Proof.
  intros d. eapply (mio_composite_obj_del_null false map_motr (map_layout false) d (MkOpOps None true) (ex_oid 7)).
  - by split_and!.
  - reflexivity.
  - reflexivity.
Defined.
End Witnesses.
