(* ===== verification/CompProg.v ===== *)
(** * The example of composite objects (src/examples/mio_comp_obj.c)

    A composite object is created, gets layers and extents, both are listed and
    deleted.  The program is modelled over an interface of what the library promises
    for composite objects, which is what [CompObj] shows of the driver. *)

From Stdlib Require Import String.
From S2P Require Import Prelude Bytes ObjId HintMap Types DriverOp Api CStr Conf CmdHelpers ObjService ObjCmd ObjCopy.
Open Scope Z_scope.

(** ** What the program uses of composite objects *)

Inductive comp_call :=
| CompCreate (oid : mio_obj_id)
| CompAddLayers (layers : list mio_comp_obj_layer)
| CompDelLayers (layers_to_del : list mio_comp_obj_layer)
| CompListLayers
| CompAddExts (layer_id : mio_obj_id) (exts : list mio_obj_ext)
| CompDelExts (layer_id : mio_obj_id) (exts : list mio_obj_ext)
| CompGetExts (layer_id : mio_obj_id) (offset nr_exts : Z).

(** The layers that were listed, the extents that were returned. *)
Record comp_reply := MkCompReply { cr_layers : list mio_comp_obj_layer; cr_exts : list mio_obj_ext }.

Definition ext_map (exts : list mio_obj_ext) : gmap Z Z := list_to_map ((λ x, (moe_off x, moe_size x)) <$> exts).

(** What a call does, when it returns [rc], to the layers of objects and to the extents
    of layers. *)
Definition comp_spec (c : comp_call) (oid : mio_obj_id) (l l' : mio_obj_id → option (list mio_obj_id))
    (e e' : mio_obj_id → gmap Z Z) (rc : Z) (r : comp_reply) : Prop :=
  match c with
  | CompCreate id =>
      (∀ i, i ≠ id → l' i = l i) ∧ (∀ i, e' i = e i) ∧ (rc = 0 → l' id = Some [])
  | CompAddLayers layers =>
      (∀ i, i ≠ oid → l' i = l i) ∧ (∀ i, e' i = e i) ∧
      (rc = 0 → ∃ ids, l' oid = Some ids ∧ ids ≡ₚ mcol_oid <$> layers)
  | CompDelLayers layers =>
      (∀ i, i ≠ oid → l' i = l i) ∧ (∀ i, e' i = e i) ∧
      (rc = 0 → ∃ ids, l oid = Some ids ∧ l' oid = Some (filter (λ i, i ∉ mcol_oid <$> layers) ids))
  | CompListLayers =>
      (∀ i, l' i = l i) ∧ (∀ i, e' i = e i) ∧ (rc = 0 → l oid = Some (mcol_oid <$> cr_layers r))
  | CompAddExts layer exts =>
      (∀ i, l' i = l i) ∧ (∀ i, i ≠ layer → e' i = e i) ∧ (rc = 0 → e' layer = e layer ∪ ext_map exts)
  | CompDelExts layer exts =>
      (∀ i, l' i = l i) ∧ (∀ i, i ≠ layer → e' i = e i) ∧ (rc = 0 → e' layer = foldr delete (e layer) (moe_off <$> exts))
  | CompGetExts layer off n =>
      (∀ i, l' i = l i) ∧ (∀ i, e' i = e i) ∧ (rc = 0 → Z.of_nat (length (cr_exts r)) = n)
  end.

Class CompService `{ObjService} := {
  (** The layers of an object, and the extents of a layer. *)
  cs_layers : sv → mio_obj_id → option (list mio_obj_id);
  cs_exts : sv → mio_obj_id → gmap Z Z;
  (** A function of the API and waiting for its operation: the result, what it
      returns, the handle. *)
  cs_call : comp_call → mio_obj → sv → Z * comp_reply * mio_obj * sv;
  cs_call_ok : ∀ c o s rc r o' s', cs_call c o s = (rc, r, o', s') →
    rc <= 0 ∧ (∀ id, sv_objects s' id = sv_objects s id) ∧ same_handle o o' ∧ mo_attrs_updated o' = mo_attrs_updated o ∧
    comp_spec c (mo_id o) (cs_layers s) (cs_layers s') (cs_exts s) (cs_exts s') rc r;
  (** Operations on objects do not touch the layers of other objects, nor extents. *)
  cs_start_frame : ∀ c o s rc o' s', sv_start c o s = (rc, o', s') →
    (∀ id, cs_layers s' id = cs_layers s id) ∧ (∀ id, cs_exts s' id = cs_exts s id);
  cs_wait_frame : ∀ c o s rc d o' s', sv_wait c o s = (rc, d, o', s') →
    (∀ id, id ≠ call_target c o → cs_layers s' id = cs_layers s id) ∧ (∀ id, cs_exts s' id = cs_exts s id);
  cs_close_frame : ∀ o s s', sv_close o s = Done s' →
    (∀ id, cs_layers s' id = cs_layers s id) ∧ (∀ id, cs_exts s' id = cs_exts s id)
}.

Section CompProg.
Context `{HostOrder} `{CompService}.

(** The library, the handle of the composite object, the blocks of memory that were
    lost, and what was printed: the layers, and extents with the number of their
    layer. *)
Record comp_prog := MkCompProg {
  cp_w : cmd_world;
  cp_obj : mio_obj;
  cp_lost : Z;
  cp_layers : list mio_obj_id;
  cp_exts : list (Z * mio_obj_ext)
}.

Definition set_cp_w (w : cmd_world) (x : comp_prog) : comp_prog :=
  MkCompProg w (cp_obj x) (cp_lost x) (cp_layers x) (cp_exts x).
Definition set_cp_obj (o : mio_obj) (x : comp_prog) : comp_prog :=
  MkCompProg (cp_w x) o (cp_lost x) (cp_layers x) (cp_exts x).
Definition cp_lose (n : Z) (x : comp_prog) : comp_prog :=
  MkCompProg (cp_w x) (cp_obj x) (cp_lost x + n) (cp_layers x) (cp_exts x).
Definition cp_print_layers (l : list mio_obj_id) (x : comp_prog) : comp_prog :=
  MkCompProg (cp_w x) (cp_obj x) (cp_lost x) (cp_layers x ++ l) (cp_exts x).
Definition cp_print_exts (l : list (Z * mio_obj_ext)) (x : comp_prog) : comp_prog :=
  MkCompProg (cp_w x) (cp_obj x) (cp_lost x) (cp_layers x) (cp_exts x ++ l).

(** mio_op_init(), the call or its operation, mio_op_fini(). *)
Definition comp_do (c : comp_call) (x : comp_prog) : Z * comp_reply * comp_prog :=
  let '(rc, r, o, s) := cs_call c (cp_obj x) (cw_sv (cp_w x)) in
  (rc, r, set_cp_obj o (set_cp_w (set_cw_sv s (cp_w x)) x)).

(** [layer_ids_get]. *)
Definition layer_ids_get (oid : mio_obj_id) (nr_layers : Z) : list mio_obj_id :=
  let u1 := mio_byteorder_be64_to_cpu (of_native (take 8 (moi_bytes oid))) in
  let u2 := mio_byteorder_be64_to_cpu (of_native (take 8 (drop 8 (moi_bytes oid)))) in
  (λ i, MkObjId (native 8 (mio_byteorder_cpu_to_be64 (u64 (u64 (u1 + i) + 1))) ++
                 native 8 (mio_byteorder_cpu_to_be64 u2))) <$> seqZ 0 nr_layers.

(** [comp_obj_alloc_layer_ids_n_exts] and [comp_obj_alloc_layers]: two allocations; when
    one fails it is NULL that is freed, and the other block is lost. *)
Definition comp_obj_alloc (nr_layers : Z) (x : comp_prog) : Z * list mio_obj_id * comp_prog :=
  let '(ok1, p) := plan_next (cw_plan (cp_w x)) in
  let '(ok2, p) := plan_next p in
  let x := set_cp_w (set_cw_plan p (cp_w x)) x in
  if negb (ok1 && ok2) then (- ENOMEM, [], cp_lose ((if ok1 : bool then 1 else 0) + (if ok2 : bool then 1 else 0)) x)
  else (0, layer_ids_get (mo_id (cp_obj x)) nr_layers, x).

(** The extents of the layer [i]: the offset is an int. *)
Definition layer_exts (i nr_exts : Z) : list mio_obj_ext :=
  (λ j, MkExt (s32 ((i * nr_exts + j) * 4096 * 4096)) (4096 * 4096)) <$> seqZ 0 nr_exts.

(** The loop of [comp_obj_add_extents] and [comp_obj_del_extents], with the call [f]. *)
Fixpoint exts_loop (f : mio_obj_id → list mio_obj_ext → comp_call) (nr_exts : Z) (ids : list mio_obj_id) (i rc : Z)
    (x : comp_prog) : Z * comp_prog :=
  match ids with
  | [] => (rc, x)
  | id :: ids =>
      let '(rc, _, x) := comp_do (f id (layer_exts i nr_exts)) x in
      if rc <? 0 then (rc, x) else exts_loop f nr_exts ids (i + 1) rc x
  end.

Definition comp_obj_change_extents (f : mio_obj_id → list mio_obj_ext → comp_call) (nr_layers nr_exts : Z)
    (x : comp_prog) : Z * comp_prog :=
  let '(rc, ids, x) := comp_obj_alloc nr_layers x in
  if rc <? 0 then (rc, x) else exts_loop f nr_exts ids 0 0 x.

Definition comp_obj_add_extents := comp_obj_change_extents CompAddExts.
Definition comp_obj_del_extents := comp_obj_change_extents CompDelExts.

(** [comp_obj_list_extents]: an error is passed over, the result is the last one. *)
Fixpoint list_exts_loop (nr_exts : Z) (ids : list mio_obj_id) (i rc : Z) (x : comp_prog) : outcome (Z * comp_prog) :=
  match ids with
  | [] => Done (rc, x)
  | id :: ids =>
      let '(rc, r, x) := comp_do (CompGetExts id 0 nr_exts) x in
      if rc <? 0 then list_exts_loop nr_exts ids (i + 1) rc x else
      if nr_exts <? Z.of_nat (length (cr_exts r)) then Fault OutOfBounds else
      list_exts_loop nr_exts ids (i + 1) rc (cp_print_exts ((λ e, (i, e)) <$> cr_exts r) x)
  end.

Definition comp_obj_list_extents (nr_layers nr_exts : Z) (x : comp_prog) : outcome (Z * comp_prog) :=
  let '(rc, ids, x) := comp_obj_alloc nr_layers x in
  if rc <? 0 then Done (rc, x) else list_exts_loop nr_exts ids 0 0 x.

(** A loop over the objects of the layers that ends with the first error. *)
Fixpoint objs_loop (f : mio_obj_id → cmd_world → outcome (Z * cmd_world)) (ids : list mio_obj_id) (rc : Z)
    (x : comp_prog) : outcome (Z * comp_prog) :=
  match ids with
  | [] => Done (rc, x)
  | id :: ids =>
      '(rc, w) ← f id (cp_w x);
      let x := set_cp_w w x in
      if rc <? 0 then Done (rc, x) else objs_loop f ids rc x
  end.

(** [comp_obj_add_layers]: objects that have been made stay when a later one fails. *)
Definition comp_obj_add_layers (nr_layers : Z) (x : comp_prog) : outcome (Z * comp_prog) :=
  let '(rc, ids, x) := comp_obj_alloc nr_layers x in
  if rc <? 0 then Done (rc, x) else
  '(rc, x) ← objs_loop mio_cmd_obj_touch ids 0 x;
  if rc <? 0 then Done (rc, x) else
  let '(rc, _, x) := comp_do (CompAddLayers (MkLayer 0 <$> ids)) x in
  Done (rc, x).

(** [comp_obj_del_layers]: the result of deleting the layers is overwritten; their
    priorities are not initialised, and not used. *)
Definition comp_obj_del_layers (nr_layers : Z) (x : comp_prog) : outcome (Z * comp_prog) :=
  let '(rc, ids, x) := comp_obj_alloc nr_layers x in
  if rc <? 0 then Done (rc, x) else
  let '(rc, _, x) := comp_do (CompDelLayers (MkLayer 0 <$> ids)) x in
  objs_loop (λ id w, Done (mio_cmd_obj_unlink id w)) ids rc x.

(** [comp_obj_list_layers]. *)
Definition comp_obj_list_layers (x : comp_prog) : Z * comp_prog :=
  let '(rc, r, x) := comp_do CompListLayers x in
  if rc <? 0 then (rc, x) else (0, cp_print_layers (mcol_oid <$> cr_layers r) x).

(** [comp_obj_create]: when making it a composite object fails the object is closed and
    stays. *)
Definition comp_obj_create (oid : mio_obj_id) (x : comp_prog) : outcome (Z * comp_prog) :=
  let '(rc, o, w) := obj_open oid (cp_obj x) (cp_w x) in
  let x := set_cp_obj o (set_cp_w w x) in
  if rc =? 0 then Done (- EEXIST, x) else
  if negb (rc =? - ENOENT) then Done (rc, x) else
  '(rc, o, w) ← obj_do_create None oid o None w;
  let x := set_cp_obj o (set_cp_w w x) in
  if rc <? 0 then Done (rc, x) else
  let '(rc, _, x) := comp_do (CompCreate oid) x in
  if rc <? 0 then w ← cmd_close (cp_obj x) (cp_w x); Done (rc, set_cp_w w x) else Done (rc, x).

(** The steps of main() between mio_init() and mio_fini(), with [nr_layers] for 3 and
    [nr_exts] for 1; the result of the last deletion is not looked at. *)
Definition comp_obj_main (oid : mio_obj_id) (x : comp_prog) : outcome (Z * comp_prog) :=
  '(rc, x) ← comp_obj_create oid x; if rc <? 0 then Done (rc, x) else
  '(rc, x) ← comp_obj_add_layers 3 x; if rc <? 0 then Done (rc, x) else
  let '(rc, x) := comp_obj_list_layers x in if rc <? 0 then Done (rc, x) else
  let '(rc, x) := comp_obj_add_extents 3 1 x in if rc <? 0 then Done (rc, x) else
  '(rc, x) ← comp_obj_list_extents 3 1 x; if rc <? 0 then Done (rc, x) else
  let '(rc, x) := comp_obj_del_extents 1 1 x in if rc <? 0 then Done (rc, x) else
  '(rc, x) ← comp_obj_del_layers 3 x; if rc <? 0 then Done (rc, x) else
  w ← cmd_close (cp_obj x) (cp_w x);
  let '(_, w) := mio_cmd_obj_unlink oid w in
  Done (rc, set_cp_w w x).
End CompProg.

Lemma layers_of_ids (ids : list mio_obj_id) : mcol_oid <$> (MkLayer 0 <$> ids) = ids.
Proof. rewrite <- list_fmap_compose. by apply list_fmap_id. Qed.

(** ** What the steps do *)
Section Steps.
Context {host : HostOrder} {osv : ObjService} {csv : CompService}.
Abbreviation objs w := (sv_objects (cw_sv w)).
Abbreviation lays w := (cs_layers (cw_sv w)).
Abbreviation exs w := (cs_exts (cw_sv w)).

(** Nothing but the objects [T], their layers and their extents has changed. *)
Definition kept (T : list mio_obj_id) (w w' : cmd_world) : Prop :=
  ∀ id, id ∉ T → objs w' id = objs w id ∧ lays w' id = lays w id ∧ exs w' id = exs w id.

Lemma kept_refl T w : kept T w w.
Proof. by intros id _. Qed.
Lemma kept_trans T w1 w2 w3 : kept T w1 w2 → kept T w2 w3 → kept T w1 w3.
Proof.
  intros H1 H2 id Hid. destruct (H1 id Hid) as (E1 & E2 & E3), (H2 id Hid) as (E4 & E5 & E6). split_and!; congruence.
Qed.
Lemma kept_weaken T T' w w' : T ⊆ T' → kept T w w' → kept T' w w'.
Proof. intros HT Hk id Hid. apply Hk. set_solver. Qed.

(** A handle that refers to the same object. *)
Definition handle_kept (o o' : mio_obj) : Prop := mo_id o' = mo_id o ∧ (mo_drv_obj o ≠ None → mo_drv_obj o' ≠ None).

Lemma comp_do_spec c x : ∃ rc r x', comp_do c x = (rc, r, x') ∧ rc <= 0 ∧
  (∀ id, objs (cp_w x') id = objs (cp_w x) id) ∧ handle_kept (cp_obj x) (cp_obj x') ∧
  cp_lost x' = cp_lost x ∧ cp_layers x' = cp_layers x ∧
  comp_spec c (mo_id (cp_obj x)) (lays (cp_w x)) (lays (cp_w x')) (exs (cp_w x)) (exs (cp_w x')) rc r.
Proof.
  unfold comp_do. destruct (cs_call c (cp_obj x) (cw_sv (cp_w x))) as [[[rc r] o] s] eqn:E.
  apply cs_call_ok in E as (Hrc & Hobj & (Hid & _ & Hd) & _ & Hspec). eexists _, _, _. by repeat split.
Qed.

(** Operations on objects: starting and waiting. *)
Lemma cmd_op_kept c o w rc o1 w1 rc2 d o2 w2 :
  cmd_start c o w = (rc, o1, w1) → mio_cmd_wait_on_op c o1 w1 = (rc2, d, o2, w2) →
  (∀ id, id ≠ call_target c o1 → lays w2 id = lays w id) ∧ (∀ id, exs w2 id = exs w id).
Proof.
  unfold cmd_start, mio_cmd_wait_on_op. destruct (sv_start c o (cw_sv w)) as [[r1 p1] s1] eqn:E1. intros [= <- <- <-].
  cbn [cw_sv set_cw_ops set_cw_sv]. destruct (sv_wait c p1 s1) as [[[r2 d2] p2] s2] eqn:E2. intros [= <- <- <- <-].
  cbn [cw_sv set_cw_sv]. apply cs_start_frame in E1 as [H1 H2]. apply cs_wait_frame in E2 as [H3 H4].
  split; intros; by rewrite ?H3, ?H4, ?H1, ?H2.
Qed.

Lemma cmd_start_kept c o w rc o1 w1 :
  cmd_start c o w = (rc, o1, w1) → (∀ id, lays w1 id = lays w id) ∧ (∀ id, exs w1 id = exs w id).
Proof.
  unfold cmd_start. destruct (sv_start c o (cw_sv w)) as [[r1 p1] s1] eqn:E1. intros [= <- <- <-].
  by apply cs_start_frame in E1.
Qed.

Lemma obj_open_kept oid o w rc o' w' : obj_open oid o w = (rc, o', w') →
  (∀ id, id ≠ oid → lays w' id = lays w id) ∧ (∀ id, exs w' id = exs w id).
Proof.
  unfold obj_open. destruct (cmd_start (CallOpen oid) o w) as [[rc1 o1] w1] eqn:E1. destruct (negb _).
  - intros [= <- <- <-]. apply cmd_start_kept in E1 as [H1 H2]. by split.
  - destruct (mio_cmd_wait_on_op (CallOpen oid) o1 w1) as [[[rc2 d] o2] w2] eqn:E2. intros [= <- <- <-].
    exact (cmd_op_kept _ _ _ _ _ _ _ _ _ _ E1 E2).
Qed.

Lemma obj_do_create_kept oid o w rc o' w' : obj_do_create None oid o None w = Done (rc, o', w') →
  (∀ id, id ≠ oid → lays w' id = lays w id) ∧ (∀ id, exs w' id = exs w id).
Proof.
  unfold obj_do_create. cbn [mbind outcome_bind]. change (0 <? 0) with false. cbv iota zeta.
  destruct (cmd_start (CallCreate oid None None) o (set_cw_plan (cw_plan w) w)) as [[rc1 o1] w1] eqn:E1. destruct (negb _).
  - intros [= <- <- <-]. apply cmd_start_kept in E1 as [H1 H2]. by split.
  - destruct (mio_cmd_wait_on_op (CallCreate oid None None) o1 w1) as [[[rc2 d] o2] w2] eqn:E2. intros [= <- <- <-].
    exact (cmd_op_kept _ _ _ _ _ _ _ _ _ _ E1 E2).
Qed.

(** Making an object for a layer. *)
Lemma touch_spec id w : ∃ rc w', mio_cmd_obj_touch id w = Done (rc, w') ∧ rc <= 0 ∧ kept [id] w w' ∧
  (∀ i, exs w' i = exs w i) ∧ (rc = 0 → objs w id = None).
Proof.
  unfold mio_cmd_obj_touch, obj_create. destruct (obj_open id obj_zero w) as [[rc1 o1] w1] eqn:E1.
  pose proof (cmd_open_spec _ _ _ _ _ _ E1) as (Hr1 & Hobj1 & _ & _ & _ & Hn).
  pose proof (obj_open_kept _ _ _ _ _ _ E1) as [Hl1 He1].
  assert (Hk1 : kept [id] w w1) by (intros i Hi; rewrite list_elem_of_singleton in Hi; by rewrite Hobj1, Hl1, He1).
  destruct (Z.eqb_spec rc1 0) as [->|Hne0]; [by eexists _, _|].
  destruct (Z.eqb_spec rc1 (- ENOENT)) as [->|Hne]; [|by eexists _, _].
  destruct (Hn eq_refl) as [Hnone _].
  destruct (obj_do_create_spec None id o1 None w1) as (rc & o' & w' & Hc & Hr & Hfr & _).
  rewrite Hc. pose proof (obj_do_create_kept _ _ _ _ _ _ Hc) as [Hl2 He2]. cbn [mbind outcome_bind].
  eexists _, _. split; [done|]. split; [done|]. split; [|split; [intros i; by rewrite He2, He1|done]].
  apply kept_trans with w1; [done|]. intros i Hi. rewrite list_elem_of_singleton in Hi. by rewrite Hfr, Hl2, He2.
Qed.

Lemma unlink_spec id w : ∃ rc w', mio_cmd_obj_unlink id w = (rc, w') ∧ rc <= 0 ∧ kept [id] w w' ∧
  (∀ i, exs w' i = exs w i) ∧ (rc = 0 → objs w' id = None).
Proof.
  unfold mio_cmd_obj_unlink. destruct (obj_rm id w) as [rc w'] eqn:E. exists rc, w'. split; [done|].
  pose proof (obj_rm_spec _ _ _ _ E) as (Hrc & Hfr & Hok). split; [done|].
  assert ((∀ i, i ≠ id → lays w' i = lays w i) ∧ (∀ i, exs w' i = exs w i)) as [Hl He].
  { unfold obj_rm in E. destruct (cmd_start (CallDelete id) obj_zero w) as [[rc1 o1] w1] eqn:E1. destruct (negb _).
    - injection E as <- <-. apply cmd_start_kept in E1 as [H1 H2]. by split.
    - destruct (mio_cmd_wait_on_op (CallDelete id) obj_zero w1) as [[[rc2 d] o2] w2] eqn:E2. injection E as <- <-.
      unfold cmd_start in E1. destruct (sv_start _ obj_zero (cw_sv w)) as [[r1 p1] s1] eqn:E3. injection E1 as <- <- <-.
      unfold mio_cmd_wait_on_op in E2. cbn [cw_sv set_cw_ops set_cw_sv] in E2.
      destruct (sv_wait _ obj_zero s1) as [[[r2 d2] p2] s2] eqn:E4. injection E2 as <- <- <- <-. cbn [cw_sv set_cw_sv].
      apply cs_start_frame in E3 as [H1 H2]. apply cs_wait_frame in E4 as [H3 H4].
      split; intros; [by rewrite H3, H1|by rewrite H4, H2]. }
  split; [|done]. intros i Hi. rewrite list_elem_of_singleton in Hi. by rewrite Hfr, Hl, He.
Qed.
(** ** The functions of the program *)

(** What a function does in any case: it touches only [T], refers to the same object,
    and returns no positive number. *)
Definition step_ok (T : list mio_obj_id) (rc : Z) (x x' : comp_prog) : Prop :=
  rc <= 0 ∧ kept T (cp_w x) (cp_w x') ∧ handle_kept (cp_obj x) (cp_obj x').

Lemma handle_kept_refl o : handle_kept o o.
Proof. by split. Qed.
Lemma handle_kept_trans o1 o2 o3 : handle_kept o1 o2 → handle_kept o2 o3 → handle_kept o1 o3.
Proof. intros [Ha Hb] [Hc Hd]. split; [congruence|tauto]. Qed.

Lemma step_ok_trans T rc rc' x1 x2 x3 : step_ok T rc x1 x2 → step_ok T rc' x2 x3 → step_ok T rc' x1 x3.
Proof.
  intros (_ & Hk1 & Hh1) (Hrc & Hk2 & Hh2).
  split; [done|]. split; [by eapply kept_trans|by eapply handle_kept_trans].
Qed.
Lemma step_ok_weaken T T' rc x x' : T ⊆ T' → step_ok T rc x x' → step_ok T' rc x x'.
Proof. intros HT (? & ? & ?). split; [done|]. split; [by eapply kept_weaken|done]. Qed.
Lemma step_ok_rc T rc rc' x x' : rc' <= 0 → step_ok T rc x x' → step_ok T rc' x x'.
Proof. by intros ? (_ & ? & ?). Qed.

Lemma comp_obj_alloc_spec n x : ∃ rc ids x', comp_obj_alloc n x = (rc, ids, x') ∧ step_ok [] rc x x' ∧
  (∀ i, exs (cp_w x') i = exs (cp_w x) i) ∧ (∀ i, objs (cp_w x') i = objs (cp_w x) i) ∧
  (∀ i, lays (cp_w x') i = lays (cp_w x) i) ∧ cp_obj x' = cp_obj x ∧ cp_layers x' = cp_layers x ∧
  (rc = 0 → ids = layer_ids_get (mo_id (cp_obj x)) n ∧ cp_lost x' = cp_lost x).
Proof.
  unfold comp_obj_alloc. destruct (plan_next _) as [ok1 p1], (plan_next p1) as [ok2 p2].
  destruct (ok1 && ok2) eqn:E; cbn [negb]; eexists _, _, _; (split; [done|]).
  - split; [split; [done|split; [by intros id _|done]]|]. by repeat split.
  - split; [split; [unfold ENOMEM; lia|split; [by intros id _|done]]|]. repeat split; done.
Qed.

(** Changing the extents of layers. *)
Section Extents.
Context (f : mio_obj_id → list mio_obj_ext → comp_call) (F : gmap Z Z → list mio_obj_ext → gmap Z Z).
Context (Hf : ∀ id exts o l l' e e' rc r, comp_spec (f id exts) o l l' e e' rc r →
  (∀ i, l' i = l i) ∧ (∀ i, i ≠ id → e' i = e i) ∧ (rc = 0 → e' id = F (e id) exts)).

Lemma exts_loop_spec n ids i x : NoDup ids → ∃ rc x', exts_loop f n ids i 0 x = (rc, x') ∧ step_ok ids rc x x' ∧
  (∀ id, objs (cp_w x') id = objs (cp_w x) id) ∧ cp_lost x' = cp_lost x ∧ cp_layers x' = cp_layers x ∧
  (∀ id, lays (cp_w x') id = lays (cp_w x) id) ∧
  (rc = 0 → ∀ k id, ids !! k = Some id → exs (cp_w x') id = F (exs (cp_w x) id) (layer_exts (i + Z.of_nat k) n)).
Proof.
  intros Hnd. revert i x. induction Hnd as [|id ids Hid Hnd IH]; intros i x; cbn [exts_loop].
  { eexists _, _. split; [done|]. split; [split; [done|split; [apply kept_refl|apply handle_kept_refl]]|]. by repeat split. }
  destruct (comp_do_spec (f id (layer_exts i n)) x) as (rc & r & x1 & -> & Hrc & Hobj & Hh & Hlost & Hpr & Hspec).
  apply Hf in Hspec as (Hl & He & Hok).
  assert (Hs1 : step_ok (id :: ids) rc x x1).
  { split; [done|]. split; [|done]. intros j Hj. apply not_elem_of_cons in Hj as [Hj _]. by rewrite Hobj, Hl, He. }
  destruct (Z.ltb_spec rc 0) as [Hneg|Hge]; [eexists _, _; split; [done|]; split_and!; try done; lia|].
  assert (rc = 0) as -> by lia. destruct (IH (i + 1) x1) as (rc & x2 & -> & Hs2 & Hobj2 & Hlost2 & Hpr2 & Hl2 & Hok2).
  eexists _, _. split; [done|]. split_and!.
  - eapply step_ok_trans; [exact Hs1|]. eapply step_ok_weaken; [|exact Hs2]. set_solver.
  - intros j. by rewrite Hobj2, Hobj.
  - congruence.
  - congruence.
  - intros j. by rewrite Hl2, Hl.
  - intros Hrc0 [|k] j Hj; cbn [lookup list_lookup] in Hj.
    + injection Hj as <-. destruct Hs2 as (_ & Hk2 & _). destruct (Hk2 id Hid) as (_ & _ & ->). rewrite Hok by done.
      by rewrite Z.add_0_r.
    + rewrite (Hok2 Hrc0 k j Hj). rewrite He.
      * f_equal. f_equal. lia.
      * intros ->. apply Hid. by eapply list_elem_of_lookup_2.
Qed.

Lemma change_extents_spec m n x : NoDup (layer_ids_get (mo_id (cp_obj x)) m) →
  let ids := layer_ids_get (mo_id (cp_obj x)) m in
  ∃ rc x', comp_obj_change_extents f m n x = (rc, x') ∧ step_ok ids rc x x' ∧
  (∀ id, objs (cp_w x') id = objs (cp_w x) id) ∧ (∀ id, lays (cp_w x') id = lays (cp_w x) id) ∧
  (rc = 0 → cp_lost x' = cp_lost x ∧ cp_layers x' = cp_layers x ∧
   ∀ k id, ids !! k = Some id → exs (cp_w x') id = F (exs (cp_w x) id) (layer_exts (Z.of_nat k) n)).
Proof.
  intros Hnd ids. unfold comp_obj_change_extents.
  destruct (comp_obj_alloc_spec m x) as (rc & l & x1 & -> & Hs1 & He & Hob & Hla & Ho & Hpr & Hok).
  destruct (Z.ltb_spec rc 0) as [Hneg|Hge].
  { eexists _, _. split; [done|]. split; [by eapply step_ok_weaken; [|exact Hs1]; set_solver|]. by split_and!; [..|lia]. }
  assert (rc = 0) as -> by (destruct Hs1; lia). destruct (Hok eq_refl) as [-> Hlost]. fold ids.
  destruct (exts_loop_spec n ids 0 x1 Hnd) as (rc & x2 & -> & Hs2 & Hobj2 & Hlost2 & Hpr2 & Hl2 & Hok2).
  eexists _, _. split; [done|]. split_and!.
  - eapply step_ok_trans; [|exact Hs2]. eapply step_ok_weaken; [|exact Hs1]. set_solver.
  - intros j. by rewrite Hobj2, Hob.
  - intros j. by rewrite Hl2, Hla.
  - intros Hrc. split; [congruence|]. split; [congruence|]. intros k id Hk. rewrite (Hok2 Hrc k id Hk), He. done.
Qed.
End Extents.

(** Listing extents changes nothing. *)
Lemma list_exts_loop_spec n ids i rc0 x : rc0 <= 0 → 0 <= n →
  ∃ rc x', list_exts_loop n ids i rc0 x = Done (rc, x') ∧ step_ok [] rc x x' ∧ cp_lost x' = cp_lost x ∧
    cp_layers x' = cp_layers x.
Proof.
  intros Hrc0 Hn. revert i rc0 x Hrc0. induction ids as [|id ids IH]; intros i rc0 x Hrc0; cbn [list_exts_loop].
  { eexists _, _. split; [done|]. split; [split; [done|split; [apply kept_refl|apply handle_kept_refl]]|done]. }
  destruct (comp_do_spec (CompGetExts id 0 n) x) as (rc & r & x1 & -> & Hrc & Hobj & Hh & Hlost & Hpr & Hl & He & Hok).
  assert (Hs1 : step_ok [] rc x x1) by (split; [done|]; split; [|done]; intros j _; by rewrite Hobj, Hl, He).
  destruct (Z.ltb_spec rc 0) as [Hneg|Hge].
  - destruct (IH (i + 1) rc x1 Hrc) as (rc2 & x2 & -> & Hs2 & Hlost2 & Hpr2). eexists _, _. split; [done|].
    split; [by eapply step_ok_trans|]. by rewrite Hlost2, Hpr2.
  - rewrite Hok by lia. rewrite (proj2 (Z.ltb_ge _ _)) by lia.
    destruct (IH (i + 1) rc (cp_print_exts ((λ e, (i, e)) <$> cr_exts r) x1) Hrc) as (rc2 & x2 & -> & Hs2 & Hlost2 & Hpr2).
    eexists _, _. split; [done|]. split; [by eapply step_ok_trans|]. by rewrite Hlost2, Hpr2.
Qed.
(** ** The ids of the layers *)

Lemma layer_ids_clone oid n : obj_id_ok oid → layer_ids_get oid n = (λ i, mio_cmd_obj_id_clone oid (i + 1) 0) <$> seqZ 0 n.
Proof.
  intros [_ Hlo]%obj_id_to_uint128_ok. unfold mio__obj_id_to_uint128 in Hlo. cbn [u_lo] in Hlo.
  unfold layer_ids_get, mio_cmd_obj_id_clone. apply list_fmap_ext. intros _ i _. rewrite Z.add_0_r, (u64_small _ Hlo).
  unfold u64 at 1. unfold u64 at 1. rewrite Zplus_mod_idemp_l, <- Z.add_assoc. done.
Qed.

Lemma layer_ids_distinct oid n : obj_id_ok oid → n < 2 ^ 31 → NoDup (layer_ids_get oid n) ∧ oid ∉ layer_ids_get oid n.
Proof.
  intros Hoid Hn. rewrite layer_ids_clone by done. split.
  - apply NoDup_fmap_2_strong; [|apply NoDup_seqZ]. intros i j Hi Hj Heq. apply elem_of_seqZ in Hi, Hj.
    apply clone_inj in Heq; lia.
  - rewrite list_elem_of_fmap. intros (i & Heq & Hi). apply elem_of_seqZ in Hi.
    rewrite <- (clone_self oid) in Heq at 1 by done. apply clone_inj in Heq; lia.
Qed.

(** ** Objects of layers *)

Lemma touch_loop_spec ids x rc0 : NoDup ids → rc0 <= 0 →
  ∃ rc x', objs_loop mio_cmd_obj_touch ids rc0 x = Done (rc, x') ∧ step_ok ids rc x x' ∧
    (∀ i, exs (cp_w x') i = exs (cp_w x) i) ∧ cp_obj x' = cp_obj x ∧ cp_lost x' = cp_lost x ∧ cp_layers x' = cp_layers x ∧
    (rc = 0 → ∀ id, id ∈ ids → objs (cp_w x) id = None).
Proof.
  intros Hnd. revert x rc0. induction Hnd as [|id ids Hid Hnd IH]; intros x rc0 Hrc0; cbn [objs_loop].
  { eexists _, _. split; [done|]. split; [split; [done|split; [apply kept_refl|apply handle_kept_refl]]|].
    split_and!; try done. intros _ j Hj. by apply not_elem_of_nil in Hj. }
  destruct (touch_spec id (cp_w x)) as (rc & w & -> & Hrc & Hk & He & Hnone). cbn [mbind outcome_bind].
  assert (Hs1 : step_ok (id :: ids) rc x (set_cp_w w x)).
  { split; [done|]. split; [|apply handle_kept_refl]. eapply kept_weaken; [|exact Hk]. set_solver. }
  destruct (Z.ltb_spec rc 0) as [Hneg|Hge].
  { eexists _, _. split; [done|]. split_and!; try done. lia. }
  destruct (IH (set_cp_w w x) rc Hrc) as (rc2 & x2 & -> & Hs2 & He2 & Ho2 & Hlost2 & Hpr2 & Hok2).
  eexists _, _. split; [done|]. split_and!; try done.
  - eapply step_ok_trans; [exact Hs1|]. eapply step_ok_weaken; [|exact Hs2]. set_solver.
  - intros i. by rewrite He2, He.
  - intros Hz j Hj. apply elem_of_cons in Hj as [->|Hj]; [apply Hnone; lia|].
    specialize (Hok2 Hz j Hj). cbn [cp_w set_cp_w] in Hok2. destruct (Hk j) as (<- & _); [|done].
    rewrite list_elem_of_singleton. by intros ->.
Qed.

Lemma unlink_loop_spec ids x rc0 : NoDup ids → rc0 <= 0 → ids ≠ [] →
  ∃ rc x', objs_loop (λ id w, Done (mio_cmd_obj_unlink id w)) ids rc0 x = Done (rc, x') ∧ step_ok ids rc x x' ∧
    (∀ i, exs (cp_w x') i = exs (cp_w x) i) ∧ cp_obj x' = cp_obj x ∧ cp_lost x' = cp_lost x ∧ cp_layers x' = cp_layers x ∧
    (rc = 0 → ∀ id, id ∈ ids → objs (cp_w x') id = None).
Proof.
  intros Hnd. revert x rc0. induction Hnd as [|id ids Hid Hnd IH]; intros x rc0 Hrc0 Hne; [done|]. cbn [objs_loop].
  destruct (unlink_spec id (cp_w x)) as (rc & w & -> & Hrc & Hk & He & Hnone). cbn [mbind outcome_bind].
  assert (Hs1 : step_ok (id :: ids) rc x (set_cp_w w x)).
  { split; [done|]. split; [|apply handle_kept_refl]. eapply kept_weaken; [|exact Hk]. set_solver. }
  destruct (Z.ltb_spec rc 0) as [Hneg|Hge].
  { eexists _, _. split; [done|]. split_and!; try done. lia. }
  destruct ids as [|id2 ids].
  { cbn [objs_loop]. eexists _, _. split; [done|]. split_and!; try done.
    intros _ j Hj. apply list_elem_of_singleton in Hj as ->. apply Hnone. lia. }
  destruct (IH (set_cp_w w x) rc Hrc ltac:(done)) as (rc2 & x2 & -> & Hs2 & He2 & Ho2 & Hlost2 & Hpr2 & Hok2).
  eexists _, _. split; [done|]. split_and!; try done.
  - eapply step_ok_trans; [exact Hs1|]. eapply step_ok_weaken; [|exact Hs2]. set_solver.
  - intros i. by rewrite He2, He.
  - intros Hz j Hj. apply elem_of_cons in Hj as [->|Hj]; [|by apply Hok2].
    destruct Hs2 as (_ & Hk2 & _). destruct (Hk2 id Hid) as (-> & _). apply Hnone. lia.
Qed.
(** ** Layers *)

(** What adding, deleting and listing layers do to the handle's object. *)
Section Layers.
Context (oid : mio_obj_id) (n : Z) (Hn : 0 < n < 2 ^ 31) (Hoid : obj_id_ok oid).
Abbreviation ids := (layer_ids_get oid n).

Lemma layer_ids_not_nil : ids ≠ [].
Proof. unfold layer_ids_get. rewrite seqZ_cons by lia. done. Qed.


Lemma comp_obj_add_layers_spec x : mo_id (cp_obj x) = oid →
  ∃ rc x', comp_obj_add_layers n x = Done (rc, x') ∧ step_ok (oid :: ids) rc x x' ∧
    (rc = 0 → (∀ id, id ∈ ids → objs (cp_w x) id = None) ∧ (∀ i, exs (cp_w x') i = exs (cp_w x) i) ∧
       cp_lost x' = cp_lost x ∧ cp_layers x' = cp_layers x ∧ ∃ l, lays (cp_w x') oid = Some l ∧ l ≡ₚ ids).
Proof.
  intros Hid. unfold comp_obj_add_layers. destruct (layer_ids_distinct oid n Hoid ltac:(lia)) as [Hnd Hnot].
  destruct (comp_obj_alloc_spec n x) as (rc & l & x1 & -> & Hs1 & He1 & Hob1 & Hla1 & Ho1 & Hpr1 & Hok1).
  assert (Hs1' : step_ok (oid :: ids) rc x x1) by (eapply step_ok_weaken; [|exact Hs1]; set_solver).
  destruct (Z.ltb_spec rc 0) as [Hneg|Hge]; [eexists _, _; split; [done|]; split; [done|lia]|].
  assert (rc = 0) as -> by (destruct Hs1; lia). destruct (Hok1 eq_refl) as [-> Hlost1]. rewrite Hid.
  destruct (touch_loop_spec ids x1 0 Hnd ltac:(lia)) as (rc & x2 & -> & Hs2 & He2 & Ho2 & Hlost2 & Hpr2 & Hok2).
  cbn [mbind outcome_bind].
  assert (Hs2' : step_ok (oid :: ids) rc x x2).
  { eapply step_ok_trans; [exact Hs1'|]. eapply step_ok_weaken; [|exact Hs2]. set_solver. }
  destruct (Z.ltb_spec rc 0) as [Hneg|Hge2]; [eexists _, _; split; [done|]; split; [done|lia]|].
  assert (rc = 0) as -> by (destruct Hs2; lia).
  destruct (comp_do_spec (CompAddLayers (MkLayer 0 <$> ids)) x2) as (rc & r & x3 & -> & Hrc & Hob3 & Hh3 & Hlost3 & Hpr3 & Hl3 & He3 & Hok3).
  rewrite Ho2, Ho1, Hid in *. eexists _, _. split; [done|]. split.
  - eapply step_ok_trans; [exact Hs2'|]. split; [done|]. split; [|by rewrite Ho2].
    intros j Hj. apply not_elem_of_cons in Hj as [Hj _]. by rewrite Hob3, Hl3, He3.
  - intros Hz. split; [|split; [|split_and!; [congruence..|]]].
    + intros j Hj. rewrite <- Hob1. by apply Hok2.
    + intros j. by rewrite He3, He2, He1.
    + destruct (Hok3 Hz) as (l & Hl & Hp). exists l. split; [done|]. by rewrite layers_of_ids in Hp.
Qed.

Lemma comp_obj_list_layers_spec x : mo_id (cp_obj x) = oid →
  ∃ rc x', comp_obj_list_layers x = (rc, x') ∧ step_ok [] rc x x' ∧
    (rc = 0 → cp_lost x' = cp_lost x ∧ ∃ l, lays (cp_w x) oid = Some l ∧ cp_layers x' = cp_layers x ++ l).
Proof.
  intros Hid. unfold comp_obj_list_layers.
  destruct (comp_do_spec CompListLayers x) as (rc & r & x1 & -> & Hrc & Hob & Hh & Hlost & Hpr & Hl & He & Hok).
  assert (Hs : ∀ rc', rc' <= 0 → step_ok [] rc' x x1) by (intros; split; [done|]; split; [intros j _; by rewrite Hob, Hl, He|done]).
  destruct (Z.ltb_spec rc 0); (eexists _, _; split; [done|]); [split; [by apply Hs|lia]|].
  split; [by apply (Hs 0)|]. intros _. split; [done|]. rewrite Hid in Hok. eexists. split; [apply Hok; lia|]. unfold cp_print_layers. cbn [cp_layers].
  by rewrite Hpr.
Qed.

Lemma comp_obj_del_layers_spec x : mo_id (cp_obj x) = oid →
  ∃ rc x', comp_obj_del_layers n x = Done (rc, x') ∧ step_ok (oid :: ids) rc x x' ∧
    (rc = 0 → (∀ id, id ∈ ids → objs (cp_w x') id = None) ∧ (∀ i, exs (cp_w x') i = exs (cp_w x) i) ∧
       cp_lost x' = cp_lost x ∧ cp_layers x' = cp_layers x).
Proof.
  intros Hid. unfold comp_obj_del_layers. destruct (layer_ids_distinct oid n Hoid ltac:(lia)) as [Hnd Hnot].
  destruct (comp_obj_alloc_spec n x) as (rc & l & x1 & -> & Hs1 & He1 & Hob1 & Hla1 & Ho1 & Hpr1 & Hok1).
  assert (Hs1' : step_ok (oid :: ids) rc x x1) by (eapply step_ok_weaken; [|exact Hs1]; set_solver).
  destruct (Z.ltb_spec rc 0) as [Hneg|Hge]; [eexists _, _; split; [done|]; split; [done|lia]|].
  assert (rc = 0) as -> by (destruct Hs1; lia). destruct (Hok1 eq_refl) as [-> Hlost1]. rewrite Hid.
  destruct (comp_do_spec (CompDelLayers (MkLayer 0 <$> ids)) x1) as (rc & r & x2 & -> & Hrc & Hob2 & Hh2 & Hlost2 & Hpr2 & Hl2 & He2 & _).
  rewrite Ho1, Hid in *.
  destruct (unlink_loop_spec ids x2 rc Hnd Hrc layer_ids_not_nil) as (rc3 & x3 & -> & Hs3 & He3 & Ho3 & Hlost3 & Hpr3 & Hok3).
  eexists _, _. split; [done|]. split.
  - eapply step_ok_trans; [exact Hs1'|]. apply (step_ok_trans _ rc _ _ x2).
    + split; [done|]. split; [|by rewrite Ho1]. intros j Hj. apply not_elem_of_cons in Hj as [Hj _]. by rewrite Hob2, Hl2, He2.
    + eapply step_ok_weaken; [|exact Hs3]. set_solver.
  - intros Hz. split; [by apply Hok3|]. split; [intros j; by rewrite He3, He2, He1|]. split; congruence.
Qed.
End Layers.

(** Creating the composite object. *)
Lemma comp_obj_create_spec oid x : cp_obj x = obj_zero →
  ∃ rc x', comp_obj_create oid x = Done (rc, x') ∧ rc <= 0 ∧ kept [oid] (cp_w x) (cp_w x') ∧
    (rc = 0 → objs (cp_w x) oid = None ∧ (∀ i, exs (cp_w x') i = exs (cp_w x) i) ∧ mo_id (cp_obj x') = oid ∧
       mo_drv_obj (cp_obj x') ≠ None ∧ cp_lost x' = cp_lost x ∧ cp_layers x' = cp_layers x).
Proof.
  intros Hz. unfold comp_obj_create. rewrite Hz. destruct (obj_open oid obj_zero (cp_w x)) as [[rc1 o1] w1] eqn:E1.
  pose proof (cmd_open_spec _ _ _ _ _ _ E1) as (Hr1 & Hob1 & _ & _ & _ & Hn).
  pose proof (obj_open_kept _ _ _ _ _ _ E1) as [Hl1 He1].
  assert (Hk1 : kept [oid] (cp_w x) w1) by (intros j Hj; rewrite list_elem_of_singleton in Hj; by rewrite Hob1, Hl1, He1).
  destruct (Z.eqb_spec rc1 0) as [->|Hne0]; [eexists _, _; split; [done|]; split_and!; [unfold EEXIST; lia|done|unfold EEXIST; lia]|].
  destruct (Z.eqb_spec rc1 (- ENOENT)) as [->|Hne]; cbn [negb]; [|eexists _, _; split; [done|]; by split_and!].
  destruct (Hn eq_refl) as [Hnone _].
  destruct (obj_do_create_spec None oid o1 None w1) as (rc & o2 & w2 & Hc & Hr & Hfr & _ & Hok2).
  rewrite Hc. pose proof (obj_do_create_kept _ _ _ _ _ _ Hc) as [Hl2 He2]. cbn [mbind outcome_bind].
  assert (Hk2 : kept [oid] (cp_w x) w2).
  { apply kept_trans with w1; [done|]. intros j Hj. rewrite list_elem_of_singleton in Hj. by rewrite Hfr, Hl2, He2. }
  destruct (Z.ltb_spec rc 0) as [Hneg|Hge]; [eexists _, _; split; [done|]; split_and!; [done|done|lia]|].
  destruct (Hok2 ltac:(lia)) as (v & _ & _ & _ & Hid2 & Hd2 & _).
  set (x2 := set_cp_obj o2 _).
  destruct (comp_do_spec (CompCreate oid) x2) as (rc3 & r & x3 & -> & Hrc3 & Hob3 & [Hid3 Hd3] & Hlost3 & Hpr3 & Hl3 & He3 & _).
  assert (Hk3 : kept [oid] (cp_w x) (cp_w x3)).
  { apply kept_trans with w2; [done|]. intros j Hj. rewrite list_elem_of_singleton in Hj. by rewrite Hob3, Hl3, He3. }
  destruct (Z.ltb_spec rc3 0) as [Hneg|Hge3].
  - destruct (cmd_close_spec (cp_obj x3) (cp_w x3)) as (w4 & Hcl & Hsv & Hfr4 & _); [by apply Hd3|].
    rewrite Hcl. cbn [mbind outcome_bind]. eexists _, _. split; [done|]. split; [done|]. split; [|lia].
    apply cs_close_frame in Hsv as [Hl4 He4]. apply kept_trans with (cp_w x3); [done|].
    intros j Hj. rewrite list_elem_of_singleton in Hj. rewrite Hl4, He4, Hfr4; [done|]. by rewrite Hid3, <- Hid2 in *.
  - eexists _, _. split; [done|]. split; [done|]. split; [done|]. intros _. split; [done|].
    split; [intros j; by rewrite He3, He2, He1|]. split_and!; try done; [by rewrite Hid3|by apply Hd3].
Qed.
(** ** The program *)

Definition EXT_SIZE : Z := 4096 * 4096.

Lemma one_ext k : (k < 3)%nat → layer_exts (Z.of_nat k) 1 = [MkExt (Z.of_nat k * EXT_SIZE) EXT_SIZE].
Proof. intros Hk. do 3 (destruct k as [|k]; [vm_compute; reflexivity|]). lia. Qed.

Lemma change_add id exts o l l' e e' rc r : comp_spec (CompAddExts id exts) o l l' e e' rc r →
  (∀ i, l' i = l i) ∧ (∀ i, i ≠ id → e' i = e i) ∧ (rc = 0 → e' id = e id ∪ ext_map exts).
Proof. done. Qed.
Lemma change_del id exts o l l' e e' rc r : comp_spec (CompDelExts id exts) o l l' e e' rc r →
  (∀ i, l' i = l i) ∧ (∀ i, i ≠ id → e' i = e i) ∧ (rc = 0 → e' id = foldr delete (e id) (moe_off <$> exts)).
Proof. done. Qed.

(** What the whole program leaves. *)
Definition comp_finished (oid : mio_obj_id) (x x' : comp_prog) : Prop :=
  let ids := layer_ids_get oid 3 in
  objs (cp_w x) oid = None ∧ (∀ id, id ∈ ids → objs (cp_w x) id = None ∧ objs (cp_w x') id = None) ∧
  cp_lost x' = cp_lost x ∧ (∃ l, l ≡ₚ ids ∧ cp_layers x' = cp_layers x ++ l) ∧
  ∀ k id, ids !! k = Some id →
    exs (cp_w x') id = if (k =? 0)%nat then delete 0 (exs (cp_w x) id)
                       else exs (cp_w x) id ∪ {[Z.of_nat k * EXT_SIZE := EXT_SIZE]}.

(** The steps after the layers have been added. *)
Definition comp_obj_rest (oid : mio_obj_id) (x : comp_prog) : outcome (Z * comp_prog) :=
  let '(rc, x) := comp_obj_add_extents 3 1 x in if rc <? 0 then Done (rc, x) else
  '(rc, x) ← comp_obj_list_extents 3 1 x; if rc <? 0 then Done (rc, x) else
  let '(rc, x) := comp_obj_del_extents 1 1 x in if rc <? 0 then Done (rc, x) else
  '(rc, x) ← comp_obj_del_layers 3 x; if rc <? 0 then Done (rc, x) else
  w ← cmd_close (cp_obj x) (cp_w x);
  let '(_, w) := mio_cmd_obj_unlink oid w in
  Done (rc, set_cp_w w x).

Lemma comp_obj_list_extents_spec n m x : 0 <= m →
  ∃ rc x', comp_obj_list_extents n m x = Done (rc, x') ∧ step_ok [] rc x x' ∧
    (rc = 0 → cp_lost x' = cp_lost x ∧ cp_layers x' = cp_layers x).
Proof.
  intros Hm. unfold comp_obj_list_extents.
  destruct (comp_obj_alloc_spec n x) as (rc & l & x1 & -> & Hs1 & _ & _ & _ & _ & Hpr1 & Hok1).
  destruct (Z.ltb_spec rc 0) as [Hneg|Hge]; [eexists _, _; split; [done|]; split; [done|lia]|].
  assert (rc = 0) as -> by (destruct Hs1; lia). destruct (Hok1 eq_refl) as [_ Hlost1].
  destruct (list_exts_loop_spec m l 0 0 x1 ltac:(lia) Hm) as (rc & x2 & -> & Hs2 & Hlost2 & Hpr2).
  eexists _, _. split; [done|]. split; [by eapply step_ok_trans|]. intros _. split; congruence.
Qed.

(** Deleting layers, closing and deleting the object. *)
Lemma comp_obj_end_spec oid x : obj_id_ok oid → mo_id (cp_obj x) = oid → mo_drv_obj (cp_obj x) ≠ None →
  ∃ rc x', ('(rc, x) ← comp_obj_del_layers 3 x; if rc <? 0 then Done (rc, x) else
            w ← cmd_close (cp_obj x) (cp_w x);
            let '(_, w) := mio_cmd_obj_unlink oid w in Done (rc, set_cp_w w x)) = Done (rc, x') ∧ rc <= 0 ∧
    kept (oid :: layer_ids_get oid 3) (cp_w x) (cp_w x') ∧
    (rc = 0 → (∀ id, id ∈ layer_ids_get oid 3 → objs (cp_w x') id = None) ∧ (∀ i, exs (cp_w x') i = exs (cp_w x) i) ∧
       cp_lost x' = cp_lost x ∧ cp_layers x' = cp_layers x).
Proof.
  intros Hoid Hid Hd. destruct (layer_ids_distinct oid 3 Hoid ltac:(lia)) as [Hnd Hnot].
  destruct (comp_obj_del_layers_spec oid 3 ltac:(lia) Hoid x Hid) as (rc & x1 & -> & (Hrc & Hk1 & Hid1 & Hd1) & Hok1).
  cbn [mbind outcome_bind].
  destruct (Z.ltb_spec rc 0) as [Hneg|Hge]; [eexists _, _; split; [done|]; split_and!; [done|done|lia]|].
  destruct Hok1 as (Hgone & He1 & Hlost1 & Hpr1); [lia|].
  destruct (cmd_close_spec (cp_obj x1) (cp_w x1)) as (w2 & -> & Hsv & Hfr2 & _); [by apply Hd1|]. cbn [mbind outcome_bind].
  pose proof (cs_close_frame _ _ _ Hsv) as [Hl2 He2].
  destruct (unlink_spec oid w2) as (rc3 & w3 & -> & _ & Hk3 & He3 & _).
  assert (Hk2 : kept [oid] (cp_w x1) w2).
  { intros j Hj. rewrite list_elem_of_singleton in Hj. rewrite Hl2, He2, Hfr2; [done|]. congruence. }
  eexists _, _. split; [done|]. split; [done|]. cbn [cp_w set_cp_w]. split.
  - apply kept_trans with (cp_w x1); [done|]. apply (kept_weaken [oid]); [set_solver|]. by apply kept_trans with w2.
  - intros _. split_and!; [|intros j; by rewrite He3, He2, He1|done|done]. intros id Hin.
    assert (id ∉ [oid]) as Hni by (rewrite list_elem_of_singleton; intros ->; done).
    destruct (Hk3 id Hni) as (-> & _), (Hk2 id Hni) as (-> & _). by apply Hgone.
Qed.

Lemma layer_ids_three oid : ∃ l0 l1 l2, layer_ids_get oid 3 = [l0; l1; l2] ∧ layer_ids_get oid 1 = [l0].
Proof. by eexists _, _, _. Qed.

Lemma comp_obj_rest_spec oid x : obj_id_ok oid → mo_id (cp_obj x) = oid → mo_drv_obj (cp_obj x) ≠ None →
  ∃ rc x', comp_obj_rest oid x = Done (rc, x') ∧ rc <= 0 ∧ kept (oid :: layer_ids_get oid 3) (cp_w x) (cp_w x') ∧
    (rc = 0 → (∀ id, id ∈ layer_ids_get oid 3 → objs (cp_w x') id = None) ∧
       cp_lost x' = cp_lost x ∧ cp_layers x' = cp_layers x ∧
       ∀ k id, layer_ids_get oid 3 !! k = Some id →
         exs (cp_w x') id = if (k =? 0)%nat then delete 0 (exs (cp_w x) id)
                            else exs (cp_w x) id ∪ {[Z.of_nat k * EXT_SIZE := EXT_SIZE]}).
Proof.
  intros Hoid Hid Hd. destruct (layer_ids_distinct oid 3 Hoid ltac:(lia)) as [Hnd Hnot].
  destruct (layer_ids_three oid) as (l0 & l1 & l2 & E3 & E1).
  unfold comp_obj_rest, comp_obj_add_extents, comp_obj_del_extents.
  destruct (change_extents_spec CompAddExts (λ e exts, e ∪ ext_map exts) change_add 3 1 x ltac:(by rewrite Hid)) as (rc & x1 & -> & Hs1 & Hob1 & Hl1 & Hok1).
  rewrite Hid in *. assert (Hw1 : step_ok (oid :: layer_ids_get oid 3) rc x x1) by (eapply step_ok_weaken; [|exact Hs1]; set_solver).
  destruct (Z.ltb_spec rc 0) as [Hneg|Hge1]; [destruct Hw1 as (? & ? & ?); eexists _, _; split; [done|]; split_and!; [done|done|lia]|].
  destruct Hok1 as (Hlost1 & Hpr1 & He1); [destruct Hs1; lia|].
  destruct (comp_obj_list_extents_spec 3 1 x1 ltac:(lia)) as (rc2 & x2 & -> & Hs2 & Hok2). cbn [mbind outcome_bind].
  assert (Hw2 : step_ok (oid :: layer_ids_get oid 3) rc2 x x2).
  { eapply step_ok_trans; [exact Hw1|]. eapply step_ok_weaken; [|exact Hs2]. set_solver. }
  destruct (Z.ltb_spec rc2 0) as [Hneg|Hge2]; [destruct Hw2 as (? & ? & ?); eexists _, _; split; [done|]; split_and!; [done|done|lia]|].
  destruct Hok2 as (Hlost2 & Hpr2); [destruct Hs2; lia|].
  assert (Hid2 : mo_id (cp_obj x2) = oid) by (destruct Hw2 as (_ & _ & -> & _); done).
  destruct (change_extents_spec CompDelExts (λ e exts, foldr delete e (moe_off <$> exts)) change_del 1 1 x2) as (rc3 & x3 & -> & Hs3 & Hob3 & Hl3 & Hok3).
  { rewrite Hid2, E1. apply NoDup_singleton. }
  rewrite Hid2 in *. assert (Hw3 : step_ok (oid :: layer_ids_get oid 3) rc3 x x3).
  { eapply step_ok_trans; [exact Hw2|]. eapply step_ok_weaken; [|exact Hs3]. rewrite E1, E3. set_solver. }
  destruct (Z.ltb_spec rc3 0) as [Hneg|Hge3]; [destruct Hw3 as (? & ? & ?); eexists _, _; split; [done|]; split_and!; [done|done|lia]|].
  destruct Hok3 as (Hlost3 & Hpr3 & He3); [destruct Hs3; lia|].
  assert (mo_id (cp_obj x3) = oid ∧ mo_drv_obj (cp_obj x3) ≠ None) as [Hid3 Hd3].
  { destruct Hw3 as (_ & _ & -> & Hd'). split; [done|by apply Hd']. }
  destruct (comp_obj_end_spec oid x3 Hoid Hid3 Hd3) as (rc4 & x4 & -> & Hrc4 & Hk4 & Hok4).
  eexists _, _. split; [done|]. split; [done|]. split; [eapply kept_trans; [apply Hw3|done]|]. intros Hz.
  destruct (Hok4 Hz) as (Hgone & He4 & Hlost4 & Hpr4). split; [done|]. split; [congruence|]. split; [congruence|].
  intros k id Hk. rewrite He4. pose proof (lookup_lt_Some _ _ _ Hk) as Hlen. rewrite E3 in Hlen. simpl in Hlen.
  assert (Hadd : exs (cp_w x2) id = exs (cp_w x) id ∪ {[Z.of_nat k * EXT_SIZE := EXT_SIZE]}).
  { destruct Hs2 as (_ & Hk2 & _). destruct (Hk2 id) as (_ & _ & ->); [set_solver|]. rewrite (He1 k id Hk), one_ext by lia. done. }
  destruct (Nat.eqb_spec k 0) as [->|Hk0].
  - rewrite (He3 0%nat id) by (rewrite E3 in Hk; rewrite E1; exact Hk). rewrite Hadd, one_ext by lia. cbn [fmap list_fmap foldr moe_off].
    change (Z.of_nat 0 * EXT_SIZE) with 0. rewrite delete_union, delete_singleton_eq. by rewrite (right_id ∅ (∪)).
  - destruct Hs3 as (_ & Hk3 & _). destruct (Hk3 id) as (_ & _ & ->); [|done]. rewrite E1, list_elem_of_singleton.
    intros ->. rewrite E3 in Hk. apply Hk0. eapply NoDup_lookup; [exact Hnd|rewrite E3; exact Hk|by rewrite E3].
Qed.

End Steps.

(** ** An instance in memory, witness and boundary cases *)
Section Witnesses.
#[local] Instance ex_host_comp : HostOrder := false.

Record comp_store := MkCompStore { st_layers : mio_obj_id → option (list mio_obj_id); st_exts : mio_obj_id → gmap Z Z }.

Definition fun_upd {A} (id : mio_obj_id) (v : A) (f : mio_obj_id → A) : mio_obj_id → A :=
  λ i, if decide (i = id) then v else f i.

Lemma fun_upd_eq {A} id (v : A) f : fun_upd id v f id = v.
Proof. unfold fun_upd. by rewrite decide_True. Qed.
Lemma fun_upd_ne {A} id (v : A) f i : i ≠ id → fun_upd id v f i = f i.
Proof. intros. unfold fun_upd. by rewrite decide_False. Qed.

Definition comp_mem : Type := mem_sv * comp_store.

Definition comp_mem_start (c : obj_call) (o : mio_obj) (s : comp_mem) : Z * mio_obj * comp_mem :=
  let '(rc, o, m) := mem_start false c o s.1 in (rc, o, (m, s.2)).
Definition comp_mem_wait (c : obj_call) (o : mio_obj) (s : comp_mem) : Z * list (list Z) * mio_obj * comp_mem :=
  let '(rc, d, o, m) := mem_wait c o s.1 in (rc, d, o, (m, s.2)).
Definition comp_mem_close (o : mio_obj) (s : comp_mem) : outcome comp_mem :=
  m ← mem_close false o s.1; Done (m, s.2).

Definition comp_mem_do (c : comp_call) (oid : mio_obj_id) (s : comp_store) : Z * comp_reply * comp_store :=
  let '(MkCompStore l e) := s in
  let none := MkCompReply [] [] in
  match c with
  | CompCreate id => (0, none, MkCompStore (fun_upd id (Some []) l) e)
  | CompAddLayers layers => (0, none, MkCompStore (fun_upd oid (Some (mcol_oid <$> layers)) l) e)
  | CompDelLayers layers =>
      match l oid with
      | Some ids => (0, none, MkCompStore (fun_upd oid (Some (filter (λ i, i ∉ mcol_oid <$> layers) ids)) l) e)
      | None => (- ENOENT, none, s)
      end
  | CompListLayers =>
      match l oid with
      | Some ids => (0, MkCompReply (MkLayer 0 <$> ids) [], s)
      | None => (- ENOENT, none, s)
      end
  | CompAddExts layer exts => (0, none, MkCompStore l (fun_upd layer (e layer ∪ ext_map exts) e))
  | CompDelExts layer exts => (0, none, MkCompStore l (fun_upd layer (foldr delete (e layer) (moe_off <$> exts)) e))
  | CompGetExts layer off n =>
      if n <? 0 then (- EINVAL, none, s) else
      let found := (λ kv : Z * Z, MkExt kv.1 kv.2) <$> filter (λ kv : Z * Z, off <= kv.1) (map_to_list (e layer)) in
      (0, MkCompReply [] (take (Z.to_nat n) (found ++ replicate (Z.to_nat n) (MkExt off 0))), s)
  end.

Definition comp_mem_call (c : comp_call) (o : mio_obj) (s : comp_mem) : Z * comp_reply * mio_obj * comp_mem :=
  let '(rc, m) := ms_next s.1 in
  if negb (rc =? 0) then (rc, MkCompReply [] [], o, (m, s.2)) else
  let '(rc, r, st) := comp_mem_do c (mo_id o) s.2 in (rc, r, o, (m, st)).

Lemma comp_mem_start_ok c o s rc o' s' : comp_mem_start c o s = (rc, o', s') →
  rc <= 0 ∧ (∀ id, ms_objs s'.1 id = ms_objs s.1 id) ∧ start_spec c o rc o'.
Proof.
  unfold comp_mem_start. destruct (mem_start false c o s.1) as [[r p] m] eqn:E. intros [= <- <- <-].
  by apply mem_start_ok in E.
Qed.
Lemma comp_mem_wait_ok c o s rc d o' s' : comp_mem_wait c o s = (rc, d, o', s') →
  rc <= 0 ∧ (∀ id, id ≠ call_target c o → ms_objs s'.1 id = ms_objs s.1 id) ∧
  done_spec (λ pool _, pool) c o (ms_objs s.1) rc d o' (ms_objs s'.1).
Proof.
  unfold comp_mem_wait. destruct (mem_wait c o s.1) as [[[r d1] p] m] eqn:E. intros [= <- <- <- <-].
  by apply mem_wait_ok in E.
Qed.
Lemma comp_mem_close_ok o s : mo_drv_obj o ≠ None → ∃ s', comp_mem_close o s = Done s' ∧
  (∀ id, id ≠ mo_id o → ms_objs s'.1 id = ms_objs s.1 id) ∧ close_spec o (ms_objs s.1) (ms_objs s'.1).
Proof.
  intros Hd. destruct (mem_close_ok false o s.1 Hd) as (m & Hm & Hok). exists (m, s.2). unfold comp_mem_close. by rewrite Hm.
Qed.

Definition comp_mem_objects : ObjService := {|
  sv := comp_mem; sv_objects := λ s, ms_objs s.1; sv_start := comp_mem_start; sv_wait := comp_mem_wait;
  sv_close := comp_mem_close; sv_create_pool := λ pool _, pool;
  sv_start_ok := comp_mem_start_ok; sv_wait_ok := comp_mem_wait_ok; sv_close_ok := comp_mem_close_ok
|}.

Lemma comp_mem_call_ok c o s rc r o' s' : comp_mem_call c o s = (rc, r, o', s') →
  rc <= 0 ∧ (∀ id, ms_objs s'.1 id = ms_objs s.1 id) ∧ same_handle o o' ∧ mo_attrs_updated o' = mo_attrs_updated o ∧
  comp_spec c (mo_id o) (st_layers s.2) (st_layers s'.2) (st_exts s.2) (st_exts s'.2) rc r.
Proof.
  unfold comp_mem_call. destruct s as [m [l e]]. cbn [fst snd]. destruct (ms_next m) as [rc0 m0] eqn:En.
  apply ms_next_spec in En as (Hrc0 & _ & _ & Hm). destruct (Z.eqb_spec rc0 0) as [->|Hne]; cbn [negb].
  - destruct c as [id|ls|ls| |ly ex|ly ex|ly off n]; cbn [comp_mem_do].
    all: try destruct (l (mo_id o)) as [ids|] eqn:El; try destruct (Z.ltb_spec n 0) as [Hn|Hn]; intros [= <- <- <- <-].
    all: cbn [fst snd st_layers st_exts]; rewrite ?Hm.
    all: split; [unfold ENOENT, EINVAL; lia|split; [done|split; [done|split; [done|]]]]; cbn [comp_spec cr_layers cr_exts].
    all: split_and!; try done; intros; rewrite ?fun_upd_eq; rewrite ?fun_upd_ne by done; try done.
    all: try by eexists.
    all: try (rewrite length_take, length_app, length_replicate; lia).
    by rewrite layers_of_ids.
  - intros [= <- <- <- <-]. cbn [fst snd]. rewrite Hm. do 4 (split; [done|]). destruct c; simpl; repeat split; done.
Qed.

Definition comp_mem_layers (s : comp_mem) : mio_obj_id → option (list mio_obj_id) := st_layers s.2.
Definition comp_mem_exts (s : comp_mem) : mio_obj_id → gmap Z Z := st_exts s.2.

Definition comp_mem_service : @CompService comp_mem_objects.
Proof.
  unshelve refine (@Build_CompService comp_mem_objects comp_mem_layers comp_mem_exts comp_mem_call comp_mem_call_ok _ _ _).
  - intros c o s rc o' s'. cbn. unfold comp_mem_start. destruct (mem_start false c o s.1) as [[r p] m]. by intros [= <- <- <-].
  - intros c o s rc d o' s'. cbn. unfold comp_mem_wait. destruct (mem_wait c o s.1) as [[[r d1] p] m].
    by intros [= <- <- <- <-].
  - intros o s s'. cbn. unfold comp_mem_close. destruct (mem_close false o s.1) as [m|]; [|done]. by intros [= <-].
Defined.

#[local] Existing Instance comp_mem_objects.
#[local] Existing Instance comp_mem_service.

Definition comp_oid : mio_obj_id := mio__uint128_to_obj_id (MkU128 1 0).
Definition comp_layer (k : Z) : mio_obj_id := mio__uint128_to_obj_id (MkU128 (2 + k) 0).

(** The program, with no object at the beginning, the results [rcs] of the calls and
    the results [plan] of the allocations. *)
Definition comp_start (rcs : list Z) (plan : list bool) : comp_prog :=
  MkCompProg (set_cw_plan plan (@ex_world comp_mem_objects (MkMemSv (λ _, None) rcs [], MkCompStore (λ _, None) (λ _, ∅))))
    obj_zero 0 [] [].

(** What it leaves: the result, which of the composite object and its layers are there,
    the extents of the layers, the lost memory, and what it has printed. *)
Definition comp_run (rcs : list Z) (plan : list bool) :
    outcome (Z * list bool * list (list (Z * Z)) * Z * list mio_obj_id * list (Z * mio_obj_ext)) :=
  '(rc, x) ← comp_obj_main comp_oid (comp_start rcs plan);
  Done (rc, (λ id, match sv_objects (cw_sv (cp_w x)) id with Some _ => true | None => false end) <$>
              [comp_oid; comp_layer 0; comp_layer 1; comp_layer 2],
        (λ id, map_to_list (cs_exts (cw_sv (cp_w x)) id)) <$> [comp_layer 0; comp_layer 1; comp_layer 2],
        cp_lost x, cp_layers x, cp_exts x).


(** The result, what is left, and the number of extents printed. *)
Definition comp_left (rcs : list Z) (plan : list bool) : outcome (Z * list bool * list (list (Z * Z)) * Z * nat) :=
  '(rc, there, exts, lost, _, printed) ← comp_run rcs plan; Done (rc, there, exts, lost, length printed).

Definition ext_of (k : Z) : Z * Z := (k * EXT_SIZE, EXT_SIZE).

(** Nothing fails: the extents of two layers stay in the index. *)
Example comp_run_ok :
  comp_run [] [] =
  Done (0, [false; false; false; false], [[]; [ext_of 1]; [ext_of 2]], 0,
        [comp_layer 0; comp_layer 1; comp_layer 2],
        [(0, MkExt 0 EXT_SIZE); (1, MkExt EXT_SIZE EXT_SIZE); (2, MkExt (2 * EXT_SIZE) EXT_SIZE)]).
Proof. vm_compute. reflexivity. Qed.

(** Listing the layers fails: all four objects stay. *)
Example comp_run_stays :
  comp_left (replicate 19 0 ++ [- EIO]) [] = Done (- EIO, [true; true; true; true], [[]; []; []], 0, 0%nat).
Proof. vm_compute. reflexivity. Qed.

(** Listing the extents of the first layer fails and nothing tells. *)
Example comp_run_list_failure :
  comp_left (replicate 22 0 ++ [- EIO]) [] =
  Done (0, [false; false; false; false], [[]; [ext_of 1]; [ext_of 2]], 0, 2%nat).
Proof. vm_compute. reflexivity. Qed.

(** So does deleting the layers from the composite object. *)
Example comp_run_del_failure :
  comp_left (replicate 26 0 ++ [- EIO]) [] =
  Done (0, [false; false; false; false], [[]; [ext_of 1]; [ext_of 2]], 0, 3%nat).
Proof. vm_compute. reflexivity. Qed.

(** An allocation fails: the other block is lost. *)
Example comp_run_no_memory :
  comp_left [] [true; false] = Done (- ENOMEM, [true; false; false; false], [[]; []; []], 1, 0%nat).
Proof. vm_compute. reflexivity. Qed.

(** The offset of the extents of layer 128 is more than an int. *)
Example layer_exts_overflow : layer_exts 128 1 = [MkExt (- 2 ^ 31) EXT_SIZE].
Proof. reflexivity. Qed.
End Witnesses.
