(* ===== verification/ObjDriver.v ===== *)
(** * Objects of the Motr driver (src/driver_motr_obj.c, lines 50-300 and 1407-1790)

    Opening, creating, closing and deleting an object, its stored attributes, its
    lock and its pool.  The attributes are a pair of the attribute index, whose
    key is the object's id.  Opening takes two Motr operations and deleting three:
    each post-processing action launches the next.  Reading and writing are
    [IoVec] to [IoRead]. *)

From S2P Require Import Prelude Bytes ObjId HintMap Mem Types IoVec AttrsWire DriverOp KvsDriver.
Open Scope Z_scope.

(** ** Motr's side *)

(** The operations on objects; an object is created in a pool or in the default one. *)
Inductive ent_op := EntOpen | EntCreate (pool : option m0_fid) | EntDelete.

(** Objects of Motr: initialising the structure, building and carrying out an
    operation, whose results are the structure and m0_rc().  The laws are what
    the Motr documentation says of objects that exist, or do not exist yet; and
    of a put with M0_OIF_OVERWRITE and of an operation that is stable. *)
Class MotrObjects `{MotrIndex} := {
  mobjs : Type;
  obj_exists : mobjs → m0_uint128 → bool;
  sizeof_m0_object : Z;
  m0_obj_init : m0_uint128 → Z → m0_obj;
  m0_entity_rc : ent_op → m0_obj → mobjs → Z;
  m0_entity_exec : ent_op → m0_obj → mobjs → mobjs * m0_obj * Z;
  m0_sync_op_init_rc : mobjs → Z;
  m0_sync_entity_add_rc : m0_obj → mobjs → Z;
  m0_op_wait_rc : mobjs → Z;
  m0_idx_op_rc : m0_reply → Z;
  m0_obj_lock_init_rc : m0_obj → Z;
  m0_obj_write_lock_rc : m0_obj → Z;
  M0_OIF_OVERWRITE : Z;
  m0_obj_init_law : ∀ id l, ob_id (m0_obj_init id l) = id;
  m0_open_law : ∀ s o, obj_exists s (ob_id o) = true →
    let '(s', o', rc) := m0_entity_exec EntOpen o s in
    rc = 0 ∧ ob_id o' = ob_id o ∧ ∀ id, obj_exists s' id = obj_exists s id;
  m0_create_obj_law : ∀ s o pool, obj_exists s (ob_id o) = false →
    let '(s', o', rc) := m0_entity_exec (EntCreate pool) o s in
    rc = 0 ∧ ob_id o' = ob_id o ∧ obj_exists s' (ob_id o) = true ∧
    ∀ id, id ≠ ob_id o → obj_exists s' id = obj_exists s id;
  m0_delete_obj_law : ∀ s o, obj_exists s (ob_id o) = true →
    let '(s', o', rc) := m0_entity_exec EntDelete o s in
    rc = 0 ∧ ob_id o' = ob_id o ∧ obj_exists s' (ob_id o) = false ∧
    ∀ id, id ≠ ob_id o → obj_exists s' id = obj_exists s id;
  m0_overwrite_law : ∀ s id m k v, index_at s id = Some m →
    let '(s', r) := m0_req_exec (IdxOp M0_IC_PUT id [ent k] [ent v] M0_OIF_OVERWRITE) s in
    rep_stable r = true ∧ index_at s' id = Some (<[k := v]> m) ∧
    ∀ id', id' ≠ id → index_at s' id' = index_at s id';
  m0_idx_op_rc_law : ∀ r, rep_stable r = true → m0_idx_op_rc r = 0
}.

(** ** Objects in memory *)

(** struct mio_obj with the pointers that [mio_obj] leaves out: the index of the
    attributes behind mo_md_kvs, mo_drv_obj and mo_drv_obj_lock. *)
Record obj_handle := MkHandle {
  oh_obj : mio_obj;
  oh_md_kvs : option m0_uint128;
  oh_drv : ptr;
  oh_lock : ptr
}.

Definition set_oh_drv (p : ptr) (o : obj_handle) : obj_handle := MkHandle (oh_obj o) (oh_md_kvs o) p (oh_lock o).
Definition set_oh_lock (p : ptr) (o : obj_handle) : obj_handle := MkHandle (oh_obj o) (oh_md_kvs o) (oh_drv o) p.
Definition set_oh_obj (x : mio_obj) (o : obj_handle) : obj_handle := MkHandle x (oh_md_kvs o) (oh_drv o) (oh_lock o).

(** struct motr_obj_attrs_pp_args. *)
Record attrs_args := MkAttrsArgs {
  aca_self : ptr;
  aca_rc : ptr;
  aca_key : option m0_bufvec;
  aca_val : option m0_bufvec;
  aca_to : ptr
}.

(** The requests to Motr, and the post-processing actions with their data. *)
Inductive obj_req := EntityReq (e : ent_op) (cobj : ptr) | AttrsReq (req : m0_req) | SyncReq (cobj : ptr).

Inductive obj_pp :=
| PpObjOpen
| PpDeleteOpen
| PpDelete
| PpAttrsFree (args : attrs_args)
| PpAttrsGet (args : attrs_args).

Abbreviation obj_mop := (mio_op obj_req Empty_set obj_pp).

(** The calls on the lock of an object. *)
Inductive lock_call :=
| LockInit (cobj : ptr)
| LockGet (cobj req : ptr)
| LockPut (req : ptr)
| LockFini (cobj : ptr).

Definition SIZEOF_MIO_OBJ : Z := 184.
Definition SIZEOF_M0_UINT128 : Z := 16.
Definition SIZEOF_INT32 : Z := 4.
Definition SIZEOF_ATTRS_PP_ARGS : Z := 32.
Definition SIZEOF_RM_LOCK_REQ : Z := 64.

Section ObjDriver.
Context `{HostOrder} `{IoEnv} `{MotrObjects}.
Context (default_layout_id : Z).     (* mio_drv_motr_conf->mc_default_layout_id *)
Context (obj_attrs_kvs : m0_uint128). (* the index behind mio_obj_attrs_kvs *)

(** Memory; the objects of MIO and of Motr in it, by block; mop_who.obj of the
    operation; Motr's objects and indices, m0_rc() of the operation launched last
    and what it has returned; the calls on locks, newest first. *)
Record obj_world := MkObjWorld {
  ow_heap : heap;
  ow_handles : gmap Z obj_handle;
  ow_cobjs : gmap Z m0_obj;
  ow_who : ptr;
  ow_motr : mobjs;
  ow_index : mindex;
  ow_op_rc : Z;
  ow_reply : m0_reply;
  ow_locks : list lock_call
}.

Definition set_oheap (h : heap) (w : obj_world) : obj_world :=
  MkObjWorld h (ow_handles w) (ow_cobjs w) (ow_who w) (ow_motr w) (ow_index w) (ow_op_rc w) (ow_reply w) (ow_locks w).
Definition set_handles (m : gmap Z obj_handle) (w : obj_world) : obj_world :=
  MkObjWorld (ow_heap w) m (ow_cobjs w) (ow_who w) (ow_motr w) (ow_index w) (ow_op_rc w) (ow_reply w) (ow_locks w).
Definition set_cobjs (m : gmap Z m0_obj) (w : obj_world) : obj_world :=
  MkObjWorld (ow_heap w) (ow_handles w) m (ow_who w) (ow_motr w) (ow_index w) (ow_op_rc w) (ow_reply w) (ow_locks w).
Definition set_who (p : ptr) (w : obj_world) : obj_world :=
  MkObjWorld (ow_heap w) (ow_handles w) (ow_cobjs w) p (ow_motr w) (ow_index w) (ow_op_rc w) (ow_reply w) (ow_locks w).
Definition lock_trace (c : lock_call) (w : obj_world) : obj_world :=
  MkObjWorld (ow_heap w) (ow_handles w) (ow_cobjs w) (ow_who w) (ow_motr w) (ow_index w) (ow_op_rc w) (ow_reply w)
    (c :: ow_locks w).

(** What the block behind a pointer holds. *)
Definition deref {A} (m : gmap Z A) (p : ptr) (w : obj_world) : outcome A :=
  if decide (p = NULL) then Fault NullDeref
  else if blk_live (ow_heap w) (p_blk p) then
    match m !! p_blk p with Some x => Done x | None => Fault UninitRead end
  else Fault UseAfterFree.

Definition obj_at (p : ptr) (w : obj_world) : outcome obj_handle := deref (ow_handles w) p w.
Definition cobj_at (p : ptr) (w : obj_world) : outcome m0_obj := deref (ow_cobjs w) p w.

Definition obj_put (p : ptr) (o : obj_handle) (w : obj_world) : obj_world :=
  set_handles (<[p_blk p := o]> (ow_handles w)) w.

(** m0_obj_init(), and m0_obj_fini(), after which there is no object. *)
Definition cobj_init (p : ptr) (id : m0_uint128) (w : obj_world) : obj_world :=
  set_cobjs (<[p_blk p := m0_obj_init id default_layout_id]> (ow_cobjs w)) w.
Definition m0_obj_fini (p : ptr) (w : obj_world) : outcome obj_world :=
  _ ← cobj_at p w; Done (set_cobjs (delete (p_blk p) (ow_cobjs w)) w).

(** m0_op_launch(): Motr carries the operation out. *)
Definition obj_launch (req : obj_req) (w : obj_world) : obj_world :=
  match req with
  | EntityReq e p =>
      match ow_cobjs w !! p_blk p with
      | Some o =>
          let '(s, o, rc) := m0_entity_exec e o (ow_motr w) in
          MkObjWorld (ow_heap w) (ow_handles w) (<[p_blk p := o]> (ow_cobjs w)) (ow_who w) s (ow_index w) rc
            (ow_reply w) (ow_locks w)
      | None => w
      end
  | AttrsReq req =>
      let '(s, r) := m0_req_exec req (ow_index w) in
      MkObjWorld (ow_heap w) (ow_handles w) (ow_cobjs w) (ow_who w) (ow_motr w) s (m0_idx_op_rc r) r (ow_locks w)
  | SyncReq _ => w
  end.

(** mio_driver_op_add() in this world. *)
Definition obj_op_add (pp : option obj_pp) (req : obj_req) (op : obj_mop) (w : obj_world)
  : Z * obj_mop * obj_world :=
  let '(rc, op, h) := mio_driver_op_add op pp req None (ow_heap w) in (rc, op, set_oheap h w).

(** mio_mem_free() in this world. *)
Definition ow_free (p : ptr) (w : obj_world) : outcome obj_world :=
  h ← mio_mem_free p (ow_heap w); Done (set_oheap h w).

(** ** The stored attributes *)

(** The 16 bytes of a struct m0_uint128. *)
Definition uint128_bytes (u : m0_uint128) : list Z := native 8 (u_hi u) ++ native 8 (u_lo u).

(** [motr_obj_attrs_mem2wire] with its buffer in memory: the element it fills in,
    which stays empty when there is no memory. *)
Definition attrs_mem2wire (obj : mio_obj) (h : heap) : outcome (bufent * heap) :=
  '(_, r, _) ← motr_obj_attrs_mem2wire obj (h_plan h);
  let '(_, h) := mio_mem_alloc (match r with Some (size, _) => size | None => 0 end) h in
  Done (match r with Some (size, buf) => (size, Some buf) | None => (0, None) end, h).

(** The label error of [motr_obj_attrs_query]. *)
Definition attrs_query_error (rc : Z) (key val : option m0_bufvec) (qrc args : ptr) (op : obj_mop) (h : heap)
    (w : obj_world) : outcome (Z * obj_mop * obj_world) :=
  h ← mio__motr_bufvec_free key h;
  h ← mio__motr_bufvec_free val h;
  h ← mio_mem_free qrc h;
  h ← mio_mem_free args h;
  Done (rc, op, set_oheap h w).

(** [motr_obj_attrs_query] from the filling of the key on: the result of
    [motr_obj_attrs_mem2wire] is ignored.  (The telemetry of the launch is left
    out.) *)
Definition attrs_query_launch (opcode : m0_idx_opcode) (obj : ptr) (op_pp : attrs_args → obj_pp)
    (qrc args : ptr) (key val : option m0_bufvec) (op : obj_mop) (h : heap) (w : obj_world)
  : outcome (Z * obj_mop * obj_world) :=
  o ← obj_at obj (set_oheap h w);
  let key_ent := (SIZEOF_M0_UINT128, Some (uint128_bytes (mio__obj_id_to_uint128 (mo_id (oh_obj o))))) in
  '(val_ents, h) ← (if decide (opcode = M0_IC_PUT) then '(e, h) ← attrs_mem2wire (oh_obj o) h; Done ([e], h)
                    else Done (from_option bv_ents [] val, h));
  let flags := if decide (opcode = M0_IC_PUT) then M0_OIF_OVERWRITE else 0 in
  idx ← match oh_md_kvs o with Some id => Done id | None => Fault NullDeref end;
  let req := IdxOp opcode idx [key_ent] val_ents flags in
  let rc := m0_req_rc req (ow_index w) in
  if rc <? 0 then attrs_query_error rc key val qrc args op h w else
  let '(rc, op', w') := obj_op_add (Some (op_pp (MkAttrsArgs args qrc key val obj))) (AttrsReq req) op (set_oheap h w) in
  if rc <? 0 then attrs_query_error rc key val qrc args op (ow_heap w') w else
  Done (0, op', obj_launch (AttrsReq req) w').

(** [motr_obj_attrs_query]: nobody releases the object id. *)
Definition motr_obj_attrs_query (opcode : m0_idx_opcode) (obj : ptr) (op_pp : attrs_args → obj_pp)
    (op : obj_mop) (w : obj_world) : outcome (Z * obj_mop * obj_world) :=
  _ ← c_assert (bool_decide (opcode = M0_IC_GET ∨ opcode = M0_IC_PUT ∨ opcode = M0_IC_DEL));
  let '(id128, h) := mio_mem_alloc SIZEOF_M0_UINT128 (ow_heap w) in
  let '(qrc, h) := mio_mem_alloc SIZEOF_INT32 h in
  let '(args, h) := mio_mem_alloc SIZEOF_ATTRS_PP_ARGS h in
  if decide (id128 = NULL ∨ qrc = NULL ∨ args = NULL) then
    attrs_query_error (- ENOMEM) None None qrc args op h w else
  '(key, h) ← mio__motr_bufvec_alloc 1 h;
  if decide (key = None) then attrs_query_error (- ENOMEM) None None qrc args op h w else
  '(val, h) ← (if decide (opcode = M0_IC_DEL) then Done (None, h) else mio__motr_bufvec_alloc 1 h);
  if decide (opcode ≠ M0_IC_DEL ∧ val = None) then attrs_query_error (- ENOMEM) key None qrc args op h w else
  attrs_query_launch opcode obj op_pp qrc args key val op h w.

(** [motr_obj_attrs_query_free_pp]. *)
Definition motr_obj_attrs_query_free_pp (args : attrs_args) (op : obj_mop) (w : obj_world)
  : outcome (Z * obj_mop * obj_world) :=
  h ← mio__motr_bufvec_free (aca_key args) (ow_heap w);
  h ← mio__motr_bufvec_free (aca_val args) h;
  h ← mio_mem_free (aca_rc args) h;
  h ← mio_mem_free (aca_self args) h;
  Done (MIO_DRV_OP_FINAL, op, set_oheap h w).

(** [motr_obj_attrs_get_pp]: the value that Motr has filled in is read when it is
    not empty; whether that succeeds is ignored. *)
Definition motr_obj_attrs_get_pp (args : attrs_args) (op : obj_mop) (w : obj_world)
  : outcome (Z * obj_mop * obj_world) :=
  let '(count, buf) := hd (0, None) (rep_vals (ow_reply w)) in
  w ← (if count =? 0 then Done w else
         match buf with
         | None => Fault NullDeref
         | Some bytes =>
             o ← obj_at (aca_to args) w;
             '(_, x) ← motr_obj_attrs_wire2mem (oh_obj o) count bytes;
             Done (obj_put (aca_to args) (set_oh_obj x o) w)
         end);
  motr_obj_attrs_query_free_pp args op w.

(** [motr_obj_attrs_update_sync]: an operation of its own, without callbacks,
    that nobody finalises. *)
Definition sync_mop : obj_mop := MkOp 0 MIO_OBJ_ATTRS_SET 0 false false [] true.

Definition motr_obj_attrs_update_sync (obj : ptr) (w : obj_world) : outcome (Z * obj_world) :=
  '(rc, mop, w) ← motr_obj_attrs_query M0_IC_PUT obj PpAttrsFree sync_mop w;
  if rc <? 0 then Done (rc, w) else
  rc ← elvis (m0_op_wait_rc (ow_motr w)) (Done (ow_op_rc w));
  Done (rc, w).

(** [mio_motr_obj_size], [mio_motr_obj_hint_store], [mio_motr_obj_hint_load]. *)
Definition mio_motr_obj_size (obj : ptr) := motr_obj_attrs_query M0_IC_GET obj PpAttrsGet.
Definition mio_motr_obj_hint_store (obj : ptr) := motr_obj_attrs_update_sync obj.
Definition mio_motr_obj_hint_load (obj : ptr) (w : obj_world) : outcome (Z * obj_world) := Done (0, w).

(** ** The life of an object *)

(** [motr_obj_open_pp]; m0_rc() of an operation that has completed. *)
Definition motr_obj_open_pp (op : obj_mop) (w : obj_world) : outcome (Z * obj_mop * obj_world) :=
  let rc := ow_op_rc w in
  if rc <? 0 then Done (rc, op, w) else
  '(rc, op, w) ← motr_obj_attrs_query M0_IC_GET (ow_who w) PpAttrsGet op w;
  Done (if rc <? 0 then rc else MIO_DRV_OP_NEXT, op, w).

(** [mio_motr_obj_open] and [mio_motr_obj_create] have the same steps; [fails] is
    the test of the result of m0_entity_open() or m0_entity_create().  When the
    driver operation cannot be added the object of Motr is released, but
    mo_drv_obj still points to it. *)
Definition obj_open_create (e : ent_op) (fails : Z → bool) (pp : option obj_pp) (obj : ptr)
    (op : obj_mop) (w : obj_world) : outcome (Z * obj_mop * obj_world) :=
  let '(cobj, h) := mio_mem_alloc sizeof_m0_object (ow_heap w) in
  let w := set_oheap h w in
  if decide (cobj = NULL) then Done (- ENOMEM, op, w) else
  let error rc w := w ← m0_obj_fini cobj w; w ← ow_free cobj w; Done (rc, op, w) in
  o ← obj_at obj w;
  let w := cobj_init cobj (mio__obj_id_to_uint128 (mo_id (oh_obj o))) w in
  c ← cobj_at cobj w;
  let rc := m0_entity_rc e c (ow_motr w) in
  if fails rc then error rc w else
  let w := obj_put obj (set_oh_drv cobj o) w in
  let '(rc, op', w) := obj_op_add pp (EntityReq e cobj) op w in
  if rc <? 0 then error rc w else
  Done (0, op', obj_launch (EntityReq e cobj) w).

Definition mio_motr_obj_open : ptr → obj_mop → obj_world → outcome (Z * obj_mop * obj_world) :=
  obj_open_create EntOpen (λ rc, negb (rc =? 0)) (Some PpObjOpen).
Definition mio_motr_obj_create (pool_id : option mio_pool_id)
  : ptr → obj_mop → obj_world → outcome (Z * obj_mop * obj_world) :=
  obj_open_create (EntCreate (mio__motr_pool_id_to_fid <$> pool_id)) (λ rc, rc <? 0) None.

(** [mio_motr_obj_close]: the memory of Motr's object is not released. *)
Definition mio_motr_obj_close (obj : ptr) (w : obj_world) : outcome (Z * obj_world) :=
  o ← obj_at obj w;
  '(rc, w) ← (if mo_attrs_updated (oh_obj o) then motr_obj_attrs_update_sync obj w else Done (0, w));
  w ← m0_obj_fini (oh_drv o) w;
  Done (rc, w).

(** [motr_obj_delete_pp]: the third step; both objects are released whether it
    was launched or not. *)
Definition motr_obj_delete_pp (op : obj_mop) (w : obj_world) : outcome (Z * obj_mop * obj_world) :=
  let mobj := ow_who w in
  o ← obj_at mobj w;
  let cobj := oh_drv o in
  '(rc, op, w) ← motr_obj_attrs_query M0_IC_DEL mobj PpAttrsFree op w;
  w ← ow_free cobj w;
  w ← ow_free mobj w;
  Done (if rc <? 0 then rc else MIO_DRV_OP_NEXT, op, w).

(** [motr_obj_delete_open_pp]: the second step. *)
Definition motr_obj_delete_open_pp (op : obj_mop) (w : obj_world) : outcome (Z * obj_mop * obj_world) :=
  let mobj := ow_who w in
  o ← obj_at mobj w;
  let cobj := oh_drv o in
  let error rc w := w ← m0_obj_fini cobj w; w ← ow_free cobj w; w ← ow_free mobj w; Done (rc, op, w) in
  c ← cobj_at cobj w;
  let rc := m0_entity_rc EntDelete c (ow_motr w) in
  if negb (rc =? 0) then error rc w else
  let '(rc, op', w) := obj_op_add (Some PpDelete) (EntityReq EntDelete cobj) op w in
  if rc <? 0 then error rc w else
  Done (MIO_DRV_OP_NEXT, op', obj_launch (EntityReq EntDelete cobj) w).

(** The fields that [mio_motr_obj_delete] sets in zeroed memory. *)
Definition delete_handle (oid : mio_obj_id) (cobj : ptr) : obj_handle :=
  MkHandle (MkObj oid 0 hint_map_zero false attrs_zero None) (Some obj_attrs_kvs) cobj NULL.

(** [mio_motr_obj_delete]: the first step. *)
Definition mio_motr_obj_delete (oid : mio_obj_id) (op : obj_mop) (w : obj_world)
  : outcome (Z * obj_mop * obj_world) :=
  let '(mobj, h) := mio_mem_alloc SIZEOF_MIO_OBJ (ow_heap w) in
  let w := set_oheap h w in
  if decide (mobj = NULL) then Done (- ENOMEM, op, w) else
  let w := set_who mobj w in
  let '(cobj, h) := mio_mem_alloc sizeof_m0_object (ow_heap w) in
  let w := set_oheap h w in
  if decide (cobj = NULL) then w ← ow_free mobj w; Done (- ENOMEM, op, w) else
  let w := obj_put mobj (delete_handle oid cobj) w in
  let error rc w := w ← m0_obj_fini cobj w; w ← ow_free cobj w; w ← ow_free mobj w; Done (rc, op, w) in
  let w := cobj_init cobj (mio__obj_id_to_uint128 oid) w in
  c ← cobj_at cobj w;
  let rc := m0_entity_rc EntOpen c (ow_motr w) in
  if negb (rc =? 0) then error rc w else
  let '(rc, op', w) := obj_op_add (Some PpDeleteOpen) (EntityReq EntOpen cobj) op w in
  if rc <? 0 then error rc w else
  Done (0, op', obj_launch (EntityReq EntOpen cobj) w).

(** [mio_motr_obj_sync]. *)
Definition mio_motr_obj_sync (obj : ptr) (op : obj_mop) (w : obj_world) : outcome (Z * obj_mop * obj_world) :=
  let rc := m0_sync_op_init_rc (ow_motr w) in
  if rc <? 0 then Done (rc, op, w) else
  o ← obj_at obj w;
  c ← cobj_at (oh_drv o) w;
  let rc := m0_sync_entity_add_rc c (ow_motr w) in
  if rc <? 0 then Done (rc, op, w) else
  let '(rc, op', w) := obj_op_add None (SyncReq (oh_drv o)) op w in
  if rc <? 0 then Done (rc, op, w) else
  Done (0, op', obj_launch (SyncReq (oh_drv o)) w).

(** ** Pool and lock *)

(** [mio_motr_obj_pool_id]. *)
Definition mio_motr_obj_pool_id (obj : ptr) (w : obj_world) : outcome (Z * option mio_pool_id) :=
  o ← obj_at obj w;
  if decide (oh_drv o = NULL) then Done (- EINVAL, None) else
  c ← cobj_at (oh_drv o) w;
  match (if m0_conf_fid_is_valid (oa_pver c) then m0_pool_version_find (oa_pver c) else None) with
  | None => Done (- EINVAL, None)
  | Some pver => Done (0, Some (mio__motr_fid_to_pool_id (po_id pver)))
  end.

(** [mio_motr_obj_lock]. *)
Definition mio_motr_obj_lock (obj : ptr) (w : obj_world) : outcome (Z * obj_world) :=
  o ← obj_at obj w;
  let cobj := oh_drv o in
  if decide (cobj = NULL) then Done (- EINVAL, w) else
  c ← cobj_at cobj w;
  let rc := m0_obj_lock_init_rc c in
  if negb (rc =? 0) then Done (rc, w) else
  let w := lock_trace (LockInit cobj) w in
  let '(rm_lock, h) := mio_mem_alloc SIZEOF_RM_LOCK_REQ (ow_heap w) in
  let w := set_oheap h w in
  if decide (rm_lock = NULL) then Done (- ENOMEM, lock_trace (LockFini cobj) w) else
  let rc := m0_obj_write_lock_rc c in
  if rc <? 0 then w ← ow_free rm_lock (lock_trace (LockFini cobj) w); Done (rc, w) else
  Done (0, obj_put obj (set_oh_lock rm_lock o) (lock_trace (LockGet cobj rm_lock) w)).

(** [mio_motr_obj_unlock]: the request is neither released nor forgotten. *)
Definition mio_motr_obj_unlock (obj : ptr) (w : obj_world) : outcome (Z * obj_world) :=
  o ← obj_at obj w;
  let cobj := oh_drv o in
  let rm_lock := oh_lock o in
  if decide (cobj = NULL ∨ rm_lock = NULL) then Done (- EINVAL, w) else
  _ ← cobj_at cobj w;
  Done (0, lock_trace (LockFini cobj) (lock_trace (LockPut rm_lock) w)).

(** ** A whole operation

    Motr completes each driver operation and calls back, until the chain has
    ended; then the application finalises the operation. *)
Definition obj_pp_run (pp : obj_pp) (op : obj_mop) (w : obj_world) : outcome (Z * obj_mop * obj_world) :=
  match pp with
  | PpObjOpen => motr_obj_open_pp op w
  | PpDeleteOpen => motr_obj_delete_open_pp op w
  | PpDelete => motr_obj_delete_pp op w
  | PpAttrsFree args => motr_obj_attrs_query_free_pp args op w
  | PpAttrsGet args => motr_obj_attrs_get_pp args op w
  end.

Fixpoint obj_complete (fuel : nat) (op : obj_mop) (w : obj_world) : outcome (app_call * obj_mop * obj_world) :=
  match fuel with
  | O => Fault NoTermination
  | S fuel =>
      if ow_op_rc w =? 0 then
        '(call, op, w) ← motr_op_cb_complete obj_pp_run op w;
        match call with Some c => Done (c, op, w) | None => obj_complete fuel op w end
      else let '(call, op) := motr_op_cb_failed op (ow_op_rc w) in Done (call, op, w)
  end.

(** The longest chain has three driver operations. *)
Definition OBJ_STEPS : nat := 3.

Definition obj_exec (start : obj_mop → obj_world → outcome (Z * obj_mop * obj_world)) (op : obj_mop) (w : obj_world)
  : outcome (Z * option app_call * obj_world) :=
  '(rc, op, w) ← start op w;
  if rc <? 0 then Done (rc, None, w) else
  if negb (existsb mdo_cbs (take 1 (mop_drv_op_chain op))) then Done (rc, None, w) else
  '(call, op, w) ← obj_complete OBJ_STEPS op w;
  '(op, h) ← mio_motr_op_fini no_op_args op (ow_heap w);
  Done (rc, Some call, set_oheap h w).
End ObjDriver.

(** ** Memory of the driver's structures *)

Lemma tail_drop {A} (l : list A) : tail l = drop 1 l.
Proof. by destruct l. Qed.

(** A block that the heap [h0], or the blocks [bs] allocated since, account for. *)
Definition owned (h0 : heap) (bs : list Z) (p : ptr) : Prop :=
  p ≠ NULL ∧ (p_blk p ∈ bs ∨ blk_live h0 (p_blk p) = true).

Lemma owned_mono h0 bs bs' p : bs ⊆ bs' → owned h0 bs p → owned h0 bs' p.
Proof. intros Hs [? [?|?]]; split; auto. Qed.

Definition args_blocks (a : attrs_args) : list Z :=
  opt_blocks (aca_key a) ++ opt_blocks (aca_val a) ++ [p_blk (aca_rc a); p_blk (aca_self a)].

Definition args_at (a : attrs_args) : Prop :=
  p_off (aca_rc a) = 0 ∧ p_off (aca_self a) = 0 ∧ opt_at (aca_key a) ∧ opt_at (aca_val a).

Section Memory.
Context `{HostOrder} `{IoEnv} `{MotrObjects}.
Context (default_layout_id : Z) (obj_attrs_kvs : m0_uint128).

Lemma deref_owned {A} (m : gmap Z A) h0 bs p x w :
  heap_grow h0 (ow_heap w) bs → owned h0 bs p → m !! p_blk p = Some x → deref m p w = Done x.
Proof.
  intros Hg [Hn Hl] Hx. unfold deref. rewrite decide_False by done.
  assert (blk_live (ow_heap w) (p_blk p) = true) as ->.
  { destruct Hl; [by eapply heap_grow_live|by eapply heap_grow_live_old]. }
  by rewrite Hx.
Qed.

(** Allocating a vector, as the plan decides. *)
Lemma bufvec_allocs h0 h bs nr :
  heap_grow h0 h bs →
  ∃ r h', mio__motr_bufvec_alloc nr h = Done (r, h') ∧
    if allocs_ok 3 (h_plan h) then
      ∃ bv, r = Some bv ∧ bufvec_at bv ∧ bv_ents bv = replicate (Z.to_nat nr) (0, None) ∧
        h_plan h' = drop 3 (h_plan h) ∧ heap_grow h0 h' (bufvec_blocks bv ++ bs)
    else r = None ∧ ∃ lost, (length lost <= 1)%nat ∧ heap_grow h0 h' (lost ++ bs).
Proof.
  intros Hg. unfold mio__motr_bufvec_alloc.
  assert (Hfree : ∀ e, e ∈ replicate (Z.to_nat nr) (0, @None (list Z)) → e.2 = None).
  { intros e [-> _]%elem_of_replicate. done. }
  destruct (heap_grow_alloc_plan _ _ _ SIZEOF_M0_BUFVEC Hg) as (p1 & h1 & -> & Hp1 & C1). cbn [allocs_ok].
  destruct (hd true (h_plan h)); cbn [andb].
  2:{ destruct C1 as (-> & Hg1 & _). rewrite decide_True by done. do 2 eexists. split; [done|]. split; [done|].
      exists []. split; [simpl; lia|done]. }
  destruct C1 as (b1 & -> & Hn1 & _ & Hg1 & _). rewrite decide_False by done.
  destruct (heap_grow_alloc_plan _ _ _ (8 * nr) Hg1) as (p2 & h2 & -> & Hp2 & C2). rewrite Hp1 in Hp2, C2.
  destruct (hd true (tail (h_plan h))); cbn [andb].
  2:{ destruct C2 as (-> & Hg2 & _). rewrite decide_True, m0_bufvec_free_law by done. simpl.
      do 2 eexists. split; [done|]. split; [done|]. exists [b1]. split; [simpl; lia|done]. }
  destruct C2 as (b2 & -> & Hn2 & _ & Hg2 & _). rewrite decide_False by done.
  destruct (heap_grow_alloc_plan _ _ _ (8 * nr) Hg2) as (p3 & h3 & -> & Hp3 & C3). rewrite Hp2 in Hp3, C3.
  destruct (hd true (tail (tail (h_plan h)))); cbn [andb].
  2:{ destruct C3 as (-> & Hg3 & _). rewrite decide_True, m0_bufvec_free_law by done. simpl.
      destruct (heap_grow_free _ _ _ _ Hg3) as (h4 & -> & Hg4 & _). simpl.
      do 2 eexists. split; [done|]. split; [done|]. exists [b1]. split; [simpl; lia|done]. }
  destruct C3 as (b3 & -> & Hn3 & _ & Hg3 & _). rewrite decide_False by done.
  do 2 eexists. split; [done|]. eexists. split; [done|]. split_and!; try done.
  rewrite Hp3, !tail_drop, !drop_drop. done.
Qed.

(** Releasing what a query has allocated. *)
Lemma attrs_free_spec h0 bs bs' a op w :
  heap_grow h0 (ow_heap w) bs' → bs' ≡ₚ args_blocks a ++ bs → args_at a →
  ∃ h', motr_obj_attrs_query_free_pp a op w = Done (MIO_DRV_OP_FINAL, op, set_oheap h' w) ∧
    heap_grow h0 h' bs ∧ h_plan h' = h_plan (ow_heap w).
Proof.
  intros Hg Hp (Hr & Hs & Hk & Hv). unfold motr_obj_attrs_query_free_pp, args_blocks in *.
  rewrite Hp, <- !app_assoc in Hg.
  destruct (opt_bufvec_free_spec _ _ _ _ Hk Hg) as (h1 & -> & Hg1 & Hp1). cbn [mbind outcome_bind].
  destruct (opt_bufvec_free_spec _ _ _ _ Hv Hg1) as (h2 & -> & Hg2 & Hp2). cbn [mbind outcome_bind].
  rewrite (ptr_eta _ Hr), (ptr_eta _ Hs).
  destruct (heap_grow_free _ _ _ _ Hg2) as (h3 & -> & Hg3 & Hp3 & _). cbn [mbind outcome_bind].
  destruct (heap_grow_free _ _ _ _ Hg3) as (h4 & -> & Hg4 & Hp4 & _). cbn [mbind outcome_bind].
  exists h4. split_and!; [done|done|congruence].
Qed.

(** Linking a driver operation in, as the plan decides. *)
Lemma obj_op_add_plan h0 bs pp req (op : obj_mop) w :
  heap_grow h0 (ow_heap w) bs →
  ∃ rc op' h', obj_op_add pp req op w = (rc, op', set_oheap h' w) ∧ h_plan h' = tail (h_plan (ow_heap w)) ∧
    if hd true (h_plan (ow_heap w)) then
      ∃ d, rc = 0 ∧ heap_grow h0 h' (d :: bs) ∧
        op' = set_chain (MkDop (MkPtr d 0) req None pp (mop_set_cbs op && mop_cb_complete op && mop_cb_failed op)
                :: mop_drv_op_chain op) op
    else rc = - ENOMEM ∧ op' = op ∧ heap_grow h0 h' bs.
Proof.
  intros Hg. unfold obj_op_add, mio_driver_op_add.
  destruct (heap_grow_alloc_plan _ _ _ SIZEOF_DRIVER_OP Hg) as (p & h' & -> & Hp & C).
  destruct (hd true (h_plan (ow_heap w))).
  - destruct C as (d & -> & Hn & _ & Hg' & _). rewrite decide_False by done.
    do 3 eexists. split; [done|]. split; [done|]. exists d. split_and!; [done|done|done].
  - destruct C as (-> & Hg' & _). rewrite decide_True by done.
    do 3 eexists. split; [done|]. by split_and!.
Qed.
End Memory.

(** ** The query of the attributes *)

Section Query.
Context `{HostOrder} `{IoEnv} `{MotrObjects}.

Definition ptr_blocks (p : ptr) : list Z := if decide (p = NULL) then [] else [p_blk p].

Lemma alloc_ptr h0 h bs size :
  heap_grow h0 h bs →
  ∃ p h', mio_mem_alloc size h = (p, h') ∧ h_plan h' = tail (h_plan h) ∧ p_off p = 0 ∧
    bool_decide (p ≠ NULL) = hd true (h_plan h) ∧ heap_grow h0 h' (ptr_blocks p ++ bs).
Proof.
  intros Hg. destruct (heap_grow_alloc_plan _ _ _ size Hg) as (p & h' & Ha & Hp & C).
  exists p, h'. split; [done|]. split; [done|]. unfold ptr_blocks.
  destruct (hd true (h_plan h)).
  - destruct C as (b & -> & Hn & _ & Hg' & _). by rewrite decide_False, bool_decide_true.
  - destruct C as (-> & Hg' & _). by rewrite decide_True.
Qed.

Lemma free_ptr h0 h bs p :
  p_off p = 0 → heap_grow h0 h (ptr_blocks p ++ bs) →
  ∃ h', mio_mem_free p h = Done h' ∧ heap_grow h0 h' bs ∧ h_plan h' = h_plan h.
Proof.
  unfold ptr_blocks. intros Ho Hg. case_decide as Hn.
  - subst p. exists h. split_and!; done.
  - rewrite (ptr_eta _ Ho). destruct (heap_grow_free _ _ _ _ Hg) as (h' & -> & Hg' & Hp & _). by exists h'.
Qed.

(** The error path: everything is released but the id and what a failed vector
    has left behind. *)
Lemma query_error_spec h0 bs h (key val : option m0_bufvec) id128 qrc args lost w (rc : Z) (op : obj_mop) :
  p_off id128 = 0 → p_off qrc = 0 → p_off args = 0 → opt_at key → opt_at val → (length lost <= 1)%nat →
  heap_grow h0 h (lost ++ opt_blocks val ++ opt_blocks key ++ ptr_blocks args ++ ptr_blocks qrc ++ ptr_blocks id128 ++ bs) →
  ∃ h' lost', attrs_query_error rc key val qrc args op h w = Done (rc, op, set_oheap h' w) ∧
    (length lost' <= 2)%nat ∧ heap_grow h0 h' (lost' ++ bs).
Proof.
  intros Hi Hq Ha Hk Hv Hl Hg. unfold attrs_query_error.
  assert (Hg1 : heap_grow h0 h (opt_blocks key ++ opt_blocks val ++ ptr_blocks qrc ++ ptr_blocks args ++
    (lost ++ ptr_blocks id128) ++ bs)) by (eapply heap_grow_proper; [|exact Hg]; solve_Permutation).
  destruct (opt_bufvec_free_spec _ _ _ _ Hk Hg1) as (h1 & -> & Hg2 & _). cbn [mbind outcome_bind].
  destruct (opt_bufvec_free_spec _ _ _ _ Hv Hg2) as (h2 & -> & Hg3 & _). cbn [mbind outcome_bind].
  destruct (free_ptr _ _ _ _ Hq Hg3) as (h3 & -> & Hg4 & _). cbn [mbind outcome_bind].
  destruct (free_ptr _ _ _ _ Ha Hg4) as (h4 & -> & Hg5 & _). cbn [mbind outcome_bind].
  exists h4, (lost ++ ptr_blocks id128). split_and!; [done| |done].
  rewrite length_app. unfold ptr_blocks. case_decide; simpl; lia.
Qed.

(** The calls of malloc() of a query, and its request. *)
Definition query_allocs (opcode : m0_idx_opcode) : nat :=
  match opcode with M0_IC_DEL => 7 | M0_IC_PUT => 11 | _ => 10 end.

Definition attrs_key (oid : mio_obj_id) : list Z := uint128_bytes (mio__obj_id_to_uint128 oid).

Lemma attrs_key_ent oid : ent (attrs_key oid) = (SIZEOF_M0_UINT128, Some (attrs_key oid)).
Proof. unfold ent, attrs_key, uint128_bytes. by rewrite length_app, !length_native. Qed.

Definition attrs_req (opcode : m0_idx_opcode) (idx : m0_uint128) (oid : mio_obj_id) (v : list Z) : m0_req :=
  IdxOp opcode idx [ent (attrs_key oid)]
    (match opcode with M0_IC_DEL => [] | M0_IC_PUT => [ent v] | _ => [(0, None)] end)
    (if decide (opcode = M0_IC_PUT) then M0_OIF_OVERWRITE else 0).

(** Motr builds every operation. *)
Definition motr_accepts : Prop :=
  (∀ req s, 0 <= m0_req_rc req s) ∧ (∀ e o s, m0_entity_rc e o s = 0) ∧ (∀ s, m0_op_wait_rc s = 0).

(** A launched query: the driver operation [d], the arguments and what will
    be lost. *)
Definition query_launched (opcode : m0_idx_opcode) (h0 : heap) (bs : list Z) (obj : ptr) (pp : attrs_args → obj_pp)
    (req : m0_req) (op op' : obj_mop) (w w' : obj_world) : Prop :=
  ∃ d a lost h', op' = set_chain (MkDop (MkPtr d 0) (AttrsReq req) None (Some (pp a))
      (mop_set_cbs op && mop_cb_complete op && mop_cb_failed op) :: mop_drv_op_chain op) op ∧
    w' = obj_launch (AttrsReq req) (set_oheap h' w) ∧
    heap_grow h0 h' (d :: args_blocks a ++ lost ++ bs) ∧ args_at a ∧ aca_to a = obj ∧
    h_plan h' = drop (query_allocs opcode) (h_plan (ow_heap w)) ∧
    length lost = (if decide (opcode = M0_IC_PUT) then 2 else 1)%nat ∧
    length (args_blocks a) = (if decide (opcode = M0_IC_DEL) then 5 else 8)%nat.

(** The three blocks allocated first. *)
Lemma allocs_ok_3 plan p1 p2 p3 :
  bool_decide (p1 ≠ NULL) = hd true plan → bool_decide (p2 ≠ NULL) = hd true (tail plan) →
  bool_decide (p3 ≠ NULL) = hd true (tail (tail plan)) →
  allocs_ok 3 plan = bool_decide (p1 ≠ NULL ∧ p2 ≠ NULL ∧ p3 ≠ NULL).
Proof.
  intros Hb1 Hb2 Hb3. simpl. rewrite <- Hb1, <- Hb2, <- Hb3, andb_true_r.
  by repeat case_bool_decide; try tauto.
Qed.

Lemma hd_allocs_ok plan : hd true plan = allocs_ok 1 plan.
Proof. simpl. by rewrite andb_true_r. Qed.

Lemma ptr_blocks_some p : p ≠ NULL → ptr_blocks p = [p_blk p].
Proof. intros. unfold ptr_blocks. by rewrite decide_False. Qed.

(** The vector of values of a query. *)
Lemma val_alloc_plan h0 h bs opcode :
  heap_grow h0 h bs → let n := (if decide (opcode = M0_IC_DEL) then 0 else 3)%nat in
  ∃ val h', (if decide (opcode = M0_IC_DEL) then Done (None, h) else mio__motr_bufvec_alloc 1 h) = Done (val, h') ∧
    if allocs_ok n (h_plan h) then
      (val = None ↔ opcode = M0_IC_DEL) ∧ opt_at val ∧ h_plan h' = drop n (h_plan h) ∧
      (∀ bv, val = Some bv → bv_ents bv = [(0, None)]) ∧ heap_grow h0 h' (opt_blocks val ++ bs) ∧
      length (opt_blocks val) = n
    else opcode ≠ M0_IC_DEL ∧ val = None ∧ ∃ lost, (length lost <= 1)%nat ∧ heap_grow h0 h' (lost ++ bs).
Proof.
  intros Hg n. unfold n. case_decide as Hop.
  { exists None, h. split; [done|]. simpl. by rewrite drop_0. }
  destruct (bufvec_allocs _ _ _ 1 Hg) as (r & h' & -> & C). exists r, h'. split; [done|].
  destruct (allocs_ok 3 (h_plan h)); [|by destruct C].
  destruct C as (bv & -> & Hat & He & Hp & Hg'). split_and!; try done. by intros ? [= <-].
Qed.

(** The value of a query: filling it in allocates a buffer for a put. *)
Lemma mem2wire_fails obj p : hd true p = false → motr_obj_attrs_mem2wire obj p = Done (- ENOMEM, None, tail p).
Proof. destruct p as [|[] p]; [done..|]. done. Qed.

Lemma query_fill_spec h0 h bs opcode obj val v :
  heap_grow h0 h bs →
  (opcode = M0_IC_PUT → ∀ p, hd true p = true →
    ∃ p', motr_obj_attrs_mem2wire obj p = Done (0, Some (Z.of_nat (length v), v), p')) →
  let n := (if decide (opcode = M0_IC_PUT) then 1 else 0)%nat in
  ∃ ents h' lost,
    (if decide (opcode = M0_IC_PUT) then '(e, h) ← attrs_mem2wire obj h; Done ([e], h)
     else Done (from_option bv_ents [] val, h)) = Done (ents, h') ∧
    h_plan h' = drop n (h_plan h) ∧ (length lost <= n)%nat ∧ heap_grow h0 h' (lost ++ bs) ∧
    (allocs_ok n (h_plan h) = true →
      ents = (if decide (opcode = M0_IC_PUT) then [ent v] else from_option bv_ents [] val) ∧ length lost = n).
Proof.
  intros Hg Hput n. unfold n. destruct (decide (opcode = M0_IC_PUT)) as [Hop|Hop].
  2:{ exists (from_option bv_ents [] val), h, []. by split_and!. }
  unfold attrs_mem2wire. specialize (Hput Hop).
  destruct (hd true (h_plan h)) eqn:Hhd.
  - destruct (Hput _ Hhd) as (p' & ->). cbn [mbind outcome_bind].
    destruct (heap_grow_alloc_plan _ _ _ (Z.of_nat (length v)) Hg) as (p & h' & -> & Hp & C). rewrite Hhd in C.
    destruct C as (b & -> & _ & _ & Hg' & _). cbn [mbind outcome_bind].
    exists [ent v], h', [b]. rewrite Hp, tail_drop. by split_and!.
  - rewrite (mem2wire_fails _ _ Hhd). cbn [mbind outcome_bind].
    destruct (heap_grow_alloc_plan _ _ _ 0 Hg) as (p & h' & -> & Hp & C). rewrite Hhd in C.
    destruct C as (-> & Hg' & _). cbn [mbind outcome_bind].
    exists [(0, None)], h', []. rewrite Hp, tail_drop. cbn [allocs_ok]. rewrite Hhd. split_and!; try done. simpl. lia.
Qed.

Lemma query_req_eq opcode idx oid v val :
  opcode ≠ M0_IC_NEXT → (val = None ↔ opcode = M0_IC_DEL) → (∀ bv, val = Some bv → bv_ents bv = [(0, None)]) →
  IdxOp opcode idx [(SIZEOF_M0_UINT128, Some (uint128_bytes (mio__obj_id_to_uint128 oid)))]
    (if decide (opcode = M0_IC_PUT) then [ent v] else from_option bv_ents [] val)
    (if decide (opcode = M0_IC_PUT) then M0_OIF_OVERWRITE else 0) = attrs_req opcode idx oid v.
Proof.
  intros Hop Hn He. unfold attrs_req. rewrite attrs_key_ent.
  destruct opcode, val as [bv|]; try done; simpl; try (by rewrite (He bv eq_refl)); destruct Hn as [Hn1 Hn2]; try by specialize (Hn1 eq_refl).
  by specialize (Hn2 eq_refl).
Qed.

(** From the filling of the key on. *)
Lemma attrs_query_launch_spec h0 bs opcode obj pp qrc args id128 kv val (op : obj_mop) h w o idx v :
  opcode ≠ M0_IC_NEXT → motr_accepts → owned h0 bs obj → ow_handles w !! p_blk obj = Some o → oh_md_kvs o = Some idx →
  (opcode = M0_IC_PUT → ∀ p, hd true p = true →
    ∃ p', motr_obj_attrs_mem2wire (oh_obj o) p = Done (0, Some (Z.of_nat (length v), v), p')) →
  p_off id128 = 0 → p_off qrc = 0 → p_off args = 0 → id128 ≠ NULL → qrc ≠ NULL → args ≠ NULL →
  bufvec_at kv → opt_at val → (val = None ↔ opcode = M0_IC_DEL) → (∀ bv, val = Some bv → bv_ents bv = [(0, None)]) →
  heap_grow h0 h (opt_blocks val ++ bufvec_blocks kv ++ [p_blk args] ++ [p_blk qrc] ++ [p_blk id128] ++ bs) →
  let np := (if decide (opcode = M0_IC_PUT) then 1 else 0)%nat in
  ∃ rc op' w', attrs_query_launch opcode obj pp qrc args (Some kv) val op h w = Done (rc, op', w') ∧
    if allocs_ok (np + 1) (h_plan h) then
      rc = 0 ∧ let req := attrs_req opcode idx (mo_id (oh_obj o)) v in
      ∃ d lost h', op' = set_chain (MkDop (MkPtr d 0) (AttrsReq req) None (Some (pp (MkAttrsArgs args qrc (Some kv) val obj)))
          (mop_set_cbs op && mop_cb_complete op && mop_cb_failed op) :: mop_drv_op_chain op) op ∧
        w' = obj_launch (AttrsReq req) (set_oheap h' w) ∧ h_plan h' = drop (np + 1) (h_plan h) ∧ length lost = np ∧
        heap_grow h0 h' (d :: lost ++ opt_blocks val ++ bufvec_blocks kv ++ [p_blk args] ++ [p_blk qrc] ++ [p_blk id128] ++ bs)
    else opcode = M0_IC_PUT ∨
      (rc < 0 ∧ op' = op ∧ ∃ h' lost, w' = set_oheap h' w ∧ (length lost <= 2)%nat ∧ heap_grow h0 h' (lost ++ bs)).
Proof.
  intros Hop (Hacc & _ & _) Hown Hobj Hkvs Hput Ho1 Ho2 Ho3 Hn1 Hn2 Hn3 Hkat Hvat Hvn Hvents Hg np.
  unfold attrs_query_launch, obj_at. rewrite (deref_owned _ h0 _ obj o (set_oheap h w) Hg);
    [|by eapply owned_mono; [|done]; set_solver|done]. cbn [mbind outcome_bind].
  destruct (query_fill_spec h0 h _ opcode (oh_obj o) val v Hg Hput) as (ents & h6 & lost & -> & Hp6 & Hl & Hg6 & Hents).
  fold np in Hp6, Hl, Hents. cbn [mbind outcome_bind]. rewrite Hkvs. cbn [mbind outcome_bind].
  set (req := IdxOp opcode idx _ ents _). rewrite (proj2 (Z.ltb_ge _ _)) by apply Hacc.
  destruct (obj_op_add_plan h0 _ (Some (pp (MkAttrsArgs args qrc (Some kv) val obj))) (AttrsReq req) op (set_oheap h6 w) Hg6)
    as (rc & op' & h7 & -> & Hp7 & C). cbn [ow_heap set_oheap] in Hp7, C.
  rewrite allocs_ok_add, <- hd_allocs_ok, <- Hp6. destruct (hd true (h_plan h6)).
  - destruct C as (d & -> & Hg7 & ->). cbn [Z.ltb Z.compare]. do 3 eexists. split; [done|].
    destruct (allocs_ok np (h_plan h)) eqn:Hnp; cbn [andb].
    2:{ left. unfold np in Hnp. by destruct (decide (opcode = M0_IC_PUT)). }
    destruct (Hents eq_refl) as [-> Hll]. split; [done|].
    assert (req = attrs_req opcode idx (mo_id (oh_obj o)) v) as -> by by apply query_req_eq.
    exists d, lost, h7. split_and!; try done. by rewrite Hp7, Hp6, tail_drop, drop_drop.
  - destruct C as (-> & -> & Hg7). rewrite andb_false_r. change (- ENOMEM <? 0) with true. cbn iota.
    assert (Hl1 : (length lost <= 1)%nat) by (unfold np in Hl; case_decide; lia).
    rewrite <- (ptr_blocks_some _ Hn1), <- (ptr_blocks_some _ Hn2), <- (ptr_blocks_some _ Hn3) in Hg7.
    destruct (query_error_spec h0 bs h7 (Some kv) val id128 qrc args lost w (- ENOMEM) op Ho1 Ho2 Ho3 Hkat Hvat Hl1 Hg7)
      as (h' & lost' & Herr & Hl' & Hg').
    exists (- ENOMEM), op, (set_oheap h' w). split; [exact Herr|]. right. split_and!; [done|done|]. by exists h', lost'.
Qed.

Lemma attrs_query_spec h0 bs opcode obj pp (op : obj_mop) w o idx v :
  opcode ≠ M0_IC_NEXT → motr_accepts → heap_grow h0 (ow_heap w) bs → owned h0 bs obj →
  ow_handles w !! p_blk obj = Some o → oh_md_kvs o = Some idx →
  (opcode = M0_IC_PUT → ∀ p, hd true p = true →
    ∃ p', motr_obj_attrs_mem2wire (oh_obj o) p = Done (0, Some (Z.of_nat (length v), v), p')) →
  ∃ rc op' w', motr_obj_attrs_query opcode obj pp op w = Done (rc, op', w') ∧
    if allocs_ok (query_allocs opcode) (h_plan (ow_heap w)) then
      rc = 0 ∧ query_launched opcode h0 bs obj pp (attrs_req opcode idx (mo_id (oh_obj o)) v) op op' w w'
    else opcode = M0_IC_PUT ∨
      (rc < 0 ∧ op' = op ∧ ∃ h' lost, w' = set_oheap h' w ∧ (length lost <= 2)%nat ∧ heap_grow h0 h' (lost ++ bs)).
Proof.
  intros Hop Hmacc Hg Hown Hobj Hkvs Hput. unfold motr_obj_attrs_query.
  rewrite bool_decide_true by (destruct opcode; auto; done). cbn [c_assert mbind outcome_bind].
  set (plan := h_plan (ow_heap w)).
  destruct (alloc_ptr _ _ _ SIZEOF_M0_UINT128 Hg) as (p1 & h1 & -> & Hp1 & Ho1 & Hb1 & Hg1).
  destruct (alloc_ptr _ _ _ SIZEOF_INT32 Hg1) as (p2 & h2 & -> & Hp2 & Ho2 & Hb2 & Hg2). rewrite Hp1 in Hp2, Hb2.
  destruct (alloc_ptr _ _ _ SIZEOF_ATTRS_PP_ARGS Hg2) as (p3 & h3 & -> & Hp3 & Ho3 & Hb3 & Hg3). rewrite Hp2 in Hp3, Hb3.
  fold plan in Hb1, Hb2, Hb3, Hp3.
  pose proof (allocs_ok_3 _ _ _ _ Hb1 Hb2 Hb3) as Hok3. rewrite !tail_drop, !drop_drop in Hp3. cbn [Nat.add] in Hp3.
  set (nv := (if decide (opcode = M0_IC_DEL) then 0 else 3)%nat).
  assert (Hall : allocs_ok (query_allocs opcode) plan = allocs_ok 3 plan && (allocs_ok 3 (drop 3 plan) &&
    (allocs_ok nv (drop 6 plan) && allocs_ok (query_allocs opcode - 6 - nv) (drop (6 + nv) plan)))).
  { rewrite <- (drop_drop plan nv 6), <- allocs_ok_add.
    change (drop 6 plan) with (drop (3 + 3) plan). rewrite <- (drop_drop plan 3 3), <- !allocs_ok_add. f_equal. by destruct opcode. }
  rewrite Hall, Hok3. destruct (decide (p1 = NULL ∨ p2 = NULL ∨ p3 = NULL)) as [Hnull|Hnull].
  { rewrite bool_decide_false by tauto. cbn [andb].
    destruct (query_error_spec h0 bs h3 None None p1 p2 p3 [] w (- ENOMEM) op Ho1 Ho2 Ho3 I I ltac:(simpl; lia) Hg3)
      as (h' & lost & -> & Hl & Hg').
    do 3 eexists. split; [done|]. right. split_and!; [done|done|]. by exists h', lost. }
  assert (p1 ≠ NULL ∧ p2 ≠ NULL ∧ p3 ≠ NULL) as Hnn by tauto.
  rewrite (bool_decide_true _ Hnn). destruct Hnn as (Hn1 & Hn2 & Hn3). cbn [andb].
  destruct (bufvec_allocs _ _ _ 1 Hg3) as (key & h4 & -> & Ck). cbn [mbind outcome_bind]. rewrite Hp3 in Ck.
  destruct (allocs_ok 3 (drop 3 plan)) eqn:Hk; cbn [andb].
  2:{ destruct Ck as (-> & lost & Hl & Hg4). rewrite decide_True by done.
    destruct (query_error_spec h0 bs h4 None None p1 p2 p3 lost w (- ENOMEM) op Ho1 Ho2 Ho3 I I Hl Hg4)
      as (h' & lost' & -> & Hl' & Hg').
    do 3 eexists. split; [done|]. right. split_and!; [done|done|]. by exists h', lost'. }
  destruct Ck as (kv & -> & Hkat & Hkents & Hp4 & Hg4). rewrite decide_False by done.
  rewrite drop_drop in Hp4. cbn [Nat.add] in Hp4.
  destruct (val_alloc_plan _ _ _ opcode Hg4) as (val & h5 & -> & Cv). cbn [mbind outcome_bind]. rewrite Hp4 in Cv. fold nv in Cv.
  destruct (allocs_ok nv (drop 6 plan)) eqn:Hv; cbn [andb].
  2:{ destruct Cv as (Hnd & -> & lost & Hl & Hg5). rewrite decide_True by done.
    destruct (query_error_spec h0 bs h5 (Some kv) None p1 p2 p3 lost w (- ENOMEM) op Ho1 Ho2 Ho3 Hkat I Hl Hg5)
      as (h' & lost' & -> & Hl' & Hg').
    do 3 eexists. split; [done|]. right. split_and!; [done|done|]. by exists h', lost'. }
  destruct Cv as (Hvn & Hvat & Hp5 & Hvents & Hg5 & Hvlen). rewrite decide_False by tauto.
  rewrite drop_drop in Hp5.
  rewrite (ptr_blocks_some _ Hn1), (ptr_blocks_some _ Hn2), (ptr_blocks_some _ Hn3) in Hg5.
  destruct (attrs_query_launch_spec h0 bs opcode obj pp p2 p3 p1 kv val op h5 w o idx v Hop Hmacc Hown Hobj Hkvs Hput
    Ho1 Ho2 Ho3 Hn1 Hn2 Hn3 Hkat Hvat Hvn Hvents Hg5) as (rc & op' & w' & Hl & C).
  rewrite Hp5 in C. exists rc, op', w'. split; [exact Hl|]. set (np := (if decide (opcode = M0_IC_PUT) then 1 else 0)%nat) in *.
  assert (query_allocs opcode - 6 - nv = np + 1)%nat as -> by (unfold np, nv; by destruct opcode).
  destruct (allocs_ok (np + 1) (drop (6 + nv) plan)); [|exact C].
  destruct C as (-> & d & lost & h' & Hop' & Hw' & Hpl & Hll & Hg'). split; [done|].
  exists d, (MkAttrsArgs p3 p2 (Some kv) val obj), (lost ++ [p_blk p1]), h'. split_and!; try done.
  - eapply heap_grow_proper; [|exact Hg']. unfold args_blocks. simpl. solve_Permutation.
  - rewrite Hpl, drop_drop. fold plan. f_equal. unfold np, nv. by destruct opcode.
  - rewrite length_app, Hll. unfold np. by destruct (decide (opcode = M0_IC_PUT)).
  - unfold args_blocks. rewrite !length_app. cbn [aca_val]. rewrite Hvlen. unfold nv. by destruct (decide (opcode = M0_IC_DEL)).
Qed.
End Query.

(** ** Steps of an operation *)

Section Steps.
Context `{HostOrder} `{IoEnv} `{MotrObjects}.
Context (default_layout_id : Z) (obj_attrs_kvs : m0_uint128).

Definition has_cbs (op : obj_mop) : bool := mop_set_cbs op && mop_cb_complete op && mop_cb_failed op.

(** Linking [dop] in, as mio_driver_op_add() does. *)
Definition link (d : Z) (req : obj_req) (pp : option obj_pp) (op : obj_mop) : obj_mop :=
  set_chain (MkDop (MkPtr d 0) req None pp (has_cbs op) :: mop_drv_op_chain op) op.

(** The completion of an operation that has succeeded. *)
Lemma obj_complete_step fuel d req pp (op op' : obj_mop) w w' rc :
  ow_op_rc w = 0 → obj_pp_run pp (link d req (Some pp) op) w = Done (rc, op', w') →
  obj_complete (S fuel) (link d req (Some pp) op) w =
    if rc =? MIO_DRV_OP_NEXT then obj_complete fuel op' w' else Done (CbComplete, set_mop_rc 0 op', w').
Proof.
  intros Hrc Hpp. cbn [obj_complete]. rewrite Hrc. cbn [Z.eqb]. unfold motr_op_cb_complete.
  change (mop_drv_op_chain (link d req (Some pp) op)) with
    (MkDop (M:=obj_req) (A:=Empty_set) (MkPtr d 0) req None (Some pp) (has_cbs op) :: mop_drv_op_chain op).
  cbn [mdo_post_proc]. rewrite Hpp. cbn [mbind outcome_bind].
  by destruct (rc =? MIO_DRV_OP_NEXT).
Qed.

Lemma obj_complete_last fuel d req (op : obj_mop) w :
  ow_op_rc w = 0 → obj_complete (S fuel) (link d req None op) w = Done (CbComplete, set_mop_rc 0 (link d req None op), w).
Proof. intros Hrc. cbn [obj_complete]. by rewrite Hrc. Qed.

(** Finalising an operation releases its driver operations. *)
Definition chain_blocks (op : obj_mop) : list Z := (λ d, p_blk (mdo_mem d)) <$> mop_drv_op_chain op.
Definition chain_at (op : obj_mop) : Prop :=
  Forall (λ d, p_off (mdo_mem d) = 0 ∧ mdo_op_args d = None) (mop_drv_op_chain op).

Lemma obj_fini_spec h0 h bs (op : obj_mop) :
  chain_at op → heap_grow h0 h (chain_blocks op ++ bs) →
  ∃ h', mio_motr_op_fini no_op_args op h = Done (set_chain [] op, h') ∧ heap_grow h0 h' bs ∧ h_plan h' = h_plan h.
Proof.
  unfold chain_at, chain_blocks, mio_motr_op_fini. generalize (mop_drv_op_chain op). intros ds Hds.
  revert h. induction Hds as [|d ds [Ho Ha] Hds IH]; intros h Hg; cbn [op_fini_chain].
  - exists h. by split_and!.
  - rewrite Ha. cbn [mbind outcome_bind]. rewrite (ptr_eta _ Ho).
    destruct (heap_grow_free _ _ _ _ Hg) as (h1 & -> & Hg1 & Hp1 & _). cbn [mbind outcome_bind].
    destruct (IH h1 Hg1) as (h2 & Hf & Hg2 & Hp2). exists h2. rewrite Hf. split_and!; [done|done|congruence].
Qed.

(** From the launch to the finalisation. *)
Lemma obj_exec_done h0 bs start (op : obj_mop) w d req pp op1 w1 call op2 w2 :
  start op w = Done (0, link d req pp op1, w1) → has_cbs op1 = true →
  obj_complete OBJ_STEPS (link d req pp op1) w1 = Done (call, op2, w2) →
  chain_at op2 → heap_grow h0 (ow_heap w2) (chain_blocks op2 ++ bs) →
  ∃ h', obj_exec start op w = Done (0, Some call, set_oheap h' w2) ∧ heap_grow h0 h' bs ∧
    h_plan h' = h_plan (ow_heap w2).
Proof.
  intros Hs Hcb Hc Hat Hg. unfold obj_exec. rewrite Hs. cbn [mbind outcome_bind Z.ltb Z.compare].
  unfold link at 1. cbn [set_chain mop_drv_op_chain take existsb mdo_cbs]. rewrite Hcb. cbn [orb negb].
  rewrite Hc. cbn [mbind outcome_bind].
  destruct (obj_fini_spec _ _ _ _ Hat Hg) as (h' & -> & Hg' & Hp). exists h'. by split_and!.
Qed.

(** What Motr does with the operations on an object that exists. *)
Definition launched_ent (w : obj_world) (p : ptr) (o' : m0_obj) (s' : mobjs) : obj_world :=
  MkObjWorld (ow_heap w) (ow_handles w) (<[p_blk p := o']> (ow_cobjs w)) (ow_who w) s' (ow_index w) 0 (ow_reply w)
    (ow_locks w).

Lemma launch_open w p o :
  ow_cobjs w !! p_blk p = Some o → obj_exists (ow_motr w) (ob_id o) = true →
  ∃ s' o', obj_launch (EntityReq EntOpen p) w = launched_ent w p o' s' ∧ ob_id o' = ob_id o ∧
    ∀ id, obj_exists s' id = obj_exists (ow_motr w) id.
Proof.
  intros Ho Hex. unfold obj_launch. rewrite Ho. pose proof (m0_open_law _ _ Hex) as Hlaw.
  destruct (m0_entity_exec EntOpen o (ow_motr w)) as [[s' o'] rc]. destruct Hlaw as (-> & ? & ?). by exists s', o'.
Qed.

Lemma launch_create w p o pool :
  ow_cobjs w !! p_blk p = Some o → obj_exists (ow_motr w) (ob_id o) = false →
  ∃ s' o', obj_launch (EntityReq (EntCreate pool) p) w = launched_ent w p o' s' ∧ ob_id o' = ob_id o ∧
    obj_exists s' (ob_id o) = true ∧ ∀ id, id ≠ ob_id o → obj_exists s' id = obj_exists (ow_motr w) id.
Proof.
  intros Ho Hex. unfold obj_launch. rewrite Ho. pose proof (m0_create_obj_law _ _ pool Hex) as Hlaw.
  destruct (m0_entity_exec (EntCreate pool) o (ow_motr w)) as [[s' o'] rc]. destruct Hlaw as (-> & ? & ? & ?). by exists s', o'.
Qed.

Lemma launch_delete w p o :
  ow_cobjs w !! p_blk p = Some o → obj_exists (ow_motr w) (ob_id o) = true →
  ∃ s' o', obj_launch (EntityReq EntDelete p) w = launched_ent w p o' s' ∧ ob_id o' = ob_id o ∧
    obj_exists s' (ob_id o) = false ∧ ∀ id, id ≠ ob_id o → obj_exists s' id = obj_exists (ow_motr w) id.
Proof.
  intros Ho Hex. unfold obj_launch. rewrite Ho. pose proof (m0_delete_obj_law _ _ Hex) as Hlaw.
  destruct (m0_entity_exec EntDelete o (ow_motr w)) as [[s' o'] rc]. destruct Hlaw as (-> & ? & ? & ?). by exists s', o'.
Qed.

(** And with the queries of an attribute index that exists. *)
Definition launched_attrs (w : obj_world) (s' : mindex) (r : m0_reply) : obj_world :=
  MkObjWorld (ow_heap w) (ow_handles w) (ow_cobjs w) (ow_who w) (ow_motr w) s' 0 r (ow_locks w).

Definition attr_buf (v : option (list Z)) : bufent := match v with Some v => ent v | None => (0, None) end.

Lemma launch_attrs_get w idx oid m v :
  index_at (ow_index w) idx = Some m →
  ∃ s' r, obj_launch (AttrsReq (attrs_req M0_IC_GET idx oid v)) w = launched_attrs w s' r ∧
    rep_vals r = [attr_buf (m !! attrs_key oid)] ∧ ∀ id, index_at s' id = index_at (ow_index w) id.
Proof.
  intros Hm. unfold obj_launch. pose proof (m0_get_law _ _ _ [attrs_key oid] [(0, None)] Hm) as Hlaw.
  change (attrs_req M0_IC_GET idx oid v) with (IdxOp M0_IC_GET idx (ent <$> [attrs_key oid]) [(0, None)] 0).
  destruct (m0_req_exec _ _) as [s' r]. destruct Hlaw as (Hs & _ & Hv & Hi). exists s', r.
  rewrite (m0_idx_op_rc_law _ Hs). by split_and!.
Qed.

Lemma launch_attrs_del w idx oid m v :
  index_at (ow_index w) idx = Some m →
  ∃ s' r, obj_launch (AttrsReq (attrs_req M0_IC_DEL idx oid v)) w = launched_attrs w s' r ∧
    index_at s' idx = Some (delete (attrs_key oid) m) ∧ ∀ id, id ≠ idx → index_at s' id = index_at (ow_index w) id.
Proof.
  intros Hm. unfold obj_launch. pose proof (m0_del_law _ _ _ [attrs_key oid] Hm (NoDup_singleton _)) as Hlaw.
  change (attrs_req M0_IC_DEL idx oid v) with (IdxOp M0_IC_DEL idx (ent <$> [attrs_key oid]) [] 0).
  destruct (m0_req_exec _ _) as [s' r]. destruct Hlaw as (Hs & _ & Hv & Hi). exists s', r.
  rewrite (m0_idx_op_rc_law _ Hs). by split_and!.
Qed.

Lemma launch_attrs_put w idx oid m v :
  index_at (ow_index w) idx = Some m →
  ∃ s' r, obj_launch (AttrsReq (attrs_req M0_IC_PUT idx oid v)) w = launched_attrs w s' r ∧
    index_at s' idx = Some (<[attrs_key oid := v]> m) ∧ ∀ id, id ≠ idx → index_at s' id = index_at (ow_index w) id.
Proof.
  intros Hm. unfold obj_launch. pose proof (m0_overwrite_law _ _ _ (attrs_key oid) v Hm) as Hlaw.
  change (attrs_req M0_IC_PUT idx oid v) with (IdxOp M0_IC_PUT idx [ent (attrs_key oid)] [ent v] M0_OIF_OVERWRITE).
  destruct (m0_req_exec _ _) as [s' r]. destruct Hlaw as (Hs & Hv & Hi). exists s', r.
  rewrite (m0_idx_op_rc_law _ Hs). by split_and!.
Qed.
End Steps.

(** ** Opening and creating *)

Section Open.
Context `{HostOrder} `{IoEnv} `{MotrObjects}.
Context (default_layout_id : Z).

(** The world of an object [o] at [obj] whose Motr object at [p] was
    initialised, and released again. *)
Definition with_cobj (h : heap) (obj p : ptr) (o : obj_handle) (w : obj_world) : obj_world :=
  set_oheap h (obj_put obj (set_oh_drv p o)
    (cobj_init default_layout_id p (mio__obj_id_to_uint128 (mo_id (oh_obj o))) w)).

Lemma cobj_fini_free h0 bs bs' p c w :
  heap_grow h0 (ow_heap w) bs → bs ≡ₚ p_blk p :: bs' → p ≠ NULL → p_off p = 0 → ow_cobjs w !! p_blk p = Some c →
  ∃ h', (w ← m0_obj_fini p w; ow_free p w) = Done (set_oheap h' (set_cobjs (delete (p_blk p) (ow_cobjs w)) w)) ∧
    heap_grow h0 h' bs' ∧ blk_live h' (p_blk p) = false ∧ h_plan h' = h_plan (ow_heap w).
Proof.
  intros Hg Hp Hn Ho Hc. unfold m0_obj_fini, cobj_at.
  rewrite (deref_owned _ h0 bs p c w Hg); [|split; [done|left; rewrite Hp; left]|done]. cbn [mbind outcome_bind].
  unfold ow_free. cbn [ow_heap set_cobjs]. rewrite (ptr_eta _ Ho).
  destruct (heap_grow_free_in _ _ _ _ _ Hg Hp) as (h' & -> & Hg' & Hpl & Hb). cbn [mbind outcome_bind].
  exists h'. split_and!; [done|done| |done]. apply bool_decide_false. cbn [p_blk]. rewrite Hb, lookup_delete_eq. by intros [].
Qed.

Lemma outcome_fini_free p w (k : obj_world → outcome (Z * obj_mop * obj_world)) :
  (w ← m0_obj_fini p w; w ← ow_free p w; k w) = (w ← (w ← m0_obj_fini p w; ow_free p w); k w).
Proof. by rewrite outcome_bind_assoc. Qed.

Lemma obj_open_create_spec h0 bs e fails pp obj (op : obj_mop) w o :
  motr_accepts → fails 0 = false → heap_grow h0 (ow_heap w) bs → owned h0 bs obj →
  ow_handles w !! p_blk obj = Some o → let plan := h_plan (ow_heap w) in
  ∃ rc op' w', obj_open_create default_layout_id e fails pp obj op w = Done (rc, op', w') ∧
    if negb (hd true plan) then rc = - ENOMEM ∧ ∃ h', w' = set_oheap h' w ∧ heap_grow h0 h' bs
    else ∃ b h', MkPtr b 0 ≠ NULL ∧
      if negb (hd true (tail plan)) then
        rc = - ENOMEM ∧ heap_grow h0 h' bs ∧ blk_live h' b = false ∧
        ow_handles w' = <[p_blk obj := set_oh_drv (MkPtr b 0) o]> (ow_handles w) ∧
        ow_heap w' = h' ∧ ow_motr w' = ow_motr w ∧ ow_index w' = ow_index w
      else rc = 0 ∧ ∃ d, op' = link d (EntityReq e (MkPtr b 0)) pp op ∧ heap_grow h0 h' (d :: b :: bs) ∧
        h_plan h' = drop 2 plan ∧
        w' = obj_launch (EntityReq e (MkPtr b 0)) (with_cobj h' obj (MkPtr b 0) o w).
Proof.
  intros (_ & Hacc & _) Hf Hg Hown Hobj plan. unfold obj_open_create.
  destruct (heap_grow_alloc_plan _ _ _ sizeof_m0_object Hg) as (p & h1 & -> & Hp1 & C). fold plan in Hp1, C.
  destruct (hd true plan); cbn [negb].
  2:{ destruct C as (-> & Hg1 & _). rewrite decide_True by done. do 3 eexists. split; [done|]. split; [done|]. by exists h1. }
  destruct C as (b & -> & Hn & _ & Hg1 & _). rewrite decide_False by done.
  unfold obj_at. rewrite (deref_owned _ h0 (b :: bs) obj o (set_oheap h1 w) Hg1);
    [|by eapply owned_mono; [|done]; set_solver|done]. cbn [mbind outcome_bind].
  set (id := mio__obj_id_to_uint128 (mo_id (oh_obj o))).
  unfold cobj_at. rewrite (deref_owned _ h0 (b :: bs) (MkPtr b 0) (m0_obj_init id default_layout_id)
    (cobj_init default_layout_id (MkPtr b 0) id (set_oheap h1 w)) Hg1); [|split; [done|left; left]|apply lookup_insert_eq]. cbn [mbind outcome_bind].
  rewrite Hacc, Hf.
  destruct (obj_op_add_plan h0 (b :: bs) pp (EntityReq e (MkPtr b 0)) op
    (with_cobj h1 obj (MkPtr b 0) o w) Hg1) as (rc & op' & h2 & Hadd & Hp2 & C2).
  unfold with_cobj in Hadd, Hp2, C2. cbn [ow_heap set_oheap] in Hp2, C2. rewrite Hp1 in Hp2, C2.
  match goal with |- context [obj_op_add pp ?r op ?w1] =>
    change (obj_op_add pp r op w1) with (obj_op_add pp r op (with_cobj h1 obj (MkPtr b 0) o w)) end.
  unfold with_cobj. rewrite Hadd. destruct (hd true (tail plan)); cbn [negb].
  - destruct C2 as (d & -> & Hg2 & ->). cbn [Z.ltb Z.compare]. do 3 eexists. split; [done|].
    exists b, h2. split; [done|]. split; [done|]. exists d. split_and!; [done|done| |done].
    by rewrite Hp2, !tail_drop, drop_drop.
  - destruct C2 as (-> & -> & Hg2). change (- ENOMEM <? 0) with true. cbn iota. rewrite outcome_fini_free.
    destruct (cobj_fini_free h0 (b :: bs) bs (MkPtr b 0) (m0_obj_init id default_layout_id)
      (with_cobj h2 obj (MkPtr b 0) o w) Hg2) as (h3 & Hff & Hg3 & Hdead & _); [done|done|done|apply lookup_insert_eq|].
    match goal with |- context [m0_obj_fini ?q ?w1] =>
      change (m0_obj_fini q w1) with (m0_obj_fini q (with_cobj h2 obj (MkPtr b 0) o w)) end.
    rewrite Hff. cbn [mbind outcome_bind]. do 3 eexists. split; [done|]. exists b, h3. by split_and!.
Qed.

(** What reading the stored attributes makes of an object. *)
Definition load_attrs (x : mio_obj) (v : option (list Z)) : outcome mio_obj :=
  match v with
  | None | Some [] => Done x
  | Some v => '(_, x) ← motr_obj_attrs_wire2mem x (Z.of_nat (length v)) v; Done x
  end.

Lemma get_pp_spec h0 bs bs' a (op : obj_mop) w o v x :
  heap_grow h0 (ow_heap w) bs' → bs' ≡ₚ args_blocks a ++ bs → args_at a → owned h0 bs (aca_to a) →
  ow_handles w !! p_blk (aca_to a) = Some o → rep_vals (ow_reply w) = [attr_buf v] →
  load_attrs (oh_obj o) v = Done x →
  ∃ h', motr_obj_attrs_get_pp a op w =
      Done (MIO_DRV_OP_FINAL, op, set_oheap h' (obj_put (aca_to a) (set_oh_obj x o) w)) ∧
    heap_grow h0 h' bs ∧ h_plan h' = h_plan (ow_heap w).
Proof.
  intros Hg Hp Ha Hown Ho Hv Hx. unfold motr_obj_attrs_get_pp. rewrite Hv. cbn [hd].
  assert (Hload : (let '(count, buf) := attr_buf v in
    if count =? 0 then Done w else
      match buf with
      | None => Fault NullDeref
      | Some bytes => o ← obj_at (aca_to a) w;
          '(_, x) ← motr_obj_attrs_wire2mem (oh_obj o) count bytes;
          Done (obj_put (aca_to a) (set_oh_obj x o) w)
      end) = Done (obj_put (aca_to a) (set_oh_obj x o) w)).
  { assert (Hid : obj_put (aca_to a) (set_oh_obj (oh_obj o) o) w = w).
    { destruct w as [? hs]. unfold obj_put, set_handles. cbn in Ho |- *. f_equal.
      destruct o. by rewrite insert_id. }
    destruct v as [[|z v]|]; cbn [attr_buf ent length Z.of_nat Z.eqb]; simpl in Hx;
      [injection Hx as <-; by rewrite Hid| |injection Hx as <-; by rewrite Hid].
    assert (Hown' : owned h0 bs' (aca_to a)).
    { eapply owned_mono; [|exact Hown]. intros y Hy. rewrite Hp. set_solver. }
    unfold obj_at. rewrite (deref_owned _ h0 bs' _ o w Hg Hown' Ho).
    cbn [mbind outcome_bind]. change (S (length v)) with (length (z :: v)) in Hx |- *.
    apply outcome_bind_Done in Hx as ([rc x'] & Hw & [= ->]).
    change (Z.pos (Pos.of_succ_nat (length v))) with (Z.of_nat (length (z :: v))). by rewrite Hw. }
  destruct (attr_buf v) as [count buf]. rewrite Hload. cbn [mbind outcome_bind].
  exact (attrs_free_spec h0 bs bs' a op (obj_put (aca_to a) (set_oh_obj x o) w) Hg Hp Ha).
Qed.

(** The post-processing of an opened object, from the launch of the opening on. *)
Lemma obj_complete_open h0 bs d b obj (op : obj_mop) w o idx m x :
  motr_accepts → has_cbs op = true → mop_drv_op_chain op = [] → ow_op_rc w = 0 → ow_who w = obj →
  heap_grow h0 (ow_heap w) (d :: b :: bs) → owned h0 bs obj → ow_handles w !! p_blk obj = Some o →
  oh_md_kvs o = Some idx → index_at (ow_index w) idx = Some m →
  load_attrs (oh_obj o) (m !! attrs_key (mo_id (oh_obj o))) = Done x →
  let ok := allocs_ok 10 (h_plan (ow_heap w)) in
  ∃ op' w' lost, obj_complete OBJ_STEPS (link d (EntityReq EntOpen (MkPtr b 0)) (Some PpObjOpen) op) w =
      Done (CbComplete, op', w') ∧
    chain_at op' ∧ heap_grow h0 (ow_heap w') (chain_blocks op' ++ b :: lost ++ bs) ∧
    (if ok then length lost = 1%nat ∧ h_plan (ow_heap w') = drop 10 (h_plan (ow_heap w)) else (length lost <= 2)%nat) ∧
    (∀ id, index_at (ow_index w') id = index_at (ow_index w) id) ∧ ow_motr w' = ow_motr w ∧
    ow_cobjs w' = ow_cobjs w ∧
    ow_handles w' = <[p_blk obj := if ok then set_oh_obj x o else o]> (ow_handles w).
Proof.
  intros Hmacc Hcb Hch Hrc Hwho Hg Hown Hobj Hkvs Hidx Hx ok. unfold OBJ_STEPS.
  assert (Hown' : owned h0 (d :: b :: bs) obj) by (eapply owned_mono; [|done]; set_solver).
  destruct (attrs_query_spec h0 _ M0_IC_GET obj PpAttrsGet (link d (EntityReq EntOpen (MkPtr b 0)) (Some PpObjOpen) op) w o idx []
    ltac:(done) Hmacc Hg Hown' Hobj Hkvs ltac:(done)) as (rc & op1 & w1 & Hq & C).
  assert (Hpp : obj_pp_run PpObjOpen (link d (EntityReq EntOpen (MkPtr b 0)) (Some PpObjOpen) op) w =
    Done (if rc <? 0 then rc else MIO_DRV_OP_NEXT, op1, w1)).
  { cbn [obj_pp_run]. unfold motr_obj_open_pp. rewrite Hrc, Hwho. cbn [Z.ltb Z.compare]. by rewrite Hq. }
  rewrite (obj_complete_step _ _ _ _ _ _ _ _ _ Hrc Hpp). cbn [query_allocs] in C. fold ok in C.
  destruct ok; cycle 1.
  - destruct C as [?|(Hneg & -> & h' & lost & -> & Hl & Hg')]; [done|].
    rewrite (proj2 (Z.ltb_lt _ _)), (proj2 (Z.eqb_neq _ _)) by (unfold MIO_DRV_OP_NEXT; lia).
    do 2 eexists. exists lost. split; [done|]. unfold chain_at, chain_blocks. cbn. rewrite Hch. cbn.
    split_and!; try done; [by repeat constructor| |by rewrite insert_id].
    eapply heap_grow_proper; [|exact Hg']. solve_Permutation.
  - destruct C as (-> & d2 & a & lost & h' & Hop1 & -> & Hg' & Ha & Hto & Hpl & Hl & _). cbn [Z.ltb Z.compare Z.eqb].
    change (MIO_DRV_OP_NEXT =? MIO_DRV_OP_NEXT) with true. cbn iota. rewrite Hop1.
    destruct (launch_attrs_get (set_oheap h' w) idx (mo_id (oh_obj o)) m [] Hidx) as (s' & r & -> & Hvals & Hi).
    assert (Hg2 : heap_grow h0 h' (d2 :: args_blocks a ++ lost ++ d :: b :: bs)) by exact Hg'.
    subst obj. destruct (get_pp_spec h0 (d2 :: lost ++ d :: b :: bs) _ a op1 (launched_attrs (set_oheap h' w) s' r) o
      (m !! attrs_key (mo_id (oh_obj o))) x Hg2) as (h2 & Hgp & Hg3 & Hpl2); try done.
    { solve_Permutation. }
    { eapply owned_mono; [|by rewrite Hto]. set_solver. }
    { by rewrite Hto. }
    rewrite Hop1 in Hgp.
    match type of Hop1 with _ = set_chain (MkDop _ ?rq _ _ _ :: _) ?l =>
      change (set_chain _ l) with (link d2 rq (Some (PpAttrsGet a)) l);
      rewrite (obj_complete_step 1 d2 rq (PpAttrsGet a) l _ (launched_attrs (set_oheap h' w) s' r) _ _ eq_refl Hgp) end.
    change (MIO_DRV_OP_FINAL =? MIO_DRV_OP_NEXT) with false. cbn iota.
    do 2 eexists. exists lost. split; [done|]. unfold chain_at, chain_blocks. cbn. rewrite Hch. cbn.
    split_and!; try done; [by repeat constructor| | |by rewrite Hto].
    + eapply heap_grow_proper; [|exact Hg3]. solve_Permutation.
    + cbn in Hpl2. by rewrite Hpl2, Hpl.
Qed.

(** An object that Motr has and an operation that can be called back on. *)
Definition obj_ready (obj : ptr) (o : obj_handle) (idx : m0_uint128) (m : gmap (list Z) (list Z)) (w : obj_world) : Prop :=
  obj ≠ NULL ∧ blk_live (ow_heap w) (p_blk obj) = true ∧ ow_handles w !! p_blk obj = Some o ∧
  oh_md_kvs o = Some idx ∧ index_at (ow_index w) idx = Some m ∧
  obj_exists (ow_motr w) (mio__obj_id_to_uint128 (mo_id (oh_obj o))) = true.

Definition op_ready (op : obj_mop) : Prop := mop_drv_op_chain op = [] ∧ has_cbs op = true.

Lemma set_oheap_handles h w : ow_handles (set_oheap h w) = ow_handles w.
Proof. done. Qed.

(** Opening when the first two allocations succeed. *)
Lemma obj_open_spec h0 bs obj (op : obj_mop) w o idx m x :
  motr_accepts → op_ready op → obj_ready obj o idx m w → heap_grow h0 (ow_heap w) bs → owned h0 bs obj → ow_who w = obj →
  load_attrs (oh_obj o) (m !! attrs_key (mo_id (oh_obj o))) = Done x → allocs_ok 2 (h_plan (ow_heap w)) = true →
  let ok := allocs_ok 12 (h_plan (ow_heap w)) in
  ∃ w' b c lost, obj_exec (mio_motr_obj_open default_layout_id obj) op w = Done (0, Some CbComplete, w') ∧
    (∀ id, obj_exists (ow_motr w') id = obj_exists (ow_motr w) id) ∧
    (∀ id, index_at (ow_index w') id = index_at (ow_index w) id) ∧
    ow_handles w' = <[p_blk obj := set_oh_drv (MkPtr b 0) (if ok then set_oh_obj x o else o)]> (ow_handles w) ∧
    ow_cobjs w' !! b = Some c ∧ ob_id c = mio__obj_id_to_uint128 (mo_id (oh_obj o)) ∧
    heap_grow h0 (ow_heap w') (b :: lost ++ bs) ∧ (if ok then length lost = 1%nat else (length lost <= 2)%nat).
Proof.
  intros Hmacc [Hch Hcb] (Hn & Hlive & Hobj & Hkvs & Hidx & Hex) Hg Hown Hwho Hx Hok2 ok.
  destruct (obj_open_create_spec h0 bs EntOpen (λ rc, negb (rc =? 0)) (Some PpObjOpen) obj op w o Hmacc eq_refl Hg Hown Hobj)
    as (rc & op1 & w1 & Hs & C).
  cbn [allocs_ok] in Hok2. apply andb_true_iff in Hok2 as [Hb1 [Hb2 _]%andb_true_iff].
  rewrite Hb1, Hb2 in C. cbn [negb] in C. destruct C as (b & h1 & Hnb & -> & d & -> & Hg1 & Hpl1 & ->).
  set (w1 := with_cobj h1 obj (MkPtr b 0) o w) in *.
  destruct (launch_open w1 (MkPtr b 0) (m0_obj_init (mio__obj_id_to_uint128 (mo_id (oh_obj o))) default_layout_id))
    as (s' & c & Hl & Hcid & Hexs); [apply lookup_insert_eq|by rewrite m0_obj_init_law|].
  rewrite m0_obj_init_law in Hcid. rewrite Hl in Hs.
  destruct (obj_complete_open h0 bs d b obj op (launched_ent w1 (MkPtr b 0) c s') (set_oh_drv (MkPtr b 0) o) idx m x)
    as (op2 & w2 & lost & Hc & Hat & Hg2 & Hlost & Hi & Hm & Hcob & Hh); try done.
  { apply lookup_insert_eq. }
  destruct (obj_exec_done h0 (b :: lost ++ bs) (mio_motr_obj_open default_layout_id obj) op w d _ _ op _ _ _ _ Hs Hcb Hc Hat Hg2)
    as (h3 & Hexec & Hg3 & Hpl3).
  assert (Hok : allocs_ok 10 (h_plan (ow_heap (launched_ent w1 (MkPtr b 0) c s'))) = ok).
  { cbn. rewrite Hpl1. transitivity (allocs_ok (2 + 10) (h_plan (ow_heap w))); [|done].
    rewrite allocs_ok_add. symmetry. cbn [allocs_ok]. by rewrite Hb1, Hb2. }
  rewrite Hok in Hlost, Hh. exists (set_oheap h3 w2), b, c, lost. split; [exact Hexec|].
  cbn [ow_motr ow_index ow_handles ow_cobjs ow_heap set_oheap].
  split_and!; [by rewrite Hm| done| |by rewrite Hcob; apply lookup_insert_eq|done|done|by destruct ok; [destruct Hlost|]].
  rewrite Hh. cbn [launched_ent ow_handles w1 with_cobj set_oheap obj_put set_handles cobj_init set_cobjs].
  rewrite insert_insert_eq. by destruct ok.
Qed.

(** (C12) Opening an object, whichever call of malloc() fails.  If there is no
    memory for Motr's object nothing happens; if there is none for the driver
    operation everything is released, but the object keeps a pointer to the
    released memory, and asking for its pool or closing it uses that memory.
    Otherwise the opening is reported as complete; the stored size, statistics
    and hints have then been read if the ten allocations of the second step
    succeed, and silently not been read if one of them fails.  Each opening
    loses the memory of the object id. *)
Theorem mio_motr_obj_open_correct (obj : ptr) (op : obj_mop) (w : obj_world) (o : obj_handle) (idx : m0_uint128)
    (m : gmap (list Z) (list Z)) (x : mio_obj)
  (Hmotr : motr_accepts) (Hop : op_ready op) (Hheap : heap_ok (ow_heap w)) (Hobj : obj_ready obj o idx m w)
  (Hwho : ow_who w = obj) (Hload : load_attrs (oh_obj o) (m !! attrs_key (mo_id (oh_obj o))) = Done x) :
  let plan := h_plan (ow_heap w) in
  ∃ rc call w', obj_exec (mio_motr_obj_open default_layout_id obj) op w = Done (rc, call, w') ∧
    (∀ id, obj_exists (ow_motr w') id = obj_exists (ow_motr w) id) ∧
    (∀ id, index_at (ow_index w') id = index_at (ow_index w) id) ∧
    if negb (allocs_ok 2 plan) then
      rc = - ENOMEM ∧ call = None ∧ h_blocks (ow_heap w') = h_blocks (ow_heap w) ∧
      if negb (allocs_ok 1 plan) then ow_handles w' = ow_handles w
      else mio_motr_obj_pool_id obj w' = Fault UseAfterFree ∧
        (mo_attrs_updated (oh_obj o) = false → mio_motr_obj_close obj w' = Fault UseAfterFree)
    else rc = 0 ∧ call = Some CbComplete ∧
      let ok := allocs_ok 12 plan in
      ∃ b c lost, ow_handles w' = <[p_blk obj := set_oh_drv (MkPtr b 0) (if ok then set_oh_obj x o else o)]> (ow_handles w) ∧
        ow_cobjs w' !! b = Some c ∧ ob_id c = mio__obj_id_to_uint128 (mo_id (oh_obj o)) ∧
        heap_grow (ow_heap w) (ow_heap w') (b :: lost) ∧ (if ok then length lost = 1%nat else (length lost <= 2)%nat).
Proof.
  intros plan. pose proof Hobj as (Hn & Hlive & Hh & Hkvs & Hidx & Hex).
  assert (Hg0 : heap_grow (ow_heap w) (ow_heap w) []) by by apply heap_grow_refl.
  assert (Hown : owned (ow_heap w) [] obj) by (split; [done|by right]).
  destruct (allocs_ok 2 plan) eqn:Hok2; cbn [negb].
  { destruct (obj_open_spec _ _ obj op w o idx m x Hmotr Hop Hobj Hg0 Hown Hwho Hload Hok2)
      as (w' & b & c & lost & ? & ? & ? & ? & ? & ? & Hg & ?). rewrite app_nil_r in Hg.
    exists 0, (Some CbComplete), w'. do 3 (split; [done|]). do 2 (split; [done|]). exists b, c, lost. by split_and!. }
  destruct (obj_open_create_spec _ _ EntOpen (λ rc, negb (rc =? 0)) (Some PpObjOpen) obj op w o Hmotr eq_refl Hg0 Hown Hh)
    as (rc & op1 & w1 & Hs & C). fold plan in C.
  assert (Hexec : rc < 0 → obj_exec (mio_motr_obj_open default_layout_id obj) op w = Done (rc, None, w1)).
  { intros Hneg. unfold obj_exec, mio_motr_obj_open. rewrite Hs. cbn [mbind outcome_bind].
    by rewrite (proj2 (Z.ltb_lt _ _)). }
  exists rc, None, w1. cbn [allocs_ok] in Hok2 |- *. destruct (hd true plan); cbn [negb andb] in *.
  2:{ destruct C as (-> & h' & -> & Hg). split; [by apply Hexec|]. by split_and!; try apply heap_grow_nil. }
  destruct C as (b & h' & Hnb & C). rewrite andb_true_r in Hok2. rewrite Hok2 in C. cbn [negb] in C.
  destruct C as (-> & Hg & Hdead & Hhs & Hhp & Hm & Hi). split; [by apply Hexec|].
  split_and!; [by rewrite Hm|by rewrite Hi|done|done|rewrite Hhp; by apply heap_grow_nil| |].
  - unfold mio_motr_obj_pool_id, obj_at.
    rewrite (deref_owned _ _ _ obj (set_oh_drv (MkPtr b 0) o) w1 ltac:(by rewrite Hhp) Hown) by (rewrite Hhs; apply lookup_insert_eq).
    cbn [mbind outcome_bind oh_drv set_oh_drv]. rewrite decide_False by done. unfold cobj_at, deref.
    rewrite decide_False by done. rewrite Hhp. cbn [p_blk]. by rewrite Hdead.
  - intros Hupd. unfold mio_motr_obj_close, obj_at.
    rewrite (deref_owned _ _ _ obj (set_oh_drv (MkPtr b 0) o) w1 ltac:(by rewrite Hhp) Hown) by (rewrite Hhs; apply lookup_insert_eq).
    cbn [mbind outcome_bind oh_drv oh_obj set_oh_drv]. rewrite Hupd. cbn [mbind outcome_bind].
    unfold m0_obj_fini, cobj_at, deref. rewrite decide_False by done. rewrite Hhp. cbn [p_blk]. by rewrite Hdead.
Qed.
End Open.

(** ** Storing the attributes *)

Section Store.
Context `{HostOrder} `{IoEnv} `{MotrObjects}.
Context (default_layout_id : Z).

(** What an object must be for its attributes to be stored. *)
Definition attrs_storable (x : mio_obj) : Prop :=
  attrs_ok (mo_attrs x) ∧ hint_map_wf (moa_phints (mo_attrs x)) ∧
  hints_in_range (hint_entries (moa_phints (mo_attrs x))) ∧
  mhm_nr_set (moa_phints (mo_attrs x)) <= MIO_OBJ_HINT_NUM.

Definition stored_attrs (x : mio_obj) : list Z :=
  wire_bytes (mo_attrs x) (hint_entries (moa_phints (mo_attrs x))).

Lemma mem2wire_stored x p :
  attrs_storable x → hd true p = true →
  ∃ p', motr_obj_attrs_mem2wire x p = Done (0, Some (Z.of_nat (length (stored_attrs x)), stored_attrs x), p').
Proof.
  intros (_ & Hwf & _ & Hn) Hp. destruct p as [|[] p]; [exists []|exists p|done].
  - exact (mem2wire_spec x [] Hwf Hn).
  - exact (mem2wire_spec x p Hwf Hn).
Qed.

(** Storing: the pair of the object is overwritten, and nothing is released. *)
Lemma hint_store_spec h0 bs obj w o idx m :
  motr_accepts → heap_grow h0 (ow_heap w) bs → owned h0 bs obj → ow_handles w !! p_blk obj = Some o →
  oh_md_kvs o = Some idx → index_at (ow_index w) idx = Some m → attrs_storable (oh_obj o) →
  allocs_ok 11 (h_plan (ow_heap w)) = true →
  ∃ h' s' r lost, mio_motr_obj_hint_store obj w = Done (0, launched_attrs (set_oheap h' w) s' r) ∧
    index_at s' idx = Some (<[attrs_key (mo_id (oh_obj o)) := stored_attrs (oh_obj o)]> m) ∧
    (∀ id, id ≠ idx → index_at s' id = index_at (ow_index w) id) ∧
    heap_grow h0 h' (lost ++ bs) ∧ length lost = 11%nat ∧ h_plan h' = drop 11 (h_plan (ow_heap w)).
Proof.
  intros Hmacc Hg Hown Hobj Hkvs Hidx Hst Hok. unfold mio_motr_obj_hint_store, motr_obj_attrs_update_sync.
  destruct (attrs_query_spec h0 bs M0_IC_PUT obj PpAttrsFree sync_mop w o idx (stored_attrs (oh_obj o)))
    as (rc & op' & w' & -> & C); try done; [intros _ p Hp; by apply mem2wire_stored|].
  cbn [query_allocs] in C. rewrite Hok in C.
  destruct C as (-> & d & a & lost & h' & -> & -> & Hg' & _ & _ & Hpl & Hl & Hla).
  destruct (launch_attrs_put (set_oheap h' w) idx (mo_id (oh_obj o)) m (stored_attrs (oh_obj o)) Hidx) as (s' & r & -> & Hi & Ho).
  cbn [mbind outcome_bind Z.ltb Z.compare]. destruct Hmacc as (_ & _ & ->). cbn [elvis Z.eqb mbind outcome_bind].
  exists h', s', r, (d :: args_blocks a ++ lost). split_and!; [done|done|done| | |done].
  - eapply heap_grow_proper; [|exact Hg']. solve_Permutation.
  - cbn [length]. rewrite length_app, Hl, Hla. done.
Qed.

(** One handle stores the attributes, another one opens the object. *)
Definition store_open (src dst : ptr) (op : obj_mop) (w : obj_world)
  : outcome (Z * Z * option app_call * obj_world) :=
  '(rc1, w) ← mio_motr_obj_hint_store src w;
  '(rc2, call, w) ← obj_exec (mio_motr_obj_open default_layout_id dst) op (set_who dst w);
  Done (rc1, rc2, call, w).

(** (C10) What is stored is what the next opening sees.  For two handles of an
    object that Motr has, whichever attributes were stored before: when the first
    one stores its attributes and the second one opens the object, both succeed,
    and the second has the size, the statistics and - if there are any - the
    persistent hints of the first, in order; otherwise it keeps its hints.
    Storing loses eleven blocks of memory and opening one, besides Motr's
    object. *)
Theorem mio_motr_obj_store_open_roundtrip (src dst : ptr) (op : obj_mop) (w : obj_world) (o1 o2 : obj_handle)
    (idx : m0_uint128) (m : gmap (list Z) (list Z))
  (Hmotr : motr_accepts) (Hop : op_ready op) (Hheap : heap_ok (ow_heap w)) (Hplan : h_plan (ow_heap w) = [])
  (Hsrc : obj_ready src o1 idx m w) (Hdst : obj_ready dst o2 idx m w) (Hid : mo_id (oh_obj o1) = mo_id (oh_obj o2))
  (Hst : attrs_storable (oh_obj o1)) (Hhints : hint_map_wf (mo_hints (oh_obj o2)))
  (Hcap : mhm_nr_entries (mo_hints (oh_obj o2)) = MIO_OBJ_HINT_NUM) :
  let a := mo_attrs (oh_obj o1) in
  let l := hint_entries (moa_phints a) in
  ∃ w' x b lost, store_open src dst op w = Done (0, 0, Some CbComplete, w') ∧
    ow_handles w' !! p_blk dst = Some (MkHandle x (Some idx) (MkPtr b 0) (oh_lock o2)) ∧
    moa_size (mo_attrs x) = moa_size a ∧ moa_stats (mo_attrs x) = moa_stats a ∧
    (if decide (l = []) then mo_hints x = mo_hints (oh_obj o2)
     else hint_map_wf (mo_hints x) ∧ hint_entries (mo_hints x) = l) ∧
    index_at (ow_index w') idx = Some (<[attrs_key (mo_id (oh_obj o1)) := stored_attrs (oh_obj o1)]> m) ∧
    heap_grow (ow_heap w) (ow_heap w') (b :: lost) ∧ length lost = 12%nat.
Proof.
  intros a l. destruct Hsrc as (Hn1 & Hl1 & Hh1 & Hk1 & Hi1 & He1), Hdst as (Hn2 & Hl2 & Hh2 & Hk2 & Hi2 & He2).
  destruct (hint_store_spec (ow_heap w) [] src w o1 idx m) as (h1 & s1 & r1 & lost1 & Hs1 & Hidx1 & _ & Hg1 & Hlen1 & Hpl1);
    try done; [by apply heap_grow_refl|split; [done|by right]|by rewrite Hplan|].
  rewrite app_nil_r in Hg1. rewrite Hplan, drop_nil in Hpl1.
  destruct Hst as (Hat & Hwf & Hr & Hn), Hwf as (pk & pv & Hrep).
  destruct Hhints as (ks & vs & Hrep2).
  destruct (wire2mem_spec (oh_obj o2) a l ks vs) as (x & Hw & Hsz & Hsts & _ & Hhs); try done.
  { by apply (rep_entries_nodup _ _ _ Hrep). }
  { unfold l, a. rewrite (rep_entries_length _ _ _ Hrep), (rep_nr_set _ _ _ Hrep). done. }
  set (w1 := set_who dst (launched_attrs (set_oheap h1 w) s1 r1)).
  assert (Hlive : blk_live h1 (p_blk dst) = true) by by eapply heap_grow_live_old.
  destruct (obj_open_spec default_layout_id (ow_heap w) lost1 dst op w1 o2 idx
    (<[attrs_key (mo_id (oh_obj o1)) := stored_attrs (oh_obj o1)]> m) x) as
    (w2 & b & c & lost & Hex & _ & Hi & Hh & _ & _ & Hg2 & Hlost); try done.
  { split; [done|by right]. }
  { rewrite Hid, lookup_insert_eq. unfold load_attrs, stored_attrs.
    assert (Hnil : wire_bytes (mo_attrs (oh_obj o1)) l ≠ []).
    { intros Heq. pose proof (length_wire_bytes (mo_attrs (oh_obj o1)) l) as Hlen. rewrite Heq in Hlen. simpl in Hlen. lia. }
    fold a in Hnil |- *. fold l. destruct (wire_bytes a l) as [|z lz]; [done|]. cbn iota. rewrite Hw. done. }
  { cbn. by rewrite Hpl1. }
  assert (Hok : allocs_ok 12 (h_plan (ow_heap w1)) = true) by (cbn [w1 set_who launched_attrs ow_heap set_oheap]; by rewrite Hpl1).
  rewrite Hok in Hh, Hlost.
  exists w2, x, b, (lost ++ lost1). split; [|split_and!; try done].
  - unfold store_open. rewrite Hs1. cbn [mbind outcome_bind]. fold w1. by rewrite Hex.
  - rewrite Hh, lookup_insert_eq. by rewrite <- Hk2.
  - rewrite Hi. exact Hidx1.
  - by rewrite length_app, Hlost, Hlen1.
Qed.
End Store.

(** ** Deleting *)

Section Delete.
Context `{HostOrder} `{IoEnv} `{MotrObjects}.
Context (default_layout_id : Z) (obj_attrs_kvs : m0_uint128).

(** The world after the first step: the handle at [mb] and Motr's object at [b]. *)
Definition deleting (h : heap) (mb b : Z) (oid : mio_obj_id) (w : obj_world) : obj_world :=
  set_oheap h (cobj_init default_layout_id (MkPtr b 0) (mio__obj_id_to_uint128 oid)
    (obj_put (MkPtr mb 0) (delete_handle obj_attrs_kvs oid (MkPtr b 0)) (set_who (MkPtr mb 0) w))).

(** The error paths: Motr's object is finalised and both are released. *)
Lemma delete_error_spec h0 bs bs' mb b c w (rc : Z) (op : obj_mop) :
  heap_grow h0 (ow_heap w) bs' → bs' ≡ₚ b :: mb :: bs → MkPtr b 0 ≠ NULL → ow_cobjs w !! b = Some c →
  ∃ w', (w ← m0_obj_fini (MkPtr b 0) w; w ← ow_free (MkPtr b 0) w; w ← ow_free (MkPtr mb 0) w; Done (rc, op, w)) =
      Done (rc, op, w') ∧
    heap_grow h0 (ow_heap w') bs ∧ ow_motr w' = ow_motr w ∧ ow_index w' = ow_index w.
Proof.
  intros Hg Hp Hn Hc. rewrite outcome_fini_free.
  destruct (cobj_fini_free h0 bs' (mb :: bs) (MkPtr b 0) c w Hg Hp Hn eq_refl Hc) as (h1 & -> & Hg1 & _).
  cbn [mbind outcome_bind]. unfold ow_free. cbn [ow_heap set_oheap].
  destruct (heap_grow_free _ _ _ _ Hg1) as (h2 & -> & Hg2 & _). cbn [mbind outcome_bind].
  eexists. split; [done|]. by split_and!.
Qed.

Lemma obj_delete_start h0 bs oid (op : obj_mop) w :
  motr_accepts → heap_grow h0 (ow_heap w) bs →
  ∃ rc op' w', mio_motr_obj_delete default_layout_id obj_attrs_kvs oid op w = Done (rc, op', w') ∧
    if allocs_ok 3 (h_plan (ow_heap w)) then
      rc = 0 ∧ ∃ mb b d h', MkPtr mb 0 ≠ NULL ∧ MkPtr b 0 ≠ NULL ∧
        op' = link d (EntityReq EntOpen (MkPtr b 0)) (Some PpDeleteOpen) op ∧
        w' = obj_launch (EntityReq EntOpen (MkPtr b 0)) (deleting h' mb b oid w) ∧
        heap_grow h0 h' (d :: b :: mb :: bs) ∧ h_plan h' = drop 3 (h_plan (ow_heap w))
    else rc = - ENOMEM ∧ heap_grow h0 (ow_heap w') bs ∧ ow_motr w' = ow_motr w ∧ ow_index w' = ow_index w.
Proof.
  intros (_ & Hacc & _) Hg. unfold mio_motr_obj_delete. set (plan := h_plan (ow_heap w)).
  destruct (heap_grow_alloc_plan _ _ _ SIZEOF_MIO_OBJ Hg) as (p & h1 & -> & Hp1 & C). fold plan in Hp1, C. cbn [allocs_ok].
  destruct (hd true plan); cbn [andb].
  2:{ destruct C as (-> & Hg1 & _). rewrite decide_True by done. do 3 eexists. split; [done|]. by split_and!. }
  destruct C as (mb & -> & Hnm & _ & Hg1 & _). rewrite decide_False by done. cbn [ow_heap set_oheap set_who].
  destruct (heap_grow_alloc_plan _ _ _ sizeof_m0_object Hg1) as (p & h2 & -> & Hp2 & C). rewrite Hp1 in Hp2, C.
  destruct (hd true (tail plan)); cbn [andb].
  2:{ destruct C as (-> & Hg2 & _). rewrite decide_True by done. unfold ow_free. cbn [ow_heap set_oheap].
      destruct (heap_grow_free _ _ _ _ Hg2) as (h3 & -> & Hg3 & _). cbn [mbind outcome_bind].
      do 3 eexists. split; [done|]. by split_and!. }
  destruct C as (b & -> & Hnb & _ & Hg2 & _). rewrite decide_False by done. unfold cobj_at.
  set (id := mio__obj_id_to_uint128 oid).
  rewrite (deref_owned _ h0 (b :: mb :: bs) (MkPtr b 0) (m0_obj_init id default_layout_id) (deleting h2 mb b oid w) Hg2);
    [|split; [done|left; left]|apply lookup_insert_eq]. cbn [mbind outcome_bind]. rewrite Hacc. cbn [Z.eqb negb].
  destruct (obj_op_add_plan h0 _ (Some PpDeleteOpen) (EntityReq EntOpen (MkPtr b 0)) op (deleting h2 mb b oid w) Hg2)
    as (rc & op' & h3 & Hadd & Hp3 & C).
  change (ow_heap (deleting h2 mb b oid w)) with h2 in Hp3, C. rewrite Hp2 in Hp3, C.
  unfold deleting in Hadd. change (set_oheap h3 (set_oheap h2 ?u)) with (set_oheap h3 u) in Hadd.
  match goal with |- context [obj_op_add ?q ?r op ?w1] => match type of Hadd with obj_op_add _ _ _ ?w2 = _ =>
    change (obj_op_add q r op w1) with (obj_op_add q r op w2) end end.
  rewrite Hadd. destruct (hd true (tail (tail plan))); cbn [andb].
  - destruct C as (d & -> & Hg3 & ->). cbn [Z.ltb Z.compare]. do 3 eexists. split; [done|]. split; [done|].
    exists mb, b, d, h3. split_and!; try done. by rewrite Hp3, !tail_drop, !drop_drop.
  - destruct C as (-> & -> & Hg3). change (- ENOMEM <? 0) with true. cbn iota.
    destruct (delete_error_spec h0 bs (b :: mb :: bs) mb b (m0_obj_init id default_layout_id) (deleting h3 mb b oid w)
      (- ENOMEM) op Hg3) as (w' & Herr & Hg' & Hm & Hi); [done|done|apply lookup_insert_eq|].
    exists (- ENOMEM), op, w'. split; [exact Herr|]. by split_and!.
Qed.

(** The second step, with the objects of the first one in the world. *)
Definition deletes (mb b : Z) (oid : mio_obj_id) (c : m0_obj) (w : obj_world) : Prop :=
  MkPtr mb 0 ≠ NULL ∧ MkPtr b 0 ≠ NULL ∧ ow_who w = MkPtr mb 0 ∧
  ow_handles w !! mb = Some (delete_handle obj_attrs_kvs oid (MkPtr b 0)) ∧ ow_cobjs w !! b = Some c.

Lemma delete_open_pp_spec h0 bs mb b d oid c (op : obj_mop) w :
  motr_accepts → deletes mb b oid c w → heap_grow h0 (ow_heap w) (d :: b :: mb :: bs) →
  ∃ rc op' w', motr_obj_delete_open_pp op w = Done (rc, op', w') ∧
    if hd true (h_plan (ow_heap w)) then
      rc = MIO_DRV_OP_NEXT ∧ ∃ d2 h', op' = link d2 (EntityReq EntDelete (MkPtr b 0)) (Some PpDelete) op ∧
        w' = obj_launch (EntityReq EntDelete (MkPtr b 0)) (set_oheap h' w) ∧
        heap_grow h0 h' (d2 :: d :: b :: mb :: bs) ∧ h_plan h' = tail (h_plan (ow_heap w))
    else rc = - ENOMEM ∧ op' = op ∧ heap_grow h0 (ow_heap w') (d :: bs) ∧ ow_motr w' = ow_motr w ∧
      ow_index w' = ow_index w.
Proof.
  intros (_ & Hacc & _) (Hnm & Hnb & Hwho & Hh & Hc) Hg. unfold motr_obj_delete_open_pp. rewrite Hwho.
  unfold obj_at. rewrite (deref_owned _ h0 _ (MkPtr mb 0) _ w Hg ltac:(split; [done|left; set_solver]) Hh).
  cbn [mbind outcome_bind oh_drv delete_handle]. unfold cobj_at.
  rewrite (deref_owned _ h0 _ (MkPtr b 0) _ w Hg ltac:(split; [done|left; set_solver]) Hc).
  cbn [mbind outcome_bind]. rewrite Hacc. cbn [Z.eqb negb].
  destruct (obj_op_add_plan h0 _ (Some PpDelete) (EntityReq EntDelete (MkPtr b 0)) op w Hg) as (rc & op' & h' & -> & Hp & C).
  destruct (hd true (h_plan (ow_heap w))).
  - destruct C as (d2 & -> & Hg' & ->). cbn [Z.ltb Z.compare]. do 3 eexists. split; [done|]. split; [done|].
    by exists d2, h'.
  - destruct C as (-> & -> & Hg'). change (- ENOMEM <? 0) with true. cbn iota.
    destruct (delete_error_spec h0 (d :: bs) (d :: b :: mb :: bs) mb b c (set_oheap h' w) (- ENOMEM) op Hg')
      as (w' & -> & Hg2 & Hm & Hi); [solve_Permutation|done|done|].
    do 3 eexists. split; [done|]. by split_and!.
Qed.

(** The third step: both objects are released, whatever comes of the query. *)
Lemma delete_pp_spec h0 own bs mb b oid c (op : obj_mop) w m :
  motr_accepts → deletes mb b oid c w → heap_grow h0 (ow_heap w) (own ++ b :: mb :: bs) →
  index_at (ow_index w) obj_attrs_kvs = Some m →
  ∃ rc op' w', motr_obj_delete_pp op w = Done (rc, op', w') ∧ ow_motr w' = ow_motr w ∧
    if allocs_ok 7 (h_plan (ow_heap w)) then
      rc = MIO_DRV_OP_NEXT ∧ ow_op_rc w' = 0 ∧
      index_at (ow_index w') obj_attrs_kvs = Some (delete (attrs_key oid) m) ∧
      (∀ id, id ≠ obj_attrs_kvs → index_at (ow_index w') id = index_at (ow_index w) id) ∧
      ∃ d a req lost, op' = link d req (Some (PpAttrsFree a)) op ∧ args_at a ∧
        heap_grow h0 (ow_heap w') (d :: args_blocks a ++ lost ++ own ++ bs) ∧ length lost = 1%nat
    else rc < 0 ∧ op' = op ∧ ow_index w' = ow_index w ∧
      ∃ lost, heap_grow h0 (ow_heap w') (lost ++ own ++ bs) ∧ (length lost <= 2)%nat.
Proof.
  intros Hmacc (Hnm & Hnb & Hwho & Hh & Hc) Hg Hidx. unfold motr_obj_delete_pp. rewrite Hwho.
  assert (Hown : owned h0 (own ++ b :: mb :: bs) (MkPtr mb 0)) by (split; [done|left; set_solver]).
  unfold obj_at. rewrite (deref_owned _ h0 _ (MkPtr mb 0) _ w Hg Hown Hh). cbn [mbind outcome_bind oh_drv delete_handle].
  destruct (attrs_query_spec h0 _ M0_IC_DEL (MkPtr mb 0) PpAttrsFree op w _ obj_attrs_kvs [] ltac:(done) Hmacc Hg Hown Hh
    eq_refl ltac:(done)) as (rc & op' & w' & -> & C). cbn [query_allocs mo_id oh_obj delete_handle] in C.
  assert (Hrel : ∀ l w1, heap_grow h0 (ow_heap w1) (l ++ own ++ b :: mb :: bs) → ∃ h', ∀ rc : Z,
    (w ← ow_free (MkPtr b 0) w1; w ← ow_free (MkPtr mb 0) w; Done (rc, op', w)) = Done (rc, op', set_oheap h' w1) ∧
    heap_grow h0 h' (l ++ own ++ bs)).
  { intros l w1 Hg1. unfold ow_free.
    destruct (heap_grow_free_in _ _ b _ (l ++ own ++ mb :: bs) Hg1) as (h1 & -> & Hg2 & _); [solve_Permutation|].
    cbn [mbind outcome_bind ow_heap set_oheap].
    destruct (heap_grow_free_in _ _ mb _ (l ++ own ++ bs) Hg2) as (h2 & -> & Hg3 & _); [solve_Permutation|].
    by exists h2. }
  cbn [mbind outcome_bind]. destruct (allocs_ok 7 (h_plan (ow_heap w))).
  - destruct C as (-> & d & a & lost & h' & Hop & -> & Hg' & Ha & _ & _ & Hl & _). cbn [Z.ltb Z.compare].
    destruct (launch_attrs_del (set_oheap h' w) obj_attrs_kvs oid m [] Hidx) as (s' & r & -> & Hi & Ho).
    destruct (Hrel (d :: args_blocks a ++ lost) (launched_attrs (set_oheap h' w) s' r)) as (h2 & Hr).
    { eapply heap_grow_proper; [|exact Hg']. solve_Permutation. }
    destruct (Hr MIO_DRV_OP_NEXT) as [Hfree Hg2]. cbn [delete_handle oh_drv]. rewrite Hfree.
    do 3 eexists. split; [done|]. split; [done|]. split_and!; try done.
    exists d, a. do 2 eexists. split_and!; [exact Hop|done| |exact Hl].
    eapply heap_grow_proper; [|exact Hg2]. solve_Permutation.
  - destruct C as [?|(Hneg & -> & h' & lost & -> & Hl & Hg')]; [done|].
    destruct (Hrel lost (set_oheap h' w) Hg') as (h2 & Hr). destruct (Hr rc) as [Hfree Hg2].
    cbn [delete_handle oh_drv]. rewrite (proj2 (Z.ltb_lt _ _)) by done. rewrite Hfree.
    do 3 eexists. split; [done|]. split; [done|]. split_and!; try done. by exists lost.
Qed.

(** What a reported deletion has done, as the plan of the last two steps decides:
    the object, its attributes and the memory. *)
Definition deleted (h0 : heap) (bs : list Z) (plan : list bool) (oid : mio_obj_id) (m : gmap (list Z) (list Z))
    (w w' : obj_world) : Prop :=
  let id := mio__obj_id_to_uint128 oid in
  obj_exists (ow_motr w') id = negb (allocs_ok 1 plan) ∧
  (∀ id', id' ≠ id → obj_exists (ow_motr w') id' = obj_exists (ow_motr w) id') ∧
  index_at (ow_index w') obj_attrs_kvs = Some (if allocs_ok 8 plan then delete (attrs_key oid) m else m) ∧
  (∀ id', id' ≠ obj_attrs_kvs → index_at (ow_index w') id' = index_at (ow_index w) id') ∧
  ∃ lost, heap_grow h0 (ow_heap w') (lost ++ bs) ∧
    (if allocs_ok 8 plan then length lost = 1%nat else (length lost <= 2)%nat).

(** The third and the last step. *)
Lemma obj_complete_delete2 h0 bs mb b d2 own oid c (op : obj_mop) w m :
  motr_accepts → deletes mb b oid c w → ow_op_rc w = 0 → heap_grow h0 (ow_heap w) ((d2 :: own) ++ b :: mb :: bs) →
  index_at (ow_index w) obj_attrs_kvs = Some m → chain_at op → chain_blocks op = own →
  ∃ op' w', obj_complete 2 (link d2 (EntityReq EntDelete (MkPtr b 0)) (Some PpDelete) op) w = Done (CbComplete, op', w') ∧
    chain_at op' ∧ ow_motr w' = ow_motr w ∧
    index_at (ow_index w') obj_attrs_kvs =
      Some (if allocs_ok 7 (h_plan (ow_heap w)) then delete (attrs_key oid) m else m) ∧
    (∀ id', id' ≠ obj_attrs_kvs → index_at (ow_index w') id' = index_at (ow_index w) id') ∧
    ∃ lost, heap_grow h0 (ow_heap w') (chain_blocks op' ++ lost ++ bs) ∧
      (if allocs_ok 7 (h_plan (ow_heap w)) then length lost = 1%nat else (length lost <= 2)%nat).
Proof.
  intros Hmacc Hd Hrc Hg Hidx Hat Hown.
  destruct (delete_pp_spec h0 _ bs mb b oid c (link d2 (EntityReq EntDelete (MkPtr b 0)) (Some PpDelete) op) w m
    Hmacc Hd Hg Hidx) as (rc & op1 & w1 & Hpp & Hm & C).
  rewrite (obj_complete_step 1 d2 _ PpDelete op _ w _ rc Hrc Hpp).
  destruct (allocs_ok 7 (h_plan (ow_heap w))).
  - destruct C as (-> & Hrc1 & Hi & Ho & d3 & a & req & lost & -> & Ha & Hg1 & Hl).
    change (MIO_DRV_OP_NEXT =? MIO_DRV_OP_NEXT) with true. cbn iota.
    destruct (attrs_free_spec h0 (d3 :: lost ++ (d2 :: own) ++ bs) _ a
      (link d3 req (Some (PpAttrsFree a)) (link d2 (EntityReq EntDelete (MkPtr b 0)) (Some PpDelete) op)) w1 Hg1)
      as (h' & Hf & Hg2 & _); [solve_Permutation|done|].
    rewrite (obj_complete_step 0 d3 req (PpAttrsFree a) _ _ w1 _ _ Hrc1 Hf).
    do 2 eexists. split; [done|]. split; [by repeat constructor|]. split; [done|]. split; [done|]. split; [done|].
    exists lost. split; [|done]. unfold chain_blocks. cbn [link set_chain set_mop_rc mop_drv_op_chain fmap list_fmap mdo_mem p_blk].
    fold (chain_blocks op). rewrite Hown. eapply heap_grow_proper; [|exact Hg2]. solve_Permutation.
  - destruct C as (Hneg & -> & Hi & lost & Hg1 & Hl).
    rewrite (proj2 (Z.eqb_neq _ _)) by (unfold MIO_DRV_OP_NEXT; lia).
    do 2 eexists. split; [done|]. split; [by repeat constructor|]. split; [done|]. rewrite Hi. split; [done|]. split; [done|].
    exists lost. split; [|done]. unfold chain_blocks. cbn [link set_chain set_mop_rc mop_drv_op_chain fmap list_fmap mdo_mem p_blk].
    fold (chain_blocks op). rewrite Hown. eapply heap_grow_proper; [|exact Hg1]. solve_Permutation.
Qed.

(** The three steps from the launch of the opening on. *)
Lemma obj_complete_delete h0 bs mb b d oid c (op : obj_mop) w m :
  let id := mio__obj_id_to_uint128 oid in
  motr_accepts → deletes mb b oid c w → ow_op_rc w = 0 → ob_id c = id → obj_exists (ow_motr w) id = true →
  heap_grow h0 (ow_heap w) (d :: b :: mb :: bs) → index_at (ow_index w) obj_attrs_kvs = Some m →
  mop_drv_op_chain op = [] →
  ∃ op' w', obj_complete OBJ_STEPS (link d (EntityReq EntOpen (MkPtr b 0)) (Some PpDeleteOpen) op) w =
      Done (CbComplete, op', w') ∧
    chain_at op' ∧ deleted h0 (chain_blocks op' ++ bs) (h_plan (ow_heap w)) oid m w w'.
Proof.
  intros id Hmotr Hdel Hrc Hcid Hex Hg Hidx Hch. set (L := link d (EntityReq EntOpen (MkPtr b 0)) (Some PpDeleteOpen) op).
  assert (HL : chain_at L ∧ chain_blocks L = [d]) by (unfold chain_at, chain_blocks; cbn; rewrite Hch; by repeat constructor).
  destruct HL as [HLat HLb].
  destruct (delete_open_pp_spec h0 bs mb b d oid c L w Hmotr Hdel Hg) as (rc & op2 & w3 & Hpp & C).
  pose proof (obj_complete_step 2 d _ PpDeleteOpen op op2 w w3 rc Hrc Hpp) as Hc. fold L in Hc. unfold OBJ_STEPS. rewrite Hc.
  unfold deleted. fold id. rewrite <- (hd_allocs_ok (h_plan (ow_heap w))). change 8%nat with (S 7). cbn [allocs_ok].
  destruct (hd true (h_plan (ow_heap w))); cbn [andb negb].
  - destruct C as (-> & d2 & h2 & -> & -> & Hg2 & Hpl2).
    pose proof Hdel as (Hnm & Hnb & Hwho & Hh & Hcob).
    destruct (launch_delete (set_oheap h2 w) (MkPtr b 0) c) as (s2 & c2 & -> & _ & Hgone & Hothers);
      [done|by rewrite Hcid|]. rewrite Hcid in Hgone, Hothers.
    set (w4 := launched_ent (set_oheap h2 w) (MkPtr b 0) c2 s2).
    destruct (obj_complete_delete2 h0 bs mb b d2 [d] oid c2 L w4 m) as (op5 & w5 & Hc2 & Hat & Hm5 & Hi5 & Ho5 & lost & Hg5 & Hlost);
      try done; [split_and!; [done..|apply lookup_insert_eq]|].
    change (MIO_DRV_OP_NEXT =? MIO_DRV_OP_NEXT) with true. cbn iota. exists op5, w5. split; [exact Hc2|]. split; [done|].
    change (h_plan (ow_heap w4)) with (h_plan h2) in Hi5, Hlost. rewrite Hpl2 in Hi5, Hlost. rewrite Hm5.
    split_and!; [done|done|done|done|]. exists lost. split; [|done]. eapply heap_grow_proper; [|exact Hg5]. solve_Permutation.
  - destruct C as (-> & -> & Hg3 & Hm3 & Hi3). change (- ENOMEM =? MIO_DRV_OP_NEXT) with false. cbn iota.
    do 2 eexists. split; [done|]. split; [done|]. rewrite Hm3, Hi3.
    split_and!; [done|done|done|done|]. exists []. split; [|simpl; lia].
    change (chain_blocks (set_mop_rc 0 L)) with (chain_blocks L). by rewrite HLb.
Qed.

(** (C11) Deleting an object that Motr has, whichever call of malloc() fails.  If
    one of the first three fails, deleting returns -ENOMEM, and nothing has
    changed.  Otherwise it is reported as complete, always: without memory for the
    second step the object is still there, and without memory for the third one
    its attributes are.  Only when all eleven succeed both are gone.  No memory is
    used after its release or released twice; what is lost are the id of the
    query and, when a vector cannot be allocated, its structure. *)
Theorem mio_motr_obj_delete_correct (oid : mio_obj_id) (op : obj_mop) (w : obj_world) (m : gmap (list Z) (list Z))
  (Hmotr : motr_accepts) (Hop : op_ready op) (Hheap : heap_ok (ow_heap w))
  (Hex : obj_exists (ow_motr w) (mio__obj_id_to_uint128 oid) = true)
  (Hidx : index_at (ow_index w) obj_attrs_kvs = Some m) :
  let plan := h_plan (ow_heap w) in
  ∃ rc call w', obj_exec (mio_motr_obj_delete default_layout_id obj_attrs_kvs oid) op w = Done (rc, call, w') ∧
    if allocs_ok 3 plan then
      rc = 0 ∧ call = Some CbComplete ∧ deleted (ow_heap w) [] (drop 3 plan) oid m w w'
    else rc = - ENOMEM ∧ call = None ∧ h_blocks (ow_heap w') = h_blocks (ow_heap w) ∧ ow_motr w' = ow_motr w ∧
      ow_index w' = ow_index w.
Proof.
  intros plan. destruct Hop as [Hch Hcb]. set (h0 := ow_heap w). set (id := mio__obj_id_to_uint128 oid).
  destruct (obj_delete_start h0 [] oid op w Hmotr (heap_grow_refl _ Hheap)) as (rc & op1 & w1 & Hs & C).
  fold plan in C. destruct (allocs_ok 3 plan).
  2:{ destruct C as (-> & Hg & Hm & Hi). exists (- ENOMEM), None, w1. split.
      - unfold obj_exec. by rewrite Hs.
      - split_and!; try done. by apply heap_grow_nil. }
  destruct C as (-> & mb & b & d & h1 & Hnm & Hnb & -> & -> & Hg1 & Hpl1).
  set (wd := deleting h1 mb b oid w) in *.
  destruct (launch_open wd (MkPtr b 0) (m0_obj_init id default_layout_id)) as (s1 & c & Hl & Hcid & Hexs);
    [apply lookup_insert_eq|by rewrite m0_obj_init_law|]. rewrite m0_obj_init_law in Hcid. rewrite Hl in Hs.
  set (w2 := launched_ent wd (MkPtr b 0) c s1) in *.
  destruct (obj_complete_delete h0 [] mb b d oid c op w2 m) as (op5 & w5 & Hc & Hat & Hd1 & Hd2 & Hd3 & Hd4 & lost & Hg5 & Hlost);
    try done; [split_and!; [done..|apply lookup_insert_eq|apply lookup_insert_eq]|by cbn; rewrite Hexs|].
  change (h_plan (ow_heap w2)) with (h_plan h1) in Hd1, Hd3, Hlost. rewrite Hpl1 in Hd1, Hd3, Hlost.
  assert (Hg5' : heap_grow h0 (ow_heap w5) (chain_blocks op5 ++ lost ++ [])).
  { eapply heap_grow_proper; [|exact Hg5]. solve_Permutation. }
  destruct (obj_exec_done h0 _ _ op w d _ _ op _ _ _ _ Hs Hcb Hc Hat Hg5') as (h6 & Hexec & Hg6 & _).
  exists 0, (Some CbComplete), (set_oheap h6 w5). split; [exact Hexec|]. do 2 (split; [done|]).
  split_and!; [done| |done|done|by exists lost]. intros id' Hid. cbn. rewrite Hd2 by done. cbn. by rewrite Hexs.
Qed.
End Delete.

(** ** The life of an object *)

Section Life.
Context `{HostOrder} `{IoEnv} `{MotrObjects}.
Context (default_layout_id : Z).

(** Creating an object whose id is free and closing it.  Creating is
    reported as complete, Motr has the object, in the pool asked for, and the
    handle has Motr's object.  Closing finalises Motr's object but keeps its
    memory, and the handle keeps pointing to it: closing again finalises it
    again. *)
Theorem mio_motr_obj_create_close (pool_id : option mio_pool_id) (obj : ptr) (op : obj_mop) (w : obj_world) (o : obj_handle)
  (Hmotr : motr_accepts) (Hop : op_ready op) (Hheap : heap_ok (ow_heap w)) (Hplan : allocs_ok 2 (h_plan (ow_heap w)) = true)
  (Hn : obj ≠ NULL) (Hlive : blk_live (ow_heap w) (p_blk obj) = true) (Hobj : ow_handles w !! p_blk obj = Some o)
  (Hupd : mo_attrs_updated (oh_obj o) = false)
  (Hfree : obj_exists (ow_motr w) (mio__obj_id_to_uint128 (mo_id (oh_obj o))) = false) :
  let id := mio__obj_id_to_uint128 (mo_id (oh_obj o)) in
  ∃ w' w2 b c, obj_exec (mio_motr_obj_create default_layout_id pool_id obj) op w = Done (0, Some CbComplete, w') ∧
    obj_exists (ow_motr w') id = true ∧
    (∀ id', id' ≠ id → obj_exists (ow_motr w') id' = obj_exists (ow_motr w) id') ∧
    (m0_entity_exec (EntCreate (mio__motr_pool_id_to_fid <$> pool_id)) (m0_obj_init id default_layout_id) (ow_motr w)
      = (ow_motr w', c, 0)) ∧
    ow_handles w' = <[p_blk obj := set_oh_drv (MkPtr b 0) o]> (ow_handles w) ∧ ow_cobjs w' !! b = Some c ∧
    ow_index w' = ow_index w ∧ heap_grow (ow_heap w) (ow_heap w') [b] ∧
    mio_motr_obj_close obj w' = Done (0, w2) ∧ ow_heap w2 = ow_heap w' ∧ ow_handles w2 = ow_handles w' ∧
    mio_motr_obj_close obj w2 = Fault UninitRead.
Proof.
  intros id. destruct Hop as [Hch Hcb].
  assert (Hg0 : heap_grow (ow_heap w) (ow_heap w) []) by by apply heap_grow_refl.
  assert (Hown : owned (ow_heap w) [] obj) by (split; [done|by right]).
  destruct (obj_open_create_spec default_layout_id _ _ (EntCreate (mio__motr_pool_id_to_fid <$> pool_id)) (λ rc, rc <? 0) None
    obj op w o Hmotr eq_refl Hg0 Hown Hobj) as (rc & op1 & w1 & Hs & C).
  cbn [allocs_ok] in Hplan. apply andb_true_iff in Hplan as [Hb1 [Hb2 _]%andb_true_iff]. rewrite Hb1, Hb2 in C. cbn [negb] in C.
  destruct C as (b & h1 & Hnb & -> & d & -> & Hg1 & _ & ->).
  set (w1 := with_cobj default_layout_id h1 obj (MkPtr b 0) o w) in *.
  pose proof (m0_create_obj_law (ow_motr w) (m0_obj_init id default_layout_id) (mio__motr_pool_id_to_fid <$> pool_id)) as Hlaw.
  rewrite m0_obj_init_law in Hlaw. specialize (Hlaw Hfree).
  destruct (m0_entity_exec _ _ (ow_motr w)) as [[s' c] rc] eqn:Hex. destruct Hlaw as (-> & Hcid & Hnew & Hother).
  assert (Hl : obj_launch (EntityReq (EntCreate (mio__motr_pool_id_to_fid <$> pool_id)) (MkPtr b 0)) w1 =
    launched_ent w1 (MkPtr b 0) c s').
  { unfold obj_launch. cbn [p_blk]. assert (ow_cobjs w1 !! b = Some (m0_obj_init id default_layout_id)) as -> by apply lookup_insert_eq.
    change (ow_motr w1) with (ow_motr w). by rewrite Hex. }
  rewrite Hl in Hs. set (w2 := launched_ent w1 (MkPtr b 0) c s') in *.
  destruct (obj_exec_done (ow_heap w) [b] (mio_motr_obj_create default_layout_id pool_id obj) op w d _ _ op _ _ _ _ Hs Hcb
    (obj_complete_last 2 d _ op w2 eq_refl)) as (h3 & Hexec & Hg3 & _).
  { unfold chain_at. cbn. rewrite Hch. by repeat constructor. }
  { unfold chain_blocks. cbn. by rewrite Hch. }
  assert (Hcl : ∀ cs, mio_motr_obj_close obj (set_cobjs cs (set_oheap h3 w2)) =
    w ← m0_obj_fini (MkPtr b 0) (set_cobjs cs (set_oheap h3 w2)); Done (0, w)).
  { intros cs. unfold mio_motr_obj_close, obj_at.
    rewrite (deref_owned (ow_handles (set_cobjs cs (set_oheap h3 w2))) _ [b] obj (set_oh_drv (MkPtr b 0) o) (set_cobjs cs (set_oheap h3 w2)) Hg3
      (owned_mono _ _ _ _ (list_subseteq_nil _) Hown)) by apply lookup_insert_eq.
    cbn [mbind outcome_bind oh_obj oh_drv set_oh_drv]. by rewrite Hupd. }
  assert (Hblive : blk_live h3 b = true) by (eapply heap_grow_live; [exact Hg3|left]).
  exists (set_oheap h3 w2), (set_cobjs (delete b (ow_cobjs w2)) (set_oheap h3 w2)), b, c.
  split; [exact Hexec|]. split_and!; try done; [apply lookup_insert_eq| |].
  - change (set_oheap h3 w2) with (set_cobjs (ow_cobjs w2) (set_oheap h3 w2)) at 1. rewrite Hcl. unfold m0_obj_fini, cobj_at, deref.
    rewrite decide_False by done. cbn [ow_heap set_oheap set_cobjs p_blk]. rewrite Hblive.
    assert (ow_cobjs w2 !! b = Some c) as Hcb2 by apply lookup_insert_eq.
    change (ow_cobjs (set_cobjs (ow_cobjs w2) (set_oheap h3 w2))) with (ow_cobjs w2). rewrite Hcb2. done.
  - rewrite Hcl. unfold m0_obj_fini, cobj_at, deref.
    rewrite decide_False by done. cbn [ow_heap ow_cobjs set_oheap set_cobjs p_blk]. by rewrite Hblive, lookup_delete_eq.
Qed.
End Life.

(** ** The lock *)

Section Lock.
Context `{HostOrder} `{IoEnv} `{MotrObjects}.

(** (C14) Locking and unlocking an object that is open.  Locking calls Motr to
    initialise the lock and to get it, and takes back what it has done when
    memory or the lock cannot be had.  Unlocking puts the lock and finalises it -
    as often as it is called: the request stays in the object and in memory, so
    that a second unlocking puts a lock that is not held any more. *)
Theorem mio_motr_obj_lock_unlock (obj : ptr) (o : obj_handle) (c : m0_obj) (w : obj_world)
  (Hheap : heap_ok (ow_heap w)) (Hn : obj ≠ NULL) (Hlive : blk_live (ow_heap w) (p_blk obj) = true)
  (Hobj : ow_handles w !! p_blk obj = Some o) (Hdrv : oh_drv o ≠ NULL)
  (Hdlive : blk_live (ow_heap w) (p_blk (oh_drv o)) = true) (Hc : ow_cobjs w !! p_blk (oh_drv o) = Some c) :
  let drv := oh_drv o in
  ∃ rc w', mio_motr_obj_lock obj w = Done (rc, w') ∧
    if negb (m0_obj_lock_init_rc c =? 0) then rc = m0_obj_lock_init_rc c ∧ w' = w
    else if negb (hd true (h_plan (ow_heap w))) || (m0_obj_write_lock_rc c <? 0) then
      rc = (if hd true (h_plan (ow_heap w)) then m0_obj_write_lock_rc c else - ENOMEM) ∧
      ow_locks w' = LockFini drv :: LockInit drv :: ow_locks w ∧ ow_handles w' = ow_handles w ∧
      h_blocks (ow_heap w') = h_blocks (ow_heap w)
    else rc = 0 ∧ ∃ req w2 w3, heap_grow (ow_heap w) (ow_heap w') [p_blk req] ∧
      ow_locks w' = LockGet drv req :: LockInit drv :: ow_locks w ∧
      mio_motr_obj_unlock obj w' = Done (0, w2) ∧ mio_motr_obj_unlock obj w2 = Done (0, w3) ∧
      ow_heap w3 = ow_heap w' ∧ ow_handles w3 = <[p_blk obj := set_oh_lock req o]> (ow_handles w) ∧
      ow_locks w3 = [LockFini drv; LockPut req; LockFini drv; LockPut req] ++ ow_locks w'.
Proof.
  intros drv. assert (Hg : heap_grow (ow_heap w) (ow_heap w) []) by by apply heap_grow_refl.
  assert (Hown : owned (ow_heap w) [] obj) by (split; [done|by right]).
  assert (Hdown : owned (ow_heap w) [] drv) by (split; [done|by right]).
  unfold mio_motr_obj_lock, obj_at. rewrite (deref_owned _ _ _ _ _ _ Hg Hown Hobj). cbn [mbind outcome_bind].
  fold drv. rewrite decide_False by done. unfold cobj_at. rewrite (deref_owned _ _ _ _ _ _ Hg Hdown Hc).
  cbn [mbind outcome_bind]. destruct (negb (m0_obj_lock_init_rc c =? 0)); [by do 2 eexists|].
  cbn [ow_heap lock_trace]. destruct (heap_grow_alloc_plan _ _ _ SIZEOF_RM_LOCK_REQ Hg) as (p & h1 & -> & _ & C).
  destruct (hd true (h_plan (ow_heap w))); cbn [negb orb].
  2:{ destruct C as (-> & Hg1 & Hb). rewrite decide_True by done. do 2 eexists. split; [done|]. by split_and!. }
  destruct C as (b & -> & Hnb & _ & Hg1 & _). rewrite decide_False by done.
  destruct (m0_obj_write_lock_rc c <? 0).
  { unfold ow_free. cbn [ow_heap lock_trace set_oheap]. destruct (heap_grow_free _ _ _ _ Hg1) as (h2 & -> & Hg2 & _).
    cbn [mbind outcome_bind]. do 2 eexists. split; [done|]. split_and!; try done. by apply heap_grow_nil. }
  assert (Hun : ∀ w1, ow_heap w1 = h1 → ow_handles w1 !! p_blk obj = Some (set_oh_lock (MkPtr b 0) o) →
    ow_cobjs w1 !! p_blk drv = Some c →
    mio_motr_obj_unlock obj w1 = Done (0, lock_trace (LockFini drv) (lock_trace (LockPut (MkPtr b 0)) w1))).
  { intros w1 Hh1 Ho1 Hc1. unfold mio_motr_obj_unlock, obj_at.
    assert (Hgw : heap_grow (ow_heap w) (ow_heap w1) [b]) by by rewrite Hh1.
    rewrite (deref_owned _ _ _ obj _ w1 Hgw (owned_mono _ _ _ _ (list_subseteq_nil _) Hown) Ho1). cbn [mbind outcome_bind].
    cbn [oh_drv oh_lock set_oh_lock]. fold drv. rewrite decide_False by tauto. unfold cobj_at.
    by rewrite (deref_owned _ _ _ drv _ w1 Hgw (owned_mono _ _ _ _ (list_subseteq_nil _) Hdown) Hc1). }
  do 2 eexists. split; [done|]. split; [done|]. exists (MkPtr b 0). do 2 eexists.
  split; [done|]. split; [done|].
  split; [apply Hun; [done|apply lookup_insert_eq|done]|]. split; [apply Hun; [done|apply lookup_insert_eq|done]|].
  by split_and!.
Qed.
End Lock.

(** ** A concrete Motr with objects *)

Definition set_objects : Type := m0_uint128 → bool.

Definition upd_object (id : m0_uint128) (x : bool) (s : set_objects) : set_objects :=
  λ id', if decide (id' = id) then x else s id'.

Definition set_entity_exec (e : ent_op) (o : m0_obj) (s : set_objects) : set_objects * m0_obj * Z :=
  match e with
  | EntOpen => (s, o, if s (ob_id o) then 0 else - ENOENT)
  | EntCreate _ => if s (ob_id o) then (s, o, - EEXIST) else (upd_object (ob_id o) true s, o, 0)
  | EntDelete => if s (ob_id o) then (upd_object (ob_id o) false s, o, 0) else (s, o, - ENOENT)
  end.

Lemma upd_object_spec id x s : upd_object id x s id = x ∧ ∀ id', id' ≠ id → upd_object id x s id' = s id'.
Proof. unfold upd_object. split; [by rewrite decide_True|]. intros id' ?. by rewrite decide_False. Qed.

Program Definition set_motr : @MotrObjects map_motr := {|
  mobjs := set_objects; obj_exists s id := s id; sizeof_m0_object := 400;
  m0_obj_init id _ := MkM0Obj id 12 (MkFid 0 0); m0_entity_rc _ _ _ := 0; m0_entity_exec := set_entity_exec;
  m0_sync_op_init_rc _ := 0; m0_sync_entity_add_rc _ _ := 0; m0_op_wait_rc _ := 0;
  m0_idx_op_rc r := if rep_stable r then 0 else - EIO; m0_obj_lock_init_rc _ := 0; m0_obj_write_lock_rc _ := 0;
  M0_OIF_OVERWRITE := MAP_OVERWRITE
|}.
Next Obligation. done. Qed.
Next Obligation. intros s o Hex. simpl in Hex |- *. by rewrite Hex. Qed.
Next Obligation. intros s o pool Hex. simpl in Hex |- *. rewrite Hex. split_and!; [done|done|apply upd_object_spec..]. Qed.
Next Obligation. intros s o Hex. simpl in Hex |- *. rewrite Hex. split_and!; [done|done|apply upd_object_spec..]. Qed.
Next Obligation.
  intros s id m k v Hs. simpl in Hs |- *. rewrite Hs. cbn. split; [done|].
  destruct (upd_index_spec id (Some (<[k := v]> ∅ ∪ m)) s) as [Hi Ho]. split; [|exact Ho].
  rewrite Hi. by rewrite <- insert_union_l, (left_id_L ∅ (∪)).
Qed.
Next Obligation. intros r Hr. simpl. by rewrite Hr. Qed.

Lemma set_motr_accepts : @motr_accepts map_motr set_motr.
Proof. by split_and!. Qed.

Definition ex_obj_op : obj_mop := MkOp 0 0 0 true true [] true.
Definition ex_obj_kvs : m0_uint128 := MkU128 (120 * 2 ^ 56) 16.
Definition ex_obj_id : m0_uint128 := @mio__obj_id_to_uint128 false (mo_id ex_wire_obj).

Definition ex_obj_blk : block := MkBlock 184 (λ _, 0).
Definition ex_obj_heap (plan : list bool) : heap := MkHeap 4 {[1 := ex_obj_blk; 2 := ex_obj_blk; 3 := ex_obj_blk]} plan.

Definition ex_io_env : IoEnv := {|
  io_confs := None; m0_conf_fid_is_valid := λ _, true; m0_pool_version_find := λ _, None
|}.

(** Two handles of the object, the second one without Motr's object, at the
    blocks 1 and 2, and a Motr object at block 3. *)
Definition ex_handle1 : obj_handle := MkHandle ex_wire_obj (Some ex_obj_kvs) (MkPtr 3 0) NULL.
Definition ex_handle2 : obj_handle := MkHandle ex_wire_to (Some ex_obj_kvs) NULL NULL.

Definition ex_obj_world (who : ptr) (plan : list bool) : @obj_world map_motr set_motr :=
  @MkObjWorld map_motr set_motr (ex_obj_heap plan) {[1 := ex_handle1; 2 := ex_handle2]}
    {[3 := MkM0Obj ex_obj_id 12 (MkFid 0 0)]} who (λ id, bool_decide (id = ex_obj_id))
    (λ id, if decide (id = ex_obj_kvs) then Some ∅ else None) 0 (MkReply true [] [] []) [].

Lemma ex_obj_heap_ok plan : heap_ok (ex_obj_heap plan).
Proof.
  split; [done|]. cbn [ex_obj_heap h_blocks h_next]. intros b [x [[<- _]|[_ [[<- _]|[_ [<- _]%lookup_singleton_Some]]%lookup_insert_Some]]%lookup_insert_Some]; lia.
Qed.

Lemma ex_obj_ready1 who plan : @obj_ready false map_motr set_motr (MkPtr 1 0) ex_handle1 ex_obj_kvs ∅ (ex_obj_world who plan).
Proof. split_and!; [done|by vm_compute|done..]. Qed.

Lemma ex_obj_ready2 who plan : @obj_ready false map_motr set_motr (MkPtr 2 0) ex_handle2 ex_obj_kvs ∅ (ex_obj_world who plan).
Proof. split_and!; [done|by vm_compute|done..]. Qed.

Lemma mio_motr_obj_open_correct_witness :
  let w := ex_obj_world (MkPtr 2 0) [true; false] in
  heap_ok (ow_heap w) ∧
  ∃ w', @obj_exec false map_motr set_motr (@mio_motr_obj_open false map_motr set_motr 1 (MkPtr 2 0)) ex_obj_op w =
      Done (- ENOMEM, None, w') ∧
    @mio_motr_obj_pool_id ex_io_env map_motr set_motr (MkPtr 2 0) w' = Fault UseAfterFree.
Proof.
  intros w. split; [apply ex_obj_heap_ok|].
  destruct (@mio_motr_obj_open_correct false ex_io_env map_motr set_motr 1 (MkPtr 2 0) ex_obj_op w ex_handle2 ex_obj_kvs ∅
    ex_wire_to) as (rc & call & w' & H1 & _ & _ & H2).
  - exact set_motr_accepts.
  - split; reflexivity.
  - apply ex_obj_heap_ok.
  - apply ex_obj_ready2.
  - reflexivity.
  - reflexivity.
  - destruct H2 as (-> & -> & _ & H2 & _). exists w'. exact (conj H1 H2).
Defined.

Lemma mio_motr_obj_store_open_roundtrip_witness :
  let w := ex_obj_world NULL [] in
  heap_ok (ow_heap w) ∧
  ∃ w' x b lost, @store_open false map_motr set_motr 1 (MkPtr 1 0) (MkPtr 2 0) ex_obj_op w =
      Done (0, 0, Some CbComplete, w') ∧
    ow_handles w' !! 2 = Some (MkHandle x (Some ex_obj_kvs) (MkPtr b 0) NULL) ∧
    moa_size (mo_attrs x) = 4096 ∧ hint_entries (mo_hints x) = [(0, 7); (2, 9)] ∧
    heap_grow (ow_heap w) (ow_heap w') (b :: lost) ∧ length lost = 12%nat.
Proof.
  intros w. split; [apply ex_obj_heap_ok|].
  destruct (@mio_motr_obj_store_open_roundtrip false map_motr set_motr 1 (MkPtr 1 0) (MkPtr 2 0) ex_obj_op w
    ex_handle1 ex_handle2 ex_obj_kvs ∅) as (w' & x & b & lost & H1 & H2 & H3 & _ & H4 & _ & H5 & H6).
  - exact set_motr_accepts.
  - split; reflexivity.
  - apply ex_obj_heap_ok.
  - reflexivity.
  - apply ex_obj_ready1.
  - apply ex_obj_ready2.
  - reflexivity.
  - split; [|split; [exact ex_wire_obj_wf|split]]; [repeat constructor; vm_compute; congruence..|vm_compute; congruence].
  - exact ex_wire_to_wf.
  - reflexivity.
  - exists w', x, b, lost. split; [exact H1|]. split; [exact H2|]. split; [exact H3|]. split; [|exact (conj H5 H6)].
    exact (proj2 H4).
Defined.

Lemma mio_motr_obj_delete_correct_witness :
  let w := ex_obj_world NULL [true; true; true; false] in
  heap_ok (ow_heap w) ∧
  ∃ w', @obj_exec false map_motr set_motr
      (@mio_motr_obj_delete false map_motr set_motr 1 ex_obj_kvs (mo_id ex_wire_obj)) ex_obj_op w =
      Done (0, Some CbComplete, w') ∧
    @obj_exists map_motr set_motr (ow_motr w') ex_obj_id = true.
Proof.
  intros w. split; [apply ex_obj_heap_ok|].
  destruct (@mio_motr_obj_delete_correct false map_motr set_motr 1 ex_obj_kvs (mo_id ex_wire_obj) ex_obj_op w ∅)
    as (rc & call & w' & H1 & H2).
  - exact set_motr_accepts.
  - split; reflexivity.
  - apply ex_obj_heap_ok.
  - reflexivity.
  - reflexivity.
  - destruct H2 as (-> & -> & H2 & _). exists w'. exact (conj H1 H2).
Defined.

Lemma mio_motr_obj_lock_unlock_witness :
  let w := ex_obj_world NULL [] in
  heap_ok (ow_heap w) ∧
  ∃ w' w2 w3 req, @mio_motr_obj_lock map_motr set_motr (MkPtr 1 0) w = Done (0, w') ∧
    @mio_motr_obj_unlock map_motr set_motr (MkPtr 1 0) w' = Done (0, w2) ∧
    @mio_motr_obj_unlock map_motr set_motr (MkPtr 1 0) w2 = Done (0, w3) ∧
    ow_locks w3 = [LockFini (MkPtr 3 0); LockPut req; LockFini (MkPtr 3 0); LockPut req;
      LockGet (MkPtr 3 0) req; LockInit (MkPtr 3 0)].
Proof.
  intros w. split; [apply ex_obj_heap_ok|].
  destruct (@mio_motr_obj_lock_unlock map_motr set_motr (MkPtr 1 0) ex_handle1 (MkM0Obj ex_obj_id 12 (MkFid 0 0)) w)
    as (rc & w' & H1 & H2).
  - apply ex_obj_heap_ok.
  - discriminate.
  - reflexivity.
  - reflexivity.
  - discriminate.
  - reflexivity.
  - reflexivity.
  - destruct H2 as (-> & req & w2 & w3 & _ & H3 & H4 & H5 & _ & _ & H6). exists w', w2, w3, req.
    split; [exact H1|]. split; [exact H4|]. split; [exact H5|]. rewrite H6, H3. reflexivity.
Defined.

Lemma mio_motr_obj_create_close_witness :
  let w := @set_handles map_motr set_motr {[1 := set_oh_obj (MkObj (MkObjId (replicate 16 1)) 0 hint_map_zero false attrs_zero None) ex_handle1]}
    (ex_obj_world NULL []) in
  heap_ok (ow_heap w) ∧
  ∃ w' w2, @obj_exec false map_motr set_motr
      (@mio_motr_obj_create false map_motr set_motr 1 (Some (MkPoolId 5 6)) (MkPtr 1 0)) ex_obj_op w =
      Done (0, Some CbComplete, w') ∧
    @mio_motr_obj_close false map_motr set_motr (MkPtr 1 0) w' = Done (0, w2) ∧
    @mio_motr_obj_close false map_motr set_motr (MkPtr 1 0) w2 = Fault UninitRead.
Proof.
  intros w. split; [apply ex_obj_heap_ok|].
  destruct (@mio_motr_obj_create_close false map_motr set_motr 1 (Some (MkPoolId 5 6)) (MkPtr 1 0) ex_obj_op w
    (set_oh_obj (MkObj (MkObjId (replicate 16 1)) 0 hint_map_zero false attrs_zero None) ex_handle1))
    as (w' & w2 & b & c & H1 & _ & _ & _ & _ & _ & _ & _ & H2 & _ & _ & H3).
  - exact set_motr_accepts.
  - split; reflexivity.
  - apply ex_obj_heap_ok.
  - reflexivity.
  - discriminate.
  - reflexivity.
  - reflexivity.
  - reflexivity.
  - reflexivity.
  - exists w', w2. exact (conj H1 (conj H2 H3)).
Defined.
