(* ===== verification/Lifecycle.v ===== *)
(** * Starting and stopping the library (src/mio.c, src/driver_motr.c, src/mio_driver.c)

    [mio_init] reads the configuration, asks the driver whether the user may use
    it, and starts the log, the driver and the telemetry; [mio_fini] undoes part of
    it.  The answers of the operating system and of Motr are one environment. *)

From Stdlib Require Import String.
From S2P Require Import Prelude CStr HintMap Types Hints Pools Logger Conf Telem Telemetry.
Open Scope Z_scope.

(** ** The environment *)

(** A user: its id, its group and its name. *)
Record passwd := MkPasswd { pw_uid : Z; pw_gid : Z; pw_name : list Z }.

(** What the functions of the operating system return: getpwuid(getuid()) with
    errno, getgrnam() and getgrouplist(). *)
Record os := MkOs {
  os_errno : Z;
  os_user : option passwd;
  os_getgrnam : list Z → option Z;
  os_groups : list Z → Z → list Z
}.

(** What Motr returns: m0_client_init() for a configuration, the state of the
    uber realm, the lookup of the index of attributes, and its creation. *)
Record motr_answers := MkMotrAnswers {
  m0_client_init : mio_motr_config → Z;
  m0_container_rc : Z;
  m0_lookup_rc : Z;
  m0_create_rc : Z;
  m0_create_exec_rc : Z
}.

Record env := MkEnv {
  env_os : os;
  env_motr : motr_answers;
  env_layout : Z → Z;                 (* m0_obj_unit_size_to_layout_id() *)
  env_parser_ok : bool;
  env_file_ok : bool;
  env_tokens : list yaml_token;
  env_now : list Z;
  env_stack : list Z;
  env_cwd : Z + list Z;
  env_appname : list Z;
  env_pid : list Z;
  env_fopen_rc : Z;
  env_clock : nat → list Z;
  env_stacks : nat → list Z;
  env_fwrite_ok : nat → bool
}.

(** ** The Motr driver *)

(** mio_motr_instance (a client is running) and mio_obj_attrs_kvs.mk_drv_kvs (the
    index of attributes is set). *)
Record motr_state := MkMotrState { ms_client : bool; ms_attrs_idx : bool }.

Section Driver.
Context (e : env).

(** The loop over the groups: whether it ends before the last. *)
Fixpoint find_gid (gids : list Z) (gid : Z) (i : Z) : Z :=
  match gids with [] => i | g :: gids => if g =? gid then i else find_gid gids gid (i + 1) end.

(** [mio_motr_user_perm]. *)
Definition mio_motr_user_perm (c : conf) (p : mplan) : outcome (Z * mplan) :=
  let o := env_os e in
  match os_user o with
  | None => Done (- os_errno o, p)
  | Some pw =>
      if pw_uid pw =? 0 then Done (0, p) else
      match motr_conf c with
      | None => Fault NullDeref
      | Some drv =>
          match mc_motr_group drv with
          | Uninit => Fault UninitRead
          | Init None => Done (- EPERM, p)
          | Init (Some group) =>
              match os_getgrnam o group with
              | None => Done (- EPERM, p)
              | Some gr_gid =>
                  let groups := os_groups o (pw_name pw) (pw_gid pw) in
                  let nr_grps := Z.of_nat (length groups) in
                  if nr_grps =? 0 then Done (- EPERM, p) else
                  let '(ok, p) := plan_next p in
                  if negb ok then Done (- ENOMEM, p) else
                  Done (if find_gid groups gr_gid 0 =? nr_grps then - EPERM else 0, p)
              end
          end
      end
  end.

(** [motr_create_obj_attrs_kvs]: an index that exists is used as it is. *)
Definition motr_create_obj_attrs_kvs (s : motr_state) (p : mplan) : Z * motr_state * mplan :=
  let a := env_motr e in
  let '(ok, p) := plan_next p in
  if negb ok then (- ENOMEM, s, p) else
  let rc :=
    if negb (m0_lookup_rc a =? - ENOENT) then m0_lookup_rc a
    else if m0_create_rc a <? 0 then m0_create_rc a
    else m0_create_exec_rc a in
  (rc, if rc =? 0 then MkMotrState (ms_client s) true else s, p).

Definition set_is_addb_on (b : cfield bool) (m : mio_motr_config) : mio_motr_config :=
  MkMotrConf (mc_is_oostore m) (mc_is_read_verify m) (mc_motr_local_addr m) (mc_ha_addr m) (mc_process_fid m)
    (mc_profile m) (mc_tm_recv_queue_min_len m) (mc_max_rpc_msg_size m) (mc_unit_size m) (mc_default_layout_id m)
    (mc_max_iosize_per_dev m) (mc_motr_group m) b.

(** [mio_motr_init]; the parameters of Motr are those of the configuration. *)
Definition mio_motr_init (c : conf) (s : motr_state) (p : mplan) : outcome (Z * conf * motr_state * mplan) :=
  match motr_conf c with
  | None => Fault NullDeref
  | Some drv =>
      let drv := set_is_addb_on (Init (m_telem_store_type (the_inst c) =? MIO_TM_ST_ADDB)) drv in
      let c := set_motr_conf (Some drv) c in
      let rc := m0_client_init (env_motr e) drv in
      if negb (rc =? 0) then Done (rc, c, s, p) else
      let stop s := MkMotrState false (ms_attrs_idx s) in
      let s := MkMotrState true (ms_attrs_idx s) in
      let rc := m0_container_rc (env_motr e) in
      if negb (rc =? 0) then Done (rc, c, stop s, p) else
      let '(rc, s, p) := motr_create_obj_attrs_kvs s p in
      if negb (rc =? 0) then Done (rc, c, stop s, p) else Done (0, c, s, p)
  end.

(** [mio_motr_fini]: m0_idx_fini() and m0_client_fini(); the pointer to the index
    stays. *)
Definition mio_motr_fini (s : motr_state) : motr_state := MkMotrState false (ms_attrs_idx s).

End Driver.

(** ** The table of drivers *)

(** The static tables of operations that a driver registers, by name. *)
Inductive drv_table :=
| mio_motr_sys_ops
| mio_motr_pool_ops
| mio_motr_op_ops
| mio_motr_obj_ops
| mio_motr_kvs_ops
| mio_motr_comp_obj_ops.

(** An entry of the static array mio_drivers; at first all pointers are NULL. *)
Record drv_entry := MkDrvEntry {
  de_sys_ops : option drv_table;
  de_pool_ops : option drv_table;
  de_op_ops : option drv_table;
  de_obj_ops : option drv_table;
  de_kvs_ops : option drv_table;
  de_comp_obj_ops : option drv_table
}.

Definition MIO_DRIVER_NUM : Z := 1.
Definition mio_drivers_zero : list drv_entry :=
  replicate (Z.to_nat MIO_DRIVER_NUM) (MkDrvEntry None None None None None None).

(** [mio_driver_get]: the pointer it returns is used, so an id outside the array
    reads beyond it. *)
Definition mio_driver_get (driver_id : Z) (drivers : list drv_entry) : outcome drv_entry :=
  if driver_id <? 0 then Fault OutOfBounds else
  match drivers !! Z.to_nat driver_id with Some d => Done d | None => Fault OutOfBounds end.

(** [mio_driver_register]. *)
Definition mio_driver_register (driver_id : Z)
    (sys_ops pool_ops op_ops obj_ops kvs_ops comp_obj_ops : option drv_table) (drivers : list drv_entry)
  : outcome (list drv_entry) :=
  _ ← mio_driver_get driver_id drivers;
  Done (<[Z.to_nat driver_id := MkDrvEntry sys_ops pool_ops op_ops obj_ops kvs_ops comp_obj_ops]> drivers).

(** [mio_motr_driver_register], [mio_drivers_register]. *)
Definition mio_motr_driver_register : list drv_entry → outcome (list drv_entry) :=
  mio_driver_register MIO_MOTR (Some mio_motr_sys_ops) (Some mio_motr_pool_ops) (Some mio_motr_op_ops)
    (Some mio_motr_obj_ops) (Some mio_motr_kvs_ops) (Some mio_motr_comp_obj_ops).

Definition mio_drivers_register (drivers : list drv_entry) : outcome (list drv_entry) :=
  mio_motr_driver_register drivers.

(** m_driver->md_sys_ops, read before a function of it is called. *)
Definition driver_sys_ops (driver_id : Z) (drivers : list drv_entry) : outcome drv_table :=
  d ← mio_driver_get driver_id drivers;
  match de_sys_ops d with Some t => Done t | None => Fault NullDeref end.

(** ** The library *)
Inductive lib_inst := LibNull | LibLive | LibFreed.

(** The pointer mio_instance; the configuration with the instance's fields; the
    log, which is the world of the telemetry; mio_sys_hints; the Motr driver;
    the coming results of malloc(); and the table of drivers. *)
Record lib := MkLib {
  lb_inst : lib_inst;
  lb_conf : conf;
  lb_telem : telem log_state;
  lb_sys_hints : mio_hint_map;
  lb_motr : motr_state;
  lb_plan : mplan;
  lb_drivers : list drv_entry
}.

(** The pointer to the driver's thread. *)
Inductive thread_ptr := ThreadNull | ThreadLive | ThreadFreed.

(** The instance just allocated: zero. *)
Definition inst_zero : mio_inst := MkInst 0 (Init None) 0 (Init None) 0 false false.

Definition field_ptr (f : cfield cstr) : option (list Z) := match f with Init s => s | Uninit => None end.

Definition log_is_null (w : log_state) : bool := match mio_log_file w with LogNull => true | _ => false end.

Section Library.
Context (e : env).
(** Whether the ADDB store is compiled in, and the operations of the stores. *)
Context (motr_addb : bool) (addb_ops log_ops : rec_ops log_state).

(** mio_log_init() in this environment. *)
Definition env_log_init (level : Z) (dir : option (list Z)) (w : log_state) : outcome (Z * log_state) :=
  mio_log_init level (env_now e) (env_stack e) dir (env_cwd e) (env_appname e) (env_pid e) (env_fopen_rc e) w.

Definition env_log (lev : Z) (msg : string) (w : log_state) : outcome log_state :=
  mio_log (env_clock e) (env_stacks e) (env_fwrite_ok e) lev (str msg ++ [10]) w.

(** The label error: the instance is released and the configuration after it. *)
Definition init_error (rc : Z) (l : lib) : outcome (Z * lib) :=
  c ← mio_conf_fini (lb_conf l);
  Done (rc, MkLib LibNull c (lb_telem l) (lb_sys_hints l) (lb_motr l) (lb_plan l) (lb_drivers l)).

(** [mio_init]. *)
Definition mio_init (l : lib) : outcome (Z * lib) :=
  let '(ok, p) := plan_next (lb_plan l) in
  let t := lb_telem l in let m := lb_motr l in let hints := lb_sys_hints l in
  if negb ok then Done (- ENOMEM, MkLib LibNull (lb_conf l) t hints m p (lb_drivers l)) else
  ds ← mio_drivers_register (lb_drivers l);
  '(rc, c, p) ← mio_conf_init (env_layout e) (env_parser_ok e) (env_file_ok e) (env_tokens e)
                  (set_inst inst_zero (lb_conf l)) p;
  if rc <? 0 then Done (rc, MkLib LibNull c t hints m p ds) else
  _ ← driver_sys_ops (m_driver_id (the_inst c)) ds;
  '(rc, p) ← mio_motr_user_perm e c p;
  if rc <? 0 then init_error rc (MkLib LibLive c t hints m p ds) else
  '(rc, w) ← env_log_init (m_log_level (the_inst c)) (field_ptr (m_log_dir (the_inst c))) (te_world t);
  let t := set_world w t in
  if rc <? 0 then init_error rc (MkLib LibLive c t hints m p ds) else
  '(rc, c, m, p) ← mio_motr_init e c m p;
  if rc <? 0 then
    w ← env_log MIO_ERROR "Initialising MIO driver failed!" (te_world t);
    init_error rc (MkLib LibLive c (set_world w t) hints m p ds)
  else
  let inst := the_inst c in
  let telem_conf := MkTmConf (m_telem_store_type inst) (field_ptr (m_telem_prefix inst)) false
    (if m_telem_store_type inst =? MIO_TM_ST_LOG then field_ptr (m_log_dir inst) else None) in
  '(rc, t, p) ← mio_telemetry_init motr_addb addb_ops log_ops 0 (m_driver_id inst) log_is_null
                  (env_log_init MIO_TELEMETRY) telem_conf t p;
  if rc <? 0 then
    w ← env_log MIO_ERROR "Initialising MIO telemetry failed!" (te_world t);
    init_error rc (MkLib LibLive c (set_world w t) hints m p ds)
  else
  '(_, h, p) ← mio_hints_init (Some hints) p;
  Done (rc, MkLib LibLive c t (default hints h) m p ds).

(** [mio_fini]: the pointer is not set to NULL. *)
Definition mio_fini (l : lib) : outcome lib :=
  match lb_inst l with
  | LibNull => Done l
  | inst =>
      t ← mio_telemetry_fini (lb_telem l);
      match inst with
      | LibLive =>
          _ ← driver_sys_ops (m_driver_id (the_inst (lb_conf l))) (lb_drivers l);
          c ← mio_conf_fini (lb_conf l);
          Done (MkLib LibFreed c t (lb_sys_hints l) (mio_motr_fini (lb_motr l)) (lb_plan l) (lb_drivers l))
      | _ => Fault UseAfterFree       (* mio_instance->m_driver *)
      end
  end.

(** [mio_thread_init] with [mio_motr_thread_init]; [thread] is the pointer
    mt_drv_thread.  Without an instance it returns 0. *)
Definition mio_thread_init (l : lib) (thread : thread_ptr) : outcome (Z * thread_ptr * lib) :=
  match lb_inst l with
  | LibNull => Done (0, thread, l)
  | LibFreed => Fault UseAfterFree
  | LibLive =>
      let '(ok, p) := plan_next (lb_plan l) in
      let l := MkLib (lb_inst l) (lb_conf l) (lb_telem l) (lb_sys_hints l) (lb_motr l) p (lb_drivers l) in
      if ok then Done (0, ThreadLive, l) else Done (- ENOMEM, thread, l)
  end.

(** [mio_thread_fini] with [mio_motr_thread_fini]. *)
Definition mio_thread_fini (l : lib) (thread : thread_ptr) : outcome thread_ptr :=
  match lb_inst l, thread with
  | LibNull, _ => Done thread
  | LibFreed, _ => Fault UseAfterFree
  | LibLive, ThreadNull => Done ThreadNull
  | LibLive, ThreadLive => Done ThreadFreed
  | LibLive, ThreadFreed => Fault DoubleFree
  end.
End Library.

(** ** Permission *)

Lemma find_gid_spec gids gid i :
  i <= find_gid gids gid i <= i + Z.of_nat (length gids) ∧
  (find_gid gids gid i = i + Z.of_nat (length gids) ↔ gid ∉ gids).
Proof.
  revert i. induction gids as [|g gids IH]; intros i; cbn [find_gid length].
  - split; [lia|]. split; [intros _; apply not_elem_of_nil|simpl; lia].
  - destruct (Z.eqb_spec g gid) as [->|Hne].
    + split; [lia|]. split; [lia|]. intros Hn. destruct Hn. left.
    + destruct (IH (i + 1)) as [H1 H2]. split; [lia|]. rewrite not_elem_of_cons, <- H2. split; [intros; split; [done|lia]|lia].
Qed.

(** Who may use the driver: root, and the members of the group. *)
Definition may_use (o : os) (group : cfield cstr) : bool :=
  match os_user o with
  | None => false
  | Some pw =>
      (pw_uid pw =? 0) ||
      match group with
      | Init (Some g) =>
          match os_getgrnam o g with
          | Some gid => bool_decide (gid ∈ os_groups o (pw_name pw) (pw_gid pw))
          | None => false
          end
      | _ => false
      end
  end.


(** ** Starting *)

Lemma init_error_Done rc l rc' l' :
  init_error rc l = Done (rc', l') →
  rc' = rc ∧ lb_inst l' = LibNull ∧ motr_conf (lb_conf l') = None ∧ mps_nr_pools (the_pools (lb_conf l')) = 0 ∧
  lb_motr l' = lb_motr l.
Proof.
  intros H. apply outcome_bind_Done in H as (c & Hc & H). injection H as <- <-. simpl.
  unfold mio_conf_fini in Hc. rewrite conf_free_drivers_eq in Hc. case_match; [|done]. injection Hc as <-. done.
Qed.

(** The answers of Motr follow its convention: 0 or a negative error. *)
Definition motr_convention (a : motr_answers) : Prop :=
  (∀ drv, m0_client_init a drv <= 0) ∧ m0_container_rc a <= 0 ∧ m0_lookup_rc a <= 0 ∧
  m0_create_rc a <= 0 ∧ m0_create_exec_rc a <= 0.

Lemma mio_motr_init_Done e c m p rc c' m' p' :
  motr_convention (env_motr e) → mio_motr_init e c m p = Done (rc, c', m', p') →
  (rc = 0 ∧ ms_client m' = true ∧ ms_attrs_idx m' = true) ∨
  (rc < 0 ∧ (m' = m ∨ ms_client m' = false)).
Proof.
  intros (Ha & Hb & Hc & Hd & He) H. unfold mio_motr_init in H. destruct (motr_conf c) as [drv|]; [|done].
  set (rc0 := m0_client_init _ _) in H. assert (Hrc0 : rc0 <= 0) by apply Ha.
  destruct (Z.eqb_spec rc0 0) as [Hz|Hn]; cbn [negb] in H; [|injection H as <- <- <- <-; right; split; [lia|by left]].
  destruct (Z.eqb_spec (m0_container_rc (env_motr e)) 0); cbn [negb] in H;
    [|injection H as <- <- <- <-; right; split; [lia|by right]].
  destruct (motr_create_obj_attrs_kvs e _ p) as [[rc1 s1] p1] eqn:E.
  assert (Hk : rc1 <= 0 ∧ (rc1 = 0 → s1 = MkMotrState true true)).
  { unfold motr_create_obj_attrs_kvs in E. destruct (plan_next p) as [[] q]; cbn [negb] in E.
    - cbn [ms_client ms_attrs_idx] in E. set (r := if negb _ then _ else _) in E.
      assert (Hr : r <= 0) by (unfold r; repeat case_match; lia).
      destruct (Z.eqb_spec r 0); injection E as <- <- <-; split; try done; lia.
    - injection E as <- <- <-. split; [unfold ENOMEM; lia|done]. }
  destruct Hk as [Hle Hs]. destruct (Z.eqb_spec rc1 0) as [->|]; cbn [negb] in H; injection H as <- <- <- <-.
  - left. by rewrite Hs.
  - right. split; [lia|by right].
Qed.

(** After the registration the table gives Motr's operations, and only for the id
    of Motr. *)
Lemma driver_sys_ops_registered drivers ds id t :
  mio_drivers_register drivers = Done ds → length drivers = Z.to_nat MIO_DRIVER_NUM →
  driver_sys_ops id ds = Done t ↔ id = MIO_MOTR ∧ t = mio_motr_sys_ops.
Proof.
  destruct drivers as [|d [|]]; intros H Hl; try done. injection H as <-.
  unfold driver_sys_ops, mio_driver_get. destruct (Z.ltb_spec id 0).
  { split; [done|]. unfold MIO_MOTR. lia. }
  destruct (Z.to_nat id) as [|n] eqn:E; simpl.
  - split; [intros [= <-]; split; [unfold MIO_MOTR; lia|done]|by intros [_ ->]].
  - split; [done|]. intros [-> _]. done.
Qed.

(** What a start gives: a live instance, Motr's client and the index of attributes,
    and a store for the telemetry as configured. *)
Definition started (l : lib) : Prop :=
  lb_inst l = LibLive ∧ ms_client (lb_motr l) = true ∧ ms_attrs_idx (lb_motr l) = true ∧
  (te_ops (lb_telem l) = None ↔ m_telem_store_type (the_inst (lb_conf l)) = MIO_TM_ST_NONE) ∧
  m_driver_id (the_inst (lb_conf l)) = MIO_MOTR ∧
  driver_sys_ops MIO_MOTR (lb_drivers l) = Done mio_motr_sys_ops.

Lemma mio_telemetry_init_ops {W} motr_addb (addb_ops log_ops : rec_ops W) irc did lnull linit conf t p rc t' p' :
  mio_telemetry_init motr_addb addb_ops log_ops irc did lnull linit conf t p = Done (rc, t', p') → 0 <= rc →
  irc = 0 → (te_ops t' = None ↔ mtc_type conf = MIO_TM_ST_NONE).
Proof.
  intros H Hrc Hirc. unfold mio_telemetry_init in H. apply outcome_bind_Done in H as ([[rc1 t1] p1] & _ & H).
  destruct (rc1 <? 0) eqn:E1; [injection H as <- <- <-; apply Z.ltb_lt in E1; lia|].
  destruct (Z.eqb_spec (mtc_type conf) MIO_TM_ST_NONE) as [Ht|Ht]; [by injection H as <- <- <-|].
  split; [|done]. intros Hnone. exfalso. revert H.
  destruct (motr_addb && _).
  { destruct (_ && (irc <? 0)) eqn:E2.
    - apply andb_true_iff in E2 as [_ E2%Z.ltb_lt]. lia.
    - destruct (_ && negb _); intros H; injection H as <- <- <-; [unfold EINVAL in Hrc; lia|done]. }
  destruct (_ =? MIO_TM_ST_LOG).
  { destruct (_ && lnull _).
    - intros H. apply outcome_bind_Done in H as ([rc2 w] & _ & H). destruct (rc2 <? 0) eqn:E3.
      + injection H as <- <- <-. apply Z.ltb_lt in E3. lia.
      + by injection H as <- <- <-.
    - intros H. by injection H as <- <- <-. }
  intros H. injection H as <- _ _. unfold EOPNOTSUPP in Hrc. lia.
Qed.


(** Stopping the library.  When the strings of the Motr section were all
    configured, mio_fini() after a successful start releases the telemetry's
    configuration, Motr's client, the pools and the driver's configuration.  But
    the pointer to the instance stays: a second mio_fini() and the functions on
    threads use or release memory that is gone. *)
Theorem mio_fini_dangling (l : lib)
  (Hstarted : started l)
  (Htelem : te_prefix (lb_telem l) ≠ SFreed ∧ te_store_conf (lb_telem l) ≠ SFreed)
  (Hstrings : match motr_conf (lb_conf l) with Some m => motr_strings_set m = true | None => True end) :
  ∃ l', mio_fini l = Done l' ∧
    te_ops (lb_telem l') = None ∧ ms_client (lb_motr l') = false ∧
    motr_conf (lb_conf l') = None ∧ mps_nr_pools (the_pools (lb_conf l')) = 0 ∧
    (∃ f, mio_fini l' = Fault f) ∧ ∀ thread, mio_thread_init l' thread = Fault UseAfterFree ∧ mio_thread_fini l' thread = Fault UseAfterFree.
Proof.
  destruct Hstarted as (Hi & _ & _ & _ & Hd & Hget). unfold mio_fini. rewrite Hi.
  assert (Ht : ∃ t, mio_telemetry_fini (lb_telem l) = Done t ∧ te_ops t = None ∧
    te_prefix t ≠ SLive [] ∧ ((∀ s, te_prefix t ≠ SLive s) ∧ ∀ s, te_store_conf t ≠ SLive s)).
  { destruct Htelem as [H1 H2]. unfold mio_telemetry_fini, telemetry_conf_free.
    destruct (te_prefix (lb_telem l)) eqn:E1; try done; destruct (te_store_conf (lb_telem l)) eqn:E2; try done;
      (eexists; split; [reflexivity|]; by split_and!). }
  destruct Ht as (t & -> & Hops & _ & Hp & Hs). cbn [mbind outcome_bind].
  rewrite Hd, Hget. cbn [mbind outcome_bind]. unfold mio_conf_fini. rewrite conf_free_drivers_eq.
  assert (Hset : (if motr_conf (conf_free_mio_pools (lb_conf l)) is Some m then motr_strings_set m else true) = true).
  { simpl. by destruct (motr_conf (lb_conf l)). }
  rewrite Hset. cbn [mbind outcome_bind]. eexists. split; [reflexivity|]. simpl. split_and!; try done.
  unfold mio_fini. cbn [lb_inst lb_telem]. destruct (mio_telemetry_fini t) as [t'|f]; [|by exists f].
  by exists UseAfterFree.
Qed.

(** ** Witnesses *)
Definition ex_os : os :=
  MkOs 2 (Some (MkPasswd 1000 100 (str "mio"))) (λ g, if decide (g = str "motr") then Some 7 else None) (λ _ _, [100; 7]).
Definition ex_answers : motr_answers := MkMotrAnswers (λ _, 0) 0 (- ENOENT) 0 0.
Definition ex_env : env :=
  MkEnv (MkOs 2 (Some (MkPasswd 0 0 (str "root"))) (λ _, None) (λ _ _, [])) ex_answers (λ x, x) true true ex_tokens
    (str "2021") (replicate 64 0) (inr (str "/tmp")) (str "mio") (str "12") 0 (λ _, str "2021") (λ _, replicate 64 0) (λ _, true).
Definition ex_no_ops : rec_ops log_state := MkRecOps None None None None.
Definition ex_lib (prefix : sptr) : lib :=
  MkLib LibNull conf_zero (MkTelem prefix SNull None (MkLog 0 LogNull 0 0)) hint_map_zero (MkMotrState false false) [] mio_drivers_zero.

Definition ex_drv (group : list Z) : mio_motr_config :=
  MkMotrConf Uninit Uninit (Init None) (Init None) (Init None) (Init None) Uninit Uninit Uninit Uninit 0
    (Init (Some group)) Uninit.



(** A failing store leaves Motr's client running. *)
Lemma mio_init_leaves_client :
  ∃ l', mio_init (MkEnv (env_os ex_env) ex_answers (λ x, x) true true
      (entry_tokens "MIO_DRIVER" (str "MOTR") ++ entry_tokens "MIO_TELEMETRY_STORE" (str "LOG") ++
       entry_tokens "MOTR_INST_ADDR" (str "a") ++ entry_tokens "MOTR_HA_ADDR" (str "b") ++
       entry_tokens "MOTR_PROFILE" (str "c") ++ entry_tokens "MOTR_PROCESS_FID" (str "d") ++
       entry_tokens "MIO_LOG_DIR" (str "/l") ++ [YAML_STREAM_END_TOKEN])
      (str "2021") (replicate 64 0) (inr (str "/tmp")) (str "mio") (str "12") 0 (λ _, str "2021") (λ _, replicate 64 0) (λ _, true))
    true ex_no_ops ex_no_ops
    (MkLib LibNull conf_zero (MkTelem SNull SNull None (MkLog 0 LogNull 0 0)) hint_map_zero (MkMotrState false false)
       (replicate 8 true ++ [false]) mio_drivers_zero) = Done (- ENOMEM, l') ∧
  lb_inst l' = LibNull ∧ ms_client (lb_motr l') = true.
Proof. eexists. split; [vm_compute; reflexivity|by split]. Qed.

Definition ex_started : lib :=
  MkLib LibLive (set_inst (MkInst 0 (Init None) 0 (Init None) 0 true true)
      (set_motr_conf (Some (ex_drv (str "motr"))) conf_zero))
    (MkTelem SNull SNull None (MkLog 0 (LogOpen []) 0 0)) hint_map_zero (MkMotrState true true) []
    [MkDrvEntry (Some mio_motr_sys_ops) (Some mio_motr_pool_ops) (Some mio_motr_op_ops)
       (Some mio_motr_obj_ops) (Some mio_motr_kvs_ops) (Some mio_motr_comp_obj_ops)].

Lemma mio_fini_dangling_witness :
  started ex_started ∧ ∃ l', mio_fini ex_started = Done l' ∧ mio_thread_init l' ThreadNull = Fault UseAfterFree.
Proof.
  assert (Hs : started ex_started) by (split_and!; vm_compute; congruence || done).
  split; [exact Hs|].
  destruct (mio_fini_dangling ex_started Hs) as (l' & H1 & _ & _ & _ & _ & _ & H2).
  - by split.
  - reflexivity.
  - exists l'. split; [exact H1|apply (H2 ThreadNull)].
Defined.
