(* ===== verification/IoExec.v ===== *)
(** * Reading and writing objects (src/driver_motr_obj.c, lines 943-1397)

    [mio_motr_obj_writev] and [mio_motr_obj_readv] sort and align the vectors and
    then launch one Motr operation after the other, each started by the
    post-processing action of the one before: first the pages that must be read
    before they are written, then the aligned vectors. *)

From stdpp Require Import sorting.
From S2P Require Import Prelude ObjId HintMap Mem Types IoVec IoAlign DriverOp.

(** ** Motr's side

    The contents of the object in Motr, and the allocation of Motr's vectors,
    whose result is a return code. *)
Class MotrStore := {
  mstore : Type;
  ms_read : mstore → Z → Z;
  ms_write : mstore → Z → Z → (Z → Z) → mstore;
  ms_read_write : ∀ s off len f x,
    ms_read (ms_write s off len f) x = if (off <=? x) && (x <? off + len) then f (x - off) else ms_read s x;
  m0_bufvec_empty_alloc : Z → Z;
  m0_bufvec_alloc : Z → Z;
  m0_indexvec_alloc : Z → Z
}.

Inductive m0_obj_opcode := M0_OC_READ | M0_OC_WRITE | M0_OC_ALLOC | M0_OC_FREE.
#[global] Instance m0_obj_opcode_eq_dec : EqDecision m0_obj_opcode.
Proof. solve_decision. Defined.

(** A Motr read or write as [m0_obj_op] builds it: the opcode and, for each
    element, the object range (indexvec) with the memory area (bufvec). *)
Record m0_io := MkIo { io_code : m0_obj_opcode; io_vecs : list mio_iovec }.

(** struct motr_obj_rw_op_args, at [rwoa_self]. *)
Record rw_op_args := MkRwOpArgs {
  rwoa_self : ptr;
  rwoa_motr_rw_ext : ptr;
  rwoa_motr_rw_data : ptr;
  rwoa_motr_rw_attr : ptr
}.

(** The post-processing actions of reads and writes. *)
Inductive rw_pp := PpWrite | PpReadBeforeWrite | PpRead.

Abbreviation rw_mop := (mio_op m0_io rw_op_args rw_pp).

(** What the actions share: the arguments (with the object), memory, and the
    contents of the object in Motr. *)
Record rw_world `{MotrStore} := MkWorld {
  w_args : rw_args;
  w_heap : heap;
  w_store : mstore
}.

Definition SIZEOF_INDEXVEC : Z := 24.
Definition SIZEOF_BUFVEC : Z := 24.
Definition SIZEOF_RW_OP_ARGS : Z := 24.

Definition set_aligned_progress (n : nat) (args : rw_args) : rw_args :=
  MkRwArgs (rwa_obj args) (rwa_is_write args) (rwa_max_eow args) (rwa_orig_iovs args)
    (rwa_sorted_iovs args) n (rwa_aligned args) (rwa_rbw_progress args) (rwa_rbw args)
    (rwa_dc args) (rwa_extra_pages args) (p_args args) (p_sorted args) (p_aligned args)
    (p_rbw args) (p_dc_src args) (p_dc_dst args) (p_extra args).

Definition set_rbw_progress (n : nat) (args : rw_args) : rw_args :=
  MkRwArgs (rwa_obj args) (rwa_is_write args) (rwa_max_eow args) (rwa_orig_iovs args)
    (rwa_sorted_iovs args) (rwa_aligned_progress args) (rwa_aligned args) n (rwa_rbw args)
    (rwa_dc args) (rwa_extra_pages args) (p_args args) (p_sorted args) (p_aligned args)
    (p_rbw args) (p_dc_src args) (p_dc_dst args) (p_extra args).

Definition set_rbw (rbw : list mio_iovec) (args : rw_args) : rw_args :=
  with_vecs (rwa_aligned args) (MkVec (v_cap (rwa_rbw args)) rbw) (rwa_dc args)
    (rwa_extra_pages args) args.

Definition set_is_write (w : bool) (args : rw_args) : rw_args :=
  MkRwArgs (rwa_obj args) w (rwa_max_eow args) (rwa_orig_iovs args)
    (rwa_sorted_iovs args) (rwa_aligned_progress args) (rwa_aligned args) (rwa_rbw_progress args)
    (rwa_rbw args) (rwa_dc args) (rwa_extra_pages args) (p_args args) (p_sorted args)
    (p_aligned args) (p_rbw args) (p_dc_src args) (p_dc_dst args) (p_extra args).

(** [motr_obj_data_copy]: the copies in order. *)
Fixpoint data_copy_loop (dcs : list (mio_iovec * mio_iovec)) (h : heap) : outcome heap :=
  match dcs with
  | [] => Done h
  | (src, dst) :: dcs' =>
      h ← mio_mem_copy (ptr_add (miov_base dst) (miov_off dst)) (ptr_add (miov_base src) (miov_off src))
            (miov_len dst) h;
      data_copy_loop dcs' h
  end.

Definition motr_obj_data_copy (args : rw_args) (h : heap) : outcome heap :=
  data_copy_loop (v_items (rwa_dc args)) h.

(** [motr_obj_rw_buf_index_vecs_free].  The arrays inside the three structures
    belong to Motr; [data->ov_buf] is read, so [data] must be live. *)
Definition motr_obj_rw_buf_index_vecs_free (ext data attr : ptr) (h : heap) : outcome heap :=
  h ← mio_mem_free ext h;
  _ ← mem_access h data SIZEOF_BUFVEC;
  h ← mio_mem_free data h;
  mio_mem_free attr h.

Section Exec.
Context `{IoEnv} `{MotrStore}.

(** [motr_obj_rw_buf_index_vecs_alloc]: when one of the three structures cannot
    be allocated [rc] is still 0. *)
Definition motr_obj_rw_buf_index_vecs_alloc (iovcnt : Z) (h : heap)
  : outcome (Z * (ptr * ptr * ptr) * heap) :=
  let '(ext, h) := mio_mem_alloc SIZEOF_INDEXVEC h in
  let '(data, h) := mio_mem_alloc SIZEOF_BUFVEC h in
  let '(attr, h) := mio_mem_alloc SIZEOF_BUFVEC h in
  if decide (ext = NULL ∨ data = NULL ∨ attr = NULL) then
    h ← motr_obj_rw_buf_index_vecs_free ext data attr h;
    Done (0, (ext, data, attr), h)
  else
    rc ← elvis (m0_bufvec_empty_alloc iovcnt)
           (elvis (m0_bufvec_alloc iovcnt) (Done (m0_indexvec_alloc iovcnt)));
    if rc <? 0 then
      h ← motr_obj_rw_buf_index_vecs_free ext data attr h;
      Done (rc, (ext, data, attr), h)
    else Done (0, (ext, data, attr), h).

(** [motr_obj_io_op_fini]. *)
Definition motr_obj_io_op_fini (args : rw_op_args) (h : heap) : outcome heap :=
  h ← motr_obj_rw_buf_index_vecs_free (rwoa_motr_rw_ext args) (rwoa_motr_rw_data args)
        (rwoa_motr_rw_attr args) h;
  mio_mem_free (rwoa_self args) h.

(** [motr_obj_rw_one_op]: builds and launches one Motr operation. *)
Definition motr_obj_rw_one_op (iov : list mio_iovec) (opcode : m0_obj_opcode) (op_pp : rw_pp)
    (op : rw_mop) (h : heap) : outcome (Z * rw_mop * heap) :=
  _ ← c_assert (bool_decide (opcode = M0_OC_READ ∨ opcode = M0_OC_WRITE));
  let iovcnt := Z.of_nat (length iov) in
  if iovcnt <? 1 then Done (- EINVAL, op, h) else
  let '(op_args, h) := mio_mem_alloc SIZEOF_RW_OP_ARGS h in
  if decide (op_args = NULL) then Done (- ENOMEM, op, h) else
  '(rc, vecs, h) ← motr_obj_rw_buf_index_vecs_alloc iovcnt h;
  let '(ext, data, attr) := vecs in
  if rc <? 0 then h ← mio_mem_free op_args h; Done (rc, op, h) else
  (* the loop that fills the vectors *)
  _ ← mem_access h data SIZEOF_BUFVEC;
  _ ← mem_access h ext SIZEOF_INDEXVEC;
  _ ← mem_access h attr SIZEOF_BUFVEC;
  let '(rc, op, h) := mio_driver_op_add op (Some op_pp) (MkIo opcode iov)
                        (Some (MkRwOpArgs op_args ext data attr)) h in
  if rc <? 0 then
    h ← motr_obj_rw_buf_index_vecs_free ext data attr h;
    Done (rc, op, h)
  else Done (0, op, h).

(** The loop of [motr_obj_rw_aligned]: how many of the vectors fit. *)
Fixpoint batch (iovs : list mio_iovec) (io_size max_size_per_op : Z) : nat :=
  match iovs with
  | [] => O
  | v :: iovs' =>
      if max_size_per_op <? u64 (io_size + miov_len v) then O
      else S (batch iovs' (u64 (io_size + miov_len v)) max_size_per_op)
  end.

(** [motr_obj_rw_aligned]: one operation for the vectors from [iov_cursor] on
    that fit; the new cursor comes back. *)
Definition motr_obj_rw_aligned (obj : mio_obj) (iovs : list mio_iovec) (iov_cursor : nat)
    (opcode : m0_obj_opcode) (op_pp : rw_pp) (op : rw_mop) (h : heap)
  : outcome (Z * nat * rw_mop * heap) :=
  r ← motr_obj_max_size_per_op obj;
  match r with
  | inl rc => Done (rc, iov_cursor, op, h)
  | inr max_size_per_op =>
      let iovcnt_to_rw := batch (drop iov_cursor iovs) 0 max_size_per_op in
      if decide (iovcnt_to_rw = O) then Done (- E2BIG, iov_cursor, op, h) else
      '(rc, op, h) ← motr_obj_rw_one_op (take iovcnt_to_rw (drop iov_cursor iovs)) opcode op_pp op h;
      Done (rc, (iov_cursor + iovcnt_to_rw)%nat, op, h)
  end.

(** [motr_obj_rw_aligned] on the aligned vectors and on the read-before-write
    vectors, with the cursor in the arguments. *)
Definition rw_next_aligned (opcode : m0_obj_opcode) (op_pp : rw_pp) (args : rw_args) (op : rw_mop)
    (h : heap) : outcome (Z * rw_args * rw_mop * heap) :=
  '(rc, cursor, op, h) ← motr_obj_rw_aligned (rwa_obj args) (v_items (rwa_aligned args))
                           (rwa_aligned_progress args) opcode op_pp op h;
  Done (rc, set_aligned_progress cursor args, op, h).

Definition rw_next_rbw (opcode : m0_obj_opcode) (op_pp : rw_pp) (args : rw_args) (op : rw_mop)
    (h : heap) : outcome (Z * rw_args * rw_mop * heap) :=
  '(rc, cursor, op, h) ← motr_obj_rw_aligned (rwa_obj args) (v_items (rwa_rbw args))
                           (rwa_rbw_progress args) opcode op_pp op h;
  Done (rc, set_rbw_progress cursor args, op, h).

(** The return value of the post-processing actions. *)
Definition pp_rc (rc : Z) : Z := if rc <? 0 then rc else MIO_DRV_OP_NEXT.

(** [motr_obj_write_pp].  [attrs_put] is the [motr_obj_attrs_query] that stores
    the new size.  rwa_max_eow is read after the arguments are freed. *)
Definition motr_obj_write_pp (attrs_put : mio_obj → rw_mop → heap → outcome (Z * rw_mop * heap))
    (op : rw_mop) (w : rw_world) : outcome (Z * rw_mop * rw_world) :=
  let args := w_args w in
  if decide (rwa_aligned_progress args ≠ vec_len (rwa_aligned args)) then
    '(rc, args, op, h) ← rw_next_aligned M0_OC_WRITE PpWrite args op (w_heap w);
    Done (pp_rc rc, op, MkWorld _ args h (w_store w))
  else
    h ← motr_obj_rw_args_free args (w_heap w);
    _ ← mem_access h (p_args args) SIZEOF_RW_ARGS;
    if rwa_max_eow args <=? moa_size (mo_attrs (rwa_obj args)) then
      Done (MIO_DRV_OP_FINAL, op, MkWorld _ args h (w_store w))
    else
      let obj := set_moa_size (rwa_max_eow args) (rwa_obj args) in
      '(rc, op, h) ← attrs_put obj op h;
      Done (pp_rc rc, op, MkWorld _ args h (w_store w)).

(** [motr_obj_read_before_write_pp]: the batches of pages after the first are
    launched with M0_OC_WRITE. *)
Definition motr_obj_read_before_write_pp (op : rw_mop) (w : rw_world)
  : outcome (Z * rw_mop * rw_world) :=
  let args := w_args w in
  '(rc, args, op, h) ←
    (if decide (rwa_rbw_progress args = vec_len (rwa_rbw args)) then
       h ← motr_obj_data_copy args (w_heap w);
       rw_next_aligned M0_OC_WRITE PpWrite args op h
     else rw_next_rbw M0_OC_WRITE PpReadBeforeWrite args op (w_heap w));
  Done (pp_rc rc, op, MkWorld _ args h (w_store w)).

(** [motr_obj_read_pp]. *)
Definition motr_obj_read_pp (op : rw_mop) (w : rw_world) : outcome (Z * rw_mop * rw_world) :=
  let args := w_args w in
  if decide (vec_len (rwa_aligned args) = rwa_aligned_progress args) then
    h ← motr_obj_data_copy args (w_heap w);
    h ← motr_obj_rw_args_free args h;
    Done (MIO_DRV_OP_FINAL, op, MkWorld _ args h (w_store w))
  else
    '(rc, args, op, h) ← rw_next_aligned M0_OC_READ PpRead args op (w_heap w);
    Done (pp_rc rc, op, MkWorld _ args h (w_store w)).

(** ** motr_obj_read_before_write_optimise *)

(** [dst_iovs[j]]: the elements after the last one in use are zero. *)
Definition dst_at (args : rw_args) (j : nat) : outcome mio_iovec :=
  match v_items (rwa_dc args) !! j with
  | Some (_, dst) => Done dst
  | None => if decide (j < v_cap (rwa_dc args))%nat then Done iov_zero else Fault OutOfBounds
  end.

(** The loop over [j]: the first copy with destination page [base]. *)
Fixpoint find_base (base : ptr) (dcs : list (mio_iovec * mio_iovec)) (j : nat) : nat :=
  match dcs with
  | [] => j
  | (_, dst) :: dcs' => if decide (base = miov_base dst) then j else find_base base dcs' (S j)
  end.

(** The loop over [k]: the length of the adjoining copies into the same page. *)
Fixpoint merge_len (base : ptr) (st_off len pagesize : Z) (dcs : list (mio_iovec * mio_iovec)) : Z :=
  match dcs with
  | [] => len
  | (_, dst) :: dcs' =>
      if len =? u64 pagesize then len
      else if decide (base ≠ miov_base dst) then len
      else if u64 (st_off + len) <? miov_off dst then len
      else merge_len base st_off (u64 (len + miov_len dst)) pagesize dcs'
  end.

(** The loop over [i]. *)
Fixpoint optimise_loop (args : rw_args) (pagesize : Z) (rbw_iovs : list mio_iovec) (dst_cursor : nat)
  : outcome (list mio_iovec) :=
  match rbw_iovs with
  | [] => Done []
  | v :: rbw_iovs' =>
      let dcs := v_items (rwa_dc args) in
      let j := find_base (miov_base v) (drop dst_cursor dcs) dst_cursor in
      d ← dst_at args j;
      if negb (miov_off d =? 0) then Done (v :: rbw_iovs') else
      let len := merge_len (miov_base d) (miov_off d) (miov_len d) pagesize (drop (S j) dcs) in
      let v' := if len =? u64 pagesize then MkIov (miov_base v) 0 0 else v in
      rest ← optimise_loop args pagesize rbw_iovs' j;
      Done (v' :: rest)
  end.

Definition motr_obj_read_before_write_optimise (args : rw_args) : outcome rw_args :=
  pagesize ← motr_obj_io_pagesize (rwa_obj args);
  rbw ← optimise_loop args pagesize (v_items (rwa_rbw args)) 0;
  Done (set_rbw rbw args).

(** ** Entry points *)

(** [motr_obj_read_before_write]. *)
Definition motr_obj_read_before_write (args : rw_args) (op : rw_mop) (h : heap)
  : outcome (Z * rw_args * rw_mop * heap) :=
  args ← motr_obj_read_before_write_optimise args;
  rw_next_rbw M0_OC_READ PpReadBeforeWrite args op h.

(** [mio_motr_obj_writev]: the return value, the arguments for the actions that
    follow (none after an error), the operation and memory. *)
Definition mio_motr_obj_writev (obj : mio_obj) (iov : list mio_iovec) (op : rw_mop) (h : heap)
  : outcome (Z * option rw_args * rw_mop * heap) :=
  '(a, h) ← motr_obj_rw_args_alloc obj iov h;
  match a with
  | None => Done (- ENOMEM, None, op, h)
  | Some args =>
      let error rc args op h := h ← motr_obj_rw_args_free args h; Done (rc, None, op, h) in
      let args := set_is_write true args in
      '(rc, args) ← motr_obj_iovec_sort args;
      if rc <? 0 then error rc args op h else
      '(rc, args, h) ← motr_obj_iovec_adjust args h;
      if rc <? 0 then error rc args op h else
      '(rc, args, op, h) ←
        (if decide (vec_len (rwa_rbw args) ≠ O) then motr_obj_read_before_write args op h
         else h ← motr_obj_data_copy args h; rw_next_aligned M0_OC_WRITE PpWrite args op h);
      if rc <? 0 then error rc args op h else Done (0, Some args, op, h)
  end.

(** [mio_motr_obj_readv]; the result of the sort is not looked at. *)
Definition mio_motr_obj_readv (obj : mio_obj) (iov : list mio_iovec) (op : rw_mop) (h : heap)
  : outcome (Z * option rw_args * rw_mop * heap) :=
  '(a, h) ← motr_obj_rw_args_alloc obj iov h;
  match a with
  | None => Done (- ENOMEM, None, op, h)
  | Some args =>
      let error rc args op h := h ← motr_obj_rw_args_free args h; Done (rc, None, op, h) in
      let args := set_is_write false args in
      '(_, args) ← motr_obj_iovec_sort args;
      '(rc, args, h) ← motr_obj_iovec_adjust args h;
      if rc <? 0 then error rc args op h else
      '(rc, args, op, h) ← rw_next_aligned M0_OC_READ PpRead args op h;
      if rc <? 0 then error rc args op h else Done (0, Some args, op, h)
  end.

(** ** Completion of operations *)

(** Motr carries out a read or write: data goes between memory and the object. *)
Fixpoint exec_read (vecs : list mio_iovec) (st : mstore) (h : heap) : outcome heap :=
  match vecs with
  | [] => Done h
  | v :: vecs' =>
      h ← mem_store (miov_base v) (miov_len v) (λ i, ms_read st (miov_off v + i)) h;
      exec_read vecs' st h
  end.

Fixpoint exec_write (vecs : list mio_iovec) (h : heap) (st : mstore) : outcome mstore :=
  match vecs with
  | [] => Done st
  | v :: vecs' =>
      f ← mem_load (miov_base v) (miov_len v) h;
      exec_write vecs' h (ms_write st (miov_off v) (miov_len v) f)
  end.

Definition exec_io (io : m0_io) (h : heap) (st : mstore) : outcome (heap * mstore) :=
  match io_code io with
  | M0_OC_READ => h ← exec_read (io_vecs io) st h; Done (h, st)
  | M0_OC_WRITE => st ← exec_write (io_vecs io) h st; Done (h, st)
  | _ => Done (h, st)
  end.

(** Which function an action is. *)
Definition run_pp (attrs_put : mio_obj → rw_mop → heap → outcome (Z * rw_mop * heap))
    (pp : rw_pp) (op : rw_mop) (w : rw_world) : outcome (Z * rw_mop * rw_world) :=
  match pp with
  | PpWrite => motr_obj_write_pp attrs_put op w
  | PpReadBeforeWrite => motr_obj_read_before_write_pp op w
  | PpRead => motr_obj_read_pp op w
  end.

(** The operation at the head of the chain is carried out. *)
Definition io_execute (op : rw_mop) (w : rw_world) : outcome rw_world :=
  match mop_drv_op_chain op with
  | [] => Fault NullDeref
  | dop :: _ =>
      '(h, st) ← exec_io (mdo_op dop) (w_heap w) (w_store w);
      Done (MkWorld _ (w_args w) h st)
  end.

(** The operation at the head of the chain is carried out and Motr calls back:
    the application's callback if that was the last, and the new state. *)
Definition io_complete (attrs_put : mio_obj → rw_mop → heap → outcome (Z * rw_mop * heap))
    (op : rw_mop) (w : rw_world) : outcome (option app_call * rw_mop * rw_world) :=
  w ← io_execute op w;
  motr_op_cb_complete (run_pp attrs_put) op w.

(** [n] operations complete, each launching the next one. *)
Fixpoint io_run (attrs_put : mio_obj → rw_mop → heap → outcome (Z * rw_mop * heap)) (n : nat)
    (op : rw_mop) (w : rw_world) : outcome (rw_mop * rw_world) :=
  match n with
  | O => Done (op, w)
  | S n' =>
      '(call, op, w) ← io_complete attrs_put op w;
      match call with Some _ => Done (op, w) | None => io_run attrs_put n' op w end
  end.

(** One operation completes and its action launches the next one. *)
Definition io_step (attrs_put : mio_obj → rw_mop → heap → outcome (Z * rw_mop * heap))
    (s s' : rw_mop * rw_world) : Prop :=
  io_complete attrs_put s.1 s.2 = Done (None, s'.1, s'.2).
End Exec.
