(* ===== verification/IoSteps.v ===== *)
(** * Reads and writes, step by step

    The effect of the data copies, of one Motr operation and of launching one,
    shared by the theorems on writes (IoWrite) and reads (IoRead). *)

From stdpp Require Import sorting.
From S2P Require Import Prelude ObjId HintMap Mem Types IoVec IoAlign DriverOp IoExec.

(** ** Memory *)

(** [q] is one of the [n] bytes at [p]. *)
Definition in_area (p : ptr) (n : Z) (q : ptr) : Prop :=
  p_blk q = p_blk p ∧ p_off p <= p_off q < p_off p + n.

#[global] Instance in_area_dec p n q : Decision (in_area p n q).
Proof. unfold in_area. apply _. Defined.

Lemma mem_store_effect h p n f :
  mem_valid h p n →
  ∃ h', mem_store p n f h = Done h' ∧ same_shape h h' ∧
    (∀ b, b ≠ p_blk p → h_blocks h' !! b = h_blocks h !! b) ∧
    (∀ q, in_area p n q → byte_at h' q = f (p_off q - p_off p)) ∧
    (∀ q, ¬ in_area p n q → byte_at h' q = byte_at h q).
Proof.
  intros Hv. destruct (mem_store_valid h p n f Hv) as (h' & Hst & Hs).
  exists h'. split; [done|]. split; [done|]. split.
  { intros b Hb. unfold mem_store in Hst. destruct (n <=? 0); [by injection Hst as <-|].
    apply outcome_bind_Done in Hst as (blk & _ & [= <-]). simpl. by rewrite lookup_insert_ne. }
  unfold in_area. split; intros q Hq; rewrite (byte_at_store _ _ _ _ _ _ Hst).
  - destruct Hq as (-> & Hlo & Hhi). rewrite Z.eqb_refl.
    rewrite (proj2 (Z.ltb_lt 0 n)), (proj2 (Z.leb_le _ _)), (proj2 (Z.ltb_lt _ _)) by lia. done.
  - destruct (Z.ltb_spec 0 n), (Z.eqb_spec (p_blk q) (p_blk p)), (Z.leb_spec (p_off p) (p_off q)),
      (Z.ltb_spec (p_off q) (p_off p + n)); simpl; try done. destruct Hq. lia.
Qed.

(** Changing the contents of owned blocks keeps the ownership. *)
Lemma heap_grow_contents h0 h h' bs :
  heap_grow h0 h bs → same_shape h h' →
  (∀ b, b ∉ bs → h_blocks h' !! b = h_blocks h !! b) → heap_grow h0 h' bs.
Proof.
  intros (Hok & Hok' & Hle & Hnd & Hbs & Hout) Hs Hsame.
  pose proof Hs as (Hn & _ & Hsz). split; [done|]. split; [by eapply same_shape_ok|].
  split; [lia|]. split; [done|]. split.
  - intros b Hb. destruct (Hbs b Hb) as [Hr Hl]. split; [lia|].
    apply (fmap_is_Some b_size). rewrite Hsz. by apply fmap_is_Some.
  - intros b Hb. rewrite Hsame by done. by apply Hout.
Qed.

(** The same ownership over a base with new contents. *)
Lemma heap_grow_rebase h0 h h' bs :
  heap_grow h0 h bs → same_shape h h' →
  ∃ h0', heap_grow h0' h' bs ∧ h_next h0' = h_next h0 ∧
    ∀ b, b_size <$> (h_blocks h0' !! b) = b_size <$> (h_blocks h0 !! b).
Proof.
  intros (Hok & Hok' & Hle & Hnd & Hbs & Hout) Hs.
  exists (MkHeap (h_next h0) (filter (λ kb, kb.1 ∉ bs) (h_blocks h')) []).
  pose proof (same_shape_ok _ _ Hs Hok') as Hok2. pose proof Hs as (Hn & _ & Hsz).
  assert (Hlook : ∀ b, b ∉ bs → filter (λ kb, kb.1 ∉ bs) (h_blocks h') !! b = h_blocks h' !! b).
  { intros b Hb. rewrite map_lookup_filter. destruct (h_blocks h' !! b) as [x|]; simpl; [|done].
    by rewrite option_guard_True. }
  split; [|split; [done|]].
  2:{ intros b. simpl. destruct (decide (b ∈ bs)) as [Hb|Hb].
      - rewrite (proj2 (map_lookup_filter_None _ _ _)) by (right; by intros x _ []).
        destruct (h_blocks h0 !! b) as [x|] eqn:E; [|done]. exfalso.
        destruct (Hbs b Hb) as [? _]. assert (b < h_next h0) by (apply Hok; rewrite E; by eexists). lia.
      - by rewrite Hlook, Hsz, Hout. }
  split; [|split; [done|split; [simpl; lia|split; [done|split]]]].
  - split; [by destruct Hok|]. simpl. intros b [x Hx].
    apply map_lookup_filter_Some in Hx as [Hx Hb]. simpl in Hb. destruct Hok as [_ Hlive].
    apply Hlive. apply (fmap_is_Some b_size). rewrite <- Hout, <- Hsz by done. rewrite Hx. by eexists.
  - intros b Hb. destruct (Hbs b Hb) as [Hr Hl]. simpl. split; [lia|].
    apply (fmap_is_Some b_size). rewrite Hsz. by apply fmap_is_Some.
  - intros b Hb. simpl. by rewrite Hlook.
Qed.

(** ** Data copies *)
Abbreviation dc := (mio_iovec * mio_iovec)%type.
Definition dc_to (sd : dc) : ptr := ptr_add (miov_base (snd sd)) (miov_off (snd sd)).
Definition dc_from (sd : dc) : ptr := ptr_add (miov_base (fst sd)) (miov_off (fst sd)).
Definition dc_len (sd : dc) : Z := miov_len (snd sd).

(** The copies do not read what they write. *)
Definition dcs_ok (h : heap) (dcs : list dc) : Prop :=
  (∀ sd, sd ∈ dcs → mem_valid h (dc_to sd) (dc_len sd) ∧ mem_valid h (dc_from sd) (dc_len sd)) ∧
  (∀ sd sd', sd ∈ dcs → sd' ∈ dcs → p_blk (dc_from sd) ≠ p_blk (dc_to sd')).

Lemma data_copy_effect dcs h :
  dcs_ok h dcs →
  ∃ h', data_copy_loop dcs h = Done h' ∧ same_shape h h' ∧
    (∀ b, (∀ sd, sd ∈ dcs → p_blk (dc_to sd) ≠ b) → h_blocks h' !! b = h_blocks h !! b) ∧
    ∀ q, (∃ sd, sd ∈ dcs ∧ in_area (dc_to sd) (dc_len sd) q ∧
            byte_at h' q = byte_at h (ptr_add (dc_from sd) (p_off q - p_off (dc_to sd)))) ∨
         ((∀ sd, sd ∈ dcs → ¬ in_area (dc_to sd) (dc_len sd) q) ∧ byte_at h' q = byte_at h q).
Proof.
  revert h. induction dcs as [|[s d] dcs IH]; intros h [Hval Hsep]; simpl.
  { exists h. split; [done|]. split; [done|]. split; [done|]. intros q. right. split; [|done].
    intros sd Hsd. by apply not_elem_of_nil in Hsd. }
  destruct (Hval (s, d)) as [Hto Hfrom]; [left|]. unfold mio_mem_copy.
  destruct (mem_load_valid _ _ _ Hfrom) as (f & Hf & Hfb). unfold dc_from, dc_to, dc_len in Hf, Hfb, Hto.
  simpl in Hf, Hfb, Hto. rewrite Hf. simpl.
  destruct (mem_store_effect _ _ _ f Hto) as (h1 & -> & Hs1 & Hfr1 & Hin & Hout). simpl.
  destruct (IH h1) as (h2 & -> & Hs2 & Hfr2 & Heff).
  { split.
    - intros sd Hsd. destruct (Hval sd) as [? ?]; [by right|].
      split; by eapply same_shape_valid.
    - intros sd sd' H1 H2. apply Hsep; by right. }
  exists h2. split; [done|]. split; [by eapply same_shape_trans|]. split.
  { intros b Hb. rewrite Hfr2 by (intros sd Hsd; apply Hb; by right).
    apply Hfr1. intros ->. apply (Hb (s, d)); [left|done]. }
  intros q. destruct (Heff q) as [(sd & Hsd & Hq & ->)|[Hno ->]].
  - left. exists sd. split; [by right|]. split; [done|]. apply Hout.
    intros [Hblk _]. apply (Hsep sd (s, d)); [by right|left|]. unfold dc_to at 1. simpl in *. done.
  - destruct (decide (in_area (dc_to (s, d)) (dc_len (s, d)) q)) as [Hq|Hnq].
    + left. exists (s, d). split; [left|]. split; [done|]. rewrite (Hin q Hq).
      destruct Hq as [_ Hq]. unfold dc_to, dc_len, dc_from in *. simpl in *. apply Hfb. lia.
    + right. split; [|by apply Hout]. intros sd [->|Hsd]%elem_of_cons; auto.
Qed.

(** ** Carrying out an operation *)
Section Execute.
Context `{MotrStore}.

(** Where the element [v] of a read or write has the byte at [q]. *)
Definition vec_area (v : mio_iovec) (q : ptr) : Prop := in_area (miov_base v) (miov_len v) q.

Lemma exec_read_effect vecs st h :
  (∀ v, v ∈ vecs → mem_valid h (miov_base v) (miov_len v)) →
  ∃ h', exec_read vecs st h = Done h' ∧ same_shape h h' ∧
    (∀ b, (∀ v, v ∈ vecs → p_blk (miov_base v) ≠ b) → h_blocks h' !! b = h_blocks h !! b) ∧
    ∀ q, (∃ v, v ∈ vecs ∧ vec_area v q ∧
            byte_at h' q = ms_read st (miov_off v + (p_off q - p_off (miov_base v)))) ∨
         ((∀ v, v ∈ vecs → ¬ vec_area v q) ∧ byte_at h' q = byte_at h q).
Proof.
  revert h. induction vecs as [|v vecs IH]; intros h Hval; simpl.
  { exists h. split; [done|]. split; [done|]. split; [done|]. intros q. right. split; [|done].
    intros v Hv. by apply not_elem_of_nil in Hv. }
  destruct (mem_store_effect h (miov_base v) (miov_len v) (λ i, ms_read st (miov_off v + i)))
    as (h1 & -> & Hs1 & Hfr1 & Hin & Hout); [apply Hval; left|]. simpl.
  destruct (IH h1) as (h2 & -> & Hs2 & Hfr2 & Heff).
  { intros w Hw. eapply same_shape_valid; [done|]. apply Hval. by right. }
  exists h2. split; [done|]. split; [by eapply same_shape_trans|]. split.
  { intros b Hb. rewrite Hfr2 by (intros w Hw; apply Hb; by right).
    apply Hfr1. intros ->. apply (Hb v); [left|done]. }
  intros q. destruct (Heff q) as [(w & Hw & Hq & ->)|[Hno ->]].
  - left. exists w. split; [by right|done].
  - destruct (decide (in_area (miov_base v) (miov_len v) q)) as [Hq|Hnq].
    + left. exists v. split; [left|]. split; [done|]. by rewrite (Hin q Hq).
    + right. split; [|by apply Hout]. intros w [->|Hw]%elem_of_cons; auto.
Qed.

Lemma exec_write_effect vecs h st :
  (∀ v, v ∈ vecs → mem_valid h (miov_base v) (miov_len v)) →
  ∃ st', exec_write vecs h st = Done st' ∧
    ∀ x, (∃ v, v ∈ vecs ∧ miov_off v <= x < iov_end v ∧
            ms_read st' x = byte_at h (ptr_add (miov_base v) (x - miov_off v))) ∨
         ((∀ v, v ∈ vecs → ¬ (miov_off v <= x < iov_end v)) ∧ ms_read st' x = ms_read st x).
Proof.
  revert st. induction vecs as [|v vecs IH]; intros st Hval; simpl.
  { exists st. split; [done|]. intros x. right. split; [|done].
    intros v Hv. by apply not_elem_of_nil in Hv. }
  destruct (mem_load_valid h (miov_base v) (miov_len v)) as (f & -> & Hf); [apply Hval; left|]. simpl.
  destruct (IH (ms_write st (miov_off v) (miov_len v) f)) as (st' & -> & Heff).
  { intros w Hw. apply Hval. by right. }
  exists st'. split; [done|]. intros x. destruct (Heff x) as [(w & Hw & Hx & ->)|[Hno ->]].
  - left. exists w. split; [by right|done].
  - rewrite ms_read_write. unfold iov_end in *.
    destruct (Z.leb_spec (miov_off v) x), (Z.ltb_spec x (miov_off v + miov_len v)); simpl.
    + left. exists v. split; [left|]. split; [lia|]. apply Hf. lia.
    + right. split; [|done]. intros w [->|Hw]%elem_of_cons; [lia|auto].
    + right. split; [|done]. intros w [->|Hw]%elem_of_cons; [lia|auto].
    + right. split; [|done]. intros w [->|Hw]%elem_of_cons; [lia|auto].
Qed.

(** Two writes one after the other are one write of both lists. *)
Lemma exec_write_app vecs vecs' h st :
  exec_write (vecs ++ vecs') h st = st' ← exec_write vecs h st; exec_write vecs' h st'.
Proof.
  revert st. induction vecs as [|v vecs IH]; intros st; simpl; [done|].
  destruct (mem_load _ _ _); simpl; auto.
Qed.

Lemma exec_read_app vecs vecs' st h :
  exec_read (vecs ++ vecs') st h = h' ← exec_read vecs st h; exec_read vecs' st h'.
Proof.
  revert h. induction vecs as [|v vecs IH]; intros h; simpl; [done|].
  destruct (mem_store _ _ _ _); simpl; auto.
Qed.
End Execute.

(** ** Launching an operation when memory is available *)

(** malloc() and the allocations of Motr's vectors succeed. *)
Class MotrVecsOk `{MotrStore} := {
  empty_alloc_ok : ∀ n, m0_bufvec_empty_alloc n = 0;
  bufvec_alloc_ok : ∀ n, m0_bufvec_alloc n = 0;
  indexvec_alloc_ok : ∀ n, m0_indexvec_alloc n = 0
}.

(** The blocks behind the arguments of a launched operation. *)
Definition rw_op_owns (a : rw_op_args) : list Z :=
  [p_blk (rwoa_motr_rw_ext a); p_blk (rwoa_motr_rw_data a); p_blk (rwoa_motr_rw_attr a);
   p_blk (rwoa_self a)].

Lemma alloc_plenty h size :
  heap_ok h → h_plan h = [] →
  ∃ b h', mio_mem_alloc size h = (MkPtr b 0, h') ∧ MkPtr b 0 ≠ NULL ∧ h_plan h' = [] ∧
    heap_grow h h' [b] ∧ h_blocks h' !! b = Some (MkBlock size (λ _, 0)).
Proof.
  intros Hok Hp. destruct (mio_mem_alloc size h) as [p h'] eqn:E.
  destruct (heap_grow_alloc _ _ _ _ _ _ (heap_grow_refl h Hok) E) as
    [(_ & _ & _ & Hne)|(b & -> & Hnn & _ & Hg & Hbl & _ & Hpl)]; [done|].
  exists b, h'. split; [done|]. split; [done|]. split; [auto|]. split; [done|].
  by rewrite Hbl, lookup_insert_eq.
Qed.

Lemma mem_access_block h b size n :
  h_blocks h !! b = Some size → b ≠ 0 → n <= b_size size → mem_access h (MkPtr b 0) n = Done size.
Proof.
  intros Hb Hnz Hn. unfold mem_access. simpl. rewrite (proj2 (Z.eqb_neq _ _)), Hb by done.
  by rewrite (proj2 (Z.leb_le _ _)) by lia.
Qed.

Lemma heap_grow_lookup h h' bs b : heap_grow h h' bs → is_Some (h_blocks h !! b) →
  h_blocks h' !! b = h_blocks h !! b.
Proof.
  intros Hg Hs. pose proof Hg as ([_ Hok] & _ & _ & _ & _ & Hout). apply Hout.
  eapply heap_grow_fresh; [done|]. by apply Hok.
Qed.

Section Launch.
Context `{IoEnv} `{MotrVecsOk}.

Lemma motr_obj_rw_one_op_run iov opcode pp op h :
  heap_ok h → h_plan h = [] → iov ≠ [] → (opcode = M0_OC_READ ∨ opcode = M0_OC_WRITE) →
  ∃ a dop h', motr_obj_rw_one_op iov opcode pp op h =
      Done (0, set_chain (dop :: mop_drv_op_chain op) op, h') ∧
    mdo_op dop = MkIo opcode iov ∧ mdo_post_proc dop = Some pp ∧ mdo_op_args dop = Some a ∧
    p_off (mdo_mem dop) = 0 ∧ h_plan h' = [] ∧
    heap_grow h h' (p_blk (mdo_mem dop) :: rw_op_owns a).
Proof.
  intros Hok Hp Hne Hop. unfold motr_obj_rw_one_op. rewrite bool_decide_true by done. simpl.
  destruct (Z.ltb_spec (Z.of_nat (length iov)) 1); [destruct iov; simpl in *; [done|lia]|].
  destruct (alloc_plenty h SIZEOF_RW_OP_ARGS Hok Hp) as (b0 & h1 & -> & Hn0 & Hp1 & Hg1 & _).
  rewrite decide_False by done. unfold motr_obj_rw_buf_index_vecs_alloc.
  destruct (alloc_plenty h1 SIZEOF_INDEXVEC (heap_grow_ok _ _ _ Hg1) Hp1)
    as (b1 & h2 & -> & Hn1 & Hp2 & Hg2 & Hb1).
  destruct (alloc_plenty h2 SIZEOF_BUFVEC (heap_grow_ok _ _ _ Hg2) Hp2)
    as (b2 & h3 & -> & Hn2 & Hp3 & Hg3 & Hb2).
  destruct (alloc_plenty h3 SIZEOF_BUFVEC (heap_grow_ok _ _ _ Hg3) Hp3)
    as (b3 & h4 & -> & Hn3 & Hp4 & Hg4 & Hb3).
  rewrite decide_False by tauto. unfold elvis.
  rewrite empty_alloc_ok, bufvec_alloc_ok, indexvec_alloc_ok. simpl.
  assert (Hz : ∀ b, MkPtr b 0 ≠ NULL → b ≠ 0) by (intros b Hb ->; by apply Hb).
  assert (Hb2' : h_blocks h4 !! b2 = h_blocks h3 !! b2) by (eapply heap_grow_lookup; eauto).
  assert (Hb1' : h_blocks h3 !! b1 = h_blocks h2 !! b1) by (eapply heap_grow_lookup; eauto).
  assert (Hb1'' : h_blocks h4 !! b1 = h_blocks h3 !! b1).
  { eapply heap_grow_lookup; [done|]. rewrite Hb1', Hb1. by eexists. }
  rewrite (mem_access_block _ _ (MkBlock SIZEOF_BUFVEC (λ _, 0))) by (first [congruence|by apply Hz|simpl; lia]). simpl.
  rewrite (mem_access_block _ _ (MkBlock SIZEOF_INDEXVEC (λ _, 0))) by (first [congruence|by apply Hz|simpl; lia]). simpl.
  rewrite (mem_access_block _ _ (MkBlock SIZEOF_BUFVEC (λ _, 0))) by (first [congruence|by apply Hz|simpl; lia]). simpl.
  unfold mio_driver_op_add.
  destruct (alloc_plenty h4 SIZEOF_DRIVER_OP (heap_grow_ok _ _ _ Hg4) Hp4)
    as (b4 & h5 & -> & Hn4 & Hp5 & Hg5 & _).
  rewrite decide_False by done. simpl. eexists (MkRwOpArgs _ _ _ _), _, h5. split; [done|].
  split; [done|]. split; [done|]. split; [done|]. split; [done|]. split; [done|].
  unfold rw_op_owns. simpl.
  pose proof (heap_grow_trans _ _ _ _ _ (heap_grow_trans _ _ _ _ _ (heap_grow_trans _ _ _ _ _
    (heap_grow_trans _ _ _ _ _ Hg1 Hg2) Hg3) Hg4) Hg5) as Hg.
  eapply heap_grow_proper; [|exact Hg]. simpl. solve_Permutation.
Qed.

(** A batch takes at least one vector that fits, and never more than there are. *)
Lemma batch_le iovs size mx : (batch iovs size mx <= length iovs)%nat.
Proof.
  revert size. induction iovs as [|v l IH]; intros size; simpl; [done|].
  destruct (_ <? _); [lia|]. specialize (IH (u64 (size + miov_len v))). lia.
Qed.

Lemma batch_pos v l mx : 0 <= miov_len v <= mx → mx < 2 ^ 62 → (0 < batch (v :: l) 0 mx)%nat.
Proof. intros. simpl. cint. rewrite Z.add_0_l. destruct (Z.ltb_spec mx (miov_len v)); lia. Qed.

Fixpoint total_len (l : list mio_iovec) : Z :=
  match l with [] => 0 | v :: l' => miov_len v + total_len l' end.

Lemma batch_all l size mx :
  Forall (λ v, 0 <= miov_len v) l → 0 <= size → size + total_len l <= mx → mx < 2 ^ 62 →
  batch l size mx = length l.
Proof.
  intros Hl. revert size. induction Hl as [|v l Hv Hl IH]; intros size Hs Hle Hmx; simpl in *; [done|].
  assert (0 <= total_len l).
  { clear -Hl. induction Hl; simpl; lia. }
  cint. destruct (Z.ltb_spec mx (size + miov_len v)); [lia|].
  f_equal. apply IH; lia.
Qed.

(** One call of [motr_obj_rw_aligned] that has something left to do. *)
Lemma motr_obj_rw_aligned_run obj ps mx iovs cursor opcode pp op h :
  io_ready obj ps mx → heap_ok h → h_plan h = [] →
  (opcode = M0_OC_READ ∨ opcode = M0_OC_WRITE) →
  (cursor < length iovs)%nat → Forall (λ v, 0 <= miov_len v <= mx) iovs →
  let n := batch (drop cursor iovs) 0 mx in
  (0 < n)%nat ∧ (cursor + n <= length iovs)%nat ∧
  ∃ a dop h', motr_obj_rw_aligned obj iovs cursor opcode pp op h =
      Done (0, (cursor + n)%nat, set_chain (dop :: mop_drv_op_chain op) op, h') ∧
    mdo_op dop = MkIo opcode (take n (drop cursor iovs)) ∧ mdo_post_proc dop = Some pp ∧
    mdo_op_args dop = Some a ∧ p_off (mdo_mem dop) = 0 ∧ h_plan h' = [] ∧
    heap_grow h h' (p_blk (mdo_mem dop) :: rw_op_owns a).
Proof.
  intros Hr Hok Hp Hop Hc Hl n.
  destruct (lookup_lt_is_Some_2 _ _ Hc) as [v Hv].
  assert (Hn : (0 < n)%nat).
  { unfold n. rewrite (drop_S _ _ _ Hv). rewrite Forall_forall in Hl.
    apply batch_pos; [|apply Hr]. apply Hl. by eapply list_elem_of_lookup_2. }
  pose proof (batch_le (drop cursor iovs) 0 mx) as Hle. fold n in Hle. rewrite length_drop in Hle.
  split; [done|]. split; [lia|]. unfold motr_obj_rw_aligned.
  rewrite (ir_max_size _ _ _ Hr). simpl. fold n. rewrite decide_False by lia.
  destruct (motr_obj_rw_one_op_run (take n (drop cursor iovs)) opcode pp op h)
    as (a & dop & h' & -> & Hrest); try done.
  { intros Heq. apply (f_equal length) in Heq. rewrite length_take, length_drop in Heq. simpl in Heq. lia. }
  simpl. by exists a, dop, h'.
Qed.
End Launch.

(** A heap with new blocks is as good as the old one for a write. *)
Lemma mem_load_grow h h' nb p n : heap_grow h h' nb → mem_valid h p n → mem_load p n h' = mem_load p n h.
Proof.
  intros Hg (Hnz & b & Hb & _). unfold mem_load, mem_access.
  assert (h_blocks h' !! p_blk p = h_blocks h !! p_blk p) as ->; [|done].
  eapply heap_grow_lookup; [done|]. rewrite Hb. by eexists.
Qed.

Lemma exec_write_grow `{MotrStore} h h' nb vecs st :
  heap_grow h h' nb → (∀ v, v ∈ vecs → mem_valid h (miov_base v) (miov_len v)) →
  exec_write vecs h' st = exec_write vecs h st.
Proof.
  intros Hg. revert st. induction vecs as [|v vecs IH]; intros st Hval; simpl; [done|].
  rewrite (mem_load_grow _ _ _ _ _ Hg) by (apply Hval; left).
  destruct (mem_load _ _ h); simpl; [|done]. apply IH. intros w Hw. apply Hval. by right.
Qed.

(** ** Releasing the arguments *)

Lemma owned_app ps qs : owned (ps ++ qs) = owned ps ++ owned qs.
Proof. unfold owned. by rewrite filter_app, fmap_app. Qed.

Lemma owned_blocks bs : (∀ b, b ∈ bs → b ≠ 0) → owned ((λ b, MkPtr b 0) <$> bs) = bs.
Proof.
  intros Hnz. induction bs as [|b bs IH]; [done|]. rewrite fmap_cons. unfold owned.
  rewrite filter_cons_True by (intros [=]; by apply (Hnz b); [left|]).
  rewrite fmap_cons. simpl. f_equal. apply IH. intros b' Hb'. apply Hnz. by right.
Qed.

(** [motr_obj_rw_args_free] gives back everything but rwa_extra_pages. *)
Lemma args_free_run h0 h nb pgs args :
  heap_grow h0 h (nb ++ pgs ++ p_blk (p_extra args) :: args_blocks args) →
  v_items (rwa_extra_pages args) = (λ b, MkPtr b 0) <$> pgs →
  block_ptrs (args_ptrs args) → p_args args ≠ NULL →
  ∃ h', motr_obj_rw_args_free args h = Done h' ∧
    heap_grow h0 h' (nb ++ [p_blk (p_extra args)]) ∧
    mem_access h' (p_args args) SIZEOF_RW_ARGS = Fault UseAfterFree.
Proof.
  intros Hg Hex Hptrs Hnn.
  assert (Hnz : ∀ b, b ∈ nb ++ pgs ++ p_blk (p_extra args) :: args_blocks args → h_next h0 <= b).
  { intros b Hb. destruct Hg as (_ & _ & _ & _ & Hbs & _). apply Hbs in Hb as [? _]. lia. }
  assert (Hpos : 0 < h_next h0) by (destruct Hg as ([? _] & _); done).
  assert (Hperm : nb ++ pgs ++ p_blk (p_extra args) :: args_blocks args ≡ₚ
    owned (args_ptrs args) ++ (nb ++ [p_blk (p_extra args)])).
  { unfold args_ptrs, args_blocks. rewrite Hex, !owned_app, owned_blocks.
    2:{ intros b Hb. assert (h_next h0 <= b); [|lia]. apply Hnz. rewrite !elem_of_app. auto. }
    change [p_rbw args; p_dc_src args; p_dc_dst args; p_aligned args; p_sorted args; p_args args]
      with ([p_rbw args; p_dc_src args; p_dc_dst args; p_aligned args; p_sorted args] ++ [p_args args]).
    rewrite owned_app. solve_Permutation. }
  destruct (motr_obj_rw_args_free_grow args h0 h _ _ Hg Hptrs Hperm) as (h' & Hrun & Hg' & _).
  exists h'. split; [done|]. split; [done|].
  assert (Hin : p_blk (p_args args) ∈ owned (args_ptrs args)).
  { unfold args_ptrs. rewrite !owned_app, !elem_of_app. right. right. unfold owned.
    rewrite filter_cons_True by done. left. }
  assert (Hnew : h_next h0 <= p_blk (p_args args)).
  { apply Hnz. rewrite Hperm. apply elem_of_app. by left. }
  assert (Hout : p_blk (p_args args) ∉ nb ++ [p_blk (p_extra args)]).
  { intros Hin'. pose proof Hg as (_ & _ & _ & Hnd & _). rewrite Hperm in Hnd.
    apply NoDup_app in Hnd as (_ & Hdis & _). by apply (Hdis _ Hin). }
  unfold mem_access. rewrite (proj2 (Z.eqb_neq _ _)) by lia.
  destruct Hg' as ([_ Hlive] & _ & _ & _ & _ & Hsame). rewrite (Hsame _ Hout).
  destruct (h_blocks h0 !! p_blk (p_args args)) eqn:Eb; [|done].
  assert (p_blk (p_args args) < h_next h0); [|lia]. apply Hlive. rewrite Eb. by eexists.
Qed.
