(* ===== verification/IoWrite.v ===== *)
(** * What a write does (src/driver_motr_obj.c, lines 1116-1328)

    From the call of [mio_motr_obj_writev] to its last operation: the pages read
    before they are written, the copies into them, the writes; and what the
    object holds afterwards. *)

From stdpp Require Import sorting relations.
From S2P Require Import Prelude ObjId HintMap Mem Types IoVec IoAlign DriverOp IoExec IoSteps.

(** ** Facts on entries *)
Section EntryFacts.
Context (ps mx E : Z) (Hps : 0 < ps) (g : list entry) (Hok : entries_ok ps mx E g).

Lemma entries_elem e : e ∈ g → entry_ok ps mx e.
Proof.
  intros He. pose proof (eo_each _ _ _ _ Hok) as Hall. rewrite Forall_forall in Hall. auto.
Qed.

Definition in_entry (e : entry) (x : Z) : Prop :=
  miov_off (entry_iov ps e) <= x < iov_end (entry_iov ps e).

(** Two entries that reach the same byte of the object are the same. *)
Lemma in_entry_inj e e' x : e ∈ g → e' ∈ g → in_entry e x → in_entry e' x → e = e'.
Proof.
  pose proof (eo_sorted _ _ _ _ Hok) as Hs. clear Hok. unfold in_entry.
  induction Hs as [|e1 g Hs IH Hb]; [by intros H%not_elem_of_nil|].
  rewrite Forall_forall in Hb. unfold entry_before in Hb.
  intros [->|He]%elem_of_cons [->|He']%elem_of_cons Hx Hx'; auto.
  - apply Hb in He'. lia.
  - apply Hb in He. lia.
Qed.

Lemma piece_in_entry e v x :
  e ∈ g → v ∈ entry_pieces e → miov_off v <= x < iov_end v → in_entry e x.
Proof.
  intros He Hv Hx. pose proof (entries_elem e He) as Hok'. unfold in_entry.
  destruct e as [w|o b pcs]; simpl in Hv |- *.
  - apply list_elem_of_singleton in Hv as ->. done.
  - destruct Hok' as (_ & _ & _ & _ & Hall). rewrite Forall_forall in Hall.
    destruct (Hall v Hv) as (? & _ & ?). unfold iov_end at 1. simpl. lia.
Qed.

(** The pieces that reach a byte of an entry are those of the entry. *)
Lemma iov_loc_entry e x p : e ∈ g → in_entry e x →
  iov_loc (pieces g) x p ↔ iov_loc (entry_pieces e) x p.
Proof.
  intros He Hx. split.
  - intros (v & Hv & Hvx & ->). apply list_elem_of_bind in Hv as (e' & Hv & He').
    assert (e' = e) as ->.
    { eapply in_entry_inj; [done|done| |done]. by eapply piece_in_entry. }
    by exists v.
  - intros (v & Hv & Hvx & ->). exists v. split; [by eapply pieces_elem|done].
Qed.

Lemma piece_pos v : v ∈ pieces g → 0 < miov_len v.
Proof.
  intros Hv. apply list_elem_of_bind in Hv as (e & Hv & He).
  pose proof (entries_elem e He) as Hok'. destruct e as [w|o b pcs]; simpl in Hv.
  - apply list_elem_of_singleton in Hv as ->. by destruct Hok' as (_ & _ & _ & ? & _).
  - destruct Hok' as (_ & _ & _ & _ & Hall). rewrite Forall_forall in Hall.
    by destruct (Hall v Hv) as (_ & ? & _).
Qed.
End EntryFacts.

(** Bytes next to each other are an area. *)
Lemma mem_valid_bytes h p n : 0 < n →
  (∀ i, 0 <= i < n → mem_valid h (ptr_add p i) 1) → mem_valid h p n.
Proof.
  intros Hn Hb. destruct (Hb 0) as (Hnz & b & Hl & Hlo & _); [lia|].
  destruct (Hb (n - 1)) as (_ & b' & Hl' & _ & Hhi); [lia|].
  unfold ptr_add in *. simpl in *. rewrite Hl in Hl'. injection Hl' as <-.
  split; [done|]. exists b. split; [done|]. lia.
Qed.

(** Disjoint vectors have each byte of the object at one place. *)
Lemma iov_loc_unique l x p p' : StronglySorted iov_disjoint l →
  iov_loc l x p → iov_loc l x p' → p = p'.
Proof.
  intros Hs (v & Hv & Hx & ->) (v' & Hv' & Hx' & ->).
  assert (v = v') as ->; [|done].
  induction Hs as [|w l Hs IH Hb]; [by apply not_elem_of_nil in Hv|].
  rewrite Forall_forall in Hb. unfold iov_disjoint, iov_before in Hb.
  rewrite elem_of_cons in Hv, Hv'. destruct Hv as [->|Hv], Hv' as [->|Hv']; auto; exfalso.
  - apply Hb in Hv'. lia.
  - apply Hb in Hv. lia.
Qed.

(** ** motr_obj_read_before_write_optimise *)

(** All [ps] bytes of the page at [o] are covered by the pieces [pcs]. *)
Definition page_covered (ps o : Z) (pcs : list mio_iovec) : Prop :=
  ∀ x, o <= x < o + ps → ∃ p, iov_loc pcs x p.

Section Optimise.
Context (ps mx E : Z) (Hps : 0 < ps < 2 ^ 31) (size : Z).

(** The pieces [done_pcs] cover the page up to [len]; the loop goes on with the
    rest of the page's pieces. *)
Lemma merge_len_covered o b done_pcs pcs rest len :
  Forall (λ v, o <= miov_off v ∧ 0 < miov_len v ∧ iov_end v <= o + ps) (done_pcs ++ pcs) →
  StronglySorted iov_before (done_pcs ++ pcs) → o mod ps = 0 →
  0 <= len <= ps → (∀ x, o <= x < o + len → ∃ p, iov_loc done_pcs x p) →
  Forall (λ v, iov_end v <= o + len) done_pcs → (∃ v, v ∈ done_pcs ∧ iov_end v = o + len) →
  (∀ sd, sd ∈ rest → MkPtr b 0 ≠ miov_base (snd sd)) →
  merge_len (MkPtr b 0) 0 len ps ((dc_pair true ps b <$> pcs) ++ rest) = ps →
  page_covered ps o (done_pcs ++ pcs).
Proof.
  revert done_pcs len. induction pcs as [|v pcs IH]; intros done_pcs len Hall Hs Ho Hlen Hcov Hend Hlast Hrest Hm.
  - rewrite app_nil_r in *. simpl in Hm.
    assert (len = ps) as ->; [|done].
    destruct rest as [|[s d] rest]; simpl in Hm; [done|]. rewrite (u64_small ps) in Hm by lia.
    destruct (Z.eqb_spec len ps); [done|]. rewrite decide_True in Hm; [done|]. apply (Hrest (s, d)). left.
  - simpl in Hm. rewrite (u64_small ps) in Hm by lia.
    destruct (Z.eqb_spec len ps) as [->|Hne].
    { intros x Hx. destruct (Hcov x Hx) as [p Hp]. exists p. apply iov_loc_app. by left. }
    rewrite decide_False in Hm by (intros H; by destruct H). rewrite Z.add_0_l, (u64_small len) in Hm by lia.
    apply Forall_app in Hall as Hall'. destruct Hall' as [_ Hall'].
    inversion Hall' as [|? ? (Hlo & Hpos & Hhi) _]; subst.
    assert (Hoff : miov_off v mod ps = miov_off v - o).
    { pose proof (div_mod_eq o ps). rewrite Ho in *. unfold iov_end in *.
      replace (miov_off v) with ((miov_off v - o) + o / ps * ps) at 1 by lia.
      rewrite Z.mod_add, Z.mod_small; lia. }
    rewrite Hoff in Hm. destruct (Z.ltb_spec len (miov_off v - o)); [lia|].
    assert (Hge : o + len <= miov_off v).
    { destruct Hlast as (w & Hw & <-). apply StronglySorted_app in Hs as (Hb & _ & _).
      apply (Hb w v Hw). left. }
    unfold iov_end in Hhi.
    rewrite (u64_small (len + miov_len v)) in Hm by lia.
    rewrite cons_middle, app_assoc in Hall, Hs |- *.
    apply (IH (done_pcs ++ [v]) (len + miov_len v)); try done.
    + lia.
    + intros x Hx. destruct (decide (x < o + len)).
      * destruct (Hcov x) as [p Hp]; [lia|]. exists p. apply iov_loc_app. by left.
      * eexists. apply iov_loc_app. right. apply iov_loc_one. unfold iov_end. split; [lia|done].
    + apply Forall_app. split.
      * eapply Forall_impl; [exact Hend|]. simpl. lia.
      * repeat constructor. unfold iov_end. lia.
    + exists v. split; [apply elem_of_app; right; left|]. unfold iov_end. lia.
Qed.

Lemma find_base_skip base l k j :
  (∀ sd, sd ∈ l → base ≠ miov_base (snd sd)) →
  find_base base (l ++ k) j = find_base base k (j + length l).
Proof.
  revert j. induction l as [|[s d] l IH]; intros j Hl; simpl; [by rewrite Nat.add_0_r|].
  rewrite decide_False by (apply (Hl (s, d)); left). rewrite IH by (intros sd Hsd; apply Hl; by right).
  f_equal. lia.
Qed.

Lemma dc_pair_base b pc : miov_base (snd (dc_pair true ps b pc)) = MkPtr b 0.
Proof. done. Qed.

(** The destinations of the copies of [g] are its pages. *)
Lemma dc_bases g sd : sd ∈ (g ≫= entry_dc true ps) →
  ∃ b, b ∈ pages g ∧ miov_base (snd sd) = MkPtr b 0.
Proof.
  intros ([v|o b pcs] & Hsd & He)%list_elem_of_bind; simpl in Hsd.
  - by apply not_elem_of_nil in Hsd.
  - apply list_elem_of_fmap in Hsd as (pc & -> & _). exists b. split; [by eapply pages_elem|done].
Qed.

(** What may have become of the read-before-write vectors of [g]. *)
Record optimised (g : list entry) (rbw : list mio_iovec) : Prop := {
  opt_length : length rbw = length (g ≫= entry_rbw true ps size);
  opt_each : ∀ v, v ∈ rbw → ∃ o b pcs, EPage o b pcs ∈ g ∧ o < size ∧
    (v = MkIov (MkPtr b 0) o ps ∨ v = MkIov (MkPtr b 0) 0 0 ∧ page_covered ps o pcs);
  opt_page : ∀ o b pcs, EPage o b pcs ∈ g → o < size →
    MkIov (MkPtr b 0) o ps ∈ rbw ∨ page_covered ps o pcs
}.

Lemma optimised_refl g : optimised g (g ≫= entry_rbw true ps size).
Proof.
  split; [done|..].
  - intros v ([w|o b pcs] & Hv & He)%list_elem_of_bind; simpl in Hv; [by apply not_elem_of_nil in Hv|].
    destruct (Z.ltb_spec o size); [|by apply not_elem_of_nil in Hv].
    apply list_elem_of_singleton in Hv as ->. exists o, b, pcs. auto.
  - intros o b pcs He Hlt. left. apply list_elem_of_bind. exists (EPage o b pcs). split; [|done].
    simpl. rewrite (proj2 (Z.ltb_lt _ _)) by done. left.
Qed.

Lemma optimised_skip e g rbw :
  entry_rbw true ps size e = [] → optimised g rbw → optimised (e :: g) rbw.
Proof.
  intros He [H1 H2 H3]. split.
  - rewrite bind_cons, length_app, He. done.
  - intros v Hv. destruct (H2 v Hv) as (o & b & pcs & Hin & Hrest). exists o, b, pcs.
    split; [by right|done].
  - intros o b pcs [<-|Hin]%elem_of_cons Hlt; [|by eapply H3].
    simpl in He. by rewrite (proj2 (Z.ltb_lt _ _)) in He.
Qed.

Lemma optimised_page o b pcs g v rbw :
  o < size → (v = MkIov (MkPtr b 0) o ps ∨ v = MkIov (MkPtr b 0) 0 0 ∧ page_covered ps o pcs) →
  optimised g rbw → optimised (EPage o b pcs :: g) (v :: rbw).
Proof.
  intros Hlt Hv [H1 H2 H3]. split.
  - rewrite bind_cons, length_app. simpl. rewrite (proj2 (Z.ltb_lt _ _)) by done. simpl. by rewrite H1.
  - intros w [->|Hw]%elem_of_cons.
    + exists o, b, pcs. split; [left|done].
    + destruct (H2 w Hw) as (o' & b' & pcs' & Hin & Hrest). exists o', b', pcs'. split; [by right|done].
  - intros o' b' pcs' [Heq|Hin]%elem_of_cons Hlt'.
    + injection Heq as -> -> ->. destruct Hv as [->|[_ ?]]; [left; left|by right].
    + destruct (H3 o' b' pcs' Hin Hlt'); [left; by right|by right].
Qed.

Lemma optimise_loop_spec args g D0 cursor :
  Forall (entry_ok ps mx) g → NoDup (pages g) →
  v_items (rwa_dc args) = D0 ++ (g ≫= entry_dc true ps) → (cursor <= length D0)%nat →
  (∀ sd b, sd ∈ drop cursor D0 → b ∈ pages g → MkPtr b 0 ≠ miov_base (snd sd)) →
  ∃ rbw, optimise_loop args ps (g ≫= entry_rbw true ps size) cursor = Done rbw ∧ optimised g rbw.
Proof.
  revert D0 cursor. induction g as [|e g IH]; intros D0 cursor Hok Hnd Hdc Hcur Hdiff.
  { exists []. split; [done|]. apply optimised_refl. }
  inversion Hok as [|? ? He Hok']; subst. unfold pages in Hnd, Hdiff. rewrite bind_cons in Hnd.
  apply NoDup_app in Hnd as (_ & Hdis & Hnd). fold (pages g) in *.
  rewrite !bind_cons in *. destruct e as [w|o b pcs].
  { destruct (IH D0 cursor Hok' Hnd Hdc Hcur) as (rbw & Hrun & Hopt).
    { intros sd b Hsd Hb. apply Hdiff; done. }
    exists rbw. split; [done|]. by apply optimised_skip. }
  simpl in Hdc, Hdis, Hdiff. 
  assert (Hbg : b ∉ pages g) by (apply Hdis; left).
  assert (HD0 : ∀ c, (c <= length D0)%nat → (∀ sd b', sd ∈ drop c D0 → b' ∈ pages g → MkPtr b' 0 ≠ miov_base (snd sd)) →
    ∀ sd b', sd ∈ drop c (D0 ++ (dc_pair true ps b <$> pcs)) → b' ∈ pages g → MkPtr b' 0 ≠ miov_base (snd sd)).
  { intros c Hc Hd sd b' Hsd Hb'. rewrite drop_app_le in Hsd by done.
    apply elem_of_app in Hsd as [Hsd|Hsd]; [by apply Hd|].
    apply list_elem_of_fmap in Hsd as (pc & -> & _). simpl. intros [= ->]. done. }
  simpl entry_rbw. destruct (Z.ltb_spec o size) as [Hlt|Hge]; simpl.
  2:{ destruct (IH (D0 ++ (dc_pair true ps b <$> pcs)) cursor Hok' Hnd) as (rbw & Hrun & Hopt).
      - by rewrite <- app_assoc.
      - rewrite length_app. lia.
      - apply HD0; [done|]. intros sd b' Hsd Hb'. apply Hdiff; [done|by right].
      - exists rbw. split; [done|]. apply optimised_skip; [|done]. simpl.
        by rewrite (proj2 (Z.ltb_ge _ _)). }
  destruct He as (_ & Ho & Hne & Hs & Hall). destruct pcs as [|pc pcs]; [done|]. clear Hne.
  rewrite Hdc, (drop_app_le D0 _ cursor) by done.
  rewrite find_base_skip by (intros sd Hsd; apply (Hdiff sd b Hsd); left).
  simpl. rewrite decide_True by done. rewrite length_drop.
  replace (cursor + (length D0 - cursor))%nat with (length D0) by lia.
  unfold dst_at. rewrite Hdc, lookup_app_r, Nat.sub_diag by lia. simpl.
  inversion Hall as [|? ? (Hlo & Hpos & Hhi) _]; subst.
  assert (Hoff : miov_off pc mod ps = miov_off pc - o).
  { pose proof (div_mod_eq o ps). rewrite Ho in *. unfold iov_end in *.
    replace (miov_off pc) with ((miov_off pc - o) + o / ps * ps) at 1 by lia.
    rewrite Z.mod_add, Z.mod_small; lia. }
  rewrite Hoff. destruct (Z.eqb_spec (miov_off pc - o) 0) as [Hz|Hnz]; simpl.
  2:{ eexists. split; [done|]. apply optimised_page; [done|by left|]. apply optimised_refl. }
  destruct (IH (D0 ++ (dc_pair true ps b <$> pc :: pcs)) (length D0) Hok' Hnd) as (rbw & Hrun & Hopt).
  - by rewrite <- app_assoc.
  - rewrite length_app. lia.
  - apply HD0; [done|]. rewrite drop_ge by lia. by intros sd b' Hsd%not_elem_of_nil.
  - rewrite Hrun. simpl. eexists. split; [done|]. apply optimised_page; [done| |done].
    rewrite (u64_small ps) by lia. rewrite Hz.
    set (R := mbind (M:=list) (entry_dc true ps) g) in *.
    assert (HR : ∀ (x : dc) L, drop (S (length D0)) (D0 ++ x :: L) = L).
    { intros x L. rewrite drop_app_ge by lia. by replace (S (length D0) - length D0)%nat with 1%nat by lia. }
    rewrite HR. change (list_fmap mio_iovec dc (dc_pair true ps b) pcs) with (dc_pair true ps b <$> pcs).
    destruct (Z.eqb_spec (merge_len (MkPtr b 0) 0 (miov_len pc) ps ((dc_pair true ps b <$> pcs) ++ R)) ps)
      as [Hm|Hm]; [right|by left].
    split; [done|]. unfold iov_end in Hhi.
    apply (merge_len_covered o b [pc] pcs R (miov_len pc)); try done.
    + lia.
    + intros x Hx. eexists. apply iov_loc_one. unfold iov_end. split; [lia|done].
    + repeat constructor. unfold iov_end. lia.
    + exists pc. split; [left|]. unfold iov_end. lia.
    + intros sd Hsd. apply dc_bases in Hsd as (b' & Hb' & ->). by intros [= ->].
Qed.
End Optimise.

(** ** From the aligned vectors to the contents of the object *)

(** The memory of a request in progress: the blocks [nb] of its operations, the
    extra pages and the blocks of its arguments are what was allocated since
    [h0]; the pages are [ps] bytes each; malloc() does not fail. *)
Record mem_st (ps : Z) (h0 : heap) (bs0 : list Z) (g : list entry) (h : heap) (nb : list Z) : Prop := {
  ms_grow : heap_grow h0 h (nb ++ pages g ++ bs0);
  ms_plan : h_plan h = [];
  ms_pages : ∀ b, b ∈ pages g → ∃ d, h_blocks h !! b = Some (MkBlock ps d)
}.

Section Request.
Context (ps mx E : Z) (h0 : heap) (bs0 : list Z) (g : list entry).
Context (Hps : 0 < ps <= mx) (Hok : entries_ok ps mx E g).
Context (Hbytes : ∀ x p, iov_loc (pieces g) x p → mem_valid h0 p 1).
Local Abbreviation mem_st := (mem_st ps h0 bs0 g).

Lemma mem_st_alloc h nb h' nb' :
  mem_st h nb → heap_grow h h' nb' → h_plan h' = [] → mem_st h' (nb' ++ nb).
Proof.
  intros [Hg Hp Hpg] Hg' Hp'. split; [|done|].
  - rewrite <- app_assoc. by eapply heap_grow_trans.
  - intros b Hb. destruct (Hpg b Hb) as [d Hd]. exists d. rewrite <- Hd.
    eapply heap_grow_lookup; [done|]. rewrite Hd. by eexists.
Qed.

Lemma mem_st_pages h nb h' :
  mem_st h nb → same_shape h h' → (∀ b, b ∉ pages g → h_blocks h' !! b = h_blocks h !! b) →
  mem_st h' nb.
Proof.
  intros [Hg Hp Hpg] Hs Hfr. split.
  - eapply heap_grow_contents; [done|done|]. intros b Hb. apply Hfr.
    intros Hin. apply Hb. rewrite !elem_of_app. auto.
  - by destruct Hs as (_ & -> & _).
  - intros b Hb. destruct (Hpg b Hb) as [d Hd]. destruct Hs as (_ & _ & Hs).
    specialize (Hs b). rewrite Hd in Hs. simpl in Hs.
    destruct (h_blocks h' !! b) as [[s d']|] eqn:E'; [|done]. injection Hs as ->. by exists d'.
Qed.

Lemma mem_st_ok h nb : mem_st h nb → heap_ok h0.
Proof. intros [(? & _) _ _]. done. Qed.

Lemma page_new_st h nb o b pcs : mem_st h nb → EPage o b pcs ∈ g → h_next h0 <= b.
Proof.
  intros [(_ & _ & _ & _ & Hbs & _) _ _] He. destruct (Hbs b); [|lia].
  rewrite !elem_of_app. right. left. by eapply pages_elem.
Qed.

Lemma app_old h nb x p : mem_st h nb → iov_loc (pieces g) x p → 0 < p_blk p < h_next h0.
Proof. intros Hm Hl. eapply mem_valid_blk; [by eapply mem_st_ok|]. by eapply Hbytes. Qed.

(** The application's bytes do not change. *)
Lemma app_byte h nb x p : mem_st h nb → iov_loc (pieces g) x p → byte_at h p = byte_at h0 p.
Proof.
  intros Hm Hl. eapply heap_grow_byte_at; [apply Hm|]. destruct (app_old _ _ _ _ Hm Hl). lia.
Qed.

Lemma piece_valid v : v ∈ pieces g → mem_valid h0 (miov_base v) (miov_len v).
Proof.
  intros Hv. pose proof (piece_pos ps mx E g Hok v Hv) as Hpos. apply mem_valid_bytes; [done|].
  intros i Hi. apply (Hbytes (miov_off v + i)). exists v. split; [done|]. unfold iov_end.
  split; [lia|]. f_equal. lia.
Qed.

Lemma entry_valid h nb e : mem_st h nb → e ∈ g →
  mem_valid h (miov_base (entry_iov ps e)) (miov_len (entry_iov ps e)).
Proof.
  intros Hm He. destruct e as [v|o b pcs]; simpl.
  - eapply heap_grow_valid; [apply Hm|]. apply piece_valid. eapply pieces_elem; [done|left].
  - pose proof (page_new_st _ _ _ _ _ Hm He). pose proof (mem_st_ok _ _ Hm) as [Hpos _].
    destruct (ms_pages _ _ _ _ _ _ Hm b) as [d Hd]; [by eapply pages_elem|].
    split; [simpl; lia|]. exists (MkBlock ps d). simpl. split; [done|lia].
Qed.

Lemma page_piece_st o b pcs pc : EPage o b pcs ∈ g → pc ∈ pcs →
  o + miov_off pc mod ps = miov_off pc ∧ 0 < miov_len pc ∧ o <= miov_off pc ∧ iov_end pc <= o + ps.
Proof.
  intros He Hpc. destruct (entries_elem ps mx E g Hok _ He) as (_ & Ho & _ & _ & Hall).
  rewrite Forall_forall in Hall. destruct (Hall pc Hpc) as (? & ? & ?). split_and!; try done.
  unfold iov_end in *. pose proof (div_mod_eq o ps). rewrite Ho in *.
  replace (miov_off pc) with ((miov_off pc - o) + o / ps * ps) at 1 by lia.
  rewrite Z.mod_add, Z.mod_small; lia.
Qed.

Lemma dc_elem_st w sd : sd ∈ (g ≫= entry_dc w ps) ↔
  ∃ o b pcs pc, EPage o b pcs ∈ g ∧ pc ∈ pcs ∧ sd = dc_pair w ps b pc.
Proof.
  rewrite list_elem_of_bind. split.
  - intros ([v|o b pcs] & Hsd & He); simpl in Hsd; [by apply not_elem_of_nil in Hsd|].
    apply list_elem_of_fmap in Hsd as (pc & -> & Hpc). eauto 10.
  - intros (o & b & pcs & pc & He & Hpc & ->). exists (EPage o b pcs). split; [|done].
    apply list_elem_of_fmap. eauto.
Qed.

Lemma page_area_valid h nb o b pcs pc : mem_st h nb → EPage o b pcs ∈ g → pc ∈ pcs →
  mem_valid h (ptr_add (MkPtr b 0) (miov_off pc mod ps)) (miov_len pc).
Proof.
  intros Hm He Hpc. destruct (page_piece_st o b pcs pc He Hpc) as (Hoff & ? & ? & Hend).
  destruct (entry_valid h nb _ Hm He) as (Hnz & blk & Hb & Hlo & Hhi). simpl in *.
  split; [done|]. exists blk. simpl. split; [done|]. unfold iov_end in Hend. lia.
Qed.

Lemma page_pc_valid h nb o b pcs pc : mem_st h nb → EPage o b pcs ∈ g → pc ∈ pcs →
  mem_valid h (ptr_add (miov_base pc) 0) (miov_len pc).
Proof.
  intros Hm He Hpc. rewrite ptr_add_0. eapply heap_grow_valid; [apply Hm|].
  apply piece_valid. by eapply pieces_elem.
Qed.

Lemma page_pc_old h nb o b pcs pc : mem_st h nb → EPage o b pcs ∈ g → pc ∈ pcs →
  p_blk (miov_base pc) < h_next h0.
Proof.
  intros Hm He Hpc. assert (Hv : pc ∈ pieces g) by by eapply pieces_elem.
  eapply mem_valid_blk; [by eapply mem_st_ok|]. by apply piece_valid.
Qed.

Lemma dcs_ok_st w h nb : mem_st h nb → dcs_ok h (g ≫= entry_dc w ps).
Proof.
  intros Hm. split.
  - intros sd (o & b & pcs & pc & He & Hpc & ->)%dc_elem_st.
    pose proof (page_area_valid _ _ _ _ _ _ Hm He Hpc). pose proof (page_pc_valid _ _ _ _ _ _ Hm He Hpc).
    destruct w; split; done.
  - intros sd sd' (o & b & pcs & pc & He & Hpc & ->)%dc_elem_st (o' & b' & pcs' & pc' & He' & Hpc' & ->)%dc_elem_st.
    pose proof (page_pc_old _ _ _ _ _ _ Hm He Hpc). pose proof (page_pc_old _ _ _ _ _ _ Hm He' Hpc').
    pose proof (page_new_st _ _ _ _ _ Hm He). pose proof (page_new_st _ _ _ _ _ Hm He').
    unfold dc_from, dc_to. destruct w; simpl; lia.
Qed.

Lemma pages_nodup_st h nb : mem_st h nb → NoDup (pages g).
Proof.
  intros [(_ & _ & _ & Hnd & _) _ _]. apply NoDup_app in Hnd as (_ & _ & Hnd).
  by apply NoDup_app in Hnd as (? & _).
Qed.

(** ** The pages of a write *)
Section WritePages.
Context `{MotrStore} (size : Z) (st : mstore).

(** Before the copies a byte of a page is what the object holds, if the page is
    below the object size, or zero; except where a piece is going to cover it. *)
Definition pages_before (h : heap) : Prop :=
  ∀ o b pcs i, EPage o b pcs ∈ g → 0 <= i < ps →
    (o < size ∧ byte_at h (MkPtr b i) = ms_read st (o + i)) ∨
    (size <= o ∧ byte_at h (MkPtr b i) = 0) ∨ (∃ p, iov_loc pcs (o + i) p).

(** After the copies. *)
Definition pages_after (h : heap) : Prop :=
  ∀ o b pcs i, EPage o b pcs ∈ g → 0 <= i < ps →
    (∃ p, iov_loc pcs (o + i) p ∧ byte_at h (MkPtr b i) = byte_at h0 p) ∨
    ((∀ p, ¬ iov_loc pcs (o + i) p) ∧
     (o < size ∧ byte_at h (MkPtr b i) = ms_read st (o + i) ∨
      size <= o ∧ byte_at h (MkPtr b i) = 0)).

(** A byte of a page lies in the destination of the copy of a piece exactly when
    the piece has the corresponding byte of the object. *)
Lemma page_area o b pcs pc o' b' pcs' i :
  NoDup (pages g) → EPage o b pcs ∈ g → pc ∈ pcs → EPage o' b' pcs' ∈ g →
  in_area (dc_to (dc_pair true ps b pc)) (dc_len (dc_pair true ps b pc)) (MkPtr b' i) →
  EPage o b pcs = EPage o' b' pcs' ∧ miov_off pc <= o + i < iov_end pc.
Proof.
  intros Hnd He Hpc He' [Hblk Hr]. unfold dc_to, dc_len in *. simpl in *. subst b'.
  destruct (pages_inj _ _ _ _ _ _ Hnd He He') as [-> ->]. split; [done|].
  destruct (page_piece_st _ _ _ _ He Hpc) as (Hoff & _). unfold iov_end. lia.
Qed.

Lemma data_copy_pages h nb :
  mem_st h nb → pages_before h →
  ∃ h', data_copy_loop (g ≫= entry_dc true ps) h = Done h' ∧ mem_st h' nb ∧ pages_after h'.
Proof.
  intros Hm Hpre. pose proof (pages_nodup_st _ _ Hm) as Hnd.
  destruct (data_copy_effect _ _ (dcs_ok_st true h nb Hm)) as (h' & Hrun & Hs & Hfr & Heff).
  exists h'. split; [done|]. split.
  { eapply mem_st_pages; [done|done|]. intros b Hb. apply Hfr.
    intros sd (o & b' & pcs & pc & He & Hpc & ->)%dc_elem_st. unfold dc_to. simpl.
    intros ->. apply Hb. by eapply pages_elem. }
  intros o b pcs i He Hi. destruct (Heff (MkPtr b i)) as [(sd & Hsd & Hin & Hb)|[Hno Hb]].
  - apply dc_elem_st in Hsd as (o' & b' & pcs' & pc & He' & Hpc & ->).
    destruct (page_area o' b' pcs' pc o b pcs i) as [[= -> -> ->] Hx]; try done.
    left. exists (ptr_add (miov_base pc) (o + i - miov_off pc)).
    assert (Hloc : iov_loc pcs (o + i) (ptr_add (miov_base pc) (o + i - miov_off pc))) by by exists pc.
    split; [done|]. rewrite Hb. rewrite <- (app_byte h nb (o + i)); [|done|].
    2:{ destruct Hloc as (v & Hv & Hrest). exists v. split; [by eapply pieces_elem|done]. }
    f_equal. unfold dc_from, dc_to. simpl. rewrite ptr_add_add. f_equal.
    destruct (page_piece_st _ _ _ _ He Hpc) as (Hoff & _). lia.
  - assert (Hnone : ∀ p, ¬ iov_loc pcs (o + i) p).
    { intros p (pc & Hpc & Hx & _). apply (Hno (dc_pair true ps b pc)).
      - apply dc_elem_st. eauto 10.
      - split; [done|]. unfold dc_to, dc_len. simpl.
        destruct (page_piece_st _ _ _ _ He Hpc) as (Hoff & _). unfold iov_end in Hx. lia. }
    right. split; [done|]. rewrite Hb.
    destruct (Hpre o b pcs i He Hi) as [?|[?|[p Hp]]]; [by left|by right|by destruct (Hnone p)].
Qed.

(** Fresh pages, none of them below the object size. *)
Lemma pages_before_fresh h :
  Forall (λ b, h_blocks h !! b = Some (MkBlock ps (λ _, 0))) (pages g) →
  (∀ o b pcs, EPage o b pcs ∈ g → size <= o) → pages_before h.
Proof.
  intros Hz Hsz o b pcs i He Hi. right. left. split; [by eapply Hsz|].
  rewrite Forall_forall in Hz. unfold byte_at. simpl. by rewrite (Hz b) by by eapply pages_elem.
Qed.

(** Fresh pages after the read-before-write operation. *)
Lemma pages_before_read h nb rbw :
  mem_st h nb → Forall (λ b, h_blocks h !! b = Some (MkBlock ps (λ _, 0))) (pages g) →
  optimised ps size g rbw →
  ∃ h', exec_read rbw st h = Done h' ∧ mem_st h' nb ∧ pages_before h'.
Proof.
  intros Hm Hz [_ Heach Hpage]. pose proof (pages_nodup_st _ _ Hm) as Hnd.
  assert (Hval : ∀ v, v ∈ rbw → mem_valid h (miov_base v) (miov_len v)).
  { intros v Hv. destruct (Heach v Hv) as (o & b & pcs & He & _ & Hcase).
    destruct (entry_valid h nb _ Hm He) as (Hnz & blk & Hb & Hlo & Hhi). simpl in *.
    destruct Hcase as [->|[-> _]]; simpl; (split; [done|]); exists blk; simpl; (split; [done|]); lia. }
  destruct (exec_read_effect rbw st h Hval) as (h' & Hrun & Hs & Hfr & Heff).
  exists h'. split; [done|]. split.
  { eapply mem_st_pages; [done|done|]. intros b Hb. apply Hfr.
    intros v Hv. destruct (Heach v Hv) as (o & b' & pcs & He & _ & Hcase).
    assert (p_blk (miov_base v) = b') as -> by by destruct Hcase as [->|[-> _]].
    intros ->. apply Hb. by eapply pages_elem. }
  rewrite Forall_forall in Hz. intros o b pcs i He Hi.
  destruct (Heff (MkPtr b i)) as [(v & Hv & [Hblk Hr] & Hb)|[Hno Hb]].
  - destruct (Heach v Hv) as (o' & b' & pcs' & He' & Hlt & Hcase).
    destruct Hcase as [->|[-> _]]; simpl in *; [|lia]. subst b'.
    destruct (pages_inj _ _ _ _ _ _ Hnd He He') as [-> ->].
    left. split; [done|]. rewrite Hb. f_equal. lia.
  - rewrite Hb. destruct (Z.lt_ge_cases o size) as [Hlt|Hge].
    + destruct (Hpage o b pcs He Hlt) as [Hin|Hcov].
      * exfalso. apply (Hno _ Hin). unfold vec_area, in_area. simpl. split; [done|lia].
      * right. right. apply Hcov. lia.
    + right. left. split; [done|]. unfold byte_at. simpl.
      by rewrite (Hz b) by by eapply pages_elem.
Qed.

(** ** The writes *)

(** What a byte of the object is after the write. *)
Definition written_byte (st' : mstore) (x : Z) : Prop :=
  (∃ p, iov_loc (pieces g) x p ∧ ms_read st' x = byte_at h0 p) ∨
  ((∀ p, ¬ iov_loc (pieces g) x p) ∧
   (ms_read st' x = ms_read st x ∨ size <= x ∧ ms_read st' x = 0)).

Lemma exec_write_all h nb :
  mem_st h nb → pages_after h →
  ∃ st', exec_write (entry_iov ps <$> g) h st = Done st' ∧ ∀ x, written_byte st' x.
Proof.
  intros Hm Hpost.
  destruct (exec_write_effect (entry_iov ps <$> g) h st) as (st' & Hrun & Heff).
  { intros v (e & -> & He)%list_elem_of_fmap. by eapply entry_valid. }
  exists st'. split; [done|]. intros x. destruct (Heff x) as [(v & Hv & Hx & Hb)|[Hno Hb]].
  - apply list_elem_of_fmap in Hv as (e & -> & He). unfold written_byte.
    assert (Hloc : ∀ p, iov_loc (pieces g) x p ↔ iov_loc (entry_pieces e) x p).
    { intros p. by eapply (iov_loc_entry ps mx E). }
    destruct e as [v|o b pcs]; simpl in *.
    + left. exists (ptr_add (miov_base v) (x - miov_off v)).
      assert (Hp : iov_loc (pieces g) x (ptr_add (miov_base v) (x - miov_off v))).
      { apply Hloc. by apply iov_loc_one. }
      split; [done|]. rewrite Hb. by eapply app_byte.
    + unfold iov_end in Hx. simpl in Hx. rewrite Hb.
      destruct (Hpost o b pcs (x - o) He) as [(p & Hp & Hbyte)|[Hnone Hrest]]; [lia|left|right];
        replace (o + (x - o)) with x in * by lia.
      * exists p. split; [by apply Hloc|]. done.
      * split; [intros p Hp; apply (Hnone p); by apply Hloc|].
        change (ptr_add (MkPtr b 0) (x - o)) with (MkPtr b (x - o)).
        destruct Hrest as [[_ ->]|[Hge ->]]; [by left|right]. split; [lia|done].
  - right. split; [|by left]. intros p (v & Hv & Hx & _).
    apply list_elem_of_bind in Hv as (e & Hv & He). apply (Hno (entry_iov ps e)).
    + apply list_elem_of_fmap. by exists e.
    + by eapply (piece_in_entry ps mx E g Hok).
Qed.
End WritePages.
End Request.

(** ** The operations of a write, one after the other *)
Section WriteRun.
Context `{IoEnv} `{MotrVecsOk}.
Context (attrs_put : mio_obj → rw_mop → heap → outcome (Z * rw_mop * heap)).
Context (ps mx : Z) (argsA : rw_args) (al : list mio_iovec) (hc : heap) (st : mstore).
Context (Hready : io_ready (rwa_obj argsA) ps mx) (Hal : v_items (rwa_aligned argsA) = al).
Context (Hlens : Forall (λ v, 0 <= miov_len v <= mx) al).
Context (Hvalid : ∀ v, v ∈ al → mem_valid hc (miov_base v) (miov_len v)).

(** The write of the aligned vectors [k], ..., [k+n-1] is on its way and those
    before it are done. *)
Record writing (k n : nat) (op : rw_mop) (w : rw_world) : Prop := {
  wr_chain : ∃ dop rest, mop_drv_op_chain op = dop :: rest ∧
    mdo_op dop = MkIo M0_OC_WRITE (take n (drop k al)) ∧ mdo_post_proc dop = Some PpWrite;
  wr_count : (0 < n)%nat ∧ (k + n <= length al)%nat;
  wr_args : w_args w = set_aligned_progress (k + n) argsA;
  wr_heap : ∃ nb, heap_grow hc (w_heap w) nb;
  wr_plan : h_plan (w_heap w) = [];
  wr_store : exec_write (take k al) hc st = Done (w_store w)
}.

Lemma writing_execute k n op w : writing k n op w →
  ∃ st', io_execute op w = Done (MkWorld _ (w_args w) (w_heap w) st') ∧
    exec_write (take (k + n) al) hc st = Done st'.
Proof.
  intros [(dop & rest & Hch & Hio & _) [Hn Hkn] _ [nb Hg] _ Hst]. unfold io_execute. rewrite Hch, Hio.
  assert (Hv : ∀ v, v ∈ take n (drop k al) → mem_valid hc (miov_base v) (miov_len v)).
  { intros v Hv. apply Hvalid. eapply subseteq_drop, subseteq_take. done. }
  destruct (exec_write_effect _ hc (w_store w) Hv) as (st' & Hrun & _).
  exists st'. unfold exec_io. simpl. rewrite (exec_write_grow hc _ nb) by done. rewrite Hrun. simpl.
  split; [done|]. rewrite <- take_take_drop, exec_write_app, Hst. simpl. done.
Qed.

(** Launching the next write. *)
Lemma writing_launch k op h nb st' :
  (k < length al)%nat → heap_grow hc h nb → h_plan h = [] →
  exec_write (take k al) hc st = Done st' →
  ∃ n op' h', rw_next_aligned M0_OC_WRITE PpWrite (set_aligned_progress k argsA) op h =
      Done (0, set_aligned_progress (k + n) argsA, op', h') ∧
    writing k n op' (MkWorld _ (set_aligned_progress (k + n) argsA) h' st').
Proof.
  intros Hk Hg Hp Hst. unfold rw_next_aligned. simpl. rewrite Hal.
  destruct (motr_obj_rw_aligned_run (rwa_obj argsA) ps mx al k M0_OC_WRITE PpWrite op h)
    as (Hn & Hkn & a & dop & h' & -> & Hio & Hpp & _ & _ & Hp' & Hg'); try done;
    [by eapply heap_grow_ok|by right|].
  simpl. eexists _, _, h'. split; [done|]. split; simpl; try done.
  - eauto.
  - eexists. by eapply heap_grow_trans.
Qed.

Lemma writing_step k n op w :
  writing k n op w → (k + n < length al)%nat →
  ∃ n' op' w', io_complete attrs_put op w = Done (None, op', w') ∧ writing (k + n) n' op' w'.
Proof.
  intros Hw Hlt. destruct (writing_execute _ _ _ _ Hw) as (st' & Hex & Hst').
  destruct Hw as [(dop & rest & Hch & Hio & Hpp) _ Ha [nb Hg] Hp _].
  unfold io_complete. rewrite Hex. simpl. unfold motr_op_cb_complete. rewrite Hch, Hpp. simpl.
  unfold motr_obj_write_pp. simpl. rewrite Ha. rewrite decide_True.
  2:{ unfold vec_len. simpl. rewrite Hal. lia. }
  destruct (writing_launch (k + n) op (w_heap w) nb st') as (n' & op' & h' & Hrun & Hw'); try done.
  simpl in Hrun. rewrite Hrun. simpl. by eexists _, _, _.
Qed.

(** The writes follow one another up to the last. *)
Lemma writing_all k n op w :
  writing k n op w →
  ∃ k' n' op' w', rtc (io_step attrs_put) (op, w) (op', w') ∧
    writing k' n' op' w' ∧ (k' + n' = length al)%nat.
Proof.
  remember (length al - k)%nat as m eqn:Em. revert k n op w Em.
  induction m as [m IH] using (well_founded_induction lt_wf); intros k n op w -> Hw.
  pose proof (wr_count _ _ _ _ Hw) as [Hn Hkn].
  destruct (decide (k + n = length al)%nat) as [Heq|Hne].
  { exists k, n, op, w. split; [apply rtc_refl|done]. }
  destruct (writing_step k n op w Hw) as (n1 & op1 & w1 & Hrun & Hw1); [lia|].
  destruct (IH (length al - (k + n))%nat ltac:(lia) (k + n)%nat n1 op1 w1 eq_refl Hw1)
    as (k' & n' & op' & w' & Hsteps & Hrest).
  exists k', n', op', w'. split; [|done]. by apply (rtc_l _ _ (op1, w1)).
Qed.

(** The completion of the last write: the arguments are freed and then read. *)
Lemma writing_last k n op w h0 nb pgs :
  writing k n op w → (k + n = length al)%nat →
  heap_grow h0 (w_heap w) (nb ++ pgs ++ p_blk (p_extra argsA) :: args_blocks argsA) →
  v_items (rwa_extra_pages argsA) = (λ b, MkPtr b 0) <$> pgs →
  block_ptrs (args_ptrs argsA) → p_args argsA ≠ NULL →
  io_complete attrs_put op w = Fault UseAfterFree.
Proof.
  intros Hw Heq Hg Hex Hptrs Hnn. destruct (writing_execute _ _ _ _ Hw) as (st' & Hrun & _).
  destruct Hw as [(dop & rest & Hch & Hio & Hpp) _ Ha _ _ _].
  unfold io_complete. rewrite Hrun. simpl. unfold motr_op_cb_complete. rewrite Hch, Hpp. simpl.
  unfold motr_obj_write_pp. simpl. rewrite Ha. rewrite decide_False.
  2:{ unfold vec_len. simpl. rewrite Hal. lia. }
  destruct (args_free_run h0 (w_heap w) nb pgs (set_aligned_progress (k + n) argsA))
    as (h' & -> & _ & Hacc); try done.
  simpl in *. by rewrite Hacc.
Qed.
End WriteRun.

(** ** The theorem on writes *)

(** A request the driver accepts and has the memory for: vectors of positive
    length inside the 64-bit offsets that share no byte, over valid memory. *)
Record request_ok `{IoEnv} (ps mx : Z) (obj : mio_obj) (iovs : list mio_iovec) (h : heap) : Prop := {
  rq_ready : io_ready obj ps mx;
  rq_div : mx mod ps = 0;
  rq_heap : heap_ok h;
  rq_plan : h_plan h = [];
  rq_nonempty : iovs ≠ [];
  rq_ok : Forall iov_ok iovs;
  rq_pos : Forall (λ v, 0 < miov_len v) iovs;
  rq_disjoint : StronglySorted iov_disjoint iovs;
  rq_mem : Forall (λ v, mem_valid h (miov_base v) (miov_len v)) iovs;
  rq_len : Forall (λ v, miov_len v + mx < 2 ^ 64) iovs;
  rq_aligned : est_aligned iovs mx < 2 ^ 31;
  rq_count : 2 * Z.of_nat (length iovs) < 2 ^ 31
}.

Lemma iov_loc_perm l k x p : l ≡ₚ k → iov_loc l x p ↔ iov_loc k x p.
Proof. intros Hp. unfold iov_loc. by setoid_rewrite Hp. Qed.

Lemma request_bytes `{IoEnv} ps mx obj iovs h x p :
  request_ok ps mx obj iovs h → iov_loc iovs x p → mem_valid h p 1.
Proof.
  intros Hrq (v & Hv & Hx & ->). pose proof (rq_mem _ _ _ _ _ Hrq) as Hm. rewrite Forall_forall in Hm.
  destruct (Hm v Hv) as (Hnz & b & Hb & Hlo & Hhi). unfold iov_end in Hx.
  split; [done|]. exists b. simpl. split; [done|]. lia.
Qed.

(** Allocation, sort and alignment of an accepted request. *)
Lemma request_prepared `{IoEnv} ps mx obj iovs h w :
  request_ok ps mx obj iovs h →
  ∃ a h1 args rc0 g h2 E, motr_obj_rw_args_alloc obj iovs h = Done (Some a, h1) ∧
    motr_obj_iovec_sort (set_is_write w a) = Done (rc0, args) ∧ rc0 = 0 ∧
    motr_obj_iovec_adjust args h1 = Done (0, install args ps g, h2) ∧
    rwa_obj args = obj ∧ rwa_is_write args = w ∧ rwa_aligned_progress args = O ∧
    rwa_rbw_progress args = O ∧ block_ptrs (args_ptrs args) ∧ p_args args ≠ NULL ∧
    v_items (rwa_extra_pages args) = [] ∧
    inv ps mx h (p_blk (p_extra args) :: args_blocks args) True E g h2 ∧
    (length (pages g) <= 2 * length iovs)%nat ∧
    (∀ x p, iov_loc (pieces g) x p ↔ iov_loc iovs x p).
Proof.
  intros Hrq. pose proof Hrq as [Hr Hd Hh Hp Hne Hok Hpos Hdis Hm Hl Ha Hc].
  destruct (motr_obj_rw_args_alloc_spec obj ps mx iovs h Hr Hh Hok Hl Ha Hc)
    as (r & h1 & Halloc & [(_ & _ & ?)|(a & -> & Hp1 & Hf & Hex & Hpa & Hptrs & Hg)]); [done|].
  destruct Hf as (Hobj & Hw & Ho & Hap & Hrp & Hva & Hvr & Hvd & Hvx).
  destruct (motr_obj_iovec_sort_run (set_is_write w a)) as (rc & args & sorted & Hsort & Hperm & Hss & Hargs & Hrc);
    [by simpl; rewrite Ho|by simpl; rewrite Ho|]. simpl in Hargs, Hperm. rewrite Ho in Hperm.
  assert (Hbef : StronglySorted iov_before sorted).
  { apply sorted_disjoint_before; [by rewrite Hperm|done|].
    eapply StronglySorted_sym_perm; [|symmetry; exact Hperm|done]. unfold iov_disjoint. tauto. }
  destruct Hrc as [[-> _]|[_ []]]; [|done].
  assert (Hloc : ∀ x p, iov_loc sorted x p ↔ iov_loc iovs x p).
  { intros x p. by apply iov_loc_perm. }
  assert (Hlen : length sorted = length iovs) by by rewrite Hperm.
  assert (Hest : est_aligned sorted mx = est_aligned iovs mx) by by apply est_aligned_perm.
  assert (Hpre : adjust_pre ps mx args h1).
  { subst args. split; simpl; rewrite ?Hobj, ?Hest, ?Hlen; try done.
    - by eapply heap_grow_ok.
    - by rewrite Ho.
    - by rewrite Hperm.
    - intros x p Hx. apply Hloc in Hx. pose proof (request_bytes _ _ _ _ _ _ _ Hrq Hx) as Hv.
      destruct (mem_valid_blk _ _ _ Hh Hv). destruct Hg as (_ & _ & ? & _). lia. }
  destruct (adjust_pre_run ps mx args h1 h (p_blk (p_extra a) :: args_blocks a) True Hpre Hg)
    as (rc & g & h2 & E & Hadj & Hinv & Hpages & Hrc2); [auto|].
  destruct Hrc2 as [[-> Hlocg]|[_ []]]; [|done].
  exists a, h1, args, 0, g, h2, E. subst args. simpl in *.
  do 4 (split; [done|]). split; [done|]. split; [done|]. split; [done|]. split; [done|].
  split; [done|]. split; [done|]. split; [by rewrite Hvx|]. split; [done|]. split; [lia|]. intros x p. by rewrite Hlocg, Hloc.
Qed.

Lemma set_aligned_progress_same args : set_aligned_progress (rwa_aligned_progress args) args = args.
Proof. by destruct args. Qed.

Section WriteTheorem.
Context `{IoEnv} `{MotrVecsOk}.
Context (attrs_put : mio_obj → rw_mop → heap → outcome (Z * rw_mop * heap)).

(** How a write ends: all operations but the last have completed, the last one
    was carried out and left the object as [good] says; its completion then
    frees the arguments and reads rwa_max_eow from them. *)
Definition write_ends (good : mstore → Prop) (op : rw_mop) (w : rw_world) : Prop :=
  ∃ op' w' w'', rtc (io_step attrs_put) (op, w) (op', w') ∧
    io_execute op' w' = Done w'' ∧ good (w_store w'') ∧
    rwa_aligned_progress (w_args w'') = vec_len (rwa_aligned (w_args w'')) ∧
    io_complete attrs_put op' w' = Fault UseAfterFree.

Lemma write_ends_step good op w op' w' :
  io_complete attrs_put op w = Done (None, op', w') → write_ends good op' w' → write_ends good op w.
Proof.
  intros Hs (op2 & w2 & w3 & Hsteps & Hrest). exists op2, w2, w3. split; [|done].
  by apply (rtc_l _ _ (op', w')).
Qed.

(** The writes of the aligned vectors, from memory that is ready for them. *)
Lemma write_tail ps mx E h0 g args size st hc nb op :
  0 < ps <= mx → io_ready (rwa_obj args) ps mx → entries_ok ps mx E g → g ≠ [] →
  (∀ x p, iov_loc (pieces g) x p → mem_valid h0 p 1) →
  v_items (rwa_aligned args) = entry_iov ps <$> g → rwa_aligned_progress args = O →
  v_items (rwa_extra_pages args) = (λ b, MkPtr b 0) <$> pages g →
  block_ptrs (args_ptrs args) → p_args args ≠ NULL →
  mem_st ps h0 (p_blk (p_extra args) :: args_blocks args) g hc nb →
  pages_after ps h0 g size st hc →
  ∃ args1 op1 h1, rw_next_aligned M0_OC_WRITE PpWrite args op hc = Done (0, args1, op1, h1) ∧
    write_ends (λ st', ∀ x, written_byte h0 g size st st' x) op1 (MkWorld _ args1 h1 st).
Proof.
  intros Hps Hr Hok Hne Hbytes Hal Hprog Hex Hptrs Hpa Hm Hafter.
  assert (Hlens : Forall (λ v, 0 <= miov_len v <= mx) (entry_iov ps <$> g)).
  { eapply Forall_impl; [by eapply entries_page_aligned|]. unfold page_aligned. intros v. simpl. lia. }
  assert (Hvalid : ∀ v, v ∈ entry_iov ps <$> g → mem_valid hc (miov_base v) (miov_len v)).
  { intros v (e & -> & He)%list_elem_of_fmap. by eapply (entry_valid ps mx E h0 _ g Hok Hbytes). }
  assert (Hlen : (0 < length (entry_iov ps <$> g))%nat) by (destruct g; [done|simpl; lia]).
  destruct (writing_launch ps mx args _ hc st Hr Hal Hlens 0 op hc [] st Hlen) as (n & op1 & h1 & Hrun & Hw).
  { apply heap_grow_refl. eapply heap_grow_ok. apply Hm. }
  { apply Hm. }
  { done. }
  rewrite <- Hprog, set_aligned_progress_same in Hrun at 1. exists (set_aligned_progress (0 + n) args), op1, h1.
  split; [exact Hrun|].
  destruct (writing_all attrs_put ps mx args _ hc st Hr Hal Hlens Hvalid 0 n op1 _ Hw)
    as (k' & n' & op2 & w2 & Hsteps & Hw2 & Heq).
  destruct (writing_execute args _ hc st Hvalid k' n' op2 w2 Hw2) as (st2 & Hex2 & Hst2).
  exists op2, w2, (MkWorld _ (w_args w2) (w_heap w2) st2). split; [exact Hsteps|]. split; [exact Hex2|].
  rewrite Heq, take_ge in Hst2 by done. split; [|split].
  - simpl. destruct (exec_write_all ps mx E h0 _ g Hok Hbytes size st hc nb Hm Hafter) as (st3 & Hrun3 & Hw3).
    rewrite Hst2 in Hrun3. injection Hrun3 as <-. done.
  - simpl. rewrite (wr_args _ _ _ _ _ _ _ _ Hw2). unfold vec_len. simpl. by rewrite Hal.
  - destruct (wr_heap _ _ _ _ _ _ _ _ Hw2) as [nb2 Hg2].
    eapply (writing_last attrs_put args _ hc st Hal Hvalid k' n' op2 w2 h0 (nb2 ++ nb) (pages g));
      try done.
    rewrite <- app_assoc. eapply heap_grow_trans; [apply Hm|done].
Qed.

Lemma inv_mem_st ps mx h0 bs0 E g h : inv ps mx h0 bs0 True E g h → mem_st ps h0 bs0 g h [].
Proof.
  intros [_ _ Hg Hz Hp]. split; [done|auto|]. rewrite Forall_forall in Hz. intros b Hb.
  exists (λ _, 0). auto.
Qed.

(** No page is read before it is written. *)
Lemma write_no_rbw ps mx E h0 g args size st h op :
  0 < ps <= mx → io_ready (rwa_obj args) ps mx → g ≠ [] →
  inv ps mx h0 (p_blk (p_extra args) :: args_blocks args) True E g h →
  (∀ x p, iov_loc (pieces g) x p → mem_valid h0 p 1) →
  v_items (rwa_aligned args) = entry_iov ps <$> g → v_items (rwa_dc args) = g ≫= entry_dc true ps →
  rwa_aligned_progress args = O →
  v_items (rwa_extra_pages args) = (λ b, MkPtr b 0) <$> pages g →
  block_ptrs (args_ptrs args) → p_args args ≠ NULL →
  g ≫= entry_rbw true ps size = [] →
  ∃ h' args1 op1 h1, motr_obj_data_copy args h = Done h' ∧
    rw_next_aligned M0_OC_WRITE PpWrite args op h' = Done (0, args1, op1, h1) ∧
    write_ends (λ st', ∀ x, written_byte h0 g size st st' x) op1 (MkWorld _ args1 h1 st).
Proof.
  intros Hps Hr Hne Hinv Hbytes Hal Hdc Hprog Hex Hptrs Hpa Hnil.
  pose proof (inv_ok _ _ _ _ _ _ _ _ Hinv) as Hok. pose proof (inv_mem_st _ _ _ _ _ _ _ Hinv) as Hm.
  assert (Hbefore : pages_before ps g size st h).
  { apply pages_before_fresh; [apply Hinv|]. intros o b pcs He. apply Z.nlt_ge. intros Hlt.
    assert (Hin : MkIov (MkPtr b 0) o ps ∈ g ≫= entry_rbw true ps size).
    { apply list_elem_of_bind. exists (EPage o b pcs). split; [|done]. simpl.
      rewrite (proj2 (Z.ltb_lt _ _)) by done. left. }
    rewrite Hnil in Hin. by apply not_elem_of_nil in Hin. }
  destruct (data_copy_pages ps mx E h0 _ g Hps Hok Hbytes size st h [] Hm Hbefore)
    as (h' & Hcopy & Hm' & Hafter).
  destruct (write_tail ps mx E h0 g args size st h' [] op) as (args1 & op1 & h1 & Hrun & Hends); try done.
  exists h', args1, op1, h1. split; [unfold motr_obj_data_copy; by rewrite Hdc|done].
Qed.

(** The pages fit one operation. *)
Lemma rbw_batch ps mx size g rbw : 0 < ps → Z.of_nat (length (pages g)) * ps <= mx → mx < 2 ^ 62 →
  optimised ps size g rbw → batch rbw 0 mx = length rbw ∧ Forall (λ v, 0 <= miov_len v <= mx) rbw.
Proof.
  intros Hps Hle Hmx [Hlen Heach _].
  assert (Hl : Forall (λ v, 0 <= miov_len v <= ps) rbw).
  { apply Forall_forall. intros v Hv. destruct (Heach v Hv) as (o & b & pcs & _ & _ & Hc).
    destruct Hc as [->|[-> _]]; simpl; lia. }
  assert (Ht : total_len rbw <= Z.of_nat (length rbw) * ps).
  { clear -Hl. induction Hl as [|v l Hv Hl IH]; simpl in *; lia. }
  pose proof (length_rbw_pages ps true size g) as Hlp. rewrite <- Hlen in Hlp.
  assert (Hr : rbw = [] ∨ ps <= mx) by (destruct rbw; [by left|right]; simpl in Hlp; nia).
  split.
  - apply batch_all; [|lia|nia|done]. eapply Forall_impl; [exact Hl|]. simpl. lia.
  - destruct Hr as [->|Hpm]; [constructor|]. eapply Forall_impl; [exact Hl|]. simpl. lia.
Qed.

(** The pages are read, then copied into, then written. *)
Lemma write_rbw ps mx E h0 g args size st h op :
  0 < ps <= mx → io_ready (rwa_obj args) ps mx → g ≠ [] →
  inv ps mx h0 (p_blk (p_extra args) :: args_blocks args) True E g h →
  (∀ x p, iov_loc (pieces g) x p → mem_valid h0 p 1) →
  v_items (rwa_aligned args) = entry_iov ps <$> g → v_items (rwa_dc args) = g ≫= entry_dc true ps →
  v_items (rwa_rbw args) = g ≫= entry_rbw true ps size →
  rwa_aligned_progress args = O → rwa_rbw_progress args = O →
  v_items (rwa_extra_pages args) = (λ b, MkPtr b 0) <$> pages g →
  block_ptrs (args_ptrs args) → p_args args ≠ NULL →
  g ≫= entry_rbw true ps size ≠ [] → Z.of_nat (length (pages g)) * ps <= mx →
  ∃ args1 op1 h1, motr_obj_read_before_write args op h = Done (0, args1, op1, h1) ∧
    write_ends (λ st', ∀ x, written_byte h0 g size st st' x) op1 (MkWorld _ args1 h1 st).
Proof.
  intros Hps Hr Hne Hinv Hbytes Hal Hdc Hrbw Hprog Hrprog Hex Hptrs Hpa Hnn Hfit.
  pose proof (inv_ok _ _ _ _ _ _ _ _ Hinv) as Hok. pose proof (inv_mem_st _ _ _ _ _ _ _ Hinv) as Hm.
  pose proof (ir_ps_pos _ _ _ Hr) as Hps'.
  destruct (optimise_loop_spec ps mx Hps' size args g [] 0) as (rbw & Hopt & Hod);
    [apply Hok|by eapply pages_nodup_st|done|done|by intros sd b Hsd%not_elem_of_nil|].
  destruct (rbw_batch ps mx size g rbw ltac:(lia) Hfit (proj2 (ir_mx_pos _ _ _ Hr)) Hod) as [Hbatch Hlens].
  assert (Hrlen : (0 < length rbw)%nat).
  { rewrite (opt_length _ _ _ _ Hod). by destruct (g ≫= entry_rbw true ps size); [|simpl; lia]. }
  unfold motr_obj_read_before_write, motr_obj_read_before_write_optimise.
  rewrite (ir_pagesize _ _ _ Hr). simpl. rewrite Hrbw, Hopt. simpl. unfold rw_next_rbw. simpl. rewrite Hrprog.
  destruct (motr_obj_rw_aligned_run (rwa_obj args) ps mx rbw 0 M0_OC_READ PpReadBeforeWrite op h)
    as (_ & _ & a & dop & h1 & -> & Hio & Hpp & _ & _ & Hp1 & Hg1); try done; [by eapply heap_grow_ok; apply Hm|apply Hm|by left|].
  rewrite drop_0, Hbatch in *. rewrite take_ge in Hio by done. simpl.
  set (args1 := set_rbw_progress (length rbw) (set_rbw rbw args)).
  eexists _, _, _. split; [done|].
  pose proof (mem_st_alloc ps h0 _ g h [] h1 _ Hm Hg1 Hp1) as Hm1. rewrite app_nil_r in Hm1.
  destruct (pages_before_read ps mx E h0 _ g Hps Hok Hbytes size st h1 _ rbw Hm1)
    as (h2 & Hread & Hm2 & Hbefore); [|done|].
  { apply Forall_forall. intros b Hb. pose proof (inv_zero _ _ _ _ _ _ _ _ Hinv) as Hz.
    rewrite Forall_forall in Hz. specialize (Hz b Hb). rewrite <- Hz.
    eapply heap_grow_lookup; [done|]. rewrite Hz. by eexists. }
  destruct (data_copy_pages ps mx E h0 _ g Hps Hok Hbytes size st h2 _ Hm2 Hbefore)
    as (h3 & Hcopy & Hm3 & Hafter).
  destruct (write_tail ps mx E h0 g args1 size st h3 _
    (set_chain (dop :: mop_drv_op_chain op) op) Hps Hr Hok Hne Hbytes Hal Hprog Hex Hptrs Hpa Hm3 Hafter)
    as (args2 & op2 & h4 & Hrun & Hends).
  eapply write_ends_step; [|exact Hends].
  unfold io_complete, io_execute. simpl. rewrite Hio. unfold exec_io. simpl. rewrite Hread. simpl.
  unfold motr_op_cb_complete. simpl. rewrite Hpp. simpl. unfold motr_obj_read_before_write_pp. simpl.
  rewrite decide_True by done. unfold motr_obj_data_copy. simpl. rewrite Hdc, Hcopy. simpl.
  rewrite Hrun. done.
Qed.
End WriteTheorem.


(** ** A concrete write

    Pages of 4 bytes and 24 bytes per operation; an object of 17 bytes that
    holds 100, 101, ... *)
#[local] Instance ex_io_env : IoEnv := {
  io_confs := Some (MkMotrConf Uninit Uninit Uninit Uninit Uninit Uninit Uninit Uninit Uninit Uninit
    12 Uninit Uninit);
  m0_conf_fid_is_valid := λ _, true;
  m0_pool_version_find := λ _, Some (MkPver (MkPdclust 1 1 4) (MkFid 5 6))
}.

#[local] Instance ex_store : MotrStore := {
  mstore := Z → Z;
  ms_read := λ s, s;
  ms_write := λ s off len f x, if (off <=? x) && (x <? off + len) then f (x - off) else s x;
  ms_read_write := λ s off len f x, eq_refl;
  m0_bufvec_empty_alloc := λ _, 0;
  m0_bufvec_alloc := λ _, 0;
  m0_indexvec_alloc := λ _, 0
}.

#[local] Instance ex_vecs_ok : MotrVecsOk.
Proof. by split. Defined.

Definition ex_write_op : rw_mop := MkOp 1 MIO_OBJ_WRITE 0 true true [] true.
Definition ex_attrs_put (obj : mio_obj) (op : rw_mop) (h : heap) : outcome (Z * rw_mop * heap) :=
  Done (0, op, h).
Definition ex_contents : mstore := λ x : Z, 100 + x.
Definition ex_sized_obj : mio_obj := set_moa_size 17 ex_obj.

Lemma ex_request_ok : request_ok 4 24 ex_sized_obj ex_iovs ex_heap.
Proof.
  split; try reflexivity; try done.
  - apply (ap_heap _ _ _ _ ex_sorted_pre).
  - unfold iov_ok, iov_end. repeat constructor; simpl; lia.
  - repeat constructor; simpl; lia.
  - unfold iov_disjoint, iov_before, iov_end. repeat constructor; simpl; lia.
  - unfold mem_valid, ex_heap. repeat constructor; simpl; try done;
      eexists; (split; [reflexivity|simpl; lia]).
  - repeat constructor; simpl; lia.
Defined.


(** With 8 bytes per operation the three pages to be read take two operations. *)
Definition ex_narrow_env : IoEnv := {|
  io_confs := Some (MkMotrConf Uninit Uninit Uninit Uninit Uninit Uninit Uninit Uninit Uninit Uninit
    4 Uninit Uninit);
  m0_conf_fid_is_valid := λ _, true;
  m0_pool_version_find := λ _, Some (MkPver (MkPdclust 1 1 4) (MkFid 5 6))
|}.
Definition ex_obj20 : mio_obj := set_moa_size 20 ex_obj.

(** The contents of the object after the last write has been carried out. *)
Definition ex_narrow_write (x : Z) : outcome Z :=
  '(_, a, op, h) ← mio_motr_obj_writev (H:=ex_narrow_env) ex_obj20 ex_sorted ex_write_op ex_heap;
  match a with
  | None => Fault NullDeref
  | Some args =>
      '(op, w) ← io_run (H:=ex_narrow_env) ex_attrs_put 4 op (MkWorld _ args h ex_contents);
      w ← io_execute op w;
      Done (ms_read (w_store w) x)
  end.

