(* ===== verification/IoRead.v ===== *)
(** * What a read does (src/driver_motr_obj.c, lines 1330-1397)

    From the call of [mio_motr_obj_readv] to the callback of the application: the
    reads of the aligned vectors, the copies out of the extra pages, and what
    the application's memory holds afterwards. *)

From stdpp Require Import sorting relations.
From S2P Require Import Prelude ObjId HintMap Mem Types IoVec IoAlign DriverOp IoExec IoSteps IoWrite.

(** The heaps have blocks of the same sizes. *)
Definition same_sizes (h h' : heap) : Prop :=
  h_next h' = h_next h ∧ ∀ b, b_size <$> (h_blocks h' !! b) = b_size <$> (h_blocks h !! b).

Lemma same_sizes_valid h h' p n : same_sizes h h' → mem_valid h p n → mem_valid h' p n.
Proof.
  intros [_ Hs] (Hnz & b & Hb & Hr). split; [done|]. specialize (Hs (p_blk p)).
  rewrite Hb in Hs. simpl in Hs. destruct (h_blocks h' !! p_blk p) as [b'|] eqn:E; [|done].
  injection Hs as Hs. exists b'. split; [done|lia].
Qed.

Section Read.
Context (ps mx E : Z) (h0 : heap) (bs0 : list Z) (g : list entry).
Context (Hps : 0 < ps <= mx) (Hok : entries_ok ps mx E g).
Context (Hbytes : ∀ x p, iov_loc (pieces g) x p → mem_valid h0 p 1).
Context (Hinj : ∀ x y p, iov_loc (pieces g) x p → iov_loc (pieces g) y p → x = y).
Local Abbreviation al := (entry_iov ps <$> g).

(** The memory of a read in progress: as for a write, but the application's
    bytes change. *)
Definition mem_rd (h : heap) (nb : list Z) : Prop :=
  ∃ h0', same_sizes h0 h0' ∧ mem_st ps h0' bs0 g h nb.

Lemma bytes_sizes h0' : same_sizes h0 h0' → ∀ x p, iov_loc (pieces g) x p → mem_valid h0' p 1.
Proof. intros Hs x p Hx. eapply same_sizes_valid; [done|]. by eapply Hbytes. Qed.

Lemma mem_rd_alloc h nb h' nb' :
  mem_rd h nb → heap_grow h h' nb' → h_plan h' = [] → mem_rd h' (nb' ++ nb).
Proof. intros (h0' & Hs & Hm) Hg Hp. exists h0'. split; [done|]. by eapply mem_st_alloc. Qed.

Lemma mem_rd_contents h nb h' : mem_rd h nb → same_shape h h' → mem_rd h' nb.
Proof.
  intros (h0' & [Hn Hs] & [Hg Hp Hpg]) Hsh.
  destruct (heap_grow_rebase _ _ _ _ Hg Hsh) as (h0'' & Hg' & Hn' & Hs').
  exists h0''. split; [split; [congruence|intros b; by rewrite Hs', Hs]|]. split; [done| |].
  - by destruct Hsh as (_ & -> & _).
  - intros b Hb. destruct (Hpg b Hb) as [d Hd]. destruct Hsh as (_ & _ & Hsz).
    specialize (Hsz b). rewrite Hd in Hsz. simpl in Hsz.
    destruct (h_blocks h' !! b) as [[s d']|]; [|done]. injection Hsz as ->. by exists d'.
Qed.

Lemma mem_rd_valid h nb v : mem_rd h nb → v ∈ al → mem_valid h (miov_base v) (miov_len v).
Proof.
  intros (h0' & Hs & Hm) (e & -> & He)%list_elem_of_fmap.
  eapply (entry_valid ps mx E h0' _ g); [done| |done|done]. by apply bytes_sizes.
Qed.

(** The vector [v] of an operation has the byte [x] of the object at [q]. *)
Definition vec_byte (v : mio_iovec) (x : Z) (q : ptr) : Prop :=
  miov_off v <= x < iov_end v ∧ q = ptr_add (miov_base v) (x - miov_off v).

Lemma vec_area_byte v q : vec_area v q →
  vec_byte v (miov_off v + (p_off q - p_off (miov_base v))) q.
Proof.
  intros [Hb Hr]. unfold vec_byte, iov_end. split; [lia|]. destruct q as [b o]. unfold ptr_add. simpl in *.
  f_equal; [done|lia].
Qed.

Lemma vec_byte_area v x q : vec_byte v x q → vec_area v q.
Proof. intros [Hx ->]. unfold vec_area, in_area, iov_end in *. simpl. split; [done|lia]. Qed.

(** Two aligned vectors do not share memory. *)
Lemma aligned_byte_inj h nb e e' x y q : mem_rd h nb → e ∈ g → e' ∈ g →
  vec_byte (entry_iov ps e) x q → vec_byte (entry_iov ps e') y q → e = e' ∧ x = y.
Proof.
  intros (h0' & Hsz & Hm) He He' [Hx ->] [Hy Heq]. pose proof (bytes_sizes _ Hsz) as Hb'.
  assert (Hx' : in_entry ps e x) by exact Hx. assert (Hy' : in_entry ps e' y) by exact Hy.
  assert (Hold : ∀ v x, EDirect v ∈ g → miov_off v <= x < iov_end v → p_blk (miov_base v) < h_next h0').
  { intros v z Hv Hz. assert (Hl : iov_loc (pieces g) z (ptr_add (miov_base v) (z - miov_off v))).
    { exists v. split; [eapply pieces_elem; [done|left]|done]. }
    by destruct (app_old ps h0' _ g Hb' _ _ _ _ Hm Hl). }
  assert (Hnew : ∀ o b pcs, EPage o b pcs ∈ g → h_next h0' <= b) by (intros; by eapply page_new_st).
  assert (Hxy : x = y).
  { destruct e as [v|o b pcs], e' as [v'|o' b' pcs']; simpl in *.
    - eapply (Hinj x y (ptr_add (miov_base v) (x - miov_off v))).
      + exists v. split; [eapply pieces_elem; [exact He|left]|done].
      + exists v'. split; [eapply pieces_elem; [exact He'|left]|done].
    - specialize (Hold _ _ He Hx). specialize (Hnew _ _ _ He'). unfold ptr_add in Heq. simpl in Heq.
      injection Heq as Hblk _. lia.
    - specialize (Hold _ _ He' Hy). specialize (Hnew _ _ _ He). unfold ptr_add in Heq. simpl in Heq.
      injection Heq as Hblk _. lia.
    - unfold ptr_add in Heq. simpl in Heq. injection Heq as <- Hoff.
      destruct (pages_inj g o o' b pcs pcs') as [-> _]; try done; [by eapply pages_nodup_st|]. lia. }
  subst y. split; [|done]. by eapply (in_entry_inj ps mx E g Hok).
Qed.

(** ** The reads *)
Section ReadContents.
Context `{MotrStore} (st : mstore) (ha : heap) (nba : list Z) (Hma : mem_rd ha nba).

(** The first [k] aligned vectors have been read: their bytes are the object's,
    the others are those of the heap [ha] in which the arguments were prepared. *)
Definition read_upto (k : nat) (h : heap) : Prop :=
  h_next ha <= h_next h ∧
  ∀ q, p_blk q < h_next ha →
    (∃ v x, v ∈ take k al ∧ vec_byte v x q ∧ byte_at h q = ms_read st x) ∨
    ((∀ v x, v ∈ take k al → ¬ vec_byte v x q) ∧ byte_at h q = byte_at ha q).

Lemma read_upto_0 : read_upto 0 ha.
Proof.
  split; [lia|]. intros q _. right. split; [|done]. intros v x Hv. by apply not_elem_of_nil in Hv.
Qed.

Lemma read_upto_alloc k h h' nb : read_upto k h → heap_grow h h' nb → read_upto k h'.
Proof.
  intros [Hle Hr] Hg. pose proof Hg as (_ & _ & ? & _). split; [lia|]. intros q Hq.
  rewrite (heap_grow_byte_at _ _ _ _ Hg) by lia. by apply Hr.
Qed.

Lemma read_upto_exec k n h nb : mem_rd h nb → read_upto k h →
  ∃ h', exec_read (take n (drop k al)) st h = Done h' ∧ mem_rd h' nb ∧ read_upto (k + n) h'.
Proof.
  intros Hm [Hle Hr].
  destruct (exec_read_effect (take n (drop k al)) st h) as (h' & Hrun & Hs & _ & Heff).
  { intros v Hv. eapply mem_rd_valid; [exact Hm|]. by eapply subseteq_drop, subseteq_take. }
  exists h'. split; [done|]. split; [by eapply mem_rd_contents|]. split; [destruct Hs as [-> _]; lia|].
  intros q Hq. rewrite <- take_take_drop. setoid_rewrite elem_of_app.
  destruct (Heff q) as [(v & Hv & Ha & Hb)|[Hno Hb]].
  - left. eexists v, _. split; [by right|]. split; [by apply vec_area_byte|done].
  - rewrite Hb. destruct (Hr q Hq) as [(v & x & Hv & Hrest)|[Hnone Hsame]].
    + left. exists v, x. auto.
    + right. split; [|done]. intros v x [Hv|Hv] Hvb; [by eapply Hnone|].
      apply (Hno v Hv). by eapply vec_byte_area.
Qed.

Lemma app_old_rd x p : iov_loc (pieces g) x p → p_blk p < h_next h0 ∧ h_next h0 <= h_next ha.
Proof.
  intros Hl. destruct Hma as (h0' & [Hn Hs] & Hm). pose proof (bytes_sizes _ (conj Hn Hs)) as Hb'.
  destruct (app_old ps h0' _ g Hb' _ _ _ _ Hm Hl). destruct Hm as [(_ & _ & ? & _) _ _]. lia.
Qed.

Lemma page_range o b pcs : EPage o b pcs ∈ g → h_next h0 <= b < h_next ha.
Proof.
  intros He. destruct Hma as (h0' & [Hn Hs] & Hm).
  destruct Hm as [(_ & _ & _ & _ & Hbs & _) _ _]. destruct (Hbs b); [|lia].
  rewrite !elem_of_app. right. left. by eapply pages_elem.
Qed.

(** After all reads every aligned vector holds the object's bytes. *)
Lemma read_all h nb e x q : mem_rd h nb → read_upto (length al) h → e ∈ g →
  vec_byte (entry_iov ps e) x q → byte_at h q = ms_read st x.
Proof.
  intros Hm [_ Hr] He Hv.
  assert (Hq : p_blk q < h_next ha).
  { destruct Hv as [Hx ->]. destruct e as [v|o b pcs]; simpl in *.
    - assert (Hl : iov_loc (pieces g) x (ptr_add (miov_base v) (x - miov_off v))).
      { exists v. split; [eapply pieces_elem; [done|left]|done]. }
      destruct (app_old_rd _ _ Hl). simpl in *. lia.
    - by destruct (page_range o b pcs He). }
  destruct (Hr q Hq) as [(v & y & Hv' & Hvb & ->)|[Hno _]].
  - rewrite take_ge in Hv' by done. apply list_elem_of_fmap in Hv' as (e' & -> & He').
    by destruct (aligned_byte_inj h nb e e' x y q Hm He He' Hv Hvb) as [_ ->].
  - exfalso. apply (Hno (entry_iov ps e) x); [|done]. rewrite take_ge by done.
    apply list_elem_of_fmap. by exists e.
Qed.

(** ** The copies out of the extra pages *)
Lemma read_copy h nb : mem_rd h nb → read_upto (length al) h →
  ∃ h', data_copy_loop (g ≫= entry_dc false ps) h = Done h' ∧ same_shape h h' ∧ mem_rd h' nb ∧
    (∀ x p, iov_loc (pieces g) x p → byte_at h' p = ms_read st x) ∧
    (∀ p, p_blk p < h_next h0 → (∀ x, ¬ iov_loc (pieces g) x p) → byte_at h' p = byte_at ha p).
Proof.
  intros Hm Hr. pose proof Hm as (h0' & Hsz & Hm'). pose proof (bytes_sizes _ Hsz) as Hb'.
  destruct (data_copy_effect _ _ (dcs_ok_st ps mx E h0' _ g Hps Hok Hb' false h nb Hm'))
    as (h' & Hrun & Hs & _ & Heff).
  exists h'. split; [done|]. split; [done|]. split; [by eapply mem_rd_contents|].
  (* a copy brings the byte of the object to its place *)
  assert (Hcopied : ∀ p sd, sd ∈ g ≫= entry_dc false ps → in_area (dc_to sd) (dc_len sd) p →
    byte_at h' p = byte_at h (ptr_add (dc_from sd) (p_off p - p_off (dc_to sd))) →
    ∃ y, iov_loc (pieces g) y p ∧ byte_at h' p = ms_read st y).
  { intros p sd (o & b & pcs & pc & He & Hpc & ->)%dc_elem_st [Hblk Hin] Hb.
    destruct (page_piece_st ps mx E g Hps Hok o b pcs pc He Hpc) as (Hoff & Hpos & Hlo & Hhi).
    unfold dc_to, dc_len, dc_from in *. simpl in *.
    exists (miov_off pc + (p_off p - p_off (miov_base pc))). split.
    - exists pc. split; [by eapply pieces_elem|]. unfold iov_end. split; [lia|].
      destruct p as [pb po]. unfold ptr_add. simpl in *. f_equal; [done|lia].
    - rewrite Hb. eapply (read_all h nb (EPage o b pcs)); [done|done|done|].
      unfold vec_byte, iov_end in *. simpl. split; [lia|]. unfold ptr_add. simpl. f_equal. lia. }
  split.
  - intros x p Hx. destruct (Heff p) as [(sd & Hsd & Hin & Hb)|[Hno Hb]].
    + destruct (Hcopied p sd Hsd Hin Hb) as (y & Hy & ->). by rewrite (Hinj x y p Hx Hy).
    + rewrite Hb. destruct Hx as (pc & Hpc & Hx & ->). apply list_elem_of_bind in Hpc as (e & Hpc & He).
      destruct e as [v|o b pcs]; simpl in Hpc.
      * apply list_elem_of_singleton in Hpc as ->. by eapply (read_all h nb (EDirect v)).
      * exfalso. apply (Hno (dc_pair false ps b pc)); [apply dc_elem_st; eauto 10|].
        unfold in_area, dc_to, dc_len, iov_end in *. simpl. split; [done|lia].
  - intros p Hp Hnone. destruct (Heff p) as [(sd & Hsd & Hin & Hb)|[_ ->]].
    { destruct (Hcopied p sd Hsd Hin Hb) as (y & Hy & _). by destruct (Hnone y). }
    destruct Hr as [_ Hr]. assert (Hle : h_next h0 <= h_next ha).
    { destruct Hma as (h1 & [Hn _] & [(_ & _ & ? & _) _ _]). lia. }
    destruct (Hr p) as [(v & x & Hv & [Hx ->] & _)|[_ ->]]; [lia| |done].
    exfalso. apply subseteq_take in Hv. apply list_elem_of_fmap in Hv as (e & -> & He).
    destruct e as [v|o b pcs]; simpl in *.
    + apply (Hnone x). exists v. split; [eapply pieces_elem; [done|left]|done].
    + destruct (page_range o b pcs He). lia.
Qed.
End ReadContents.
End Read.

(** ** The operations of a read, one after the other *)
Section ReadRun.
Context `{IoEnv} `{MotrVecsOk}.
Context (attrs_put : mio_obj → rw_mop → heap → outcome (Z * rw_mop * heap)).
Context (ps mx E : Z) (h0 : heap) (bs0 : list Z) (g : list entry) (args : rw_args) (st : mstore).
Context (Hps : 0 < ps <= mx) (Hok : entries_ok ps mx E g).
Context (Hbytes : ∀ x p, iov_loc (pieces g) x p → mem_valid h0 p 1).
Context (Hinj : ∀ x y p, iov_loc (pieces g) x p → iov_loc (pieces g) y p → x = y).
Context (Hready : io_ready (rwa_obj args) ps mx) (Hal : v_items (rwa_aligned args) = entry_iov ps <$> g).
Context (ha : heap) (nba : list Z) (Hma : mem_rd ps h0 bs0 g ha nba).
Local Abbreviation al := (entry_iov ps <$> g).

(** The read of the aligned vectors [k], ..., [k+n-1] is on its way. *)
Record reading (k n : nat) (op : rw_mop) (w : rw_world) : Prop := {
  rd_chain : ∃ dop rest, mop_drv_op_chain op = dop :: rest ∧
    mdo_op dop = MkIo M0_OC_READ (take n (drop k al)) ∧ mdo_post_proc dop = Some PpRead;
  rd_count : (0 < n)%nat ∧ (k + n <= length al)%nat;
  rd_args : w_args w = set_aligned_progress (k + n) args;
  rd_heap : ∃ nb, mem_rd ps h0 bs0 g (w_heap w) nb;
  rd_contents : read_upto ps g st ha k (w_heap w);
  rd_store : w_store w = st
}.

Lemma mem_rd_plan h nb : mem_rd ps h0 bs0 g h nb → heap_ok h ∧ h_plan h = [].
Proof. intros (h0' & _ & [Hg Hp _]). split; [by eapply heap_grow_ok|done]. Qed.

Lemma reading_execute k n op w : reading k n op w →
  ∃ h' nb, io_execute op w = Done (MkWorld _ (w_args w) h' st) ∧
    mem_rd ps h0 bs0 g h' nb ∧ read_upto ps g st ha (k + n) h'.
Proof.
  intros [(dop & rest & Hch & Hio & _) _ _ [nb Hm] Hr Hst]. unfold io_execute. rewrite Hch, Hio.
  destruct (read_upto_exec ps mx E h0 bs0 g Hok Hbytes st ha k n _ nb Hm Hr) as (h' & Hrun & Hm' & Hr').
  exists h', nb. unfold exec_io. simpl. by rewrite Hst, Hrun.
Qed.

Lemma reading_launch k op h nb :
  (k < length al)%nat → mem_rd ps h0 bs0 g h nb → read_upto ps g st ha k h →
  ∃ n op' h', rw_next_aligned M0_OC_READ PpRead (set_aligned_progress k args) op h =
      Done (0, set_aligned_progress (k + n) args, op', h') ∧
    reading k n op' (MkWorld _ (set_aligned_progress (k + n) args) h' st).
Proof.
  intros Hk Hm Hr. destruct (mem_rd_plan _ _ Hm) as [Hh Hp]. unfold rw_next_aligned. simpl. rewrite Hal.
  assert (Hlens : Forall (λ v, 0 <= miov_len v <= mx) al).
  { eapply Forall_impl; [by eapply entries_page_aligned|]. unfold page_aligned. intros v. simpl. lia. }
  destruct (motr_obj_rw_aligned_run (rwa_obj args) ps mx al k M0_OC_READ PpRead op h)
    as (Hn & Hkn & a & dop & h' & -> & Hio & Hpp & _ & _ & Hp' & Hg'); try done; [by left|].
  simpl. eexists _, _, h'. split; [done|]. split; simpl; try done.
  - eauto.
  - eexists. by eapply mem_rd_alloc.
  - by eapply read_upto_alloc.
Qed.

Lemma reading_step k n op w :
  reading k n op w → (k + n < length al)%nat →
  ∃ n' op' w', io_complete attrs_put op w = Done (None, op', w') ∧ reading (k + n) n' op' w'.
Proof.
  intros Hw Hlt. destruct (reading_execute _ _ _ _ Hw) as (h1 & nb & Hex & Hm & Hr).
  destruct Hw as [(dop & rest & Hch & Hio & Hpp) _ Ha _ _ _].
  unfold io_complete. rewrite Hex. simpl. unfold motr_op_cb_complete. rewrite Hch, Hpp. simpl.
  unfold motr_obj_read_pp. simpl. rewrite Ha. rewrite decide_False.
  2:{ unfold vec_len. simpl. rewrite Hal. lia. }
  destruct (reading_launch (k + n) op h1 nb) as (n' & op' & h' & Hrun & Hw'); try done.
  simpl in Hrun. rewrite Hrun. simpl. by eexists _, _, _.
Qed.

Lemma reading_all k n op w :
  reading k n op w →
  ∃ k' n' op' w', rtc (io_step attrs_put) (op, w) (op', w') ∧
    reading k' n' op' w' ∧ (k' + n' = length al)%nat.
Proof.
  remember (length al - k)%nat as m eqn:Em. revert k n op w Em.
  induction m as [m IH] using (well_founded_induction lt_wf); intros k n op w -> Hw.
  pose proof (rd_count _ _ _ _ Hw) as [Hn Hkn].
  destruct (decide (k + n = length al)%nat) as [Heq|Hne].
  { exists k, n, op, w. split; [apply rtc_refl|done]. }
  destruct (reading_step k n op w Hw) as (n1 & op1 & w1 & Hrun & Hw1); [lia|].
  destruct (IH (length al - (k + n))%nat ltac:(lia) (k + n)%nat n1 op1 w1 eq_refl Hw1)
    as (k' & n' & op' & w' & Hsteps & Hrest).
  exists k', n', op', w'. split; [|done]. by apply (rtc_l _ _ (op1, w1)).
Qed.

(** The last completion: copies, release of the arguments, callback. *)
Lemma reading_last k n op w :
  reading k n op w → (k + n = length al)%nat →
  bs0 = p_blk (p_extra args) :: args_blocks args →
  v_items (rwa_dc args) = g ≫= entry_dc false ps →
  v_items (rwa_extra_pages args) = (λ b, MkPtr b 0) <$> pages g →
  block_ptrs (args_ptrs args) → p_args args ≠ NULL →
  ∃ w', io_complete attrs_put op w = Done (Some CbComplete, set_mop_rc 0 op, w') ∧ w_store w' = st ∧
    (∀ x p, iov_loc (pieces g) x p → byte_at (w_heap w') p = ms_read st x) ∧
    (∀ p, p_blk p < h_next h0 → (∀ x, ¬ iov_loc (pieces g) x p) → byte_at (w_heap w') p = byte_at ha p).
Proof.
  intros Hw Heq Hbs Hdc Hex Hptrs Hpa. destruct (reading_execute _ _ _ _ Hw) as (h1 & nb & Hexec & Hm & Hr).
  destruct Hw as [(dop & rest & Hch & Hio & Hpp) _ Ha _ _ _].
  unfold io_complete. rewrite Hexec. simpl. unfold motr_op_cb_complete. rewrite Hch, Hpp. simpl.
  unfold motr_obj_read_pp. simpl. rewrite Ha. rewrite decide_True.
  2:{ unfold vec_len. simpl. rewrite Hal. lia. }
  rewrite Heq in Hr.
  destruct (read_copy ps mx E h0 bs0 g Hps Hok Hbytes Hinj st ha nba Hma h1 nb Hm Hr)
    as (h2 & Hcopy & Hs & Hm2 & Hin & Hout).
  unfold motr_obj_data_copy. simpl. rewrite Hdc, Hcopy. simpl.
  destruct Hm2 as (h0' & [Hn0 Hsz] & [Hg _ _]). rewrite Hbs in Hg.
  destruct (args_free_run h0' h2 nb (pages g) (set_aligned_progress (k + n) args) Hg Hex Hptrs Hpa)
    as (h3 & -> & Hg3 & _). simpl.
  eexists. split; [done|]. simpl. split; [done|].
  assert (Hsame : ∀ p, p_blk p < h_next h0 → byte_at h3 p = byte_at h2 p).
  { intros p Hp. rewrite (heap_grow_byte_at _ _ _ _ Hg3), (heap_grow_byte_at _ _ _ _ Hg) by lia. done. }
  split.
  - intros x p Hx. rewrite Hsame; [by apply Hin|].
    by destruct (app_old_rd ps h0 bs0 g Hbytes ha nba Hma x p Hx).
  - intros p Hp Hno. rewrite Hsame by done. by apply Hout.
Qed.
End ReadRun.

(** (C2) A read of disjoint vectors over disjoint memory, when memory does not
    run out: [mio_motr_obj_readv] returns 0, its operations complete one after
    the other, and with the completion of the last one the application's callback
    is invoked; every byte of memory that a vector names then holds the object's
    byte, and no other byte of the application's memory has changed. *)
Theorem mio_motr_obj_readv_correct `{IoEnv} `{MotrVecsOk} attrs_put ps mx obj iovs op h st :
  request_ok ps mx obj iovs h → (∀ x y p, iov_loc iovs x p → iov_loc iovs y p → x = y) →
  ∃ args op1 h1, mio_motr_obj_readv obj iovs op h = Done (0, Some args, op1, h1) ∧
    ∃ op2 w2 w3, rtc (io_step attrs_put) (op1, MkWorld _ args h1 st) (op2, w2) ∧
      io_complete attrs_put op2 w2 = Done (Some CbComplete, set_mop_rc 0 op2, w3) ∧
      w_store w3 = st ∧
      (∀ x p, iov_loc iovs x p → byte_at (w_heap w3) p = ms_read st x) ∧
      (∀ p, p_blk p < h_next h → (∀ x, ¬ iov_loc iovs x p) → byte_at (w_heap w3) p = byte_at h p).
Proof.
  intros Hrq Hinj.
  destruct (request_prepared ps mx obj iovs h false Hrq) as (a & h1 & args & rc0 & g & h2 & E &
    Halloc & Hsort & -> & Hadj & Hobj & Hw & Hp1 & Hp2 & Hptrs & Hpa & Hex & Hinv & Hpages & Hloc).
  pose proof (rq_ready _ _ _ _ _ Hrq) as Hr. pose proof (ir_ps_pos _ _ _ Hr).
  assert (Hps : 0 < ps <= mx).
  { split; [lia|]. eapply (ps_le_mx args); [rewrite Hobj; done|]. apply (rq_div _ _ _ _ _ Hrq). }
  assert (Hbytes : ∀ x p, iov_loc (pieces g) x p → mem_valid h p 1).
  { intros x p Hx. eapply request_bytes; [exact Hrq|by apply Hloc]. }
  assert (Hinjg : ∀ x y p, iov_loc (pieces g) x p → iov_loc (pieces g) y p → x = y).
  { intros x y p Hx Hy. eapply Hinj; by apply Hloc. }
  assert (Hg : (0 < length (entry_iov ps <$> g))%nat).
  { destruct g as [|e g']; [|simpl; lia]. exfalso.
    pose proof (rq_nonempty _ _ _ _ _ Hrq). pose proof (rq_pos _ _ _ _ _ Hrq) as Hpos.
    destruct iovs as [|v l]; [done|]. inversion Hpos; subst.
    apply (iov_loc_nil (miov_off v) (miov_base v)). apply Hloc. exists v. split; [left|].
    unfold iov_end. rewrite Z.sub_diag, ptr_add_0. split; [lia|done]. }
  unfold mio_motr_obj_readv. rewrite Halloc. simpl. rewrite Hsort. simpl. rewrite Hadj. simpl.
  set (bs0 := p_blk (p_extra args) :: args_blocks args) in *.
  pose proof (inv_ok _ _ _ _ _ _ _ _ Hinv) as Hok. pose proof (inv_mem_st _ _ _ _ _ _ _ Hinv) as Hm.
  assert (Hma : mem_rd ps h bs0 g h2 []) by (exists h; split; [done|exact Hm]).
  assert (Hr' : io_ready (rwa_obj (install args ps g)) ps mx) by (simpl; by rewrite Hobj).
  destruct (reading_launch ps mx E h bs0 g (install args ps g) st Hps Hok Hr' eq_refl h2 0 op h2 [] Hg Hma
    (read_upto_0 ps g st h2)) as (n & op1 & h3 & Hrun & Hrd).
  assert (Hsame : set_aligned_progress 0 (install args ps g) = install args ps g).
  { rewrite <- (set_aligned_progress_same (install args ps g)) at 2. simpl. by rewrite Hp1. }
  rewrite Hsame in Hrun. rewrite Hrun. simpl. eexists _, _, _. split; [done|].
  destruct (reading_all attrs_put ps mx E h bs0 g (install args ps g) st Hps Hok Hbytes Hr' eq_refl h2
    0 n op1 _ Hrd) as (k' & n' & op2 & w2 & Hsteps & Hrd2 & Heq).
  assert (Hptrs' : block_ptrs (args_ptrs (install args ps g))).
  { unfold block_ptrs, args_ptrs in *. rewrite !Forall_app in *. simpl. rewrite Hex in Hptrs.
    destruct Hptrs as (? & _ & ?). split; [done|]. split; [|done].
    apply Forall_fmap, Forall_forall. done. }
  destruct (reading_last attrs_put ps mx E h bs0 g (install args ps g) st Hps Hok Hbytes Hinjg eq_refl
    h2 [] Hma k' n' op2 w2 Hrd2 Heq) as (w3 & Hlast & Hst & Hin & Hout); try done.
  { simpl. by rewrite Hw. }
  exists op2, w2, w3. split; [done|]. split; [done|]. split; [done|]. split.
  - intros x p Hx. apply Hin. by apply Hloc.
  - intros p Hp Hno. rewrite Hout; [|done|intros x Hx; apply (Hno x); by apply Hloc].
    eapply heap_grow_byte_at; [apply Hinv|done].
Qed.

#[local] Existing Instance ex_io_env.
#[local] Existing Instance ex_store.
#[local] Existing Instance ex_vecs_ok.

Lemma ex_iovs_inj x y p : iov_loc ex_iovs x p → iov_loc ex_iovs y p → x = y.
Proof.
  intros (v & Hv & _ & ->) (w & Hw & _ & Heq). unfold ex_iovs in Hv, Hw. rewrite !elem_of_cons in Hv, Hw.
  destruct Hv as [->|[->|[->|Hv%not_elem_of_nil]]], Hw as [->|[->|[->|Hw%not_elem_of_nil]]];
    unfold ptr_add in Heq; simpl in *; try done; injection Heq as Heq; lia.
Defined.

Lemma mio_motr_obj_readv_correct_witness :
  ∃ args op1 h1 op2 w2 w3,
    mio_motr_obj_readv ex_sized_obj ex_iovs ex_write_op ex_heap = Done (0, Some args, op1, h1) ∧
    rtc (io_step ex_attrs_put) (op1, MkWorld _ args h1 ex_contents) (op2, w2) ∧
    io_complete ex_attrs_put op2 w2 = Done (Some CbComplete, set_mop_rc 0 op2, w3) ∧
    byte_at (w_heap w3) (MkPtr 3 1) = 106 ∧ byte_at (w_heap w3) (MkPtr 3 2) = 52.
Proof.
  destruct (mio_motr_obj_readv_correct ex_attrs_put 4 24 ex_sized_obj ex_iovs ex_write_op ex_heap
    ex_contents ex_request_ok ex_iovs_inj) as (args & op1 & h1 & Hrun & op2 & w2 & w3 & Hsteps & Hlast & _ & Hin & Hout).
  exists args, op1, h1, op2, w2, w3. split; [exact Hrun|]. split; [exact Hsteps|]. split; [exact Hlast|].
  clear -Hin Hout. split.
  - transitivity (ms_read ex_contents 6); [apply Hin|reflexivity].
    exists (MkIov (MkPtr 3 0) 5 2). unfold iov_end. simpl. split; [right; right; left|]. split; [lia|done].
  - transitivity (byte_at ex_heap (MkPtr 3 2)); [|vm_compute; reflexivity]. apply Hout; [simpl; lia|].
    intros x (v & Hv & Hx & Heq). unfold ex_iovs in Hv. rewrite !elem_of_cons in Hv.
    unfold iov_end, ptr_add in *. destruct Hv as [->|[->|[->|Hv%not_elem_of_nil]]]; simpl in *; try done;
      injection Heq as Heq; lia.
Defined.
