(* ===== verification/IoConc.v ===== *)
(** * Writes that run at the same time (src/driver_motr_obj.c)

    Several operations on one object share memory and the object in Motr.  Each goes
    its own way of [IoExec]: Motr carries out the operation at the head of its chain
    and calls back, in any order.  A write that does not cover whole pages reads the
    rest of a page before it writes it; nothing keeps another write to the same page
    from happening in between. *)

From S2P Require Import Prelude ObjId HintMap Mem Types IoVec IoAlign DriverOp IoExec IoSteps IoWrite.

(** The operations that have been launched with their arguments, memory and the
    contents of the object. *)
Record conc_st `{MotrStore} := MkConc {
  cs_ops : list (rw_mop * rw_args);
  cs_heap : heap;
  cs_store : mstore
}.

Section Conc.
Context `{IoEnv} `{MotrStore} (attrs_put : mio_obj → rw_mop → heap → outcome (Z * rw_mop * heap)).

(** A write is launched. *)
Definition conc_write (obj : mio_obj) (iov : list mio_iovec) (op : rw_mop) (s : conc_st) : outcome (Z * conc_st) :=
  '(rc, args, op, h) ← mio_motr_obj_writev obj iov op (cs_heap s);
  Done (rc, MkConc _ match args with Some args => cs_ops s ++ [(op, args)] | None => cs_ops s end h (cs_store s)).

(** Motr carries out the operation at the head of a chain - and calls back. *)
Definition conc_execute (i : nat) (s : conc_st) : outcome conc_st :=
  match cs_ops s !! i with
  | None => Done s
  | Some (op, args) =>
      w ← io_execute op (MkWorld _ args (cs_heap s) (cs_store s));
      Done (MkConc _ (<[i := (op, w_args w)]> (cs_ops s)) (w_heap w) (w_store w))
  end.

Definition conc_complete (i : nat) (s : conc_st) : outcome conc_st :=
  match cs_ops s !! i with
  | None => Done s
  | Some (op, args) =>
      '(_, op, w) ← io_complete attrs_put op (MkWorld _ args (cs_heap s) (cs_store s));
      Done (MkConc _ (<[i := (op, w_args w)]> (cs_ops s)) (w_heap w) (w_store w))
  end.

(** What happens: a launch, an operation is carried out and calls back, the last
    operation of a write is carried out. *)
Inductive conc_event :=
| Launch (obj : mio_obj) (iov : list mio_iovec) (op : rw_mop)
| Complete (i : nat)
| Execute (i : nat).

Fixpoint conc_run (l : list conc_event) (s : conc_st) : outcome conc_st :=
  match l with
  | [] => Done s
  | e :: l =>
      s ← match e with
          | Launch obj iov op => '(_, s) ← conc_write obj iov op s; Done s
          | Complete i => conc_complete i s
          | Execute i => conc_execute i s
          end;
      conc_run l s
  end.

(** All data of a write have been sent: its last operation is that of the last
    vectors. *)
Definition all_sent (a : rw_mop * rw_args) : bool :=
  bool_decide (rwa_aligned_progress a.2 = vec_len (rwa_aligned a.2)).
End Conc.

(** ** Two writes to one page

    The page of 4 bytes at 0 of an object of 17 bytes that holds 100, 101, ...; one
    write has the bytes 10 and 11 for its first half, the other 30 and 31 for the
    second. *)
#[local] Existing Instance ex_io_env.
#[local] Existing Instance ex_store.

Definition ex_half1 : list mio_iovec := [MkIov (MkPtr 1 0) 0 2].
Definition ex_half2 : list mio_iovec := [MkIov (MkPtr 2 0) 2 2].
Definition ex_launch1 : conc_event := Launch ex_sized_obj ex_half1 ex_write_op.
Definition ex_launch2 : conc_event := Launch ex_sized_obj ex_half2 ex_write_op.

(** The page at the end, and whether all data have been sent. *)
Definition ex_conc (l : list conc_event) : outcome (list Z * list bool) :=
  s ← conc_run ex_attrs_put l (MkConc _ [] ex_heap ex_contents);
  Done (ms_read (cs_store s) <$> [0; 1; 2; 3], all_sent <$> cs_ops s).

(** One after the other: both halves are there. *)
Example halves_in_turn :
  ex_conc [ex_launch1; Complete 0; Execute 0; ex_launch2; Complete 1; Execute 1] =
    Done ([10; 11; 30; 31], [true; true]).
Proof. vm_compute. reflexivity. Qed.

Lemma half_request_ok iov p off : iov = [MkIov (MkPtr p 0) off 2] → p = 1 ∨ p = 2 → 0 <= off < 10 →
  request_ok 4 24 ex_sized_obj iov ex_heap.
Proof.
  intros -> Hp Hoff. destruct ex_request_ok as [Hr Hd Hh Hpl _ _ _ _ _ _ _ _].
  assert (0 < p < 4) by lia.
  split; try done.
  - unfold iov_ok, iov_end. repeat constructor; simpl; lia.
  - repeat constructor; simpl; lia.
  - repeat constructor.
  - unfold mem_valid, ex_heap. repeat constructor; simpl; [by intros [= ->]; lia|].
    destruct Hp as [-> | ->]; eexists; (split; [reflexivity|simpl; lia]).
  - repeat constructor; simpl; lia.
Qed.

(** Two writes that share no byte and that the driver accepts, launched before the
    first is complete: both have sent all their data, and the bytes of the first are
    lost. *)
Theorem concurrent_writes_lose_bytes :
  request_ok 4 24 ex_sized_obj ex_half1 ex_heap ∧ request_ok 4 24 ex_sized_obj ex_half2 ex_heap ∧
  (∀ x p q, iov_loc ex_half1 x p → ¬ iov_loc ex_half2 x q) ∧
  ex_conc [ex_launch1; ex_launch2; Complete 0; Complete 1; Execute 0; Execute 1] =
    Done ([100; 101; 30; 31], [true; true]).
Proof.
  split; [by apply (half_request_ok _ 1 0); [|left|lia]|]. split; [by apply (half_request_ok _ 2 2); [|right|lia]|].
  split; [|vm_compute; reflexivity]. intros x p q (v & Hv & Hx & _) (u & Hu & Hy & _).
  apply list_elem_of_singleton in Hv as ->. apply list_elem_of_singleton in Hu as ->. unfold iov_end in *. simpl in *. lia.
Qed.
